(* ===== verification/_CoqProject ===== *)
-Q . S2P
Prelude.v
SortSearch.v
Gerror.v
Iface.v
Base64.v
Config.v
Paths.v
Configuration.v
ConfigurationFacts.v
Store.v
Datastore.v
Tables.v
UtilStrings.v
Objects.v
Filestore.v
Validations.v
Versioning.v
Cookbooks.v
CookbookFacts.v
CookbookSafety.v
CookbookListing.v
Digraph.v
Tarjan.v
Depgraph.v
GraphValidate.v
CookbookDeps.v
Deperr.v
DepsFacts.v
Flatten.v
FlattenPaths.v
FileIndex.v
Query.v
QueryParser.v
ParserFacts.v
ParserText.v
PgSearch.v
PgFacts.v
World.v
Expiry.v
Nodes.v
Roles.v
Environments.v
Sandboxes.v
Clients.v
Users.v
Actors.v
DataBags.v
Reports.v
Loginfo.v
Searches.v
SearchFacts.v
Reindex.v
ReindexPool.v
Http.v
Statuses.v
Quorum.v
Shoveys.v
ShoveyFacts.v
HandlersObj.v
HandlersData.v
HandlersCook.v
HandlersMisc.v
Authentication.v
HandlersSearch.v
HandlersShovey.v
Dump.v
DumpRecords.v
Server.v
Effects.v
Lawful.v
LawfulSearch.v
LawfulShovey.v
ServerFacts.v
ServerSafety.v
Maintenance.v
Confinement.v
TypeSafety.v
Scenarios.v
Answers.v
DumpFacts.v
