(* ===== verification/Prelude.v ===== *)
(** * Verification of goiardi, a Chef server written in Go

    goiardi keeps nodes, roles, environments, cookbooks, data bags, clients and
    users, serves them to chef-client and knife, indexes them for search,
    resolves run lists to cookbook versions, and pushes jobs to nodes.  This
    library models the server from the parsing of a signed request down to the
    data store and the search index, running with the in-memory data store (no
    SQL database, no S3, no local file directory, no external secret store),
    and proves its main properties.

    ** Parts of the program and where they are modelled

    Foundations:
    - [Prelude]: byte strings and the functions of Go's strings, strconv, time
      and sort packages the code uses, 64-bit integers with wrap-around, lemmas
      and tactics shared by the other files; [SortSearch]: sort.Search.
    - [Gerror] (gerror/error.go): errors with an HTTP status, and the type
      [outcome]: a result, an error value, or a panic.  A panic is an outcome
      of its own because unchecked type assertions, nil maps and slices out of
      range are behaviours of the code.
    - [Iface]: the dynamically typed JSON values the handlers receive.  A Go map
      is an association list whose order stands for the iteration order; facts
      that must not depend on that order are proved up to permutation.
    - [Config] (config/config.go, util/util.go): the configuration the handlers
      read, and URLs; [Configuration], [ConfigurationFacts] (config/config.go,
      config/syslog.go): merging the options of the command line with the
      configuration file, and checking the result; [Paths]: package path;
      [Base64]: package encoding/base64.
    - [UtilStrings], [Validations], [Flatten], [FlattenPaths] (util/): helpers
      on slices that share a backing array, validation of uploads, flattening of
      objects, and what that gives for JSON nested in any way.

    Storage:
    - [Store]: the interface [StoreOps]/[StoreLaws] of a store of typed objects
      and its specification, a finite map; [Datastore], [Tables]
      (datastore/datastore.go) implement it, with the tables of node statuses
      and events ([TableOps]/[TableLaws]).  All that follows is proved against
      the interfaces.
    - [Objects]: the stored structs and what gob encoding keeps of them.
    - [World]: the state of the server: the store, the index, the goroutines
      that index an object ([index_step] runs one) and those of pushed jobs;
      [Stored]/[StoredLaws] describe one kind of stored object.
    - [Filestore], [Sandboxes], [Expiry], [Reports], [Loginfo], [Statuses]
      (filestore/, sandbox/, report/, loginfo/, node/status.go).

    Cookbooks:
    - [Versioning], [Cookbooks] (cookbook/versioning.go, cookbook/cookbook.go);
      proofs in [CookbookFacts], [CookbookSafety], [CookbookListing].
    - [Digraph], [Tarjan] (digraph/): walks, strongly connected
      components and the text of graphs; [Depgraph], [GraphValidate]
      (depgraph/): constraints and the validation of dependency graphs;
      [CookbookDeps], [DepsFacts], [Deperr]: dependency resolution and its error
      report.

    Search:
    - [FileIndex] (indexer/file_index.go): the index; [Reindex] (search.go):
      the steps of rebuilding it, and what a rebuild keeps true; [ReindexPool]
      (indexer/indexer.go, search.go): its goroutines with their channels and
      locks ([pool_step] lets any goroutine that need not wait take its step).
    - [QueryParser] (search/search-parse.peg.go): the generated parser, rule by
      rule; [ParserFacts]: where it ends; [ParserText]: a logic that follows it
      through the text of a query, and what queries mean.
    - [Query] (search/parse.go, search/search.go): query chains and their
      evaluation; [Searches], [SearchFacts] (search/search.go): fetching,
      partial search, sorting and slicing of the results.
    - [PgSearch], [PgFacts] (search/postgres_search.go): the SQL statement built
      for a query and the names it finds.

    Objects: [Nodes], [Roles], [Environments], [Clients], [Users], [Actors],
    [DataBags], the packages of those names.

    Pushed jobs: [Quorum] (float64 arithmetic as IEEE 754 has it), [Shoveys],
    [ShoveyFacts] (shovey/shovey.go, serfin/serfin.go).

    The server:
    - [Http] (common.go, head.go, reqctx/): requests, responses, the monad of
      handlers with its program logic [wp]; [HandlersObj], [HandlersData],
      [HandlersCook], [HandlersMisc], [HandlersSearch], [HandlersShovey]: the
      request handlers of the main package, one definition each.
    - [Authentication] (authentication/): the check of signatures; [Server]
      (goiardi.go): routing and the checks in front of the handlers;
      [Maintenance] (goiardi.go): default actors, purging and monitoring jobs.
    - [Effects]: the changes a request can make, each with the rights it takes;
      [Lawful], [LawfulSearch], [LawfulShovey]: every handler makes only these;
      [ServerFacts]: so does the server; [ServerSafety]: its invariant;
      [Confinement], [TypeSafety], [Answers], [Scenarios]: its properties, and
      requests that show what its authors did not mean.
    - [Dump], [DumpRecords], [DumpFacts] (export.go, import.go): writing
      everything stored to a dump, and reading one, record by record.

    Definitions keep the names of the Go functions, with an underscore where
    Rocq reserves the name ([New_], [Set_]); a method takes its receiver as an
    argument and returns the changed receiver with its result.

    ** What the theorems show

    - Whole runs of the server ([server_step]: requests, indexing, purging,
      goroutines of jobs, rebuilding the index, restarts) keep the invariant
      [server_inv], and what is read from the store is always of the expected
      type ([Confinement], [TypeSafety]).
    - What a request may change: nothing for GET and HEAD, nothing without a
      valid signature (but adding a file under its checksum), and only the
      actor's own things without administrator rights ([Confinement]); requests
      are accepted exactly when signed as documented, or with a time stamp
      centuries ahead ([Authentication]); the handlers of nodes and roles answer
      authenticated requests without a panic ([Answers]).
    - Storage refines a finite map; logs, statuses and reports change exactly
      as asked ([Tables], [Loginfo], [Statuses], [Reports]).
    - Cookbooks keep their files, prune exactly the unused ones, list and
      resolve versions against the mathematical order ([CookbookSafety],
      [Versioning], [CookbookListing], [Depgraph], [DepsFacts]).
    - Searching: from the text of a query to the page of results, a search of
      nodes gives exactly the stored nodes whose indexed lines satisfy it
      ([ParserText], [Query], [FileIndex], [Flatten], [FlattenPaths],
      [SearchFacts]), for rows of tests without wildcards, the last one possibly
      negated, and objects whose index lines are distinct, which they are unless
      values are trimmed or keys hold colons; saved nodes come to be indexed,
      unless they were saved during a deletion of the same name ([Nodes]), and a
      rebuild comes to an end, without a deadlock and with everything indexed
      ([ReindexPool]), under every interleaving.
    - Search with PostgreSQL: the words of a query never become part of the
      statement, and its numbered placeholders are exactly its arguments
      ([PgFacts]).
    - Graphs: the walks visit exactly what is reachable, Tarjan's algorithm gives
      exactly the strongly connected components, and validation accepts exactly
      the rooted graphs without circles ([Digraph], [Tarjan], [GraphValidate]).
    - A dump of a server is restored by importing it, for the kinds of objects
      for which that is so ([DumpFacts]).
    - Only consistent configurations are accepted, and each of their fields
      comes of the options, the file or a default, in that order but for stated
      exceptions ([ConfigurationFacts]).
    - Jobs: started exactly when the quorum is up, completed when all runs are
      over, output read back as it was sent ([ShoveyFacts]).

    ** Parameters, fuel and bounds

    What the code calls and does not contain is a class or an argument, with
    its documented behaviour as hypotheses where a theorem needs it, and a
    concrete instance for the witnesses: the trie library ([TrieOps]), regular
    expressions ([Regexp]), sort.Sort ([SortImpl]), go-version ([GVersion]),
    RSA, hashes and base64 ([Signatures]), keys and passwords ([Crypto]), the
    JSON text of objects and the formats of times ([Encoder],
    [ReportFormats]), MD5, the Unicode classes, the serf agent and the signing
    of jobs ([Pushing]), unusual notations of floating point numbers
    ([FloatNotations]), the database of the PostgreSQL search ([SqlDb]), the
    times of a dump ([DumpFormats]), the host, its files and the parsers of
    addresses, durations and keys ([System]). Recursion that is not structural
    takes fuel and answers [Panic StackOverflow] or [None] when it runs out:
    [walk_fuel] is proved enough for graph walks, the length of the chain for
    queries, one round more than the query has runes for the parser (on
    queries without letters outside ASCII; on others the code may not end, and
    then no fuel is enough), and the number of pieces stored for the output of
    a run. Integers of type int and int64 wrap around at 64 bits ([wrap64]).

    Each request is handled in one step; the goroutines it starts run between
    requests.  ([Nodes] besides lets requests run between the two halves of a
    save or a deletion of a node, and [ReindexPool] has every operation of the
    goroutines of a rebuild as a step of its own.)  Headers of responses are not described.  A nil and an empty
    slice are not told apart.

    ** What is not modelled

    - The SQL back ends (the sql_funcs.go files, datastore/db.go, the MySQL and
      PostgreSQL variants of every package) and indexer/postgres_indexer.go:
      each function is a statement sent to the database and the copying of rows
      into structs, so that what it does is the meaning of SQL text and of
      stored procedures this library has no semantics for.  Only the statements
      of the PostgreSQL search are built by the program itself, and are
      modelled.
    - S3 (util/s3.go), Vault (secret/), the connections to serf and the loop
      that reads its events: calls to services through client libraries.
    - Key generation, RSA and password hashing (chefcrypto/): calls to Go's
      cryptographic packages, parameters here.
    - The concurrent walk of dependency graphs (depgraph/graph.go, Walk), which
      the program never calls.
    - The profiling pages (a parameter of the server), metrics, log messages,
      signals other than the reload, and the listening sockets. *)
From Stdlib Require Export Ascii ZArith Lia.
From stdpp Require Export base gmap sets list strings pretty sorting.

#[global] Open Scope stdpp_scope.

(** * Bytes and byte classes

    A Go string is a sequence of bytes; it is modelled by [string], whose
    characters are 8-bit [ascii] values.  The regular expressions of the
    sources only use character classes over ASCII, and a byte above 127 is
    outside every one of them, as the rune it belongs to is in Go. *)

Definition code (c : ascii) : Z := Z.of_N (Ascii.N_of_ascii c).

Definition in_range (lo hi : Z) (c : ascii) : bool :=
  (lo <=? code c)%Z && (code c <=? hi)%Z.

Definition is_digit (c : ascii) : bool := in_range 48 57 c.
Definition is_lower (c : ascii) : bool := in_range 97 122 c.
Definition is_upper (c : ascii) : bool := in_range 65 90 c.
Definition is_alnum (c : ascii) : bool := is_digit c || is_lower c || is_upper c.

(** The class [\w] of the Go regexp syntax. *)
Definition is_word (c : ascii) : bool := is_alnum c || bool_decide (c = "_"%char).

(** [strings.ToLower], on ASCII. *)
Definition lower (c : ascii) : ascii := if is_upper c then Ascii.ascii_of_N (Ascii.N_of_ascii c + 32) else c.

Fixpoint to_lower (s : string) : string :=
  match s with String c r => String (lower c) (to_lower r) | EmptyString => EmptyString end.

(** Membership of a byte in a literal cutset. *)
Fixpoint str_mem (c : ascii) (cutset : string) : bool :=
  match cutset with
  | EmptyString => false
  | String d r => bool_decide (c = d) || str_mem c r
  end.

(** The double quote, spelled by its code. *)
Definition dquote : string := String (Ascii.ascii_of_nat 34) EmptyString.
Definition newline : ascii := Ascii.ascii_of_nat 10.

(** * String functions of the Go standard library *)

Fixpoint str_all (p : ascii → bool) (s : string) : bool :=
  match s with
  | EmptyString => true
  | String c r => p c && str_all p r
  end.

Fixpoint str_any (p : ascii → bool) (s : string) : bool :=
  match s with
  | EmptyString => false
  | String c r => p c || str_any p r
  end.

(** [strings.Split(s, sep)] for a one byte separator. *)
Fixpoint str_split (sep : ascii) (s : string) : list string :=
  match s with
  | EmptyString => [EmptyString]
  | String c r =>
      if bool_decide (c = sep) then EmptyString :: str_split sep r
      else match str_split sep r with
           | [] => [String c EmptyString]
           | w :: ws => String c w :: ws
           end
  end.

(** [strings.Join(l, sep)]. *)
Fixpoint str_join (sep : string) (l : list string) : string :=
  match l with
  | [] => EmptyString
  | [w] => w
  | w :: ws => w +:+ sep +:+ str_join sep ws
  end.

(** [strings.Split(s, sep)[0]] for any non-empty separator. *)
Fixpoint str_before (sep s : string) : string :=
  if String.prefix sep s then EmptyString
  else match s with
       | EmptyString => EmptyString
       | String c r => String c (str_before sep r)
       end.

(** [strings.Contains(s, sub)]. *)
Fixpoint str_contains (sub s : string) : bool :=
  String.prefix sub s ||
  match s with
  | EmptyString => false
  | String _ r => str_contains sub r
  end.

(** The longest prefix of [s] in the class [p], and what follows it: the
    leftmost-longest match of [p*] anchored at the start. *)
Fixpoint str_span (p : ascii → bool) (s : string) : string * string :=
  match s with
  | EmptyString => (EmptyString, EmptyString)
  | String c r =>
      if p c then let '(a, b) := str_span p r in (String c a, b)
      else (EmptyString, s)
  end.

(** [strings.Replace(s, old, new, -1)] for a one byte [old]. *)
Fixpoint str_replace (old : ascii) (new s : string) : string :=
  match s with
  | EmptyString => EmptyString
  | String c r =>
      (if bool_decide (c = old) then new else String c EmptyString)
        +:+ str_replace old new r
  end.

Fixpoint str_drop_while (p : ascii → bool) (s : string) : string :=
  match s with
  | EmptyString => EmptyString
  | String c r => if p c then str_drop_while p r else s
  end.

(** [strings.Trim(s, cutset)]. *)
Definition str_trim (cutset s : string) : string :=
  String.rev (str_drop_while (λ c, str_mem c cutset)
    (String.rev (str_drop_while (λ c, str_mem c cutset) s))).

(** [s[n:]] for [n] within the string (shorter strings give the empty
    suffix; every use in the sources is guarded by a match). *)
Fixpoint str_from (n : nat) (s : string) : string :=
  match n, s with
  | O, _ => s
  | S n, String _ r => str_from n r
  | S _, EmptyString => EmptyString
  end.

(** [strings.TrimSuffix(s, "x")] for one byte, together with whether the
    byte was there: [s] without its last byte when that byte is [c]. *)
Fixpoint str_unsnoc (s : string) : option (string * ascii) :=
  match s with
  | EmptyString => None
  | String c r =>
      match str_unsnoc r with
      | None => Some (EmptyString, c)
      | Some (i, d) => Some (String c i, d)
      end
  end.

(** * Integers: [strconv] *)

Definition max_int64 : Z := 2 ^ 63 - 1.
Definition min_int64 : Z := - 2 ^ 63.
Definition max_uint64 : Z := 2 ^ 64 - 1.

(** Two's complement wrap-around of a 64-bit [int]. *)
Definition wrap64 (z : Z) : Z := (z + 2 ^ 63) `mod` 2 ^ 64 - 2 ^ 63.

Inductive num_error : Set := ErrSyntax | ErrRange.

Definition digit_val (c : ascii) : Z := code c - 48.

(** The digit loop of [strconv.ParseUint] in base 10: the first byte that is
    not a digit is a syntax error, and the first digit that carries the value
    past 64 bits stops the loop with a range error and the largest value. *)
Fixpoint parse_uint_loop (n : Z) (s : string) : Z * option num_error :=
  match s with
  | EmptyString => (n, None)
  | String c r =>
      if is_digit c then
        let n1 := (n * 10 + digit_val c)%Z in
        if (max_uint64 <? n1)%Z then (max_uint64, Some ErrRange)
        else parse_uint_loop n1 r
      else (0%Z, Some ErrSyntax)
  end.

Definition ParseUint10 (s : string) : Z * option num_error :=
  match s with
  | EmptyString => (0%Z, Some ErrSyntax)
  | _ => parse_uint_loop 0 s
  end.

(** [strconv.ParseInt(s, 10, 64)], which is also [strconv.Atoi] on a 64-bit
    platform: the value is kept, clipped, next to a range error. *)
Definition ParseInt10 (s : string) : Z * option num_error :=
  let '(neg, body) :=
    match s with
    | String c r =>
        if bool_decide (c = "-"%char) then (true, r)
        else if bool_decide (c = "+"%char) then (false, r) else (false, s)
    | EmptyString => (false, s)
    end in
  match ParseUint10 body with
  | (_, Some ErrSyntax) => (0%Z, Some ErrSyntax)
  | (un, _) =>
      if negb neg && (max_int64 <? un)%Z then (max_int64, Some ErrRange)
      else if neg && (2 ^ 63 <? un)%Z then (min_int64, Some ErrRange)
      else (if neg then (- un)%Z else un, None)
  end.

Definition Atoi (s : string) : Z := (ParseInt10 s).1.

(** [time.Unix(sec, 0)] and the zero [time.Time], as instants in nanoseconds
    since 1970: seconds are counted from the year 1 in 64 bits, and wrap
    around. *)
Definition unixToInternal : Z := 62135596800.

Definition time_Unix (sec : Z) : Z := ((wrap64 (sec + unixToInternal) - unixToInternal) * 1000000000)%Z.

Definition zero_time : Z := (- unixToInternal * 1000000000)%Z.

(** [fmt.Sprintf] with the verb for decimal integers. *)
Definition itoa (z : Z) : string := pretty z.

(** [strconv.Quote] on ASCII text: quotes and backslashes are escaped, and so
    are the control bytes; bytes above 127 are kept. *)
Definition hex_digit (n : N) : ascii :=
  Ascii.ascii_of_N (if (n <? 10)%N then 48 + n else 87 + n).

Definition quote_byte (c : ascii) : string :=
  let n := Ascii.N_of_ascii c in
  let back (d : ascii) := String (Ascii.ascii_of_N 92) (String d EmptyString) in
  if (n =? 34)%N || (n =? 92)%N then back c
  else if (n =? 7)%N then back "a"%char else if (n =? 8)%N then back "b"%char
  else if (n =? 9)%N then back "t"%char else if (n =? 10)%N then back "n"%char
  else if (n =? 11)%N then back "v"%char else if (n =? 12)%N then back "f"%char
  else if (n =? 13)%N then back "r"%char
  else if (n <? 32)%N || (n =? 127)%N
  then back "x"%char +:+ String (hex_digit (n / 16)) (String (hex_digit (n `mod` 16)) EmptyString)
  else String c EmptyString.

Fixpoint quote_body (s : string) : string :=
  match s with
  | EmptyString => EmptyString
  | String c r => quote_byte c +:+ quote_body r
  end.

Definition str_quote (s : string) : string := dquote +:+ quote_body s +:+ dquote.

(** The text of a [*strconv.NumError]. *)
Definition num_error_text (fn s : string) (e : num_error) : string :=
  "strconv." +:+ fn +:+ ": parsing " +:+ str_quote s +:+ ": " +:+
  match e with ErrSyntax => "invalid syntax" | ErrRange => "value out of range" end.

(** * Sorting

    [sort.Sort] with a [Less] method: a permutation that puts no element
    after one that is less than it.  [le_of less] is the order [sort] leaves
    the slice in; ties may come out in any order in Go, and the theorems only
    use what holds for all of them. *)

Definition le_of {A} (less : A → A → bool) (x y : A) : Prop := less y x = false.

#[global] Instance le_of_dec {A} (less : A → A → bool) : RelDecision (le_of less).
Proof. intros x y. unfold le_of. apply _. Defined.

Definition go_sort {A} (less : A → A → bool) (l : list A) : list A :=
  merge_sort (le_of less) l.

(** [sort.Reverse]. *)
Definition reverse_less {A} (less : A → A → bool) (x y : A) : bool := less y x.

(** [s < t] on Go strings: lexicographic on bytes. *)
Definition str_ltb (s t : string) : bool := String.ltb s t.

(** [sort.Strings]. *)
Definition sort_strings (l : list string) : list string := merge_sort String.le l.

(** * Tactics and hint databases *)

Create HintDb goiardi.
Create Rewrite HintDb goiardi_rw.

(** Split every conjunction, destruct every [match] of the goal and finish. *)
Ltac crush_match := repeat (case_match; simplify_eq/=); try done.

(** Turn the boolean connectives of the hypotheses and goal into propositions. *)
Ltac bool_split :=
  repeat match goal with
  | H : (_ && _) = true |- _ => apply andb_true_iff in H as [? ?]
  | H : (_ || _) = false |- _ => apply orb_false_iff in H as [? ?]
  | H : negb _ = true |- _ => apply negb_true_iff in H
  | H : negb _ = false |- _ => apply negb_false_iff in H
  | H : bool_decide _ = true |- _ => apply bool_decide_eq_true_1 in H
  | H : bool_decide _ = false |- _ => apply bool_decide_eq_false_1 in H
  | |- (_ && _) = true => apply andb_true_iff; split
  | |- negb _ = true => apply negb_true_iff
  | |- negb _ = false => apply negb_false_iff
  end.

(** * Lemmas on strings *)

Lemma str_app_nil_r (s : string) : s +:+ EmptyString = s.
Proof. induction s as [|c s IH]; [done|]. change (String c (s +:+ EmptyString) = String c s). by rewrite IH. Qed.

Lemma str_app_cons (c : ascii) (s t : string) : String c s +:+ t = String c (s +:+ t).
Proof. done. Qed.

Lemma str_app_assoc (s t u : string) : (s +:+ t) +:+ u = s +:+ (t +:+ u).
Proof. induction s as [|c s IH]; [done|]. rewrite !str_app_cons. by rewrite IH. Qed.

Lemma str_length_app (s t : string) :
  String.length (s +:+ t) = (String.length s + String.length t)%nat.
Proof. induction s as [|c s IH]; [done|]. rewrite str_app_cons. simpl. by rewrite IH. Qed.

Lemma str_all_app p s t : str_all p (s +:+ t) = str_all p s && str_all p t.
Proof.
  induction s as [|c s IH]; [done|]. rewrite str_app_cons. simpl.
  by rewrite IH, andb_assoc.
Qed.

Lemma str_any_negb p s : str_any p s = negb (str_all (λ c, negb (p c)) s).
Proof. induction s as [|c s IH]; simpl; [done|]. rewrite IH. by destruct (p c). Qed.

Lemma str_all_impl (p q : ascii → bool) s :
  (∀ c, p c = true → q c = true) → str_all p s = true → str_all q s = true.
Proof. intros H. induction s; simpl; [done|]. intros; bool_split; auto. Qed.

Lemma str_split_nonempty sep s : str_split sep s ≠ [].
Proof. destruct s; simpl; crush_match. Qed.

Lemma str_split_cons_ne sep c s :
  c ≠ sep → ∃ w ws, str_split sep s = w :: ws ∧ str_split sep (String c s) = String c w :: ws.
Proof.
  intros Hne. simpl. rewrite bool_decide_eq_false_2 by done.
  pose proof (str_split_nonempty sep s). destruct (str_split sep s) as [|w ws]; [done|]. eauto.
Qed.

Lemma str_split_no_sep sep s :
  str_all (λ c, negb (bool_decide (c = sep))) s = true → str_split sep s = [s].
Proof.
  induction s as [|c s IH]; intros H; [done|]. simpl in *. bool_split.
  rewrite bool_decide_eq_false_2 by done. by rewrite IH.
Qed.

(** Splitting a word followed by the separator peels the word off. *)
Lemma str_split_app sep w s :
  str_all (λ c, negb (bool_decide (c = sep))) w = true →
  str_split sep (w +:+ String sep s) = w :: str_split sep s.
Proof.
  induction w as [|c w IH]; intros H.
  - simpl. by rewrite bool_decide_eq_true_2.
  - simpl in H. bool_split. rewrite str_app_cons. simpl.
    rewrite bool_decide_eq_false_2 by done. by rewrite IH.
Qed.

Lemma str_join_split sep s : str_join (String sep EmptyString) (str_split sep s) = s.
Proof.
  induction s as [|c s IH]; [done|]. destruct (decide (c = sep)) as [->|Hne].
  - simpl. rewrite bool_decide_eq_true_2 by done.
    pose proof (str_split_nonempty sep s). destruct (str_split sep s) as [|w ws]; [done|].
    change (String sep (str_join (String sep EmptyString) (w :: ws)) = String sep s). by rewrite IH.
  - destruct (str_split_cons_ne sep c s Hne) as (w & ws & E & ->). rewrite E in IH.
    rewrite <-IH. by destruct ws.
Qed.

Lemma str_split_join sep ws :
  ws ≠ [] → Forall (λ w, str_all (λ c, negb (bool_decide (c = sep))) w = true) ws →
  str_split sep (str_join (String sep EmptyString) ws) = ws.
Proof.
  induction ws as [|w ws IH]; [done|]. intros _ Hf. apply Forall_cons in Hf as [Hw Hf].
  destruct ws as [|w' ws]; [by apply str_split_no_sep|].
  change (str_join (String sep EmptyString) (w :: w' :: ws))
    with (w +:+ String sep (str_join (String sep EmptyString) (w' :: ws))).
  rewrite str_split_app by done. by rewrite IH.
Qed.

Lemma str_span_app p s : let '(a, b) := str_span p s in s = a +:+ b ∧ str_all p a = true.
Proof.
  induction s as [|c s IH]; [done|]. simpl. destruct (p c) eqn:E; [|done].
  destruct (str_span p s) as [a b]. destruct IH as [-> Ha]. simpl. by rewrite E, Ha.
Qed.

(** The span stops at the first byte outside of the class. *)
Lemma str_span_stop p s : 
  match (str_span p s).2 with EmptyString => True | String c _ => p c = false end.
Proof.
  induction s as [|c s IH]; [done|]. simpl. destruct (p c) eqn:E; [|done].
  by destruct (str_span p s).
Qed.

Lemma str_span_intro p a b :
  str_all p a = true →
  match b with EmptyString => True | String c _ => p c = false end →
  str_span p (a +:+ b) = (a, b).
Proof.
  intros Ha Hb. induction a as [|c a IH].
  - destruct b as [|c b]; [done|]. simpl. by rewrite Hb.
  - simpl in Ha. bool_split. rewrite str_app_cons. simpl. rewrite H. by rewrite IH.
Qed.

Lemma str_unsnoc_Some s i c : str_unsnoc s = Some (i, c) ↔ s = i +:+ String c EmptyString.
Proof.
  revert i. induction s as [|d s IH]; intros i; simpl.
  - split; [done|]. by destruct i.
  - destruct (str_unsnoc s) as [[j e]|] eqn:E.
    + split.
      * intros [= <- <-]. rewrite str_app_cons. f_equal. by apply IH.
      * destruct i as [|f i]; rewrite ?str_app_cons; intros [= -> H].
        { by rewrite H in E. }
        apply IH in H. simplify_eq. done.
    + split.
      * intros [= <- <-]. destruct s; [done|]. simpl in E. crush_match.
      * destruct i as [|f i]; rewrite ?str_app_cons; intros [= -> H]; [done|].
        apply IH in H. done.
Qed.

(** * Lemmas on numbers *)

Lemma is_digit_spec c : is_digit c = true ↔ (0 ≤ digit_val c ≤ 9)%Z.
Proof. unfold is_digit, in_range, digit_val. rewrite andb_true_iff, !Z.leb_le. lia. Qed.

Lemma is_digit_not (c d : ascii) : is_digit c = true → is_digit d = false → c ≠ d.
Proof. congruence. Qed.

Lemma parse_uint_loop_range n s z e :
  (0 ≤ n ≤ max_uint64)%Z → parse_uint_loop n s = (z, e) → (0 ≤ z ≤ max_uint64)%Z.
Proof.
  revert n. induction s as [|c s IH]; simpl; intros n Hn H; [by simplify_eq|].
  destruct (is_digit c) eqn:E.
  - destruct (max_uint64 <? n * 10 + digit_val c)%Z eqn:Hl; simplify_eq.
    + unfold max_uint64. lia.
    + apply Z.ltb_ge in Hl. apply is_digit_spec in E. eapply IH, H. lia.
  - simplify_eq. unfold max_uint64. lia.
Qed.

(** [Atoi] never leaves the range of a 64-bit [int]. *)
Lemma Atoi_range s : (min_int64 ≤ Atoi s ≤ max_int64)%Z.
Proof.
  unfold Atoi, ParseInt10.
  assert (∀ b, (0 ≤ (ParseUint10 b).1 ≤ max_uint64)%Z) as Hu.
  { intros b. unfold ParseUint10. destruct b; [by cbn; unfold max_uint64; lia|].
    destruct (parse_uint_loop 0 _) eqn:E. eapply parse_uint_loop_range, E. unfold max_uint64; lia. }
  set (p := match s with EmptyString => _ | String _ _ => _ end). destruct p as [neg body].
  specialize (Hu body). destruct (ParseUint10 body) as [un e]. simpl in Hu.
  unfold min_int64, max_int64, max_uint64 in *.
  destruct e as [[]|]; destruct neg; simpl; try lia;
    match goal with |- context [if ?b then _ else _] => destruct b eqn:E end; simpl; lia.
Qed.

Lemma wrap64_small z : (min_int64 ≤ z ≤ max_int64)%Z → wrap64 z = z.
Proof.
  unfold wrap64, min_int64, max_int64. intros Hz. rewrite Z.mod_small; lia.
Qed.

Lemma pretty_N_char_digit x : is_digit (pretty_N_char (x `mod` 10)) = true ∧
  digit_val (pretty_N_char (x `mod` 10)) = Z.of_N (x `mod` 10).
Proof.
  assert (x `mod` 10 < 10)%N as H by (apply N.mod_lt; lia).
  generalize dependent (x `mod` 10)%N. intros y H.
  assert (y = 0 ∨ y = 1 ∨ y = 2 ∨ y = 3 ∨ y = 4 ∨ y = 5 ∨ y = 6 ∨ y = 7 ∨ y = 8 ∨ y = 9)%N
    as Hy by lia.
  destruct_or! Hy; by subst y.
Qed.

(** Folding a digit string from the left. *)
Fixpoint dec_fold (n : Z) (s : string) : Z :=
  match s with
  | EmptyString => n
  | String c r => dec_fold (n * 10 + digit_val c)%Z r
  end.

Lemma dec_fold_mono n s : str_all is_digit s = true → (0 ≤ n → n ≤ dec_fold n s)%Z.
Proof.
  revert n. induction s as [|c s IH]; simpl; intros n H Hn; [lia|].
  apply andb_true_iff in H as [Hc Hs]. apply is_digit_spec in Hc.
  etrans; [|apply IH]; [lia|done|lia].
Qed.

(** On a string of digits the loop of [ParseUint] computes the value, clipped. *)
Lemma parse_uint_loop_digits n s :
  str_all is_digit s = true → (0 ≤ n ≤ max_uint64)%Z →
  parse_uint_loop n s =
    if (max_uint64 <? dec_fold n s)%Z then (max_uint64, Some ErrRange) else (dec_fold n s, None).
Proof.
  revert n. induction s as [|c s IH]; simpl; intros n H Hn.
  - by rewrite (proj2 (Z.ltb_ge _ _)) by lia.
  - apply andb_true_iff in H as [Hc Hs]. rewrite Hc.
    pose proof (proj1 (is_digit_spec c) Hc) as Hd.
    destruct (max_uint64 <? n * 10 + digit_val c)%Z eqn:E.
    + apply Z.ltb_lt in E. rewrite (proj2 (Z.ltb_lt _ _)); [done|].
      eapply Z.lt_le_trans, dec_fold_mono; [done..|lia].
    + apply Z.ltb_ge in E. apply IH; [done|lia].
Qed.

(** The decimal value of a digit string. *)
Definition dec_value (s : string) : Z := dec_fold 0 s.

Lemma ParseInt10_digits s :
  s ≠ EmptyString → str_all is_digit s = true →
  ParseInt10 s = if (max_int64 <? dec_value s)%Z then (max_int64, Some ErrRange)
                 else (dec_value s, None).
Proof.
  intros Hs Hd. unfold ParseInt10. destruct s as [|c s]; [done|].
  assert (is_digit c = true) as Hc by (simpl in Hd; by bool_split).
  rewrite !bool_decide_eq_false_2 by (intros ->; done). unfold ParseUint10.
  rewrite parse_uint_loop_digits by (done || (unfold max_uint64; lia)).
  fold (dec_value (String c s)). unfold max_uint64, max_int64.
  destruct (2 ^ 64 - 1 <? dec_value (String c s))%Z eqn:E; simpl.
  - by rewrite (proj2 (Z.ltb_lt _ _)) by lia.
  - destruct (2 ^ 63 - 1 <? dec_value (String c s))%Z eqn:E2; done.
Qed.

Lemma Atoi_digits s :
  s ≠ EmptyString → str_all is_digit s = true → Atoi s = Z.min max_int64 (dec_value s).
Proof.
  intros ??. unfold Atoi. rewrite ParseInt10_digits by done.
  destruct (max_int64 <? dec_value s)%Z eqn:E; simpl; lia.
Qed.

Lemma dec_fold_app n s t : dec_fold n (s +:+ t) = dec_fold (dec_fold n s) t.
Proof. revert n. induction s as [|c s IH]; intros n; [done|]. apply IH. Qed.

Lemma pretty_N_go_app x s : pretty_N_go x s = pretty_N_go x EmptyString +:+ s.
Proof.
  revert s. induction (N.lt_wf_0 x) as [x _ IH]; intros s.
  destruct (decide (x = 0)%N) as [->|Hx]; [by rewrite !pretty_N_go_0|].
  rewrite !(pretty_N_go_step x) by lia.
  rewrite (IH (x `div` 10)%N ltac:(apply N.div_lt; lia) (String _ s)).
  rewrite (IH (x `div` 10)%N ltac:(apply N.div_lt; lia) (String _ EmptyString)).
  by rewrite str_app_assoc.
Qed.

Lemma pretty_N_go_digits x :
  str_all is_digit (pretty_N_go x EmptyString) = true ∧
  dec_fold 0 (pretty_N_go x EmptyString) = Z.of_N x.
Proof.
  induction (N.lt_wf_0 x) as [x _ IH].
  destruct (decide (x = 0)%N) as [->|Hx]; [by rewrite !pretty_N_go_0|].
  rewrite (pretty_N_go_step x) by lia. rewrite pretty_N_go_app.
  destruct (IH (x `div` 10)%N ltac:(apply N.div_lt; lia)) as [Ha Hv].
  destruct (pretty_N_char_digit x) as [Hd Hw].
  rewrite str_all_app, Ha, dec_fold_app, Hv. simpl. rewrite Hd, Hw. split; [done|].
  pose proof (N.div_mod x 10). lia.
Qed.

Lemma pretty_N_go_head x :
  (0 < x)%N → ∃ c r, pretty_N_go x EmptyString = String c r ∧ c ≠ "0"%char.
Proof.
  induction (N.lt_wf_0 x) as [x _ IH]. intros Hx.
  rewrite (pretty_N_go_step x) by lia. rewrite pretty_N_go_app.
  destruct (decide (x `div` 10 = 0)%N) as [E|E].
  - rewrite E, pretty_N_go_0. eexists _, _. split; [done|].
    apply N.div_small_iff in E; [|lia]. rewrite N.mod_small by done.
    assert (x = 1 ∨ x = 2 ∨ x = 3 ∨ x = 4 ∨ x = 5 ∨ x = 6 ∨ x = 7 ∨ x = 8 ∨ x = 9)%N as Hy by lia.
    destruct_or! Hy; by subst x.
  - destruct (IH (x `div` 10)%N) as (c & r & -> & Hc); [apply N.div_lt; lia|by apply N.neq_0_lt_0|]. eauto.
Qed.

(** A positive number prints without a leading zero. *)
Lemma itoa_head z : (0 < z)%Z → ∃ c r, itoa z = String c r ∧ c ≠ "0"%char.
Proof. intros Hz. destruct z as [|p|p]; [lia| |lia]. by apply (pretty_N_go_head (N.pos p)). Qed.

Lemma itoa_digits z : (0 ≤ z)%Z → str_all is_digit (itoa z) = true ∧
  dec_value (itoa z) = z ∧ itoa z ≠ EmptyString.
Proof.
  intros Hz. destruct z as [|p|p]; [done| |lia].
  change (itoa (Z.pos p)) with (pretty_N_go (N.pos p) EmptyString). destruct (pretty_N_go_digits (N.pos p)) as [Ha Hv].
  split_and!; [done|done|]. intros E. unfold dec_value in *. rewrite E in Hv. done.
Qed.

(** Printing an [int] and reading it back gives it back. *)
Lemma Atoi_itoa z : (0 ≤ z ≤ max_int64)%Z → Atoi (itoa z) = z.
Proof. intros ?. destruct (itoa_digits z) as (?&?&?); [lia|]. rewrite Atoi_digits by done. lia. Qed.

(** * Lemmas on sorting *)

Section SortLemmas.
Context {A : Type} (less : A → A → bool).

Lemma go_sort_Permutation l : go_sort less l ≡ₚ l.
Proof. apply merge_sort_Permutation. Qed.

Lemma elem_of_go_sort x l : x ∈ go_sort less l ↔ x ∈ l.
Proof. by rewrite go_sort_Permutation. Qed.

(** [Less] is a strict weak order: what [sort.Sort] asks of it. *)
Class StrictWeak : Prop := {
  less_asym x y : less x y = true → less y x = false;
  less_neg_trans x y z : less y x = false → less z y = false → less z x = false }.

Context `{StrictWeak}.

#[local] Instance le_of_trans : Transitive (le_of less).
Proof. intros x y z. unfold le_of. eauto using less_neg_trans. Qed.

#[local] Instance le_of_total : Total (le_of less).
Proof.
  intros x y. unfold le_of. destruct (less y x) eqn:E; [|by left].
  right. by apply less_asym.
Qed.

Lemma go_sort_sorted l : StronglySorted (le_of less) (go_sort less l).
Proof. apply StronglySorted_merge_sort; apply _. Qed.
End SortLemmas.

(** Sorting commutes with an embedding: the comparisons are the same. *)
Section SortMap.
Context {A B : Type} (f : B → A) (less : A → A → bool).

Definition less_via (x y : B) : bool := less (f x) (f y).

Lemma list_merge_map l1 l2 :
  list_merge (le_of less) (f <$> l1) (f <$> l2) = f <$> list_merge (le_of less_via) l1 l2.
Proof.
  revert l2. induction l1 as [|x l1 IH1]; [by destruct l2|]. induction l2 as [|y l2 IH2]; [done|].
  simpl. unfold le_of, less_via in *. simpl in *.
  destruct (decide (less (f y) (f x) = false)); simpl; f_equal; [apply (IH1 (y :: l2))|apply IH2].
Qed.

Let fs : list (option (list B)) → list (option (list A)) := fmap (M:=list) (fmap (M:=option) (fmap (M:=list) f)).

Lemma merge_list_to_stack_map st l :
  merge_list_to_stack (le_of less) (fs st) (f <$> l) = fs (merge_list_to_stack (le_of less_via) st l).
Proof.
  revert l. induction st as [|[l'|] st IH]; intros l; simpl; [done| |done].
  f_equal. by rewrite list_merge_map, <-IH.
Qed.

Lemma merge_stack_map st :
  merge_stack (le_of less) (fs st) = f <$> merge_stack (le_of less_via) st.
Proof.
  induction st as [|[l'|] st IH]; [done| |done].
  change (list_merge (le_of less) (f <$> l') (merge_stack (le_of less) (fs st)) =
    f <$> list_merge (le_of less_via) l' (merge_stack (le_of less_via) st)).
  by rewrite IH, list_merge_map.
Qed.

Lemma go_sort_map l : go_sort less (f <$> l) = f <$> go_sort less_via l.
Proof.
  unfold go_sort, merge_sort. change (@nil (option (list A))) with (fs []).
  generalize (@nil (option (list B))). induction l as [|x l IH]; intros st; simpl.
  - apply merge_stack_map.
  - rewrite <-IH. f_equal. apply (merge_list_to_stack_map st [x]).
Qed.
End SortMap.

(** [sort.Sort] with a [Less] that is a strict weak order on the elements that
    are actually there. *)
Lemma go_sort_sorted_where {A} (P : A → Prop) (less : A → A → bool) (l : list A) :
  (∀ x y, P x → P y → less x y = true → less y x = false) →
  (∀ x y z, P x → P y → P z → less y x = false → less z y = false → less z x = false) →
  Forall P l → StronglySorted (le_of less) (go_sort less l).
Proof.
  intros Ha Ht Hl. assert (∃ l' : list {x | P x}, l = proj1_sig <$> l') as [l' ->].
  { clear -Hl. induction Hl as [|x l Hx Hl [l' ->]]; [by exists []|]. by exists (exist _ x Hx :: l'). }
  rewrite go_sort_map. assert (StrictWeak (less_via (proj1_sig (P := P)) less)) as Hw.
  { split; unfold less_via.
    - intros [x Hx] [y Hy]. by apply Ha.
    - intros [x Hx] [y Hy] [z Hz]. by apply Ht. }
  pose proof (go_sort_sorted (less_via (proj1_sig (P := P)) less) l') as Hs.
  by eapply StronglySorted_fmap; [|exact Hs].
Qed.

Lemma go_sort_sorted_on {A} (P : A → bool) (less : A → A → bool) (l : list A) :
  (∀ x y, P x = true → P y = true → less x y = true → less y x = false) →
  (∀ x y z, P x = true → P y = true → P z = true →
     less y x = false → less z y = false → less z x = false) →
  Forall (λ x, P x = true) l → StronglySorted (le_of less) (go_sort less l).
Proof. apply (go_sort_sorted_where (λ x, P x = true)). Qed.

Lemma sort_strings_Permutation l : sort_strings l ≡ₚ l.
Proof. apply merge_sort_Permutation. Qed.

Lemma sort_strings_sorted l : StronglySorted String.le (sort_strings l).
Proof. apply StronglySorted_merge_sort; apply _. Qed.

Lemma elem_of_sort_strings x l : x ∈ sort_strings l ↔ x ∈ l.
Proof. by rewrite sort_strings_Permutation. Qed.

(** The result of [sort.Strings] does not depend on the order of its input:
    the iteration order of a Go map disappears behind it. *)
Lemma sort_strings_proper l1 l2 : l1 ≡ₚ l2 → sort_strings l1 = sort_strings l2.
Proof.
  intros H. eapply (StronglySorted_unique String.le).
  - apply sort_strings_sorted.
  - apply sort_strings_sorted.
  - by rewrite !sort_strings_Permutation.
Qed.

#[export] Instance sort_strings_Proper : Proper ((≡ₚ) ==> eq) sort_strings.
Proof. intros l1 l2. apply sort_strings_proper. Qed.

Lemma str_ltb_le s t : str_ltb s t = true ↔ String.le s t ∧ s ≠ t.
Proof.
  unfold str_ltb, String.le, String.ltb, String.leb.
  destruct (String.compare s t) eqn:E; rewrite ?Is_true_true.
  - apply String.compare_eq_iff in E as ->. split; [done|]. by intros [].
  - split; [|done]. intros _. split; [done|]. intros ->.
    pose proof (String.compare_antisym t t) as Ha. by rewrite E in Ha.
  - split; [done|]. by intros [].
Qed.

#[export] Hint Rewrite @elem_of_go_sort elem_of_sort_strings : goiardi_rw.
#[export] Hint Resolve sort_strings_sorted go_sort_sorted : goiardi.

(** * What comes to hold *)

(** What comes to hold whatever happens: it holds, or something can happen and
    after whatever happens it comes to hold. *)
Inductive eventually {A : Type} (R : A → A → Prop) (P : A → Prop) : A → Prop :=
| ev_now x : P x → eventually R P x
| ev_later x : (∃ y, R x y) → (∀ y, R x y → eventually R P y) → eventually R P x.

(** Steps that count something down, from states of an invariant in which a
    step is possible until the goal is met, come to meet it. *)
Lemma eventually_measure {A} (R : A → A → Prop) (P I : A → Prop) (m : A → nat * nat) :
  (∀ x y, I x → R x y → I y) → (∀ x, I x → P x ∨ ∃ y, R x y) →
  (∀ x y, I x → R x y → (m y).1 < (m x).1 ∨ (m y).1 = (m x).1 ∧ (m y).2 < (m x).2) →
  ∀ x, I x → eventually R P x.
Proof.
  intros Hinv Hprog Hm. assert (∀ a b x, (m x).1 = a → (m x).2 = b → I x → eventually R P x) as H; [|by eauto].
  induction a as [a IHa] using lt_wf_ind. induction b as [b IHb] using lt_wf_ind. intros x Ha Hb Hx.
  destruct (Hprog x Hx) as [HP|Hy]; [by apply ev_now|]. apply ev_later; [done|]. intros y HR.
  pose proof (Hinv x y Hx HR) as Hy'. destruct (Hm x y Hx HR) as [Hlt|[Heq Hlt]].
  - eapply IHa; [|done..]. lia.
  - eapply IHb; [|lia|done..]. lia.
Qed.
