(* ===== verification/SortSearch.v ===== *)
(** [sort.Sort] and [sort.Search] on slices ordered by a numeric key, as the
    packages use them to find the elements up to a time. *)
From S2P Require Import Prelude.

(** Binary search: the least index of [i, j) that passes, given that
    the test stays true once it is. *)
Fixpoint search_loop (fuel : nat) (f : nat → bool) (i j : nat) : nat :=
  match fuel with
  | 0 => i
  | Datatypes.S fuel =>
      if (i <? j)%nat then
        let h := ((i + j) / 2)%nat in
        if f h then search_loop fuel f i h else search_loop fuel f (h + 1) j
      else i
  end.

Definition sort_Search (n : nat) (f : nat → bool) : nat := search_loop n f 0 n.

(** Binary search finds the boundary of a monotone test. *)
Lemma search_loop_spec fuel f i j :
  i ≤ j → (j - i ≤ fuel)%nat → (∀ x y, x ≤ y → f x = true → f y = true) →
  let r := search_loop fuel f i j in
  i ≤ r ∧ r ≤ j ∧ (∀ x, i ≤ x → x < r → f x = false) ∧ (r < j → f r = true).
Proof.
  revert i j. induction fuel as [|fuel IH]; intros i j Hij Hf Hm; cbn [search_loop]; cbv zeta.
  { split_and!; [lia..|]. lia. }
  destruct (i <? j) eqn:E; [apply Nat.ltb_lt in E|apply Nat.ltb_ge in E; split_and!; lia].
  assert (i ≤ (i + j) / 2 < j) as [Hh1 Hh2].
  { split; [apply Nat.div_le_lower_bound; lia|apply Nat.Div0.div_lt_upper_bound; lia]. }
  set (h := (i + j) / 2) in *. clearbody h. destruct (f h) eqn:Eh.
  - destruct (IH i h) as (H1 & H2 & H3 & H4); [lia|lia|done|]. split_and!; [lia..|done|].
    intros Hr. destruct (decide (search_loop fuel f i h < h)) as [?|Hge]; [by apply H4|].
    by replace (search_loop fuel f i h) with h by lia.
  - destruct (IH (h + 1) j) as (H1 & H2 & H3 & H4); [lia|lia|done|]. split_and!; [lia..| |done].
    intros x Hx Hxr. destruct (decide (h + 1 ≤ x)); [apply H3; lia|].
    destruct (f x) eqn:Ex; [|done]. rewrite (Hm x h) in Eh; [done|lia|done].
Qed.

Lemma search_loop_ext fuel f g i j :
  (∀ k, f k = g k) → search_loop fuel f i j = search_loop fuel g i j.
Proof.
  intros Hfg. revert i j. induction fuel as [|fuel IH]; intros i j; [done|]. cbn [search_loop].
  destruct (i <? j); [|done]. rewrite Hfg. destruct (g _); apply IH.
Qed.

Lemma filter_all_none {A} (P : A → Prop) `{∀ x, Decision (P x)} l :
  (Forall P l → filter P l = l) ∧ (Forall (λ x, ¬ P x) l → filter P l = []).
Proof.
  induction l as [|x l [IH1 IH2]]; [done|]. rewrite !Forall_cons. split; intros [Hx Hl].
  - rewrite filter_cons_True, IH1; done.
  - rewrite filter_cons_False, IH2; done.
Qed.

Section keyed.
  Context {A : Type} (key : A → Z).
  Implicit Types (l : list A) (x : A).

Definition key_less (a b : A) : bool := (key a <? key b)%Z.

#[export] Instance key_less_weak : StrictWeak key_less.
Proof.
  split; unfold key_less.
  - intros x y. rewrite Z.ltb_lt, Z.ltb_ge. lia.
  - intros x y z. rewrite !Z.ltb_ge. lia.
Qed.

(** The test [t <= key] at an index. *)
Definition at_least (t : Z) (l : list A) (i : nat) : bool :=
  match l !! i with Some x => (t <=? key x)%Z | None => true end.

Lemma sorted_dates l i j a b :
  StronglySorted (le_of key_less) l → i ≤ j → l !! i = Some a → l !! j = Some b →
  (key a ≤ key b)%Z.
Proof.
  intros Hs. revert i j. induction Hs as [|x l Hs IH Hx]; intros i j Hij Ha Hb; [done|].
  destruct i as [|i], j as [|j]; simpl in *; simplify_eq; [lia| |lia|apply (IH i j); [lia|done..]].
  rewrite Forall_forall in Hx. specialize (Hx b ltac:(by eapply list_elem_of_lookup_2)).
  unfold le_of, key_less in Hx. by apply Z.ltb_ge in Hx.
Qed.

Lemma search_split t l :
  StronglySorted (le_of key_less) l →
  let j := sort_Search (length l) (at_least t l) in
  j ≤ length l ∧ Forall (λ x, (key x < t)%Z) (take j l) ∧
  Forall (λ x, ¬ (key x < t)%Z) (drop j l).
Proof.
  intros Hs.
  assert (∀ i k, i ≤ k → at_least t l i = true → at_least t l k = true) as Hm.
  { intros i k Hik. unfold at_least. destruct (l !! i) as [a|] eqn:Ex, (l !! k) as [b|] eqn:Ey; try done.
    - rewrite !Z.leb_le. pose proof (sorted_dates l i k a b Hs Hik Ex Ey). lia.
    - apply lookup_ge_None in Ex. apply lookup_lt_Some in Ey. lia. }
  destruct (search_loop_spec (length l) (at_least t l) 0 (length l)) as (_ & Hle & Hbelow & Hat); [lia|lia|done|].
  fold (sort_Search (length l) (at_least t l)) in *. cbv zeta.
  set (j := sort_Search (length l) (at_least t l)) in *. clearbody j. split_and!; [lia|..];
    apply Forall_lookup; intros i x Hi.
  - apply lookup_take_Some in Hi as [Hi Hij].
    specialize (Hbelow i ltac:(lia) Hij). unfold at_least in Hbelow. rewrite Hi in Hbelow. by apply Z.leb_gt in Hbelow.
  - rewrite lookup_drop in Hi. pose proof (lookup_lt_Some _ _ _ Hi).
    assert (at_least t l (j + i) = true) as Hi' by (apply (Hm j (j + i)); [lia|]; apply Hat; lia).
    unfold at_least in Hi'. rewrite Hi in Hi'. apply Z.leb_le in Hi'. lia.
Qed.

Lemma take_old t l x :
  StronglySorted (le_of key_less) l →
  x ∈ take (sort_Search (length l) (at_least t l)) l ↔ x ∈ l ∧ (key x < t)%Z.
Proof.
  intros Hs. destruct (search_split t l Hs) as (_ & Ht & Hd). cbv zeta in *. rewrite Forall_forall in Ht, Hd.
  set (j := sort_Search _ _) in *. split.
  - intros Hin. split; [|by apply Ht]. rewrite <-(take_drop j l), elem_of_app. by left.
  - intros [Hin Hlt]. rewrite <-(take_drop j l), elem_of_app in Hin. destruct Hin as [?|Hin]; [done|].
    by apply Hd in Hin.
Qed.

Lemma count_old t l :
  StronglySorted (le_of key_less) l →
  length (filter (λ x, (key x < t)%Z) l) = sort_Search (length l) (at_least t l).
Proof.
  intros Hs. destruct (search_split t l Hs) as (Hj & Ht & Hd). cbv zeta in *. set (j := sort_Search _ _) in *.
  rewrite <-(take_drop j l) at 1. rewrite filter_app, length_app.
  rewrite (proj1 (filter_all_none _ _) Ht), (proj2 (filter_all_none _ _) Hd). simpl. rewrite length_take. lia.
Qed.

(** What is not taken are the elements from [t] on. *)
Lemma drop_new t l :
  StronglySorted (le_of key_less) l →
  drop (sort_Search (length l) (at_least t l)) l = filter (λ x, ¬ (key x < t)%Z) l.
Proof.
  intros Hs. destruct (search_split t l Hs) as (_ & Ht & Hd). cbv zeta in *. set (j := sort_Search _ _) in *.
  rewrite <-(take_drop j l) at 2. rewrite filter_app.
  rewrite (proj2 (filter_all_none _ _)), (proj1 (filter_all_none _ _) Hd); [done|].
  eapply Forall_impl; [exact Ht|]. simpl. naive_solver.
Qed.
End keyed.
