(* ===== verification/Gerror.v ===== *)
(** The error type of package [gerror] (src/gerror/error.go) and the outcomes
    of Go functions: a result, a returned error, or a run-time panic. *)
From S2P Require Import Prelude.

(** * net/http status codes the sources use *)

Definition StatusOK : Z := 200.
Definition StatusCreated : Z := 201.
Definition StatusBadRequest : Z := 400.
Definition StatusUnauthorized : Z := 401.
Definition StatusForbidden : Z := 403.
Definition StatusNotFound : Z := 404.
Definition StatusMethodNotAllowed : Z := 405.
Definition StatusNotAcceptable : Z := 406.
Definition StatusConflict : Z := 409.
Definition StatusPreconditionFailed : Z := 412.
Definition StatusInternalServerError : Z := 500.
Definition StatusServiceUnavailable : Z := 503.

(** * The error values *)

(** The private struct [gerror]: a message and an HTTP status. *)
Record gerror : Type := GError { msg : string; status : Z }.

#[export] Instance gerror_eq_dec : EqDecision gerror.
Proof. solve_decision. Defined.

(** [New]: the status defaults to 400. *)
Definition New (text : string) : gerror :=
  {| msg := text; status := StatusBadRequest |}.

(** [Errorf], after formatting: the format string is applied at the call. *)
Definition Errorf (text : string) : gerror := New text.

(** [fmt.Sprintf(format)] with no arguments: a doubled percent sign is one, and
    any other directive (its flags, width and precision skipped) is reported
    as missing its argument.  Argument indexes and [*] widths are read as
    verbs, which only changes the text of the report. *)
Fixpoint sprintf0 (directive : bool) (f : string) : string :=
  match f with
  | EmptyString => if directive then "%!(NOVERB)" else EmptyString
  | String c r =>
      if directive then
        if str_mem c "#+- .0123456789" then sprintf0 true r
        else if bool_decide (c = "%"%char) then String c (sprintf0 false r)
        else "%!" +:+ String c ("(MISSING)" +:+ sprintf0 false r)
      else if bool_decide (c = "%"%char) then sprintf0 true r
      else String c (sprintf0 false r)
  end.

(** [CastErr] uses the text of another error as a format string. *)
Definition CastErr (text : string) : gerror := Errorf (sprintf0 false text).

(** [StatusError]: a message with a status of its own. *)
Definition StatusError (m : string) (st : Z) : gerror := {| msg := m; status := st |}.

(** The methods of [*gerror]; [SetStatus] writes through the pointer. *)
Definition Error (e : gerror) : string := e.(msg).

Definition SetStatus (e : gerror) (st : Z) : gerror :=
  {| msg := e.(msg); status := st |}.

Definition Status (e : gerror) : Z := e.(status).

(** * Outcomes *)

(** What stops a goroutine: a failed type assertion, a nil dereference, an
    index out of range, the stack overflow of an unbounded recursion, or a call
    of [panic]. *)
Inductive panic : Set := TypeAssertion | NilDeref | IndexOutOfRange | StackOverflow | ExplicitPanic.

Inductive outcome (A : Type) : Type :=
| Ok (a : A)
| Err (e : gerror)
| Panic (p : panic).
Arguments Ok {A} a.
Arguments Err {A} e.
Arguments Panic {A} p.

#[export] Instance panic_eq_dec : EqDecision panic.
Proof. solve_decision. Defined.

#[export] Instance outcome_eq_dec `{EqDecision A} : EqDecision (outcome A).
Proof. solve_decision. Defined.

#[export] Instance outcome_ret : MRet outcome := @Ok.

#[export] Instance outcome_bind : MBind outcome := λ A B f m,
  match m with Ok a => f a | Err e => Err e | Panic p => Panic p end.

#[export] Instance outcome_fmap : FMap outcome := λ A B f m,
  match m with Ok a => Ok (f a) | Err e => Err e | Panic p => Panic p end.

(** [if !ok { return err }]. *)
Definition ensure (b : bool) (e : gerror) : outcome () := if b then Ok () else Err e.

(** The outcome as the caller that only looks at [err == nil] sees it. *)
Definition is_ok {A} (m : outcome A) : bool := match m with Ok _ => true | _ => false end.

(** A text without percent signs is cast unchanged, with status 400. *)
Lemma CastErr_plain text :
  str_all (λ c, negb (bool_decide (c = "%"%char))) text = true → CastErr text = New text.
Proof.
  intros H. unfold CastErr, Errorf. f_equal. induction text as [|c r IH]; [done|].
  simpl in *. bool_split. rewrite bool_decide_eq_false_2 by done. by rewrite IH.
Qed.

(** * Inversion of the monadic notation *)

Lemma bind_Ok {A B} (m : outcome A) (f : A → outcome B) (b : B) :
  (m ≫= f) = Ok b ↔ ∃ a, m = Ok a ∧ f a = Ok b.
Proof. destruct m; simpl; naive_solver. Qed.

Lemma fmap_Ok {A B} (m : outcome A) (f : A → B) (b : B) :
  (f <$> m) = Ok b ↔ ∃ a, m = Ok a ∧ b = f a.
Proof. destruct m; simpl; naive_solver. Qed.

Lemma ensure_Ok b e u : ensure b e = Ok u ↔ b = true.
Proof. unfold ensure. destruct b, u; naive_solver. Qed.

Lemma bind_assoc {A B C} (m : outcome A) (f : A → outcome B) (g : B → outcome C) :
  ((m ≫= f) ≫= g) = (m ≫= (λ a, f a ≫= g)).
Proof. by destruct m. Qed.

(** Take a successful chain of binds apart. *)
Ltac inv_ok :=
  repeat match goal with
  | H : (_ ≫= _) = Ok _ |- _ => apply bind_Ok in H as (? & ? & ?); simplify_eq/=
  | H : (_ <$> _) = Ok _ |- _ => apply fmap_Ok in H as (? & ? & ?); simplify_eq/=
  | H : ensure _ _ = Ok _ |- _ => apply ensure_Ok in H
  | H : mret _ = Ok _ |- _ => injection H as H; simplify_eq/=
  | H : Ok _ = Ok _ |- _ => injection H as H; simplify_eq/=
  end.

(** Run the first step of a chain of binds whose outcome is known. *)
Ltac step_ok :=
  match goal with
  | H : ?m = _ |- context [?m ≫= _] => rewrite H; simpl
  | |- context [ensure ?b _ ≫= _] =>
      let E := fresh "E" in destruct b eqn:E; simpl
  end.
