(* ===== verification/Iface.v ===== *)
(** Dynamic values: what [encoding/json] decodes into [interface{}] (with
    [UseNumber]), together with the typed Go slices and maps that the sources
    store back into such values, and Go maps as association lists. *)
From S2P Require Import Prelude.

(** * Go maps

    A Go map is an association list with distinct keys.  Its list order is an
    iteration order: Go leaves that order unspecified, and a theorem that
    quantifies over the list holds for each of them. *)
Section gomap.
  Context {A : Type}.
  Implicit Types (m : list (string * A)) (k : string) (v : A).

Fixpoint mlookup k m : option A :=
  match m with
  | [] => None
  | (k', v) :: r => if bool_decide (k = k') then Some v else mlookup k r
  end.

(** [m[k] = v]: in place when the key is there, a new entry otherwise. *)
Fixpoint mset k v m : list (string * A) :=
  match m with
  | [] => [(k, v)]
  | (k', v') :: r => if bool_decide (k = k') then (k, v) :: r else (k', v') :: mset k v r
  end.

(** [delete(m, k)]. *)
Fixpoint mdel k m : list (string * A) :=
  match m with
  | [] => []
  | (k', v') :: r => if bool_decide (k = k') then r else (k', v') :: mdel k r
  end.

Definition mkeys m : list string := m.*1.

(** Well-formed: no key twice. *)
Definition wf_map m : Prop := NoDup (mkeys m).

Lemma mlookup_mset k k' v m :
  mlookup k' (mset k v m) = if bool_decide (k' = k) then Some v else mlookup k' m.
Proof.
  induction m as [|[k0 v0] m IH]; simpl; [done|].
  destruct (bool_decide_reflect (k = k0)) as [->|]; simpl; [by repeat case_bool_decide|].
  rewrite IH. repeat case_bool_decide; congruence.
Qed.

Lemma mlookup_Some k v m : wf_map m → mlookup k m = Some v ↔ (k, v) ∈ m.
Proof.
  induction m as [|[k0 v0] m IH]; intros Hwf; simpl; [set_solver|].
  apply NoDup_cons in Hwf as [Hk0 Hwf]. rewrite elem_of_cons.
  case_bool_decide as Hk; subst.
  - split; [intros [= ->]; by left|]. intros [[= ->]|H]; [done|].
    destruct Hk0. apply list_elem_of_fmap. by exists (k0, v).
  - rewrite IH by done. naive_solver.
Qed.

Lemma mlookup_None k m : mlookup k m = None ↔ k ∉ mkeys m.
Proof.
  induction m as [|[k0 v0] m IH]; simpl; [set_solver|].
  rewrite not_elem_of_cons. case_bool_decide; naive_solver.
Qed.

Lemma mkeys_mset k v m : ∀ j, j ∈ mkeys (mset k v m) ↔ j = k ∨ j ∈ mkeys m.
Proof.
  intros j. induction m as [|[k0 v0] m IH]; simpl; [set_solver|].
  case_bool_decide; subst; simpl; set_solver.
Qed.

Lemma mset_wf k v m : wf_map m → wf_map (mset k v m).
Proof.
  unfold wf_map. induction m as [|[k0 v0] m IH]; simpl; intros H.
  - by apply NoDup_singleton.
  - apply NoDup_cons in H as [H1 H2]. case_bool_decide; subst; simpl; apply NoDup_cons; [done|].
    split; [|auto]. change (k0 ∉ mkeys (mset k v m)). rewrite mkeys_mset. naive_solver.
Qed.

Lemma elem_of_mdel k m x : x ∈ mdel k m → x ∈ m.
Proof.
  induction m as [|[k0 v0] m IH]; simpl; [done|]. case_bool_decide; set_solver.
Qed.

Lemma mdel_wf k m : wf_map m → wf_map (mdel k m).
Proof.
  unfold wf_map, mkeys. intros H. eapply sublist_NoDup; [done|].
  induction m as [|[k0 v0] m IH]; simpl; [done|]. simpl in H. apply NoDup_cons in H as [??].
  case_bool_decide; [by apply sublist_cons|apply sublist_skip; auto].
Qed.

Lemma mlookup_mdel k k' m :
  wf_map m → mlookup k' (mdel k m) = if bool_decide (k' = k) then None else mlookup k' m.
Proof.
  induction m as [|[k0 v0] m IH]; simpl; intros H; [by case_bool_decide|].
  apply NoDup_cons in H as [H1 H2]. destruct (bool_decide_reflect (k = k0)) as [->|]; simpl.
  - case_bool_decide as E; [|done]. subst. by apply mlookup_None.
  - rewrite IH by done. repeat case_bool_decide; congruence.
Qed.
End gomap.

#[export] Hint Resolve mset_wf mdel_wf : goiardi.

(** * Dynamic values *)

(** The dynamic types an [interface{}] has in the sources. *)
#[warnings="-register-all"]
Inductive iface : Type :=
| INil
| IBool (b : bool)
| IStr (s : string)
| INumber (s : string)
| IStrs (l : list string)
| IArr (l : list iface)
| IMap (m : list (string * iface))
| IMapStr (m : list (string * string))
| IMapStrs (m : list (string * list string))
| IDivs (l : list (list (string * iface))).

(** A Go [map[string]interface{}]. *)
Abbreviation jmap := (list (string * iface)).

(** [m[k]], with the zero value of [interface{}] for a missing key. *)
Definition mget (k : string) (m : jmap) : iface := default INil (mlookup k m).

(** * Printing: [fmt.Sprintf] with the verb [%v]

    Maps print with their keys sorted. *)

Definition fmt_strs (l : list string) : string := "[" +:+ str_join " " l +:+ "]".

(** The entries of a map, already printed, in the order of their keys. *)
Definition fmt_entries (l : list (string * string)) : string :=
  "map[" +:+ str_join " "
    (map (λ kv, kv.1 +:+ ":" +:+ kv.2) (go_sort (λ x y, str_ltb x.1 y.1) l)) +:+ "]".

Fixpoint fmt_v (i : iface) : string :=
  match i with
  | INil => "<nil>"
  | IBool b => if b then "true" else "false"
  | IStr s | INumber s => s
  | IStrs l => fmt_strs l
  | IArr l => fmt_strs (map fmt_v l)
  | IMap m => fmt_entries (map (λ kv, (kv.1, fmt_v kv.2)) m)
  | IMapStr m => fmt_entries m
  | IMapStrs m => fmt_entries (map (λ kv, (kv.1, fmt_strs kv.2)) m)
  | IDivs l => fmt_strs (map (λ m, fmt_entries (map (λ kv, (kv.1, fmt_v kv.2)) m)) l)
  end.

(** The verb [%s], which reports what is not a string. *)
Fixpoint fmt_s (i : iface) : string :=
  match i with
  | INil => "%!s(<nil>)"
  | IBool b => "%!s(bool=" +:+ (if b then "true" else "false") +:+ ")"
  | IStr s | INumber s => s
  | IStrs l => fmt_strs l
  | IArr l => fmt_strs (map fmt_s l)
  | IMap m => fmt_entries (map (λ kv, (kv.1, fmt_s kv.2)) m)
  | IMapStr m => fmt_entries m
  | IMapStrs m => fmt_entries (map (λ kv, (kv.1, fmt_strs kv.2)) m)
  | IDivs l => fmt_strs (map (λ m, fmt_entries (map (λ kv, (kv.1, fmt_s kv.2)) m)) l)
  end.

(** The verb [%T]. *)
Definition go_type (i : iface) : string :=
  match i with
  | INil => "<nil>"
  | IBool _ => "bool"
  | IStr _ => "string"
  | INumber _ => "json.Number"
  | IStrs _ => "[]string"
  | IArr _ => "[]interface {}"
  | IMap _ => "map[string]interface {}"
  | IMapStr _ => "map[string]string"
  | IMapStrs _ => "map[string][]string"
  | IDivs _ => "[]map[string]interface {}"
  end.

(** Induction with hypotheses for the values inside arrays and maps. *)
Section iface_ind.
  Context (P : iface → Prop).
  Context (Hnil : P INil) (Hbool : ∀ b, P (IBool b)) (Hstr : ∀ s, P (IStr s)).
  Context (Hnum : ∀ s, P (INumber s)) (Hstrs : ∀ l, P (IStrs l)).
  Context (Harr : ∀ l, Forall P l → P (IArr l)).
  Context (Hmap : ∀ m, Forall (λ kv, P kv.2) m → P (IMap m)).
  Context (Hmapstr : ∀ m, P (IMapStr m)) (Hmapstrs : ∀ m, P (IMapStrs m)).
  Context (Hdivs : ∀ l, Forall (Forall (λ kv, P kv.2)) l → P (IDivs l)).

Fixpoint iface_nested_ind (i : iface) : P i :=
  let fix arr (l : list iface) : Forall P l :=
    match l with
    | [] => Forall_nil_2 _
    | x :: r => Forall_cons_2 _ _ _ (iface_nested_ind x) (arr r)
    end in
  let fix entries (m : jmap) : Forall (λ kv, P kv.2) m :=
    match m with
    | [] => Forall_nil_2 _
    | kv :: r => Forall_cons_2 _ kv _ (iface_nested_ind kv.2) (entries r)
    end in
  let fix divs (l : list jmap) : Forall (Forall (λ kv, P kv.2)) l :=
    match l with
    | [] => Forall_nil_2 _
    | x :: r => Forall_cons_2 _ _ _ (entries x) (divs r)
    end in
  match i with
  | INil => Hnil
  | IBool b => Hbool b
  | IStr s => Hstr s
  | INumber s => Hnum s
  | IStrs l => Hstrs l
  | IArr l => Harr l (arr l)
  | IMap m => Hmap m (entries m)
  | IMapStr m => Hmapstr m
  | IMapStrs m => Hmapstrs m
  | IDivs l => Hdivs l (divs l)
  end.
End iface_ind.
