(* ===== verification/Base64.v ===== *)
(** The standard base64 encoding, as [encoding/base64] has it: the contents of
    files in a dump. *)
From S2P Require Import Prelude.
From Stdlib Require Import ZArith Lia.

Local Open Scope Z_scope.

(** The byte with a code. *)
Definition chr (z : Z) : ascii := Ascii.ascii_of_N (Z.to_N z).

(** The letter for six bits. *)
Definition b64_char (i : Z) : ascii :=
  if i <? 26 then chr (i + 65)
  else if i <? 52 then chr (i + 71)
  else if i <? 62 then chr (i - 4)
  else if i =? 62 then "+"%char else "/"%char.

Definition b64_value (c : ascii) : option Z :=
  if is_upper c then Some (code c - 65)
  else if is_lower c then Some (code c - 71)
  else if is_digit c then Some (code c + 4)
  else if bool_decide (c = "+"%char) then Some 62
  else if bool_decide (c = "/"%char) then Some 63
  else None.

(** [StdEncoding.EncodeToString] *)
Fixpoint b64_encode (s : string) : string :=
  match s with
  | EmptyString => EmptyString
  | String a EmptyString =>
      String (b64_char (code a / 4)) (String (b64_char (code a mod 4 * 16)) "==")
  | String a (String b EmptyString) =>
      String (b64_char (code a / 4)) (String (b64_char (code a mod 4 * 16 + code b / 16))
        (String (b64_char (code b mod 16 * 4)) "="))
  | String a (String b (String c r)) =>
      String (b64_char (code a / 4)) (String (b64_char (code a mod 4 * 16 + code b / 16))
        (String (b64_char (code b mod 16 * 4 + code c / 64)) (String (b64_char (code c mod 64)) (b64_encode r))))
  end.

(** The groups of four letters, the last one padded. *)
Fixpoint b64_groups (s : string) : option string :=
  match s with
  | EmptyString => Some EmptyString
  | String w (String x (String y (String z r))) =>
      w ← b64_value w; x ← b64_value x;
      if bool_decide (y = "="%char) then
        if bool_decide (z = "="%char) && bool_decide (r = EmptyString)
        then Some (String (chr (w * 4 + x / 16)) EmptyString) else None
      else
        y ← b64_value y;
        let a := chr (w * 4 + x / 16) in
        let b := chr (x mod 16 * 16 + y / 4) in
        if bool_decide (z = "="%char) then
          if bool_decide (r = EmptyString) then Some (String a (String b EmptyString)) else None
        else z ← b64_value z; rest ← b64_groups r;
             Some (String a (String b (String (chr (y mod 4 * 64 + z)) rest)))
  | _ => None
  end.

(** Line ends are skipped. *)
Fixpoint strip_line_ends (s : string) : string :=
  match s with
  | EmptyString => EmptyString
  | String c r =>
      if bool_decide (c = newline) || bool_decide (c = chr 13) then strip_line_ends r
      else String c (strip_line_ends r)
  end.

(** [StdEncoding.DecodeString]: nothing for a text it refuses. *)
Definition b64_decode (s : string) : option string := b64_groups (strip_line_ends s).

(** * Round trip *)

Lemma code_range c : 0 ≤ code c < 256.
Proof. unfold code. pose proof (Ascii.N_ascii_bounded c). lia. Qed.

Lemma chr_code c : chr (code c) = c.
Proof. unfold chr, code. by rewrite N2Z.id, Ascii.ascii_N_embedding. Qed.

Lemma chr_of c z : z = code c → chr z = c.
Proof. intros ->. apply chr_code. Qed.

(** Every letter has its value back, and is neither padding nor a line end. *)
Definition b64_letter_ok (i : Z) : bool :=
  bool_decide (b64_value (b64_char i) = Some i) &&
  negb (bool_decide (b64_char i = "="%char) || bool_decide (b64_char i = newline) ||
        bool_decide (b64_char i = chr 13)).

Lemma b64_char_ok i : 0 ≤ i < 64 → b64_letter_ok i = true.
Proof.
  intros Hi. assert (forallb b64_letter_ok (Z.of_nat <$> seq 0 64) = true) as H by (vm_compute; reflexivity).
  rewrite forallb_forall in H. apply H, list_elem_of_In, list_elem_of_fmap.
  exists (Z.to_nat i). split; [lia|]. apply elem_of_seq. lia.
Qed.

Lemma b64_char_value i : 0 ≤ i < 64 → b64_value (b64_char i) = Some i.
Proof. intros Hi%b64_char_ok. apply andb_true_iff in Hi as [Hi _]. by apply bool_decide_eq_true in Hi. Qed.

Lemma b64_char_plain i :
  0 ≤ i < 64 → b64_char i ≠ "="%char ∧ (bool_decide (b64_char i = newline) || bool_decide (b64_char i = chr 13)) = false.
Proof.
  intros Hi%b64_char_ok. apply andb_true_iff in Hi as [_ Hi]. apply negb_true_iff in Hi.
  apply orb_false_iff in Hi as [Hi H3]. apply orb_false_iff in Hi as [H1 H2].
  apply bool_decide_eq_false in H1. split; [done|]. by rewrite H2, H3.
Qed.

(** Induction on texts three bytes at a time. *)
Lemma string_ind3 (P : string → Prop) :
  P EmptyString → (∀ a, P (String a EmptyString)) → (∀ a b, P (String a (String b EmptyString))) →
  (∀ a b c r, P r → P (String a (String b (String c r)))) → ∀ s, P s.
Proof.
  intros H0 H1 H2 H3. fix IH 1. intros [|a [|b [|c r]]]; [exact H0|apply H1|apply H2|apply H3, IH].
Qed.

Ltac code_bounds :=
  repeat match goal with c : ascii |- _ =>
    lazymatch goal with H : 0 ≤ code c < 256 |- _ => fail | _ => pose proof (code_range c) end end.

Ltac six_bits := code_bounds; Z.div_mod_to_equations; lia.

Lemma strip_letter i r : 0 ≤ i < 64 → strip_line_ends (String (b64_char i) r) = String (b64_char i) (strip_line_ends r).
Proof. intros Hi. cbn [strip_line_ends]. by rewrite (proj2 (b64_char_plain i Hi)). Qed.

Lemma strip_b64_encode s : strip_line_ends (b64_encode s) = b64_encode s.
Proof.
  induction s as [|a|a b|a b c r IH] using string_ind3; cbn [b64_encode]; rewrite ?strip_letter by six_bits;
    [reflexivity..|]. by rewrite IH.
Qed.

Theorem b64_decode_encode s : b64_decode (b64_encode s) = Some s.
Proof.
  unfold b64_decode. rewrite strip_b64_encode.
  induction s as [|a|a b|a b c r IH] using string_ind3; cbn [b64_encode b64_groups]; [done|..];
    rewrite !b64_char_value by six_bits; simpl;
    rewrite ?(bool_decide_eq_false_2 (b64_char _ = _)) by (apply b64_char_plain; six_bits).
  - do 2 f_equal. apply chr_of. six_bits.
  - simpl. repeat f_equal; apply chr_of; six_bits.
  - simpl. rewrite IH. simpl. repeat f_equal; apply chr_of; six_bits.
Qed.

Example b64_demo : b64_encode "light work." = "bGlnaHQgd29yay4=" ∧ b64_decode "bGlnaHQg" = Some "light ".
Proof. vm_compute. done. Qed.
