(* ===== verification/Config.v ===== *)
(** The configuration values the modelled code reads, and the URLs built from
    them (src/config/config.go, src/util/util.go). *)
From S2P Require Import Prelude Gerror.

(** The fields of [config.Conf] the modelled code consults.  The development
    describes the in-memory mode: [UsingDB] false, no S3, the safe in-memory
    store, no file store directory.  [UsePostgreSQL] is kept where the
    flattening code reads it. *)
Record Conf : Type := {
  UseSSL : bool;
  HTTPSUrls : bool;
  ProxyHostname : string;
  ProxyPort : Z;
  UsePostgreSQL : bool;
  DotSearch : bool;
  ConvertSearch : bool;
  IndexValTrim : Z;
  UseAuth : bool;
  LogEvents : bool;
  SkipLogExtended : bool;
  TimeSlewDur : Z;
  JSONReqMaxSize : Z;
  ObjMaxSize : Z;
  DisableWebUI : bool;
  UseShovey : bool;
}.

(** [net.JoinHostPort]: a host with a colon is an IPv6 address. *)
Definition JoinHostPort (host port : string) : string :=
  if str_any (λ c, bool_decide (c = ":"%char)) host
  then "[" +:+ host +:+ "]:" +:+ port
  else host +:+ ":" +:+ port.

Section urls.
  Context (conf : Conf).

Definition ServerHostname : string :=
  if negb ((ProxyPort conf =? 80)%Z || (ProxyPort conf =? 443)%Z)
  then JoinHostPort (ProxyHostname conf) (itoa (ProxyPort conf))
  else ProxyHostname conf.

Definition ServerBaseURL : string :=
  (if UseSSL conf || HTTPSUrls conf then "https" else "http") +:+ "://" +:+ ServerHostname.

(** [chkPath]: a leading slash is supplied; indexing an empty path panics. *)
Definition chkPath (p : string) : outcome string :=
  match p with
  | EmptyString => Panic IndexOutOfRange
  | String c _ => Ok (if bool_decide (c = "/"%char) then p else "/" +:+ p)
  end.

(** [ObjURL], for the URL type and the name of the object. *)
Definition ObjURL (urltype name : string) : string :=
  ServerBaseURL +:+ "/" +:+ urltype +:+ "/" +:+ name.

Definition CustomObjURL (urltype name path : string) : outcome string :=
  p ← chkPath path; Ok (ObjURL urltype name +:+ p).

Definition CustomURL (path : string) : outcome string :=
  p ← chkPath path; Ok (ServerBaseURL +:+ p).
End urls.

(** The default listening configuration, for concrete evaluations. *)
Definition default_conf : Conf := {|
  UseSSL := false; HTTPSUrls := false; ProxyHostname := "localhost"; ProxyPort := 4545;
  UsePostgreSQL := false; DotSearch := false; ConvertSearch := false; IndexValTrim := 0;
  UseAuth := false; LogEvents := false; SkipLogExtended := false;
  TimeSlewDur := 900000000000; JSONReqMaxSize := 1000000; ObjMaxSize := 10485760; DisableWebUI := false; UseShovey := false |}.

(** A path with a leading slash is appended to the base as it is. *)
Lemma CustomURL_slash conf p :
  CustomURL conf ("/" +:+ p) = Ok (ServerBaseURL conf +:+ "/" +:+ p).
Proof. done. Qed.
