(* ===== verification/Paths.v ===== *)
(** The functions of the package path of the Go standard library that the
    sources use: the signature of a request covers its cleaned path, the
    server redirects to it, and the configuration resolves file names. *)
From S2P Require Import Prelude.

(** [path.Clean]: the segments, with "." and empty ones dropped and ".."
    removing the segment before it. *)
Fixpoint clean_segs (rooted : bool) (segs stack : list string) : list string :=
  match segs with
  | [] => reverse stack
  | s :: segs =>
      if bool_decide (s = EmptyString ∨ s = ".") then clean_segs rooted segs stack
      else if bool_decide (s = "..") then
        match stack with
        | [] => clean_segs rooted segs (if rooted then [] else [".."])
        | t :: stack' =>
            if bool_decide (t = "..") then clean_segs rooted segs (".." :: stack) else clean_segs rooted segs stack'
        end
      else clean_segs rooted segs (s :: stack)
  end.

Definition path_Clean (p : string) : string :=
  match p with
  | EmptyString => "."
  | String c r =>
      if bool_decide (c = "/"%char) then "/" +:+ str_join "/" (clean_segs true (str_split "/" r) [])
      else match clean_segs false (str_split "/" p) [] with [] => "." | l => str_join "/" l end
  end.

(** [strings.HasPrefix]. *)
Definition has_prefix (p s : string) : bool := String.prefix p s.

Definition path_IsAbs (p : string) : bool := has_prefix "/" p.

Definition path_Join (a b : string) : string :=
  match List.filter (λ s, negb (bool_decide (s = EmptyString))) [a; b] with
  | [] => EmptyString
  | l => path_Clean (str_join "/" l)
  end.

(** [path.Dir]: up to the last slash. *)
Definition path_Dir (p : string) : string :=
  match rev (str_split "/" p) with
  | [] | [_] => "."
  | _ :: dirs => path_Clean (str_join "/" (rev dirs) +:+ "/")
  end.

(** A rooted path stays rooted, however many ".." it has. *)
Lemma path_IsAbs_Clean p : path_IsAbs p = true → path_IsAbs (path_Clean p) = true.
Proof.
  destruct p as [|c r]; [done|]. unfold path_IsAbs, has_prefix, path_Clean. cbn [String.prefix].
  destruct (ascii_dec "/" c) as [<-|]; [|done]. intros _. rewrite bool_decide_true by done.
  by destruct (str_join _ _).
Qed.

Example path_Clean_examples :
  path_Clean "/a/./b//../c" = "/a/c" ∧ path_Clean "../x/.." = ".." ∧
  path_Dir "/etc/goiardi/goiardi.conf" = "/etc/goiardi" ∧ path_Join "." "key" = "key".
Proof. by vm_compute. Qed.

(** A cleaned path is never empty. *)
Lemma clean_segs_set r segs stack :
  Forall (λ s, s ≠ EmptyString) stack → Forall (λ s, s ≠ EmptyString) (clean_segs r segs stack).
Proof.
  revert stack. induction segs as [|s segs IH]; intros stack Hst; simpl; [by apply Forall_reverse|].
  destruct (bool_decide_reflect (s = EmptyString ∨ s = ".")) as [|Hs]; [by apply IH|].
  destruct (bool_decide (s = "..")).
  - destruct stack as [|t st]; [destruct r; apply IH; by repeat constructor|].
    destruct (bool_decide (t = "..")); apply IH; [by constructor|by inversion Hst].
  - apply IH. constructor; [tauto|done].
Qed.

Lemma path_Clean_nonempty p : path_Clean p ≠ EmptyString.
Proof.
  destruct p as [|c r]; [done|]. unfold path_Clean. destruct (bool_decide (c = "/"%char)); [done|].
  pose proof (clean_segs_set false (str_split "/" (String c r)) [] (Forall_nil_2 _)) as H.
  destruct (clean_segs _ _ _) as [|s l]; [done|]. inversion H; subst. destruct s; [done|].
  by destruct l.
Qed.

Lemma path_Join_nonempty a b : b ≠ EmptyString → path_Join a b ≠ EmptyString.
Proof.
  intros Hb. unfold path_Join. cbn [List.filter]. rewrite (bool_decide_false (b = EmptyString)) by done.
  destruct (negb _); apply path_Clean_nonempty.
Qed.
