(* ===== verification/Configuration.v ===== *)
(** Reading the configuration (src/config/config.go, src/config/syslog.go):
    the options of the command line and the environment, as go-flags gives
    them, are merged with the configuration file, as the TOML library decodes
    it, and checked.  What is written to the log is not described. *)
From coqutil Require Import Datatypes.RecordSetters.
From S2P Require Import Prelude Gerror Iface Config Paths.
Import RecordSetters.OCamlLikeNotations.

(** * Data *)

Record MySQLdb : Type := {
  my_Username : string; my_Password : string; my_Protocol : string; my_Address : string; my_Port : string;
  my_Dbname : string; my_ExtraParams : list (string * string);
}.

Record PostgreSQLdb : Type := {
  pg_Username : string; pg_Password : string; pg_Host : string; pg_Port : string; pg_Dbname : string;
  pg_SSLMode : string;
}.

(** The configuration; the other files read the part of it that
    [Config.Conf] has. *)
Record Conf : Type := {
  cf_Ipaddress : string; cf_Port : Z; cf_Hostname : string; cf_ProxyHostname : string; cf_ProxyPort : Z;
  cf_ConfFile : string; cf_IndexFile : string; cf_DataStoreFile : string; cf_DebugLevel : Z;
  cf_LogLevel : string; cf_FreezeInterval : Z; cf_FreezeData : bool; cf_LogFile : string; cf_SysLog : bool;
  cf_UseAuth : bool; cf_TimeSlew : string; cf_TimeSlewDur : Z; cf_ConfRoot : string; cf_UseSSL : bool;
  cf_SSLCert : string; cf_SSLKey : string; cf_HTTPSUrls : bool; cf_DisableWebUI : bool; cf_UseMySQL : bool;
  cf_MySQL : MySQLdb; cf_UsePostgreSQL : bool; cf_PostgreSQL : PostgreSQLdb; cf_LocalFstoreDir : string;
  cf_LogEvents : bool; cf_LogEventKeep : Z; cf_SkipLogExtended : bool; cf_DoExport : bool; cf_DoImport : bool;
  cf_DoBootstrap : bool; cf_ImpExFile : string; cf_ObjMaxSize : Z; cf_JSONReqMaxSize : Z;
  cf_UseUnsafeMemStore : bool; cf_DbPoolSize : Z; cf_MaxConn : Z; cf_UseSerf : bool;
  cf_SerfEventAnnounce : bool; cf_SerfAddr : string; cf_UseShovey : bool; cf_SignPrivKey : string;
  cf_DotSearch : bool; cf_ConvertSearch : bool; cf_PgSearch : bool; cf_UseStatsd : bool;
  cf_StatsdAddr : string; cf_StatsdType : string; cf_StatsdInstance : string; cf_UseS3Upload : bool;
  cf_AWSRegion : string; cf_S3Bucket : string; cf_AWSDisableSSL : bool; cf_S3Endpoint : string;
  cf_S3FilePeriod : Z; cf_UseExtSecrets : bool; cf_VaultAddr : string; cf_VaultShoveyKey : string;
  cf_EnvVars : list string; cf_IndexValTrim : Z; cf_PprofWhitelist : list string;
  cf_PurgeNodeStatusAfter : string; cf_PurgeReportsAfter : string; cf_PurgeSandboxesAfter : string;
  cf_PurgeNodeStatusDur : Z; cf_PurgeReportsDur : Z; cf_PurgeSandboxesDur : Z; cf_SearchQueryDebug : bool;
}.

(** The updates of the fields, each elaborated once. *)
#[export] Instance set_cf_Ipaddress : Setter cf_Ipaddress := ltac:(setter Conf string cf_Ipaddress).
#[export] Instance set_cf_Port : Setter cf_Port := ltac:(setter Conf Z cf_Port).
#[export] Instance set_cf_Hostname : Setter cf_Hostname := ltac:(setter Conf string cf_Hostname).
#[export] Instance set_cf_ProxyHostname : Setter cf_ProxyHostname := ltac:(setter Conf string cf_ProxyHostname).
#[export] Instance set_cf_ProxyPort : Setter cf_ProxyPort := ltac:(setter Conf Z cf_ProxyPort).
#[export] Instance set_cf_ConfFile : Setter cf_ConfFile := ltac:(setter Conf string cf_ConfFile).
#[export] Instance set_cf_IndexFile : Setter cf_IndexFile := ltac:(setter Conf string cf_IndexFile).
#[export] Instance set_cf_DataStoreFile : Setter cf_DataStoreFile := ltac:(setter Conf string cf_DataStoreFile).
#[export] Instance set_cf_DebugLevel : Setter cf_DebugLevel := ltac:(setter Conf Z cf_DebugLevel).
#[export] Instance set_cf_LogLevel : Setter cf_LogLevel := ltac:(setter Conf string cf_LogLevel).
#[export] Instance set_cf_FreezeInterval : Setter cf_FreezeInterval := ltac:(setter Conf Z cf_FreezeInterval).
#[export] Instance set_cf_FreezeData : Setter cf_FreezeData := ltac:(setter Conf bool cf_FreezeData).
#[export] Instance set_cf_LogFile : Setter cf_LogFile := ltac:(setter Conf string cf_LogFile).
#[export] Instance set_cf_SysLog : Setter cf_SysLog := ltac:(setter Conf bool cf_SysLog).
#[export] Instance set_cf_UseAuth : Setter cf_UseAuth := ltac:(setter Conf bool cf_UseAuth).
#[export] Instance set_cf_TimeSlew : Setter cf_TimeSlew := ltac:(setter Conf string cf_TimeSlew).
#[export] Instance set_cf_TimeSlewDur : Setter cf_TimeSlewDur := ltac:(setter Conf Z cf_TimeSlewDur).
#[export] Instance set_cf_ConfRoot : Setter cf_ConfRoot := ltac:(setter Conf string cf_ConfRoot).
#[export] Instance set_cf_UseSSL : Setter cf_UseSSL := ltac:(setter Conf bool cf_UseSSL).
#[export] Instance set_cf_SSLCert : Setter cf_SSLCert := ltac:(setter Conf string cf_SSLCert).
#[export] Instance set_cf_SSLKey : Setter cf_SSLKey := ltac:(setter Conf string cf_SSLKey).
#[export] Instance set_cf_HTTPSUrls : Setter cf_HTTPSUrls := ltac:(setter Conf bool cf_HTTPSUrls).
#[export] Instance set_cf_DisableWebUI : Setter cf_DisableWebUI := ltac:(setter Conf bool cf_DisableWebUI).
#[export] Instance set_cf_UseMySQL : Setter cf_UseMySQL := ltac:(setter Conf bool cf_UseMySQL).
#[export] Instance set_cf_MySQL : Setter cf_MySQL := ltac:(setter Conf MySQLdb cf_MySQL).
#[export] Instance set_cf_UsePostgreSQL : Setter cf_UsePostgreSQL := ltac:(setter Conf bool cf_UsePostgreSQL).
#[export] Instance set_cf_PostgreSQL : Setter cf_PostgreSQL := ltac:(setter Conf PostgreSQLdb cf_PostgreSQL).
#[export] Instance set_cf_LocalFstoreDir : Setter cf_LocalFstoreDir := ltac:(setter Conf string cf_LocalFstoreDir).
#[export] Instance set_cf_LogEvents : Setter cf_LogEvents := ltac:(setter Conf bool cf_LogEvents).
#[export] Instance set_cf_LogEventKeep : Setter cf_LogEventKeep := ltac:(setter Conf Z cf_LogEventKeep).
#[export] Instance set_cf_SkipLogExtended : Setter cf_SkipLogExtended := ltac:(setter Conf bool cf_SkipLogExtended).
#[export] Instance set_cf_DoExport : Setter cf_DoExport := ltac:(setter Conf bool cf_DoExport).
#[export] Instance set_cf_DoImport : Setter cf_DoImport := ltac:(setter Conf bool cf_DoImport).
#[export] Instance set_cf_DoBootstrap : Setter cf_DoBootstrap := ltac:(setter Conf bool cf_DoBootstrap).
#[export] Instance set_cf_ImpExFile : Setter cf_ImpExFile := ltac:(setter Conf string cf_ImpExFile).
#[export] Instance set_cf_ObjMaxSize : Setter cf_ObjMaxSize := ltac:(setter Conf Z cf_ObjMaxSize).
#[export] Instance set_cf_JSONReqMaxSize : Setter cf_JSONReqMaxSize := ltac:(setter Conf Z cf_JSONReqMaxSize).
#[export] Instance set_cf_UseUnsafeMemStore : Setter cf_UseUnsafeMemStore := ltac:(setter Conf bool cf_UseUnsafeMemStore).
#[export] Instance set_cf_DbPoolSize : Setter cf_DbPoolSize := ltac:(setter Conf Z cf_DbPoolSize).
#[export] Instance set_cf_MaxConn : Setter cf_MaxConn := ltac:(setter Conf Z cf_MaxConn).
#[export] Instance set_cf_UseSerf : Setter cf_UseSerf := ltac:(setter Conf bool cf_UseSerf).
#[export] Instance set_cf_SerfEventAnnounce : Setter cf_SerfEventAnnounce := ltac:(setter Conf bool cf_SerfEventAnnounce).
#[export] Instance set_cf_SerfAddr : Setter cf_SerfAddr := ltac:(setter Conf string cf_SerfAddr).
#[export] Instance set_cf_UseShovey : Setter cf_UseShovey := ltac:(setter Conf bool cf_UseShovey).
#[export] Instance set_cf_SignPrivKey : Setter cf_SignPrivKey := ltac:(setter Conf string cf_SignPrivKey).
#[export] Instance set_cf_DotSearch : Setter cf_DotSearch := ltac:(setter Conf bool cf_DotSearch).
#[export] Instance set_cf_ConvertSearch : Setter cf_ConvertSearch := ltac:(setter Conf bool cf_ConvertSearch).
#[export] Instance set_cf_PgSearch : Setter cf_PgSearch := ltac:(setter Conf bool cf_PgSearch).
#[export] Instance set_cf_UseStatsd : Setter cf_UseStatsd := ltac:(setter Conf bool cf_UseStatsd).
#[export] Instance set_cf_StatsdAddr : Setter cf_StatsdAddr := ltac:(setter Conf string cf_StatsdAddr).
#[export] Instance set_cf_StatsdType : Setter cf_StatsdType := ltac:(setter Conf string cf_StatsdType).
#[export] Instance set_cf_StatsdInstance : Setter cf_StatsdInstance := ltac:(setter Conf string cf_StatsdInstance).
#[export] Instance set_cf_UseS3Upload : Setter cf_UseS3Upload := ltac:(setter Conf bool cf_UseS3Upload).
#[export] Instance set_cf_AWSRegion : Setter cf_AWSRegion := ltac:(setter Conf string cf_AWSRegion).
#[export] Instance set_cf_S3Bucket : Setter cf_S3Bucket := ltac:(setter Conf string cf_S3Bucket).
#[export] Instance set_cf_AWSDisableSSL : Setter cf_AWSDisableSSL := ltac:(setter Conf bool cf_AWSDisableSSL).
#[export] Instance set_cf_S3Endpoint : Setter cf_S3Endpoint := ltac:(setter Conf string cf_S3Endpoint).
#[export] Instance set_cf_S3FilePeriod : Setter cf_S3FilePeriod := ltac:(setter Conf Z cf_S3FilePeriod).
#[export] Instance set_cf_UseExtSecrets : Setter cf_UseExtSecrets := ltac:(setter Conf bool cf_UseExtSecrets).
#[export] Instance set_cf_VaultAddr : Setter cf_VaultAddr := ltac:(setter Conf string cf_VaultAddr).
#[export] Instance set_cf_VaultShoveyKey : Setter cf_VaultShoveyKey := ltac:(setter Conf string cf_VaultShoveyKey).
#[export] Instance set_cf_EnvVars : Setter cf_EnvVars := ltac:(setter Conf (list string) cf_EnvVars).
#[export] Instance set_cf_IndexValTrim : Setter cf_IndexValTrim := ltac:(setter Conf Z cf_IndexValTrim).
#[export] Instance set_cf_PprofWhitelist : Setter cf_PprofWhitelist := ltac:(setter Conf (list string) cf_PprofWhitelist).
#[export] Instance set_cf_PurgeNodeStatusAfter : Setter cf_PurgeNodeStatusAfter := ltac:(setter Conf string cf_PurgeNodeStatusAfter).
#[export] Instance set_cf_PurgeReportsAfter : Setter cf_PurgeReportsAfter := ltac:(setter Conf string cf_PurgeReportsAfter).
#[export] Instance set_cf_PurgeSandboxesAfter : Setter cf_PurgeSandboxesAfter := ltac:(setter Conf string cf_PurgeSandboxesAfter).
#[export] Instance set_cf_PurgeNodeStatusDur : Setter cf_PurgeNodeStatusDur := ltac:(setter Conf Z cf_PurgeNodeStatusDur).
#[export] Instance set_cf_PurgeReportsDur : Setter cf_PurgeReportsDur := ltac:(setter Conf Z cf_PurgeReportsDur).
#[export] Instance set_cf_PurgeSandboxesDur : Setter cf_PurgeSandboxesDur := ltac:(setter Conf Z cf_PurgeSandboxesDur).
#[export] Instance set_cf_SearchQueryDebug : Setter cf_SearchQueryDebug := ltac:(setter Conf bool cf_SearchQueryDebug).

(** The options of the command line; one that is not given has the zero
    value. *)
Record Options : Type := {
  op_Version : bool; op_Verbose : list bool; op_ConfFile : string; op_Ipaddress : string; op_Hostname : string;
  op_Port : Z; op_ProxyHostname : string; op_ProxyPort : Z; op_IndexFile : string; op_DataStoreFile : string;
  op_FreezeInterval : Z; op_LogFile : string; op_SysLog : bool; op_LogLevel : string; op_TimeSlew : string;
  op_ConfRoot : string; op_UseAuth : bool; op_UseSSL : bool; op_SSLCert : string; op_SSLKey : string;
  op_HTTPSUrls : bool; op_DisableWebUI : bool; op_UseMySQL : bool; op_MySQL : MySQLdb; op_UsePostgreSQL : bool;
  op_PostgreSQL : PostgreSQLdb; op_LocalFstoreDir : string; op_LogEvents : bool; op_LogEventKeep : Z;
  op_SkipLogExtended : bool; op_Export : string; op_Import : string; op_Bootstrap : bool; op_ObjMaxSize : Z;
  op_JSONReqMaxSize : Z; op_UseUnsafeMemStore : bool; op_DbPoolSize : Z; op_MaxConn : Z; op_UseSerf : bool;
  op_SerfEventAnnounce : bool; op_SerfAddr : string; op_UseShovey : bool; op_SignPrivKey : string;
  op_DotSearch : bool; op_ConvertSearch : bool; op_PgSearch : bool; op_UseStatsd : bool;
  op_StatsdAddr : string; op_StatsdType : string; op_StatsdInstance : string; op_UseS3Upload : bool;
  op_AWSRegion : string; op_S3Bucket : string; op_AWSDisableSSL : bool; op_S3Endpoint : string;
  op_S3FilePeriod : Z; op_UseExtSecrets : bool; op_VaultAddr : string; op_VaultShoveyKey : string;
  op_IndexValTrim : Z; op_PprofWhitelist : list string; op_PurgeReportsAfter : string;
  op_PurgeNodeStatusAfter : string; op_PurgeSandboxesAfter : string; op_PrintManPage : bool;
  op_SearchQueryDebug : bool;
}.

(** What the function asks of the system and of libraries: the host name, the
    decoded configuration file, whether the log and the system log can be
    opened, what a path is, the private key for signing; addresses and
    durations. *)
Class System : Type := {
  Sys_Hostname : string + string;
  DecodeFile : string → Conf → Conf + string;
  OpenLogFile : string → option string;
  NewSysLogger : option string;
  Stat_IsDir : string → bool + string;
  OpenFile : string → option string;
  ReadFile : string → string + string;
  pem_Decode : string → option string;
  ParsePKCS1PrivateKey : string → string + string;
  ParseIP : string → option (list Z);
  ParseDuration : string → Z + string;
}.

(** What the process has besides the configuration: the addresses that may
    profile, the environment variables it set, and the key for signing. *)
Record process : Type := {
  pr_pprofWhitelist : list (option (list Z));
  pr_Environ : list (string * string);
  pr_Key : option string;
}.

(** ** Ending the process *)

Inductive exits (A : Type) : Type := Exit (code : Z) (text : string) | Run (a : A).
Arguments Exit {A} code text.
Arguments Run {A} a.

#[export] Instance exits_ret : MRet exits := @Run.
#[export] Instance exits_bind : MBind exits := λ A B f m, match m with Exit c t => Exit c t | Run a => f a end.

(** [log.Println] and [os.Exit(1)]. *)
Definition exit_if (b : bool) (text : string) : exits () := if b then Exit 1 text else Run ().

(** [logger.Fatalf] ends the process itself, with -1; the [os.Exit(1)] after
    it is not reached. *)
Definition Fatalf {A} (text : string) : exits A := Exit (-1) text.
Definition fatal_if (b : bool) (text : string) : exits () := if b then Fatalf text else Run ().

(** ** Values of options *)

Definition set_str (s : string) : bool := negb (bool_decide (s = EmptyString)).
Definition set_int (n : Z) : bool := negb (n =? 0)%Z.

(** An option that is given replaces the value there is. *)
Definition over_str (opt cur : string) : string := if set_str opt then opt else cur.
Definition over_int (opt cur : Z) : Z := if set_int opt then opt else cur.
Definition over_bool (opt cur : bool) : bool := if opt then opt else cur.

Definition rooted (root p : string) : string := if path_IsAbs p then p else path_Join root p.

Section parse.
  Context {SYS : System} (opts : Options).
  Implicit Types (c : Conf).

Definition UsingDB c : bool := cf_UseMySQL c || cf_UsePostgreSQL c.

Definition UsingExternalSecrets c : bool := cf_UseExtSecrets c.

(** * ParseConfigOptions, in the order of its parts *)

Definition load_file c : exits Conf :=
  if set_str (op_ConfFile opts) then
    match DecodeFile (op_ConfFile opts) c with
    | inr e => Exit 1 e
    | inl c => Run { c with cf_ConfFile := op_ConfFile opts; cf_FreezeData := false }
    end
  else Run c.

Definition import_export c : exits Conf :=
  let c := { c with cf_DoBootstrap := op_Bootstrap opts } in
  exit_if (set_str (op_Export opts) && set_str (op_Import opts))
    "Cannot use -x/--export and -m/--import flags together." ≫= λ _,
  Run (if set_str (op_Export opts) then { c with cf_DoExport := true; cf_ImpExFile := op_Export opts }
       else if set_str (op_Import opts) then { c with cf_DoImport := true; cf_ImpExFile := op_Import opts }
       else c).

Definition host_names c : Conf * string :=
  let err :=
    match Sys_Hostname with
    | inr e => if negb (set_str (op_Hostname opts)) && negb (set_str (cf_Hostname c)) then e else "<nil>"
    | inl _ => "<nil>"
    end in
  let c :=
    { c with cf_Hostname :=
        if set_str (op_Hostname opts) then op_Hostname opts
        else if set_str (cf_Hostname c) then cf_Hostname c
        else match Sys_Hostname with inl h => h | inr _ => "localhost" end } in
  let c := { c with cf_ProxyHostname := over_str (op_ProxyHostname opts) (cf_ProxyHostname c) } in
  let c := { c with cf_ProxyHostname := over_str (cf_ProxyHostname c) (cf_Hostname c) } in
  ({ c with cf_DataStoreFile := over_str (op_DataStoreFile opts) (cf_DataStoreFile c);
            cf_IndexFile := over_str (op_IndexFile opts) (cf_IndexFile c) }, err).

Definition mysql_flags c : Conf :=
  if op_UseMySQL opts then
    let o := op_MySQL opts in
    let m := cf_MySQL c in
    { c with cf_UseMySQL := true;
             cf_MySQL := {| my_Username := over_str (my_Username o) (my_Username m);
                            my_Password := over_str (my_Password o) (my_Password m);
                            my_Protocol := over_str (my_Protocol o) (my_Protocol m);
                            my_Address := over_str (my_Address o) (my_Address m);
                            my_Port := over_str (my_Port o) (my_Port m);
                            my_Dbname := over_str (my_Dbname o) (my_Dbname m);
                            my_ExtraParams := foldl (λ x kv, mset kv.1 kv.2 x) (my_ExtraParams m) (my_ExtraParams o) |} }
  else c.

Definition postgres_flags c : Conf :=
  if op_UsePostgreSQL opts then
    let o := op_PostgreSQL opts in
    let p := cf_PostgreSQL c in
    { c with cf_UsePostgreSQL := true;
             cf_PostgreSQL := {| pg_Username := over_str (pg_Username o) (pg_Username p);
                                 pg_Password := over_str (pg_Password o) (pg_Password p);
                                 pg_Host := over_str (pg_Host o) (pg_Host p);
                                 pg_Port := over_str (pg_Port o) (pg_Port p);
                                 pg_Dbname := over_str (pg_Dbname o) (pg_Dbname p);
                                 pg_SSLMode := over_str (pg_SSLMode o) (pg_SSLMode p) |} }
  else c.

Definition db_flags c : exits Conf :=
  let c := postgres_flags (mysql_flags c) in
  exit_if (cf_UseMySQL c && cf_UsePostgreSQL c) "The MySQL and Postgres options cannot be used together." ≫= λ _,
  if op_PgSearch opts then
    exit_if (negb (cf_UsePostgreSQL c)) "--pg-search requires --use-postgresql (which makes sense, really)." ≫= λ _,
    Run { c with cf_PgSearch := true }
  else Run c.

(** The files of the index and of the data, and whether they are saved. *)
Definition save_files c : exits Conf :=
  let index := set_str (cf_IndexFile c) in
  let data := set_str (cf_DataStoreFile c) in
  exit_if (negb (negb data && negb index || (data || UsingDB c) && index))
    "-i and -D must either both be specified, or not specified" ≫= λ _,
  exit_if (UsingDB c && (negb index && negb (cf_PgSearch c)))
    "An index file must be specified with -i or --index-file (or the 'index-file' config file option) when running with a MySQL or PostgreSQL backend (and not using the PostgreSQL search)." ≫= λ _,
  Run (if index && (data || UsingDB c) then { c with cf_FreezeData := true } else c).

(** The last of the logger's levels, which count up from debug. *)
Definition LevelFatal : Z := 5.

Definition LogLevelNames : list (string * Z) :=
  [("debug", 5%Z); ("info", 4%Z); ("warning", 3%Z); ("error", 2%Z); ("critical", 1%Z); ("fatal", 0%Z)].

(** How much is to be logged: by the number of -V, the file, or a name. *)
Definition verbosity c : Z :=
  let lev := over_int (Z.of_nat (length (op_Verbose opts))) (cf_DebugLevel c) in
  let name := over_str (op_LogLevel opts) (cf_LogLevel c) in
  let lev :=
    if set_str name then
      match mlookup (to_lower name) LogLevelNames with
      | Some n => if (lev =? 0)%Z then n else lev
      | None => lev
      end
    else lev in
  if (5 <? lev)%Z then 5 else lev.

(** src/config/syslog.go: the error, if there is one. *)
Definition setLogger (useSyslog : bool) : option string := if useSyslog then NewSysLogger else None.

(** The error printed when the log file cannot be opened is that of
    [os.Hostname]. *)
Definition log_options (err : string) c : exits Conf :=
  let c := { c with cf_LogFile := over_str (op_LogFile opts) (cf_LogFile c);
                    cf_SysLog := over_bool (op_SysLog opts) (cf_SysLog c) } in
  exit_if (set_str (cf_LogFile c) && bool_decide (is_Some (OpenLogFile (cf_LogFile c)))) err ≫= λ _,
  let c := { c with cf_DebugLevel := wrap64 (LevelFatal - verbosity c);
                    cf_LogLevel := over_str (op_LogLevel opts) (cf_LogLevel c) } in
  match setLogger (cf_SysLog c) with Some e => Exit 1 e | None => Run c end.

(** The default ports of the databases. *)
Definition db_ports c : Conf :=
  let m := cf_MySQL c in
  let p := cf_PostgreSQL c in
  { c with cf_MySQL :=
             if cf_UseMySQL c then
               {| my_Username := my_Username m; my_Password := my_Password m; my_Protocol := my_Protocol m;
                  my_Address := my_Address m; my_Port := over_str (my_Port m) "3306"; my_Dbname := my_Dbname m;
                  my_ExtraParams := my_ExtraParams m |}
             else m;
           cf_PostgreSQL :=
             if cf_UsePostgreSQL c then
               {| pg_Username := pg_Username p; pg_Password := pg_Password p; pg_Host := pg_Host p;
                  pg_Port := over_str (pg_Port p) "5432"; pg_Dbname := pg_Dbname p; pg_SSLMode := pg_SSLMode p |}
             else p }.

(** Where uploaded files go. *)
Definition s3_options c : exits Conf :=
  let c := { c with cf_UseS3Upload := over_bool (op_UseS3Upload opts) (cf_UseS3Upload c) } in
  if cf_UseS3Upload c then
    fatal_if (negb (UsingDB c)) "S3 uploads must be used in SQL mode, not in-memory mode." ≫= λ _,
    let c := { c with cf_AWSRegion := over_str (op_AWSRegion opts) (cf_AWSRegion c);
                      cf_S3Bucket := over_str (op_S3Bucket opts) (cf_S3Bucket c);
                      cf_AWSDisableSSL := over_bool (op_AWSDisableSSL opts) (cf_AWSDisableSSL c);
                      cf_S3Endpoint := over_str (op_S3Endpoint opts) (cf_S3Endpoint c);
                      cf_S3FilePeriod := over_int (op_S3FilePeriod opts) (cf_S3FilePeriod c) } in
    Run { c with cf_S3FilePeriod := over_int (cf_S3FilePeriod c) 15 }
  else Run c.

Definition upload_options c : exits Conf :=
  let c := { c with cf_LocalFstoreDir := over_str (op_LocalFstoreDir opts) (cf_LocalFstoreDir c) } in
  c ← s3_options c;
  fatal_if (negb (set_str (cf_LocalFstoreDir c)) && (UsingDB c && negb (cf_UseS3Upload c)))
    "local-filestore-dir or use-s3-upload must be set and configured when running goiardi in SQL mode" ≫= λ _,
  if set_str (cf_LocalFstoreDir c) then
    match Stat_IsDir (cf_LocalFstoreDir c) with
    | inr e => Fatalf ("Error checking local filestore dir: " +:+ e)
    | inl false => Fatalf ("Local filestore dir " +:+ cf_LocalFstoreDir c +:+ " is not a directory")
    | inl true => Run c
    end
  else Run c.

Definition root_options c : Conf :=
  let c := { c with cf_FreezeInterval := over_int (over_int (op_FreezeInterval opts) (cf_FreezeInterval c)) 10 } in
  let c := { c with cf_ConfRoot := over_str (op_ConfRoot opts) (cf_ConfRoot c) } in
  { c with cf_ConfRoot :=
      over_str (cf_ConfRoot c) (if set_str (cf_ConfFile c) then path_Dir (cf_ConfFile c) else ".") }.

Definition address_options c : exits Conf :=
  let c := { c with cf_Ipaddress := over_str (op_Ipaddress opts) (cf_Ipaddress c) } in
  fatal_if (set_str (cf_Ipaddress c) && bool_decide (ParseIP (cf_Ipaddress c) = None))
    ("IP address '" +:+ cf_Ipaddress c +:+ "' is not valid") ≫= λ _,
  let c := { c with cf_Port := over_int (over_int (op_Port opts) (cf_Port c)) 4545 } in
  Run { c with cf_ProxyPort := over_int (over_int (op_ProxyPort opts) (cf_ProxyPort c)) (cf_Port c) }.

Definition secret_options c : Conf :=
  { c with cf_UseExtSecrets := over_bool (op_UseExtSecrets opts) (cf_UseExtSecrets c);
           cf_VaultAddr := over_str (op_VaultAddr opts) (cf_VaultAddr c) }.

Definition ssl_flags c : Conf :=
  let c := { c with cf_UseSSL := over_bool (op_UseSSL opts) (cf_UseSSL c);
                    cf_SSLCert := over_str (op_SSLCert opts) (cf_SSLCert c);
                    cf_SSLKey := over_str (op_SSLKey opts) (cf_SSLKey c);
                    cf_HTTPSUrls := over_bool (op_HTTPSUrls opts) (cf_HTTPSUrls c) } in
  { c with cf_UseSSL := if (cf_Port c =? 80)%Z then false
                        else if (cf_Port c =? 443)%Z then true else cf_UseSSL c }.

Definition ssl_options c : exits Conf :=
  let c := ssl_flags c in
  if cf_UseSSL c then
    fatal_if (negb (set_str (cf_SSLCert c)) || negb (set_str (cf_SSLKey c)))
      "SSL mode requires specifying both a certificate and a key file." ≫= λ _,
    Run { c with cf_SSLCert := rooted (cf_ConfRoot c) (cf_SSLCert c);
                 cf_SSLKey := rooted (cf_ConfRoot c) (cf_SSLKey c) }
  else Run c.

Definition DefaultTimeSlew : string := "15m".

(** A duration that is given, or the error that ends the process. *)
Definition period (text what : string) (unset : Z) : exits Z :=
  if set_str text then
    match ParseDuration text with inl d => Run d | inr e => Fatalf ("Error parsing " +:+ what +:+ ": " +:+ e) end
  else Run unset.

Definition slew_options c : exits Conf :=
  let c := { c with cf_TimeSlew := over_str (op_TimeSlew opts) (cf_TimeSlew c) } in
  d ← period (cf_TimeSlew c) "time-slew" (match ParseDuration DefaultTimeSlew with inl d => d | inr _ => 0%Z end);
  Run { c with cf_TimeSlewDur := d }.

Definition plain_flags c : Conf :=
  { c with cf_UseAuth := over_bool (op_UseAuth opts) (cf_UseAuth c);
           cf_DisableWebUI := over_bool (op_DisableWebUI opts) (cf_DisableWebUI c);
           cf_LogEvents := over_bool (op_LogEvents opts) (cf_LogEvents c);
           cf_LogEventKeep := over_int (op_LogEventKeep opts) (cf_LogEventKeep c);
           cf_SkipLogExtended := over_bool (op_SkipLogExtended opts) (cf_SkipLogExtended c);
           cf_ObjMaxSize := over_int (over_int (op_ObjMaxSize opts) (cf_ObjMaxSize c)) 10485760;
           cf_JSONReqMaxSize := over_int (over_int (op_JSONReqMaxSize opts) (cf_JSONReqMaxSize c)) 1000000;
           cf_UseUnsafeMemStore := over_bool (op_UseUnsafeMemStore opts) (cf_UseUnsafeMemStore c);
           cf_DbPoolSize := over_int (op_DbPoolSize opts) (cf_DbPoolSize c);
           cf_MaxConn := over_int (op_MaxConn opts) (cf_MaxConn c) }.

Definition serf_flags c : Conf :=
  let c := { c with cf_UseSerf := over_bool (op_UseSerf opts) (cf_UseSerf c) } in
  { c with cf_SerfAddr := if cf_UseSerf c then over_str (over_str (op_SerfAddr opts) (cf_SerfAddr c)) "127.0.0.1:7373"
                          else cf_SerfAddr c;
           cf_SerfEventAnnounce := over_bool (op_SerfEventAnnounce opts) (cf_SerfEventAnnounce c) }.

Definition serf_options c : exits Conf :=
  let c := serf_flags c in
  fatal_if (cf_SerfEventAnnounce c && negb (cf_UseSerf c)) "--serf-event-announce requires --use-serf" ≫= λ _,
  if op_UseShovey opts then
    fatal_if (negb (cf_UseSerf c)) "--use-shovey requires --use-serf to be enabled" ≫= λ _,
    Run { c with cf_UseShovey := true }
  else Run c.

(** The key for signing jobs, from its file. *)
Definition signing_key (file : string) : exits string :=
  match OpenFile file with
  | Some _ => Fatalf ("Private key " +:+ file +:+ " for signing shovey requests not found. Please create a set of RSA keys for this purpose.")
  | None =>
      match ReadFile file with
      | inr e => Fatalf e
      | inl privPem =>
          match pem_Decode privPem with
          | None => Fatalf "Invalid block size for private key for shovey"
          | Some bytes => match ParsePKCS1PrivateKey bytes with inl k => Run k | inr e => Fatalf e end
          end
      end
  end.

Definition shovey_flags c : Conf :=
  { c with cf_SignPrivKey := over_str (op_SignPrivKey opts) (cf_SignPrivKey c);
           cf_VaultShoveyKey := over_str (op_VaultShoveyKey opts) (cf_VaultShoveyKey c) }.

Definition shovey_options c : exits (Conf * option string) :=
  let c := shovey_flags c in
  if cf_UseShovey c then
    if cf_UseExtSecrets c then
      Run ({ c with cf_VaultShoveyKey := over_str (cf_VaultShoveyKey c) "keys/shovey/signing" }, None)
    else
      let file := rooted (cf_ConfRoot c) (over_str (cf_SignPrivKey c) "shovey-sign_rsa") in
      k ← signing_key file; Run ({ c with cf_SignPrivKey := file }, Some k)
  else Run (c, None).

Definition search_options c : Conf :=
  let c := { c with cf_DotSearch := if op_DotSearch opts then true else if cf_PgSearch c then true else cf_DotSearch c } in
  { c with cf_ConvertSearch := if cf_DotSearch c then over_bool (op_ConvertSearch opts) (cf_ConvertSearch c)
                               else cf_ConvertSearch c }.

Definition statsd_options c : Conf :=
  { c with cf_UseStatsd := over_bool (op_UseStatsd opts) (cf_UseStatsd c);
           cf_StatsdAddr := over_str (over_str (op_StatsdAddr opts) (cf_StatsdAddr c)) "localhost:8125";
           cf_StatsdType := over_str (over_str (op_StatsdType opts) (cf_StatsdType c)) "standard";
           cf_StatsdInstance :=
             over_str (over_str (op_StatsdInstance opts) (cf_StatsdInstance c)) (str_replace "." "_" (cf_Hostname c));
           cf_IndexValTrim := over_int (op_IndexValTrim opts) (cf_IndexValTrim c) }.

(** The addresses that may profile: one that cannot be parsed is nil. *)
Definition pprof_options c : Conf * list (option (list Z)) :=
  let c := { c with cf_PprofWhitelist :=
               match op_PprofWhitelist opts with [] => cf_PprofWhitelist c | l => l end } in
  (c, ParseIP <$> cf_PprofWhitelist c).

(** [os.Setenv] of [k=v]. *)
Definition Setenv (k v : string) : bool :=
  set_str k && str_all (λ a, negb (bool_decide (a = "000"%char))) (k +:+ v).

Fixpoint set_environment (vars : list string) : exits (list (string * string)) :=
  match vars with
  | [] => Run []
  | v :: vars =>
      match str_split "=" v with
      | k :: x :: l =>
          let value := str_join "=" (x :: l) in
          if Setenv k value then r ← set_environment vars; Run ((k, value) :: r) else Fatalf "setenv: invalid argument"
      | _ => Fatalf ("Error setting environment variable " +:+ v +:+ " - seems to be malformed.")
      end
  end.

Definition week : Z := 604800000000000.

Definition purge_options c : exits Conf :=
  let c := { c with cf_SearchQueryDebug := over_bool (op_SearchQueryDebug opts) (cf_SearchQueryDebug c);
                    cf_PurgeNodeStatusAfter := over_str (op_PurgeNodeStatusAfter opts) (cf_PurgeNodeStatusAfter c);
                    cf_PurgeReportsAfter := over_str (op_PurgeReportsAfter opts) (cf_PurgeReportsAfter c);
                    cf_PurgeSandboxesAfter := over_str (op_PurgeSandboxesAfter opts) (cf_PurgeSandboxesAfter c) } in
  status ← period (cf_PurgeNodeStatusAfter c) "purge-status-after" (cf_PurgeNodeStatusDur c);
  reports ← period (cf_PurgeReportsAfter c) "purge-reports-after" (cf_PurgeReportsDur c);
  sandboxes ← period (cf_PurgeSandboxesAfter c) "purge-sandboxes-after" week;
  Run { c with cf_PurgeNodeStatusDur := status; cf_PurgeReportsDur := reports; cf_PurgeSandboxesDur := sandboxes }.

(** The configuration the function starts from is the global one; its options
    were parsed without an error. *)
Definition ParseConfigOptions c : exits (Conf * process) :=
  if op_PrintManPage opts || op_Version opts then Exit 0 EmptyString
  else
    c ← load_file c;
    c ← import_export c;
    let '(c, err) := host_names c in
    c ← db_flags c;
    c ← save_files c;
    c ← log_options err c;
    c ← upload_options (db_ports c);
    c ← address_options (root_options c);
    c ← ssl_options (secret_options c);
    c ← slew_options c;
    c ← serf_options (plain_flags c);
    ck ← shovey_options c;
    let '(c, key) := ck in
    let '(c, whitelist) := pprof_options (statsd_options (search_options c)) in
    environ ← set_environment (cf_EnvVars c);
    c ← purge_options c;
    Run (c, {| pr_pprofWhitelist := whitelist; pr_Environ := environ; pr_Key := key |}).

(** On SIGHUP the options are parsed again, over the configuration there is
    ([handleSignals] in src/goiardi.go). *)
Definition reload c : exits (Conf * process) := ParseConfigOptions c.

Definition initConfig : Conf := {|
  cf_Ipaddress := EmptyString; cf_Port := 0; cf_Hostname := EmptyString; cf_ProxyHostname := EmptyString;
  cf_ProxyPort := 0; cf_ConfFile := EmptyString; cf_IndexFile := EmptyString; cf_DataStoreFile := EmptyString;
  cf_DebugLevel := 0; cf_LogLevel := EmptyString; cf_FreezeInterval := 0; cf_FreezeData := false;
  cf_LogFile := EmptyString; cf_SysLog := false; cf_UseAuth := false; cf_TimeSlew := EmptyString;
  cf_TimeSlewDur := 0; cf_ConfRoot := EmptyString; cf_UseSSL := false; cf_SSLCert := EmptyString;
  cf_SSLKey := EmptyString; cf_HTTPSUrls := false; cf_DisableWebUI := false; cf_UseMySQL := false;
  cf_MySQL := {| my_Username := EmptyString; my_Password := EmptyString; my_Protocol := EmptyString; my_Address := EmptyString; my_Port := EmptyString; my_Dbname := EmptyString; my_ExtraParams := [] |};
  cf_UsePostgreSQL := false;
  cf_PostgreSQL := {| pg_Username := EmptyString; pg_Password := EmptyString; pg_Host := EmptyString; pg_Port := EmptyString; pg_Dbname := EmptyString; pg_SSLMode := EmptyString |};
  cf_LocalFstoreDir := EmptyString; cf_LogEvents := false; cf_LogEventKeep := 0; cf_SkipLogExtended := false;
  cf_DoExport := false; cf_DoImport := false; cf_DoBootstrap := false; cf_ImpExFile := EmptyString;
  cf_ObjMaxSize := 0; cf_JSONReqMaxSize := 0; cf_UseUnsafeMemStore := false; cf_DbPoolSize := 0;
  cf_MaxConn := 0; cf_UseSerf := false; cf_SerfEventAnnounce := false; cf_SerfAddr := EmptyString;
  cf_UseShovey := false; cf_SignPrivKey := EmptyString; cf_DotSearch := false; cf_ConvertSearch := false;
  cf_PgSearch := false; cf_UseStatsd := false; cf_StatsdAddr := EmptyString; cf_StatsdType := EmptyString;
  cf_StatsdInstance := EmptyString; cf_UseS3Upload := false; cf_AWSRegion := EmptyString;
  cf_S3Bucket := EmptyString; cf_AWSDisableSSL := false; cf_S3Endpoint := EmptyString; cf_S3FilePeriod := 0;
  cf_UseExtSecrets := false; cf_VaultAddr := EmptyString; cf_VaultShoveyKey := EmptyString; cf_EnvVars := [];
  cf_IndexValTrim := 0; cf_PprofWhitelist := []; cf_PurgeNodeStatusAfter := EmptyString;
  cf_PurgeReportsAfter := EmptyString; cf_PurgeSandboxesAfter := EmptyString; cf_PurgeNodeStatusDur := 0;
  cf_PurgeReportsDur := 0; cf_PurgeSandboxesDur := 0; cf_SearchQueryDebug := false |}.

(** ** The parts other code reads *)

Definition ListenAddr c : string := JoinHostPort (cf_Ipaddress c) (itoa (cf_Port c)).

(** [net.IP.Equal]: two addresses that could not be parsed are equal. *)
Definition PprofWhitelisted (p : process) (remoteIP : option (list Z)) : bool :=
  existsb (λ wl, bool_decide (remoteIP = wl)) (pr_pprofWhitelist p).

(** What the rest of the development reads. *)
Definition served_conf c : Config.Conf := {|
  UseSSL := cf_UseSSL c; HTTPSUrls := cf_HTTPSUrls c; ProxyHostname := cf_ProxyHostname c; ProxyPort := cf_ProxyPort c;
  UsePostgreSQL := cf_UsePostgreSQL c; DotSearch := cf_DotSearch c; ConvertSearch := cf_ConvertSearch c;
  IndexValTrim := cf_IndexValTrim c; UseAuth := cf_UseAuth c; LogEvents := cf_LogEvents c;
  SkipLogExtended := cf_SkipLogExtended c; TimeSlewDur := cf_TimeSlewDur c; JSONReqMaxSize := cf_JSONReqMaxSize c;
  ObjMaxSize := cf_ObjMaxSize c; DisableWebUI := cf_DisableWebUI c; UseShovey := cf_UseShovey c |}.
End parse.
