(* ===== verification/ConfigurationFacts.v ===== *)
(** What a configuration the server accepts is like: each part of
    [ParseConfigOptions], and the fields and checks it settles; that the
    accepted configuration is consistent; which of the command line, the file
    and the default a value comes from; and where that departs from what the
    comments and messages say. *)
From coqutil Require Import Datatypes.RecordSetters.
From S2P Require Import Prelude Gerror Iface Config Paths Configuration.
Import RecordSetters.OCamlLikeNotations.

(** * Ending or going on *)

Section exits.
  Context {A B : Type}.

#[global] Instance Run_inj : Inj (=) (=) (@Run A).
Proof. by intros ? ? [= ->]. Qed.

Lemma exits_bind_run (m : exits A) (f : A → exits B) b :
  m ≫= f = Run b → ∃ a, m = Run a ∧ f a = Run b.
Proof. destruct m as [|a]; [done|]. intros H. by exists a. Qed.

Lemma exit_if_run b t (f : () → exits B) x : exit_if b t ≫= f = Run x → b = false ∧ f () = Run x.
Proof. by destruct b. Qed.

Lemma fatal_if_run b t (f : () → exits B) x : fatal_if b t ≫= f = Run x → b = false ∧ f () = Run x.
Proof. by destruct b. Qed.
End exits.

Ltac exits_inv :=
  repeat match goal with
  | H : exit_if _ _ ≫= _ = Run _ |- _ => apply exit_if_run in H as [? H]
  | H : fatal_if _ _ ≫= _ = Run _ |- _ => apply fatal_if_run in H as [? H]
  | H : _ ≫= _ = Run _ |- _ => apply exits_bind_run in H as (? & ? & H)
  end.

Lemma set_str_true s : set_str s = true ↔ s ≠ EmptyString.
Proof. unfold set_str. by rewrite negb_true_iff, bool_decide_eq_false. Qed.

Lemma set_str_false s : set_str s = false ↔ s = EmptyString.
Proof. unfold set_str. by rewrite negb_false_iff, bool_decide_eq_true. Qed.

Lemma over_str_set a b : b ≠ EmptyString → over_str a b ≠ EmptyString.
Proof. intros Hb. unfold over_str. destruct (set_str a) eqn:E; [by apply set_str_true|done]. Qed.

Lemma over_int_set a b : (b ≠ 0 → over_int a b ≠ 0)%Z.
Proof. intros Hb. unfold over_int, set_int. destruct (Z.eqb_spec a 0); simpl; lia. Qed.

Lemma over_str_given a b : a ≠ EmptyString → over_str a b = a.
Proof. intros Ha%set_str_true. unfold over_str. by rewrite Ha. Qed.

Lemma over_int_given a b : (a ≠ 0)%Z → over_int a b = a.
Proof. intros Ha. unfold over_int, set_int. by destruct (Z.eqb_spec a 0). Qed.

(** * The parts of ParseConfigOptions *)

Section stages.
  Context {SYS : System} (opts : Options).
  Implicit Types (c f : Conf).

(** Two configurations given field by field are compared field by field. *)
Ltac by_fields := repeat match goal with x : Conf |- _ => destruct x end; reflexivity.

Lemma import_export_run c c' :
  import_export opts c = Run c' →
  set_str (op_Export opts) && set_str (op_Import opts) = false ∧
  c' = { c with cf_DoBootstrap := op_Bootstrap opts;
                cf_DoExport := if set_str (op_Export opts) then true else cf_DoExport c;
                cf_DoImport := if negb (set_str (op_Export opts)) && set_str (op_Import opts) then true else cf_DoImport c;
                cf_ImpExFile := over_str (op_Export opts) (over_str (op_Import opts) (cf_ImpExFile c)) }.
Proof.
  unfold import_export, over_str. intros H. exits_inv. split; [done|].
  destruct (set_str (op_Export opts)), (set_str (op_Import opts)); simplify_eq/=; by_fields.
Qed.

Lemma db_flags_run c c' :
  db_flags opts c = Run c' →
  c' = { c with cf_UseMySQL := over_bool (op_UseMySQL opts) (cf_UseMySQL c); cf_MySQL := cf_MySQL (mysql_flags opts c);
                cf_UsePostgreSQL := over_bool (op_UsePostgreSQL opts) (cf_UsePostgreSQL c);
                cf_PostgreSQL := cf_PostgreSQL (postgres_flags opts c);
                cf_PgSearch := over_bool (op_PgSearch opts) (cf_PgSearch c) } ∧
  cf_UseMySQL c' && cf_UsePostgreSQL c' = false ∧ (op_PgSearch opts = true → cf_UsePostgreSQL c' = true).
Proof.
  unfold db_flags, mysql_flags, postgres_flags, over_bool. intros H.
  destruct (op_UseMySQL opts), (op_UsePostgreSQL opts), (op_PgSearch opts); exits_inv; apply (inj Run) in H as <-;
    (split; [by_fields|]); split; try done; intros _; by apply negb_false_iff.
Qed.

Lemma save_files_run c c' :
  save_files c = Run c' →
  let index := set_str (cf_IndexFile c) in
  let data := set_str (cf_DataStoreFile c) in
  c' = { c with cf_FreezeData := if index && (data || UsingDB c) then true else cf_FreezeData c } ∧
  (if index then data || UsingDB c else negb data) = true ∧
  (UsingDB c = true → index || cf_PgSearch c = true).
Proof.
  unfold save_files. intros H. exits_inv.
  destruct (set_str (cf_IndexFile c)), (set_str (cf_DataStoreFile c)), (UsingDB c) eqn:Hdb, (cf_PgSearch c);
    simplify_eq/=; split_and?; try done; by_fields.
Qed.

(** A check of a value that is only made when the value is given. *)
Lemma checked_set s (P : Prop) {HP : Decision P} :
  set_str s && bool_decide P = false → s ≠ EmptyString → ¬ P.
Proof. intros Hc Hs%set_str_true. rewrite Hs in Hc. by apply bool_decide_eq_false in Hc. Qed.

Lemma log_options_run err c c' :
  log_options opts err c = Run c' →
  c' = { c with cf_LogFile := over_str (op_LogFile opts) (cf_LogFile c);
                cf_SysLog := over_bool (op_SysLog opts) (cf_SysLog c);
                cf_LogLevel := over_str (op_LogLevel opts) (cf_LogLevel c);
                cf_DebugLevel := wrap64 (LevelFatal - verbosity opts c) } ∧
  (cf_LogFile c' ≠ EmptyString → ¬ is_Some (OpenLogFile (cf_LogFile c'))) ∧ setLogger (cf_SysLog c') = None.
Proof.
  unfold log_options. intros H. exits_inv. case_match eqn:Hs; [done|]. apply (inj Run) in H as <-. split; [|split].
  - by_fields.
  - intros Hf. eapply checked_set; eassumption.
  - exact Hs.
Qed.

Lemma upload_options_run c c' :
  upload_options opts c = Run c' →
  let s3 := over_bool (op_UseS3Upload opts) (cf_UseS3Upload c) in
  c' = { c with cf_LocalFstoreDir := over_str (op_LocalFstoreDir opts) (cf_LocalFstoreDir c);
                cf_UseS3Upload := s3;
                cf_AWSRegion := if s3 then over_str (op_AWSRegion opts) (cf_AWSRegion c) else cf_AWSRegion c;
                cf_S3Bucket := if s3 then over_str (op_S3Bucket opts) (cf_S3Bucket c) else cf_S3Bucket c;
                cf_AWSDisableSSL := if s3 then over_bool (op_AWSDisableSSL opts) (cf_AWSDisableSSL c) else cf_AWSDisableSSL c;
                cf_S3Endpoint := if s3 then over_str (op_S3Endpoint opts) (cf_S3Endpoint c) else cf_S3Endpoint c;
                cf_S3FilePeriod := if s3 then over_int (over_int (op_S3FilePeriod opts) (cf_S3FilePeriod c)) 15
                                   else cf_S3FilePeriod c } ∧
  (s3 = true → UsingDB c = true) ∧
  (UsingDB c = true → cf_LocalFstoreDir c' ≠ EmptyString ∨ s3 = true) ∧
  (cf_LocalFstoreDir c' ≠ EmptyString → Stat_IsDir (cf_LocalFstoreDir c') = inl true).
Proof.
  intros H s3. unfold upload_options in H. apply exits_bind_run in H as (c1 & H1 & H). apply fatal_if_run in H as [Hl H].
  assert (c' = c1 ∧ (cf_LocalFstoreDir c1 ≠ EmptyString → Stat_IsDir (cf_LocalFstoreDir c1) = inl true)) as [-> Hdir].
  { destruct (set_str (cf_LocalFstoreDir c1)) eqn:E.
    - by destruct (Stat_IsDir (cf_LocalFstoreDir c1)) as [[]|]; simplify_eq.
    - apply set_str_false in E. by simplify_eq. }
  clear H. unfold s3_options in H1. fold s3 in H1.
  change (over_bool (op_UseS3Upload opts) (cf_UseS3Upload _)) with s3 in H1.
  assert (cf_UseS3Upload c1 = s3 ∧ UsingDB c1 = UsingDB c ∧ (s3 = true → UsingDB c = true)) as (Es & Ed & Hs).
  { destruct s3; simpl in H1; exits_inv; simplify_eq/=; split_and?; try done; intros _; by apply negb_false_iff. }
  split; [|split_and?; try done].
  - destruct s3; simpl in H1; exits_inv; apply (inj Run) in H1 as <-; by_fields.
  - intros Hdb. rewrite Ed, Hdb, Es in Hl. destruct (set_str (cf_LocalFstoreDir c1)) eqn:E.
    + left. by apply set_str_true.
    + right. by destruct s3.
Qed.

Lemma address_options_run c c' :
  address_options opts c = Run c' →
  let port := over_int (over_int (op_Port opts) (cf_Port c)) 4545 in
  c' = { c with cf_Ipaddress := over_str (op_Ipaddress opts) (cf_Ipaddress c); cf_Port := port;
                cf_ProxyPort := over_int (over_int (op_ProxyPort opts) (cf_ProxyPort c)) port } ∧
  (cf_Ipaddress c' ≠ EmptyString → ParseIP (cf_Ipaddress c') ≠ None).
Proof.
  unfold address_options. intros H. exits_inv. apply (inj Run) in H as <-.
  split; [by_fields|]. intros Hf. eapply checked_set; eassumption.
Qed.

Lemma if_eq {A} (b b' : bool) (x y : A) : b = b' → (if b' then x else y) = if b then x else y.
Proof. by intros ->. Qed.

(** With SSL, the certificate and the key, from the root of the configuration
    unless their paths are absolute. *)
Lemma ssl_options_run c c' :
  ssl_options opts c = Run c' →
  let ssl := if (cf_Port c =? 80)%Z then false else if (cf_Port c =? 443)%Z then true
             else over_bool (op_UseSSL opts) (cf_UseSSL c) in
  let cert := over_str (op_SSLCert opts) (cf_SSLCert c) in
  let key := over_str (op_SSLKey opts) (cf_SSLKey c) in
  c' = { c with cf_UseSSL := ssl; cf_HTTPSUrls := over_bool (op_HTTPSUrls opts) (cf_HTTPSUrls c);
                cf_SSLCert := if ssl then rooted (cf_ConfRoot c) cert else cert;
                cf_SSLKey := if ssl then rooted (cf_ConfRoot c) key else key } ∧
  (ssl = true → cert ≠ EmptyString ∧ key ≠ EmptyString).
Proof.
  intros H ssl cert key. unfold ssl_options in H. cbn zeta in H.
  assert (E : cf_UseSSL (ssl_flags opts c) = ssl) by reflexivity.
  destruct (cf_UseSSL (ssl_flags opts c)).
  - apply fatal_if_run in H as [[Hc Hk]%orb_false_iff H]. apply (inj Run) in H as <-. split.
    + rewrite !(if_eq true ssl) by done. by_fields.
    + intros _. split; by apply set_str_true, negb_false_iff.
  - apply (inj Run) in H as <-. rewrite !(if_eq false ssl) by done. split; [by_fields|]. by rewrite <-E.
Qed.

Lemma period_run text what unset d :
  period text what unset = Run d → if set_str text then ParseDuration text = inl d else d = unset.
Proof. unfold period. destruct (set_str text), (ParseDuration text); naive_solver. Qed.

Lemma slew_options_run c c' :
  slew_options opts c = Run c' →
  let slew := over_str (op_TimeSlew opts) (cf_TimeSlew c) in
  ∃ d, c' = { c with cf_TimeSlew := slew; cf_TimeSlewDur := d } ∧
    (if set_str slew then ParseDuration slew = inl d
     else d = match ParseDuration DefaultTimeSlew with inl d => d | inr _ => 0%Z end).
Proof.
  intros H slew. apply exits_bind_run in H as (d & Hd%period_run & H). apply (inj Run) in H as <-.
  exists d. split; [by_fields|exact Hd].
Qed.

Lemma serf_options_run c c' :
  serf_options opts c = Run c' →
  let serf := over_bool (op_UseSerf opts) (cf_UseSerf c) in
  let announce := over_bool (op_SerfEventAnnounce opts) (cf_SerfEventAnnounce c) in
  c' = { c with cf_UseSerf := serf; cf_SerfEventAnnounce := announce;
                cf_SerfAddr := if serf then over_str (over_str (op_SerfAddr opts) (cf_SerfAddr c)) "127.0.0.1:7373"
                               else cf_SerfAddr c;
                cf_UseShovey := over_bool (op_UseShovey opts) (cf_UseShovey c) } ∧
  (announce = true → serf = true) ∧ (op_UseShovey opts = true → serf = true).
Proof.
  intros H serf announce. unfold serf_options in H. cbn zeta in H. apply fatal_if_run in H as [Ha H].
  change (announce && negb serf = false) in Ha.
  assert (Has : announce = true → serf = true) by (by destruct announce, serf).
  unfold over_bool. destruct (op_UseShovey opts).
  - apply fatal_if_run in H as [Hs H]. change (negb serf = false) in Hs. apply negb_false_iff in Hs.
    apply (inj Run) in H as <-. split; [by_fields|done].
  - apply (inj Run) in H as <-. split; [by_fields|done].
Qed.

(** Where the key for signing is, or what it is called. *)
Lemma shovey_options_run c c' k :
  shovey_options opts c = Run (c', k) →
  let vault := over_str (op_VaultShoveyKey opts) (cf_VaultShoveyKey c) in
  let file := over_str (op_SignPrivKey opts) (cf_SignPrivKey c) in
  let path := rooted (cf_ConfRoot c) (over_str file "shovey-sign_rsa") in
  c' = { c with cf_VaultShoveyKey := if cf_UseShovey c && cf_UseExtSecrets c then over_str vault "keys/shovey/signing" else vault;
                cf_SignPrivKey := if cf_UseShovey c && negb (cf_UseExtSecrets c) then path else file } ∧
  (if cf_UseShovey c && negb (cf_UseExtSecrets c) then ∃ key, signing_key path = Run key ∧ k = Some key else k = None).
Proof.
  intros H vault file path. unfold shovey_options in H. cbn zeta in H.
  change (cf_UseShovey (shovey_flags opts c)) with (cf_UseShovey c) in H.
  change (cf_UseExtSecrets (shovey_flags opts c)) with (cf_UseExtSecrets c) in H.
  destruct (cf_UseShovey c) eqn:E1, (cf_UseExtSecrets c) eqn:E2; cbn [andb negb].
  2: { apply exits_bind_run in H as (key & Hk & H). change (signing_key path = Run key) in Hk.
       apply (inj Run) in H as [= <- <-]. split; [|by eauto]. by_fields. }
  all: apply (inj Run) in H as [= <- <-]; split; [by_fields|done].
Qed.

Lemma purge_options_run c c' :
  purge_options opts c = Run c' →
  let status := over_str (op_PurgeNodeStatusAfter opts) (cf_PurgeNodeStatusAfter c) in
  let reports := over_str (op_PurgeReportsAfter opts) (cf_PurgeReportsAfter c) in
  let sandboxes := over_str (op_PurgeSandboxesAfter opts) (cf_PurgeSandboxesAfter c) in
  ∃ d1 d2 d3,
    c' = { c with cf_SearchQueryDebug := over_bool (op_SearchQueryDebug opts) (cf_SearchQueryDebug c);
                  cf_PurgeNodeStatusAfter := status; cf_PurgeReportsAfter := reports; cf_PurgeSandboxesAfter := sandboxes;
                  cf_PurgeNodeStatusDur := d1; cf_PurgeReportsDur := d2; cf_PurgeSandboxesDur := d3 } ∧
    (if set_str status then ParseDuration status = inl d1 else d1 = cf_PurgeNodeStatusDur c) ∧
    (if set_str reports then ParseDuration reports = inl d2 else d2 = cf_PurgeReportsDur c) ∧
    (if set_str sandboxes then ParseDuration sandboxes = inl d3 else d3 = week).
Proof.
  intros H status reports sandboxes.
  apply exits_bind_run in H as (d1 & H1%period_run & H). apply exits_bind_run in H as (d2 & H2%period_run & H).
  apply exits_bind_run in H as (d3 & H3%period_run & H). apply (inj Run) in H as <-.
  exists d1, d2, d3. split; [by_fields|]. split_and?; [exact H1|exact H2|exact H3].
Qed.

Lemma host_names_fields c :
  let host := over_str (op_Hostname opts)
                (over_str (cf_Hostname c) (match Sys_Hostname with inl h => h | inr _ => "localhost" end)) in
  (host_names opts c).1 =
    { c with cf_Hostname := host;
             cf_ProxyHostname := over_str (over_str (op_ProxyHostname opts) (cf_ProxyHostname c)) host;
             cf_DataStoreFile := over_str (op_DataStoreFile opts) (cf_DataStoreFile c);
             cf_IndexFile := over_str (op_IndexFile opts) (cf_IndexFile c) }.
Proof. by_fields. Qed.

Lemma root_options_fields c :
  root_options opts c =
    { c with cf_FreezeInterval := over_int (over_int (op_FreezeInterval opts) (cf_FreezeInterval c)) 10;
             cf_ConfRoot := over_str (over_str (op_ConfRoot opts) (cf_ConfRoot c))
                              (if set_str (cf_ConfFile c) then path_Dir (cf_ConfFile c) else ".") }.
Proof. by_fields. Qed.

Lemma search_options_fields c :
  let dot := if op_DotSearch opts then true else if cf_PgSearch c then true else cf_DotSearch c in
  search_options opts c =
    { c with cf_DotSearch := dot;
             cf_ConvertSearch := if dot then over_bool (op_ConvertSearch opts) (cf_ConvertSearch c)
                                 else cf_ConvertSearch c }.
Proof. by_fields. Qed.

(** The accepting run, part by part. *)
Lemma ParseConfigOptions_run c0 c p :
  ParseConfigOptions opts c0 = Run (c, p) →
  ∃ f c1 h c2 c3 c4 d4 c5 r5 c6 s6 c7 c8 p8 c9 c10 s10 t10 w10 key,
    load_file opts c0 = Run f ∧ import_export opts f = Run c1 ∧
    h = (host_names opts c1).1 ∧ db_flags opts h = Run c2 ∧ save_files c2 = Run c3 ∧
    log_options opts (host_names opts c1).2 c3 = Run c4 ∧
    d4 = db_ports c4 ∧ upload_options opts d4 = Run c5 ∧ r5 = root_options opts c5 ∧ address_options opts r5 = Run c6 ∧
    s6 = secret_options opts c6 ∧ ssl_options opts s6 = Run c7 ∧ slew_options opts c7 = Run c8 ∧
    p8 = plain_flags opts c8 ∧ serf_options opts p8 = Run c9 ∧ shovey_options opts c9 = Run (c10, key) ∧
    s10 = search_options opts c10 ∧ t10 = statsd_options opts s10 ∧ w10 = (pprof_options opts t10).1 ∧
    purge_options opts w10 = Run c ∧ set_environment (cf_EnvVars w10) = Run (pr_Environ p) ∧
    pr_pprofWhitelist p = ParseIP <$> cf_PprofWhitelist w10 ∧ pr_Key p = key.
Proof.
  unfold ParseConfigOptions. intros H. destruct (op_PrintManPage opts || op_Version opts); [done|].
  apply exits_bind_run in H as (f & Hf & H). apply exits_bind_run in H as (c1 & H1 & H).
  destruct (host_names opts c1) as [h err] eqn:Eh.
  apply exits_bind_run in H as (c2 & H2 & H). apply exits_bind_run in H as (c3 & H3 & H).
  apply exits_bind_run in H as (c4 & H4 & H). apply exits_bind_run in H as (c5 & H5 & H).
  apply exits_bind_run in H as (c6 & H6 & H). apply exits_bind_run in H as (c7 & H7 & H).
  apply exits_bind_run in H as (c8 & H8 & H). apply exits_bind_run in H as (c9 & H9 & H).
  apply exits_bind_run in H as ([c10 key] & H10 & H).
  destruct (pprof_options opts (statsd_options opts (search_options opts c10))) as [w10 wl] eqn:El.
  apply exits_bind_run in H as (env & He & H). apply exits_bind_run in H as (c11 & H11 & H).
  apply (inj Run) in H as [= <- <-].
  exists f, c1, h, c2, c3, c4, (db_ports c4), c5, (root_options opts c5), c6, (secret_options opts c6), c7, c8,
    (plain_flags opts c8), c9, c10, (search_options opts c10), (statsd_options opts (search_options opts c10)), w10, key.
  rewrite Eh, El. split_and?; try done. simpl. by injection El as <- <-.
Qed.
End stages.

(** * The accepted configuration *)

(** What a configuration the server runs with is like, with what the process
    keeps beside it. *)
Record accepted `{System} (c : Conf) (p : process) : Prop := {
  acc_one_db : cf_UseMySQL c && cf_UsePostgreSQL c = false;
  acc_files : if set_str (cf_IndexFile c) then cf_DataStoreFile c ≠ EmptyString ∨ UsingDB c = true
              else cf_DataStoreFile c = EmptyString;
  acc_frozen : cf_IndexFile c ≠ EmptyString → cf_FreezeData c = true;
  acc_index : UsingDB c = true → cf_IndexFile c ≠ EmptyString ∨ cf_PgSearch c = true;
  acc_uploads : UsingDB c = true → cf_LocalFstoreDir c ≠ EmptyString ∨ cf_UseS3Upload c = true;
  acc_s3 : cf_UseS3Upload c = true → UsingDB c = true ∧ cf_S3FilePeriod c ≠ 0%Z;
  acc_dir : cf_LocalFstoreDir c ≠ EmptyString → Stat_IsDir (cf_LocalFstoreDir c) = inl true;
  acc_log : cf_LogFile c ≠ EmptyString → ¬ is_Some (OpenLogFile (cf_LogFile c));
  acc_address : cf_Ipaddress c ≠ EmptyString → ParseIP (cf_Ipaddress c) ≠ None;
  acc_ports : cf_Port c ≠ 0%Z ∧ cf_ProxyPort c ≠ 0%Z;
  acc_plain_port : cf_Port c = 80%Z → cf_UseSSL c = false;
  acc_ssl_port : cf_Port c = 443%Z → cf_UseSSL c = true;
  acc_announce : cf_SerfEventAnnounce c = true → cf_UseSerf c = true;
  acc_serf : cf_UseSerf c = true → cf_SerfAddr c ≠ EmptyString;
  acc_signing :
    if cf_UseShovey c && negb (cf_UseExtSecrets c)
    then ∃ key, signing_key (cf_SignPrivKey c) = Run key ∧ pr_Key p = Some key
    else pr_Key p = None;
  acc_vault : cf_UseShovey c = true → cf_UseExtSecrets c = true → cf_VaultShoveyKey c ≠ EmptyString;
  acc_search : cf_PgSearch c = true → cf_DotSearch c = true;
  acc_sizes : cf_ObjMaxSize c ≠ 0%Z ∧ cf_JSONReqMaxSize c ≠ 0%Z ∧ cf_FreezeInterval c ≠ 0%Z;
  acc_slew : cf_TimeSlew c ≠ EmptyString → ParseDuration (cf_TimeSlew c) = inl (cf_TimeSlewDur c);
  acc_purge_status :
    cf_PurgeNodeStatusAfter c ≠ EmptyString → ParseDuration (cf_PurgeNodeStatusAfter c) = inl (cf_PurgeNodeStatusDur c);
  acc_purge_reports :
    cf_PurgeReportsAfter c ≠ EmptyString → ParseDuration (cf_PurgeReportsAfter c) = inl (cf_PurgeReportsDur c);
  acc_purge : if set_str (cf_PurgeSandboxesAfter c)
              then ParseDuration (cf_PurgeSandboxesAfter c) = inl (cf_PurgeSandboxesDur c)
              else cf_PurgeSandboxesDur c = week;
  acc_whitelist : pr_pprofWhitelist p = ParseIP <$> cf_PprofWhitelist c;
  acc_environ : Forall2 (λ v kv, v = kv.1 +:+ "=" +:+ kv.2 ∧ kv.1 ≠ EmptyString) (cf_EnvVars c) (pr_Environ p);
}.

Lemma set_environment_run l env :
  set_environment l = Run env → Forall2 (λ v kv, v = kv.1 +:+ "=" +:+ kv.2 ∧ kv.1 ≠ EmptyString) l env.
Proof.
  revert env. induction l as [|v l IH]; intros env; simpl.
  - intros [= <-]. constructor.
  - pose proof (str_join_split "=" v) as Ev. destruct (str_split "=" v) as [|k [|x r]]; [done|done|].
    destruct (Setenv k _) eqn:Es; [|done]. intros H. apply exits_bind_run in H as (env' & H & [= <-]).
    constructor; [|by apply IH]. split; [by rewrite <-Ev|].
    unfold Setenv in Es. apply andb_true_iff in Es as [Es _]. by apply set_str_true.
Qed.

Lemma over_bool_orb a b : over_bool a b = a || b.
Proof. by destruct a. Qed.

(** ** Where a value comes from *)

(** The first of some texts and of some numbers that is given. *)
Fixpoint first_set (l : list string) : string :=
  match l with [] => EmptyString | s :: l => if bool_decide (s = EmptyString) then first_set l else s end.

Fixpoint first_int (l : list Z) : Z := match l with [] => 0%Z | n :: l => if (n =? 0)%Z then first_int l else n end.

(** A text or number that counts only under a condition. *)
Definition when_str (b : bool) (s : string) : string := if b then s else EmptyString.
Definition when_int (b : bool) (n : Z) : Z := if b then n else 0%Z.

Definition named_level (name : string) : Z := default 0%Z (mlookup (to_lower name) LogLevelNames).

Definition duration (text : string) (unset d : Z) `{System} : Prop :=
  if bool_decide (text = EmptyString) then d = unset else ParseDuration text = inl d.

(** The options of a database, when it is asked for ([b]), over those of the
    file, with the default port when it is used. *)
Definition merged_mysql (b used : bool) (o m : MySQLdb) : MySQLdb := {|
  my_Username := first_set [when_str b (my_Username o); my_Username m];
  my_Password := first_set [when_str b (my_Password o); my_Password m];
  my_Protocol := first_set [when_str b (my_Protocol o); my_Protocol m];
  my_Address := first_set [when_str b (my_Address o); my_Address m];
  my_Port := first_set [when_str b (my_Port o); my_Port m; when_str used "3306"];
  my_Dbname := first_set [when_str b (my_Dbname o); my_Dbname m];
  my_ExtraParams :=
    if b then foldl (λ x kv, mset kv.1 kv.2 x) (my_ExtraParams m) (my_ExtraParams o) else my_ExtraParams m |}.

Definition merged_postgres (b used : bool) (o m : PostgreSQLdb) : PostgreSQLdb := {|
  pg_Username := first_set [when_str b (pg_Username o); pg_Username m];
  pg_Password := first_set [when_str b (pg_Password o); pg_Password m];
  pg_Host := first_set [when_str b (pg_Host o); pg_Host m];
  pg_Port := first_set [when_str b (pg_Port o); pg_Port m; when_str used "5432"];
  pg_Dbname := first_set [when_str b (pg_Dbname o); pg_Dbname m];
  pg_SSLMode := first_set [when_str b (pg_SSLMode o); pg_SSLMode m] |}.

(** Every field of the configuration [c] that comes of the options [opts] and
    the configuration [f], the initial one with the file read over it.  The
    options come first, then the file, then the default, but for these:
    options of a database count only when the database itself is asked for on
    the command line; ports 80 and 443 settle whether SSL is used; the level of
    the log comes of the number of -V, then of debug-level in the file, and only
    then of a name, that of the command line first; the options of S3 and the
    address of serf count only when these are used; and the search of PostgreSQL
    turns on searching with dots. *)
Record precedence `{System} (opts : Options) (f c : Conf) : Prop := {
  pc_hostname : cf_Hostname c =
    first_set [op_Hostname opts; cf_Hostname f; match Sys_Hostname with inl h => h | inr _ => "localhost" end];
  pc_proxy_hostname : cf_ProxyHostname c = first_set [op_ProxyHostname opts; cf_ProxyHostname f; cf_Hostname c];
  pc_ipaddress : cf_Ipaddress c = first_set [op_Ipaddress opts; cf_Ipaddress f];
  pc_port : cf_Port c = first_int [op_Port opts; cf_Port f; 4545%Z];
  pc_proxy_port : cf_ProxyPort c = first_int [op_ProxyPort opts; cf_ProxyPort f; cf_Port c];
  pc_conf_file : cf_ConfFile c = cf_ConfFile f;
  pc_conf_root : cf_ConfRoot c =
    first_set [op_ConfRoot opts; cf_ConfRoot f; if set_str (cf_ConfFile f) then path_Dir (cf_ConfFile f) else "."];
  pc_index_file : cf_IndexFile c = first_set [op_IndexFile opts; cf_IndexFile f];
  pc_data_file : cf_DataStoreFile c = first_set [op_DataStoreFile opts; cf_DataStoreFile f];
  pc_freeze_interval : cf_FreezeInterval c = first_int [op_FreezeInterval opts; cf_FreezeInterval f; 10%Z];
  pc_freeze_data : cf_FreezeData c =
    set_str (cf_IndexFile c) && (set_str (cf_DataStoreFile c) || UsingDB c) || cf_FreezeData f;
  pc_log_file : cf_LogFile c = first_set [op_LogFile opts; cf_LogFile f];
  pc_syslog : cf_SysLog c = op_SysLog opts || cf_SysLog f;
  pc_log_level : cf_LogLevel c = first_set [op_LogLevel opts; cf_LogLevel f];
  pc_debug_level : cf_DebugLevel c =
    wrap64 (5 - Z.min 5 (first_int [Z.of_nat (length (op_Verbose opts)); cf_DebugLevel f; named_level (cf_LogLevel c)]));
  pc_auth : cf_UseAuth c = op_UseAuth opts || cf_UseAuth f;
  pc_slew : cf_TimeSlew c = first_set [op_TimeSlew opts; cf_TimeSlew f];
  pc_slew_dur : duration (cf_TimeSlew c) (match ParseDuration "15m" with inl d => d | inr _ => 0%Z end) (cf_TimeSlewDur c);
  pc_ssl : cf_UseSSL c =
    if (cf_Port c =? 80)%Z then false else if (cf_Port c =? 443)%Z then true else op_UseSSL opts || cf_UseSSL f;
  pc_ssl_cert : cf_SSLCert c = (if cf_UseSSL c then rooted (cf_ConfRoot c) else id) (first_set [op_SSLCert opts; cf_SSLCert f]);
  pc_ssl_key : cf_SSLKey c = (if cf_UseSSL c then rooted (cf_ConfRoot c) else id) (first_set [op_SSLKey opts; cf_SSLKey f]);
  pc_https_urls : cf_HTTPSUrls c = op_HTTPSUrls opts || cf_HTTPSUrls f;
  pc_webui : cf_DisableWebUI c = op_DisableWebUI opts || cf_DisableWebUI f;
  pc_use_mysql : cf_UseMySQL c = op_UseMySQL opts || cf_UseMySQL f;
  pc_mysql : cf_MySQL c = merged_mysql (op_UseMySQL opts) (cf_UseMySQL c) (op_MySQL opts) (cf_MySQL f);
  pc_use_postgres : cf_UsePostgreSQL c = op_UsePostgreSQL opts || cf_UsePostgreSQL f;
  pc_postgres : cf_PostgreSQL c =
    merged_postgres (op_UsePostgreSQL opts) (cf_UsePostgreSQL c) (op_PostgreSQL opts) (cf_PostgreSQL f);
  pc_filestore : cf_LocalFstoreDir c = first_set [op_LocalFstoreDir opts; cf_LocalFstoreDir f];
  pc_log_events : cf_LogEvents c = op_LogEvents opts || cf_LogEvents f;
  pc_event_keep : cf_LogEventKeep c = first_int [op_LogEventKeep opts; cf_LogEventKeep f];
  pc_skip_extended : cf_SkipLogExtended c = op_SkipLogExtended opts || cf_SkipLogExtended f;
  pc_export : cf_DoExport c = set_str (op_Export opts) || cf_DoExport f;
  pc_import : cf_DoImport c = set_str (op_Import opts) || cf_DoImport f;
  pc_bootstrap : cf_DoBootstrap c = op_Bootstrap opts;
  pc_dump_file : cf_ImpExFile c = first_set [op_Export opts; op_Import opts; cf_ImpExFile f];
  pc_obj_size : cf_ObjMaxSize c = first_int [op_ObjMaxSize opts; cf_ObjMaxSize f; 10485760%Z];
  pc_json_size : cf_JSONReqMaxSize c = first_int [op_JSONReqMaxSize opts; cf_JSONReqMaxSize f; 1000000%Z];
  pc_unsafe : cf_UseUnsafeMemStore c = op_UseUnsafeMemStore opts || cf_UseUnsafeMemStore f;
  pc_pool : cf_DbPoolSize c = first_int [op_DbPoolSize opts; cf_DbPoolSize f];
  pc_max_conn : cf_MaxConn c = first_int [op_MaxConn opts; cf_MaxConn f];
  pc_serf : cf_UseSerf c = op_UseSerf opts || cf_UseSerf f;
  pc_announce : cf_SerfEventAnnounce c = op_SerfEventAnnounce opts || cf_SerfEventAnnounce f;
  pc_serf_addr : cf_SerfAddr c =
    first_set [when_str (cf_UseSerf c) (op_SerfAddr opts); cf_SerfAddr f; when_str (cf_UseSerf c) "127.0.0.1:7373"];
  pc_shovey : cf_UseShovey c = op_UseShovey opts || cf_UseShovey f;
  pc_sign_key : let file := first_set [op_SignPrivKey opts; cf_SignPrivKey f] in
    cf_SignPrivKey c = if cf_UseShovey c && negb (cf_UseExtSecrets c)
                       then rooted (cf_ConfRoot c) (first_set [file; "shovey-sign_rsa"]) else file;
  pc_secrets : cf_UseExtSecrets c = op_UseExtSecrets opts || cf_UseExtSecrets f;
  pc_vault : cf_VaultAddr c = first_set [op_VaultAddr opts; cf_VaultAddr f];
  pc_vault_key : cf_VaultShoveyKey c =
    first_set [op_VaultShoveyKey opts; cf_VaultShoveyKey f; when_str (cf_UseShovey c && cf_UseExtSecrets c) "keys/shovey/signing"];
  pc_pg_search : cf_PgSearch c = op_PgSearch opts || cf_PgSearch f;
  pc_dot_search : cf_DotSearch c = op_DotSearch opts || cf_PgSearch c || cf_DotSearch f;
  pc_convert : cf_ConvertSearch c = cf_DotSearch c && op_ConvertSearch opts || cf_ConvertSearch f;
  pc_query_debug : cf_SearchQueryDebug c = op_SearchQueryDebug opts || cf_SearchQueryDebug f;
  pc_val_trim : cf_IndexValTrim c = first_int [op_IndexValTrim opts; cf_IndexValTrim f];
  pc_statsd : cf_UseStatsd c = op_UseStatsd opts || cf_UseStatsd f;
  pc_statsd_addr : cf_StatsdAddr c = first_set [op_StatsdAddr opts; cf_StatsdAddr f; "localhost:8125"];
  pc_statsd_type : cf_StatsdType c = first_set [op_StatsdType opts; cf_StatsdType f; "standard"];
  pc_statsd_instance : cf_StatsdInstance c =
    first_set [op_StatsdInstance opts; cf_StatsdInstance f; str_replace "." "_" (cf_Hostname c)];
  pc_s3 : cf_UseS3Upload c = op_UseS3Upload opts || cf_UseS3Upload f;
  pc_s3_region : cf_AWSRegion c = first_set [when_str (cf_UseS3Upload c) (op_AWSRegion opts); cf_AWSRegion f];
  pc_s3_bucket : cf_S3Bucket c = first_set [when_str (cf_UseS3Upload c) (op_S3Bucket opts); cf_S3Bucket f];
  pc_s3_ssl : cf_AWSDisableSSL c = cf_UseS3Upload c && op_AWSDisableSSL opts || cf_AWSDisableSSL f;
  pc_s3_endpoint : cf_S3Endpoint c = first_set [when_str (cf_UseS3Upload c) (op_S3Endpoint opts); cf_S3Endpoint f];
  pc_s3_period : cf_S3FilePeriod c =
    first_int [when_int (cf_UseS3Upload c) (op_S3FilePeriod opts); cf_S3FilePeriod f; when_int (cf_UseS3Upload c) 15%Z];
  pc_env_vars : cf_EnvVars c = cf_EnvVars f;
  pc_whitelist : cf_PprofWhitelist c = match op_PprofWhitelist opts with [] => cf_PprofWhitelist f | l => l end;
  pc_status_after : cf_PurgeNodeStatusAfter c = first_set [op_PurgeNodeStatusAfter opts; cf_PurgeNodeStatusAfter f];
  pc_reports_after : cf_PurgeReportsAfter c = first_set [op_PurgeReportsAfter opts; cf_PurgeReportsAfter f];
  pc_sandboxes_after : cf_PurgeSandboxesAfter c = first_set [op_PurgeSandboxesAfter opts; cf_PurgeSandboxesAfter f];
  pc_status_dur : duration (cf_PurgeNodeStatusAfter c) (cf_PurgeNodeStatusDur f) (cf_PurgeNodeStatusDur c);
  pc_reports_dur : duration (cf_PurgeReportsAfter c) (cf_PurgeReportsDur f) (cf_PurgeReportsDur c);
  pc_sandboxes_dur : duration (cf_PurgeSandboxesAfter c) week (cf_PurgeSandboxesDur c);
}.

Lemma over_str_first a b : over_str a b = first_set [a; b].
Proof. unfold over_str, set_str. simpl. repeat case_bool_decide; subst; done. Qed.

Lemma over_str_first_3 a b d : over_str (over_str a b) d = first_set [a; b; d].
Proof. unfold over_str, set_str. simpl. repeat case_bool_decide; subst; done. Qed.

Lemma over_str_assoc a b d : over_str a (over_str b d) = over_str (over_str a b) d.
Proof. unfold over_str, set_str. repeat case_bool_decide; subst; done. Qed.

Lemma over_int_first a b : over_int a b = first_int [a; b].
Proof. unfold over_int, set_int. simpl. by destruct (Z.eqb_spec a 0), (Z.eqb_spec b 0); simplify_eq/=. Qed.

Lemma over_int_first_3 a b d : over_int (over_int a b) d = first_int [a; b; d].
Proof.
  unfold over_int, set_int. simpl. destruct (Z.eqb_spec a 0); simpl; [|by rewrite (proj2 (Z.eqb_neq a 0))].
  by destruct (Z.eqb_spec b 0), (Z.eqb_spec d 0); simplify_eq/=.
Qed.

(** The same under a condition. *)
Lemma cond_str (b : bool) a x : (if b then over_str a x else x) = first_set [when_str b a; x].
Proof. destruct b; [apply over_str_first|]. simpl. by case_bool_decide. Qed.

Lemma cond_str_3 (b : bool) a x d :
  (if b then over_str (over_str a x) d else x) = first_set [when_str b a; x; when_str b d].
Proof. destruct b; [apply over_str_first_3|]. simpl. by case_bool_decide. Qed.

Lemma cond_str_default (b : bool) a x d :
  (if b then over_str (over_str a x) d else over_str a x) = first_set [a; x; when_str b d].
Proof. destruct b; [apply over_str_first_3|]. rewrite over_str_first. simpl. by repeat case_bool_decide. Qed.

Lemma cond_int_3 (b : bool) a x d :
  (if b then over_int (over_int a x) d else x) = first_int [when_int b a; x; when_int b d].
Proof. destruct b; [apply over_int_first_3|]. simpl. by destruct (Z.eqb_spec x 0). Qed.

Lemma cond_bool (b a x : bool) : (if b then over_bool a x else x) = b && a || x.
Proof. by destruct b, a. Qed.

Lemma cond_fun {A} (b : bool) (g : A → A) x : (if b then g x else x) = (if b then g else id) x.
Proof. by destruct b. Qed.

Lemma mysql_merged (b used : bool) (o m : MySQLdb) m' :
  m' = (if b then
    {| my_Username := over_str (my_Username o) (my_Username m); my_Password := over_str (my_Password o) (my_Password m);
       my_Protocol := over_str (my_Protocol o) (my_Protocol m); my_Address := over_str (my_Address o) (my_Address m);
       my_Port := over_str (my_Port o) (my_Port m); my_Dbname := over_str (my_Dbname o) (my_Dbname m);
       my_ExtraParams := foldl (λ x kv, mset kv.1 kv.2 x) (my_ExtraParams m) (my_ExtraParams o) |} else m) →
  (if used then
    {| my_Username := my_Username m'; my_Password := my_Password m'; my_Protocol := my_Protocol m';
       my_Address := my_Address m'; my_Port := over_str (my_Port m') "3306"; my_Dbname := my_Dbname m';
       my_ExtraParams := my_ExtraParams m' |} else m') = merged_mysql b used o m.
Proof.
  intros ->. unfold merged_mysql. rewrite <-!cond_str, <-cond_str_default. destruct m, b, used; simpl; try done.
Qed.

Lemma postgres_merged (b used : bool) (o m : PostgreSQLdb) m' :
  m' = (if b then
    {| pg_Username := over_str (pg_Username o) (pg_Username m); pg_Password := over_str (pg_Password o) (pg_Password m);
       pg_Host := over_str (pg_Host o) (pg_Host m); pg_Port := over_str (pg_Port o) (pg_Port m);
       pg_Dbname := over_str (pg_Dbname o) (pg_Dbname m); pg_SSLMode := over_str (pg_SSLMode o) (pg_SSLMode m) |} else m) →
  (if used then
    {| pg_Username := pg_Username m'; pg_Password := pg_Password m'; pg_Host := pg_Host m';
       pg_Port := over_str (pg_Port m') "5432"; pg_Dbname := pg_Dbname m'; pg_SSLMode := pg_SSLMode m' |} else m') =
  merged_postgres b used o m.
Proof.
  intros ->. unfold merged_postgres. rewrite <-!cond_str, <-cond_str_default. destruct m, b, used; simpl; try done.
Qed.

Section merged.
  Context {SYS : System} (opts : Options).
  Implicit Types (c f : Conf).

(** The value of a field, back to the part that set it, and why. *)
Ltac value f c :=
  lazymatch c with
  | apply_update (mk_update f (constant ?v)) _ => v
  | apply_update _ ?c' => value f c'
  | _ => match goal with E : c = ?b |- _ => value f b | _ => constr:(f c) end
  end.

Ltac reason f c :=
  lazymatch c with
  | apply_update (mk_update f (constant ?v)) _ => constr:(eq_refl v)
  | apply_update _ ?c' => reason f c'
  | _ => match goal with E : c = ?b |- _ => let r := reason f b in constr:(eq_trans (f_equal f E) r) | _ => constr:(eq_refl (f c)) end
  end.

(** Every field in the goal, by the fields of the configuration of the file. *)
Ltac settle :=
  repeat match goal with
  | E : ?c = apply_update _ _ |- context [?f ?c] =>
      is_const f; is_var c;
      let v := value f c in
      let r := reason f c in
      rewrite (r : f c = v)
  end.

Ltac settle_in H :=
  repeat match type of H with
  | context [?f ?c] =>
      is_const f; is_var c;
      match goal with E : c = apply_update _ _ |- _ =>
        let v := value f c in
        let r := reason f c in
        rewrite (r : f c = v) in H
      end
  end.

Ltac by_settle := once settle; rewrite ?over_bool_orb; reflexivity.

(** An accepted configuration: what each part set (E) and checked (F). *)
Ltac by_parts H :=
  apply ParseConfigOptions_run in H as (f & c1 & h & c2 & c3 & c4 & d4 & c5 & r5 & c6 & s6 & c7 & c8 & p8 & c9 & c10 &
    s10 & t10 & w10 & key & Hf & E1%import_export_run & Eh & E2%db_flags_run & E3%save_files_run & E4%log_options_run &
    Ed & E5%upload_options_run & Er & E6%address_options_run & Es & E7%ssl_options_run & E8%slew_options_run &
    Ep & E9%serf_options_run & E10%shovey_options_run & Es10 & Et & Ew & E11%purge_options_run & Henv & Hwl & Hkey);
  rewrite host_names_fields in Eh; rewrite root_options_fields in Er; rewrite search_options_fields in Es10;
  unfold db_ports in Ed; unfold secret_options in Es; unfold plain_flags in Ep; unfold statsd_options in Et;
  unfold pprof_options in Ew; cbn [fst] in Ew; cbn zeta in *;
  destruct E1 as [F1 E1], E2 as [E2 F2], E3 as [E3 F3], E4 as [E4 F4], E5 as [E5 F5], E6 as [E6 F6], E7 as [E7 F7],
    E8 as (d & E8 & F8), E9 as [E9 F9], E10 as [E10 F10], E11 as (d1 & d2 & d3 & E11 & F11).

(** The databases, the level of the log and the durations. *)
Lemma mysql_flags_fields c :
  cf_MySQL (mysql_flags opts c) =
  let o := op_MySQL opts in let m := cf_MySQL c in
  if op_UseMySQL opts then
    {| my_Username := over_str (my_Username o) (my_Username m); my_Password := over_str (my_Password o) (my_Password m);
       my_Protocol := over_str (my_Protocol o) (my_Protocol m); my_Address := over_str (my_Address o) (my_Address m);
       my_Port := over_str (my_Port o) (my_Port m); my_Dbname := over_str (my_Dbname o) (my_Dbname m);
       my_ExtraParams := foldl (λ x kv, mset kv.1 kv.2 x) (my_ExtraParams m) (my_ExtraParams o) |} else m.
Proof. unfold mysql_flags. by destruct (op_UseMySQL opts). Qed.

Lemma postgres_flags_fields c :
  cf_PostgreSQL (postgres_flags opts c) =
  let o := op_PostgreSQL opts in let m := cf_PostgreSQL c in
  if op_UsePostgreSQL opts then
    {| pg_Username := over_str (pg_Username o) (pg_Username m); pg_Password := over_str (pg_Password o) (pg_Password m);
       pg_Host := over_str (pg_Host o) (pg_Host m); pg_Port := over_str (pg_Port o) (pg_Port m);
       pg_Dbname := over_str (pg_Dbname o) (pg_Dbname m); pg_SSLMode := over_str (pg_SSLMode o) (pg_SSLMode m) |} else m.
Proof. unfold postgres_flags. by destruct (op_UsePostgreSQL opts). Qed.

Lemma level_first (b : bool) (o : option Z) (v d : Z) :
  (b = false → o = None) →
  (let lev := first_int [v; d] in
   if b then match o with Some n => if (lev =? 0)%Z then n else lev | None => lev end else lev) =
  first_int [v; d; default 0%Z o].
Proof.
  intros Hb. assert (∀ n, first_int [n] = n) as H1 by (intros n; simpl; by destruct (Z.eqb_spec n 0)).
  change (first_int [v; d; default 0%Z o]) with
    (if (v =? 0)%Z then if (d =? 0)%Z then first_int [default 0%Z o] else d else v). rewrite H1.
  change (first_int [v; d]) with (if (v =? 0)%Z then first_int [d] else v). rewrite H1.
  destruct b; [|rewrite (Hb eq_refl)]; [destruct o|]; simpl; destruct (Z.eqb_spec v 0), (Z.eqb_spec d 0); simpl; try done.
  - by destruct (Z.eqb_spec v 0).
  - by destruct (Z.eqb_spec v 0).
Qed.

Lemma verbosity_first c :
  verbosity opts c =
  Z.min 5 (first_int [Z.of_nat (length (op_Verbose opts)); cf_DebugLevel c;
                      named_level (over_str (op_LogLevel opts) (cf_LogLevel c))]).
Proof.
  unfold verbosity, named_level. rewrite over_int_first, level_first by (by intros ->%set_str_false).
  set (l := first_int _). destruct (Z.ltb_spec 5 l); lia.
Qed.

Lemma duration_of text (unset d : Z) :
  (if set_str text then ParseDuration text = inl d else d = unset) → duration text unset d.
Proof. unfold duration, set_str. by case_bool_decide. Qed.


Lemma saved_files ix df db :
  (if set_str ix then set_str df || db else negb (set_str df)) = true →
  if set_str ix then df ≠ EmptyString ∨ db = true else df = EmptyString.
Proof.
  destruct (set_str ix); [intros [H%set_str_true|H]%orb_true_iff; auto|]. by intros H%negb_true_iff%set_str_false.
Qed.

(** C36: A configuration the server starts with is consistent: at most one
    database, and with one both a place for the index and one for uploaded
    files; without one, an index file exactly when there is a data file; S3 only
    with a database; the directory for uploads, the log file, the address to
    listen on and the periods are valid where they are given (the addresses that
    may profile are not checked: one that cannot be read is kept as nil); with
    SSL a certificate and a key were given, and are looked for under the root of
    the configuration; SSL agrees with the standard ports; announcing events has
    serf, signing jobs its key; the environment variables are the configured
    ones; and the search of PostgreSQL and shovey, asked for on the command line,
    have the database and serf they need. *)
Theorem accepted_configurations c0 c p :
  ParseConfigOptions opts c0 = Run (c, p) →
  ∃ f, load_file opts c0 = Run f ∧ accepted c p ∧
    (cf_UseSSL c = true →
     let cert := over_str (op_SSLCert opts) (cf_SSLCert f) in
     let key := over_str (op_SSLKey opts) (cf_SSLKey f) in
     cert ≠ EmptyString ∧ key ≠ EmptyString ∧
     cf_SSLCert c = rooted (cf_ConfRoot c) cert ∧ cf_SSLKey c = rooted (cf_ConfRoot c) key) ∧
    (op_PgSearch opts = true → cf_UsePostgreSQL c = true) ∧
    (op_UseShovey opts = true → cf_UseSerf c = true).
Proof.
  intros H. by_parts H. unfold UsingDB in *.
  settle_in F2. settle_in F3. settle_in F4. settle_in F5. settle_in F6. settle_in F7. settle_in F8. settle_in F9.
  settle_in F10. settle_in F11. settle_in Henv. settle_in Hwl.
  destruct F2 as [F2 F2'], F3 as [F3 F3'], F4 as [F4 _], F5 as (F5 & F5' & F5''), F9 as [F9 F9'], F11 as (F11 & F11' & F11'').
  exists f. split; [done|]. split; [|split; [cbn zeta; settle; intros Hs; rewrite Hs; destruct (F7 Hs); done|by settle]].
  split; unfold UsingDB; settle; clear E1 E2 E3 E4 E5 E6 E7 E8 E9 E10 E11 Eh Ed Er Es Ep Es10 Et Ew; auto.
  - by apply saved_files.
  - intros Hi%set_str_true. rewrite Hi in *. simpl. by rewrite F3.
  - intros Hd. apply F3', orb_true_iff in Hd as [Hd%set_str_true|Hd]; auto.
  - intros Hs. rewrite Hs. split; [auto|by apply over_int_set].
  - split; by repeat apply over_int_set.
  - intros Hp. by rewrite Hp.
  - intros Hp. by rewrite Hp.
  - intros Hs. rewrite Hs. by apply over_str_set.
  - revert F10. rewrite Hkey. match goal with |- (if ?b then _ else _) → _ => by destruct b end.
  - intros Hu Hx. rewrite Hu, Hx. cbn [andb]. by apply over_str_set.
  - intros Hs. rewrite Hs. by destruct (op_DotSearch opts).
  - split_and?; by apply over_int_set.
  - intros Hs%set_str_true. by rewrite Hs in F8.
  - intros Hs%set_str_true. by rewrite Hs in F11.
  - intros Hs%set_str_true. by rewrite Hs in F11'.
  - by apply set_environment_run.
Qed.
End merged.

(** * Concrete configurations *)

(** No option given. *)
Definition no_mysql : MySQLdb := cf_MySQL initConfig.
Definition no_postgres : PostgreSQLdb := cf_PostgreSQL initConfig.

Definition no_options : Options := {|
  op_Version := false; op_Verbose := []; op_ConfFile := EmptyString; op_Ipaddress := EmptyString;
  op_Hostname := EmptyString; op_Port := 0; op_ProxyHostname := EmptyString; op_ProxyPort := 0;
  op_IndexFile := EmptyString; op_DataStoreFile := EmptyString; op_FreezeInterval := 0; op_LogFile := EmptyString;
  op_SysLog := false; op_LogLevel := EmptyString; op_TimeSlew := EmptyString; op_ConfRoot := EmptyString;
  op_UseAuth := false; op_UseSSL := false; op_SSLCert := EmptyString; op_SSLKey := EmptyString;
  op_HTTPSUrls := false; op_DisableWebUI := false; op_UseMySQL := false; op_MySQL := no_mysql;
  op_UsePostgreSQL := false; op_PostgreSQL := no_postgres; op_LocalFstoreDir := EmptyString;
  op_LogEvents := false; op_LogEventKeep := 0; op_SkipLogExtended := false; op_Export := EmptyString;
  op_Import := EmptyString; op_Bootstrap := false; op_ObjMaxSize := 0; op_JSONReqMaxSize := 0;
  op_UseUnsafeMemStore := false; op_DbPoolSize := 0; op_MaxConn := 0; op_UseSerf := false;
  op_SerfEventAnnounce := false; op_SerfAddr := EmptyString; op_UseShovey := false; op_SignPrivKey := EmptyString;
  op_DotSearch := false; op_ConvertSearch := false; op_PgSearch := false; op_UseStatsd := false;
  op_StatsdAddr := EmptyString; op_StatsdType := EmptyString; op_StatsdInstance := EmptyString;
  op_UseS3Upload := false; op_AWSRegion := EmptyString; op_S3Bucket := EmptyString; op_AWSDisableSSL := false;
  op_S3Endpoint := EmptyString; op_S3FilePeriod := 0; op_UseExtSecrets := false; op_VaultAddr := EmptyString;
  op_VaultShoveyKey := EmptyString; op_IndexValTrim := 0; op_PprofWhitelist := []; op_PurgeReportsAfter := EmptyString;
  op_PurgeNodeStatusAfter := EmptyString; op_PurgeSandboxesAfter := EmptyString; op_PrintManPage := false;
  op_SearchQueryDebug := false |}.

(** A system with one configuration file, which sets some fields, and one key;
    every address but "here" and every duration but "15m" are bad. *)
Definition machine (edit : Conf → Conf) (key : string) : System := {|
  Sys_Hostname := inl "chef.example.com";
  DecodeFile _ c := inl (edit c);
  OpenLogFile _ := None;
  NewSysLogger := None;
  Stat_IsDir _ := inl true;
  OpenFile p := if bool_decide (p = key) then None else Some "no such file";
  ReadFile _ := inl "pem";
  pem_Decode := Some;
  ParsePKCS1PrivateKey := inl;
  ParseIP a := if bool_decide (a = "here") then Some [127; 0; 0; 1]%Z else None;
  ParseDuration d := if bool_decide (d = "15m") then inl 900000000000%Z else inr "bad duration" |}.

(** A field of the configuration that is accepted. *)
Definition field_of {A} (g : Conf → A) (m : exits (Conf * process)) : option A :=
  match m with Run (c, _) => Some (g c) | Exit _ _ => None end.

Definition from_file (edit : Conf → Conf) : exits (Conf * process) :=
  @ParseConfigOptions (machine edit "etc/shovey-sign_rsa") { no_options with op_ConfFile := "etc/goiardi.conf" } initConfig.


Lemma accepted_configurations_witness :
  ∃ c p, @ParseConfigOptions (machine id EmptyString) no_options initConfig = Run (c, p) ∧
    @accepted (machine id EmptyString) c p.
Proof.
  do 2 eexists. split; [vm_compute; reflexivity|].
  edestruct (@accepted_configurations (machine id EmptyString) no_options initConfig) as (f & _ & H & _);
    [vm_compute; reflexivity|].
  exact H.
Defined.

(** Options that exclude each other end the process. *)
Example both_ways_refused :
  @ParseConfigOptions (machine id EmptyString) { no_options with op_Export := "a"; op_Import := "b" } initConfig =
  Exit 1 "Cannot use -x/--export and -m/--import flags together.".
Proof. by vm_compute. Qed.

(** ** Where the code departs from its comments and messages *)

(** Options of MySQL on the command line count for nothing when MySQL is turned
    on in the file. *)
Example mysql_options_ignored :
  field_of (λ c, (cf_UseMySQL c, my_Username (cf_MySQL c)))
    (@ParseConfigOptions (machine (λ c, { c with cf_UseMySQL := true; cf_IndexFile := "index"; cf_LocalFstoreDir := "files" }) EmptyString)
       { no_options with op_ConfFile := "goiardi.conf"; op_MySQL := {| my_Username := "chef"; my_Password := EmptyString; my_Protocol := EmptyString; my_Address := EmptyString; my_Port := EmptyString; my_Dbname := EmptyString; my_ExtraParams := [] |} } initConfig)
  = Some (true, EmptyString).
Proof. by vm_compute. Qed.

(** A log level asked for on the command line counts for nothing against a
    debug-level in the file: 0 is debug, 4 critical. *)
Example log_level_option_ignored :
  field_of cf_DebugLevel
    (@ParseConfigOptions (machine (λ c, { c with cf_DebugLevel := 1%Z }) EmptyString)
       { no_options with op_ConfFile := "goiardi.conf"; op_LogLevel := "debug" } initConfig) = Some 4%Z ∧
  field_of cf_DebugLevel
    (@ParseConfigOptions (machine id EmptyString) { no_options with op_LogLevel := "debug" } initConfig) = Some 0%Z.
Proof. by vm_compute. Qed.

(** Every reload counts the level down again: a server that logs fatal errors
    only logs everything after a SIGHUP, and one that logs at the level info
    (1) goes to critical (4). *)
Definition twice {SYS : System} (opts : Options) : exits (Conf * process) :=
  ParseConfigOptions opts initConfig ≫= λ r, reload opts r.1.

Example reload_changes_log_level :
  field_of cf_DebugLevel (@ParseConfigOptions (machine id EmptyString) no_options initConfig) = Some 5%Z ∧
  field_of cf_DebugLevel (@twice (machine id EmptyString) no_options) = Some 0%Z ∧
  field_of cf_DebugLevel (@ParseConfigOptions (machine id EmptyString) { no_options with op_LogLevel := "info" } initConfig) = Some 1%Z ∧
  field_of cf_DebugLevel (@twice (machine id EmptyString) { no_options with op_LogLevel := "info" }) = Some 4%Z.
Proof. by vm_compute. Qed.

(** The default key for signing is resolved twice on a reload, so that with a
    relative root the reload ends the server. *)
Example reload_loses_key :
  let sys := machine (λ c, { c with cf_UseShovey := true }) "etc/shovey-sign_rsa" in
  let opts := { no_options with op_ConfFile := "etc/goiardi.conf" } in
  field_of cf_SignPrivKey (@ParseConfigOptions sys opts initConfig) = Some "etc/shovey-sign_rsa" ∧
  @twice sys opts = Exit (-1) "Private key etc/etc/shovey-sign_rsa for signing shovey requests not found. Please create a set of RSA keys for this purpose.".
Proof. by vm_compute. Qed.

(** What the command line checks, the file may set: the search of PostgreSQL
    without PostgreSQL, and shovey without serf. *)
Example file_skips_checks :
  field_of (λ c, (cf_PgSearch c, cf_UsePostgreSQL c)) (from_file (λ c, { c with cf_PgSearch := true })) = Some (true, false) ∧
  field_of (λ c, (cf_UseShovey c, cf_UseSerf c)) (from_file (λ c, { c with cf_UseShovey := true })) = Some (true, false).
Proof. by vm_compute. Qed.

(** A whitelisted address that cannot be parsed does not abort anything: it
    lets in every request whose X-Forwarded-For is not an address. *)
Example bad_whitelist_opens :
  match from_file (λ c, { c with cf_PprofWhitelist := ["nowhere"] }) with
  | Run (_, p) => PprofWhitelisted p (@ParseIP (machine id EmptyString) EmptyString) = true
  | Exit _ _ => False
  end.
Proof. by vm_compute. Qed.

(** The data file is not overridden by a database: it is kept, and so loaded
    and saved. *)
Example data_file_kept :
  field_of (λ c, (cf_UseMySQL c, cf_DataStoreFile c, cf_FreezeData c))
    (from_file (λ c, { c with cf_UseMySQL := true; cf_DataStoreFile := "data"; cf_IndexFile := "index";
                              cf_LocalFstoreDir := "files" })) = Some (true, "data", true).
Proof. by vm_compute. Qed.

(** The message for a log file that cannot be opened is that of the host
    name, which was read. *)
Example log_file_error_lost :
  let sys := machine id EmptyString in
  @log_options {| Sys_Hostname := inl "chef.example.com"; DecodeFile := @DecodeFile sys;
                  OpenLogFile _ := Some "permission denied"; NewSysLogger := None; Stat_IsDir := @Stat_IsDir sys;
                  OpenFile := @OpenFile sys; ReadFile := @ReadFile sys; pem_Decode := @pem_Decode sys;
                  ParsePKCS1PrivateKey := @ParsePKCS1PrivateKey sys; ParseIP := @ParseIP sys;
                  ParseDuration := @ParseDuration sys |}
    { no_options with op_LogFile := "/var/log/goiardi.log" } (@host_names sys no_options initConfig).2 initConfig
  = Exit 1 "<nil>".
Proof. by vm_compute. Qed.
