(* ===== verification/Store.v ===== *)
(** The interface between the components and the data store: keyed storage of
    objects by type, as the packages use [datastore.Get], [Set], [Delete] and
    [GetList].  Components are proved against [StoreLaws]; the data store of
    Datastore.v implements it, and so does a plain finite map, the abstract
    specification. *)
From S2P Require Import Prelude Gerror.

(** What [encoding/gob] keeps of a value: encoding drops the unexported
    fields, and decoding an encoding again loses nothing more. *)
Class Gob (V : Type) := {
  gob : V → V;
  gob_idemp v : gob (gob v) = gob v;
}.

(** The data store joins a type and a key with a colon; the types the
    components use have none, and three of them name the tables the store
    keeps for itself. *)
Definition reserved_types : list string := ["nodestatus"; "nodestatuslist"; "loginfo"].

Definition no_colon (s : string) : bool := str_all (λ c, negb (bool_decide (c = ":"%char))) s.

Definition obj_type (t : string) : bool :=
  no_colon t && negb (bool_decide (t ∈ reserved_types)).

Class StoreOps (S V : Type) := {
  st_get : S → string → string → outcome (option V);
  st_set : S → string → string → V → S;
  st_del : S → string → string → S;
  st_list : S → string → outcome (list string);
}.

Class StoreLaws (S V : Type) `{Gob V, StoreOps S V} := {
  st_inv : S → Prop;
  st_set_inv s t k v : obj_type t = true → st_inv s → st_inv (st_set s t k v);
  st_del_inv s t k : obj_type t = true → st_inv s → st_inv (st_del s t k);
  st_get_ok s t k : st_inv s → obj_type t = true → ∃ o, st_get s t k = Ok o;
  st_get_set s t k v t' k' : st_inv s → obj_type t = true → obj_type t' = true →
    st_get (st_set s t k v) t' k' =
      if bool_decide (t' = t ∧ k' = k) then Ok (Some (gob v)) else st_get s t' k';
  st_get_del s t k t' k' : st_inv s → obj_type t = true → obj_type t' = true →
    st_get (st_del s t k) t' k' =
      if bool_decide (t' = t ∧ k' = k) then Ok None else st_get s t' k';
  st_list_ok s t : st_inv s → obj_type t = true →
    ∃ l, st_list s t = Ok l ∧ StronglySorted String.le l ∧ NoDup l ∧
      ∀ k, k ∈ l ↔ ∃ v, st_get s t k = Ok (Some v);
  st_get_gob s t k v : st_inv s → obj_type t = true →
    st_get s t k = Ok (Some v) → gob v = v;
}.

#[export] Hint Resolve st_set_inv st_del_inv : goiardi.

(** * Sequences of store operations *)

Inductive cmd (V : Type) : Type :=
| CmdSet (t k : string) (v : V)
| CmdGet (t k : string)
| CmdDelete (t k : string)
| CmdGetList (t : string).
Arguments CmdSet {V} t k v.
Arguments CmdGet {V} t k.
Arguments CmdDelete {V} t k.
Arguments CmdGetList {V} t.

Inductive reply (V : Type) : Type :=
| RDone
| RValue (o : outcome (option V))
| RKeys (l : outcome (list string)).
Arguments RDone {V}.
Arguments RValue {V} o.
Arguments RKeys {V} l.

Definition cmd_type {V} (c : cmd V) : string :=
  match c with CmdSet t _ _ | CmdGet t _ | CmdDelete t _ | CmdGetList t => t end.

Definition typed_cmds {V} (cs : list (cmd V)) : bool :=
  forallb (λ c, obj_type (cmd_type c)) cs.

Section run.
  Context {S V : Type} `{StoreOps S V}.

Definition run_cmd (s : S) (c : cmd V) : reply V * S :=
  match c with
  | CmdSet t k v => (RDone, st_set s t k v)
  | CmdGet t k => (RValue (st_get s t k), s)
  | CmdDelete t k => (RDone, st_del s t k)
  | CmdGetList t => (RKeys (st_list s t), s)
  end.

Fixpoint run_cmds (s : S) (cs : list (cmd V)) : list (reply V) :=
  match cs with
  | [] => []
  | c :: r => let '(a, s') := run_cmd s c in a :: run_cmds s' r
  end.
End run.

(** Two stores that hold the same objects. *)
Definition same_objects {S1 S2 V} `{StoreOps S1 V, StoreOps S2 V} (s1 : S1) (s2 : S2) : Prop :=
  ∀ t k, obj_type t = true → st_get s1 t k = st_get s2 t k.

Section simulation.
  Context {S1 S2 V : Type} `{Gob V}.
  Context {O1 : StoreOps S1 V} {O2 : StoreOps S2 V}.
  Context {L1 : StoreLaws S1 V} {L2 : StoreLaws S2 V}.

(** The listing is a function of the objects. *)
Lemma same_objects_list (s1 : S1) (s2 : S2) t :
  st_inv s1 → st_inv s2 → same_objects s1 s2 → obj_type t = true → st_list s1 t = st_list s2 t.
Proof.
  intros I1 I2 Hs Ht.
  destruct (st_list_ok s1 t I1 Ht) as (l1 & -> & S1' & N1 & E1).
  destruct (st_list_ok s2 t I2 Ht) as (l2 & -> & S2' & N2 & E2). f_equal.
  eapply (StronglySorted_unique String.le); [done..|]. apply NoDup_Permutation; [done..|].
  intros k. rewrite E1, E2. by rewrite (Hs t k Ht).
Qed.

Lemma same_objects_step (s1 : S1) (s2 : S2) c :
  st_inv s1 → st_inv s2 → same_objects s1 s2 → obj_type (cmd_type c) = true →
  (run_cmd s1 c).1 = (run_cmd s2 c).1 ∧
  st_inv (run_cmd s1 c).2 ∧ st_inv (run_cmd s2 c).2 ∧
  same_objects (run_cmd s1 c).2 (run_cmd s2 c).2.
Proof.
  intros I1 I2 Hs Ht. destruct c as [t k v|t k|t k|t]; simpl in *.
  - split_and!; auto with goiardi. intros t' k' Ht'. rewrite !st_get_set by done.
    by rewrite (Hs t' k').
  - by rewrite (Hs t k Ht).
  - split_and!; auto with goiardi. intros t' k' Ht'. rewrite !st_get_del by done.
    by rewrite (Hs t' k').
  - by rewrite (same_objects_list s1 s2 t).
Qed.

(** Law-abiding stores that hold the same objects answer alike forever. *)
Lemma same_objects_run cs (s1 : S1) (s2 : S2) :
  st_inv s1 → st_inv s2 → same_objects s1 s2 → typed_cmds cs = true →
  run_cmds s1 cs = run_cmds s2 cs.
Proof.
  revert s1 s2. induction cs as [|c cs IH]; intros s1 s2 I1 I2 Hs Hc; [done|].
  simpl in Hc. apply andb_true_iff in Hc as [Ht Hc]. simpl.
  destruct (same_objects_step s1 s2 c I1 I2 Hs Ht) as (Ha & J1 & J2 & Hs').
  destruct (run_cmd s1 c) as [a1 s1'], (run_cmd s2 c) as [a2 s2']. simpl in *. subst.
  f_equal. by apply IH.
Qed.
End simulation.

(** * The abstract store: a finite map *)

Abbreviation absStore V := (gmap (string * string) V).

Definition abs_keys {V} (m : absStore V) (t : string) : list string :=
  ((map_to_list m).*1 ≫= (λ tk, if bool_decide (tk.1 = t) then [tk.2] else [])).

#[export] Instance absStore_ops {V} `{Gob V} : StoreOps (absStore V) V := {|
  st_get m t k := Ok (m !! (t, k));
  st_set m t k v := <[(t, k) := gob v]> m;
  st_del m t k := delete (t, k) m;
  st_list m t := Ok (sort_strings (abs_keys m t));
|}.

Lemma elem_of_abs_keys {V} (m : absStore V) t k : k ∈ abs_keys m t ↔ ∃ v, m !! (t, k) = Some v.
Proof.
  unfold abs_keys. rewrite list_elem_of_bind. setoid_rewrite list_elem_of_fmap. split.
  - intros ([t' k'] & Hin & [[t'' k''] v] & ? & Hm). simplify_eq/=.
    case_bool_decide; [|set_solver]. apply list_elem_of_singleton in Hin. subst.
    exists v. by apply elem_of_map_to_list.
  - intros [v Hv]. exists (t, k). simpl. rewrite bool_decide_eq_true_2 by done.
    split; [set_solver|]. exists ((t, k), v). split; [done|]. by apply elem_of_map_to_list.
Qed.

Lemma NoDup_abs_keys {V} (m : absStore V) t : NoDup (abs_keys m t).
Proof.
  unfold abs_keys. pose proof (NoDup_fst_map_to_list m) as Hn.
  induction (map_to_list m).*1 as [|[t' k'] l IH]; [constructor|].
  apply NoDup_cons in Hn as [Hnin Hn]. simpl. case_bool_decide; subst; [|auto].
  simpl. apply NoDup_cons. split; [|auto]. rewrite list_elem_of_bind.
  intros ([t'' k''] & Hin & Hl). simpl in *. case_bool_decide; [|set_solver].
  apply list_elem_of_singleton in Hin. by subst.
Qed.

#[export] Program Instance absStore_laws {V} `{Gob V} : StoreLaws (absStore V) V := {|
  st_inv m := ∀ t k v, m !! (t, k) = Some v → gob v = v;
|}.
Next Obligation.
  intros V ? m t k v _ Hi t' k' v' Hl. simpl in Hl.
  apply lookup_insert_Some in Hl as [[? <-]|[? Hl]]; [apply gob_idemp|eauto].
Qed.
Next Obligation. intros V ? m t k _ Hi t' k' v' Hl. simpl in Hl. apply lookup_delete_Some in Hl as [? Hl]. eauto. Qed.
Next Obligation. intros; simpl; eauto. Qed.
Next Obligation.
  intros V ? m t k v t' k' _ _ _. simpl. case_bool_decide as E.
  - destruct E as [-> ->]. by rewrite lookup_insert_eq.
  - rewrite lookup_insert_ne; [done|]. naive_solver.
Qed.
Next Obligation.
  intros V ? m t k t' k' _ _ _. simpl. case_bool_decide as E.
  - destruct E as [-> ->]. by rewrite lookup_delete_eq.
  - rewrite lookup_delete_ne; [done|]. naive_solver.
Qed.
Next Obligation.
  intros V ? m t _ _. exists (sort_strings (abs_keys m t)). split_and!; auto with goiardi.
  - rewrite sort_strings_Permutation. apply NoDup_abs_keys.
  - intros k. rewrite elem_of_sort_strings, elem_of_abs_keys. simpl.
    split; intros [v Hv]; exists v; congruence.
Qed.
Next Obligation. intros V ? m t k v Hi _ [= Hl]. eauto. Qed.
