(* ===== verification/Datastore.v ===== *)
(** The in-memory data store (src/datastore/datastore.go): a cache of encoded
    objects under "type:key" keys next to lists of the keys of each type, the
    node status tables and the event log table.

    The store is modelled in its default, safe mode, where a value is encoded
    with [encoding/gob] on the way in and decoded on the way out, so that the
    store shares no memory with its callers. *)
From S2P Require Import Prelude Gerror Store.

(** * The state *)

(** What a cache entry holds: the bytes of one object, the bytes of the event
    log map, the live map of encoded node statuses, or the live lists of the
    status ids of each node. *)
Inductive cell (V : Type) : Type :=
| CItem (v : V)
| CLog (m : gmap Z V)
| CNs (m : gmap Z V)
| CNsList (m : gmap string (list Z)).
Arguments CItem {V} v.
Arguments CLog {V} m.
Arguments CNs {V} m.
Arguments CNsList {V} m.

Record DataStore (V : Type) : Type := {
  dsc : gmap string (cell V);
  objList : gmap string (gset string);
  updated : bool;
}.
Arguments Build_DataStore {V} dsc objList updated.
Arguments dsc {V} d.
Arguments objList {V} d.
Arguments updated {V} d.

(** [ErrNoStatuses] and [ErrNoStatusList], and the errors made on the way. *)
Definition ErrNoStatuses : gerror := New "No statuses in the datastore".
Definition ErrNoStatusList : gerror := New "No status lists in the datastore".

Section datastore.
  Context {V : Type} `{Gob V}.
  Implicit Types (ds : DataStore V) (keyType key : string) (v : V).

Definition initDataStore : DataStore V :=
  {| dsc := ∅; objList := ∅; updated := false |}.

Definition makeKey keyType key : string := str_join ":" [keyType; key].

(** ** Objects *)

Definition addToList ds keyType key : DataStore V :=
  {| dsc := dsc ds;
     objList := <[keyType := {[key]} ∪ default ∅ (objList ds !! keyType)]> (objList ds);
     updated := updated ds |}.

Definition removeFromList ds keyType key : DataStore V :=
  {| dsc := dsc ds;
     objList := alter (λ s, s ∖ {[key]}) keyType (objList ds);
     updated := updated ds |}.

Definition Set_ ds keyType key v : DataStore V :=
  addToList {| dsc := <[makeKey keyType key := CItem (gob v)]> (dsc ds);
               objList := objList ds; updated := true |} keyType key.

(** [Get]: the decoded value, or nil; decoding an entry that is not the
    encoding of an object panics. *)
Definition Get ds keyType key : outcome (option V) :=
  match dsc ds !! makeKey keyType key with
  | None => Ok None
  | Some (CItem v) => Ok (Some v)
  | Some _ => Panic TypeAssertion
  end.

Definition Delete ds keyType key : DataStore V :=
  removeFromList {| dsc := delete (makeKey keyType key) (dsc ds);
                    objList := objList ds; updated := true |} keyType key.

(** [GetList] sizes its result before it takes the lock, then fills it under
    the lock: [GetList_fill n] is the second part for a result of [n] slots,
    where a missing slot panics and an unused slot stays empty. *)
Definition GetList_fill (n : nat) ds keyType : outcome (list string) :=
  let ks := elements (default ∅ (objList ds !! keyType)) in
  if bool_decide (length ks ≤ n)
  then Ok (sort_strings (ks ++ replicate (n - length ks) EmptyString))
  else Panic IndexOutOfRange.

Definition GetList_size ds keyType : nat := size (default ∅ (objList ds !! keyType)).

Definition GetList ds keyType : outcome (list string) :=
  GetList_fill (GetList_size ds keyType) ds keyType.

(** ** Integer-keyed tables *)

Definition max_key (m : gmap Z V) : option Z :=
  head (go_sort (reverse_less Z.ltb) (map_to_list m).*1).

Definition getNextID (lis : gmap Z V) : Z :=
  match max_key lis with
  | None => 1
  | Some k => wrap64 (k + 1)
  end.

Definition nsKey : string := makeKey "nodestatus" "nodestatuses".
Definition nsListKey : string := makeKey "nodestatuslist" "nodestatuslists".
Definition logKey : string := makeKey "loginfo" "loginfos".

(** ** Node statuses *)

(** [a, _ := ds.dsc.Get(nsKey)] and its type assertion. *)
Definition getNs ds : outcome (option (gmap Z V)) :=
  match dsc ds !! nsKey with
  | None => Ok None
  | Some (CNs m) => Ok (Some m)
  | Some _ => Panic TypeAssertion
  end.

Definition getNsList ds : outcome (option (gmap string (list Z))) :=
  match dsc ds !! nsListKey with
  | None => Ok None
  | Some (CNsList m) => Ok (Some m)
  | Some _ => Panic TypeAssertion
  end.

Definition putNs ds (ns : gmap Z V) (nslist : gmap string (list Z)) : DataStore V :=
  {| dsc := <[nsListKey := CNsList nslist]> (<[nsKey := CNs ns]> (dsc ds));
     objList := objList ds; updated := true |}.

(** The ids of a node, [nslist[nodeName]]: nil and empty are the same. *)
Definition ns_ids (nslist : gmap string (list Z)) (nodeName : string) : list Z :=
  default [] (nslist !! nodeName).

Definition touch ds : DataStore V :=
  {| dsc := dsc ds; objList := objList ds; updated := true |}.

(** [SetNodeStatus], with the id the import gives, if any. *)
Definition SetNodeStatus ds (nodeName : string) (obj : V) (nsID : option Z)
    : outcome (DataStore V) :=
  a ← getNs ds;
  let ns := default ∅ a in
  b ← getNsList ds;
  let nslist := default ∅ b in
  let nextID := match nsID with Some i => i | None => getNextID ns end in
  Ok (putNs ds (<[nextID := gob obj]> ns)
        (<[nodeName := ns_ids nslist nodeName ++ [nextID]]> nslist)).

(** [deleteStatuses]; the error leaves the store as it was. *)
Definition deleteStatuses ds (nodeName : string) : outcome (DataStore V) :=
  a ← getNs ds;
  match a with
  | None => Err ErrNoStatuses
  | Some ns =>
      b ← getNsList ds;
      match b with
      | None => Err ErrNoStatusList
      | Some nslist =>
          Ok (putNs ds (foldl (λ m i, delete i m) ns (ns_ids nslist nodeName))
                (delete nodeName nslist))
      end
  end.

(** The caller sees the error; the store is the result, or as it was. *)
Definition commit ds (m : outcome (DataStore V)) : outcome () * DataStore V :=
  match m with
  | Ok ds' => (Ok (), ds')
  | Err e => (Err e, ds)
  | Panic p => (Panic p, ds)
  end.

Definition DeleteNodeStatus ds (nodeName : string) : outcome () * DataStore V :=
  commit (touch ds) (deleteStatuses (touch ds) nodeName).

(** The loop of [ReplaceNodeStatuses]. *)
Fixpoint replace_loop (nodeName : string) (objs : list V) (ns : gmap Z V)
    (nslist : gmap string (list Z)) : gmap Z V * gmap string (list Z) :=
  match objs with
  | [] => (ns, nslist)
  | o :: r =>
      let nextID := getNextID ns in
      replace_loop nodeName r (<[nextID := gob o]> ns)
        (<[nodeName := ns_ids nslist nodeName ++ [nextID]]> nslist)
  end.

Definition ReplaceNodeStatuses ds (nodeName : string) (objs : list V)
    : outcome () * DataStore V :=
  commit (touch ds)
    (ds' ← deleteStatuses (touch ds) nodeName;
     match objs with
     | [] => Ok ds'
     | _ =>
         a ← getNs ds';
         b ← getNsList ds';
         let '(ns, nslist) := replace_loop nodeName objs (default ∅ a) (default ∅ b) in
         Ok (putNs ds' ns nslist)
     end).

(** [decodeSafeVal(ns[v])]: a missing id is a nil that is not a byte slice. *)
Definition decodeNs (ns : gmap Z V) (i : Z) : outcome V :=
  match ns !! i with Some v => Ok v | None => Panic TypeAssertion end.

Fixpoint decodeAll (ns : gmap Z V) (ids : list Z) : outcome (list V) :=
  match ids with
  | [] => Ok []
  | i :: r => v ← decodeNs ns i; vs ← decodeAll ns r; Ok (v :: vs)
  end.

Definition AllNodeStatuses ds (nodeName : string) : outcome (list V) :=
  a ← getNs ds;
  match a with
  | None => Err ErrNoStatuses
  | Some ns =>
      b ← getNsList ds;
      match b with
      | None => Err ErrNoStatusList
      | Some nslist => decodeAll ns (ns_ids nslist nodeName)
      end
  end.

(** [LatestNodeStatus] sorts the live slice of ids, newest first, in place. *)
Definition LatestNodeStatus ds (nodeName : string) : outcome V * DataStore V :=
  match getNs ds with
  | Ok None => (Err ErrNoStatuses, ds)
  | Ok (Some ns) =>
      match getNsList ds with
      | Ok None => (Err ErrNoStatusList, ds)
      | Ok (Some nslist) =>
          match nslist !! nodeName with
          | None => (Err (New ("no statuses found for node " +:+ nodeName)), ds)
          | Some nsarr =>
              let sorted := go_sort (reverse_less Z.ltb) nsarr in
              let ds' := {| dsc := <[nsListKey := CNsList (<[nodeName := sorted]> nslist)]> (dsc ds);
                            objList := objList ds; updated := updated ds |} in
              match sorted with
              | [] => (Panic IndexOutOfRange, ds')
              | i :: _ => (decodeNs ns i, ds')
              end
          end
      | Err e => (Err e, ds)
      | Panic p => (Panic p, ds)
      end
  | Err e => (Err e, ds)
  | Panic p => (Panic p, ds)
  end.

(** ** The event log *)

Definition getLogInfoMap ds : outcome (gmap Z V) :=
  match dsc ds !! logKey with
  | None => Ok ∅
  | Some (CLog m) => Ok m
  | Some _ => Panic TypeAssertion
  end.

Definition setLogInfoMap ds (m : gmap Z V) : DataStore V :=
  {| dsc := <[logKey := CLog (gob <$> m)]> (dsc ds); objList := objList ds; updated := true |}.

Definition SetLogInfo ds (obj : V) (logID : option Z) : outcome (DataStore V) :=
  arr ← getLogInfoMap ds;
  let nextID := match logID with Some i => i | None => getNextID arr end in
  Ok (setLogInfoMap ds (<[nextID := obj]> arr)).

Definition DeleteLogInfo ds (id : Z) : outcome (DataStore V) :=
  arr ← getLogInfoMap ds; Ok (setLogInfoMap ds (delete id arr)).

(** [PurgeLogInfoBefore] keeps the ids above [id] and counts the others. *)
Definition PurgeLogInfoBefore ds (id : Z) : outcome (Z * DataStore V) :=
  arr ← getLogInfoMap ds;
  let newLogs := filter (λ kv, (id < kv.1)%Z) arr in
  let purged := Z.of_nat (size (filter (λ kv : Z * V, ¬ (id < kv.1)%Z) arr)) in
  Ok (wrap64 purged, setLogInfoMap ds newLogs).

Definition GetLogInfo ds (id : Z) : outcome V :=
  arr ← getLogInfoMap ds;
  match arr !! id with
  | Some v => Ok v
  | None => Err (New ("Log info with id " +:+ itoa id +:+ " not found"))
  end.

Definition GetLogInfoList ds : outcome (gmap Z V) := getLogInfoMap ds.

(** ** Freezing the store to a file *)

(** The contents of a saved file: the cache entries and the key lists. *)
Record dsFileStore : Type := {
  Cache : gmap string (cell V);
  ObjList : gmap string (gset string);
}.

(** [Save] on a file system that does not fail: the new contents of the file,
    if it was written, and the store with its dirty flag cleared. *)
Definition Save ds (dsFile : string) : outcome (option dsFileStore * DataStore V) :=
  if negb (updated ds) then Ok (None, ds)
  else if bool_decide (dsFile = EmptyString) then
    Err (New "Yikes! Cannot save data store to disk because no file was specified.")
  else Ok (Some {| Cache := dsc ds; ObjList := objList ds |},
           {| dsc := dsc ds; objList := objList ds; updated := false |}).

(** [Load]: entries already in the cache win, and the decoder adds the saved
    lists to the map it decodes into, type by type. *)
Definition Load ds (dsFile : string) (contents : option dsFileStore) : outcome (DataStore V) :=
  if bool_decide (dsFile = EmptyString) then
    Err (New "Yikes! Cannot load data store from disk because no file was specified.")
  else match contents with
       | None => Ok ds
       | Some f => Ok {| dsc := dsc ds ∪ Cache f; objList := ObjList f ∪ objList ds;
                         updated := updated ds |}
       end.

(** * Well-formed stores *)

Definition listed ds keyType : gset string := default ∅ (objList ds !! keyType).

(** The lists and the cache agree on the objects of each type, and stored
    objects are what [gob] leaves of them. *)
Definition wf_items ds : Prop := ∀ t k, obj_type t = true →
  match dsc ds !! makeKey t k with
  | Some (CItem v) => k ∈ listed ds t ∧ gob v = v
  | Some _ => False
  | None => k ∉ listed ds t
  end.

(** The status tables: both there or both missing; every listed id has a
    status, a node's list is not empty, and no id is listed twice. *)
Record wf_status (ns : gmap Z V) (nslist : gmap string (list Z)) : Prop := {
  ws_some n i : i ∈ ns_ids nslist n → is_Some (ns !! i);
  ws_nonempty n ids : nslist !! n = Some ids → ids ≠ [];
  ws_nodup n : NoDup (ns_ids nslist n);
  ws_disjoint n n' i : i ∈ ns_ids nslist n → i ∈ ns_ids nslist n' → n = n';
}.

Definition wf_nodes ds : Prop :=
  match dsc ds !! nsKey, dsc ds !! nsListKey with
  | None, None => True
  | Some (CNs ns), Some (CNsList nslist) => wf_status ns nslist
  | _, _ => False
  end.

Definition wf_log ds : Prop :=
  match dsc ds !! logKey with
  | None => True
  | Some (CLog m) => ∀ i v, m !! i = Some v → gob v = v
  | Some _ => False
  end.

Definition ds_wf ds : Prop := wf_items ds ∧ wf_nodes ds ∧ wf_log ds.

(** ** Keys *)

Lemma makeKey_eq t k : makeKey t k = t +:+ String ":"%char k.
Proof. done. Qed.

(** Types without a colon keep the keys of different types apart. *)
Lemma makeKey_inj t k t' k' :
  no_colon t = true → no_colon t' = true → makeKey t k = makeKey t' k' → t = t' ∧ k = k'.
Proof.
  intros Ht Ht' Hk. rewrite !makeKey_eq in Hk.
  pose proof (str_split_app _ _ k Ht) as E. pose proof (str_split_app _ _ k' Ht') as E'.
  rewrite Hk in E. rewrite E in E'. injection E' as Et Ek. subst t'. split; [done|].
  rewrite <-(str_join_split ":" k), <-(str_join_split ":" k'). by rewrite Ek.
Qed.

Lemma obj_type_no_colon t : obj_type t = true → no_colon t = true.
Proof. unfold obj_type. intros. by bool_split. Qed.

Lemma makeKey_reserved t k t' k' :
  obj_type t = true → t' ∈ reserved_types → makeKey t k ≠ makeKey t' k'.
Proof.
  intros Ht Hr Hk. unfold obj_type in Ht. bool_split.
  assert (no_colon t' = true) as Ht'.
  { unfold reserved_types in Hr. rewrite !elem_of_cons in Hr. by destruct Hr as [->|[->|[->|Hr]]]; [..|inversion Hr]. }
  by apply makeKey_inj in Hk as [-> _].
Qed.

Lemma makeKey_table t k :
  obj_type t = true → makeKey t k ≠ nsKey ∧ makeKey t k ≠ nsListKey ∧ makeKey t k ≠ logKey.
Proof. intros Ht. split_and!; apply makeKey_reserved; set_solver. Qed.

(** ** Objects *)

Lemma listed_addToList ds t k t' :
  listed (addToList ds t k) t' = if bool_decide (t' = t) then {[k]} ∪ listed ds t else listed ds t'.
Proof.
  unfold listed, addToList. simpl. case_bool_decide; subst;
    [by rewrite lookup_insert_eq|by rewrite lookup_insert_ne].
Qed.

Lemma listed_removeFromList ds t k t' :
  listed (removeFromList ds t k) t' =
    if bool_decide (t' = t) then listed ds t ∖ {[k]} else listed ds t'.
Proof.
  unfold listed, removeFromList. simpl. case_bool_decide; subst.
  - rewrite lookup_alter_eq. destruct (objList ds !! t); simpl; set_solver.
  - by rewrite lookup_alter_ne.
Qed.

(** [Set] and [Delete] at one key, seen from another. *)
Lemma Set_lookup ds t k v t' k' :
  obj_type t = true → obj_type t' = true →
  dsc (Set_ ds t k v) !! makeKey t' k' =
    if bool_decide (t' = t ∧ k' = k) then Some (CItem (gob v)) else dsc ds !! makeKey t' k'.
Proof.
  intros Ht Ht'. simpl. case_bool_decide as E.
  - destruct E as [-> ->]. by rewrite lookup_insert_eq.
  - rewrite lookup_insert_ne; [done|]. intros Hk. apply E.
    apply makeKey_inj in Hk as [-> ->]; auto using obj_type_no_colon.
Qed.

Lemma Delete_lookup ds t k t' k' :
  obj_type t = true → obj_type t' = true →
  dsc (Delete ds t k) !! makeKey t' k' =
    if bool_decide (t' = t ∧ k' = k) then None else dsc ds !! makeKey t' k'.
Proof.
  intros Ht Ht'. simpl. case_bool_decide as E.
  - destruct E as [-> ->]. by rewrite lookup_delete_eq.
  - rewrite lookup_delete_ne; [done|]. intros Hk. apply E.
    apply makeKey_inj in Hk as [-> ->]; auto using obj_type_no_colon.
Qed.

(** The tables are untouched by the operations on objects. *)
Lemma Set_tables ds t k v key :
  obj_type t = true → key ∈ [nsKey; nsListKey; logKey] → dsc (Set_ ds t k v) !! key = dsc ds !! key.
Proof.
  intros Ht Hkey. destruct (makeKey_table t k Ht) as (?&?&?). simpl.
  rewrite lookup_insert_ne; set_solver.
Qed.

Lemma Delete_tables ds t k key :
  obj_type t = true → key ∈ [nsKey; nsListKey; logKey] → dsc (Delete ds t k) !! key = dsc ds !! key.
Proof.
  intros Ht Hkey. destruct (makeKey_table t k Ht) as (?&?&?). simpl.
  rewrite lookup_delete_ne; set_solver.
Qed.

Lemma wf_tables ds ds' :
  (∀ key, key ∈ [nsKey; nsListKey; logKey] → dsc ds' !! key = dsc ds !! key) →
  wf_nodes ds ∧ wf_log ds → wf_nodes ds' ∧ wf_log ds'.
Proof.
  intros Hk. unfold wf_nodes, wf_log. rewrite !Hk by set_solver. done.
Qed.

Lemma Set_items ds t k v :
  obj_type t = true → wf_items ds → wf_items (Set_ ds t k v).
Proof.
  intros Ht Hi t' k' Ht'. specialize (Hi t' k' Ht'). rewrite Set_lookup by done. unfold Set_.
  rewrite listed_addToList. repeat case_bool_decide; destruct_and?; subst; try tauto.
  - split; [set_solver|apply gob_idemp].
  - assert (k' ≠ k) by naive_solver. unfold listed in *. simpl.
    destruct (dsc ds !! makeKey t k') as [[]|]; set_solver.
Qed.

Lemma Delete_items ds t k :
  obj_type t = true → wf_items ds → wf_items (Delete ds t k).
Proof.
  intros Ht Hi t' k' Ht'. specialize (Hi t' k' Ht'). rewrite Delete_lookup by done. unfold Delete.
  rewrite listed_removeFromList. repeat case_bool_decide; destruct_and?; subst; try tauto.
  - set_solver.
  - assert (k' ≠ k) by naive_solver. unfold listed in *. simpl.
    destruct (dsc ds !! makeKey t k') as [[]|]; set_solver.
Qed.

Lemma Set_wf ds t k v : obj_type t = true → ds_wf ds → ds_wf (Set_ ds t k v).
Proof.
  intros Ht [Hi Hw]. split; [by apply Set_items|].
  eapply wf_tables, Hw. intros. by apply Set_tables.
Qed.

Lemma Delete_wf ds t k : obj_type t = true → ds_wf ds → ds_wf (Delete ds t k).
Proof.
  intros Ht [Hi Hw]. split; [by apply Delete_items|].
  eapply wf_tables, Hw. intros. by apply Delete_tables.
Qed.

Lemma init_wf : ds_wf initDataStore.
Proof.
  split; [|split].
  - intros t k _. unfold listed. simpl. rewrite !lookup_empty. set_solver.
  - unfold wf_nodes. simpl. by rewrite !lookup_empty.
  - unfold wf_log. simpl. by rewrite lookup_empty.
Qed.

(** In a well-formed store [Get] finds exactly the listed keys. *)
Lemma Get_listed ds t k :
  wf_items ds → obj_type t = true →
  ∃ o, Get ds t k = Ok o ∧ (is_Some o ↔ k ∈ listed ds t).
Proof.
  intros Hi Ht. specialize (Hi t k Ht). unfold Get.
  destruct (dsc ds !! makeKey t k) as [[]|]; try done; eexists; (split; [done|]).
  - naive_solver.
  - split; [intros []; done|naive_solver].
Qed.

Lemma GetList_eq ds t : GetList ds t = Ok (sort_strings (elements (listed ds t))).
Proof.
  unfold GetList, GetList_fill, GetList_size. fold (listed ds t).
  rewrite bool_decide_eq_true_2 by done.
  by rewrite Nat.sub_diag, app_nil_r.
Qed.
End datastore.

#[export] Hint Resolve Set_wf Delete_wf init_wf : goiardi.

(** * The data store implements the interface *)

#[export] Instance DataStore_ops {V} `{Gob V} : StoreOps (DataStore V) V := {|
  st_get := Get; st_set := Set_; st_del := Delete; st_list := GetList |}.

#[export] Program Instance DataStore_laws {V} `{Gob V} : StoreLaws (DataStore V) V := {|
  st_inv := wf_items |}.
Next Obligation. intros; simpl; by apply Set_items. Qed.
Next Obligation. intros; simpl; by apply Delete_items. Qed.
Next Obligation. intros V ? ds t k Hi Ht. destruct (Get_listed ds t k) as (o & ? & _); eauto. Qed.
Next Obligation.
  intros V ? ds t k v t' k' _ Ht Ht'. simpl. unfold Get. rewrite Set_lookup by done.
  by case_bool_decide.
Qed.
Next Obligation.
  intros V ? ds t k t' k' _ Ht Ht'. simpl. unfold Get. rewrite Delete_lookup by done.
  by case_bool_decide.
Qed.
Next Obligation.
  intros V ? ds t Hi Ht. simpl. rewrite GetList_eq. eexists. split_and!; eauto with goiardi.
  - rewrite sort_strings_Permutation. apply NoDup_elements.
  - intros k. rewrite elem_of_sort_strings, elem_of_elements.
    destruct (Get_listed ds t k Hi Ht) as (o & -> & <-). split.
    + intros [v ->]. eauto.
    + intros [v [= ->]]. eauto.
Qed.
Next Obligation.
  intros V ? ds t k v Hi Ht Hg. simpl in Hg. unfold Get in Hg. specialize (Hi t k Ht).
  destruct (dsc ds !! makeKey t k) as [[]|]; naive_solver.
Qed.
