(* ===== verification/Tables.v ===== *)
(** The tables the data store keeps for itself (src/datastore/datastore.go):
    node statuses and the event log.  Fresh ids, the histories of the nodes,
    purging, and the frame between the tables and the stored objects. *)
From S2P Require Import Prelude Gerror Store Datastore.

(** * Fresh ids *)

#[local] Instance Zgt_strict : StrictWeak (reverse_less Z.ltb).
Proof. split; unfold reverse_less; intros *; rewrite ?Z.ltb_lt, ?Z.ltb_ge; lia. Qed.

Section ids.
  Context {V : Type}.
  Implicit Types (m : gmap Z V) (k : Z).

Lemma head_sorted_max (l : list Z) k :
  head (go_sort (reverse_less Z.ltb) l) = Some k → k ∈ l ∧ ∀ i, i ∈ l → (i ≤ k)%Z.
Proof.
  intros Hh. pose proof (go_sort_sorted (reverse_less Z.ltb) l) as Hs.
  setoid_rewrite <-(elem_of_go_sort (reverse_less Z.ltb) _ l).
  destruct (go_sort _ l) as [|x r]; [done|]. injection Hh as ->.
  apply StronglySorted_inv in Hs as [_ Hs]. split; [set_solver|].
  intros i [->|Hi]%elem_of_cons; [lia|]. rewrite Forall_forall in Hs.
  specialize (Hs i Hi). unfold le_of, reverse_less in Hs. lia.
Qed.

Lemma elem_of_keys m k : k ∈ (map_to_list m).*1 ↔ is_Some (m !! k).
Proof.
  rewrite list_elem_of_fmap. split.
  - intros ([k' v] & -> & Hm%elem_of_map_to_list). eauto.
  - intros [v Hv]. exists (k, v). by rewrite elem_of_map_to_list.
Qed.

Lemma max_key_Some m k :
  max_key m = Some k → is_Some (m !! k) ∧ ∀ i, is_Some (m !! i) → (i ≤ k)%Z.
Proof.
  intros [Hin Hmax]%head_sorted_max. rewrite elem_of_keys in Hin. split; [done|].
  intros i Hi. apply Hmax. by apply elem_of_keys.
Qed.

(** Every id is an [int] with room for [k] more above it. *)
Definition ids_room (k : Z) m : Prop :=
  ∀ i, is_Some (m !! i) → (min_int64 ≤ i ∧ i + k ≤ max_int64)%Z.

(** As long as the counter does not wrap, the next id is above all others,
    and one id of the room is used up. *)
Lemma getNextID_above m k :
  (1 ≤ k ≤ max_int64)%Z → ids_room k m →
  (min_int64 ≤ getNextID m ∧ getNextID m + (k - 1) ≤ max_int64)%Z ∧
  ∀ i, is_Some (m !! i) → (i < getNextID m)%Z.
Proof.
  intros Hk Hb. unfold getNextID. destruct (max_key m) as [j|] eqn:E.
  - apply max_key_Some in E as [Hj Hmax]. specialize (Hb j Hj).
    rewrite wrap64_small by (unfold min_int64, max_int64 in *; lia). split; [lia|].
    intros i Hi. specialize (Hmax i Hi). lia.
  - split; [unfold min_int64, max_int64 in *; lia|].
    intros i Hi. unfold max_key in E. destruct (go_sort _ _) eqn:Es; [|done].
    apply elem_of_keys in Hi. rewrite <-(elem_of_go_sort (reverse_less Z.ltb)), Es in Hi.
    by apply not_elem_of_nil in Hi.
Qed.

Lemma getNextID_fresh m k :
  (1 ≤ k ≤ max_int64)%Z → ids_room k m → m !! getNextID m = None.
Proof.
  intros Hk Hb. apply eq_None_not_Some. intros Hs.
  pose proof (proj2 (getNextID_above m k Hk Hb) _ Hs). lia.
Qed.

Lemma ids_room_insert m k v :
  (1 ≤ k ≤ max_int64)%Z → ids_room k m → ids_room (k - 1) (<[getNextID m := v]> m).
Proof.
  intros Hk Hb i [w [[<- _]|[_ Hi]]%lookup_insert_Some].
  - by apply (getNextID_above m k Hk Hb).
  - specialize (Hb i (mk_is_Some _ _ Hi)). lia.
Qed.
End ids.

(** * Node statuses *)

Section statuses.
  Context {V : Type} `{Gob V}.
  Implicit Types (ds : DataStore V) (ns : gmap Z V) (nslist : gmap string (list Z)).
  Implicit Types (n : string) (i : Z).

Lemma ns_ids_insert nslist n n' ids :
  ns_ids (<[n := ids]> nslist) n' = if bool_decide (n' = n) then ids else ns_ids nslist n'.
Proof.
  unfold ns_ids. case_bool_decide; subst; [by rewrite lookup_insert_eq|by rewrite lookup_insert_ne].
Qed.

Lemma ns_ids_delete nslist n n' :
  ns_ids (delete n nslist) n' = if bool_decide (n' = n) then [] else ns_ids nslist n'.
Proof.
  unfold ns_ids. case_bool_decide; subst; [by rewrite lookup_delete_eq|by rewrite lookup_delete_ne].
Qed.

(** Adding a status under an id that no status has. *)
Lemma wf_status_add ns nslist n i v :
  wf_status ns nslist → ns !! i = None →
  wf_status (<[i := v]> ns) (<[n := ns_ids nslist n ++ [i]]> nslist).
Proof.
  intros [Hs Hne Hnd Hd] Hi.
  assert (∀ n', i ∉ ns_ids nslist n') as Hfresh.
  { intros n' Hin. apply Hs in Hin. rewrite Hi in Hin. by destruct Hin. }
  split.
  - intros n' j Hj. rewrite ns_ids_insert in Hj. destruct (decide (j = i)) as [->|Hij].
    { rewrite lookup_insert_eq. eauto. }
    rewrite lookup_insert_ne by done. case_bool_decide; subst; [|eauto].
    apply elem_of_app in Hj as [Hj|Hj]; [eauto|set_solver].
  - intros n' ids [[<- <-]|[? Hl]]%lookup_insert_Some; [by destruct (ns_ids nslist n)|eauto].
  - intros n'. rewrite ns_ids_insert. case_bool_decide; [|done].
    apply NoDup_app. split_and!; [done| |apply NoDup_singleton].
    intros j Hj ->%list_elem_of_singleton. by eapply Hfresh.
  - intros n1 n2 j. rewrite !ns_ids_insert.
    repeat case_bool_decide; subst; rewrite ?elem_of_app, ?list_elem_of_singleton; try done.
    + intros [?| ->] ?; [by eapply Hd|by destruct (Hfresh n2)].
    + intros ? [?| ->]; [by eapply Hd|by destruct (Hfresh n1)].
    + apply Hd.
Qed.

Lemma foldl_delete_lookup (ids : list Z) ns i :
  foldl (λ m j, delete j m) ns ids !! i = if bool_decide (i ∈ ids) then None else ns !! i.
Proof.
  revert ns. induction ids as [|j ids IH]; intros ns; simpl; [done|].
  rewrite IH. destruct (decide (i = j)) as [->|].
  - rewrite lookup_delete_eq. rewrite (bool_decide_eq_true_2 (j ∈ j :: ids)) by set_solver.
    by case_bool_decide.
  - rewrite lookup_delete_ne by done.
    rewrite (bool_decide_ext (i ∈ j :: ids) (i ∈ ids)) by set_solver. done.
Qed.

(** Deleting a node's statuses leaves those of the other nodes. *)
Lemma wf_status_delete ns nslist n :
  wf_status ns nslist →
  wf_status (foldl (λ m j, delete j m) ns (ns_ids nslist n)) (delete n nslist).
Proof.
  intros [Hs Hne Hnd Hd]. split.
  - intros n' j. rewrite ns_ids_delete, foldl_delete_lookup. case_bool_decide as E; [set_solver|].
    intros Hj. rewrite bool_decide_eq_false_2; [by eapply Hs|]. intros Hj'. by eapply E, Hd.
  - intros n' ids [? Hl]%lookup_delete_Some. eauto.
  - intros n'. rewrite ns_ids_delete. case_bool_decide; [constructor|done].
  - intros n1 n2 j. rewrite !ns_ids_delete. repeat case_bool_decide; [set_solver..|apply Hd].
Qed.

Lemma decodeAll_Ok ns ids :
  (∀ i, i ∈ ids → is_Some (ns !! i)) →
  ∃ vs, decodeAll ns ids = Ok vs ∧ Forall2 (λ i v, ns !! i = Some v) ids vs.
Proof.
  induction ids as [|i ids IH]; intros Hs; [by exists []|].
  destruct IH as (vs & E & Hf); [set_solver|]. destruct (Hs i) as [v Hv]; [set_solver|].
  exists (v :: vs). simpl. unfold decodeNs. rewrite Hv. simpl. rewrite E. simpl. auto.
Qed.

Lemma decodeAll_ext ns ns' ids :
  (∀ i, i ∈ ids → ns !! i = ns' !! i) → decodeAll ns ids = decodeAll ns' ids.
Proof.
  induction ids as [|i ids IH]; intros He; [done|]. simpl. unfold decodeNs.
  rewrite He by set_solver. rewrite IH by set_solver. done.
Qed.

Lemma decodeAll_app ns ids ids' vs vs' :
  decodeAll ns ids = Ok vs → decodeAll ns ids' = Ok vs' →
  decodeAll ns (ids ++ ids') = Ok (vs ++ vs').
Proof.
  revert vs. induction ids as [|i ids IH]; simpl; intros vs E E'; [by simplify_eq/=|].
  inv_ok. rewrite H0. simpl. erewrite IH by done. done.
Qed.

Lemma wf_status_empty : wf_status (∅ : gmap Z V) ∅.
Proof. by split; unfold ns_ids; intros *; rewrite ?lookup_empty; simpl; try set_solver; try constructor. Qed.

Lemma wf_status_intro_single (v : V) n i : wf_status {[i := v]} {[n := [i]]}.
Proof.
  apply (wf_status_add ∅ ∅ n i v wf_status_empty). apply lookup_empty.
Qed.

(** The status tables of a store, empty ones when it has none. *)
Definition tables ds : gmap Z V * gmap string (list Z) :=
  match getNs ds, getNsList ds with
  | Ok a, Ok b => (default ∅ a, default ∅ b)
  | _, _ => (∅, ∅)
  end.

Lemma wf_tables_get ds :
  wf_nodes ds → wf_status (tables ds).1 (tables ds).2 ∧
  ((getNs ds = Ok None ∧ getNsList ds = Ok None) ∨
   (getNs ds = Ok (Some (tables ds).1) ∧ getNsList ds = Ok (Some (tables ds).2))).
Proof.
  unfold wf_nodes, tables, getNs, getNsList.
  destruct (dsc ds !! nsKey) as [[]|], (dsc ds !! nsListKey) as [[]|]; simpl; try done; auto.
  split; [apply wf_status_empty|auto].
Qed.

Lemma get_putNs ds ns nslist :
  getNs (putNs ds ns nslist) = Ok (Some ns) ∧ getNsList (putNs ds ns nslist) = Ok (Some nslist) ∧
  tables (putNs ds ns nslist) = (ns, nslist).
Proof.
  assert (getNs (putNs ds ns nslist) = Ok (Some ns)) as E1.
  { unfold getNs, putNs. simpl. by rewrite lookup_insert_ne, lookup_insert_eq. }
  assert (getNsList (putNs ds ns nslist) = Ok (Some nslist)) as E2.
  { unfold getNsList, putNs. simpl. by rewrite lookup_insert_eq. }
  split_and!; [done..|]. unfold tables. by rewrite E1, E2.
Qed.

Lemma putNs_nodes ds ns nslist : wf_status ns nslist → wf_nodes (putNs ds ns nslist).
Proof.
  intros Hs. unfold wf_nodes, putNs. simpl. rewrite lookup_insert_eq.
  by rewrite lookup_insert_ne, lookup_insert_eq.
Qed.

(** Writing the status tables keeps the objects and the log. *)
Lemma putNs_wf ds ns nslist : ds_wf ds → wf_status ns nslist → ds_wf (putNs ds ns nslist).
Proof.
  intros (Hi & Hn & Hl) Hs. split_and!.
  - intros t k Ht. destruct (makeKey_table t k Ht) as (?&?&?). simpl.
    rewrite !lookup_insert_ne by done. by apply Hi.
  - by apply putNs_nodes.
  - unfold wf_log, putNs in *. simpl. by rewrite !lookup_insert_ne.
Qed.

Lemma putNs_objects ds ns nslist : same_objects (putNs ds ns nslist) ds.
Proof.
  intros t k Ht. destruct (makeKey_table t k Ht) as (?&?&?). simpl. unfold Get. simpl.
  by rewrite !lookup_insert_ne.
Qed.

(** The history of a node, as [AllNodeStatuses] gives it. *)
Lemma AllNodeStatuses_tables ds n :
  wf_nodes ds → getNs ds ≠ Ok None →
  AllNodeStatuses ds n = decodeAll (tables ds).1 (ns_ids (tables ds).2 n).
Proof.
  intros Hw Hne. destruct (wf_tables_get ds Hw) as [_ [[E1 E2]|[E1 E2]]]; [done|].
  unfold AllNodeStatuses. rewrite E1. simpl. by rewrite E2.
Qed.

Definition history ds n : list V :=
  match decodeAll (tables ds).1 (ns_ids (tables ds).2 n) with Ok vs => vs | _ => [] end.

Lemma history_decode ds n :
  wf_nodes ds → decodeAll (tables ds).1 (ns_ids (tables ds).2 n) = Ok (history ds n).
Proof.
  intros Hw. destruct (wf_tables_get ds Hw) as [Hs _]. unfold history.
  destruct (decodeAll_Ok (tables ds).1 (ns_ids (tables ds).2 n)) as (vs & E & _).
  { intros i. apply (ws_some _ _ Hs). }
  by rewrite E.
Qed.

Lemma SetNodeStatus_eq ds n v :
  wf_nodes ds → SetNodeStatus ds n v None =
    Ok (putNs ds (<[getNextID (tables ds).1 := gob v]> (tables ds).1)
      (<[n := ns_ids (tables ds).2 n ++ [getNextID (tables ds).1]]> (tables ds).2)).
Proof.
  intros Hw. destruct (wf_tables_get ds Hw) as [_ [[E1 E2]|[E1 E2]]];
    unfold SetNodeStatus, tables; by rewrite E1, E2.
Qed.

Lemma deleteStatuses_eq ds n :
  wf_nodes ds → getNs ds ≠ Ok None →
  deleteStatuses ds n = Ok (putNs ds
    (foldl (λ m i, delete i m) (tables ds).1 (ns_ids (tables ds).2 n)) (delete n (tables ds).2)).
Proof.
  intros Hw Hne. destruct (wf_tables_get ds Hw) as [_ [[E1 E2]|[E1 E2]]]; [done|].
  unfold deleteStatuses. rewrite E1. simpl. by rewrite E2.
Qed.

(** The history of every node in given tables. *)
Definition histories ns nslist (h : string → list V) : Prop :=
  ∀ n, decodeAll ns (ns_ids nslist n) = Ok (h n).

Lemma histories_delete ns nslist h n :
  wf_status ns nslist → histories ns nslist h →
  histories (foldl (λ m i, delete i m) ns (ns_ids nslist n)) (delete n nslist)
    (λ n', if bool_decide (n' = n) then [] else h n').
Proof.
  intros [Hs _ _ Hd] Hh n'. rewrite ns_ids_delete. case_bool_decide as E; [done|].
  rewrite <-Hh. apply decodeAll_ext. intros i Hi. rewrite foldl_delete_lookup.
  rewrite bool_decide_eq_false_2; [done|]. intros Hi'. by eapply E, Hd.
Qed.

Lemma histories_add ns nslist h n i v :
  wf_status ns nslist → ns !! i = None → histories ns nslist h →
  histories (<[i := v]> ns) (<[n := ns_ids nslist n ++ [i]]> nslist)
    (λ n', if bool_decide (n' = n) then h n ++ [v] else h n').
Proof.
  intros [Hs _ _ _] Hi Hh n'. rewrite ns_ids_insert.
  assert (∀ n'', decodeAll (<[i:=v]> ns) (ns_ids nslist n'') = Ok (h n'')) as Hold.
  { intros n''. rewrite <-Hh. apply decodeAll_ext.
    intros j Hj. rewrite lookup_insert_ne; [done|]. intros <-.
    apply Hs in Hj. rewrite Hi in Hj. by destruct Hj. }
  case_bool_decide; [|by auto]. apply decodeAll_app; [by auto|].
  simpl. unfold decodeNs. by rewrite lookup_insert_eq.
Qed.

Lemma replace_loop_spec n objs ns nslist h k :
  wf_status ns nslist → histories ns nslist h →
  (Z.of_nat (length objs) ≤ k ≤ max_int64)%Z → ids_room k ns →
  let r := replace_loop n objs ns nslist in
  wf_status r.1 r.2 ∧ ids_room (k - Z.of_nat (length objs)) r.1 ∧
  histories r.1 r.2 (λ n', if bool_decide (n' = n) then h n ++ map gob objs else h n').
Proof.
  revert ns nslist h k. induction objs as [|o objs IH]; intros ns nslist h k Hs Hh Hl Hr; simpl.
  - split_and!; [done|by rewrite Z.sub_0_r|].
    intros n'. rewrite Hh. case_bool_decide; subst; by rewrite ?app_nil_r.
  - simpl in Hl, Hr. assert (1 ≤ k ≤ max_int64)%Z as Hk by lia.
    pose proof (getNextID_fresh _ _ Hk Hr) as Hf.
    destruct (IH (<[getNextID ns := gob o]> ns)
      (<[n := ns_ids nslist n ++ [getNextID ns]]> nslist)
      (λ n', if bool_decide (n' = n) then h n ++ [gob o] else h n') (k - 1)%Z) as (Hw' & Hr' & Hh').
    + by apply wf_status_add.
    + by apply histories_add.
    + lia.
    + by apply ids_room_insert.
    + split_and!; [done| |].
      { replace (k - Z.of_nat (S (length objs)))%Z with (k - 1 - Z.of_nat (length objs))%Z by lia. done. }
      intros n'. rewrite Hh'.
      repeat case_bool_decide; simplify_eq; by rewrite <-?app_assoc.
Qed.

Lemma ids_room_delete k ns (ids : list Z) :
  ids_room k ns → ids_room k (foldl (λ m i, delete i m) ns ids).
Proof. intros Hr i Hi. rewrite foldl_delete_lookup in Hi. case_bool_decide; [by destruct Hi|auto]. Qed.

Lemma touch_tables ds : wf_nodes (touch ds) = wf_nodes ds ∧ tables (touch ds) = tables ds ∧
  getNs (touch ds) = getNs ds.
Proof. done. Qed.

(** A new status is appended to its node's history; the others keep theirs. *)
Lemma SetNodeStatus_spec ds n v :
  wf_nodes ds → ids_room 1 (tables ds).1 →
  ∃ ds', SetNodeStatus ds n v None = Ok ds' ∧ getNs ds' ≠ Ok None ∧ wf_nodes ds' ∧
    histories (tables ds').1 (tables ds').2
      (λ n', if bool_decide (n' = n) then history ds n ++ [gob v] else history ds n').
Proof.
  intros Hw Hr. rewrite SetNodeStatus_eq by done. eexists. split; [done|].
  destruct (wf_tables_get ds Hw) as [Hs _].
  assert ((tables ds).1 !! getNextID (tables ds).1 = None) as Hf.
  { eapply getNextID_fresh; [|done]. unfold max_int64. lia. }
  destruct (get_putNs ds (<[getNextID (tables ds).1 := gob v]> (tables ds).1)
    (<[n := ns_ids (tables ds).2 n ++ [getNextID (tables ds).1]]> (tables ds).2)) as (-> & _ & ->).
  split_and!; [done| |].
  - apply putNs_nodes. by apply wf_status_add.
  - apply histories_add; [done..|]. intros n'. by apply history_decode.
Qed.

(** Replacing a node's statuses leaves the new ones, in order, and nothing
    else changes. *)
Lemma ReplaceNodeStatuses_spec ds n objs k :
  wf_nodes ds → getNs ds ≠ Ok None → (Z.of_nat (length objs) ≤ k ≤ max_int64)%Z →
  ids_room k (tables ds).1 →
  ∃ ds', ReplaceNodeStatuses ds n objs = (Ok (), ds') ∧ getNs ds' ≠ Ok None ∧ wf_nodes ds' ∧
    ids_room (k - Z.of_nat (length objs)) (tables ds').1 ∧
    histories (tables ds').1 (tables ds').2
      (λ n', if bool_decide (n' = n) then map gob objs else history ds n').
Proof.
  intros Hw Hne Hl Hr. destruct (wf_tables_get ds Hw) as [Hs _].
  pose proof (wf_status_delete _ _ n Hs) as Hs1.
  pose proof (histories_delete _ _ _ n Hs (λ n', history_decode ds n' Hw)) as Hh1.
  pose proof (ids_room_delete _ _ (ns_ids (tables ds).2 n) Hr) as Hr1.
  unfold ReplaceNodeStatuses. rewrite deleteStatuses_eq by done. simpl.
  change (tables (touch ds)) with (tables ds). set (ds1 := putNs (touch ds) _ _).
  destruct (get_putNs (touch ds) (foldl (λ m i, delete i m) (tables ds).1 (ns_ids (tables ds).2 n))
    (delete n (tables ds).2)) as (E1 & E2 & E3). fold ds1 in E1, E2, E3.
  destruct objs as [|o objs].
  - eexists. split; [done|]. rewrite E1, E3. split_and!; [done|by apply putNs_nodes|by rewrite Z.sub_0_r|done].
  - rewrite E1. simpl. rewrite E2. simpl.
    destruct (replace_loop_spec n (o :: objs) _ _ _ k Hs1 Hh1 Hl Hr1) as (Hs2 & Hr2 & Hh2).
    simpl in Hs2, Hr2, Hh2. destruct (replace_loop _ _ _ _) as [ns2 nslist2]. simpl in *.
    eexists. split; [done|]. destruct (get_putNs ds1 ns2 nslist2) as (-> & _ & ->).
    split_and!; [done|by apply putNs_nodes|done|].
    intros n'. rewrite Hh2. by repeat case_bool_decide.
Qed.

(** [sort.Sort] on the ids and the status of the greatest one. *)
Lemma LatestNodeStatus_max ds n ids :
  wf_nodes ds → (tables ds).2 !! n = Some ids →
  ∃ i v, i ∈ ids ∧ (∀ j, j ∈ ids → (j ≤ i)%Z) ∧ (tables ds).1 !! i = Some v ∧
    (LatestNodeStatus ds n).1 = Ok v.
Proof.
  intros Hw Hn. destruct (wf_tables_get ds Hw) as [Hs [[E1 E2]|[E1 E2]]].
  { unfold tables in Hn. rewrite E1, E2 in Hn. done. }
  unfold LatestNodeStatus. rewrite E1, E2, Hn.
  destruct (go_sort (reverse_less Z.ltb) ids) as [|i r] eqn:E.
  - exfalso. apply (ws_nonempty _ _ Hs n ids Hn). apply Permutation_nil_r.
    by rewrite <-(go_sort_Permutation (reverse_less Z.ltb) ids), E.
  - destruct (head_sorted_max ids i) as [Hin Hmax]; [by rewrite E|].
    destruct (ws_some _ _ Hs n i) as [v Hv]; [by unfold ns_ids; rewrite Hn|].
    exists i, v. split_and!; [done..|]. simpl. unfold decodeNs. by rewrite Hv.
Qed.
End statuses.

(** * The event log *)

Section log.
  Context {V : Type} `{Gob V}.
  Implicit Types (ds : DataStore V) (m : gmap Z V).

Lemma map_size_filter_split (P : Z * V → Prop) `{∀ x, Decision (P x)} m :
  size (filter P m) + size (filter (λ x, ¬ P x) m) = size m.
Proof.
  rewrite <-map_size_disj_union by apply map_disjoint_filter_complement.
  by rewrite map_filter_union_complement.
Qed.

Lemma get_setLog ds m : getLogInfoMap (setLogInfoMap ds m) = Ok (gob <$> m).
Proof. unfold getLogInfoMap, setLogInfoMap. simpl. by rewrite lookup_insert_eq. Qed.

Lemma wf_log_get ds :
  wf_log ds → ∃ m, getLogInfoMap ds = Ok m ∧ ∀ i v, m !! i = Some v → gob v = v.
Proof.
  unfold wf_log, getLogInfoMap. destruct (dsc ds !! logKey) as [[]|]; try done; intros Hl.
  - eauto.
  - exists ∅. split; [done|]. intros i v. by rewrite lookup_empty.
Qed.

Lemma gob_fmap_id m : (∀ i v, m !! i = Some v → gob v = v) → gob <$> m = m.
Proof.
  intros Hm. apply map_eq. intros i. rewrite lookup_fmap.
  destruct (m !! i) as [v|] eqn:E; simpl; [|done]. f_equal. eauto.
Qed.

Lemma setLog_wf ds m : ds_wf ds → ds_wf (setLogInfoMap ds m).
Proof.
  intros (Hi & Hn & Hl). split_and!.
  - intros t k Ht. destruct (makeKey_table t k Ht) as (?&?&?). simpl.
    rewrite lookup_insert_ne by done. by apply Hi.
  - unfold wf_nodes, setLogInfoMap in *. simpl. by rewrite !lookup_insert_ne.
  - unfold wf_log, setLogInfoMap in *. simpl. rewrite lookup_insert_eq.
    intros i v. rewrite lookup_fmap. intros [w [? ->]]%fmap_Some. apply gob_idemp.
Qed.

Lemma setLog_objects ds m : same_objects (setLogInfoMap ds m) ds.
Proof.
  intros t k Ht. destruct (makeKey_table t k Ht) as (?&?&?). simpl. unfold Get. simpl.
  by rewrite !lookup_insert_ne.
Qed.
End log.

(** * Operations on objects and on tables, interleaved *)

Inductive table_op (V : Type) : Type :=
| TSetStatus (n : string) (v : V) (id : option Z)
| TDeleteStatus (n : string)
| TReplace (n : string) (vs : list V)
| TLatest (n : string)
| TSetLog (v : V) (id : option Z)
| TDeleteLog (id : Z)
| TPurge (id : Z).
Arguments TSetStatus {V} n v id.
Arguments TDeleteStatus {V} n.
Arguments TReplace {V} n vs.
Arguments TLatest {V} n.
Arguments TSetLog {V} v id.
Arguments TDeleteLog {V} id.
Arguments TPurge {V} id.

Section mixed.
  Context {V : Type} `{Gob V}.
  Implicit Types (ds : DataStore V).

Definition table_step ds (op : table_op V) : DataStore V :=
  match op with
  | TSetStatus n v id => (commit ds (SetNodeStatus ds n v id)).2
  | TDeleteStatus n => (DeleteNodeStatus ds n).2
  | TReplace n vs => (ReplaceNodeStatuses ds n vs).2
  | TLatest n => (LatestNodeStatus ds n).2
  | TSetLog v id => (commit ds (SetLogInfo ds v id)).2
  | TDeleteLog id => (commit ds (DeleteLogInfo ds id)).2
  | TPurge id => match PurgeLogInfoBefore ds id with Ok (_, ds') => ds' | _ => ds end
  end.

(** The replies to the object operations of a mixed sequence. *)
Fixpoint run_mixed ds (ops : list (cmd V + table_op V)) : list (reply V) :=
  match ops with
  | [] => []
  | inl c :: r => let '(a, ds') := run_cmd ds c in a :: run_mixed ds' r
  | inr op :: r => run_mixed (table_step ds op) r
  end.

Definition object_cmds (ops : list (cmd V + table_op V)) : list (cmd V) :=
  omap (λ op, match op with inl c => Some c | inr _ => None end) ops.

(** Stores with the same lists and, outside of the tables, the same cache. *)
Definition same_items ds ds' : Prop :=
  objList ds' = objList ds ∧
  ∀ key, key ∉ [nsKey; nsListKey; logKey] → dsc ds' !! key = dsc ds !! key.

Lemma same_items_put_ns ds ds' ns nslist : same_items ds ds' → same_items ds (putNs ds' ns nslist).
Proof.
  intros [E1 E2]. split; [done|]. intros key Hk. rewrite <-E2 by done. simpl.
  rewrite !lookup_insert_ne; set_solver.
Qed.

Lemma same_items_put_log ds m : same_items ds (setLogInfoMap ds m).
Proof. split; [done|]. intros key Hk. simpl. rewrite lookup_insert_ne; set_solver. Qed.

Lemma same_items_delete ds ds' n : deleteStatuses (touch ds) n = Ok ds' → same_items ds ds'.
Proof.
  unfold deleteStatuses. intros Hd. inv_ok. case_match; [|done]. inv_ok.
  case_match; [|done]. inv_ok. by apply (same_items_put_ns ds (touch ds)).
Qed.

Lemma table_step_items ds op : same_items ds (table_step ds op).
Proof.
  assert (same_items ds ds) as Hrefl by done.
  assert (same_items ds (touch ds)) as Htouch by done.
  destruct op as [n v id|n|n vs|n|v id|id|id]; simpl.
  - destruct (SetNodeStatus ds n v id) eqn:E; try done. unfold SetNodeStatus in E. inv_ok.
    by apply same_items_put_ns.
  - unfold DeleteNodeStatus. destruct (deleteStatuses _ _) eqn:E; try done.
    by eapply same_items_delete.
  - unfold ReplaceNodeStatuses. destruct (deleteStatuses _ _) as [ds1| |] eqn:E; try done. simpl.
    apply same_items_delete in E. destruct vs; [done|]. destruct (getNs ds1); try done. simpl.
    destruct (getNsList ds1); try done. simpl. destruct (replace_loop _ _ _ _).
    by apply same_items_put_ns.
  - unfold LatestNodeStatus. repeat (case_match; try done); simpl.
    all: split; [done|]; intros key Hk; simpl; rewrite lookup_insert_ne; set_solver.
  - unfold SetLogInfo. destruct (getLogInfoMap ds); try done. apply same_items_put_log.
  - unfold DeleteLogInfo. destruct (getLogInfoMap ds); try done. apply same_items_put_log.
  - unfold PurgeLogInfoBefore. destruct (getLogInfoMap ds); try done. apply same_items_put_log.
Qed.

Lemma makeKey_not_table t k : obj_type t = true → makeKey t k ∉ [nsKey; nsListKey; logKey].
Proof. intros Ht. destruct (makeKey_table t k Ht) as (?&?&?). set_solver. Qed.

Lemma same_items_wf ds ds' : same_items ds ds' → wf_items ds → wf_items ds'.
Proof.
  intros [E1 E2] Hw t k Ht. unfold listed. rewrite E1, E2 by by apply makeKey_not_table.
  by apply Hw.
Qed.

Lemma same_items_objects ds ds' : same_items ds ds' → same_objects ds' ds.
Proof.
  intros [E1 E2] t k Ht. simpl. unfold Get. by rewrite E2 by by apply makeKey_not_table.
Qed.

Lemma run_mixed_refines ds (m : absStore V) ops :
  wf_items ds → st_inv m → same_objects ds m → typed_cmds (object_cmds ops) = true →
  run_mixed ds ops = run_cmds m (object_cmds ops).
Proof.
  revert ds m. induction ops as [|[c|op] ops IH]; intros ds m Hw Hm Hs Ht; [done| |].
  - simpl in Ht. apply andb_true_iff in Ht as [Hc Ht]. simpl.
    destruct (same_objects_step (L1 := DataStore_laws) (L2 := absStore_laws) ds m c Hw Hm Hs Hc) as (Ha & Hw' & Hm' & Hs').
    destruct (run_cmd ds c), (run_cmd m c). simpl in *. subst. f_equal. by apply IH.
  - simpl. pose proof (table_step_items ds op) as Hi. apply IH; [|done| |done].
    + by eapply same_items_wf.
    + intros t k Htk. rewrite (same_items_objects _ _ Hi t k Htk). by apply Hs.
Qed.
End mixed.

(** * The tables as an interface *)

(** What the packages node and loginfo use of the status and log tables. *)
Class TableOps (S V : Type) := {
  tb_set_status : S → string → V → outcome S;
  tb_statuses : S → string → outcome (list V);
  tb_latest : S → string → outcome V * S;
  tb_replace : S → string → list V → outcome () * S;
  tb_delete_status : S → string → outcome () * S;
  tb_set_log : S → V → option Z → outcome S;
  tb_log : S → Z → outcome V;
  tb_logs : S → outcome (gmap Z V);
  tb_delete_log : S → Z → outcome S;
  tb_purge : S → Z → outcome (Z * S);
}.

(** Stores of which one has the invariant and the objects of the other. *)
Definition keeps_objects {S V} `{Gob V} {O : StoreOps S V} {L : StoreLaws S V} (s s' : S) : Prop :=
  st_inv s → st_inv s' ∧ same_objects s' s.

(** Whatever happens to the tables, the objects stay. *)
Class TableLaws (S V : Type) `{Gob V} {O : StoreOps S V} {L : StoreLaws S V} {TB : TableOps S V} : Prop := {
  tb_set_status_keeps s n v s' : tb_set_status s n v = Ok s' → keeps_objects s s';
  tb_latest_keeps s n : keeps_objects s (tb_latest s n).2;
  tb_replace_keeps s n vs : keeps_objects s (tb_replace s n vs).2;
  tb_delete_status_keeps s n : keeps_objects s (tb_delete_status s n).2;
  tb_set_log_keeps s v i s' : tb_set_log s v i = Ok s' → keeps_objects s s';
  tb_delete_log_keeps s i s' : tb_delete_log s i = Ok s' → keeps_objects s s';
  tb_purge_keeps s i n s' : tb_purge s i = Ok (n, s') → keeps_objects s s';
}.

#[export] Instance DataStore_tables {V} `{Gob V} : TableOps (DataStore V) V := {|
  tb_set_status ds n v := SetNodeStatus ds n v None;
  tb_statuses := AllNodeStatuses; tb_latest := LatestNodeStatus;
  tb_replace := ReplaceNodeStatuses; tb_delete_status := DeleteNodeStatus;
  tb_set_log := SetLogInfo; tb_log := GetLogInfo; tb_logs := GetLogInfoList;
  tb_delete_log := DeleteLogInfo; tb_purge := PurgeLogInfoBefore |}.

Lemma table_step_keeps {V} `{Gob V} (ds : DataStore V) op : keeps_objects ds (table_step ds op).
Proof.
  intros Hw. pose proof (table_step_items ds op) as Hi. split.
  - by eapply same_items_wf.
  - by apply same_items_objects.
Qed.

#[export] Instance DataStore_table_laws {V} `{Gob V} : TableLaws (DataStore V) V.
Proof.
  split; simpl.
  - intros ds n v ds' E. pose proof (table_step_keeps ds (TSetStatus n v None)) as Hk. simpl in Hk. by rewrite E in Hk.
  - intros ds n. exact (table_step_keeps ds (TLatest n)).
  - intros ds n vs. exact (table_step_keeps ds (TReplace n vs)).
  - intros ds n. exact (table_step_keeps ds (TDeleteStatus n)).
  - intros ds v i ds' E. pose proof (table_step_keeps ds (TSetLog v i)) as Hk. simpl in Hk. by rewrite E in Hk.
  - intros ds i ds' E. pose proof (table_step_keeps ds (TDeleteLog i)) as Hk. simpl in Hk. by rewrite E in Hk.
  - intros ds i n ds' E. pose proof (table_step_keeps ds (TPurge i)) as Hk. simpl in Hk. by rewrite E in Hk.
Qed.

(** * Properties of the data store *)

(** C9: from the empty store, any sequence of [Set], [Get], [Delete] and
    [GetList] on object types, interleaved with any operations on the node
    status and event log tables, gets exactly the replies of an abstract
    finite map from (type, key) to encoded values; in particular no operation
    panics and [GetList] is the sorted list of the live keys. *)
Theorem datastore_refines_map {V} `{Gob V} (ops : list (cmd V + table_op V)) :
  typed_cmds (object_cmds ops) = true →
  run_mixed initDataStore ops = run_cmds (∅ : absStore V) (object_cmds ops).
Proof.
  intros Ht. apply run_mixed_refines; [apply init_wf| |intros t k _; simpl|done].
  - intros t k v. by rewrite lookup_empty.
  - unfold Get. simpl. by rewrite !lookup_empty.
Qed.

(** Objects with one field that [gob] does not keep, for concrete runs. *)
#[local] Instance demo_gob : Gob (string * bool) := {| gob v := (v.1, false); gob_idemp _ := eq_refl |}.

Lemma datastore_refines_map_witness :
  run_mixed initDataStore
    [inl (CmdSet "node" "b" ("x", true)); inr (TSetStatus "b" ("up", true) None);
     inl (CmdSet "node" "a" ("y", false)); inl (CmdSet "role" "a" ("z", false));
     inl (CmdDelete "role" "a"); inl (CmdGetList "node"); inl (CmdGet "node" "b")]
  = [RDone; RDone; RDone; RDone; RKeys (Ok ["a"; "b"]); RValue (Ok (Some ("x", false)))].
Proof.
  rewrite datastore_refines_map; [vm_compute; reflexivity|vm_compute; reflexivity].
Defined.

(** A status recorded for a node goes to the end of that node's history
    and becomes its latest one, the histories of all other nodes stay, and
    the stored objects are untouched, as long as the id counter has room. *)
Theorem set_node_status_history {V} `{Gob V} (ds : DataStore V) n v :
  wf_nodes ds → ids_room 1 (tables ds).1 →
  ∃ ds', SetNodeStatus ds n v None = Ok ds' ∧ wf_nodes ds' ∧ same_objects ds' ds ∧
    AllNodeStatuses ds' n = Ok (history ds n ++ [gob v]) ∧
    (∀ n', n' ≠ n → AllNodeStatuses ds' n' = Ok (history ds n')) ∧
    (LatestNodeStatus ds' n).1 = Ok (gob v).
Proof.
  intros Hw Hr. destruct (SetNodeStatus_spec ds n v Hw Hr) as (ds' & E & Hne & Hw' & Hh).
  exists ds'. split_and!; [done..| | | |].
  - pose proof (same_items_objects _ _ (table_step_items ds (TSetStatus n v None))) as Hs.
    simpl in Hs. by rewrite E in Hs.
  - rewrite AllNodeStatuses_tables, Hh by done. by rewrite bool_decide_eq_true_2.
  - intros n' Hn. rewrite AllNodeStatuses_tables, Hh by done. by rewrite bool_decide_eq_false_2.
  - rewrite SetNodeStatus_eq in E by done. injection E as <-.
    assert (1 ≤ 1 ≤ max_int64)%Z as Hk by (unfold max_int64; lia).
    pose proof (getNextID_above _ 1 Hk Hr) as [_ Hab].
    eapply LatestNodeStatus_max in Hw' as (i & w & Hin & Hmax & Hl & ->);
      [|by rewrite (proj2 (proj2 (get_putNs _ _ _))); apply lookup_insert_eq].
    rewrite (proj2 (proj2 (get_putNs _ _ _))) in Hl. simpl in Hl.
    destruct (wf_tables_get ds Hw) as [Hs _].
    assert (i = getNextID (tables ds).1) as ->.
    { apply elem_of_app in Hin as [Hin|Hin%list_elem_of_singleton]; [|done].
      specialize (Hab i (ws_some _ _ Hs n i Hin)). specialize (Hmax (getNextID (tables ds).1)).
      set_unfold. lia. }
    rewrite lookup_insert_eq in Hl. by simplify_eq.
Qed.

Lemma set_node_status_history_witness :
  ∃ ds', SetNodeStatus initDataStore "web1" ("up", true) None = Ok ds' ∧
    AllNodeStatuses ds' "web1" = Ok [("up", false)].
Proof.
  destruct (set_node_status_history initDataStore "web1" ("up", true))
    as (ds' & E & _ & _ & Ha & _); [done| |by exists ds'].
  intros i [v Hv]. change ((∅ : gmap Z (string * bool)) !! i = Some v) in Hv.
  by rewrite lookup_empty in Hv.
Defined.

(** Replacing the statuses of a node that the store knows statuses of
    leaves exactly the given ones in the given order, whatever was there
    before, and does not change the history of any other node. *)
Theorem replace_node_statuses_history {V} `{Gob V} (ds : DataStore V) n objs :
  wf_nodes ds → getNs ds ≠ Ok None → (Z.of_nat (length objs) ≤ max_int64)%Z →
  ids_room (Z.of_nat (length objs)) (tables ds).1 →
  ∃ ds', ReplaceNodeStatuses ds n objs = (Ok (), ds') ∧ wf_nodes ds' ∧
    AllNodeStatuses ds' n = Ok (map gob objs) ∧
    ∀ n', n' ≠ n → AllNodeStatuses ds' n' = Ok (history ds n').
Proof.
  intros Hw Hne Hl Hr.
  destruct (ReplaceNodeStatuses_spec ds n objs (Z.of_nat (length objs)) Hw Hne ltac:(lia) Hr)
    as (ds' & E & Hne' & Hw' & _ & Hh).
  exists ds'. split_and!; [done..| |].
  - rewrite AllNodeStatuses_tables, Hh by done. by rewrite bool_decide_eq_true_2.
  - intros n' Hn. rewrite AllNodeStatuses_tables, Hh by done. by rewrite bool_decide_eq_false_2.
Qed.

(** A store with one recorded status. *)
Definition demo_status : DataStore (string * bool) :=
  putNs initDataStore {[1%Z := ("up", false)]} {["web1" := [1%Z]]}.

Lemma replace_node_statuses_history_witness :
  ∃ ds', ReplaceNodeStatuses demo_status "web1" [("down", true); ("up", true)]
           = (Ok (), ds') ∧
    AllNodeStatuses ds' "web1" = Ok [("down", false); ("up", false)].
Proof.
  destruct (replace_node_statuses_history demo_status "web1"
    [("down", true); ("up", true)]) as (ds' & E & _ & Ha & _).
  - apply putNs_nodes, wf_status_intro_single.
  - by vm_compute.
  - unfold max_int64. simpl. lia.
  - intros i [v Hv]. change (({[1%Z := ("up", false)]} : gmap Z (string * bool)) !! i = Some v) in Hv.
    apply lookup_singleton_Some in Hv as [<- _]. unfold min_int64, max_int64. simpl. lia.
  - by exists ds'.
Defined.

(** Purging the event log at an id removes exactly the events with that
    id or a smaller one: the later ones can still be read and nothing else
    can, the count reported is the number removed, and the stored objects
    are untouched. *)
Theorem purge_log_exact {V} `{Gob V} (ds : DataStore V) id :
  wf_log ds →
  ∃ arr purged ds', getLogInfoMap ds = Ok arr ∧ PurgeLogInfoBefore ds id = Ok (wrap64 purged, ds') ∧
    (∀ i, is_ok (GetLogInfo ds' i) = is_ok (GetLogInfo ds i) && (id <? i)%Z) ∧
    (∀ i, (id < i)%Z → GetLogInfo ds' i = GetLogInfo ds i) ∧
    (∃ arr', getLogInfoMap ds' = Ok arr' ∧ (purged + Z.of_nat (size arr') = Z.of_nat (size arr))%Z) ∧
    same_objects ds' ds.
Proof.
  intros Hw. destruct (wf_log_get ds Hw) as (arr & E & Hg).
  unfold PurgeLogInfoBefore. rewrite E. simpl. eexists arr, _, _. split_and!; [done..| | | |].
  - intros i. unfold GetLogInfo. rewrite get_setLog, E. simpl. rewrite lookup_fmap.
    destruct (id <? i)%Z eqn:Hi.
    + apply Z.ltb_lt in Hi. rewrite map_lookup_filter. destruct (arr !! i); simpl; [|done].
      by rewrite option_guard_True.
    + apply Z.ltb_ge in Hi. rewrite map_lookup_filter. destruct (arr !! i); simpl; [|done].
      rewrite option_guard_False by (simpl; lia). done.
  - intros i Hi. unfold GetLogInfo. rewrite get_setLog, E. simpl. rewrite lookup_fmap, map_lookup_filter.
    destruct (arr !! i) as [v|] eqn:Ei; simpl; [|done]. rewrite option_guard_True by done.
    simpl. by rewrite (Hg i v).
  - rewrite get_setLog. eexists. split; [done|]. rewrite map_size_fmap.
    rewrite <-Nat2Z.inj_add, Nat.add_comm. f_equal. apply map_size_filter_split.
  - apply setLog_objects.
Qed.

(** An event log with the events 1, 2 and 5. *)
Definition demo_log : DataStore (string * bool) :=
  setLogInfoMap initDataStore
    (<[1%Z := ("a", false)]> (<[2%Z := ("b", false)]> {[5%Z := ("c", false)]})).

Lemma purge_log_exact_witness :
  ∃ p ds', PurgeLogInfoBefore demo_log 2 = Ok (p, ds') ∧ is_ok (GetLogInfo ds' 2) = false ∧
    GetLogInfo ds' 5 = Ok ("c", false).
Proof.
  destruct (purge_log_exact demo_log 2) as (arr & purged & ds' & Ea & E & Hd & Hk & _).
  - apply setLog_wf, init_wf.
  - exists (wrap64 purged), ds'. split_and!; [done| |].
    + rewrite Hd. by vm_compute.
    + rewrite Hk by lia. by vm_compute.
Defined.
