(* ===== verification/UtilStrings.v ===== *)
(** String slices and trimming (src/util/strings.go).

    [RemoveDupStrings] deletes in place while it ranges over the slice, so the
    model keeps the backing array and the current length apart.  Trimming
    counts runes, so the model decodes UTF-8. *)
From S2P Require Import Prelude.

(** * Deleting from a slice in place *)

(** A slice: a backing array and how much of it is live. *)
Record slice : Type := Slice { backing : list string; len : nat }.

Definition live (s : slice) : list string := take (len s) (backing s).

(** [append(strs[:pos], strs[pos+skip:]...)]: the tail moves down inside the
    backing array, which keeps what lies behind the new end. *)
Definition delTwoPosElements (pos skip : nat) (strs : slice) : slice :=
  {| backing := take pos (backing strs) ++ drop (pos + skip) (live strs)
                ++ drop (len strs - skip) (backing strs);
     len := len strs - skip |}.

Definition DelSliceElement (pos : nat) (strs : slice) : slice :=
  delTwoPosElements pos 1 strs.

(** The inner loop: how many of the elements after [i] equal [v]. *)
Fixpoint count_dups (v : string) (l : list string) : nat :=
  match l with
  | [] => 0
  | w :: r => if bool_decide (v = w) then S (count_dups v r) else 0
  end.

(** The outer loop ranges over the slice as it was; [k] indexes remain. *)
Fixpoint dup_loop (k i : nat) (strs : slice) : slice :=
  match k with
  | O => strs
  | S k =>
      if bool_decide (len strs < i) then strs
      else
        let v := default EmptyString (backing strs !! i) in
        let s := count_dups v (drop (i + 1) (live strs)) in
        dup_loop k (i + 1) (if bool_decide (s = 0) then strs else delTwoPosElements (i + 1) s strs)
  end.

Definition RemoveDupStrings (strs : list string) : list string :=
  live (dup_loop (length strs) 0 {| backing := strs; len := length strs |}).

(** * Runes *)

Definition replacement : string :=
  String (Ascii.ascii_of_nat 239) (String (Ascii.ascii_of_nat 191)
    (String (Ascii.ascii_of_nat 189) EmptyString)).

(** How many continuation bytes a first byte asks for, and the range of the
    first of them; [None] for a byte that starts no rune. *)
Definition rune_head (c : ascii) : option (nat * Z * Z) :=
  if in_range 0 127 c then Some (0%nat, 128%Z, 191%Z)
  else if in_range 194 223 c then Some (1%nat, 128%Z, 191%Z)
  else if in_range 224 224 c then Some (2%nat, 160%Z, 191%Z)
  else if in_range 237 237 c then Some (2%nat, 128%Z, 159%Z)
  else if in_range 225 239 c then Some (2%nat, 128%Z, 191%Z)
  else if in_range 240 240 c then Some (3%nat, 144%Z, 191%Z)
  else if in_range 241 243 c then Some (3%nat, 128%Z, 191%Z)
  else if in_range 244 244 c then Some (3%nat, 128%Z, 143%Z)
  else None.

(** Read [n] continuation bytes, the first in the given range. *)
Fixpoint rune_tail (n : nat) (lo hi : Z) (s : string) : option (string * string) :=
  match n, s with
  | O, _ => Some (EmptyString, s)
  | S n, String c r =>
      if in_range lo hi c then
        match rune_tail n 128 191 r with
        | Some (a, b) => Some (String c a, b)
        | None => None
        end
      else None
  | S _, EmptyString => None
  end.

(** [[]rune(s)], each rune written in UTF-8: a byte that is not part of a valid
    encoding is the replacement rune. *)
Definition next_rune (c : ascii) (r : string) : string * string :=
  match rune_head c with
  | Some (n, lo, hi) =>
      match rune_tail n lo hi r with
      | Some (a, b) => (String c a, b)
      | None => (replacement, r)
      end
  | None => (replacement, r)
  end.

Fixpoint runes_fuel (fuel : nat) (s : string) : list string :=
  match fuel, s with
  | S fuel, String c r => let '(u, b) := next_rune c r in u :: runes_fuel fuel b
  | _, _ => []
  end.

Definition runes (s : string) : list string := runes_fuel (String.length s) s.

Definition TrimStringMax (s : string) (strLength : Z) : string :=
  if (strLength <=? 0)%Z then s
  else
    let r := runes s in
    if (strLength <? Z.of_nat (length r))%Z
    then str_join EmptyString (take (Z.to_nat strLength) r)
    else s.

(** * Lemmas: duplicates *)

(** The reference: drop an element equal to the one before it. *)
Fixpoint adj_dedup (l : list string) : list string :=
  match l with
  | v :: ((w :: _) as r) => if bool_decide (v = w) then adj_dedup r else v :: adj_dedup r
  | _ => l
  end.

Lemma adj_dedup_cons v l : adj_dedup (v :: l) = v :: adj_dedup (drop (count_dups v l) l).
Proof.
  induction l as [|w l IH]; [done|]. simpl. case_bool_decide as E; [subst w|done].
  simpl. rewrite <-IH. done.
Qed.

Lemma adj_dedup_elem x l : x ∈ adj_dedup l ↔ x ∈ l.
Proof.
  induction l as [|v l IH]; [done|]. destruct l as [|w l]; [done|].
  change (adj_dedup (v :: w :: l)) with
    (if bool_decide (v = w) then adj_dedup (w :: l) else v :: adj_dedup (w :: l)).
  case_bool_decide; subst; set_solver.
Qed.

Lemma adj_dedup_sorted l :
  StronglySorted String.le l → StronglySorted String.le (adj_dedup l) ∧ NoDup (adj_dedup l).
Proof.
  induction l as [|v l IH]; [repeat constructor|]. destruct l as [|w l]; intros Hs.
  { split; [done|apply NoDup_singleton]. }
  change (adj_dedup (v :: w :: l)) with
    (if bool_decide (v = w) then adj_dedup (w :: l) else v :: adj_dedup (w :: l)).
  apply StronglySorted_inv in Hs as [Hs Hf]. destruct (IH Hs) as [IH1 IH2].
  case_bool_decide as E; [done|].
  assert (∀ x, x ∈ adj_dedup (w :: l) → String.le v x) as Hle.
  { intros x Hx. rewrite adj_dedup_elem in Hx. rewrite Forall_forall in Hf. by apply Hf. }
  split.
  - constructor; [done|]. by apply Forall_forall.
  - constructor; [|done]. rewrite adj_dedup_elem. intros Hv. apply E.
    apply (anti_symm String.le).
    + rewrite Forall_forall in Hf. apply Hf. set_solver.
    + apply StronglySorted_inv in Hs as [_ Hf']. apply elem_of_cons in Hv as [->|Hv]; [done|].
      rewrite Forall_forall in Hf'. by apply Hf'.
Qed.

Lemma count_dups_le v l : count_dups v l ≤ length l.
Proof. induction l as [|w l IH]; simpl; [lia|]. case_bool_decide; lia. Qed.

(** One deletion, on a slice whose live part is known. *)
Lemma live_del pre v rest s strs :
  live strs = pre ++ v :: rest → len strs ≤ length (backing strs) → s ≤ length rest →
  live (delTwoPosElements (length pre + 1) s strs) = pre ++ v :: drop s rest ∧
  length (backing (delTwoPosElements (length pre + 1) s strs)) = length (backing strs) ∧
  len (delTwoPosElements (length pre + 1) s strs) ≤ length (backing strs).
Proof.
  intros Hl Hb Hs. unfold delTwoPosElements. rewrite Hl.
  assert (len strs = length pre + S (length rest)) as Hn.
  { apply (f_equal length) in Hl. unfold live in Hl.
    rewrite length_take, length_app in Hl. simpl in Hl. lia. }
  assert (take (length pre + 1) (backing strs) = pre ++ [v]) as Ht.
  { transitivity (take (length pre + 1) (live strs)).
    - unfold live. rewrite take_take. f_equal. lia.
    - rewrite Hl, take_app_add. done. }
  assert (drop (length pre + 1 + s) (pre ++ v :: rest) = drop s rest) as Hd.
  { rewrite <-drop_drop, drop_app_add. by rewrite drop_drop. }
  rewrite Ht, Hd. unfold live. simpl. rewrite <-!app_assoc. split_and!.
  - rewrite app_assoc, app_assoc, take_app_le by (rewrite !length_app, length_drop; simpl; lia).
    rewrite take_ge by (rewrite !length_app, length_drop; simpl; lia).
    by rewrite <-app_assoc.
  - rewrite !length_app, !length_drop. simpl. lia.
  - lia.
Qed.

Lemma dup_loop_spec k pre suf strs :
  live strs = pre ++ suf → len strs ≤ length (backing strs) → length suf ≤ k →
  live (dup_loop k (length pre) strs) = pre ++ adj_dedup suf.
Proof.
  revert pre suf strs. induction k as [|k IH]; intros pre suf strs Hl Hb Hk; simpl.
  { destruct suf; [|simpl in Hk; lia]. by rewrite Hl. }
  assert (len strs = length pre + length suf) as Hn.
  { apply (f_equal length) in Hl. unfold live in Hl. rewrite length_take, length_app in Hl. lia. }
  rewrite bool_decide_eq_false_2 by lia. rewrite Hl.
  destruct suf as [|v rest].
  - rewrite app_nil_r in *. rewrite drop_ge by lia. simpl.
    clear IH Hk.
    assert (∀ k' i strs', length (live strs') ≤ i → live strs' = live strs →
      live (dup_loop k' i strs') = live strs) as Hdone.
    { induction k' as [|k' IHk]; intros i strs' Hi He; simpl; [done|].
      case_bool_decide; [done|]. rewrite drop_ge by lia. simpl. apply IHk; [lia|done]. }
    rewrite app_nil_r, <-Hl. apply Hdone; [lia|done].
  - assert (backing strs !! length pre = Some v) as Hv.
    { transitivity (live strs !! length pre).
      - unfold live. by rewrite lookup_take_lt by (simpl in Hn; lia).
      - rewrite Hl. rewrite lookup_app_r, Nat.sub_diag by lia. done. }
    rewrite adj_dedup_cons, Hv, <-drop_drop, drop_app_length.
    change (drop 1 (v :: rest)) with rest. simpl in Hk. change (default EmptyString (Some v)) with v.
    replace (length pre + 1) with (length (pre ++ [v])) by (rewrite length_app; done).
    replace (pre ++ v :: adj_dedup (drop (count_dups v rest) rest))
      with ((pre ++ [v]) ++ adj_dedup (drop (count_dups v rest) rest)) by (by rewrite <-app_assoc).
    pose proof (count_dups_le v rest). case_bool_decide as E.
    + rewrite E, drop_0. apply IH; [by rewrite <-app_assoc|done|lia].
    + rewrite length_app. simpl.
      destruct (live_del pre v rest (count_dups v rest) strs) as (H1 & H2 & H3); [done..|].
      replace (length pre + 1) with (length (pre ++ [v])) in * by (rewrite length_app; done).
      apply IH; [by rewrite H1, <-app_assoc|by rewrite H2|]. rewrite length_drop. lia.
Qed.

(** The in-place loop computes the reference, on any input. *)
Lemma RemoveDupStrings_adj l : RemoveDupStrings l = adj_dedup l.
Proof.
  unfold RemoveDupStrings. apply (dup_loop_spec _ []); simpl; [|lia|lia].
  unfold live. simpl. by rewrite firstn_all.
Qed.

(** * Lemmas: runes *)

Lemma rune_tail_app n lo hi s a b :
  rune_tail n lo hi s = Some (a, b) → s = a +:+ b ∧ ∀ t, rune_tail n lo hi (a +:+ t) = Some (a, t).
Proof.
  revert lo hi s a b. induction n as [|n IH]; intros lo hi s a b; simpl.
  { intros [= <- <-]. done. }
  destruct s as [|c r]; [done|]. destruct (in_range lo hi c) eqn:E; [|done].
  destruct (rune_tail n 128 191 r) as [[a' b']|] eqn:E'; [|done]. intros [= <- <-].
  apply IH in E' as [-> Ht]. split; [done|]. intros t. simpl. rewrite E.
  fold (String.append a' t). change (String.append a' t) with (a' +:+ t). by rewrite Ht.
Qed.

(** A chunk that [runes] cuts off stays a chunk whatever follows it. *)
Definition chunk (u : string) : Prop :=
  match u with EmptyString => False | String c r => ∀ t, next_rune c (r +:+ t) = (u, t) end.

Lemma next_rune_chunk c r : chunk (next_rune c r).1.
Proof.
  assert (chunk replacement) as Hrep by done.
  unfold next_rune. destruct (rune_head c) as [[[n lo] hi]|] eqn:E; [|done].
  destruct (rune_tail n lo hi r) as [[a b]|] eqn:E'; [|done].
  intros t. unfold next_rune. rewrite E. apply rune_tail_app in E' as [_ ->]. done.
Qed.

Lemma next_rune_length c r : String.length (next_rune c r).2 ≤ String.length r.
Proof.
  unfold next_rune. destruct (rune_head c) as [[[n lo] hi]|]; [|done].
  destruct (rune_tail n lo hi r) as [[a b]|] eqn:E'; [|done].
  apply rune_tail_app in E' as [-> _]. simpl. rewrite str_length_app. lia.
Qed.

Lemma runes_fuel_chunks fuel s : Forall chunk (runes_fuel fuel s).
Proof.
  revert s. induction fuel as [|fuel IH]; intros s; [constructor|]. destruct s as [|c r]; [constructor|].
  simpl. pose proof (next_rune_chunk c r). destruct (next_rune c r). constructor; [done|apply IH].
Qed.

Lemma runes_fuel_mono fuel fuel' s :
  String.length s ≤ fuel → String.length s ≤ fuel' → runes_fuel fuel s = runes_fuel fuel' s.
Proof.
  revert fuel' s. induction fuel as [|fuel IH]; intros fuel' s Hf Hf'.
  { destruct s; [by destruct fuel'|simpl in Hf; lia]. }
  destruct s as [|c r]; [by destruct fuel'|]. destruct fuel' as [|fuel']; [simpl in Hf'; lia|].
  simpl in *. pose proof (next_rune_length c r). destruct (next_rune c r) as [u b]. simpl in *.
  f_equal. apply IH; lia.
Qed.

Lemma runes_chunk u t : chunk u → runes (u +:+ t) = u :: runes t.
Proof.
  destruct u as [|c r]; [done|]. intros Hc. unfold runes. rewrite str_app_cons. simpl.
  rewrite Hc. f_equal. apply runes_fuel_mono; [|done]. rewrite str_length_app. lia.
Qed.

Lemma runes_join l : Forall chunk l → runes (str_join EmptyString l) = l.
Proof.
  induction 1 as [|u l Hu Hl IH]; [done|]. destruct l as [|w l].
  - simpl. rewrite <-(str_app_nil_r u) at 1. by rewrite runes_chunk.
  - change (str_join EmptyString (u :: w :: l)) with (u +:+ str_join EmptyString (w :: l)).
    by rewrite runes_chunk, IH.
Qed.

(** * Properties *)

(** On a sorted slice, the in-place [RemoveDupStrings] returns the
    strictly increasing list of the distinct elements, none lost and none
    added; on any slice it drops exactly the elements equal to their
    predecessor. *)
Theorem RemoveDupStrings_sorted (l : list string) :
  StronglySorted String.le l →
  StronglySorted String.le (RemoveDupStrings l) ∧ NoDup (RemoveDupStrings l) ∧
  (∀ x, x ∈ RemoveDupStrings l ↔ x ∈ l) ∧ RemoveDupStrings l = adj_dedup l.
Proof.
  intros Hs. rewrite RemoveDupStrings_adj. pose proof (adj_dedup_sorted l Hs) as [??].
  split_and!; [done..| |done]. intros x. apply adj_dedup_elem.
Qed.

Lemma RemoveDupStrings_sorted_witness :
  RemoveDupStrings ["a"; "a"; "b"; "c"; "c"; "c"] = ["a"; "b"; "c"].
Proof.
  destruct (RemoveDupStrings_sorted ["a"; "a"; "b"; "c"; "c"; "c"]) as (_ & _ & _ & ->);
    [|vm_compute; reflexivity].
  repeat (constructor; [|repeat (constructor; [vm_compute; exact I|]); constructor]). constructor.
Defined.

(** Trimming leaves a string of at most the given number of runes
    unchanged (and every string when the limit is not positive), cuts a longer
    one to exactly that many runes, never splits a rune, and trimming again
    does nothing. *)
Theorem TrimStringMax_runes (s : string) (n : Z) :
  (if ((n <=? 0) || (Z.of_nat (length (runes s)) <=? n))%Z
   then TrimStringMax s n = s
   else runes (TrimStringMax s n) = take (Z.to_nat n) (runes s) ∧
        Z.of_nat (length (runes (TrimStringMax s n))) = n) ∧
  TrimStringMax (TrimStringMax s n) n = TrimStringMax s n.
Proof.
  unfold TrimStringMax. destruct (n <=? 0)%Z eqn:E; simpl; [done|].
  apply Z.leb_gt in E.
  destruct (n <? Z.of_nat (length (runes s)))%Z eqn:E2.
  - apply Z.ltb_lt in E2. rewrite (proj2 (Z.leb_gt _ _)) by lia.
    rewrite runes_join by (apply Forall_take, runes_fuel_chunks).
    rewrite length_take. replace (n <? _)%Z with false by (symmetry; apply Z.ltb_ge; lia).
    split; [|done]. split; [done|lia].
  - apply Z.ltb_ge in E2. rewrite (proj2 (Z.leb_le _ _)) by lia.
    split; [done|]. by rewrite (proj2 (Z.ltb_ge _ _)) by lia.
Qed.
