(* ===== verification/Objects.v ===== *)
(** The objects the data store holds (the structs of the packages filestore,
    cookbook, node, role, environment, databag, client, user, sandbox, actor,
    loginfo, report and shovey), and what gob encoding keeps of them.

    Fields that only the SQL back ends use ([id], [cookbookID],
    [numVersions], [dataBagID], [origName]) are left out.  A struct field is named after the struct it
    belongs to. *)
From S2P Require Import Prelude Gerror Iface Store.

(** A file: its checksum and its contents; a nil and an empty contents are
    the same. *)
Record FileStore : Type := { fs_Chksum : string; fs_Data : string }.

(** A cookbook division: a slice of maps, each describing a file. *)
Abbreviation division := (list (list (string * iface))).

Record CookbookVersion : Type := {
  cbv_CookbookName : string;
  cbv_Name : string;
  cbv_Version : string;
  cbv_ChefType : string;
  cbv_JSONClass : string;
  cbv_Definitions : division;
  cbv_Libraries : division;
  cbv_Attributes : division;
  cbv_Recipes : division;
  cbv_Providers : division;
  cbv_Resources : division;
  cbv_Templates : division;
  cbv_RootFiles : division;
  cbv_Files : division;
  cbv_IsFrozen : bool;
  cbv_Metadata : jmap;
}.

(** A cookbook: its versions by version string, and the unexported cache of
    the latest one. *)
Record Cookbook : Type := {
  cb_Name : string;
  cb_Versions : list (string * CookbookVersion);
  cb_latest : option CookbookVersion;
}.

Record Node : Type := {
  n_Name : string;
  n_ChefEnvironment : string;
  n_RunList : list string;
  n_JSONClass : string;
  n_ChefType : string;
  n_Automatic : jmap;
  n_Normal : jmap;
  n_Default : jmap;
  n_Override : jmap;
  n_isDown : bool;
}.

Record Role : Type := {
  r_Name : string;
  r_ChefType : string;
  r_JSONClass : string;
  r_RunList : list string;
  r_EnvRunLists : list (string * list string);
  r_Description : string;
  r_Default : jmap;
  r_Override : jmap;
}.

Record ChefEnvironment : Type := {
  e_Name : string;
  e_ChefType : string;
  e_JSONClass : string;
  e_Description : string;
  e_Default : jmap;
  e_Override : jmap;
  e_CookbookVersions : list (string * string);
}.

Record DataBagItem : Type := {
  dbi_Name : string;
  dbi_ChefType : string;
  dbi_JSONClass : string;
  dbi_DataBagName : string;
  dbi_RawData : jmap;
}.

Record DataBag : Type := {
  db_Name : string;
  db_Items : list (string * DataBagItem);
}.

Record Client : Type := {
  c_Name : string;
  c_NodeName : string;
  c_JSONClass : string;
  c_ChefType : string;
  c_Validator : bool;
  c_Orgname : string;
  c_pubKey : string;
  c_Admin : bool;
  c_Certificate : string;
}.

Record User : Type := {
  u_Username : string;
  u_Name : string;
  u_Email : string;
  u_Admin : bool;
  u_pubKey : string;
  u_passwd : string;
  u_salt : string;
}.

(** Times are instants on one axis. *)
Record Sandbox : Type := {
  sb_ID : string;
  sb_CreationTime : Z;
  sb_Completed : bool;
  sb_Checksums : list string;
}.

(** A status report of a node; the report points to the node. *)
Record NodeStatus : Type := {
  ns_Node : Node;
  ns_Status : string;
  ns_UpdatedAt : Z;
}.

(** The actors: clients and users. *)
Inductive Actor : Type := AClient (c : Client) | AUser (u : User).

(** A logged event. *)
Record LogInfo : Type := {
  li_Actor : Actor;
  li_ActorInfo : string;
  li_ActorType : string;
  li_Time : Z;
  li_Action : string;
  li_ObjectType : string;
  li_ObjectName : string;
  li_ExtendedInfo : string;
  li_ID : Z;
}.

(** The report on a run of a chef client. *)
Record Report : Type := {
  rp_RunID : string;
  rp_StartTime : Z;
  rp_EndTime : Z;
  rp_TotalResCount : Z;
  rp_Status : string;
  rp_RunList : string;
  rp_Resources : list iface;
  rp_Data : jmap;
  rp_NodeName : string;
}.

(** A job pushed to nodes; [Timeout] is a duration made from a number of
    seconds without a conversion. *)
Record Shovey : Type := {
  sh_RunID : string;
  sh_NodeNames : list string;
  sh_Command : string;
  sh_CreatedAt : Z;
  sh_UpdatedAt : Z;
  sh_Status : string;
  sh_Timeout : Z;
  sh_Quorum : string;
}.

(** The run of a job on one node. *)
Record ShoveyRun : Type := {
  sr_ShoveyUUID : string;
  sr_NodeName : string;
  sr_Status : string;
  sr_AckTime : Z;
  sr_EndTime : Z;
  sr_Error : string;
  sr_ExitStatus : Z;
}.

(** A piece of the output of a run. *)
Record ShoveyRunStream : Type := {
  ss_ShoveyUUID : string;
  ss_NodeName : string;
  ss_Seq : Z;
  ss_OutputType : string;
  ss_Output : string;
  ss_IsLast : bool;
  ss_CreatedAt : Z;
}.

Inductive object : Type :=
| OFile (f : FileStore)
| OCookbook (c : Cookbook)
| ONode (n : Node)
| ORole (r : Role)
| OEnv (e : ChefEnvironment)
| ODataBag (d : DataBag)
| OClient (c : Client)
| OUser (u : User)
| OSandbox (s : Sandbox)
| OStatus (s : NodeStatus)
| OLog (l : LogInfo)
| OReport (r : Report)
| OShovey (s : Shovey)
| OShoveyRun (s : ShoveyRun)
| OShoveyRunStream (s : ShoveyRunStream).

(** Encoding drops the unexported fields [latest] and [isDown]; clients and
    users have their own encoding, which keeps all of theirs; that of reports
    leaves out the run list. *)
Definition gob_cookbook (c : Cookbook) : Cookbook :=
  {| cb_Name := cb_Name c; cb_Versions := cb_Versions c; cb_latest := None |}.

Definition gob_node (n : Node) : Node :=
  {| n_Name := n_Name n; n_ChefEnvironment := n_ChefEnvironment n; n_RunList := n_RunList n;
     n_JSONClass := n_JSONClass n; n_ChefType := n_ChefType n; n_Automatic := n_Automatic n;
     n_Normal := n_Normal n; n_Default := n_Default n; n_Override := n_Override n; n_isDown := false |}.

Definition gob_status (s : NodeStatus) : NodeStatus :=
  {| ns_Node := gob_node (ns_Node s); ns_Status := ns_Status s; ns_UpdatedAt := ns_UpdatedAt s |}.

Definition gob_report (r : Report) : Report :=
  {| rp_RunID := rp_RunID r; rp_StartTime := rp_StartTime r; rp_EndTime := rp_EndTime r;
     rp_TotalResCount := rp_TotalResCount r; rp_Status := rp_Status r; rp_RunList := EmptyString;
     rp_Resources := rp_Resources r; rp_Data := rp_Data r; rp_NodeName := rp_NodeName r |}.

Definition gob_object (o : object) : object :=
  match o with
  | OCookbook c => OCookbook (gob_cookbook c)
  | ONode n => ONode (gob_node n)
  | OStatus s => OStatus (gob_status s)
  | OReport r => OReport (gob_report r)
  | _ => o
  end.

#[export] Instance object_gob : Gob object.
Proof. refine {| gob := gob_object |}. by intros []. Defined.
