(* ===== verification/Filestore.v ===== *)
(** The file store (src/filestore/filestore.go) in memory: uploaded files under
    their checksums. *)
From S2P Require Import Prelude Gerror Iface Store Objects.

Section filestore.
  Context {S : Type} `{StoreOps S object}.
  (** The hexadecimal MD5 digest; the file store only compares it. *)
  Context (md5hex : string → string).
  Implicit Types (s : S) (chksum : string).

Definition not_found chksum : gerror := New ("File with checksum " +:+ chksum +:+ " not found").

(** [Get]: a stored object of another type fails the type assertion. *)
Definition Get s chksum : outcome FileStore :=
  o ← st_get s "filestore" chksum;
  match o with
  | None => Err (not_found chksum)
  | Some (OFile f) => Ok f
  | Some _ => Panic TypeAssertion
  end.

(** [io.ReadFull] of [n] bytes from a body: the bytes, or how many there
    were. *)
Definition ReadFull (body : string) (n : nat) : string + nat :=
  if (n <=? String.length body) then inl (String.substring 0 n body)
  else inr (String.length body).

(** [New]: [body] is what the reader delivers. *)
Definition New_ s chksum (body : string) (dataLength : Z) : outcome FileStore :=
  let f := Get s chksum in
  if (dataLength <? 0)%Z then Panic IndexOutOfRange
  else
    match f with
    | Panic p => Panic p
    | _ =>
        match ReadFull body (Z.to_nat dataLength) with
        | inr n =>
            Err (New ("Only read " +:+ itoa (Z.of_nat n) +:+ " bytes (out of " +:+ itoa dataLength
                      +:+ ", supposedly) from io.ReadCloser: "
                      +:+ (if bool_decide (n = 0) then "EOF" else "unexpected EOF")))
        | inl fileData =>
            let differs :=
              match f with Ok g => negb (bool_decide (fileData = fs_Data g)) | _ => false end in
            if differs then Err (New ("File with checksum " +:+ chksum +:+ " already exists."))
            else
              let verChksum := md5hex fileData in
              if negb (bool_decide (verChksum = chksum)) then
                Err (New ("Checksum " +:+ verChksum +:+ " did not match original " +:+ chksum +:+ "!"))
              else Ok {| fs_Chksum := chksum; fs_Data := fileData |}
        end
    end.

Definition Save s (f : FileStore) : S := st_set s "filestore" (fs_Chksum f) (OFile f).

Definition Delete s (f : FileStore) : S := st_del s "filestore" (fs_Chksum f).

Definition GetList s : outcome (list string) := st_list s "filestore".

(** The loop of [DeleteHashes]; a missing file is only logged. *)
Fixpoint DeleteHashes s (fileHashes : list string) : outcome S :=
  match fileHashes with
  | [] => Ok s
  | ff :: r =>
      match Get s ff with
      | Ok delFile => DeleteHashes (Delete s delFile) r
      | Err _ => DeleteHashes s r
      | Panic p => Panic p
      end
  end.

Fixpoint collect_files s (fileList : list string) : outcome (list FileStore) :=
  match fileList with
  | [] => Ok []
  | f :: r =>
      match Get s f with
      | Ok fl => rest ← collect_files s r; Ok (fl :: rest)
      | Err _ => collect_files s r
      | Panic p => Panic p
      end
  end.

Definition AllFilestores s : outcome (list FileStore) :=
  l ← GetList s; collect_files s l.

(** * The state of the file store *)

(** Every entry of the type is a file stored under its own checksum. *)
Definition files_wf s : Prop := ∀ k o,
  st_get s "filestore" k = Ok (Some o) → ∃ f, o = OFile f ∧ fs_Chksum f = k.

(** The contents of every file have the checksum they are stored under. *)
Definition content_addressed s : Prop := ∀ k f, Get s k = Ok f → md5hex (fs_Data f) = k.

(** Is there a file with this checksum? *)
Definition has_file s chksum : Prop := ∃ f, Get s chksum = Ok f.
End filestore.

Section filestore_facts.
  Context {S : Type} {O : StoreOps S object} {L : StoreLaws S object}.
  Implicit Types (s : S) (chksum : string).

Lemma filestore_type : obj_type "filestore" = true.
Proof. done. Qed.

Lemma Get_Ok s k f :
  files_wf s → Get s k = Ok f ↔ st_get s "filestore" k = Ok (Some (OFile f)) ∧ fs_Chksum f = k.
Proof.
  intros Hw. unfold Get. split.
  - intros Hg. apply bind_Ok in Hg as (o & Ho & Hg). repeat (case_match; simplify_eq/=). split; [done|].
    by apply Hw in Ho as (? & [= <-] & ?).
  - intros [-> _]. done.
Qed.

Lemma Get_cases s k :
  st_inv s → files_wf s →
  (∃ f, Get s k = Ok f) ∨ (Get s k = Err (not_found k) ∧ st_get s "filestore" k = Ok None).
Proof.
  intros Hi Hw. destruct (st_get_ok s "filestore" k Hi filestore_type) as [[o|] E].
  - destruct (Hw k o E) as (f & -> & _). left. exists f. unfold Get. by rewrite E.
  - right. unfold Get. by rewrite E.
Qed.

Lemma file_Get_Save s f k :
  st_inv s → Get (Save s f) k = if bool_decide (k = fs_Chksum f) then Ok f else Get s k.
Proof.
  intros Hi. unfold Get, Save. rewrite st_get_set by done.
  rewrite (bool_decide_ext _ (k = fs_Chksum f)) by tauto. by case_bool_decide.
Qed.

Lemma Get_Delete s f k :
  st_inv s → Get (Delete s f) k =
    if bool_decide (k = fs_Chksum f) then Err (not_found k) else Get s k.
Proof.
  intros Hi. unfold Get, Delete. rewrite st_get_del by done.
  rewrite (bool_decide_ext _ (k = fs_Chksum f)) by tauto. by case_bool_decide.
Qed.

Lemma file_Save_wf s f : st_inv s → files_wf s → files_wf (Save s f).
Proof.
  intros Hi Hw k o. unfold Save. rewrite st_get_set by done.
  case_bool_decide as E; [|apply Hw]. intros [= <-]. destruct E as [_ ->]. by exists f.
Qed.

Lemma Delete_files_wf s f : st_inv s → files_wf s → files_wf (Delete s f).
Proof. intros Hi Hw k o. unfold Delete. rewrite st_get_del by done. case_bool_decide; [done|apply Hw]. Qed.

(** Other types of objects are not touched. *)
Lemma Save_other s f t k :
  st_inv s → obj_type t = true → t ≠ "filestore" → st_get (Save s f) t k = st_get s t k.
Proof. intros ???. unfold Save. rewrite st_get_set by done. by rewrite bool_decide_eq_false_2 by naive_solver. Qed.

Lemma Delete_other s f t k :
  st_inv s → obj_type t = true → t ≠ "filestore" → st_get (Delete s f) t k = st_get s t k.
Proof. intros ???. unfold Delete. rewrite st_get_del by done. by rewrite bool_decide_eq_false_2 by naive_solver. Qed.

(** [DeleteHashes] always returns, removes exactly the given checksums and
    touches nothing else. *)
Lemma DeleteHashes_spec s hs :
  st_inv s → files_wf s →
  ∃ s', DeleteHashes s hs = Ok s' ∧ st_inv s' ∧ files_wf s' ∧
    (∀ k, Get s' k = if bool_decide (k ∈ hs) then Err (not_found k) else Get s k) ∧
    (∀ t k, obj_type t = true → t ≠ "filestore" → st_get s' t k = st_get s t k).
Proof.
  revert s. induction hs as [|h hs IH]; intros s Hi Hw; simpl; [by exists s|].
  destruct (Get_cases s h Hi Hw) as [[f Hf]|[He Hn]].
  - rewrite Hf. apply Get_Ok in Hf as [Hf Hc]; [|done].
    destruct (IH (Delete s f)) as (s' & -> & Hi' & Hw' & Hg & Ho);
      [by apply st_del_inv|by apply Delete_files_wf|].
    exists s'. split_and!; [done..| |].
    + intros k. rewrite Hg, Get_Delete, Hc by done.
      destruct (decide (k = h)) as [->|].
      * rewrite (bool_decide_eq_true_2 (h = h)), (bool_decide_eq_true_2 (h ∈ h :: hs)) by set_solver.
        by case_bool_decide.
      * rewrite (bool_decide_eq_false_2 (k = h)) by done.
        by rewrite (bool_decide_ext (k ∈ h :: hs) (k ∈ hs)) by set_solver.
    + intros t k Ht Hne. rewrite Ho by done. by apply Delete_other.
  - rewrite He. destruct (IH s Hi Hw) as (s' & -> & Hi' & Hw' & Hg & Ho).
    exists s'. split_and!; [done..| |done].
    intros k. rewrite Hg. destruct (decide (k = h)) as [->|].
    + rewrite (bool_decide_eq_true_2 (h ∈ h :: hs)) by set_solver. by case_bool_decide.
    + by rewrite (bool_decide_ext (k ∈ h :: hs) (k ∈ hs)) by set_solver.
Qed.
End filestore_facts.

#[export] Hint Resolve file_Save_wf Delete_files_wf : goiardi.

(** * Properties of the file store *)

Section filestore_properties.
  Context {S : Type} {O : StoreOps S object} {L : StoreLaws S object}.
  Context (md5hex : string → string).
  Implicit Types (s : S).

(** When an upload is accepted, and what it holds then. *)
Lemma New_Ok s chksum body n f :
  st_inv s → files_wf s → (0 ≤ n)%Z →
  New_ md5hex s chksum body n = Ok f ↔
    (n ≤ Z.of_nat (String.length body))%Z ∧
    f = {| fs_Chksum := chksum; fs_Data := String.substring 0 (Z.to_nat n) body |} ∧
    md5hex (fs_Data f) = chksum ∧
    ∀ g, Get s chksum = Ok g → fs_Data g = fs_Data f.
Proof.
  intros Hi Hw Hn. unfold New_, ReadFull. rewrite (proj2 (Z.ltb_ge _ _)) by lia.
  destruct (Nat.leb_spec (Z.to_nat n) (String.length body)) as [Hl|Hl].
  2:{ destruct (Get_cases s chksum Hi Hw) as [[g ->]|[-> _]]; simpl; split; [done|lia|done|lia]. }
  destruct (Get_cases s chksum Hi Hw) as [[g ->]|[-> _]]; simpl.
  - destruct (bool_decide_reflect (String.substring 0 (Z.to_nat n) body = fs_Data g)) as [E|E]; simpl.
    + case_bool_decide as Em; simpl; split; try done.
      * intros [= <-]. split_and!; [lia|done|done|]. by intros g' [= ->].
      * by intros (_ & -> & _).
      * by intros (_ & -> & ? & _).
    + split; [done|]. intros (_ & -> & _ & Hd). by rewrite (Hd g) in E.
  - case_bool_decide as Em; simpl; split; try done.
    + intros [= <-]. split_and!; [lia|done..].
    + by intros (_ & -> & _).
    + by intros (_ & -> & ? & _).
Qed.

(** C31: an accepted upload stores the first [n] bytes of the body under the
    checksum they hash to; it can be read back, no other file changes, and the
    store stays content-addressed: every file hashes to its own key. *)
Theorem upload_content_addressed s chksum body n f :
  st_inv s → files_wf s → content_addressed md5hex s → (0 ≤ n)%Z →
  New_ md5hex s chksum body n = Ok f →
  st_inv (Save s f) ∧ files_wf (Save s f) ∧ content_addressed md5hex (Save s f) ∧
  Get (Save s f) chksum = Ok f ∧ fs_Data f = String.substring 0 (Z.to_nat n) body ∧
  ∀ k, k ≠ chksum → Get (Save s f) k = Get s k.
Proof.
  intros Hi Hw Hc Hn Hf. apply New_Ok in Hf as (Hl & -> & Hm & _); [|done..]. simpl in Hm.
  split_and!; [by apply st_set_inv|by apply file_Save_wf| | |done|].
  - intros k g. rewrite file_Get_Save by done. simpl. case_bool_decide as E; [|apply Hc].
    intros [= <-]. by subst.
  - rewrite file_Get_Save by done. simpl. by rewrite bool_decide_eq_true_2.
  - intros k Hk. rewrite file_Get_Save by done. simpl. by rewrite bool_decide_eq_false_2.
Qed.

(** Deleting a list of checksums always succeeds, removes exactly the
    files with those checksums, keeps every other file readable, and leaves
    the store content-addressed. *)
Theorem delete_hashes_exact s hs :
  st_inv s → files_wf s → content_addressed md5hex s →
  ∃ s', DeleteHashes s hs = Ok s' ∧ st_inv s' ∧ files_wf s' ∧ content_addressed md5hex s' ∧
    (∀ k, has_file s' k ↔ has_file s k ∧ k ∉ hs) ∧
    (∀ k, k ∉ hs → Get s' k = Get s k) ∧
    (∀ t k, obj_type t = true → t ≠ "filestore" → st_get s' t k = st_get s t k).
Proof.
  intros Hi Hw Hc. destruct (DeleteHashes_spec s hs Hi Hw) as (s' & E & Hi' & Hw' & Hg & Ho).
  exists s'. split_and!; [done..| | | |done].
  - intros k f. rewrite Hg. case_bool_decide; [done|apply Hc].
  - intros k. unfold has_file. rewrite Hg. case_bool_decide; naive_solver.
  - intros k Hk. rewrite Hg. by rewrite bool_decide_eq_false_2.
Qed.
End filestore_properties.

Lemma upload_content_addressed_witness :
  Get (Save (∅ : absStore object) {| fs_Chksum := "abc"; fs_Data := "abc" |}) "abc"
  = Ok {| fs_Chksum := "abc"; fs_Data := "abc" |}.
Proof.
  apply (upload_content_addressed (λ x, x) (∅ : absStore object) "abc" "abcdef" 3).
  - intros t k v. by rewrite lookup_empty.
  - intros k o. simpl. by rewrite lookup_empty.
  - intros k f. unfold Get. simpl. by rewrite lookup_empty.
  - lia.
  - vm_compute. reflexivity.
Defined.

Lemma delete_hashes_exact_witness :
  ∃ s', DeleteHashes ({[("filestore", "a") := OFile {| fs_Chksum := "a"; fs_Data := "a" |}]}
          : absStore object) ["b"; "a"] = Ok s' ∧ ¬ has_file s' "a".
Proof.
  destruct (delete_hashes_exact (λ x, x)
    ({[("filestore", "a") := OFile {| fs_Chksum := "a"; fs_Data := "a" |}]} : absStore object)
    ["b"; "a"]) as (s' & E & _ & _ & _ & Hh & _).
  - intros t k v [_ <-]%lookup_singleton_Some. done.
  - intros k o [= [[= ->] <-]%lookup_singleton_Some]. by eexists.
  - intros k f. unfold Get. simpl.
    destruct (_ !! ("filestore", k)) eqn:El; [|done].
    apply lookup_singleton_Some in El as [[= ->] <-]. by intros [= <-].
  - exists s'. split; [done|]. rewrite Hh. set_solver.
Defined.
