(* ===== verification/Validations.v ===== *)
(** Validation of names, versions, constraints, run lists and cookbook data
    (src/util/validations.go).  The anchored regular expressions of the source
    are deterministic, and each is the obvious parser for its language. *)
From S2P Require Import Prelude Gerror Iface Config Store Objects Filestore.

(** * Names *)

(** [!regexp.MatchString("[^...]", name)]: every byte is in the class. *)
Definition in_class (extra : string) (c : ascii) : bool := is_alnum c || str_mem c extra.

Definition ValidateName (name : string) : bool := str_all (in_class "_.-") name.

Definition ValidateUserName (name : string) : bool :=
  str_all (λ c, is_lower c || is_digit c || str_mem c "_.-") name.

Definition ValidateDBagName (name : string) : bool := str_all (in_class "_.:-") name.

Definition ValidateEnvName (name : string) : bool := str_all (in_class "_-") name.

(** * Values of a given type *)

Definition ValidateAsString (str : iface) : outcome string :=
  match str with
  | IStr s => Ok s
  | INil => Err (Errorf "Field 'name' missing")
  | _ => Err (Errorf "Field 'name' invalid")
  end.

Definition ValidateAsBool (b : iface) : outcome bool :=
  match b with IBool b => Ok b | _ => Err (Errorf "Invalid bool") end.

Definition ValidateAsFieldString (str : iface) : outcome string :=
  match str with
  | IStr s => Ok s
  | INil => Err (Errorf "Field 'name' nil")
  | _ => Err (Errorf "Field 'name' missing")
  end.

Definition ValidateAttributes (key : string) (attrs : iface) : outcome jmap :=
  match attrs with
  | IMap m => Ok m
  | INil => Ok []
  | _ => Err (Errorf ("Field '" +:+ key +:+ "' is not a hash"))
  end.

(** * Versions *)

(** [^(\d+)\.(\d+)(\.?)(\d+)?$]: the submatches 1, 2 and 4, the last one
    empty when it took no part. *)
Definition version_submatch (s : string) : option (string * string * string) :=
  let '(a, r1) := str_span is_digit s in
  match a, r1 with
  | String _ _, String c r1' =>
      if bool_decide (c = "."%char) then
        let '(b, r2) := str_span is_digit r1' in
        match b with
        | EmptyString => None
        | String _ _ =>
            let r3 := match r2 with
                      | String d r2' => if bool_decide (d = "."%char) then r2' else r2
                      | EmptyString => r2
                      end in
            let '(e, r4) := str_span is_digit r3 in
            match r4 with EmptyString => Some (a, b, e) | String _ _ => None end
        end
      else None
  | _, _ => None
  end.

Definition invalid_version : gerror := Errorf "Invalid version number".

(** One turn of the loop over the submatches. *)
Definition check_number (n : string) : outcome () :=
  match ParseInt10 n with
  | (_, Some e) => Err (CastErr (num_error_text "ParseInt" n e))
  | (v, None) => if (v <? 0)%Z then Err invalid_version else Ok ()
  end.

Definition ValidateAsVersionString (ver : string) : outcome string :=
  match version_submatch ver with
  | Some (a, b, e) =>
      if bool_decide (ver = "0.0") then Err invalid_version
      else
        _ ← check_number a;
        _ ← check_number b;
        _ ← (match e with EmptyString => Ok () | _ => check_number e end);
        Ok ver
  | None => Err invalid_version
  end.

Definition ValidateAsVersion (ver : iface) : outcome string :=
  match ver with
  | IStr ver => ValidateAsVersionString ver
  | INil => Ok "0.0.0"
  | _ => Err invalid_version
  end.

(** One or two of the bytes of the class, a space, and anything up to a
    newline: the two submatches. *)
Definition constraint_submatch (s : string) : option (string * string) :=
  let '(op, r) := str_span (λ c, str_mem c "<>=~") s in
  if ((1 <=? String.length op) && (String.length op <=? 2))%nat then
    match r with
    | String c r' =>
        if bool_decide (c = " "%char)
        then Some (op, (str_span (λ c, negb (bool_decide (c = newline))) r').1)
        else None
    | EmptyString => None
    end
  else None.

Definition ValidateAsConstraint (t : iface) : outcome bool :=
  match t with
  | IStr s =>
      match constraint_submatch s with
      | Some (_, ver) => _ ← ValidateAsVersionString ver; Ok true
      | None => Err (Errorf "Invalid constraint")
      end
  | _ => Err (Errorf "Invalid constraint")
  end.

Definition ValidateNumVersions (nr : string) : outcome () :=
  let err := Errorf "Invalid num_versions" in
  if negb (bool_decide (nr = "all")) && negb (bool_decide (nr = EmptyString)) then
    match nr with
    | String c _ =>
        if is_digit c then
          match ParseInt10 nr with
          | (_, Some e) => Err (CastErr (num_error_text "Atoi" nr e))
          | (n, None) => if (n <? 0)%Z then Err err else Ok ()
          end
        else Err err
    | EmptyString => Err err
    end
  else if bool_decide (nr = EmptyString) then Err err
  else Ok ().

(** * Run lists *)

Definition invalid_run_list : gerror := Errorf "Field 'run_list' is not a valid run list".

Definition validateRoleName (name : string) : bool := str_all (in_class "_-") name.

(** [^\d+\.\d+(\.\d+)?$]. *)
Definition recipe_version (s : string) : bool :=
  match map (λ w, negb (bool_decide (w = EmptyString)) && str_all is_digit w) (str_split "." s) with
  | [a; b] => a && b
  | [a; b; c] => a && b && c
  | _ => false
  end.

(** Only the text between the first two at signs is read as a version. *)
Definition validateRecipeName (name : string) : bool :=
  str_all (in_class "_@.:-") name &&
  (if str_any (λ c, bool_decide (c = "@"%char)) name then
     match str_split "@" name with
     | _ :: version :: _ => recipe_version version
     | _ => false
     end
   else true).

(** [^(\w+)\[(.*?)\]$] on an item without newlines: the word before the
    first bracket and what lies between it and the final one. *)
Definition rl_submatch (item : string) : option (string * string) :=
  match str_span is_word item with
  | (String c w, String b r) =>
      if bool_decide (b = "["%char) then
        match str_unsnoc r with
        | Some (mid, e) => if bool_decide (e = "]"%char) then Some (String c w, mid) else None
        | None => None
        end
      else None
  | _ => None
  end.

Definition validateRLItem (item : string) : outcome string :=
  if bool_decide (item = EmptyString) then Err invalid_run_list
  else if negb (str_all (in_class "_[]@.:-") item) then Err invalid_run_list
  else
    match rl_submatch item with
    | Some (rlType, rlItem) =>
        if bool_decide (rlType = "role") then
          if validateRoleName rlItem then Ok item else Err invalid_run_list
        else if bool_decide (rlType = "recipe") then
          if validateRecipeName rlItem then Ok item else Err invalid_run_list
        else Err invalid_run_list
    | None =>
        if validateRecipeName item then Ok ("recipe[" +:+ item +:+ "]") else Err invalid_run_list
    end.

(** The first loop, which rewrites the items in place. *)
Fixpoint validate_items (rl : list string) : outcome (list string) :=
  match rl with
  | [] => Ok []
  | r :: rest =>
      j ← validateRLItem r;
      _ ← ensure (negb (bool_decide (j = EmptyString))) invalid_run_list;
      js ← validate_items rest;
      Ok (j :: js)
  end.

(** The second loop keeps the first occurrence of each item. *)
Fixpoint remove_dupes (found : gset string) (rl : list string) : list string :=
  match rl with
  | [] => []
  | u :: rest =>
      if bool_decide (u ∈ found) then remove_dupes found rest
      else u :: remove_dupes ({[u]} ∪ found) rest
  end.

Definition ValidateRunList (rl : iface) : outcome (list string) :=
  match rl with
  | IStrs l => l' ← validate_items l; Ok (remove_dupes ∅ l')
  | INil => Ok []
  | _ => Err (Errorf "Not a proper runlist []string")
  end.

(** * Cookbook data *)

Section division.
  Context {S : Type} {O : StoreOps S object} (conf : Conf).

(** The loop over the elements of a division; each accepted map gets the
    URL of its file, and a map without a string checksum is dropped. *)
Fixpoint division_loop (s : S) (dname : string) (div : list iface) : outcome division :=
  match div with
  | [] => Ok []
  | IMap v :: rest =>
      if (length v <? 4)%nat
      then Err (Errorf ("Invalid element in array value of '" +:+ dname +:+ "'."))
      else
        match ValidateAsString (mget "checksum" v) with
        | Ok chksum =>
            match Filestore.Get s chksum with
            | Ok _ =>
                itemURL ← CustomURL conf ("/file_store/" +:+ chksum);
                d ← division_loop s dname rest;
                Ok (mset "url" (IStr itemURL) v :: d)
            | Err _ =>
                Err (if bool_decide (dname = "recipes")
                     then Errorf "Manifest has a checksum that hasn't been uploaded."
                     else Errorf ("Manifest has checksum " +:+ chksum
                                  +:+ " but it hasn't yet been uploaded"))
            | Panic p => Panic p
            end
        | _ => division_loop s dname rest
        end
  | _ :: _ => Err (Errorf ("Invalid element in array value of '" +:+ dname +:+ "'."))
  end.

Definition ValidateCookbookDivision (s : S) (dname : string) (div : iface) : outcome division :=
  match div with
  | IArr l => division_loop s dname l
  | INil => Ok []
  | _ => Err (Errorf ("Field '" +:+ dname +:+ "' invalid"))
  end.
End division.

Definition strchk : list string :=
  ["maintainer"; "name"; "description"; "maintainer_email"; "long_description"; "license"].

Definition hashchk : list string :=
  ["platforms"; "dependencies"; "recommendations"; "suggestions"; "conflicting"; "replacing";
   "groupings"].

Definition metadata_invalid (v : string) : gerror :=
  Errorf ("Field 'metadata." +:+ v +:+ "' invalid").

Definition check_strings (mdata : jmap) (v : string) : outcome jmap :=
  match mget v mdata with
  | IStr sv =>
      if bool_decide (v = "name") && negb (ValidateName sv) then Err (metadata_invalid v)
      else Ok mdata
  | INil =>
      Ok (if bool_decide (v = "long_description") then mset v (IStr EmptyString) mdata else mdata)
  | _ => Err (metadata_invalid v)
  end.

(** The values of one metadata hash: constraints or versions, and maps in
    the groupings only. *)
Fixpoint check_hash_values (v : string) (hv : jmap) : outcome () :=
  match hv with
  | [] => Ok ()
  | (_, j) :: rest =>
      let bad t := Err (Errorf ("Invalid value '" +:+ t +:+ "' for metadata." +:+ v)) in
      match j with
      | IStr s =>
          if is_ok (ValidateAsConstraint j) || is_ok (ValidateAsVersion j)
          then check_hash_values v rest else bad s
      | IMap _ =>
          if negb (bool_decide (v = "groupings")) then bad "{[]}" else check_hash_values v rest
      | _ =>
          let fakeout := fmt_v j in
          bad (if bool_decide (fakeout = "map[]") then "{[]}" else fakeout)
      end
  end.

Definition check_hashes (mdata : jmap) (v : string) : outcome jmap :=
  match mget v mdata with
  | IMap hv => _ ← check_hash_values v hv; Ok mdata
  | INil => Ok (if bool_decide (v = "dependencies") then mset v (IMap []) mdata else mdata)
  | _ => Err (metadata_invalid v)
  end.

(** A loop over field names that may fill the map in. *)
Fixpoint check_fields (f : jmap → string → outcome jmap) (fields : list string) (mdata : jmap)
    : outcome jmap :=
  match fields with
  | [] => Ok mdata
  | v :: rest => m ← f mdata v; check_fields f rest m
  end.

Definition ValidateCookbookMetadata (mdata : iface) : outcome jmap :=
  match mdata with
  | IMap mdata =>
      match mdata with
      | [] => Err (Errorf "Field 'metadata.version' missing")
      | _ =>
          _ ← (match mlookup "version" mdata with
               | Some (IStr mv) =>
                   if is_ok (ValidateAsVersionString mv) then Ok () else Err (metadata_invalid "version")
               | Some INil => Ok ()
               | Some _ => Err (metadata_invalid "version")
               | None => Err (Errorf "Field 'metadata.version' missing")
               end);
          mdata ← check_fields check_strings strchk mdata;
          check_fields check_hashes hashchk mdata
      end
  | _ => Err (Errorf "bad metadata: chng msg")
  end.

(** * Actors *)

Definition CheckAdminPlusValidator (jsonActor : jmap) : outcome () :=
  let as_bool k :=
    match mlookup k jsonActor with
    | Some v => match ValidateAsBool v with Ok b => b | _ => false end
    | None => false
    end in
  if as_bool "admin" && as_bool "validator"
  then Err (SetStatus (Errorf "Client can be either an admin or a validator, but not both.")
              StatusBadRequest)
  else Ok ().

(** * Lemmas: versions *)

(** A decimal numeral, and one that fits an [int64]. *)
Definition numeral (s : string) : Prop := s ≠ EmptyString ∧ str_all is_digit s = true.
Definition fits (s : string) : Prop := (dec_value s ≤ max_int64)%Z.

Lemma check_number_Ok n u : numeral n → check_number n = Ok u ↔ fits n.
Proof.
  intros [Hn Hd]. unfold check_number, fits. rewrite ParseInt10_digits by done.
  destruct (Z.ltb_spec max_int64 (dec_value n)) as [Hl|Hl]; [split; [done|lia]|].
  pose proof (dec_fold_mono 0 n Hd ltac:(lia)) as Hp. fold (dec_value n) in Hp.
  rewrite (proj2 (Z.ltb_ge _ _)) by lia. destruct u. naive_solver.
Qed.

Lemma span_digits_dot a r :
  str_all is_digit a = true → str_span is_digit (a +:+ String "."%char r) = (a, String "."%char r).
Proof. intros Ha. by apply str_span_intro. Qed.

Lemma span_digits_end a : str_all is_digit a = true → str_span is_digit a = (a, EmptyString).
Proof. intros Ha. rewrite <-(str_app_nil_r a) at 1. by apply str_span_intro. Qed.

(** What the regular expression matches: two numerals, and a third part that
    may be missing or an empty one after its dot. *)
Lemma version_submatch_spec s a b e :
  version_submatch s = Some (a, b, e) ↔
  numeral a ∧ numeral b ∧ str_all is_digit e = true ∧
  ((s = a +:+ "." +:+ b ∧ e = EmptyString) ∨ s = a +:+ "." +:+ b +:+ "." +:+ e).
Proof.
  split.
  - unfold version_submatch. pose proof (str_span_app is_digit s) as H1.
    destruct (str_span is_digit s) as [a' r1]. destruct H1 as [-> Ha].
    destruct a' as [|c0 a']; [done|]. destruct r1 as [|c r1]; [done|].
    case_bool_decide; subst; [|done]. pose proof (str_span_app is_digit r1) as H2.
    pose proof (str_span_stop is_digit r1) as Hst.
    destruct (str_span is_digit r1) as [b' r2]. destruct H2 as [-> Hb].
    destruct b' as [|d0 b']; [done|].
    set (r3 := match r2 with String _ _ => _ | EmptyString => _ end).
    pose proof (str_span_app is_digit r3) as H3.
    destruct (str_span is_digit r3) as [e' r4] eqn:E3. destruct H3 as [H3 He].
    destruct r4; [|done]. intros [= <- <- <-]. rewrite str_app_nil_r in H3.
    split_and!; [done..|].
    destruct r2 as [|d r2].
    + left. unfold r3 in H3. subst e'. by rewrite str_app_nil_r.
    + subst r3. case_bool_decide; subst.
      * by right.
      * simpl in Hst, E3. rewrite Hst in E3. done.
  - intros ([Ha0 Ha] & [Hb0 Hb] & He & Hs). unfold version_submatch.
    destruct Hs as [[-> ->]| ->].
    + change (a +:+ "." +:+ b) with (a +:+ String "."%char b). rewrite span_digits_dot by done.
      destruct a; [done|]. simpl. rewrite span_digits_end by done. by destruct b.
    + change (a +:+ "." +:+ b +:+ "." +:+ e) with (a +:+ String "."%char (b +:+ String "."%char e)).
      rewrite span_digits_dot by done. destruct a; [done|].
      rewrite bool_decide_eq_true_2 by done. rewrite span_digits_dot by done. destruct b; [done|].
      rewrite bool_decide_eq_true_2 by done. by rewrite span_digits_end.
Qed.

Lemma ValidateAsVersionString_Ok ver v :
  ValidateAsVersionString ver = Ok v ↔
  v = ver ∧ ver ≠ "0.0" ∧ ∃ a b e, version_submatch ver = Some (a, b, e) ∧
    fits a ∧ fits b ∧ (e = EmptyString ∨ fits e).
Proof.
  unfold ValidateAsVersionString. destruct (version_submatch ver) as [[[a b] e]|] eqn:E; [|naive_solver].
  pose proof E as E'. apply version_submatch_spec in E' as (Ha & Hb & He & _).
  assert (∀ u, (match e with EmptyString => Ok () | _ => check_number e end) = Ok u ↔
               e = EmptyString ∨ fits e) as Hthird.
  { intros []. destruct e as [|c e'] eqn:Ee; [naive_solver|]. rewrite check_number_Ok by done. naive_solver. }
  case_bool_decide as E0; [naive_solver|]. rewrite bind_Ok. setoid_rewrite check_number_Ok; [|done].
  setoid_rewrite bind_Ok. setoid_rewrite check_number_Ok; [|done]. setoid_rewrite bind_Ok.
  setoid_rewrite Hthird. split.
  - intros ([] & ? & [] & ? & [] & ? & [= <-]). naive_solver.
  - intros (-> & _ & a' & b' & e' & [= <- <- <-] & ? & ? & ?). repeat (exists (); split; [done|]). done.
Qed.

(** * Lemmas: run lists *)

(** The items a validated run list is made of. *)
Definition run_list_item (y : string) : Prop :=
  (∃ n, y = "role[" +:+ n +:+ "]" ∧ validateRoleName n = true) ∨
  (∃ n, y = "recipe[" +:+ n +:+ "]" ∧ validateRecipeName n = true).

Lemma rl_submatch_app w n :
  w ≠ EmptyString → str_all is_word w = true →
  rl_submatch (w +:+ "[" +:+ n +:+ "]") = Some (w, n).
Proof.
  intros Hw Ha. unfold rl_submatch.
  change (w +:+ "[" +:+ n +:+ "]") with (w +:+ String "["%char (n +:+ String "]"%char EmptyString)).
  rewrite str_span_intro by done. destruct w as [|c w]; [done|].
  rewrite bool_decide_eq_true_2 by done.
  by rewrite (proj2 (str_unsnoc_Some _ n "]"%char) eq_refl).
Qed.

Lemma rl_submatch_Some item w n :
  rl_submatch item = Some (w, n) → item = w +:+ "[" +:+ n +:+ "]".
Proof.
  unfold rl_submatch. pose proof (str_span_app is_word item) as Hs.
  destruct (str_span is_word item) as [a r]. destruct Hs as [-> _].
  destruct a as [|c a]; [done|]. destruct r as [|b r]; [done|]. case_bool_decide; [subst|done].
  destruct (str_unsnoc r) as [[mid e]|] eqn:E; [|done]. case_bool_decide; [subst|done].
  intros [= <- <-]. by apply str_unsnoc_Some in E as ->.
Qed.

Lemma in_class_weaken extra extra' s :
  (∀ c, str_mem c extra = true → str_mem c extra' = true) →
  str_all (in_class extra) s = true → str_all (in_class extra') s = true.
Proof.
  intros He. apply str_all_impl. intros c. unfold in_class. rewrite !orb_true_iff. naive_solver.
Qed.

Lemma str_mem_incl c (l l' : string) :
  str_all (λ d, str_mem d l') l = true → str_mem c l = true → str_mem c l' = true.
Proof.
  induction l as [|d l IH]; simpl; [done|]. intros Ha. bool_split.
  rewrite orb_true_iff, bool_decide_eq_true. naive_solver.
Qed.

Lemma recipe_name_class n : validateRecipeName n = true → str_all (in_class "_[]@.:-") n = true.
Proof.
  unfold validateRecipeName. intros Hv. bool_split. eapply in_class_weaken; [|done].
  intros c. by apply str_mem_incl.
Qed.

Lemma role_name_class n : validateRoleName n = true → str_all (in_class "_[]@.:-") n = true.
Proof. apply in_class_weaken. intros c. by apply str_mem_incl. Qed.

Lemma bracketed_class w n :
  str_all (in_class "_[]@.:-") w = true → str_all (in_class "_[]@.:-") n = true →
  str_all (in_class "_[]@.:-") (w +:+ "[" +:+ n +:+ "]") = true.
Proof. intros Hw Hn. by rewrite !str_all_app, Hw, Hn. Qed.

(** Validated items are run list items, and run list items validate to
    themselves. *)
Lemma validateRLItem_item x y : validateRLItem x = Ok y → run_list_item y.
Proof.
  unfold validateRLItem. case_bool_decide; [done|]. destruct (str_all _ x); [simpl|done].
  destruct (rl_submatch x) as [[w n]|] eqn:E.
  - apply rl_submatch_Some in E as ->. case_bool_decide; subst.
    + destruct (validateRoleName n) eqn:Hv; [|done]. intros [= <-]. left. eauto.
    + case_bool_decide; subst; [|done]. destruct (validateRecipeName n) eqn:Hv; [|done].
      intros [= <-]. right. eauto.
  - destruct (validateRecipeName x) eqn:Hv; [|done]. intros [= <-]. right. eauto.
Qed.

Lemma run_list_item_valid y : run_list_item y → validateRLItem y = Ok y ∧ y ≠ EmptyString.
Proof.
  intros [(n & -> & Hv)|(n & -> & Hv)]; (split; [|done]); unfold validateRLItem;
    rewrite bool_decide_eq_false_2 by done.
  - change ("role[" +:+ n +:+ "]") with ("role" +:+ "[" +:+ n +:+ "]").
    rewrite (bracketed_class "role" n) by (done || by apply role_name_class).
    rewrite (rl_submatch_app "role" n) by done. simpl. by rewrite Hv.
  - change ("recipe[" +:+ n +:+ "]") with ("recipe" +:+ "[" +:+ n +:+ "]").
    rewrite (bracketed_class "recipe" n) by (done || by apply recipe_name_class).
    rewrite (rl_submatch_app "recipe" n) by done. simpl. by rewrite Hv.
Qed.

Lemma validate_items_Ok l l' :
  validate_items l = Ok l' ↔ Forall2 (λ x y, validateRLItem x = Ok y) l l'.
Proof.
  revert l'. induction l as [|x l IH]; intros l'; simpl.
  - split; [intros [= <-]; constructor|]. intros Hf. by inversion Hf.
  - split.
    + intros Hv. inv_ok. constructor; [done|]. by apply IH.
    + intros Hf. inversion Hf as [|? y ? l'' Hx Hl]; subst. rewrite Hx. simpl.
      pose proof (validateRLItem_item _ _ Hx) as Hi. apply run_list_item_valid in Hi as [_ Hne].
      rewrite bool_decide_eq_false_2 by done. simpl. apply IH in Hl. by rewrite Hl.
Qed.

Lemma elem_of_remove_dupes x found l : x ∈ remove_dupes found l ↔ x ∈ l ∧ x ∉ found.
Proof.
  revert found. induction l as [|u l IH]; intros found; simpl; [set_solver|].
  case_bool_decide; rewrite ?elem_of_cons, IH; [set_solver|].
  destruct (decide (x = u)); set_solver.
Qed.

Lemma NoDup_remove_dupes found l : NoDup (remove_dupes found l).
Proof.
  revert found. induction l as [|u l IH]; intros found; simpl; [constructor|].
  case_bool_decide; [done|]. constructor; [|done]. rewrite elem_of_remove_dupes. set_solver.
Qed.

Lemma remove_dupes_id found l :
  NoDup l → (∀ x, x ∈ l → x ∉ found) → remove_dupes found l = l.
Proof.
  revert found. induction l as [|u l IH]; intros found Hn Hd; simpl; [done|].
  apply NoDup_cons in Hn as [Hu Hn]. rewrite bool_decide_eq_false_2 by set_solver.
  f_equal. apply IH; [done|]. set_solver.
Qed.

Lemma validateRLItem_no_panic x p : validateRLItem x ≠ Panic p.
Proof. unfold validateRLItem. repeat case_match; naive_solver. Qed.

Lemma ValidateRunList_no_panic rl p : ValidateRunList rl ≠ Panic p.
Proof.
  destruct rl as [| | | |l| | | | |]; try done. simpl.
  assert (∀ q, validate_items l ≠ Panic q) as Hv.
  { induction l as [|x l IH]; intros q; simpl; [done|]. destruct (validateRLItem x) as [y| |q'] eqn:E; simpl.
    - unfold ensure. case_match; simpl; [|done]. destruct (validate_items l); simpl; naive_solver.
    - done.
    - by apply validateRLItem_no_panic in E. }
  destruct (validate_items l); simpl; naive_solver.
Qed.

(** Whatever was uploaded, a run list that validates is one. *)
Lemma ValidateRunList_items rl l :
  ValidateRunList rl = Ok l → NoDup l ∧ Forall run_list_item l.
Proof.
  destruct rl; try done; simpl; [by intros [= <-]; split; constructor|].
  intros Hv. apply bind_Ok in Hv as (m & Hm & [= <-]). split; [apply NoDup_remove_dupes|].
  apply validate_items_Ok in Hm. apply Forall_forall. intros y [Hy _]%elem_of_remove_dupes.
  apply list_elem_of_lookup in Hy as [i Hy]. destruct (Forall2_lookup_r _ _ _ _ _ Hm Hy) as (x & _ & Hx).
  by eapply validateRLItem_item.
Qed.

(** * Properties *)

(** [ValidateAsVersion] accepts a string exactly when it is two or three
    decimal numbers separated by dots, each at most 2^63-1, or two numbers and
    a trailing dot, and is not "0.0"; it returns the string unchanged. *)
Theorem ValidateAsVersion_exact (ver v : string) :
  ValidateAsVersion (IStr ver) = Ok v ↔
  v = ver ∧ ver ≠ "0.0" ∧
  ∃ a b, numeral a ∧ numeral b ∧ fits a ∧ fits b ∧
    (ver = a +:+ "." +:+ b ∨ ver = a +:+ "." +:+ b +:+ "." ∨
     ∃ c, numeral c ∧ fits c ∧ ver = a +:+ "." +:+ b +:+ "." +:+ c).
Proof.
  simpl. rewrite ValidateAsVersionString_Ok. apply and_iff_compat_l, and_iff_compat_l.
  setoid_rewrite version_submatch_spec. split.
  - intros (a & b & e & (Ha & Hb & He & Hs) & Fa & Fb & Fe). exists a, b. split_and!; [done..|].
    destruct Hs as [[-> ->]| ->]; [by left|right]. destruct e as [|c e]; [by left|right].
    exists (String c e). split_and!; [done| |done]. by destruct Fe.
  - intros (a & b & Ha & Hb & Fa & Fb & Hs). destruct Hs as [->|[->|(c & [Hc0 Hc] & Fc & ->)]].
    + exists a, b, EmptyString. naive_solver.
    + exists a, b, EmptyString. naive_solver.
    + exists a, b, c. naive_solver.
Qed.

(** C39: a run list that validates comes out as distinct items of the form
    [role[name]] or [recipe[name]] with valid names, holding exactly the
    normalised input items; validating the result again changes nothing. *)
Theorem ValidateRunList_normal (l l' : list string) :
  ValidateRunList (IStrs l) = Ok l' →
  NoDup l' ∧ Forall run_list_item l' ∧
  (∀ y, y ∈ l' ↔ ∃ x, x ∈ l ∧ validateRLItem x = Ok y) ∧
  ValidateRunList (IStrs l') = Ok l'.
Proof.
  simpl. intros Hv. apply bind_Ok in Hv as (m & Hm & [= <-]). apply validate_items_Ok in Hm.
  assert (Forall run_list_item (remove_dupes ∅ m)) as Hi.
  { apply Forall_forall. intros y [Hy _]%elem_of_remove_dupes.
    apply list_elem_of_lookup in Hy as [i Hy].
    destruct (Forall2_lookup_r _ _ _ _ _ Hm Hy) as (x & _ & Hx). by eapply validateRLItem_item. }
  split_and!; [apply NoDup_remove_dupes|done| |].
  - intros y. rewrite elem_of_remove_dupes. split.
    + intros [Hy _]. apply list_elem_of_lookup in Hy as [i Hy].
      destruct (Forall2_lookup_r _ _ _ _ _ Hm Hy) as (x & Hx & ?). exists x.
      split; [by eapply list_elem_of_lookup_2|done].
    + intros (x & Hx & Hy). split; [|set_solver]. apply list_elem_of_lookup in Hx as [i Hx].
      destruct (Forall2_lookup_l _ _ _ _ _ Hm Hx) as (y' & Hy' & Heq). simpl in Heq. rewrite Hy in Heq. injection Heq as <-.
      by eapply list_elem_of_lookup_2.
  - assert (validate_items (remove_dupes ∅ m) = Ok (remove_dupes ∅ m)) as ->.
    { apply validate_items_Ok. apply Forall_Forall2_diag.
      eapply Forall_impl; [done|]. intros y Hy. by destruct (run_list_item_valid y Hy). }
    simpl. f_equal. apply remove_dupes_id; [apply NoDup_remove_dupes|set_solver].
Qed.

Lemma ValidateRunList_normal_witness :
  NoDup ["recipe[apt]"; "role[web]"] ∧
  ValidateRunList (IStrs ["apt"; "role[web]"; "recipe[apt]"]) = Ok ["recipe[apt]"; "role[web]"].
Proof.
  split; [|vm_compute; reflexivity].
  apply (ValidateRunList_normal ["apt"; "role[web]"; "recipe[apt]"]). vm_compute. reflexivity.
Defined.

(** ** Cookbook data *)

(** The element of a validated division: its file is in the file store and
    its URL points there. *)
Definition uploaded_item {S} `{StoreOps S object} (conf : Conf) (s : S) (m : jmap) : Prop :=
  ∃ c, mget "checksum" m = IStr c ∧ has_file s c ∧
       mget "url" m = IStr (ServerBaseURL conf +:+ "/file_store/" +:+ c).

Lemma division_loop_uploaded {S} `{StoreOps S object} conf (s : S) dname div d :
  division_loop conf s dname div = Ok d → Forall (uploaded_item conf s) d ∧ length d ≤ length div.
Proof.
  revert d. induction div as [|i div IH]; intros d; simpl.
  { intros [= <-]. split; [constructor|simpl; lia]. }
  destruct i as [| | | | | |v| | |]; try done. destruct (length v <? 4); [done|].
  destruct (ValidateAsString (mget "checksum" v)) as [c| |] eqn:Ec.
  2,3: intros Hd; apply IH in Hd as [??]; split; [done|lia].
  destruct (Filestore.Get s c) as [f| |] eqn:Ef; [|done..]. intros Hd.
  apply bind_Ok in Hd as (d' & Hd & [= <-]).
  apply IH in Hd as [??]. split; [|simpl; lia]. constructor; [|done].
  exists c. unfold mget. rewrite !mlookup_mset. split_and!; [|by exists f|done].
  simpl. unfold mget in Ec. destruct (mlookup "checksum" v) as [[]|]; simpl in *; naive_solver.
Qed.

(** Every element of a division that validates refers to a file that has
    been uploaded: its checksum is a string found in the file store, and its
    URL is that file's; nothing is added to the division. *)
Theorem ValidateCookbookDivision_uploaded {S} `{StoreOps S object} conf (s : S) dname div d :
  ValidateCookbookDivision conf s dname div = Ok d →
  Forall (uploaded_item conf s) d ∧
  match div with IArr l => length d ≤ length l | INil => d = [] | _ => False end.
Proof.
  destruct div; try done; simpl; [by intros [= <-]|]. apply division_loop_uploaded.
Qed.

(** A store with one uploaded file. *)
Definition one_file : absStore object :=
  {[("filestore", "abc") := OFile {| fs_Chksum := "abc"; fs_Data := "abc" |}]}.

Lemma ValidateCookbookDivision_uploaded_witness :
  Forall (uploaded_item default_conf one_file)
    [[("name", IStr "default.rb"); ("path", IStr "recipes/default.rb");
      ("checksum", IStr "abc"); ("specificity", IStr "default");
      ("url", IStr "http://localhost:4545/file_store/abc")]].
Proof.
  eapply (ValidateCookbookDivision_uploaded default_conf one_file "recipes"
    (IArr [IMap [("name", IStr "default.rb"); ("path", IStr "recipes/default.rb");
                 ("checksum", IStr "abc"); ("specificity", IStr "default")]])).
  vm_compute. reflexivity.
Defined.

(** A dependency value: a version constraint, or a bare version. *)
Definition dependency_value (j : iface) : Prop :=
  ∃ c, j = IStr c ∧ (is_ok (ValidateAsConstraint j) || is_ok (ValidateAsVersion j)) = true.

Lemma check_hash_values_deps hv u :
  check_hash_values "dependencies" hv = Ok u → Forall (λ kv, dependency_value kv.2) hv.
Proof.
  induction hv as [|[k j] hv IH]; [constructor|]. destruct j as [| |c| | | | | | |]; try done.
  cbn [check_hash_values]. destruct (_ || _) eqn:E; [|done]. intros Hu. constructor; [|auto].
  exists c. done.
Qed.

Lemma check_hashes_same v m m' :
  v ≠ "dependencies" → check_hashes m v = Ok m' → m' = m.
Proof.
  intros Hv. unfold check_hashes. destruct (mget v m); try done.
  - rewrite bool_decide_eq_false_2 by done. by intros [= <-].
  - intros Hc. inv_ok. done.
Qed.

Lemma check_hashes_deps m m' :
  check_hashes m "dependencies" = Ok m' →
  ∃ deps, mget "dependencies" m' = IMap deps ∧ Forall (λ kv, dependency_value kv.2) deps.
Proof.
  unfold check_hashes. destruct (mget "dependencies" m) eqn:E; try done.
  - intros [= <-]. exists []. split; [|constructor]. unfold mget. by rewrite mlookup_mset.
  - intros Hc. apply bind_Ok in Hc as (u & Hu & [= <-]). eauto using check_hash_values_deps.
Qed.

Lemma metadata_dependencies (mdata : iface) (m : jmap) :
  ValidateCookbookMetadata mdata = Ok m →
  ∃ deps, mget "dependencies" m = IMap deps ∧ Forall (λ kv, dependency_value kv.2) deps.
Proof.
  destruct mdata as [| | | | | |md| | |]; try done. destruct md as [|e md]; [done|].
  unfold ValidateCookbookMetadata. intros Hv. apply bind_Ok in Hv as (u & _ & Hv).
  apply bind_Ok in Hv as (m1 & _ & Hv). unfold hashchk in Hv. simpl in Hv.
  apply bind_Ok in Hv as (m2 & _ & Hv). apply bind_Ok in Hv as (m3 & Hd & Hv).
  repeat (apply bind_Ok in Hv as (? & ?%check_hashes_same & Hv); [|done]; subst).
  injection Hv as <-. by apply check_hashes_deps in Hd.
Qed.

(** Metadata that validates has a hash of dependencies, possibly an empty
    one filled in by the validation, whose values are all version constraints
    or versions: the unchecked type assertions of the dependency resolution
    cannot fail on it. *)
Theorem ValidateCookbookMetadata_dependencies (mdata : iface) (m : jmap) :
  ValidateCookbookMetadata mdata = Ok m →
  ∃ deps, mget "dependencies" m = IMap deps ∧ Forall (λ kv, dependency_value kv.2) deps.
Proof. apply metadata_dependencies. Qed.

Lemma ValidateCookbookMetadata_dependencies_witness :
  ∃ deps, mget "dependencies" [("version", IStr "1.0.0"); ("dependencies", IMap [("apt", IStr ">= 1.2")]);
                               ("long_description", IStr EmptyString)] = IMap deps ∧
    Forall (λ kv, dependency_value kv.2) deps.
Proof.
  apply (ValidateCookbookMetadata_dependencies
    (IMap [("version", IStr "1.0.0"); ("dependencies", IMap [("apt", IStr ">= 1.2")])])).
  vm_compute. reflexivity.
Defined.
