(* ===== verification/Versioning.v ===== *)
(** Cookbook version strings: ordering, constraint checks and numeric parts
    (src/cookbook/versioning.go). *)
From S2P Require Import Prelude Gerror Iface Validations.

(** * Comparing versions *)

(** The loop over the first three components; a missing component on the
    left makes it smaller, whatever the right has. *)
Fixpoint less_loop (q : nat) (iVer jVer : list string) : bool :=
  match q with
  | O => false
  | S q =>
      match iVer, jVer with
      | [], _ => true
      | _, [] => false
      | ic :: ir, jc :: jr =>
          let ici := Atoi ic in
          let jci := Atoi jc in
          if negb (ici =? jci)%Z then (ici <? jci)%Z else less_loop q ir jr
      end
  end.

Definition versionLess (verA verB : string) : bool :=
  if bool_decide (verA = verB) then false
  else less_loop 3 (str_split "." verA) (str_split "." verB).

(** [sort.Sort(sort.Reverse(VersionStrings))]. *)
Definition sort_versions (v : list string) : list string := go_sort (reverse_less versionLess) v.

(** The strings [verConstraintCheck] answers with. *)
Inductive con_action : Set := ok | skip | break | invalid.

#[export] Instance con_action_eq_dec : EqDecision con_action.
Proof. solve_decision. Defined.

(** The upper bound of a pessimistic constraint; [uver++] wraps around. *)
Definition upper_bound (verB : string) : string :=
  match str_split "." verB with
  | [a; b; _] => a +:+ "." +:+ itoa (wrap64 (Atoi b + 1))
  | a :: _ => itoa (wrap64 (Atoi a + 1)) +:+ ".0"
  | [] => EmptyString
  end.

Definition verConstraintCheck (verA verB op : string) : con_action :=
  if bool_decide (op = "=") then
    if bool_decide (verA = verB) then ok
    else if versionLess verA verB then break else skip
  else if bool_decide (op = ">") then
    if bool_decide (verA = verB) || versionLess verA verB then break else ok
  else if bool_decide (op = "<") then
    if bool_decide (verA = verB) || negb (versionLess verA verB) then skip else ok
  else if bool_decide (op = ">=") then
    if negb (versionLess verA verB) then ok else break
  else if bool_decide (op = "<=") then
    if bool_decide (verA = verB) || versionLess verA verB then ok else skip
  else if bool_decide (op = "~>") then
    if versionLess verA verB then break
    else if negb (versionLess verA verB) && versionLess verA (upper_bound verB) then ok
    else skip
  else invalid.

(** * Parsing *)

Definition splitConstraint (constraint : string) : outcome (string * string) :=
  match str_split " " constraint with
  | [op; ver] => Ok (op, ver)
  | _ => Err (New ("Constraint '" +:+ constraint +:+ "' was not well-formed."))
  end.

(** The digit loop of [strconv.ParseUint] in base 8. *)
Fixpoint parse_oct_loop (n : Z) (s : string) : Z * option num_error :=
  match s with
  | EmptyString => (n, None)
  | String c r =>
      if in_range 48 55 c then
        let n1 := (n * 8 + digit_val c)%Z in
        if (max_uint64 <? n1)%Z then (max_uint64, Some ErrRange) else parse_oct_loop n1 r
      else (0%Z, Some ErrSyntax)
  end.

(** [strconv.ParseInt(s, 0, 64)] on digit strings: a leading zero selects
    base 8. *)
Definition ParseInt0 (s : string) : Z * option num_error :=
  match s with
  | String c r =>
      if bool_decide (c = "0"%char) then
        match parse_oct_loop 0 r with
        | (_, Some ErrSyntax) => (0%Z, Some ErrSyntax)
        | (un, _) => if (max_int64 <? un)%Z then (max_int64, Some ErrRange) else (un, None)
        end
      else ParseInt10 s
  | EmptyString => (0%Z, Some ErrSyntax)
  end.

Definition ver_num (s : string) : outcome Z :=
  match ParseInt0 s with
  | (v, None) => Ok v
  | (_, Some e) => Err (CastErr (num_error_text "ParseInt" s e))
  end.

(** [extractVerNums]; the test [len(nums) < 2 && len(nums) > 3] never holds. *)
Definition extractVerNums (cbVersion : string) : outcome (Z * Z * Z) :=
  _ ← ValidateAsVersion (IStr cbVersion);
  let nums := str_split "." cbVersion in
  maj ← (match nums !! 0%nat with Some n => ver_num n | None => Panic IndexOutOfRange end);
  min ← (match nums !! 1%nat with Some n => ver_num n | None => Panic IndexOutOfRange end);
  patch ← (match nums with [_; _; n] => ver_num n | _ => Ok 0%Z end);
  Ok (maj, min, patch).

(** * Canonical versions *)

(** The numbers of a version string. *)
Definition ver_nums (s : string) : list Z := Atoi <$> str_split "." s.

(** A component without leading zeros that fits an [int]. *)
Definition canon_num (w : string) : bool :=
  (0 <=? Atoi w)%Z && bool_decide (w = itoa (Atoi w)).

(** Two or three such components. *)
Definition canon_version (s : string) : bool :=
  let ws := str_split "." s in
  forallb canon_num ws && (bool_decide (length ws = 2) || bool_decide (length ws = 3)).

(** The numbers of a version, printed. *)
Definition show_version (l : list Z) : string := str_join "." (itoa <$> l).

(** Lexicographic order, a proper prefix being smaller. *)
Fixpoint nums_ltb (l m : list Z) : bool :=
  match l, m with
  | _, [] => false
  | [], _ :: _ => true
  | x :: l, y :: m => (x <? y)%Z || ((x =? y)%Z && nums_ltb l m)
  end.

Definition nums_lt (l m : list Z) : Prop := nums_ltb l m = true.

Lemma nums_ltb_irrefl l : nums_ltb l l = false.
Proof. induction l as [|x l IH]; [done|]. simpl. by rewrite Z.ltb_irrefl, Z.eqb_refl, IH. Qed.

Lemma nums_ltb_trans l m n : nums_ltb l m = true → nums_ltb m n = true → nums_ltb l n = true.
Proof.
  revert m n. induction l as [|x l IH]; intros [|y m] [|z n]; simpl; try done.
  rewrite !orb_true_iff, !andb_true_iff, !Z.ltb_lt, !Z.eqb_eq.
  intros [?|[-> ?]] [?|[-> ?]]; [left; lia|left; lia|left; lia|right; eauto].
Qed.

Lemma nums_ltb_total l m : nums_ltb l m = true ∨ l = m ∨ nums_ltb m l = true.
Proof.
  revert m. induction l as [|x l IH]; intros [|y m]; simpl; try tauto.
  rewrite !orb_true_iff, !andb_true_iff, !Z.ltb_lt, !Z.eqb_eq.
  destruct (Z.lt_trichotomy x y) as [?|[->|?]]; [tauto| |tauto].
  destruct (IH m) as [?|[->|?]]; tauto.
Qed.

Lemma canon_version_show s : canon_version s = true → s = show_version (ver_nums s).
Proof.
  unfold canon_version, show_version, ver_nums. intros Hc. apply andb_true_iff in Hc as [Hc _].
  rewrite <-(str_join_split "." s) at 1. f_equal.
  induction (str_split "." s) as [|w ws IH]; [done|]. simpl in *. bool_split.
  unfold canon_num in *. bool_split. f_equal; auto.
Qed.

Lemma ver_nums_inj a b :
  canon_version a = true → canon_version b = true → ver_nums a = ver_nums b → a = b.
Proof.
  intros Ha Hb He. rewrite (canon_version_show a Ha), (canon_version_show b Hb). by rewrite He.
Qed.

Lemma less_loop_nums q l m :
  length l ≤ q → length m ≤ q → Atoi <$> l ≠ Atoi <$> m →
  less_loop q l m = nums_ltb (Atoi <$> l) (Atoi <$> m).
Proof.
  revert l m. induction q as [|q IH]; intros [|x l] [|y m]; simpl; intros Hl Hm Hn; try done; try lia.
  destruct (Z.eqb_spec (Atoi x) (Atoi y)) as [E|E]; simpl.
  - rewrite E, Z.ltb_irrefl. simpl. apply IH; [lia|lia|]. intros He. apply Hn. f_equal; [exact E|exact He].
  - by rewrite orb_false_r.
Qed.

(** On canonical versions [versionLess] is the lexicographic order of the
    numbers. *)
Lemma versionLess_canon a b :
  canon_version a = true → canon_version b = true →
  versionLess a b = nums_ltb (ver_nums a) (ver_nums b).
Proof.
  intros Ha Hb. unfold versionLess. case_bool_decide as E; [subst; by rewrite nums_ltb_irrefl|].
  assert (∀ s, canon_version s = true → length (str_split "." s) ≤ 3) as Hlen.
  { intros s Hs. unfold canon_version in Hs. apply andb_true_iff in Hs as [_ Hs].
    apply orb_true_iff in Hs. rewrite !bool_decide_eq_true in Hs. lia. }
  apply less_loop_nums; [by apply Hlen..|]. intros He. apply E. by apply ver_nums_inj.
Qed.

Lemma sort_versions_sorted l :
  Forall (λ s, canon_version s = true) l →
  StronglySorted (λ a b, versionLess a b = false) (sort_versions l).
Proof.
  intros Hl. apply (go_sort_sorted_on canon_version (reverse_less versionLess) l); [| |done];
    unfold reverse_less.
  - intros x y Hx Hy. rewrite !versionLess_canon by done. intros H1.
    apply not_true_is_false. intros H2. pose proof (nums_ltb_trans _ _ _ H1 H2) as H3.
    by rewrite nums_ltb_irrefl in H3.
  - intros x y z Hx Hy Hz. rewrite !versionLess_canon by done. intros H1 H2.
    apply not_true_is_false. intros H3.
    destruct (nums_ltb_total (ver_nums x) (ver_nums y)) as [?|[E|H4]]; [congruence| |].
    + rewrite E in H3. congruence.
    + pose proof (nums_ltb_trans _ _ _ H4 H3). congruence.
Qed.

(** * Printing and reading versions *)

Definition int_list (l : list Z) : Prop := Forall (λ z, 0 ≤ z ≤ max_int64)%Z l.

Lemma itoa_no_dot z :
  (0 ≤ z)%Z → str_all (λ c, negb (bool_decide (c = "."%char))) (itoa z) = true.
Proof.
  intros Hz. destruct (itoa_digits z Hz) as (Hd & _ & _). eapply str_all_impl; [|exact Hd].
  intros c Hc. bool_split. by apply bool_decide_eq_false_2; intros ->.
Qed.

Lemma split_show l : l ≠ [] → int_list l → str_split "." (show_version l) = itoa <$> l.
Proof.
  intros Hne Hl. apply str_split_join; [by destruct l|]. apply Forall_fmap.
  eapply Forall_impl; [exact Hl|]. intros z Hz. simpl in Hz. apply itoa_no_dot. tauto.
Qed.

Lemma ver_nums_show l : l ≠ [] → int_list l → ver_nums (show_version l) = l.
Proof.
  intros Hne Hl. unfold ver_nums. rewrite split_show by done. rewrite <-list_fmap_compose.
  clear Hne. induction Hl as [|z l Hz Hl IH]; [done|]. simpl. f_equal; [by apply Atoi_itoa|exact IH].
Qed.

Lemma canon_show l : length l = 2 ∨ length l = 3 → int_list l → canon_version (show_version l) = true.
Proof.
  intros Hlen Hl. unfold canon_version. rewrite split_show; [|by destruct l; naive_solver|done].
  rewrite length_fmap. apply andb_true_iff. split.
  - clear Hlen. induction Hl as [|z l Hz Hl IH]; [done|]. simpl. apply andb_true_iff. split; [|exact IH].
    unfold canon_num. rewrite Atoi_itoa by done. apply andb_true_iff.
    split; [apply Z.leb_le; tauto|by apply bool_decide_eq_true_2].
  - apply orb_true_iff. rewrite !bool_decide_eq_true. done.
Qed.

Lemma canon_nums s :
  canon_version s = true → int_list (ver_nums s) ∧ (length (ver_nums s) = 2 ∨ length (ver_nums s) = 3).
Proof.
  unfold canon_version, ver_nums. intros Hc. apply andb_true_iff in Hc as [Hc Hl]. split.
  - apply Forall_fmap. apply Forall_forall. intros w Hw. simpl.
    rewrite forallb_forall in Hc. apply list_elem_of_In in Hw. specialize (Hc w Hw).
    unfold canon_num in Hc. apply andb_true_iff in Hc as [Hc _]. apply Z.leb_le in Hc.
    pose proof (Atoi_range w). lia.
  - rewrite length_fmap. apply orb_true_iff in Hl. by rewrite !bool_decide_eq_true in Hl.
Qed.

(** A printed number is read back in base 10 and in base 0 alike. *)
Lemma numeral_itoa z : (0 ≤ z ≤ max_int64)%Z → numeral (itoa z) ∧ fits (itoa z).
Proof.
  intros Hz. destruct (itoa_digits z) as (? & Hv & ?); [lia|]. unfold numeral, fits. rewrite Hv.
  split_and!; [done|done|lia].
Qed.

Lemma ver_num_itoa z : (0 ≤ z ≤ max_int64)%Z → ver_num (itoa z) = Ok z.
Proof.
  intros Hz. unfold ver_num. destruct (decide (z = 0)%Z) as [->|Hne]; [done|].
  destruct (itoa_head z) as (c & r & E & Hc); [lia|].
  destruct (itoa_digits z) as (Hd & Hv & Hn); [lia|].
  unfold ParseInt0. rewrite E. rewrite bool_decide_eq_false_2 by done. rewrite <-E.
  rewrite ParseInt10_digits, Hv by done. by rewrite (proj2 (Z.ltb_ge _ _)) by lia.
Qed.

(** * Constraints *)

(** The upper bound of a pessimistic constraint, on numbers. *)
Definition bump (l : list Z) : list Z :=
  match l with
  | [x; y; _] => [x; y + 1]%Z
  | x :: _ => [x + 1; 0]%Z
  | [] => []
  end.

(** The meaning of a constraint on the numbers of a version. *)
Definition satisfies (op : string) (a b : list Z) : bool :=
  if bool_decide (op = "=") then bool_decide (a = b)
  else if bool_decide (op = ">") then nums_ltb b a
  else if bool_decide (op = "<") then nums_ltb a b
  else if bool_decide (op = ">=") then negb (nums_ltb a b)
  else if bool_decide (op = "<=") then negb (nums_ltb b a)
  else if bool_decide (op = "~>") then negb (nums_ltb a b) && nums_ltb a (bump b)
  else false.

(** The number a pessimistic constraint increments does not overflow. *)
Definition bump_fits (b : list Z) : Prop := int_list (bump b).

Lemma upper_bound_canon b :
  canon_version b = true → bump_fits (ver_nums b) →
  canon_version (upper_bound b) = true ∧ ver_nums (upper_bound b) = bump (ver_nums b).
Proof.
  intros Hb Hf. destruct (canon_nums b Hb) as [Hi Hl].
  assert (upper_bound b = show_version (bump (ver_nums b))) as ->.
  { pose proof (canon_version_show b Hb) as Hs. unfold upper_bound.
    assert (str_split "." b = itoa <$> ver_nums b) as ->.
    { rewrite Hs at 1. apply split_show; [|done]. by destruct (ver_nums b); [naive_solver|]. }
    unfold bump_fits in Hf.
    destruct (ver_nums b) as [|x [|y [|z [|? ?]]]]; simpl in Hl; try lia; unfold show_version; simpl in *.
    - apply Forall_cons in Hi as [Hx _]. apply Forall_cons in Hf as [Hx1 _].
      rewrite Atoi_itoa by lia. by rewrite wrap64_small by (unfold min_int64, max_int64 in *; lia).
    - apply Forall_cons in Hi as [Hx [Hy _]%Forall_cons]. apply Forall_cons in Hf as [_ [Hy1 _]%Forall_cons].
      rewrite Atoi_itoa by lia. by rewrite wrap64_small by (unfold min_int64, max_int64 in *; lia). }
  split.
  - apply canon_show; [|done]. destruct (ver_nums b) as [|x [|y [|z [|? ?]]]]; simpl in *; lia.
  - apply ver_nums_show; [|done]. destruct (ver_nums b) as [|x [|y [|z [|? ?]]]]; simpl in *; (lia || done).
Qed.

Definition constraint_ops : list string := ["="; ">"; "<"; ">="; "<="; "~>"].

Lemma nums_ltb_asym a b : nums_ltb a b = true → nums_ltb b a = false.
Proof.
  intros H1. apply not_true_is_false. intros H2. pose proof (nums_ltb_trans _ _ _ H1 H2) as H3.
  by rewrite nums_ltb_irrefl in H3.
Qed.

Lemma nums_le_eq a b : nums_ltb b a = false ↔ a = b ∨ nums_ltb a b = true.
Proof.
  destruct (nums_ltb_total a b) as [?|[->|?]]; rewrite ?nums_ltb_irrefl; split;
    intros; destruct_or?; subst; eauto using nums_ltb_asym; try congruence.
Qed.

(** The three ways two number lists can compare. *)
Lemma nums_cases a b :
  (nums_ltb a b = true ∧ nums_ltb b a = false ∧ bool_decide (a = b) = false) ∨
  (nums_ltb a b = false ∧ nums_ltb b a = false ∧ bool_decide (a = b) = true) ∨
  (nums_ltb a b = false ∧ nums_ltb b a = true ∧ bool_decide (a = b) = false).
Proof.
  destruct (nums_ltb_total a b) as [E|[->|E]].
  - left. split_and!; [done|by apply nums_ltb_asym|]. apply bool_decide_eq_false_2.
    intros ->. by rewrite nums_ltb_irrefl in E.
  - right; left. by rewrite nums_ltb_irrefl, bool_decide_eq_true_2.
  - right; right. split_and!; [by apply nums_ltb_asym|done|]. apply bool_decide_eq_false_2.
    intros ->. by rewrite nums_ltb_irrefl in E.
Qed.

Lemma canon_eq_nums a b :
  canon_version a = true → canon_version b = true →
  bool_decide (a = b) = bool_decide (ver_nums a = ver_nums b).
Proof.
  intros Ha Hb. apply bool_decide_ext. split; [by intros ->|]. by apply ver_nums_inj.
Qed.

(** The check decides the constraint, and says "break" only when no smaller
    version can satisfy it. *)
Lemma verConstraintCheck_ok a b op :
  canon_version a = true → canon_version b = true → op ∈ constraint_ops →
  bump_fits (ver_nums b) →
  verConstraintCheck a b op = ok ↔ satisfies op (ver_nums a) (ver_nums b) = true.
Proof.
  intros Ha Hb Hop Hf. destruct (upper_bound_canon b Hb Hf) as [Hu Hun].
  unfold verConstraintCheck, satisfies.
  rewrite (canon_eq_nums a b), (versionLess_canon a b), (versionLess_canon a (upper_bound b)), Hun by done.
  unfold constraint_ops in Hop. rewrite !elem_of_cons in Hop.
  destruct (nums_cases (ver_nums a) (ver_nums b)) as [(E1 & E2 & E3)|[(E1 & E2 & E3)|(E1 & E2 & E3)]];
    rewrite E1, E2, E3;
    destruct Hop as [->|[->|[->|[->|[->|[->|Hop]]]]]]; try (by apply not_elem_of_nil in Hop); simpl;
    by try destruct (nums_ltb _ (bump _)).
Qed.

Lemma verConstraintCheck_break a b op a' :
  canon_version a = true → canon_version b = true → canon_version a' = true →
  versionLess a a' = false →
  verConstraintCheck a b op = break → verConstraintCheck a' b op ≠ ok.
Proof.
  intros Ha Hb Ha' Hle. unfold verConstraintCheck.
  rewrite (canon_eq_nums a b), (canon_eq_nums a' b), (versionLess_canon a b), (versionLess_canon a' b) by done.
  rewrite versionLess_canon in Hle by done. apply nums_le_eq in Hle.
  assert (nums_ltb (ver_nums a) (ver_nums b) = true → nums_ltb (ver_nums a') (ver_nums b) = true) as Htr.
  { destruct Hle as [->|Hle]; [done|]. intros. by eapply nums_ltb_trans. }
  assert (ver_nums a = ver_nums b → ver_nums a' = ver_nums b ∨ nums_ltb (ver_nums a') (ver_nums b) = true) as Heq.
  { intros <-. tauto. }
  pose proof (nums_ltb_irrefl (ver_nums b)) as Hirr.
  repeat case_bool_decide; subst; try done; simpl;
    destruct (nums_ltb (ver_nums a) (ver_nums b)) eqn:E1, (nums_ltb (ver_nums a') (ver_nums b)) eqn:E2;
    simpl; try done; try (intuition congruence).
  all: try (case_match; done).
Qed.

(** * Properties of versions *)

(** On canonical versions (two or three numbers without leading zeros),
    [versionLess] is the lexicographic order of the numbers, a version with
    two numbers coming before those that extend it; it is a strict total
    order, so sorting with it has one result. *)
Theorem versionLess_strict_order (a b c : string) :
  canon_version a = true → canon_version b = true → canon_version c = true →
  versionLess a b = nums_ltb (ver_nums a) (ver_nums b) ∧
  versionLess a a = false ∧
  (versionLess a b = true → versionLess b c = true → versionLess a c = true) ∧
  (versionLess a b = true ∨ a = b ∨ versionLess b a = true).
Proof.
  intros Ha Hb Hc. rewrite !versionLess_canon by done. split_and!; [done| | |].
  - apply nums_ltb_irrefl.
  - apply nums_ltb_trans.
  - destruct (nums_ltb_total (ver_nums a) (ver_nums b)) as [?|[?|?]]; [tauto| |tauto].
    right; left. by apply ver_nums_inj.
Qed.

Lemma versionLess_strict_order_witness :
  versionLess "1.9.0" "1.10" = true ∧ versionLess "1.9.0" "1.10.0" = true.
Proof.
  destruct (versionLess_strict_order "1.9.0" "1.10" "1.10.0") as (_ & _ & Ht & _);
    [vm_compute; reflexivity..|].
  split; [vm_compute; reflexivity|]. apply Ht; vm_compute; reflexivity.
Defined.

(** C19: for the six operators and canonical versions, [verConstraintCheck]
    answers "ok" exactly when the version satisfies the constraint, and it
    answers "break" only when no version that sorts at or after this one (in
    descending order) satisfies it, so stopping there loses nothing. *)
Theorem verConstraintCheck_correct (a b op : string) :
  canon_version a = true → canon_version b = true → op ∈ constraint_ops →
  bump_fits (ver_nums b) →
  (verConstraintCheck a b op = ok ↔ satisfies op (ver_nums a) (ver_nums b) = true) ∧
  (verConstraintCheck a b op = break →
   ∀ a', canon_version a' = true → versionLess a a' = false →
     satisfies op (ver_nums a') (ver_nums b) = false).
Proof.
  intros Ha Hb Hop Hf. split; [by apply verConstraintCheck_ok|].
  intros Hbr a' Ha' Hle. apply not_true_is_false.
  rewrite <-verConstraintCheck_ok by done. by apply (verConstraintCheck_break a b op a').
Qed.

Lemma verConstraintCheck_correct_witness :
  satisfies "~>" (ver_nums "1.2.5") (ver_nums "1.2.3") = true ∧
  verConstraintCheck "1.2.5" "1.2.3" "~>" = ok.
Proof.
  split; [vm_compute; reflexivity|].
  apply (verConstraintCheck_correct "1.2.5" "1.2.3" "~>"); [vm_compute; reflexivity..| | |].
  - unfold constraint_ops. set_solver.
  - assert (ver_nums "1.2.3" = [1; 2; 3]%Z) as -> by (vm_compute; reflexivity).
    repeat constructor; unfold max_int64; lia.
  - vm_compute. reflexivity.
Defined.

(** The three numbers of a canonical version "x.y.z" come back from
    [extractVerNums], for all numbers that fit an [int64]. *)
Theorem extractVerNums_show (maj min patch : Z) :
  int_list [maj; min; patch] →
  extractVerNums (show_version [maj; min; patch]) = Ok (maj, min, patch).
Proof.
  intros Hl. unfold extractVerNums.
  assert (Forall (λ z, (0 ≤ z ≤ max_int64)%Z) [maj; min; patch]) as Hl' by done.
  rewrite !Forall_cons in Hl'. destruct Hl' as (Hmaj & Hmin & Hpatch & _).
  assert (ValidateAsVersion (IStr (show_version [maj; min; patch]))
          = Ok (show_version [maj; min; patch])) as ->.
  { apply ValidateAsVersionString_Ok. split_and!; [done| |].
    - intros E. apply (f_equal (str_split ".")) in E. by rewrite split_show in E.
    - exists (itoa maj), (itoa min), (itoa patch).
      destruct (numeral_itoa maj Hmaj), (numeral_itoa min Hmin), (numeral_itoa patch Hpatch) as [Hp ?].
      rewrite version_submatch_spec. split_and!; try done; [apply Hp|by right|by right]. }
  simpl. rewrite split_show by done. simpl. by rewrite !ver_num_itoa.
Qed.

Lemma extractVerNums_show_witness : extractVerNums "10.0.7" = Ok (10, 0, 7)%Z.
Proof.
  apply (extractVerNums_show 10 0 7). repeat constructor; unfold max_int64; lia.
Defined.
