(* ===== verification/Cookbooks.v ===== *)
(** Cookbooks and their versions (src/cookbook/cookbook.go), with the data
    store as the only state: creating, listing, updating and deleting versions,
    and the file checksums that keep uploaded files alive. *)
From S2P Require Import Prelude Gerror Iface Config Store Objects UtilStrings Validations Versioning.
From S2P Require Filestore.

(** * File checksums of a version *)

Definition getAttrHashes (attr : division) : list string :=
  map (λ v, match mget "checksum" v with IStr h => h | _ => EmptyString end) attr.

Definition removeDupHashes (fhashes : list string) : list string := RemoveDupStrings fhashes.

Definition fileHashes (cbv : CookbookVersion) : list string :=
  removeDupHashes (sort_strings
    (getAttrHashes (cbv_Definitions cbv) ++ getAttrHashes (cbv_Libraries cbv)
     ++ getAttrHashes (cbv_Attributes cbv) ++ getAttrHashes (cbv_Recipes cbv)
     ++ getAttrHashes (cbv_Providers cbv) ++ getAttrHashes (cbv_Resources cbv)
     ++ getAttrHashes (cbv_Templates cbv) ++ getAttrHashes (cbv_RootFiles cbv)
     ++ getAttrHashes (cbv_Files cbv))).

(** * Versions of a cookbook *)

(** [sortedVersions]: newest first. *)
Definition sortedVersions (c : Cookbook) : list CookbookVersion :=
  omap (λ k, mlookup k (cb_Versions c)) (sort_versions (mkeys (cb_Versions c))).

Definition NumVersions (c : Cookbook) : nat := length (cb_Versions c).

Definition set_latest (c : Cookbook) (l : option CookbookVersion) : Cookbook :=
  {| cb_Name := cb_Name c; cb_Versions := cb_Versions c; cb_latest := l |}.

Definition set_versions (c : Cookbook) (vs : list (string * CookbookVersion)) : Cookbook :=
  {| cb_Name := cb_Name c; cb_Versions := vs; cb_latest := cb_latest c |}.

(** [LatestVersion] caches its answer; without versions [sorted[0]] panics. *)
Definition LatestVersion (c : Cookbook) : outcome (CookbookVersion * Cookbook) :=
  match cb_latest c with
  | Some l => Ok (l, c)
  | None =>
      match sortedVersions c with
      | [] => Panic IndexOutOfRange
      | l :: _ => Ok (l, set_latest c (Some l))
      end
  end.

Definition UpdateLatestVersion (c : Cookbook) : outcome Cookbook :=
  snd <$> LatestVersion (set_latest c None).

Definition GetVersion (c : Cookbook) (cbVersion : string) : outcome (CookbookVersion * Cookbook) :=
  if bool_decide (cbVersion = "_latest") then LatestVersion c
  else
    match mlookup cbVersion (cb_Versions c) with
    | Some cbv => Ok (cbv, c)
    | None =>
        Err (SetStatus (Errorf ("Cannot find a cookbook named " +:+ cb_Name c +:+ " with version "
                                +:+ cbVersion)) StatusNotFound)
    end.

Definition DoesVersionExist (c : Cookbook) (cbVersion : string) : outcome bool :=
  _ ← GetVersion c cbVersion; Ok true.

(** ** Listing versions under a constraint *)

Section listing.
  Context (conf : Conf).

(** [traints := strings.Split(constraint, " ")]: [None] when it is not two
    words. *)
Definition split_traints (constraint : string) : option (string * string) :=
  match str_split " " constraint with [op; ver] => Some (op, ver) | _ => None end.

(** The number of versions asked for; [None] is all of them. *)
Definition num_results (numResults : string) : option Z :=
  if bool_decide (numResults = EmptyString) then Some 1%Z
  else if bool_decide (numResults = "all") then None
  else Some (Atoi numResults).

(** [VerLoop]: [nr] versions have been taken so far. *)
Fixpoint ver_loop (limit : option Z) (traint : option (string * string)) (nr : Z)
    (vs : list CookbookVersion) : list CookbookVersion :=
  match vs with
  | [] => []
  | cv :: rest =>
      if match limit with Some n => (n <=? nr)%Z | None => false end then []
      else
        match traint with
        | Some (op, ver) =>
            match verConstraintCheck (cbv_Version cv) ver op with
            | skip => ver_loop limit traint nr rest
            | break => []
            | _ => cv :: ver_loop limit traint (nr + 1) rest
            end
        | None => cv :: ver_loop limit traint (nr + 1) rest
        end
  end.

(** A value computed for each element, in order. *)
Fixpoint traverse {A B} (f : A → outcome B) (l : list A) : outcome (list B) :=
  match l with
  | [] => Ok []
  | x :: r => y ← f x; ys ← traverse f r; Ok (y :: ys)
  end.

(** [infoHashBase]; a malformed constraint gives a nil map. *)
Definition infoHashBase (c : Cookbook) (numResults constraint : string) : outcome (option jmap) :=
  let info traint :=
    vs ← traverse (λ cv,
           url ← CustomObjURL conf "cookbooks" (cb_Name c) (cbv_Version cv);
           Ok (IMapStr [("url", url); ("version", cbv_Version cv)]))
         (ver_loop (num_results numResults) traint 0 (sortedVersions c));
    Ok (Some [("url", IStr (ObjURL conf "cookbooks" (cb_Name c))); ("versions", IArr vs)]) in
  if bool_decide (constraint = EmptyString) then info None
  else match split_traints constraint with
       | Some t => info (Some t)
       | None => Ok None
       end.

Definition InfoHash (c : Cookbook) (numResults : string) : outcome (option jmap) :=
  infoHashBase c numResults EmptyString.

Definition ConstrainedInfoHash (c : Cookbook) (numResults constraint : string) :=
  infoHashBase c numResults constraint.

(** [LatestConstrained]: nil when nothing fits or the constraint is
    malformed. *)
Fixpoint first_ok (ver op : string) (vs : list CookbookVersion) : option CookbookVersion :=
  match vs with
  | [] => None
  | cv :: rest =>
      match verConstraintCheck (cbv_Version cv) ver op with
      | ok => Some cv
      | _ => first_ok ver op rest
      end
  end.

Definition LatestConstrained (c : Cookbook) (constraint : string) : outcome (option CookbookVersion) :=
  if bool_decide (constraint = EmptyString) then (λ r, Some r.1) <$> LatestVersion c
  else match split_traints constraint with
       | Some (op, ver) => Ok (first_ok ver op (sortedVersions c))
       | None => Ok None
       end.

(** ** What the server sends back *)

(** [methodize]: file URLs are left out of PUT responses and rebuilt
    otherwise; every element needs a string checksum. *)
Definition methodize_entry (method chkSum : string) (kj : string * iface) : list (string * iface) :=
  let '(k, j) := kj in
  if bool_decide (method = "PUT") && bool_decide (k = "url") then []
  else
    let str := match j with IStr s => s | _ => EmptyString end in
    if bool_decide (k = "url") && (str_contains "/file_store/" str || bool_decide (str = EmptyString))
    then [(k, IStr (ServerBaseURL conf +:+ "/file_store/" +:+ chkSum))]
    else [(k, j)].

Definition methodize (method : string) (cbThing : division) : outcome division :=
  traverse (λ v, match mget "checksum" v with
                 | IStr chkSum => Ok (v ≫= methodize_entry method chkSum)
                 | _ => Panic TypeAssertion
                 end) cbThing.

(** A division is only sent when it has elements. *)
Definition div_field (method key : string) (d : division) (json : jmap) : outcome jmap :=
  match d with
  | [] => Ok json
  | _ => d' ← methodize method d; Ok (mset key (IDivs d') json)
  end.

Definition ToJSON (cbv : CookbookVersion) (method : string) : outcome jmap :=
  let j := [("name", IStr (cbv_Name cbv)); ("cookbook_name", IStr (cbv_CookbookName cbv))] in
  let j := if bool_decide (cbv_Version cbv = "0.0.0") then j
           else mset "version" (IStr (cbv_Version cbv)) j in
  let j := mset "chef_type" (IStr (cbv_ChefType cbv)) j in
  let j := mset "json_class" (IStr (cbv_JSONClass cbv)) j in
  let j := mset "frozen?" (IBool (cbv_IsFrozen cbv)) j in
  r ← methodize method (cbv_Recipes cbv);
  let j := mset "recipes" (IDivs r) j in
  let j := mset "metadata" (IMap (cbv_Metadata cbv)) j in
  j ← div_field method "providers" (cbv_Providers cbv) j;
  j ← div_field method "definitions" (cbv_Definitions cbv) j;
  j ← div_field method "libraries" (cbv_Libraries cbv) j;
  j ← div_field method "attributes" (cbv_Attributes cbv) j;
  j ← div_field method "resources" (cbv_Resources cbv) j;
  j ← div_field method "templates" (cbv_Templates cbv) j;
  j ← div_field method "root_files" (cbv_RootFiles cbv) j;
  div_field method "files" (cbv_Files cbv) j.

(** [universeFormat]. *)
Definition universeFormat (c : Cookbook) : outcome jmap :=
  vs ← traverse (λ cbv,
         url ← CustomObjURL conf "cookbooks" (cb_Name c) (cbv_Version cbv);
         Ok (cbv_Version cbv,
             IMap [("location_path", IStr url); ("location_type", IStr "chef_server");
                   ("dependencies", mget "dependencies" (cbv_Metadata cbv))]))
       (sortedVersions c);
  Ok (foldl (λ u kv, mset kv.1 kv.2 u) [] vs).
End listing.

(** ** Recipes *)

(** The leftmost lazy match of anything followed by ".rb": what precedes the
    first ".rb" of the first line that has one. *)
Definition recipe_base (name : string) : option string :=
  match filter (λ l, str_contains ".rb" l = true) (str_split newline name) with
  | l :: _ => Some (str_before ".rb" l)
  | [] => None
  end.

Definition recipe_name (cbv : CookbookVersion) (r : jmap) : outcome string :=
  match mget "name" r with
  | IStr name =>
      match recipe_base name with
      | None => Err (Errorf "No recipe name found")
      | Some rbase =>
          Ok (if bool_decide (rbase = "default") then cbv_CookbookName cbv
              else cbv_CookbookName cbv +:+ "::" +:+ rbase)
      end
  | _ => Panic TypeAssertion
  end.

Definition RecipeList (cbv : CookbookVersion) : outcome (list string) :=
  traverse (recipe_name cbv) (cbv_Recipes cbv).

(** * Cookbooks in the data store *)

Section store.
  Context {S : Type} {O : StoreOps S object} (conf : Conf).
  Implicit Types (s : S) (c : Cookbook) (cbv : CookbookVersion).

(** [Get]: the cookbook, if it is found. *)
Definition Get s (name : string) : outcome (option Cookbook) :=
  o ← st_get s "cookbook" name;
  match o with
  | None => Ok None
  | Some (OCookbook c) => Ok (Some c)
  | Some _ => Panic TypeAssertion
  end.

Definition already_exists (name : string) : gerror :=
  SetStatus (Errorf ("Cookbook " +:+ name +:+ " already exists")) StatusConflict.

(** [New] makes the error for a cookbook that exists, and drops it. *)
Definition New_ s (name : string) : outcome Cookbook :=
  if negb (ValidateName name) then
    Err (Errorf ("Invalid cookbook name '" +:+ name +:+
      "' using regex: 'Malformed cookbook name. Must only contain A-Z, a-z, 0-9, _ or -'."))
  else
    _ ← st_get s "cookbook" name;
    Ok {| cb_Name := name; cb_Versions := []; cb_latest := None |}.

Definition DoesExist s (name : string) : outcome bool :=
  o ← st_get s "cookbook" name; Ok (bool_decide (is_Some o)).

Definition Save s c : S := st_set s "cookbook" (cb_Name c) (OCookbook c).

Definition Delete s c : S := st_del s "cookbook" (cb_Name c).

Definition GetList s : outcome (list string) := st_list s "cookbook".

(** Listed cookbooks that are not found are skipped. *)
Fixpoint collect_cookbooks s (l : list string) : outcome (list Cookbook) :=
  match l with
  | [] => Ok []
  | n :: r =>
      o ← Get s n;
      rest ← collect_cookbooks s r;
      Ok (match o with Some c => c :: rest | None => rest end)
  end.

Definition AllCookbooks s : outcome (list Cookbook) := l ← GetList s; collect_cookbooks s l.

Definition CookbookLister s (numResults : string) : outcome (list (string * option jmap)) :=
  cbs ← AllCookbooks s;
  hs ← traverse (λ cb, h ← InfoHash conf cb numResults; Ok (cb_Name cb, h)) cbs;
  Ok (foldl (λ m kv, mset kv.1 kv.2 m) [] hs).

Definition CookbookLatest s : outcome (list (string * string)) :=
  cbs ← AllCookbooks s;
  us ← traverse (λ cb,
         l ← LatestVersion cb;
         url ← CustomObjURL conf "cookbooks" (cb_Name cb) (cbv_Version l.1);
         Ok (cb_Name cb, url)) cbs;
  Ok (foldl (λ m kv, mset kv.1 kv.2 m) [] us).

Definition CookbookRecipes s : outcome (list string) :=
  cbs ← AllCookbooks s;
  rs ← traverse (λ cb, l ← LatestVersion cb; RecipeList l.1) cbs;
  Ok (sort_strings (concat rs)).

Definition Universe s : outcome (list (string * jmap)) :=
  cbs ← AllCookbooks s;
  us ← traverse (λ cb, u ← universeFormat conf cb; Ok (cb_Name cb, u)) cbs;
  Ok (foldl (λ m kv, mset kv.1 kv.2 m) [] us).

(** ** Unused files *)

(** The innermost loop of [deleteHashes] on the sorted checksums: drop the
    one that is still used, or stop at the first greater one. *)
Fixpoint drop_used (vh : string) (fhashes : list string) : list string :=
  match fhashes with
  | [] => []
  | fh :: r =>
      if bool_decide (fh = vh) then r
      else if str_ltb vh fh then fhashes
      else fh :: drop_used vh r
  end.

(** The checksums [deleteHashes] compares with: those of every version of
    every cookbook, with [c] in place of its stored self. *)
Definition used_hashes c (ac : list Cookbook) : list string :=
  ac ≫= λ cb, sortedVersions (if bool_decide (cb_Name cb = cb_Name c) then c else cb) ≫= fileHashes.

Definition deleteHashes s c (fhashes : list string) : outcome S :=
  ac ← AllCookbooks s;
  Filestore.DeleteHashes s (foldl (λ l vh, drop_used vh l) fhashes (used_hashes c ac)).

(** ** Versions: update, create, delete *)

Definition validElements : list string :=
  ["cookbook_name"; "name"; "version"; "json_class"; "chef_type"; "definitions"; "libraries";
   "attributes"; "recipes"; "providers"; "resources"; "templates"; "root_files"; "files";
   "frozen?"; "metadata"; "force"].

Definition check_keys (cbvData : jmap) : outcome () :=
  match filter (λ k, k ∉ validElements) (mkeys cbvData) with
  | [] => Ok ()
  | k :: _ => Err (Errorf ("Invalid key " +:+ k +:+ " in request body"))
  end.

(** A field that may be left out, and otherwise has one legal value. *)
Definition fixed_field (cbvData : jmap) (key legal current : string) : outcome string :=
  match ValidateAsFieldString (mget key cbvData) with
  | Ok v => if bool_decide (v = legal) then Ok v else Err (Errorf ("Field '" +:+ key +:+ "' invalid"))
  | Err e =>
      if bool_decide (Error e = "Field 'name' nil") then Ok current
      else Err (Errorf ("Field '" +:+ key +:+ "' invalid"))
  | Panic p => Panic p
  end.

(** The unchecked [cbvData[key].(string)]. *)
Definition assert_string (i : iface) : outcome string :=
  match i with IStr s => Ok s | _ => Panic TypeAssertion end.

Definition UpdateVersion s cbv (cbvData : jmap) (force : bool) : outcome (S * CookbookVersion) :=
  if cbv_IsFrozen cbv && negb force then
    Err (SetStatus (Errorf ("The cookbook " +:+ cbv_CookbookName cbv +:+ " at version "
      +:+ cbv_Version cbv +:+ " is frozen. Use the 'force' option to override.")) StatusConflict)
  else
    let fhashes := fileHashes cbv in
    cookbook_name ←
      (match ValidateAsString (mget "cookbook_name" cbvData) with
       | Ok n => Ok n
       | Err e => Err (if bool_decide (Error e = "Field 'name' missing")
                       then Errorf "Field 'cookbook_name' missing"
                       else Errorf "Field 'cookbook_name' invalid")
       | Panic p => Panic p
       end);
    _ ← check_keys cbvData;
    chef_type ← fixed_field cbvData "chef_type" "cookbook_version" (cbv_ChefType cbv);
    json_class ← fixed_field cbvData "json_class" "Chef::CookbookVersion" (cbv_JSONClass cbv);
    version ←
      (match ValidateAsVersion (mget "version" cbvData) with
       | Ok v => Ok (if bool_decide (v = "0.0.0") && negb (bool_decide (cbv_Version cbv = EmptyString))
                     then cbv_Version cbv else v)
       | Err _ => Err (Errorf "Field 'version' invalid")
       | Panic p => Panic p
       end);
    let div d := ValidateCookbookDivision conf s d (mget d cbvData) in
    definitions ← div "definitions";
    libraries ← div "libraries";
    attributes ← div "attributes";
    recipes ← div "recipes";
    providers ← div "providers";
    resources ← div "resources";
    templates ← div "templates";
    root_files ← div "root_files";
    files ← div "files";
    metadata ← ValidateCookbookMetadata (mget "metadata" cbvData);
    frozen ← ValidateAsBool (mget "frozen?" cbvData);
    _ ← ensure (bool_decide (cookbook_name = cbv_CookbookName cbv))
          (Errorf "Field 'cookbook_name' invalid");
    name ← assert_string (mget "name" cbvData);
    _ ← ensure (bool_decide (name = cbv_Name cbv)) (Errorf "Field 'name' invalid");
    _ ← ensure (bool_decide (version = cbv_Version cbv) || bool_decide (version = "0.0.0"))
          (Errorf "Field 'version' invalid");
    let cbv' := {|
      cbv_CookbookName := cbv_CookbookName cbv; cbv_Name := cbv_Name cbv;
      cbv_Version := cbv_Version cbv; cbv_ChefType := chef_type; cbv_JSONClass := json_class;
      cbv_Definitions := definitions; cbv_Libraries := libraries; cbv_Attributes := attributes;
      cbv_Recipes := recipes; cbv_Providers := providers; cbv_Resources := resources;
      cbv_Templates := templates; cbv_RootFiles := root_files; cbv_Files := files;
      cbv_IsFrozen := if cbv_IsFrozen cbv then true else frozen;
      cbv_Metadata := metadata |} in
    if (0 <? length fhashes)%nat then
      o ← Get s (cbv_CookbookName cbv);
      match o with
      | None => Err (SetStatus (Errorf ("cannot get a cookbook with name " +:+ cbv_CookbookName cbv))
                      StatusInternalServerError)
      | Some cookbook =>
          s' ← deleteHashes s (set_versions cookbook (mset (cbv_Version cbv) cbv' (cb_Versions cookbook)))
                 fhashes;
          Ok (s', cbv')
      end
    else Ok (s, cbv').

(** The version [NewVersion] starts from. *)
Definition fresh_version c (cbVersion : string) : CookbookVersion := {|
  cbv_CookbookName := cb_Name c; cbv_Name := cb_Name c +:+ "-" +:+ cbVersion;
  cbv_Version := cbVersion; cbv_ChefType := "cookbook_version";
  cbv_JSONClass := "Chef::CookbookVersion";
  cbv_Definitions := []; cbv_Libraries := []; cbv_Attributes := []; cbv_Recipes := [];
  cbv_Providers := []; cbv_Resources := []; cbv_Templates := []; cbv_RootFiles := [];
  cbv_Files := []; cbv_IsFrozen := false; cbv_Metadata := [] |}.

Definition NewVersion s c (cbVersion : string) (cbvData : jmap)
    : outcome (S * Cookbook * CookbookVersion) :=
  match GetVersion c cbVersion with
  | Ok _ =>
      Err (SetStatus (Errorf ("Version " +:+ cbVersion +:+ " of cookbook " +:+ cb_Name c +:+
        " already exists, and shouldn't be created like this. Use UpdateVersion instead."))
        StatusConflict)
  | Panic p => Panic p
  | Err _ =>
      r ← UpdateVersion s (fresh_version c cbVersion) cbvData false;
      let '(s1, cbv) := r in
      c' ← UpdateLatestVersion (set_versions c (mset cbVersion cbv (cb_Versions c)));
      Ok (Save s1 c', c', cbv)
  end.

Definition DeleteVersion s c (cbVersion : string) : outcome (S * Cookbook) :=
  match GetVersion c cbVersion with
  | Ok (cbv, c1) =>
      let fhashes := fileHashes cbv in
      let c2 := set_versions c1 (mdel cbVersion (cb_Versions c1)) in
      s' ← deleteHashes (Save s c2) c2 fhashes;
      Ok (s', c2)
  | Err _ =>
      Err (SetStatus (Errorf ("Version " +:+ cbVersion +:+ " of cookbook " +:+ cb_Name c +:+
        " does not exist to be deleted.")) StatusNotFound)
  | Panic p => Panic p
  end.
End store.
