(* ===== verification/CookbookFacts.v ===== *)
(** Facts about cookbooks: the checksums of a version, the order of the
    versions, and the invariant that ties cookbooks to the file store. *)
From S2P Require Import Prelude Gerror Iface Config Store Objects UtilStrings Validations Versioning.
From S2P Require Import Cookbooks.
From S2P Require Filestore.

(** * Checksums *)

(** Every checksum of a version, in the order of the divisions. *)
Definition all_divisions (cbv : CookbookVersion) : list division :=
  [cbv_Definitions cbv; cbv_Libraries cbv; cbv_Attributes cbv; cbv_Recipes cbv; cbv_Providers cbv;
   cbv_Resources cbv; cbv_Templates cbv; cbv_RootFiles cbv; cbv_Files cbv].

Lemma fileHashes_eq cbv :
  fileHashes cbv = RemoveDupStrings (sort_strings (all_divisions cbv ≫= getAttrHashes)).
Proof. unfold fileHashes, removeDupHashes, all_divisions. simpl. by rewrite app_nil_r. Qed.

Lemma fileHashes_sorted cbv : StronglySorted String.le (fileHashes cbv) ∧ NoDup (fileHashes cbv).
Proof. rewrite fileHashes_eq, RemoveDupStrings_adj. apply adj_dedup_sorted, sort_strings_sorted. Qed.

Lemma elem_of_fileHashes cbv h :
  h ∈ fileHashes cbv ↔ ∃ d, d ∈ all_divisions cbv ∧ h ∈ getAttrHashes d.
Proof.
  rewrite fileHashes_eq, RemoveDupStrings_adj, adj_dedup_elem, elem_of_sort_strings, list_elem_of_bind.
  naive_solver.
Qed.

(** On sorted checksums without duplicates the early exit of the loop is
    sound: exactly the used one goes. *)
Lemma str_ltb_irrefl v : str_ltb v v = false.
Proof. apply not_true_is_false. intros H. by apply str_ltb_le in H as [_ ?]. Qed.

Lemma drop_used_spec v l :
  StronglySorted String.le l → NoDup l → drop_used v l = filter (λ h, h ≠ v) l.
Proof.
  induction l as [|h l IH]; [done|]. intros Hs Hn. apply StronglySorted_inv in Hs as [Hs Hf].
  apply NoDup_cons in Hn as [Hh Hn]. simpl. rewrite Forall_forall in Hf.
  assert (∀ l' : list string, (∀ x, x ∈ l' → x ≠ v) → filter (λ h, h ≠ v) l' = l') as Hall.
  { intros l' Hl'. induction l' as [|x l' IHl]; [done|].
    rewrite filter_cons_True by set_solver. f_equal. apply IHl. set_solver. }
  case_bool_decide as E.
  - subst. rewrite filter_cons_False by (intros Hx; by apply Hx). rewrite Hall; [done|]. by intros x Hx ->.
  - rewrite filter_cons_True by done. destruct (str_ltb v h) eqn:El.
    + f_equal. symmetry. apply Hall. intros x Hx ->. apply str_ltb_le in El as [El Hne].
      apply Hne. by apply (anti_symm String.le); [|apply Hf].
    + f_equal. by apply IH.
Qed.

Lemma filter_sorted {A} (R : relation A) (P : A → Prop) `{∀ x, Decision (P x)} l :
  StronglySorted R l → StronglySorted R (filter P l).
Proof.
  induction 1 as [|x l Hs IH Hf]; [constructor|]. rewrite filter_cons. case_decide; [|done].
  constructor; [done|]. rewrite Forall_forall in *. intros y Hy. apply Hf.
  by apply list_elem_of_filter in Hy as [_ ?].
Qed.

Lemma drop_used_all used l :
  StronglySorted String.le l → NoDup l →
  ∀ h, h ∈ foldl (λ l v, drop_used v l) l used ↔ h ∈ l ∧ h ∉ used.
Proof.
  revert l. induction used as [|v used IH]; intros l Hs Hn h; simpl; [set_solver|].
  rewrite drop_used_spec by done.
  rewrite IH by (by apply filter_sorted || by apply NoDup_filter).
  rewrite list_elem_of_filter, not_elem_of_cons. naive_solver.
Qed.

(** * Versions *)

Lemma elem_of_sortedVersions c v :
  wf_map (cb_Versions c) → v ∈ sortedVersions c ↔ ∃ k, (k, v) ∈ cb_Versions c.
Proof.
  intros Hw. unfold sortedVersions. rewrite list_elem_of_omap. unfold sort_versions.
  setoid_rewrite elem_of_go_sort. split.
  - intros (k & _ & Hk). exists k. by apply mlookup_Some.
  - intros (k & Hk). exists k. split; [|by apply mlookup_Some].
    apply list_elem_of_fmap. by exists (k, v).
Qed.

(** The versions are stored under their version strings, which are canonical. *)
Record wf_cookbook (c : Cookbook) : Prop := {
  wc_map : wf_map (cb_Versions c);
  wc_key k v : (k, v) ∈ cb_Versions c → cbv_Version v = k;
  wc_name k v : (k, v) ∈ cb_Versions c → cbv_CookbookName v = cb_Name c;
}.

Definition canon_cookbook (c : Cookbook) : Prop :=
  Forall (λ k, canon_version k = true) (mkeys (cb_Versions c)).

Lemma sortedVersions_keys c :
  wf_cookbook c → cbv_Version <$> sortedVersions c = sort_versions (mkeys (cb_Versions c)).
Proof.
  intros [Hm Hk _]. unfold sortedVersions.
  assert (∀ ks : list string, (∀ k, k ∈ ks → k ∈ mkeys (cb_Versions c)) →
    cbv_Version <$> omap (λ k, mlookup k (cb_Versions c)) ks = ks) as Haux.
  { induction ks as [|k ks IH]; [done|]. intros Hin. simpl.
    destruct (mlookup k (cb_Versions c)) as [v|] eqn:E.
    - simpl. f_equal; [|apply IH; set_solver]. apply Hk. by apply mlookup_Some.
    - apply mlookup_None in E. destruct E. apply Hin. set_solver. }
  apply Haux. intros k. unfold sort_versions. by rewrite elem_of_go_sort.
Qed.

(** Newest first: no version is older than one that follows it. *)
Lemma sortedVersions_sorted c :
  wf_cookbook c → canon_cookbook c →
  StronglySorted (λ v w, versionLess (cbv_Version v) (cbv_Version w) = false) (sortedVersions c).
Proof.
  intros Hw Hc. pose proof (sort_versions_sorted _ Hc) as Hs.
  rewrite <-sortedVersions_keys in Hs by done. induction (sortedVersions c) as [|v l IH]; [constructor|].
  simpl in Hs. apply StronglySorted_inv in Hs as [Hs Hf]. constructor; [auto|].
  by apply Forall_fmap in Hf.
Qed.

Lemma sortedVersions_canon c :
  wf_cookbook c → canon_cookbook c →
  Forall (λ v, canon_version (cbv_Version v) = true) (sortedVersions c).
Proof.
  intros Hw Hc. apply Forall_forall. intros v Hv. apply elem_of_sortedVersions in Hv as [k Hk]; [|apply Hw].
  rewrite (wc_key c Hw k v Hk). unfold canon_cookbook in Hc. rewrite Forall_forall in Hc. apply Hc.
  apply list_elem_of_fmap. by exists (k, v).
Qed.

(** ** Listings under a constraint *)

Definition sat_version (op ver : string) (v : CookbookVersion) : bool :=
  satisfies op (ver_nums (cbv_Version v)) (ver_nums ver).

(** On a descending list the loop with its early exits is the filter, cut
    off at the number of results asked for. *)
Lemma ver_loop_filter limit op ver nr vs :
  op ∈ constraint_ops → canon_version ver = true → bump_fits (ver_nums ver) →
  Forall (λ v, canon_version (cbv_Version v) = true) vs →
  StronglySorted (λ v w, versionLess (cbv_Version v) (cbv_Version w) = false) vs →
  ver_loop limit (Some (op, ver)) nr vs =
    match limit with
    | Some n => take (Z.to_nat (n - nr)) (filter (λ v, sat_version op ver v = true) vs)
    | None => filter (λ v, sat_version op ver v = true) vs
    end.
Proof.
  intros Hop Hver Hf. revert nr. induction vs as [|v vs IH]; intros nr Hc Hs.
  { destruct limit; [|done]. rewrite filter_nil. by destruct (Z.to_nat _). }
  apply Forall_cons in Hc as [Hv Hc]. apply StronglySorted_inv in Hs as [Hs Hle].
  assert (match limit with Some n => take (Z.to_nat (n - nr)) [] | None => [] end
          = ([] : list CookbookVersion)) as Hnil by (destruct limit; by rewrite ?take_nil).
  cbn [ver_loop]. destruct (match limit with Some n => (n <=? nr)%Z | None => false end) eqn:El.
  { destruct limit as [n|]; [|done]. apply Z.leb_le in El. by rewrite (Z2Nat.nonpos (n - nr)) by lia. }
  pose proof (verConstraintCheck_ok (cbv_Version v) ver op Hv Hver Hop Hf) as Hok.
  assert (verConstraintCheck (cbv_Version v) ver op ≠ invalid) as Hinv.
  { unfold verConstraintCheck. unfold constraint_ops in Hop. rewrite !elem_of_cons in Hop.
    destruct Hop as [->|[->|[->|[->|[->|[->|Hop]]]]]]; [..|by apply not_elem_of_nil in Hop];
      simpl; by repeat case_match. }
  unfold sat_version in *. destruct (verConstraintCheck (cbv_Version v) ver op) eqn:E; [..|done].
  - rewrite filter_cons_True by by apply Hok. rewrite IH by done. destruct limit as [n|]; [|done].
    apply Z.leb_gt in El. replace (Z.to_nat (n - nr)) with (S (Z.to_nat (n - (nr + 1)))) by lia. done.
  - rewrite filter_cons_False by (rewrite <-Hok; done). by rewrite IH.
  - rewrite filter_cons_False by (rewrite <-Hok; done).
    assert (filter (λ w, satisfies op (ver_nums (cbv_Version w)) (ver_nums ver) = true) vs = []) as ->.
    { rewrite Forall_forall in Hle, Hc. clear -E Hle Hc Hv Hver Hop Hf.
      induction vs as [|w vs IHv]; [done|].
      rewrite filter_cons_False; [apply IHv; set_solver|].
      rewrite <-verConstraintCheck_ok by (done || apply Hc; set_solver).
      apply (verConstraintCheck_break (cbv_Version v)); try done; [apply Hc|apply Hle]; set_solver. }
    done.
Qed.

Lemma first_ok_filter op ver vs :
  op ∈ constraint_ops → canon_version ver = true → bump_fits (ver_nums ver) →
  Forall (λ v, canon_version (cbv_Version v) = true) vs →
  first_ok ver op vs = head (filter (λ v, sat_version op ver v = true) vs).
Proof.
  intros Hop Hver Hf Hc. induction Hc as [|v vs Hv Hc IH]; [done|]. simpl.
  pose proof (verConstraintCheck_ok (cbv_Version v) ver op Hv Hver Hop Hf) as Hok.
  rewrite filter_cons. unfold sat_version at 1. case_decide as E.
  - apply Hok in E. by rewrite E.
  - rewrite <-Hok in E. destruct (verConstraintCheck _ _ _); naive_solver.
Qed.

(** * Cookbooks in the store *)

Section cookbook_store.
  Context {S : Type} {O : StoreOps S object} {L : StoreLaws S object} (conf : Conf).
  Implicit Types (s : S) (c : Cookbook) (v : CookbookVersion).

(** Every entry of the type is a well-formed cookbook under its own name. *)
Definition cookbooks_wf s : Prop := ∀ n o,
  st_get s "cookbook" n = Ok (Some o) → ∃ c, o = OCookbook c ∧ cb_Name c = n ∧ wf_cookbook c.

Definition has_version s c v : Prop := ∃ n k, Get s n = Ok (Some c) ∧ (k, v) ∈ cb_Versions c.

(** Every checksum of every stored version is in the file store. *)
Definition files_present s : Prop := ∀ c v h,
  has_version s c v → h ∈ fileHashes v → Filestore.has_file s h.

Record cb_inv s : Prop := {
  ci_store : st_inv s;
  ci_files : Filestore.files_wf s;
  ci_books : cookbooks_wf s;
  ci_present : files_present s;
}.

Lemma Get_store s n c :
  cookbooks_wf s → Get s n = Ok (Some c) ↔ st_get s "cookbook" n = Ok (Some (OCookbook c)).
Proof.
  intros Hw. unfold Get. split.
  - intros Hg. apply bind_Ok in Hg as (o & Ho & Hg). repeat (case_match; simplify_eq/=). done.
  - intros ->. done.
Qed.

Lemma Get_wf s n c :
  cookbooks_wf s → Get s n = Ok (Some c) → cb_Name c = n ∧ wf_cookbook c.
Proof. intros Hw Hg. apply Get_store in Hg; [|done]. apply Hw in Hg as (c' & [= <-] & ?). done. Qed.

Lemma Get_total s n : st_inv s → cookbooks_wf s → ∃ o, Get s n = Ok o.
Proof.
  intros Hi Hw. destruct (st_get_ok s "cookbook" n Hi eq_refl) as [[o|] E]; unfold Get; rewrite E.
  - destruct (Hw n o E) as (c & -> & _). by eexists.
  - by eexists.
Qed.

Lemma Get_Save s c n :
  st_inv s → Get (Save s c) n =
    if bool_decide (n = cb_Name c) then Ok (Some (gob_cookbook c)) else Get s n.
Proof.
  intros Hi. unfold Get, Save. rewrite st_get_set by done.
  rewrite (bool_decide_ext _ (n = cb_Name c)) by tauto. by case_bool_decide.
Qed.

Lemma Save_wf s c : st_inv s → cookbooks_wf s → wf_cookbook c → cookbooks_wf (Save s c).
Proof.
  intros Hi Hw Hc n o. unfold Save. rewrite st_get_set by done. case_bool_decide as E; [|apply Hw].
  intros [= <-]. exists (gob_cookbook c). destruct E as [_ ->]. split_and!; [done..|].
  by destruct Hc.
Qed.

Lemma Save_files s c k : st_inv s → Filestore.Get (Save s c) k = Filestore.Get s k.
Proof.
  intros Hi. unfold Filestore.Get, Save. rewrite st_get_set by done.
  by rewrite bool_decide_eq_false_2 by naive_solver.
Qed.

Lemma Save_files_wf s c : st_inv s → Filestore.files_wf s → Filestore.files_wf (Save s c).
Proof.
  intros Hi Hw k o. unfold Save. rewrite st_get_set by done.
  rewrite bool_decide_eq_false_2 by naive_solver. apply Hw.
Qed.

(** ** All cookbooks *)

Lemma collect_cookbooks_spec s l :
  st_inv s → cookbooks_wf s →
  ∃ cs, collect_cookbooks s l = Ok cs ∧
    ∀ c, c ∈ cs ↔ ∃ n, n ∈ l ∧ Get s n = Ok (Some c).
Proof.
  intros Hi Hw. induction l as [|n l (cs & IH1 & IH2)]; simpl; [exists []; set_solver|].
  destruct (Get_total s n Hi Hw) as [[c0|] E]; rewrite E; simpl; rewrite IH1; simpl.
  - exists (c0 :: cs). split; [done|]. intros c. rewrite elem_of_cons, IH2. split.
    + intros [->|(n' & ? & ?)]; [exists n|exists n']; set_solver.
    + intros (n' & [->|?]%elem_of_cons & Hg); [left; congruence|right; eauto].
  - exists cs. split; [done|]. intros c. rewrite IH2. split.
    + intros (n' & ? & ?). exists n'. set_solver.
    + intros (n' & [->|?]%elem_of_cons & Hg); [congruence|eauto].
Qed.

Lemma AllCookbooks_spec s :
  st_inv s → cookbooks_wf s →
  ∃ cs, AllCookbooks s = Ok cs ∧ ∀ c, c ∈ cs ↔ ∃ n, Get s n = Ok (Some c).
Proof.
  intros Hi Hw. unfold AllCookbooks, GetList.
  destruct (st_list_ok s "cookbook" Hi eq_refl) as (l & -> & _ & _ & Hl). simpl.
  destruct (collect_cookbooks_spec s l Hi Hw) as (cs & -> & Hcs). exists cs. split; [done|].
  intros c. rewrite Hcs. split; [naive_solver|]. intros (n & Hn). exists n. split; [|done].
  apply Hl. apply Get_store in Hn; eauto.
Qed.

(** ** Removing unused files *)

(** The checksum is used by a version of [c], or of a stored cookbook with
    another name. *)
Definition used s c (h : string) : Prop :=
  (∃ k v, (k, v) ∈ cb_Versions c ∧ h ∈ fileHashes v) ∨
  (∃ c' v, has_version s c' v ∧ cb_Name c' ≠ cb_Name c ∧ h ∈ fileHashes v).

Lemma elem_of_used_hashes s c cs h :
  cookbooks_wf s → wf_cookbook c → (∃ c0, Get s (cb_Name c) = Ok (Some c0)) →
  (∀ c', c' ∈ cs ↔ ∃ n, Get s n = Ok (Some c')) →
  h ∈ used_hashes c cs ↔ used s c h.
Proof.
  intros Hw Hc [c0 Hc0] Hcs. unfold used_hashes. rewrite list_elem_of_bind. split.
  - intros (c' & Hh & Hin). apply Hcs in Hin as [n Hn]. apply list_elem_of_bind in Hh as (v & Hh & Hv).
    destruct (Get_wf s n c' Hw Hn) as [_ Hc']. case_bool_decide as E.
    + apply elem_of_sortedVersions in Hv as [k Hk]; [|apply Hc]. left. eauto.
    + apply elem_of_sortedVersions in Hv as [k Hk]; [|apply Hc']. right. exists c', v.
      split_and!; [by exists n, k|done|done].
  - intros [(k & v & Hk & Hh)|(c' & v & (n & k & Hn & Hk) & Hne & Hh)].
    + exists c0. split; [|apply Hcs; eauto]. apply list_elem_of_bind. exists v. split; [done|].
      rewrite bool_decide_eq_true_2 by (by apply (Get_wf s _ c0 Hw)).
      apply elem_of_sortedVersions; [apply Hc|eauto].
    + exists c'. split; [|apply Hcs; eauto]. apply list_elem_of_bind. exists v. split; [done|].
      rewrite bool_decide_eq_false_2 by done. destruct (Get_wf s n c' Hw Hn) as [_ Hc'].
      apply elem_of_sortedVersions; [apply Hc'|eauto].
Qed.

(** [deleteHashes] removes exactly the given checksums that nothing uses. *)
Lemma deleteHashes_spec s c fh :
  st_inv s → Filestore.files_wf s → cookbooks_wf s → wf_cookbook c →
  (∃ c0, Get s (cb_Name c) = Ok (Some c0)) →
  StronglySorted String.le fh → NoDup fh →
  ∃ s', deleteHashes s c fh = Ok s' ∧ st_inv s' ∧ Filestore.files_wf s' ∧
    (∀ h, Filestore.has_file s' h ↔ Filestore.has_file s h ∧ ¬ (h ∈ fh ∧ ¬ used s c h)) ∧
    (∀ t k, obj_type t = true → t ≠ "filestore" → st_get s' t k = st_get s t k).
Proof.
  intros Hi Hf Hw Hc H0 Hs Hn. unfold deleteHashes.
  destruct (AllCookbooks_spec s Hi Hw) as (cs & -> & Hcs). simpl.
  set (hs := foldl _ fh _).
  destruct (Filestore.DeleteHashes_spec s hs Hi Hf) as (s' & E & Hi' & Hf' & Hg & Ho).
  exists s'. split_and!; [done..| |done]. intros h. unfold Filestore.has_file. rewrite Hg.
  assert (h ∈ hs ↔ h ∈ fh ∧ ¬ used s c h) as Hh.
  { unfold hs. rewrite drop_used_all by done. by rewrite (elem_of_used_hashes s c cs h). }
  case_bool_decide as E'; rewrite Hh in E'; naive_solver.
Qed.

Lemma same_books s s' :
  (∀ t k, obj_type t = true → t ≠ "filestore" → st_get s' t k = st_get s t k) →
  ∀ n, Get s' n = Get s n.
Proof. intros Ho n. unfold Get. by rewrite Ho. Qed.

Lemma same_books_wf s s' :
  (∀ t k, obj_type t = true → t ≠ "filestore" → st_get s' t k = st_get s t k) →
  cookbooks_wf s → cookbooks_wf s'.
Proof. intros Ho Hw n o. rewrite Ho by done. apply Hw. Qed.

(** Saving a cookbook whose files are there, then removing files that it and
    the others do not use, keeps all the files that are referred to. *)
Lemma save_prune_inv s c fh :
  cb_inv s → wf_cookbook c →
  (∀ k v h, (k, v) ∈ cb_Versions c → h ∈ fileHashes v → Filestore.has_file s h) →
  StronglySorted String.le fh → NoDup fh →
  ∃ s', deleteHashes (Save s c) c fh = Ok s' ∧ cb_inv s' ∧
    (∀ n, Get s' n = Get (Save s c) n) ∧
    (∀ h, Filestore.has_file s' h ↔ Filestore.has_file s h ∧ ¬ (h ∈ fh ∧ ¬ used (Save s c) c h)).
Proof.
  intros [Hi Hf Hw Hp] Hc Hcp Hs Hn.
  destruct (deleteHashes_spec (Save s c) c fh) as (s' & E & Hi' & Hf' & Hh & Ho); try done.
  { by apply st_set_inv. } { by apply Save_files_wf. } { by apply Save_wf. }
  { exists (gob_cookbook c). rewrite Get_Save by done. by rewrite bool_decide_eq_true_2. }
  pose proof (same_books _ _ Ho) as Hb.
  assert (∀ h, Filestore.has_file (Save s c) h ↔ Filestore.has_file s h) as Hsf.
  { intros h. unfold Filestore.has_file. by rewrite Save_files. }
  exists s'. split_and!; [done| |done|intros h; rewrite Hh, Hsf; done].
  split; [done..|by eapply same_books_wf, Save_wf|].
  intros c' v h (n & k & Hg & Hk) Hv. rewrite Hb, Get_Save in Hg by done. apply Hh. rewrite Hsf.
  case_bool_decide as En.
  - injection Hg as <-. split; [by eapply Hcp|]. intros [_ Hu]. apply Hu. left. eauto.
  - split; [apply (Hp c' v); [by exists n, k|done]|]. intros [_ Hu]. apply Hu. right. exists c', v.
    destruct (Get_wf s n c' Hw Hg) as [Hn' _]. split_and!; [|congruence|done].
    exists n, k. split; [|done]. rewrite Get_Save by done. by rewrite bool_decide_eq_false_2.
Qed.
End cookbook_store.
