(* ===== verification/CookbookSafety.v ===== *)
(** What creating, updating and deleting cookbook versions does to the server's
    state: the uploaded files stay as long as they are referred to, frozen
    versions stay frozen, and listings and latest versions are the right
    ones. *)
From S2P Require Import Prelude Gerror Iface Config Store Objects UtilStrings Validations Versioning.
From S2P Require Import Cookbooks CookbookFacts.
From S2P Require Filestore.

Section safety.
  Context {S : Type} {O : StoreOps S object} {L : StoreLaws S object} (conf : Conf).
  Implicit Types (s : S) (c : Cookbook) (v cbv : CookbookVersion).

(** * Updating a version *)

Lemma division_hashes s dname i d h :
  ValidateCookbookDivision conf s dname i = Ok d → h ∈ getAttrHashes d → Filestore.has_file s h.
Proof.
  intros Hd Hh. assert (Forall (uploaded_item conf s) d) as Hu.
  { destruct i; try done; simpl in Hd; [by injection Hd as <-|]. by eapply division_loop_uploaded. }
  apply list_elem_of_fmap in Hh as (m & -> & Hm). rewrite Forall_forall in Hu.
  destruct (Hu m Hm) as (c & -> & Hf & _). done.
Qed.

(** What a successful update leaves. *)
Record updated_version s cbv (cbvData : jmap) (force : bool) (cbv' : CookbookVersion) : Prop := {
  uv_name : cbv_Name cbv' = cbv_Name cbv;
  uv_book : cbv_CookbookName cbv' = cbv_CookbookName cbv;
  uv_version : cbv_Version cbv' = cbv_Version cbv;
  uv_force : cbv_IsFrozen cbv = true → force = true;
  uv_frozen : ∃ b, mget "frozen?" cbvData = IBool b ∧ cbv_IsFrozen cbv' = cbv_IsFrozen cbv || b;
  uv_files h : h ∈ fileHashes cbv' → Filestore.has_file s h;
  uv_meta : ∃ deps, mget "dependencies" (cbv_Metadata cbv') = IMap deps ∧
              Forall (λ kv, dependency_value kv.2) deps;
}.

Lemma UpdateVersion_inv s cbv data force s' cbv' :
  UpdateVersion conf s cbv data force = Ok (s', cbv') →
  updated_version s cbv data force cbv' ∧
  ((fileHashes cbv = [] ∧ s' = s) ∨
   fileHashes cbv ≠ [] ∧ ∃ cb, Get s (cbv_CookbookName cbv) = Ok (Some cb) ∧
     deleteHashes s (set_versions cb (mset (cbv_Version cbv) cbv' (cb_Versions cb)))
       (fileHashes cbv) = Ok s').
Proof.
  unfold UpdateVersion. destruct (cbv_IsFrozen cbv && negb force) eqn:Efr; [done|].
  intros Hu. apply bind_Ok in Hu as (cn & _ & Hu). apply bind_Ok in Hu as (u1 & _ & Hu).
  apply bind_Ok in Hu as (ct & _ & Hu). apply bind_Ok in Hu as (jc & _ & Hu).
  apply bind_Ok in Hu as (ver & _ & Hu).
  apply bind_Ok in Hu as (d1 & H1 & Hu). apply bind_Ok in Hu as (d2 & H2 & Hu).
  apply bind_Ok in Hu as (d3 & H3 & Hu). apply bind_Ok in Hu as (d4 & H4 & Hu).
  apply bind_Ok in Hu as (d5 & H5 & Hu). apply bind_Ok in Hu as (d6 & H6 & Hu).
  apply bind_Ok in Hu as (d7 & H7 & Hu). apply bind_Ok in Hu as (d8 & H8 & Hu).
  apply bind_Ok in Hu as (d9 & H9 & Hu).
  apply bind_Ok in Hu as (md & Hmd & Hu). apply bind_Ok in Hu as (fr & Hfr & Hu).
  apply bind_Ok in Hu as (u2 & _ & Hu). apply bind_Ok in Hu as (nm & _ & Hu).
  apply bind_Ok in Hu as (u3 & _ & Hu). apply bind_Ok in Hu as (u4 & _ & Hu).
  set (new := {| cbv_CookbookName := _ |}) in Hu.
  assert (updated_version s cbv data force new) as Hnew.
  { split; try done.
    - intros Hf. rewrite Hf in Efr. simpl in Efr. by destruct force.
    - exists fr. unfold ValidateAsBool in Hfr. destruct (mget "frozen?" data); try done.
      injection Hfr as ->. split; [done|]. simpl. by destruct (cbv_IsFrozen cbv).
    - intros h Hh. apply elem_of_fileHashes in Hh as (d & Hd & Hh). unfold all_divisions in Hd.
      simpl in Hd. rewrite !elem_of_cons in Hd.
      destruct Hd as [->|[->|[->|[->|[->|[->|[->|[->|[->|Hd]]]]]]]]];
        [eauto using division_hashes..|by apply not_elem_of_nil in Hd].
    - by apply metadata_dependencies in Hmd. }
  destruct (Nat.ltb_spec 0 (length (fileHashes cbv))) as [Hlt|Hge].
  - apply bind_Ok in Hu as (o & Ho & Hu). destruct o as [cb|]; [|done].
    apply bind_Ok in Hu as (s1 & Hs1 & [= <- <-]). split; [done|]. right.
    split; [by destruct (fileHashes cbv); [simpl in Hlt; lia|]|]. by exists cb.
  - injection Hu as <- <-. split; [done|]. left. split; [|done].
    destruct (fileHashes cbv); [done|simpl in Hge; lia].
Qed.

(** * Keeping the files that are referred to *)

(** The files of all versions of a cookbook are there. *)
Definition book_present s c : Prop := ∀ k v h,
  (k, v) ∈ cb_Versions c → h ∈ fileHashes v → Filestore.has_file s h.

Lemma stored_present s n c : cb_inv s → Get s n = Ok (Some c) → book_present s c.
Proof. intros Hi Hg k v h Hk Hh. apply (ci_present s Hi c v); [by exists n, k|done]. Qed.

Lemma save_inv s c : cb_inv s → wf_cookbook c → book_present s c → cb_inv (Save s c).
Proof.
  intros [Hi Hf Hw Hp] Hc Hcp. split; [by apply st_set_inv|by apply Save_files_wf|by apply Save_wf|].
  intros c' v h (n & k & Hg & Hk) Hv. unfold Filestore.has_file. rewrite Save_files by done.
  rewrite Get_Save in Hg by done. case_bool_decide as En.
  - injection Hg as <-. by eapply Hcp.
  - apply (Hp c' v); [by exists n, k|done].
Qed.

Lemma elem_of_mset {A} k (a : A) m k' a' :
  wf_map m → (k', a') ∈ mset k a m ↔ (k' = k ∧ a' = a) ∨ (k' ≠ k ∧ (k', a') ∈ m).
Proof.
  intros Hm. rewrite <-!mlookup_Some by auto with goiardi. rewrite mlookup_mset.
  case_bool_decide; subst; naive_solver.
Qed.

Lemma set_version_wf c k v :
  wf_cookbook c → cbv_Version v = k → cbv_CookbookName v = cb_Name c →
  wf_cookbook (set_versions c (mset k v (cb_Versions c))).
Proof.
  intros [Hm Hk Hn] Ev En. split; simpl.
  - by apply mset_wf.
  - intros k' v' [[-> ->]|[_ ?]]%elem_of_mset; eauto.
  - intros k' v' [[-> ->]|[_ ?]]%elem_of_mset; eauto.
Qed.

Lemma del_version_wf c k : wf_cookbook c → wf_cookbook (set_versions c (mdel k (cb_Versions c))).
Proof.
  intros [Hm Hk Hn]. split; simpl; [by apply mdel_wf|..]; intros k' v' Hin%elem_of_mdel; eauto.
Qed.

(** An update followed by saving the cookbook, as the request handler does. *)
Lemma update_save_inv s n c k cbv data force s1 cbv' :
  cb_inv s → Get s n = Ok (Some c) → mlookup k (cb_Versions c) = Some cbv →
  UpdateVersion conf s cbv data force = Ok (s1, cbv') →
  let c' := set_versions c (mset k cbv' (cb_Versions c)) in
  wf_cookbook c' ∧ book_present s c' ∧ cb_inv (Save s1 c') ∧
  (∀ n', n' ≠ n → Get (Save s1 c') n' = Get s n') ∧
  (∀ h, Filestore.has_file (Save s1 c') h ↔
        Filestore.has_file s h ∧ ¬ (h ∈ fileHashes cbv ∧ ¬ used s c' h)).
Proof.
  intros Hi Hg Hk Hu c'. destruct (Get_wf s n c (ci_books s Hi) Hg) as [Hn Hwc].
  apply UpdateVersion_inv in Hu as [Huv Hu].
  assert ((k, cbv) ∈ cb_Versions c) as Hin by (by apply mlookup_Some; [apply Hwc|]).
  pose proof (wc_key c Hwc k cbv Hin) as Ek. pose proof (wc_name c Hwc k cbv Hin) as En.
  assert (wf_cookbook c') as Hwc'.
  { apply set_version_wf; [done|by rewrite (uv_version _ _ _ _ _ Huv)|by rewrite (uv_book _ _ _ _ _ Huv)]. }
  assert (book_present s c') as Hp'.
  { intros k' v' h [[-> ->]|[_ Hin']]%elem_of_mset Hh; [by eapply uv_files| |apply Hwc].
    by eapply (stored_present s n c). }
  destruct Hu as [[Hnil ->]|(_ & cb & Hcb & Hd)].
  - split_and!; [done..|by apply save_inv| |].
    + intros n' Hne. rewrite Get_Save by apply Hi. by rewrite bool_decide_eq_false_2 by (simpl; congruence).
    + intros h. unfold Filestore.has_file. rewrite Save_files by apply Hi. rewrite Hnil. set_solver.
  - rewrite En, Hn, Hg in Hcb. injection Hcb as <-. rewrite Ek in Hd. fold c' in Hd.
    destruct Hi as [Hi Hf Hw Hp]. destruct (fileHashes_sorted cbv) as [Hs1 Hs2].
    destruct (deleteHashes_spec s c' (fileHashes cbv)) as (s2 & Hd2 & Hi2 & Hf2 & Hh & Ho); try done.
    { exists c. simpl. by rewrite Hn. }
    rewrite Hd2 in Hd. injection Hd as ->. pose proof (same_books _ _ Ho) as Hb.
    assert (∀ n', n' ≠ n → Get (Save s1 c') n' = Get s n') as Hother.
    { intros n' Hne. rewrite Get_Save by done.
      rewrite bool_decide_eq_false_2 by (simpl; congruence). apply Hb. }
    split_and!; [done..| |done|].
    + split; [by apply st_set_inv|by apply Save_files_wf|by eapply Save_wf, Hwc'; [|eapply same_books_wf]|].
      intros c2 v h (n2 & k2 & Hg2 & Hk2) Hv. unfold Filestore.has_file. rewrite Save_files by done.
      apply Hh. rewrite Get_Save in Hg2 by done. case_bool_decide as E2.
      * injection Hg2 as <-. split; [by eapply Hp'|]. intros [_ Hnu]. apply Hnu. left. eauto.
      * rewrite Hb in Hg2. split; [apply (Hp c2 v); [by exists n2, k2|done]|].
        intros [_ Hnu]. apply Hnu. right. exists c2, v.
        destruct (Get_wf s n2 c2 Hw Hg2) as [Hn2 _]. split_and!; [by exists n2, k2|congruence|done].
    + intros h. unfold Filestore.has_file at 1. rewrite Save_files by done. apply Hh.
Qed.

(** * Creating a version *)

Lemma fresh_hashes c ver : fileHashes (fresh_version c ver) = [].
Proof. done. Qed.

Lemma UpdateLatestVersion_Ok c c' :
  UpdateLatestVersion c = Ok c' → cb_Name c' = cb_Name c ∧ cb_Versions c' = cb_Versions c.
Proof.
  unfold UpdateLatestVersion, LatestVersion. simpl. intros Hu.
  apply fmap_Ok in Hu as ([l c1] & Hu & ->). destruct (sortedVersions _); [done|]. by simplify_eq/=.
Qed.

Lemma new_version_inv s c ver data s' c' cbv :
  cb_inv s → wf_cookbook c → book_present s c →
  NewVersion conf s c ver data = Ok (s', c', cbv) →
  cb_inv s' ∧ updated_version s (fresh_version c ver) data false cbv ∧ wf_cookbook c' ∧
  s' = Save s c' ∧ cb_Name c' = cb_Name c ∧ cb_Versions c' = mset ver cbv (cb_Versions c).
Proof.
  intros Hi Hw Hp. unfold NewVersion. destruct (GetVersion c ver); try done. intros Hn.
  apply bind_Ok in Hn as ([s1 v1] & Hu & Hn). apply bind_Ok in Hn as (c1 & Hl & [= <- <- <-]).
  apply UpdateVersion_inv in Hu as [Huv [[_ ->]|[Hne _]]]; [|by rewrite fresh_hashes in Hne].
  apply UpdateLatestVersion_Ok in Hl as [Hn1 Hv1]. simpl in Hn1, Hv1.
  assert (wf_cookbook c1) as Hw1.
  { destruct (set_version_wf c ver v1) as [A B C]; [done|by rewrite (uv_version _ _ _ _ _ Huv)
      |by rewrite (uv_book _ _ _ _ _ Huv)|].
    split; rewrite ?Hv1, ?Hn1; done. }
  split_and!; [|done..]. apply save_inv; [done..|].
  intros k v h. rewrite Hv1. intros [[-> ->]|[_ Hin]]%elem_of_mset Hh; [by eapply uv_files| |apply Hw].
  by eapply Hp.
Qed.

(** * Deleting a version *)

Lemma GetVersion_Ok c ver cbv c1 :
  GetVersion c ver = Ok (cbv, c1) → cb_Name c1 = cb_Name c ∧ cb_Versions c1 = cb_Versions c.
Proof.
  unfold GetVersion, LatestVersion. case_bool_decide.
  - destruct (cb_latest c); [by intros [= <- <-]|]. destruct (sortedVersions c); [done|]. by intros [= <- <-].
  - destruct (mlookup _ _); [by intros [= <- <-]|done].
Qed.

Lemma delete_version_inv s n c ver cbv c1 :
  cb_inv s → Get s n = Ok (Some c) → GetVersion c ver = Ok (cbv, c1) →
  let c2 := set_versions c1 (mdel ver (cb_Versions c)) in
  ∃ s', DeleteVersion s c ver = Ok (s', c2) ∧ cb_inv s' ∧
    (∀ n', Get s' n' = if bool_decide (n' = n) then Ok (Some (gob_cookbook c2)) else Get s n') ∧
    (∀ h, Filestore.has_file s' h ↔
          Filestore.has_file s h ∧ ¬ (h ∈ fileHashes cbv ∧ ¬ used (Save s c2) c2 h)).
Proof.
  intros Hi Hg Hv c2. destruct (Get_wf s n c (ci_books s Hi) Hg) as [Hn Hw].
  destruct (GetVersion_Ok c ver cbv c1 Hv) as [Hn1 Hv1].
  assert (wf_cookbook c2) as Hw2.
  { destruct (del_version_wf c ver Hw) as [A B C]. by split; simpl; rewrite ?Hn1. }
  assert (book_present s c2) as Hp2.
  { intros k v h Hin%elem_of_mdel Hh. by eapply (stored_present s n c). }
  destruct (fileHashes_sorted cbv) as [Hs1 Hs2].
  destruct (save_prune_inv s c2 (fileHashes cbv) Hi Hw2 Hp2 Hs1 Hs2) as (s' & Hd & Hi' & Hb & Hh).
  exists s'. unfold DeleteVersion. rewrite Hv, Hv1. fold c2. rewrite Hd. simpl. split_and!; [done..| |done].
  intros n'. rewrite Hb, Get_Save by apply Hi. simpl. by rewrite Hn1, Hn.
Qed.
End safety.

(** * A concrete server state *)

Section upload.
  Context {S : Type} {O : StoreOps S object} {L : StoreLaws S object}.
  Implicit Types (s : S).

(** Uploading files never breaks the invariant. *)
Lemma upload_inv s f : cb_inv s → cb_inv (Filestore.Save s f).
Proof.
  intros [Hi Hf Hw Hp].
  assert (∀ n, Get (Filestore.Save s f) n = Get s n) as Hb.
  { intros n. unfold Get. by rewrite Filestore.Save_other. }
  split; [by apply st_set_inv|by apply Filestore.file_Save_wf| |].
  - intros n o. rewrite Filestore.Save_other by done. apply Hw.
  - intros c v h (n & k & Hg & Hk) Hh. rewrite Hb in Hg.
    destruct (Hp c v h) as [g Hg']; [by exists n, k|done|].
    unfold Filestore.has_file. rewrite Filestore.file_Get_Save by done. case_bool_decide; eauto.
Qed.
End upload.

Lemma empty_inv : cb_inv (∅ : absStore object).
Proof.
  split.
  - intros t k v. by rewrite lookup_empty.
  - intros k o. simpl. by rewrite lookup_empty.
  - intros n o. simpl. by rewrite lookup_empty.
  - intros c v h (n & k & Hg & _). unfold Get in Hg. simpl in Hg. by rewrite lookup_empty in Hg.
Qed.

(** Two uploaded files. *)
Definition demo_files : absStore object :=
  Filestore.Save (Filestore.Save ∅ {| fs_Chksum := "aaa"; fs_Data := "x" |})
    {| fs_Chksum := "bbb"; fs_Data := "y" |}.

(** The description of a recipe file, and of a version that has it. *)
Definition demo_recipe (chksum : string) : iface :=
  IArr [IMap [("name", IStr "default.rb"); ("path", IStr "recipes/default.rb");
              ("checksum", IStr chksum); ("specificity", IStr "default")]].

Definition demo_data (ver chksum : string) (frozen : bool) : jmap :=
  [("cookbook_name", IStr "apt"); ("name", IStr ("apt-" +:+ ver)); ("version", IStr ver);
   ("recipes", demo_recipe chksum); ("frozen?", IBool frozen);
   ("metadata", IMap [("version", IStr ver); ("dependencies", IMap [])])].

Definition demo_empty : Cookbook := {| cb_Name := "apt"; cb_Versions := []; cb_latest := None |}.

Definition demo_new := NewVersion default_conf demo_files demo_empty "1.0.0"
  (demo_data "1.0.0" "aaa" true).

(** The state after creating version 1.0.0 of the cookbook "apt". *)
Definition demo_store : absStore object :=
  match demo_new with Ok (s, _, _) => s | _ => ∅ end.
Definition demo_book : Cookbook :=
  match demo_new with Ok (_, c, _) => gob_cookbook c | _ => demo_empty end.
Definition demo_version : CookbookVersion :=
  match demo_new with Ok (_, _, v) => v | _ => fresh_version demo_empty "1.0.0" end.

Lemma demo_new_ok : ∃ c,
  NewVersion default_conf demo_files demo_empty "1.0.0" (demo_data "1.0.0" "aaa" true)
    = Ok (demo_store, c, demo_version) ∧ demo_book = gob_cookbook c.
Proof.
  unfold demo_store, demo_book, demo_version. fold demo_new.
  assert (is_ok demo_new = true) as Hk by (vm_compute; reflexivity).
  destruct demo_new as [[[s c] v]| |]; [|done..]. by exists c.
Qed.

Lemma demo_files_inv : cb_inv demo_files.
Proof. by apply upload_inv, upload_inv, empty_inv. Qed.

Lemma demo_empty_wf : wf_cookbook demo_empty.
Proof. split; [constructor|simpl; set_solver..]. Qed.

Lemma demo_empty_present : book_present demo_files demo_empty.
Proof. intros k v h Hin. by apply not_elem_of_nil in Hin. Qed.

Lemma demo_inv :
  cb_inv demo_store ∧ Get demo_store "apt" = Ok (Some demo_book) ∧
  mlookup "1.0.0" (cb_Versions demo_book) = Some demo_version.
Proof.
  destruct demo_new_ok as (c & E & ->).
  destruct (new_version_inv default_conf _ _ _ _ _ _ _ demo_files_inv demo_empty_wf
    demo_empty_present E) as (Hi & _ & _ & Hs & Hn & Hv).
  split_and!; [done| |].
  - rewrite Hs. change "apt" with (cb_Name demo_empty). rewrite <-Hn.
    rewrite Get_Save by apply demo_files_inv. by rewrite bool_decide_eq_true_2.
  - change (cb_Versions (gob_cookbook c)) with (cb_Versions c). by rewrite Hv.
Qed.

(** * Properties *)

Section properties.
  Context {S : Type} {O : StoreOps S object} {L : StoreLaws S object} (conf : Conf).
  Implicit Types (s : S) (c : Cookbook).

(** C7: creating a version keeps the invariant that every checksum of every
    stored cookbook version is in the file store; the new version is stored
    under its version string with the uploaded files it was given, the other
    versions and all other cookbooks are as before. *)
Theorem new_version_keeps_files s c ver data s' c' cbv :
  cb_inv s → wf_cookbook c → book_present s c →
  NewVersion conf s c ver data = Ok (s', c', cbv) →
  cb_inv s' ∧ Get s' (cb_Name c) = Ok (Some (gob_cookbook c')) ∧
  (∀ k, mlookup k (cb_Versions c') =
     if bool_decide (k = ver) then Some cbv else mlookup k (cb_Versions c)) ∧
  cbv_Version cbv = ver ∧
  (∀ h, h ∈ fileHashes cbv → Filestore.has_file s' h) ∧
  (∀ n, n ≠ cb_Name c → Get s' n = Get s n).
Proof.
  intros Hi Hw Hp Hn. destruct (new_version_inv conf _ _ _ _ _ _ _ Hi Hw Hp Hn)
    as (Hi' & Huv & Hw' & -> & Hn' & Hv').
  split_and!; [done| | | | |].
  - rewrite Get_Save by apply Hi. by rewrite bool_decide_eq_true_2.
  - intros k. by rewrite Hv', mlookup_mset.
  - by apply Huv.
  - intros h Hh. unfold Filestore.has_file. rewrite Save_files by apply Hi.
    by apply (uv_files _ _ _ _ _ Huv).
  - intros n Hne. rewrite Get_Save by apply Hi. by rewrite bool_decide_eq_false_2 by congruence.
Qed.

(** C5: deleting a stored version succeeds and removes from the file store
    exactly those of its checksums that no remaining version of this or
    another cookbook uses; every checksum still referred to keeps its file,
    and the other cookbooks are as before. *)
Theorem delete_version_prunes s n c ver cbv :
  cb_inv s → Get s n = Ok (Some c) → mlookup ver (cb_Versions c) = Some cbv →
  ver ≠ "_latest" →
  ∃ s', DeleteVersion s c ver = Ok (s', set_versions c (mdel ver (cb_Versions c))) ∧ cb_inv s' ∧
    (∀ n', Get s' n' = if bool_decide (n' = n)
       then Ok (Some (gob_cookbook (set_versions c (mdel ver (cb_Versions c))))) else Get s n') ∧
    (∀ h, Filestore.has_file s' h ↔ Filestore.has_file s h ∧
       ¬ (h ∈ fileHashes cbv ∧ ¬ ∃ c' v, has_version s' c' v ∧ h ∈ fileHashes v)).
Proof.
  intros Hi Hg Hk Hl.
  assert (GetVersion c ver = Ok (cbv, c)) as Hv.
  { unfold GetVersion. by rewrite bool_decide_eq_false_2, Hk. }
  destruct (delete_version_inv s n c ver cbv c Hi Hg Hv) as (s' & Hd & Hi' & Hb & Hh).
  exists s'. split_and!; [done..|]. intros h. rewrite Hh.
  set (c2 := set_versions c _) in *. destruct (Get_wf s n c (ci_books s Hi) Hg) as [Hn Hw].
  assert (used (Save s c2) c2 h ↔ ∃ c' v, has_version s' c' v ∧ h ∈ fileHashes v) as ->; [|done].
  split.
  - intros [(k & v & Hin & Hv')|(c' & v & (n' & k & Hg' & Hin) & Hne & Hv')].
    + exists (gob_cookbook c2), v. split; [|done]. exists n, k. rewrite Hb. by rewrite bool_decide_eq_true_2.
    + exists c', v. split; [|done]. exists n', k. split; [|done]. rewrite Hb.
      rewrite Get_Save in Hg' by apply Hi. simpl in Hg'. rewrite Hn in Hg'.
      case_bool_decide; [|done]. by simplify_eq/=.
  - intros (c' & v & (n' & k & Hg' & Hin) & Hv'). rewrite Hb in Hg'. case_bool_decide as En.
    + injection Hg' as <-. left. eauto.
    + right. exists c', v. split_and!; [|simpl; destruct (Get_wf s n' c' (ci_books s Hi) Hg'); congruence|done].
      exists n', k. split; [|done]. rewrite Get_Save by apply Hi. simpl.
      by rewrite bool_decide_eq_false_2 by congruence.
Qed.

(** C6: updating a stored version and saving its cookbook, as the request
    handler does, keeps every file that some stored version refers to,
    removes exactly the files that only the old contents of the version used,
    and changes no other cookbook and no identity of the version. *)
Theorem update_version_keeps_files s n c k cbv data force s1 cbv' :
  cb_inv s → Get s n = Ok (Some c) → mlookup k (cb_Versions c) = Some cbv →
  UpdateVersion conf s cbv data force = Ok (s1, cbv') →
  let c' := set_versions c (mset k cbv' (cb_Versions c)) in
  cb_inv (Save s1 c') ∧
  (∀ n', n' ≠ n → Get (Save s1 c') n' = Get s n') ∧
  (∀ h, Filestore.has_file (Save s1 c') h ↔
        Filestore.has_file s h ∧ ¬ (h ∈ fileHashes cbv ∧ ¬ used s c' h)) ∧
  cbv_Name cbv' = cbv_Name cbv ∧ cbv_CookbookName cbv' = cbv_CookbookName cbv ∧
  cbv_Version cbv' = cbv_Version cbv.
Proof.
  intros Hi Hg Hk Hu c'.
  destruct (update_save_inv conf s n c k cbv data force s1 cbv' Hi Hg Hk Hu) as (_ & _ & ? & ? & ?).
  apply UpdateVersion_inv in Hu as [[] _]. done.
Qed.

(** C8: a frozen version is refused with a conflict unless the update is
    forced, the refusal changes nothing, and no update ever unfreezes a
    version: it is frozen afterwards exactly when it was before or the request
    says so. *)
Theorem frozen_versions_stay s cbv data force :
  (cbv_IsFrozen cbv = true → force = false →
     ∃ e, UpdateVersion conf s cbv data force = Err e ∧ Status e = StatusConflict) ∧
  (∀ s' cbv', UpdateVersion conf s cbv data force = Ok (s', cbv') →
     (cbv_IsFrozen cbv = true → force = true) ∧
     ∃ b, mget "frozen?" data = IBool b ∧ cbv_IsFrozen cbv' = cbv_IsFrozen cbv || b).
Proof.
  split.
  - intros Hf ->. unfold UpdateVersion. rewrite Hf. simpl. by eexists.
  - intros s' cbv' [[] _]%UpdateVersion_inv. done.
Qed.
End properties.

Lemma new_version_keeps_files_witness :
  Get demo_store "apt" = Ok (Some demo_book) ∧
  ∀ h, h ∈ fileHashes demo_version → Filestore.has_file demo_store h.
Proof.
  destruct demo_new_ok as (c & E & ->).
  destruct (new_version_keeps_files default_conf _ _ _ _ _ _ _ demo_files_inv demo_empty_wf
    demo_empty_present E) as (_ & Hg & _ & _ & Hh & _).
  split; [exact Hg|exact Hh].
Defined.

Lemma delete_version_prunes_witness :
  ∃ s' c', DeleteVersion demo_store demo_book "1.0.0" = Ok (s', c') ∧ cb_inv s'.
Proof.
  destruct demo_inv as (Hi & Hg & Hk).
  destruct (delete_version_prunes demo_store "apt" demo_book "1.0.0" demo_version Hi Hg Hk)
    as (s' & E & Hi' & _); [done|]. eexists s', _. split; [exact E|exact Hi'].
Defined.

(** A forced update that exchanges the recipe file. *)
Definition demo_update :=
  UpdateVersion default_conf demo_store demo_version (demo_data "1.0.0" "bbb" false) true.

Lemma update_version_keeps_files_witness :
  ∃ s1 v, demo_update = Ok (s1, v) ∧
    cb_inv (Save s1 (set_versions demo_book (mset "1.0.0" v (cb_Versions demo_book)))).
Proof.
  assert (is_ok demo_update = true) as Hk by (vm_compute; reflexivity).
  destruct demo_update as [[s1 v]| |] eqn:E; [|done..]. exists s1, v. split; [done|].
  destruct demo_inv as (Hi & Hg & Hv).
  apply (update_version_keeps_files default_conf demo_store "apt" demo_book "1.0.0" demo_version
    (demo_data "1.0.0" "bbb" false) true s1 v Hi Hg Hv E).
Defined.

Lemma frozen_versions_stay_witness :
  ∃ e, UpdateVersion default_conf demo_store demo_version (demo_data "1.0.0" "bbb" false) false = Err e ∧
       Status e = StatusConflict.
Proof.
  apply (frozen_versions_stay default_conf demo_store demo_version (demo_data "1.0.0" "bbb" false) false);
    [vm_compute; reflexivity|reflexivity].
Defined.
