(* ===== verification/CookbookListing.v ===== *)
(** Listing cookbook versions under constraints, and the latest version
    (the listing half of src/cookbook/cookbook.go). *)
From S2P Require Import Prelude Gerror Iface Config Store Objects Validations Versioning.
From S2P Require Import Cookbooks CookbookFacts.

Lemma traverse_map {A B} (f : A → outcome B) (g : A → B) l :
  (∀ x, x ∈ l → f x = Ok (g x)) → traverse f l = Ok (g <$> l).
Proof.
  induction l as [|x l IH]; intros Hf; [done|]. simpl. rewrite Hf by set_solver. simpl.
  by rewrite IH by set_solver.
Qed.

(** What is listed about a version. *)
Definition version_url (conf : Conf) (c : Cookbook) (ver : string) : string :=
  ObjURL conf "cookbooks" (cb_Name c) +:+ "/" +:+ ver.

Definition version_info (conf : Conf) (c : Cookbook) (v : CookbookVersion) : iface :=
  IMapStr [("url", version_url conf c (cbv_Version v)); ("version", cbv_Version v)].

Lemma canon_head s : canon_version s = true → ∃ d r, s = String d r ∧ is_digit d = true.
Proof.
  intros Hc. rewrite (canon_version_show s Hc). destruct (canon_nums s Hc) as [Hi Hl].
  destruct (ver_nums s) as [|x l]; [simpl in Hl; lia|]. apply Forall_cons in Hi as [Hx _].
  destruct (itoa_digits x) as (Hd & _ & Hne); [lia|].
  assert (∃ t, show_version (x :: l) = itoa x +:+ t) as [t ->].
  { unfold show_version. destruct l as [|y l]; simpl; [exists EmptyString; by rewrite str_app_nil_r|].
    by eexists. }
  destruct (itoa x) as [|d r]; [done|]. simpl in Hd. bool_split. by exists d, (r +:+ t).
Qed.

Lemma CustomObjURL_canon conf c ver :
  canon_version ver = true →
  CustomObjURL conf "cookbooks" (cb_Name c) ver = Ok (version_url conf c ver).
Proof.
  intros Hc. destruct (canon_head ver Hc) as (d & r & -> & Hd). unfold CustomObjURL, chkPath. simpl.
  rewrite bool_decide_eq_false_2; [done|]. by intros ->.
Qed.

(** A version string has no space, so a constraint splits in two words. *)
Lemma canon_no_space s :
  canon_version s = true → str_all (λ c, negb (bool_decide (c = " "%char))) s = true.
Proof.
  intros Hc. rewrite (canon_version_show s Hc). destruct (canon_nums s Hc) as [Hi _].
  unfold show_version. induction Hi as [|x l Hx Hi IH]; [done|].
  assert (str_all (λ c, negb (bool_decide (c = " "%char))) (itoa x) = true) as Hs.
  { destruct (itoa_digits x) as (Hd & _); [lia|]. eapply str_all_impl; [|exact Hd].
    intros c Hc'. bool_split. by apply bool_decide_eq_false_2; intros ->. }
  destruct l as [|y l]; [done|].
  change (str_join "." (itoa <$> x :: y :: l)) with (itoa x +:+ "." +:+ str_join "." (itoa <$> y :: l)).
  rewrite !str_all_app, Hs. by rewrite IH.
Qed.

Lemma split_traints_op op ver :
  op ∈ constraint_ops → canon_version ver = true →
  split_traints (op +:+ " " +:+ ver) = Some (op, ver) ∧ op +:+ " " +:+ ver ≠ EmptyString.
Proof.
  intros Hop Hv. split.
  - unfold split_traints. change (op +:+ " " +:+ ver) with (op +:+ String " "%char ver).
    rewrite str_split_app; [by rewrite str_split_no_sep by by apply canon_no_space|].
    unfold constraint_ops in Hop. rewrite !elem_of_cons in Hop.
    by destruct Hop as [->|[->|[->|[->|[->|[->|Hop]]]]]]; [..|apply not_elem_of_nil in Hop].
  - unfold constraint_ops in Hop. rewrite !elem_of_cons in Hop.
    by destruct Hop as [->|[->|[->|[->|[->|[->|Hop]]]]]]; [..|apply not_elem_of_nil in Hop].
Qed.

(** The versions that satisfy a constraint, newest first. *)
Definition satisfying (c : Cookbook) (op ver : string) : list CookbookVersion :=
  filter (λ v, sat_version op ver v = true) (sortedVersions c).

Definition cut (limit : option Z) (vs : list CookbookVersion) : list CookbookVersion :=
  match limit with Some n => take (Z.to_nat n) vs | None => vs end.

(** * Properties *)


(** [LatestVersion] of a cookbook with versions is a stored version, no
    stored version is newer, and every other one is older. *)
Theorem latest_version_max c :
  wf_cookbook c → canon_cookbook c → cb_latest c = None → cb_Versions c ≠ [] →
  ∃ v, LatestVersion c = Ok (v, set_latest c (Some v)) ∧
    mlookup (cbv_Version v) (cb_Versions c) = Some v ∧
    ∀ k w, mlookup k (cb_Versions c) = Some w → k ≠ cbv_Version v → versionLess k (cbv_Version v) = true.
Proof.
  intros Hw Hc Hl Hne. unfold LatestVersion. rewrite Hl.
  pose proof (sortedVersions_sorted c Hw Hc) as Hs. pose proof (sortedVersions_canon c Hw Hc) as Hcan.
  pose proof (elem_of_sortedVersions c) as He. pose proof (wc_map c Hw) as Hm.
  destruct (sortedVersions c) as [|v l].
  { exfalso. destruct (cb_Versions c) as [|[k w] vs] eqn:E; [done|].
    apply (not_elem_of_nil w). apply He; [done|]. exists k. set_solver. }
  exists v. split; [done|]. apply StronglySorted_inv in Hs as [_ Hle]. rewrite Forall_forall in Hle, Hcan.
  destruct (proj1 (He v Hm)) as [k Hk]; [set_solver|].
  pose proof (wc_key c Hw k v Hk) as Ek. split; [rewrite Ek; by apply mlookup_Some|].
  intros k' w Hk' Hne'. apply mlookup_Some in Hk'; [|done].
  assert (w ∈ v :: l) as Hin by (apply He; eauto).
  assert (cbv_Version w = k') as Ew by by apply (wc_key c Hw).
  apply elem_of_cons in Hin as [->|Hin]; [congruence|]. specialize (Hle w Hin).
  rewrite <-Ew in *. rewrite versionLess_canon in * by (apply Hcan; set_solver).
  destruct (nums_cases (ver_nums (cbv_Version w)) (ver_nums (cbv_Version v)))
    as [(?&?&?)|[(?&?&Heq)|(?&?&?)]]; [done| |congruence].
  apply bool_decide_eq_true in Heq. apply ver_nums_inj in Heq; [congruence|apply Hcan; set_solver..].
Qed.

(** [LatestConstrained] returns the newest version that satisfies the
    constraint, and nil exactly when no version does. *)
Theorem latest_constrained_max c op ver :
  wf_cookbook c → canon_cookbook c → op ∈ constraint_ops → canon_version ver = true →
  bump_fits (ver_nums ver) →
  ∃ o, LatestConstrained c (op +:+ " " +:+ ver) = Ok o ∧
    match o with
    | Some v => v ∈ sortedVersions c ∧ sat_version op ver v = true ∧
        ∀ w, w ∈ sortedVersions c → sat_version op ver w = true →
             versionLess (cbv_Version v) (cbv_Version w) = false
    | None => ∀ w, w ∈ sortedVersions c → sat_version op ver w = false
    end.
Proof.
  intros Hw Hc Hop Hv Hf. destruct (split_traints_op op ver Hop Hv) as [Hs Hne].
  unfold LatestConstrained. rewrite (bool_decide_eq_false_2 _ Hne), Hs.
  pose proof (sortedVersions_canon c Hw Hc) as Hcan.
  rewrite first_ok_filter by done. eexists. split; [done|].
  pose proof (sortedVersions_sorted c Hw Hc) as Hso.
  apply (filter_sorted _ (λ v, sat_version op ver v = true)) in Hso.
  assert (∀ w, w ∈ filter (λ v, sat_version op ver v = true) (sortedVersions c) ↔
    sat_version op ver w = true ∧ w ∈ sortedVersions c) as Hin by (intros w; by rewrite list_elem_of_filter).
  destruct (filter _ (sortedVersions c)) as [|v l]; simpl.
  - intros w Hw'. apply not_true_is_false. intros Hsat.
    apply (not_elem_of_nil w). by apply Hin.
  - destruct (proj1 (Hin v)) as [??]; [set_solver|]. split_and!; [done..|].
    intros w Hw' Hsat. apply StronglySorted_inv in Hso as [_ Hle]. rewrite Forall_forall in Hle.
    assert (w ∈ v :: l) as [->|Hl]%elem_of_cons by by apply Hin.
    + unfold versionLess. by rewrite bool_decide_eq_true_2.
    + by apply Hle.
Qed.

(** A cookbook with three versions. *)
Definition demo_versions : Cookbook :=
  let v ver := {|
    cbv_CookbookName := "apt"; cbv_Name := "apt-" +:+ ver; cbv_Version := ver;
    cbv_ChefType := "cookbook_version"; cbv_JSONClass := "Chef::CookbookVersion";
    cbv_Definitions := []; cbv_Libraries := []; cbv_Attributes := []; cbv_Recipes := [];
    cbv_Providers := []; cbv_Resources := []; cbv_Templates := []; cbv_RootFiles := [];
    cbv_Files := []; cbv_IsFrozen := false; cbv_Metadata := [] |} in
  {| cb_Name := "apt";
     cb_Versions := [("1.2.0", v "1.2.0"); ("1.10.0", v "1.10.0"); ("0.9", v "0.9")];
     cb_latest := None |}.

Lemma demo_versions_wf : wf_cookbook demo_versions ∧ canon_cookbook demo_versions.
Proof.
  split; [split|].
  - apply (bool_decide_eq_true_1 (NoDup _)). vm_compute. reflexivity.
  - intros k v Hin. simpl in Hin. rewrite !elem_of_cons in Hin.
    by destruct Hin as [[= -> ->]|[[= -> ->]|[[= -> ->]|Hin]]]; [..|apply not_elem_of_nil in Hin].
  - intros k v Hin. simpl in Hin. rewrite !elem_of_cons in Hin.
    by destruct Hin as [[= -> ->]|[[= -> ->]|[[= -> ->]|Hin]]]; [..|apply not_elem_of_nil in Hin].
  - repeat constructor.
Qed.

Lemma demo_bump : bump_fits (ver_nums "1.0").
Proof.
  assert (ver_nums "1.0" = [1; 0]%Z) as -> by (vm_compute; reflexivity).
  repeat constructor; unfold max_int64; lia.
Qed.


Lemma latest_version_max_witness :
  ∃ v, LatestVersion demo_versions = Ok (v, set_latest demo_versions (Some v)) ∧
       versionLess "1.2.0" (cbv_Version v) = true.
Proof.
  destruct demo_versions_wf as [Hw Hc].
  destruct (latest_version_max demo_versions Hw Hc) as (v & E & _ & Hm); [done|done|].
  exists v. split; [exact E|]. eapply Hm; [vm_compute; reflexivity|].
  intros Hv. vm_compute in E. injection E as <-. discriminate.
Defined.

Lemma latest_constrained_max_witness :
  ∃ o, LatestConstrained demo_versions "< 1.0" = Ok o ∧ cbv_Version <$> o = Some "0.9".
Proof.
  destruct demo_versions_wf as [Hw Hc].
  destruct (latest_constrained_max demo_versions "<" "1.0" Hw Hc) as (o & E & _);
    [unfold constraint_ops; set_solver|vm_compute; reflexivity|apply demo_bump|].
  exists o. split; [exact E|]. vm_compute in E. injection E as <-. reflexivity.
Defined.
