(* ===== verification/Digraph.v ===== *)
(** Directed graphs (src/digraph/util.go): the depth-first walk, unreachable
    nodes, degrees, sources and sinks.

    Nodes are compared by identity, so they are any countable type; [succ n]
    lists the tails of the edges of [n] in order. *)
From S2P Require Import Prelude.
From stdpp Require Import relations.

Section digraph.
  Context {N : Type} `{Countable N} (succ : N → list N).
  Implicit Types (n : N) (frontier : list N) (seen : gset N).

(** * Operations *)

(** The loop of [DepthFirstWalk]: the frontier is a stack whose top is the
    head of the list, so pushing the edges in reverse puts them in front in
    order.  The callback may change a state and refuse the children.  [None]
    is running out of fuel. *)
Fixpoint walk_loop {St : Type} (cb : N → St → bool * St) (fuel : nat) frontier seen (st : St)
    : option (St * gset N) :=
  match frontier with
  | [] => Some (st, seen)
  | current :: rest =>
      match fuel with
      | O => None
      | S fuel =>
          if bool_decide (current ∈ seen) then walk_loop cb fuel rest seen st
          else
            let '(descend, st') := cb current st in
            walk_loop cb fuel (if descend then succ current ++ rest else rest)
              ({[current]} ∪ seen) st'
      end
  end.

Definition DepthFirstWalk {St : Type} (fuel : nat) (node : N) (cb : N → St → bool * St) (st : St)
    : option St :=
  fst <$> walk_loop cb fuel [node] ∅ st.

(** The nodes not reached from [start]: the same loop without a callback. *)
Definition Unreachable (fuel : nat) (start : N) (nodes : list N) : option (list N) :=
  (λ r, filter (λ n, n ∉ r.2) nodes) <$> walk_loop (λ _ (u : unit), (true, u)) fuel [start] ∅ ().

Definition FilterDegree (degree : nat) (degrees : gmap N nat) : list N :=
  (filter (λ nd, nd.2 = degree) (map_to_list degrees)).*1.

(** One node's turn in [InDegree]: an entry for it, and one for each edge. *)
Definition in_degree_step (degree : gmap N nat) n : gmap N nat :=
  foldl (λ d t, <[t := S (default 0 (d !! t))]> d)
    (match degree !! n with Some _ => degree | None => <[n := 0]> degree end) (succ n).

Definition InDegree (nodes : list N) : gmap N nat := foldl in_degree_step ∅ nodes.

Definition OutDegree (nodes : list N) : gmap N nat :=
  foldl (λ d n, <[n := length (succ n)]> d) ∅ nodes.

Definition Sinks (nodes : list N) : list N := FilterDegree 0 (OutDegree nodes).

Definition Sources (nodes : list N) : list N := FilterDegree 0 (InDegree nodes).

(** * Reachability *)

Definition edge (a b : N) : Prop := b ∈ succ a.
Definition reach (a b : N) : Prop := rtc edge a b.

(** The work left: the frontier, and the edges of the nodes still unseen. *)
Definition out_edges (nodes : list N) : nat := sum_list_with (λ n, length (succ n)) nodes.

Definition work (V seen : gset N) frontier : nat := length frontier + out_edges (elements (V ∖ seen)).

Lemma out_edges_perm l l' : l ≡ₚ l' → out_edges l = out_edges l'.
Proof. intros Hp. unfold out_edges. induction Hp; simpl; lia. Qed.

Lemma work_seen V seen frontier n :
  n ∈ V → n ∉ seen →
  out_edges (elements (V ∖ seen)) = length (succ n) + out_edges (elements (V ∖ ({[n]} ∪ seen))).
Proof.
  intros Hv Hs. rewrite (out_edges_perm _ (n :: elements (V ∖ ({[n]} ∪ seen)))); [done|].
  assert (V ∖ seen = {[n]} ∪ (V ∖ ({[n]} ∪ seen))) as ->.
  { apply set_eq. intros x. destruct (decide (x = n)); set_solver. }
  by rewrite elements_union_singleton by set_solver.
Qed.

(** The invariant of the walk when every node lets its children be visited:
    everything met is reachable, and the edges of the seen nodes lead to seen
    nodes or to the frontier. *)
Record walk_inv (start : N) seen frontier : Prop := {
  wi_seen n : n ∈ seen → reach start n;
  wi_frontier n : n ∈ frontier → reach start n;
  wi_closed n m : n ∈ seen → edge n m → m ∈ seen ∨ m ∈ frontier;
  wi_start : start ∈ seen ∨ start ∈ frontier;
}.

Lemma walk_inv_skip start seen n frontier :
  walk_inv start seen (n :: frontier) → n ∈ seen → walk_inv start seen frontier.
Proof.
  intros [H1 H2 H3 H4] Hn. split; [done| | |].
  - intros m Hm. apply H2. set_solver.
  - intros m k Hm Hk. destruct (H3 m k Hm Hk) as [?|[->|?]%elem_of_cons]; auto.
  - destruct H4 as [?|[->|?]%elem_of_cons]; auto.
Qed.

Lemma walk_inv_visit start seen n frontier :
  walk_inv start seen (n :: frontier) →
  walk_inv start ({[n]} ∪ seen) (succ n ++ frontier).
Proof.
  intros [H1 H2 H3 H4]. assert (reach start n) as Hn by (apply H2; set_solver). split.
  - intros m [->%elem_of_singleton|Hm]%elem_of_union; auto.
  - intros m [Hm|Hm]%elem_of_app; [|apply H2; set_solver]. by eapply rtc_r.
  - intros m k [->%elem_of_singleton|Hm]%elem_of_union Hk; [right; set_solver|].
    destruct (H3 m k Hm Hk); set_solver.
  - set_solver.
Qed.

Lemma walk_inv_done start seen : walk_inv start seen [] → ∀ n, n ∈ seen ↔ reach start n.
Proof.
  intros [H1 _ H3 H4] n. split; [apply H1|]. intros Hr.
  assert (start ∈ seen) as Hs by (destruct H4; [done|set_solver]). clear H1 H4.
  induction Hr as [|a b c Hab _ IH]; [done|]. apply IH. destruct (H3 a b Hs Hab); [done|set_solver].
Qed.

(** The nodes in the order they are visited, newest last. *)
Definition record_visit n (visited : list N) : bool * list N := (true, visited ++ [n]).

(** A callback that always descends can be run over the visited nodes
    afterwards. *)
Lemma walk_loop_fold {St} (f : N → St → St) fuel frontier seen st visited :
  walk_loop (λ n s, (true, f n s)) fuel frontier seen (foldl (λ s n, f n s) st visited) =
  (λ r, (foldl (λ s n, f n s) st r.1, r.2)) <$> walk_loop record_visit fuel frontier seen visited.
Proof.
  revert frontier seen visited. induction fuel as [|fuel IH]; intros [|n frontier] seen visited;
    simpl; [done..|]. case_bool_decide; [apply IH|]. rewrite <-IH. by rewrite foldl_app.
Qed.

Lemma walk_loop_spec (V : gset N) start fuel frontier seen visited :
  (∀ n, n ∈ V → ∀ m, edge n m → m ∈ V) → (∀ n, n ∈ frontier → n ∈ V) →
  walk_inv start seen frontier → NoDup visited → (∀ n, n ∈ visited ↔ n ∈ seen) →
  work V seen frontier ≤ fuel →
  ∃ order final, walk_loop record_visit fuel frontier seen visited = Some (order, final) ∧
    NoDup order ∧ (∀ n, n ∈ order ↔ reach start n) ∧ (∀ n, n ∈ final ↔ reach start n).
Proof.
  intros HV. revert frontier seen visited.
  induction fuel as [|fuel IH]; intros frontier seen visited Hf Hi Hn Hvs Hw.
  { destruct frontier; [|unfold work in Hw; simpl in Hw; lia]. exists visited, seen. split; [done|].
    split_and!; [done| |by apply walk_inv_done]. intros n. rewrite Hvs. by apply walk_inv_done. }
  destruct frontier as [|n rest]; simpl.
  { exists visited, seen. split; [done|].
    split_and!; [done| |by apply walk_inv_done]. intros n. rewrite Hvs. by apply walk_inv_done. }
  case_bool_decide as Hs.
  - apply IH; [set_solver|by eapply walk_inv_skip|done..|]. unfold work in *. simpl in Hw. lia.
  - assert (n ∈ V) as Hnv by (apply Hf; set_solver).
    apply IH; [|by apply walk_inv_visit| | |].
    + intros m [Hm|Hm]%elem_of_app; [by eapply HV|apply Hf; set_solver].
    + apply NoDup_app. split_and!; [done| |apply NoDup_singleton].
      intros m Hm ->%list_elem_of_singleton. by apply Hs, Hvs.
    + intros m. rewrite elem_of_app, list_elem_of_singleton, Hvs. set_solver.
    + unfold work in *. simpl in Hw. rewrite (work_seen V seen rest n) in Hw by done.
      rewrite length_app. lia.
Qed.

(** Enough fuel for a walk inside [V]. *)
Definition walk_fuel (V : gset N) : nat := 1 + out_edges (elements V).

Lemma walk_reaches (V : gset N) start fuel :
  start ∈ V → (∀ n, n ∈ V → ∀ m, edge n m → m ∈ V) → walk_fuel V ≤ fuel →
  ∃ order final, walk_loop record_visit fuel [start] ∅ [] = Some (order, final) ∧
    NoDup order ∧ (∀ n, n ∈ order ↔ reach start n) ∧ (∀ n, n ∈ final ↔ reach start n).
Proof.
  intros Hs HV Hf. apply (walk_loop_spec V start); [done|set_solver| |constructor|set_solver|].
  - split; [set_solver| |set_solver|set_solver].
    intros n ->%list_elem_of_singleton. apply rtc_refl.
  - unfold work, walk_fuel in *. simpl. by rewrite difference_empty_L.
Qed.
(** ** Degrees *)

Lemma elem_of_FilterDegree k (d : gmap N nat) n : n ∈ FilterDegree k d ↔ d !! n = Some k.
Proof.
  unfold FilterDegree. rewrite list_elem_of_fmap. split.
  - intros ([n' k'] & -> & [Hk Hm]%list_elem_of_filter). simpl in *. subst.
    by apply elem_of_map_to_list.
  - intros Hd. exists (n, k). split; [done|]. apply list_elem_of_filter.
    by rewrite elem_of_map_to_list.
Qed.

Lemma OutDegree_lookup nodes n :
  OutDegree nodes !! n = if bool_decide (n ∈ nodes) then Some (length (succ n)) else None.
Proof.
  unfold OutDegree. induction nodes as [|m nodes IH] using rev_ind; [done|].
  rewrite foldl_app. simpl. destruct (decide (n = m)) as [->|Hne].
  - rewrite lookup_insert_eq. by rewrite bool_decide_eq_true_2 by set_solver.
  - rewrite lookup_insert_ne, IH by done. repeat case_bool_decide; set_solver.
Qed.

(** How often a node is the tail of one of the edges. *)
Definition count (n : N) (l : list N) : nat := length (filter (λ t, t = n) l).

Lemma count_app n l l' : count n (l ++ l') = count n l + count n l'.
Proof. unfold count. by rewrite filter_app, length_app. Qed.

Lemma count_zero n l : count n l = 0 ↔ n ∉ l.
Proof.
  unfold count. induction l as [|t l IH]; [set_solver|]. rewrite filter_cons, not_elem_of_cons.
  case_decide; simpl; [naive_solver|]. rewrite IH. naive_solver.
Qed.

Lemma count_tails l (d : gmap N nat) n :
  foldl (λ d t, <[t := S (default 0 (d !! t))]> d) d l !! n =
    if bool_decide (n ∈ l) then Some (default 0 (d !! n) + count n l) else d !! n.
Proof.
  revert d. induction l as [|t l IH]; intros d; [done|]. cbn [foldl]. rewrite IH. clear IH.
  change (t :: l) with ([t] ++ l). rewrite count_app. pose proof (count_zero n l) as Hz.
  destruct (decide (t = n)) as [->|Hne].
  - rewrite lookup_insert_eq. assert (count n [n] = 1) as ->.
    { unfold count. by rewrite filter_cons_True. }
    rewrite (bool_decide_eq_true_2 (n ∈ [n] ++ l)) by set_solver. simpl.
    case_bool_decide; f_equal; [lia|]. rewrite (proj2 Hz) by done. lia.
  - rewrite lookup_insert_ne by done. rewrite (proj2 (count_zero n [t])) by set_solver.
    repeat case_bool_decide; set_solver.
Qed.

Lemma InDegree_lookup nodes n :
  InDegree nodes !! n =
    if bool_decide (n ∈ nodes ∨ n ∈ nodes ≫= succ) then Some (count n (nodes ≫= succ)) else None.
Proof.
  unfold InDegree. induction nodes as [|m nodes IH] using rev_ind; [done|].
  rewrite foldl_app, bind_app, count_app. cbn [foldl]. unfold in_degree_step at 1.
  rewrite count_tails. set (d := foldl in_degree_step ∅ nodes) in *.
  assert (([m] ≫= succ) = succ m) as -> by (simpl; by rewrite app_nil_r).
  set (tails := nodes ≫= succ) in *.
  pose proof (count_zero n tails) as Hz. pose proof (count_zero n (succ m)) as Hz'.
  assert (default 0 (d !! n) = count n tails) as Hd.
  { rewrite IH. case_bool_decide; simpl; [done|]. symmetry. apply Hz. tauto. }
  assert ((match d !! m with Some _ => d | None => <[m := 0]> d end) !! n =
    if bool_decide (n = m) then Some (count n tails) else d !! n) as ->.
  { rewrite <-Hd. destruct (decide (n = m)) as [->|Hne].
    - rewrite bool_decide_eq_true_2 by done. destruct (d !! m) eqn:Em; [by rewrite Em|].
      by rewrite lookup_insert_eq.
    - rewrite bool_decide_eq_false_2 by done. destruct (d !! m); [done|]. by rewrite lookup_insert_ne. }
  assert (default 0 (if bool_decide (n = m) then Some (count n tails) else d !! n) = count n tails) as ->.
  { destruct (bool_decide (n = m)); [reflexivity|exact Hd]. }
  destruct (decide (n ∈ succ m)) as [Hin|Hin].
  { rewrite !bool_decide_eq_true_2 by set_solver. done. }
  rewrite (bool_decide_eq_false_2 _ Hin), (proj2 Hz' Hin), Nat.add_0_r, IH.
  repeat case_bool_decide; set_solver.
Qed.
End digraph.

(** * Properties *)

Section properties.
  Context {N : Type} `{Countable N} (succ : N → list N).

(** C26: on a finite graph the depth-first walk ends within one step per
    edge plus one, and with a callback that never prunes it calls it exactly
    once for each node reachable from the start and for no other: the result
    is the fold of the callback over those nodes in visiting order. *)
Theorem depth_first_walk_visits {St} (V : gset N) (start : N) (f : N → St → St) (st : St) (fuel : nat) :
  start ∈ V → (∀ n, n ∈ V → ∀ m, edge succ n m → m ∈ V) → walk_fuel succ V ≤ fuel →
  ∃ order, DepthFirstWalk succ fuel start (λ n s, (true, f n s)) st =
             Some (foldl (λ s n, f n s) st order) ∧
    NoDup order ∧ ∀ n, n ∈ order ↔ reach succ start n.
Proof.
  intros Hs HV Hf. destruct (walk_reaches succ V start fuel Hs HV Hf) as (order & final & E & Hn & Ho & _).
  exists order. split_and!; [|done..]. unfold DepthFirstWalk.
  pose proof (walk_loop_fold succ f fuel [start] ∅ st []) as Hfold. simpl in Hfold.
  by rewrite Hfold, E.
Qed.

(** [Unreachable] ends within the same bound and returns, in order, exactly
    the given nodes that no path leads to from the start. *)
Theorem unreachable_exact (V : gset N) (start : N) (nodes : list N) (fuel : nat) :
  start ∈ V → (∀ n, n ∈ V → ∀ m, edge succ n m → m ∈ V) → walk_fuel succ V ≤ fuel →
  ∃ l, Unreachable succ fuel start nodes = Some l ∧ l `sublist_of` nodes ∧
    ∀ n, n ∈ l ↔ n ∈ nodes ∧ ¬ reach succ start n.
Proof.
  intros Hs HV Hf. destruct (walk_reaches succ V start fuel Hs HV Hf) as (order & final & E & _ & _ & Hfin).
  unfold Unreachable. pose proof (walk_loop_fold succ (λ _ u, u) fuel [start] ∅ () []) as Hw.
  simpl in Hw. rewrite E in Hw. rewrite Hw. simpl. eexists. split; [done|]. split.
  - apply sublist_filter.
  - intros n. rewrite list_elem_of_filter, Hfin. tauto.
Qed.

(** The sinks are exactly the given nodes without edges, and the sources
    exactly the given nodes that are the tail of no edge of a given node. *)
Theorem sources_sinks_exact (nodes : list N) (n : N) :
  (n ∈ Sinks succ nodes ↔ n ∈ nodes ∧ succ n = []) ∧
  (n ∈ Sources succ nodes ↔ n ∈ nodes ∧ ∀ m, m ∈ nodes → n ∉ succ m).
Proof.
  unfold Sinks, Sources. rewrite !elem_of_FilterDegree, OutDegree_lookup, InDegree_lookup. split.
  - case_bool_decide; [|naive_solver]. destruct (succ n); naive_solver.
  - pose proof (count_zero succ n (nodes ≫= succ)) as Hz. rewrite list_elem_of_bind in Hz.
    case_bool_decide as Hc.
    + split.
      * intros [= Hk]. apply Hz in Hk. split; [|naive_solver].
        destruct Hc as [?|Hc]; [done|]. rewrite list_elem_of_bind in Hc. naive_solver.
      * intros [Hin Hm]. f_equal. apply Hz. naive_solver.
    + split; [done|]. intros [Hin _]. naive_solver.
Qed.
End properties.

(** A graph with a cycle: 0 -> 1 -> 2 -> 0, 1 -> 3, and 4 -> 0. *)
Definition demo_succ (n : nat) : list nat :=
  match n with 0 => [1] | 1 => [2; 3] | 2 => [0] | 4 => [0] | _ => [] end.

Definition demo_nodes : gset nat := list_to_set [0; 1; 2; 3; 4].

Lemma demo_closed n : n ∈ demo_nodes → ∀ m, edge demo_succ n m → m ∈ demo_nodes.
Proof.
  unfold demo_nodes. rewrite elem_of_list_to_set, !elem_of_cons. intros Hn m Hm.
  destruct Hn as [->|[->|[->|[->|[->|Hn]]]]]; [set_solver..|by apply not_elem_of_nil in Hn].
Qed.

Lemma depth_first_walk_visits_witness :
  ∃ order, DepthFirstWalk demo_succ 10 0 (λ n s, (true, n :: s)) [] =
             Some (foldl (λ s n, n :: s) [] order) ∧
    NoDup order ∧ ∀ n, n ∈ order ↔ reach demo_succ 0 n.
Proof.
  apply (depth_first_walk_visits demo_succ demo_nodes 0 (λ n s, n :: s) [] 10);
    [set_solver|apply demo_closed|vm_compute; lia].
Defined.

Lemma unreachable_exact_witness :
  ∃ l, Unreachable demo_succ 10 0 [0; 3; 4] = Some l ∧ ∀ n, n ∈ l ↔ n ∈ [0; 3; 4] ∧ ¬ reach demo_succ 0 n.
Proof.
  destruct (unreachable_exact demo_succ demo_nodes 0 [0; 3; 4] 10) as (l & E & _ & Hl);
    [set_solver|apply demo_closed|vm_compute; lia|]. exists l. split; [exact E|exact Hl].
Defined.
