(* ===== verification/Tarjan.v ===== *)
(** Strongly connected components (src/digraph/tarjan.go): Tarjan's algorithm
    with its accounting record, and its correctness: it ends, and gives
    exactly the classes of mutually reachable nodes.  At the end, graphs written
    as text (src/digraph/basic.go, graphviz.go).

    The stack's top is the head of the list, where the source appends to a
    slice and takes the last element. *)
From S2P Require Import Prelude Digraph.
From stdpp Require Import relations gmap strings.

Section tarjan.
  Context {N : Type} `{Countable N} (succ : N → list N).
  Implicit Types (n x y z : N) (G new nodes : list N).

(** * Operations *)

Record sccAcct : Type := {
  ExcludeSingle : bool;
  NextIndex : nat;
  NodeIndex : gmap N nat;
  Stack : list N;
  SCC : list (list N);
}.

(** Reading the index of a node never visited gives zero. *)
Definition node_index (s : sccAcct) n : nat := default 0 (NodeIndex s !! n).

Definition push (s : sccAcct) n : sccAcct := {|
  ExcludeSingle := ExcludeSingle s; NextIndex := NextIndex s; NodeIndex := NodeIndex s;
  Stack := n :: Stack s; SCC := SCC s |}.

Definition visit (s : sccAcct) n : sccAcct :=
  push {| ExcludeSingle := ExcludeSingle s; NextIndex := S (NextIndex s);
          NodeIndex := <[n := NextIndex s]> (NodeIndex s); Stack := Stack s; SCC := SCC s |} n.

(** [pop]: no node where the source returns nil. *)
Definition pop (s : sccAcct) : option N * sccAcct :=
  match Stack s with
  | [] => (None, s)
  | n :: rest =>
      (Some n, {| ExcludeSingle := ExcludeSingle s; NextIndex := NextIndex s;
                  NodeIndex := NodeIndex s; Stack := rest; SCC := SCC s |})
  end.

Definition inStack (s : sccAcct) (needle : N) : bool := bool_decide (needle ∈ Stack s).

(** The loop that pops one component.  With the node not on the stack it would
    go on popping nil for ever: [None], as running out of fuel. *)
Fixpoint pop_component (fuel : nat) (s : sccAcct) (node : N) (scc : list N)
    : option (list N * sccAcct) :=
  match fuel with
  | O => None
  | S fuel =>
      match pop s with
      | (None, _) => None
      | (Some n, s') =>
          let scc := scc ++ [n] in
          if bool_decide (n = node) then Some (scc, s') else pop_component fuel s' node scc
      end
  end.

Definition add_component (s : sccAcct) (scc : list N) : sccAcct :=
  if ExcludeSingle s && (length scc =? 1) then s
  else {| ExcludeSingle := ExcludeSingle s; NextIndex := NextIndex s; NodeIndex := NodeIndex s;
          Stack := Stack s; SCC := SCC s ++ [scc] |}.

(** The loop over the edges of a node; [rec] is the recursive call. *)
Fixpoint edge_loop (rec : sccAcct → N → option (nat * sccAcct)) (targets : list N)
    (s : sccAcct) (minIdx : nat) : option (nat * sccAcct) :=
  match targets with
  | [] => Some (minIdx, s)
  | target :: rest =>
      let targetIdx := node_index s target in
      if targetIdx =? 0 then
        r ← rec s target;
        edge_loop rec rest r.2 (Nat.min minIdx r.1)
      else if inStack s target then edge_loop rec rest s (Nat.min minIdx targetIdx)
      else edge_loop rec rest s minIdx
  end.

(** The end of a node's visit: when the node is a root, its component. *)
Definition close_node (s : sccAcct) (node : N) (index minIdx : nat) : option (nat * sccAcct) :=
  if index =? minIdx then
    r ← pop_component (S (length (Stack s))) s node [];
    Some (minIdx, add_component r.2 r.1)
  else Some (minIdx, s).

Fixpoint stronglyConnected (fuel : nat) (s : sccAcct) (node : N) : option (nat * sccAcct) :=
  match fuel with
  | O => None
  | S fuel =>
      let index := NextIndex s in
      r ← edge_loop (stronglyConnected fuel) (succ node) (visit s node) index;
      close_node r.2 node index r.1
  end.

Definition visit_unvisited (fuel : nat) (s : option sccAcct) (node : N) : option sccAcct :=
  s ← s;
  if node_index s node =? 0 then snd <$> stronglyConnected fuel s node else Some s.

Definition empty_acct (excludeSingle : bool) : sccAcct := {|
  ExcludeSingle := excludeSingle; NextIndex := 1; NodeIndex := ∅; Stack := []; SCC := [] |}.

Definition StronglyConnectedComponents (fuel : nat) (nodes : list N) (excludeSingle : bool)
    : option (list (list N)) :=
  SCC <$> foldl (visit_unvisited fuel) (Some (empty_acct excludeSingle)) nodes.

(** * Facts *)

Section correctness.
  Context (V : gset N) (HV : ∀ n, n ∈ V → ∀ m, edge succ n m → m ∈ V).

Lemma reach_trans x y z : reach succ x y → reach succ y z → reach succ x z.
Proof. unfold reach. intros. by etransitivity. Qed.

Definition mutual x y : Prop := reach succ x y ∧ reach succ y x.

Definition visited (s : sccAcct) x : Prop := NodeIndex s !! x ≠ None.

(** Visited and assigned to a component already. *)
Definition closed (s : sccAcct) x : Prop := visited s x ∧ x ∉ Stack s.

(** Every node of a component reaches exactly the others both ways. *)
Definition is_component (scc : list N) : Prop :=
  scc ≠ [] ∧ ∀ x, x ∈ scc → ∀ y, y ∈ scc ↔ mutual x y.

(** The invariant; [G] holds the nodes whose visit has begun and not ended. *)
Record inv (s : sccAcct) G : Prop := {
  i_mode : ExcludeSingle s = false;
  i_next : 0 < NextIndex s;
  i_index x i : NodeIndex s !! x = Some i → 0 < i < NextIndex s;
  i_nodup : NoDup (Stack s);
  i_sorted : StronglySorted (λ x y, node_index s y < node_index s x) (Stack s);
  i_visited x : x ∈ Stack s → visited s x;
  i_open x : x ∈ G → x ∈ Stack s;
  i_from x : visited s x → x ∈ V;
  i_edges x y : visited s x → x ∉ G → edge succ x y → visited s y;
  i_closed x y : closed s x → edge succ x y → closed s y;
  i_path x y : x ∈ Stack s → y ∈ Stack s → node_index s x ≤ node_index s y → reach succ x y;
  i_root x : x ∈ Stack s → ∃ g, g ∈ G ∧ node_index s g ≤ node_index s x ∧ reach succ x g;
  i_scc : Forall is_component (SCC s);
  i_scc_nodup : NoDup (mjoin (SCC s));
  i_scc_all x : x ∈ mjoin (SCC s) ↔ closed s x;
}.

(** The new state keeps the indices given, and its stack has grown by nodes
    visited since. *)
Record grows (s : sccAcct) new (s' : sccAcct) : Prop := {
  gr_stack : Stack s' = new ++ Stack s;
  gr_index x i : NodeIndex s !! x = Some i → NodeIndex s' !! x = Some i;
  gr_next : NextIndex s ≤ NextIndex s';
  gr_new x : NodeIndex s !! x = None → NextIndex s ≤ node_index s' x ∨ NodeIndex s' !! x = None;
  gr_mode : ExcludeSingle s' = ExcludeSingle s;
}.

Lemma grows_refl s : grows s [] s.
Proof. split; auto. Qed.

Lemma grows_visited s new s' x : grows s new s' → visited s x → visited s' x.
Proof.
  intros Hg Hv. unfold visited in *. destruct (NodeIndex s !! x) as [i|] eqn:E; [|done].
  by rewrite (gr_index _ _ _ Hg x i E).
Qed.

Lemma grows_index s new s' x : grows s new s' → visited s x → node_index s' x = node_index s x.
Proof.
  intros Hg Hv. unfold visited, node_index in *. destruct (NodeIndex s !! x) as [i|] eqn:E; [|done].
  by rewrite (gr_index _ _ _ Hg x i E).
Qed.

Lemma grows_trans s1 new1 s2 new2 s3 :
  grows s1 new1 s2 → grows s2 new2 s3 → grows s1 (new2 ++ new1) s3.
Proof.
  intros H1 H2. split.
  - by rewrite (gr_stack _ _ _ H2), (gr_stack _ _ _ H1), app_assoc.
  - intros x i Hx. by apply (gr_index _ _ _ H2), (gr_index _ _ _ H1).
  - pose proof (gr_next _ _ _ H1). pose proof (gr_next _ _ _ H2). lia.
  - intros x Hx. destruct (NodeIndex s2 !! x) as [i|] eqn:E.
    + left. destruct (gr_new _ _ _ H1 x Hx) as [Hn|]; [|congruence].
      rewrite (grows_index s2 new2 s3 x H2); [done|]. unfold visited. congruence.
    + pose proof (gr_next _ _ _ H1). destruct (gr_new _ _ _ H2 x E); [left; lia|by right].
  - by rewrite (gr_mode _ _ _ H2), (gr_mode _ _ _ H1).
Qed.

Lemma node_index_zero s G x : inv s G → node_index s x = 0 ↔ NodeIndex s !! x = None.
Proof.
  intros Hi. unfold node_index. destruct (NodeIndex s !! x) as [i|] eqn:E; [|done].
  pose proof (i_index _ _ Hi x i E). simpl. split; [lia|done].
Qed.

Lemma visited_index s G x : inv s G → visited s x → 0 < node_index s x < NextIndex s.
Proof.
  intros Hi Hv. unfold visited, node_index in *. destruct (NodeIndex s !! x) as [i|] eqn:E; [|done].
  by apply (i_index _ _ Hi x i).
Qed.

(** Two nodes of the stack with the same index are the same. *)
Lemma stack_index_inj s G x y :
  inv s G → x ∈ Stack s → y ∈ Stack s → node_index s x = node_index s y → x = y.
Proof.
  intros Hi. pose proof (i_sorted _ _ Hi) as Hs. induction Hs as [|a l _ IH Ha]; [set_solver|].
  rewrite Forall_forall in Ha. intros Hx Hy E.
  apply elem_of_cons in Hx as [->|Hx], Hy as [->|Hy]; [done| | |by apply IH].
  - specialize (Ha y Hy). lia.
  - specialize (Ha x Hx). lia.
Qed.

Lemma visit_index s node : node_index (visit s node) node = NextIndex s.
Proof. unfold node_index. simpl. by rewrite lookup_insert_eq. Qed.

Lemma visit_grows s node : NodeIndex s !! node = None → grows s [node] (visit s node).
Proof.
  intros Hn. split; simpl; [done| |lia| |done].
  - intros x i Hx. rewrite lookup_insert_ne; [done|]. congruence.
  - intros x Hx. destruct (decide (x = node)) as [->|Hxn]; [left; rewrite visit_index; lia|].
    right. by rewrite lookup_insert_ne.
Qed.

(** Pushing a node reached from all open ones. *)
Lemma visit_inv s G node :
  inv s G → NodeIndex s !! node = None → (∀ g, g ∈ G → reach succ g node) → node ∈ V →
  inv (visit s node) (node :: G).
Proof.
  intros Hi Hn Hr Hnv.
  assert (∀ x, x ∈ Stack s → x ≠ node) as Hne.
  { intros x Hx ->. by apply (i_visited _ _ Hi node Hx). }
  pose proof (visit_index s node) as Hnode.
  assert (∀ x, x ≠ node → node_index (visit s node) x = node_index s x) as Hother.
  { intros x Hx. unfold node_index. simpl. by rewrite lookup_insert_ne. }
  assert (∀ x, visited (visit s node) x ↔ x = node ∨ visited s x) as Hvis.
  { intros x. unfold visited. simpl. destruct (decide (x = node)) as [->|Hx].
    - rewrite lookup_insert_eq. naive_solver.
    - rewrite lookup_insert_ne by done. naive_solver. }
  assert (∀ x, closed (visit s node) x ↔ closed s x) as Hcl.
  { intros x. unfold closed. rewrite Hvis. simpl. rewrite not_elem_of_cons. split.
    - intros [[->|Hv] [Hx Hs]]; done.
    - intros [Hv Hs]. assert (x ≠ node) by (intros ->; by apply Hv). tauto. }
  assert (∀ x, x ∈ Stack s → node_index s x < NextIndex s) as Hlt.
  { intros x Hx. apply (visited_index s G x Hi). by apply (i_visited _ _ Hi). }
  split.
  - apply (i_mode _ _ Hi).
  - simpl. lia.
  - intros x i. simpl. intros [[<- <-]|[_ Hx]]%lookup_insert_Some.
    + pose proof (i_next _ _ Hi). lia.
    + pose proof (i_index _ _ Hi x i Hx). lia.
  - simpl. constructor; [|apply (i_nodup _ _ Hi)]. intros Hx. by apply (Hne node).
  - simpl. constructor.
    + pose proof (i_sorted _ _ Hi) as Hs. clear -Hs Hne Hother.
      induction Hs as [|a l _ IH Ha]; constructor; [apply IH; set_solver|].
      rewrite Forall_forall in *. intros x Hx. rewrite !Hother by (apply Hne; set_solver). by apply Ha.
    + rewrite Forall_forall. intros x Hx. rewrite Hnode, Hother by (by apply Hne). by apply Hlt.
  - intros x. simpl. rewrite Hvis, elem_of_cons. intros [->|Hx]; [by left|]. right. by apply (i_visited _ _ Hi).
  - intros x. simpl. rewrite !elem_of_cons. intros [->|Hx]; [by left|]. right. by apply (i_open _ _ Hi).
  - intros x Hx. apply Hvis in Hx as [->|Hx]; [done|]. by apply (i_from _ _ Hi).
  - intros x y Hx Hg He. rewrite not_elem_of_cons in Hg. apply Hvis. right.
    apply Hvis in Hx as [->|Hx]; [naive_solver|]. apply (i_edges _ _ Hi x); naive_solver.
  - intros x y Hx He. apply Hcl. apply (i_closed _ _ Hi x); [by apply Hcl|done].
  - intros x y. simpl. rewrite !elem_of_cons. intros [->|Hx] [->|Hy].
    + intros _. apply rtc_refl.
    + rewrite Hnode, Hother by (by apply Hne). specialize (Hlt y Hy). lia.
    + intros _. destruct (i_root _ _ Hi x Hx) as (g & Hg & _ & Hxg). eapply reach_trans; [done|]. by apply Hr.
    + rewrite !Hother by (by apply Hne). by apply (i_path _ _ Hi).
  - intros x. simpl. rewrite elem_of_cons. intros [->|Hx].
    + exists node. split_and!; [set_solver|lia|apply rtc_refl].
    + destruct (i_root _ _ Hi x Hx) as (g & Hg & Hgx & Hr').
      pose proof (i_open _ _ Hi g Hg) as Hgs. exists g.
      rewrite !Hother by auto. split_and!; [set_solver|done..].
  - apply (i_scc _ _ Hi).
  - apply (i_scc_nodup _ _ Hi).
  - intros x. rewrite Hcl. apply (i_scc_all _ _ Hi).
Qed.

(** What a call returns: its stack's new nodes have edges to old ones no
    lower than the result, which is the index of an old node of the stack the
    node reaches, unless the node has been put in a component. *)
Record call_post (s : sccAcct) G node new m (s' : sccAcct) : Prop := {
  cp_grows : grows s new s';
  cp_inv : inv s' G;
  cp_node : visited s' node;
  cp_le : m ≤ NextIndex s;
  cp_low : (m = NextIndex s ∧ node ∉ Stack s') ∨
           ∃ y, y ∈ Stack s ∧ node_index s y = m ∧ reach succ node y;
  cp_cross x y : x ∈ new → y ∈ Stack s → edge succ x y → m ≤ node_index s y;
}.

(** The same in the middle of the loop over the edges of [node]. *)
Record loop_inv (s : sccAcct) G node new m (s' : sccAcct) : Prop := {
  li_grows : grows (visit s node) new s';
  li_inv : inv s' (node :: G);
  li_low : m = NextIndex s ∨
           (m < NextIndex s ∧ ∃ y, y ∈ Stack s ∧ node_index s y = m ∧ reach succ node y);
  li_cross x y : x ∈ new → y ∈ Stack s → edge succ x y → m ≤ node_index s y;
}.

Lemma loop_inv_lower s G node new m m' s' y :
  loop_inv s G node new m s' → y ∈ Stack s → node_index s y = m' → reach succ node y →
  m' < NextIndex s → loop_inv s G node new (Nat.min m m') s'.
Proof.
  intros Hl Hy Hm Hr Hlt. split; [apply Hl..| |].
  - right. split; [lia|]. destruct (Nat.min_spec m m') as [[? ->]|[? ->]]; [|by exists y].
    destruct (li_low _ _ _ _ _ _ Hl) as [->|[_ ?]]; [lia|done].
  - intros a b Ha Hb He. pose proof (li_cross _ _ _ _ _ _ Hl a b Ha Hb He). lia.
Qed.

(** The nodes of the graph still to be visited bound the depth. *)
Definition unvisited (s : sccAcct) : nat := size (V ∖ dom (NodeIndex s)).

Lemma unvisited_grows s new s' : grows s new s' → unvisited s' ≤ unvisited s.
Proof.
  intros Hg. unfold unvisited. apply subseteq_size. intros x. rewrite !elem_of_difference, !elem_of_dom.
  intros [Hx Hn]. split; [done|]. intros [i Hi]. apply Hn. exists i. by apply (gr_index _ _ _ Hg).
Qed.

Lemma unvisited_visit s node :
  node ∈ V → NodeIndex s !! node = None → unvisited (visit s node) < unvisited s.
Proof.
  intros Hv Hn. unfold unvisited. apply subset_size. split.
  - intros x. rewrite !elem_of_difference. simpl. rewrite dom_insert. set_solver.
  - intros Hsub. specialize (Hsub node). rewrite !elem_of_difference, !elem_of_dom in Hsub. simpl in Hsub.
    destruct Hsub as [_ Hc]; [split; [done|rewrite Hn; by intros [? ?]]|].
    apply Hc. rewrite lookup_insert_eq. eauto.
Qed.

Definition call_spec (fuel : nat) : Prop := ∀ s G node,
  inv s G → NodeIndex s !! node = None → (∀ g, g ∈ G → reach succ g node) →
  node ∈ V → unvisited s ≤ fuel →
  ∃ m s' new, stronglyConnected fuel s node = Some (m, s') ∧ call_post s G node new m s'.

(** Nodes of the stack below the one being visited keep their place. *)
Lemma loop_inv_old s G node new m s' y :
  inv s G → NodeIndex s !! node = None → loop_inv s G node new m s' → y ∈ Stack s →
  y ∈ Stack s' ∧ node_index s' y = node_index s y ∧ node_index s y < NextIndex s.
Proof.
  intros Hi Hn Hl Hy. pose proof (i_visited _ _ Hi y Hy) as Hv.
  assert (y ≠ node) as Hne by (intros ->; by apply Hv).
  split_and!.
  - rewrite (gr_stack _ _ _ (li_grows _ _ _ _ _ _ Hl)). simpl. set_solver.
  - rewrite (grows_index _ _ _ y (li_grows _ _ _ _ _ _ Hl)).
    + unfold node_index. simpl. by rewrite lookup_insert_ne.
    + unfold visited. simpl. by rewrite lookup_insert_ne.
  - by apply (visited_index s G y Hi).
Qed.

Lemma loop_inv_node s G node new m s' :
  inv s G → loop_inv s G node new m s' →
  node ∈ Stack s' ∧ node_index s' node = NextIndex s ∧ NextIndex s < NextIndex s'.
Proof.
  intros Hi Hl. pose proof (li_grows _ _ _ _ _ _ Hl) as Hg. split_and!.
  - rewrite (gr_stack _ _ _ Hg). simpl. set_solver.
  - rewrite (grows_index _ _ _ node Hg); unfold node_index, visited; simpl; by rewrite lookup_insert_eq.
  - pose proof (gr_next _ _ _ Hg) as Hn. simpl in Hn. lia.
Qed.

(** Nodes pushed after [node] have greater indices. *)
Lemma new_above s1 G new {node rest} :
  inv s1 G → Stack s1 = new ++ node :: rest → ∀ y, y ∈ new → node_index s1 node < node_index s1 y.
Proof.
  intros Hi E y Hy. pose proof (i_sorted _ _ Hi) as Hs. rewrite E in Hs. clear -Hs Hy.
  induction new as [|a new IH]; [set_solver|].
  apply StronglySorted_inv in Hs as [Hs Ha]. rewrite Forall_forall in Ha.
  apply elem_of_cons in Hy as [->|Hy]; [apply Ha; set_solver|by apply IH].
Qed.

(** A recursive call inside the loop. *)
Lemma loop_inv_call s G node new m s1 t new' mt s2 :
  inv s G → NodeIndex s !! node = None →
  loop_inv s G node new m s1 → edge succ node t → NodeIndex s1 !! t = None →
  call_post s1 (node :: G) t new' mt s2 →
  loop_inv s G node (new' ++ new) (Nat.min m mt) s2.
Proof.
  intros Hi Hn Hl He Ht Hc.
  destruct (loop_inv_node s G node new m s1 Hi Hl) as (Hin & Hidx & Hnext).
  pose proof (li_low _ _ _ _ _ _ Hl) as Hlow. split.
  - eapply grows_trans; [apply Hl|apply Hc].
  - apply Hc.
  - destruct (Nat.min_spec m mt) as [[? ->]|[Hle ->]]; [done|].
    destruct (cp_low _ _ _ _ _ _ Hc) as [[-> _]|(y & Hy & Hm & Hr)]; [lia|].
    assert (reach succ node y) as Hry by (eapply rtc_l; done).
    destruct (decide (mt = NextIndex s)) as [->|Hne]; [by left|]. right. split; [lia|].
    assert (y ∈ Stack s) as Hys.
    { rewrite (gr_stack _ _ _ (li_grows _ _ _ _ _ _ Hl)) in Hy. simpl in Hy.
      rewrite elem_of_app, elem_of_cons in Hy. destruct Hy as [Hy|[->|Hy]]; [|lia|done].
      pose proof (new_above _ _ _ (li_inv _ _ _ _ _ _ Hl) (gr_stack _ _ _ (li_grows _ _ _ _ _ _ Hl)) y Hy). lia. }
    exists y. split_and!; [done| |done].
    destruct (loop_inv_old s G node new m s1 y Hi Hn Hl Hys) as (_ & Hyi & _). lia.
  - intros x y [Hx|Hx]%elem_of_app Hy Hxy.
    + destruct (loop_inv_old s G node new m s1 y Hi Hn Hl Hy) as (Hy1 & Hyi & _).
      pose proof (cp_cross _ _ _ _ _ _ Hc x y Hx Hy1 Hxy). lia.
    + pose proof (li_cross _ _ _ _ _ _ Hl x y Hx Hy Hxy). lia.
Qed.

(** A target already visited. *)
Lemma loop_inv_target s G node new m s1 t :
  inv s G → NodeIndex s !! node = None → loop_inv s G node new m s1 → edge succ node t →
  visited s1 t →
  let m' := if inStack s1 t then Nat.min m (node_index s1 t) else m in
  loop_inv s G node new m' s1 ∧ m' ≤ m ∧ (t ∈ Stack s → m' ≤ node_index s t).
Proof.
  intros Hi Hn Hl He Hv. unfold inStack. case_bool_decide as Hs; simpl.
  2: { split_and!; [done|lia|]. intros Hts. by destruct (loop_inv_old s G node new m s1 t Hi Hn Hl Hts). }
  assert (reach succ node t) as Hr by (eapply rtc_l; [done|apply rtc_refl]).
  destruct (loop_inv_node s G node new m s1 Hi Hl) as (Hin & Hidx & Hnext).
  destruct (decide (t ∈ Stack s)) as [Hts|Hts].
  { destruct (loop_inv_old s G node new m s1 t Hi Hn Hl Hts) as (_ & Eq & Hlt). rewrite Eq.
    split_and!; [|lia|lia]. by eapply loop_inv_lower. }
  assert (m ≤ node_index s1 t) as Hle; [|rewrite Nat.min_l by done; split_and!; [done|lia|done]].
  rewrite (gr_stack _ _ _ (li_grows _ _ _ _ _ _ Hl)) in Hs. simpl in Hs.
  rewrite elem_of_app, elem_of_cons in Hs.
  assert (m ≤ NextIndex s) by (destruct (li_low _ _ _ _ _ _ Hl) as [->|[? _]]; lia).
  destruct Hs as [Hs|[->|Hs]]; [|lia|done].
  pose proof (new_above _ _ _ (li_inv _ _ _ _ _ _ Hl) (gr_stack _ _ _ (li_grows _ _ _ _ _ _ Hl)) t Hs). lia.
Qed.

(** The loop over the edges ends with every target visited. *)
Lemma edge_loop_spec fuel s G node targets new m s1 :
  call_spec fuel → inv s G → NodeIndex s !! node = None → (∀ g, g ∈ G → reach succ g node) →
  (∀ t, t ∈ targets → edge succ node t ∧ t ∈ V) →
  loop_inv s G node new m s1 → unvisited s1 ≤ fuel →
  ∃ m' s' new', edge_loop (stronglyConnected fuel) targets s1 m = Some (m', s') ∧
    loop_inv s G node new' m' s' ∧ m' ≤ m ∧ (∀ x, visited s1 x → visited s' x) ∧
    ∀ t, t ∈ targets → visited s' t ∧ (t ∈ Stack s → m' ≤ node_index s t).
Proof.
  intros Hspec Hi Hn Hg. revert new m s1.
  induction targets as [|t targets IH]; intros new m s1 Ht Hl Hf; simpl.
  { exists m, s1, new. split_and!; [done|done|lia|done|set_solver]. }
  destruct (Ht t) as [He Hv]; [set_solver|].
  pose proof (node_index_zero s1 (node :: G) t (li_inv _ _ _ _ _ _ Hl)) as Hz.
  destruct (node_index s1 t =? 0) eqn:E.
  - apply Nat.eqb_eq, Hz in E.
    destruct (Hspec s1 (node :: G) t (li_inv _ _ _ _ _ _ Hl) E) as (mt & s2 & new' & -> & Hc); [|done..|].
    { intros g Hgin. assert (reach succ node t) by (eapply rtc_l; [done|apply rtc_refl]).
      apply elem_of_cons in Hgin as [->|Hgin]; [done|]. eapply reach_trans; [by apply Hg|done]. }
    simpl. destruct (IH (new' ++ new) (Nat.min m mt) s2) as (m' & s' & new2 & -> & Hl' & Hm & Hvs & Hts).
    + intros u Hu. apply Ht. set_solver.
    + by eapply loop_inv_call.
    + pose proof (unvisited_grows _ _ _ (cp_grows _ _ _ _ _ _ Hc)). lia.
    + exists m', s', new2. split_and!; [done|done|lia| |].
      * intros x Hx. apply Hvs. eapply grows_visited; [apply Hc|done].
      * intros u [->|Hu]%elem_of_cons; [|by apply Hts]. split; [by apply Hvs, (cp_node _ _ _ _ _ _ Hc)|].
        intros Hu. destruct (loop_inv_old s G node new m s1 t Hi Hn Hl Hu) as (Hu1 & _).
        exfalso. by apply (i_visited _ _ (li_inv _ _ _ _ _ _ Hl) t Hu1).
  - apply Nat.eqb_neq in E. assert (visited s1 t) as Hvt by (unfold visited; tauto).
    destruct (loop_inv_target s G node new m s1 t Hi Hn Hl He Hvt) as (Hl' & Hle & Hlow).
    set (m1 := if inStack s1 t then _ else _) in *.
    assert (∀ r, (if inStack s1 t then edge_loop (stronglyConnected fuel) targets s1 (Nat.min m (node_index s1 t))
      else edge_loop (stronglyConnected fuel) targets s1 m) = r ↔
      edge_loop (stronglyConnected fuel) targets s1 m1 = r) as Heq by (intros r; unfold m1; by destruct (inStack s1 t)).
    destruct (IH new m1 s1) as (m' & s' & new2 & E' & Hl2 & Hm & Hvs & Hts);
      [intros u Hu; apply Ht; set_solver|done|done|].
    exists m', s', new2. split_and!; [by apply Heq|done|lia|done|].
    intros u [->|Hu]%elem_of_cons; [|by apply Hts]. split; [by apply Hvs|]. intros Hu. specialize (Hlow Hu). lia.
Qed.

(** The state with the stack cut down to [rest]. *)
Definition with_stack (s : sccAcct) rest : sccAcct := {|
  ExcludeSingle := ExcludeSingle s; NextIndex := NextIndex s; NodeIndex := NodeIndex s;
  Stack := rest; SCC := SCC s |}.

Lemma pop_component_spec fuel s node new rest scc :
  Stack s = new ++ node :: rest → node ∉ new → length new < fuel →
  pop_component fuel s node scc = Some (scc ++ new ++ [node], with_stack s rest).
Proof.
  revert s new scc. induction fuel as [|fuel IH]; intros s new scc Hs Hn Hf; [lia|]. simpl. unfold pop.
  rewrite Hs. destruct new as [|a new]; simpl.
  - by rewrite bool_decide_eq_true_2.
  - rewrite bool_decide_eq_false_2 by (intros ->; set_solver). simpl in Hf.
    erewrite (IH _ new); [by rewrite <-app_assoc|done|set_solver|lia].
Qed.

(** The end of the visit of [node], all its targets being visited: what is
    true of the nodes the stack has gained. *)
Section closing.
  Context (s : sccAcct) (G : list N) (node : N) (new : list N) (m : nat) (s1 : sccAcct).
  Context (Hi : inv s G) (Hn : NodeIndex s !! node = None) (Hl : loop_inv s G node new m s1).
  Context (Ht : ∀ t, edge succ node t → visited s1 t ∧ (t ∈ Stack s → m ≤ node_index s t)).

Lemma close_stack : Stack s1 = new ++ node :: Stack s.
Proof. by rewrite (gr_stack _ _ _ (li_grows _ _ _ _ _ _ Hl)). Qed.

Lemma close_fresh x : x ∈ new ++ [node] → x ∉ Stack s.
Proof.
  intros Hx Hs. pose proof (i_nodup _ _ (li_inv _ _ _ _ _ _ Hl)) as Hd.
  rewrite close_stack in Hd. change (node :: Stack s) with ([node] ++ Stack s) in Hd.
  rewrite app_assoc in Hd. apply NoDup_app in Hd as (_ & Hd & _). by apply (Hd x).
Qed.

Lemma close_node_notin : node ∉ new.
Proof.
  intros Hx. pose proof (i_nodup _ _ (li_inv _ _ _ _ _ _ Hl)) as Hd.
  rewrite close_stack in Hd. apply NoDup_app in Hd as (_ & Hd & _). apply (Hd node Hx). set_solver.
Qed.

Lemma close_index x : x ∈ new ++ [node] → x ∈ Stack s1 ∧ NextIndex s ≤ node_index s1 x.
Proof.
  destruct (loop_inv_node s G node new m s1 Hi Hl) as (Hin & Hidx & _).
  intros [Hx| ->%list_elem_of_singleton]%elem_of_app; [|split; [done|lia]].
  pose proof (new_above _ _ _ (li_inv _ _ _ _ _ _ Hl) close_stack x Hx). rewrite close_stack. set_solver by lia.
Qed.

(** The edges of the gained nodes lead to visited nodes, and to old nodes of
    the stack no lower than [m]. *)
Lemma close_edges x y :
  x ∈ new ++ [node] → edge succ x y → visited s1 y ∧ (y ∈ Stack s → m ≤ node_index s y).
Proof.
  intros [Hx| ->%list_elem_of_singleton]%elem_of_app He; [|by apply Ht].
  split; [|by intros Hy; apply (li_cross _ _ _ _ _ _ Hl x y)].
  apply (i_edges _ _ (li_inv _ _ _ _ _ _ Hl) x); [|rewrite not_elem_of_cons; split|done].
  - apply (i_visited _ _ (li_inv _ _ _ _ _ _ Hl)), close_index. set_solver.
  - intros ->. by apply close_node_notin.
  - intros Hg. apply (close_fresh x); [set_solver|]. by apply (i_open _ _ Hi).
Qed.

(** Every open node of the stack leads to the current one or below. *)
Lemma close_root x :
  x ∈ Stack s1 → ∃ g, g ∈ node :: G ∧ node_index s1 g ≤ node_index s1 x ∧ reach succ x g.
Proof. apply (i_root _ _ (li_inv _ _ _ _ _ _ Hl)). Qed.

Lemma close_visited x : visited s1 x → x ∉ G → ∀ y, edge succ x y → visited s1 y.
Proof.
  intros Hx Hg y He. destruct (decide (x = node)) as [->|Hne]; [by apply Ht|].
  apply (i_edges _ _ (li_inv _ _ _ _ _ _ Hl) x); [done|set_solver|done].
Qed.

Lemma close_grows : grows s (new ++ [node]) s1.
Proof. eapply grows_trans; [by apply visit_grows|apply Hl]. Qed.

(** The nodes stay on the stack: the current one leads below itself. *)
Lemma close_up : m < NextIndex s → call_post s G node (new ++ [node]) m s1.
Proof.
  intros Hm. destruct (loop_inv_node s G node new m s1 Hi Hl) as (Hin & Hidx & Hnext).
  pose proof (li_inv _ _ _ _ _ _ Hl) as Hi1.
  destruct (li_low _ _ _ _ _ _ Hl) as [?|(_ & y & Hy & Hym & Hr)]; [lia|].
  assert (∃ g, g ∈ G ∧ node_index s1 g ≤ m ∧ reach succ node g) as (g & Hg & Hgm & Hrg).
  { destruct (loop_inv_old s G node new m s1 y Hi Hn Hl Hy) as (Hy1 & Hyi & _).
    destruct (close_root y Hy1) as (g & [->|Hg]%elem_of_cons & Hgy & Hyg); [lia|].
    exists g. split_and!; [done|lia|by eapply reach_trans]. }
  split; [apply close_grows| |by apply (i_visited _ _ Hi1)|lia|right; by exists y|
    by intros a b Ha Hb He; apply (close_edges a b)].
  destruct Hi1 as [H1 H2 H3 H4 H5 H6 H7 H8 H9 H10 H11 H12 H13 H14 H15]. split; try done.
  - intros x Hx. apply H7. set_solver.
  - intros x z Hx Hgx. by apply close_visited.
  - intros x Hx. destruct (close_root x Hx) as (g' & [->|Hg']%elem_of_cons & Hgx & Hxg); [|by exists g'].
    exists g. split_and!; [done|lia|by eapply reach_trans].
Qed.

(** The nodes make up a component: the current one leads nowhere below. *)
Lemma close_component_class : m = NextIndex s → is_component (new ++ [node]).
Proof.
  intros Hm. destruct (loop_inv_node s G node new m s1 Hi Hl) as (Hin & Hidx & Hnext).
  pose proof (li_inv _ _ _ _ _ _ Hl) as Hi1.
  assert (∀ x, x ∈ new ++ [node] → mutual node x) as Hmut.
  { intros x Hx. destruct (close_index x Hx) as [Hxs Hxi]. split.
    - apply (i_path _ _ Hi1); [done..|lia].
    - destruct (close_root x Hxs) as (g & [->|Hg]%elem_of_cons & Hgx & Hr); [done|].
      eapply reach_trans; [done|]. destruct (loop_inv_old s G node new m s1 g Hi Hn Hl) as (Hg1 & Hgi & Hlt).
      { by apply (i_open _ _ Hi). }
      apply (i_path _ _ Hi1); [done..|lia]. }
  assert (∀ x y, (closed s1 x ∨ x ∈ new ++ [node]) → reach succ x y → closed s1 y ∨ y ∈ new ++ [node]) as Hcl.
  { intros x y Hx Hr. induction Hr as [|x z y Hxz _ IH]; [done|]. apply IH. clear IH.
    destruct Hx as [Hx|Hx]; [left; by apply (i_closed _ _ Hi1 x)|].
    destruct (close_edges x z Hx Hxz) as [Hz Hlow]. destruct (decide (z ∈ Stack s1)) as [Hzs|]; [|by left].
    right. rewrite close_stack in Hzs. change (node :: Stack s) with ([node] ++ Stack s) in Hzs.
    rewrite app_assoc in Hzs. apply elem_of_app in Hzs as [?|Hzs]; [done|].
    specialize (Hlow Hzs). destruct (loop_inv_old s G node new m s1 z Hi Hn Hl Hzs) as (_ & _ & ?). lia. }
  assert (∀ x y, closed s1 x → reach succ x y → closed s1 y) as Hdone.
  { intros x y Hx Hr. induction Hr as [|x z y Hxz _ IH]; [done|]. by apply IH, (i_closed _ _ Hi1 x). }
  split; [by destruct new|]. intros x Hx y. destruct (Hmut x Hx) as [Hnx Hxn]. split.
  - intros Hy. destruct (Hmut y Hy). split; by eapply reach_trans.
  - intros [Hxy Hyx]. destruct (Hcl x y (or_intror Hx) Hxy) as [Hy|Hy]; [|done].
    destruct (Hdone y node Hy) as [_ Hc]; [by eapply reach_trans|done].
Qed.

(** The state after the component is taken off the stack. *)
Definition closed_acct : sccAcct := {|
  ExcludeSingle := ExcludeSingle s1; NextIndex := NextIndex s1; NodeIndex := NodeIndex s1;
  Stack := Stack s; SCC := SCC s1 ++ [new ++ [node]] |}.

Lemma closed_acct_closed x : closed closed_acct x ↔ closed s1 x ∨ x ∈ new ++ [node].
Proof.
  unfold closed. simpl. rewrite close_stack. change (node :: Stack s) with ([node] ++ Stack s).
  rewrite app_assoc, not_elem_of_app. split.
  - intros [Hv Hs]. destruct (decide (x ∈ new ++ [node])); [by right|]. left. split; [done|split; done].
  - intros [(Hv & _ & Hs)|Hx]; [done|]. split; [|by apply close_fresh].
    apply (i_visited _ _ (li_inv _ _ _ _ _ _ Hl)). by apply close_index.
Qed.

Lemma closed_acct_inv : m = NextIndex s → inv closed_acct G.
Proof.
  intros Hm. destruct (loop_inv_node s G node new m s1 Hi Hl) as (Hin & Hidx & Hnext).
  pose proof (close_component_class Hm) as Hclass. pose proof close_stack as Hst.
  assert (∀ x, x ∈ Stack s → x ∈ Stack s1 ∧ node_index s1 x < node_index s1 node) as Hold.
  { intros x Hx. destruct (loop_inv_old s G node new m s1 x Hi Hn Hl Hx) as (? & ? & ?). split; [done|lia]. }
  pose proof (li_inv _ _ _ _ _ _ Hl) as [H1 H2 H3 H4 H5 H6 H7 H8 H9 H10 H11 H12 H13 H14 H15].
  split; simpl; try done.
  - rewrite Hst in H4. apply NoDup_app in H4 as (_ & _ & H4). by apply NoDup_cons in H4 as [_ H4].
  - rewrite Hst in H5. change (node :: Stack s) with ([node] ++ Stack s) in H5. rewrite app_assoc in H5.
    by apply StronglySorted_app in H5 as (_ & _ & H5).
  - intros x Hx. by apply H6, Hold.
  - apply (i_open _ _ Hi).
  - intros x y Hx Hg. by apply close_visited.
  - intros x y. rewrite !closed_acct_closed. intros [Hx|Hx] He; [left; by apply (H10 x)|].
    destruct (close_edges x y Hx He) as [Hy Hlow]. destruct (decide (y ∈ Stack s1)) as [Hys|]; [|by left].
    right. rewrite Hst in Hys. change (node :: Stack s) with ([node] ++ Stack s) in Hys.
    rewrite app_assoc in Hys. apply elem_of_app in Hys as [?|Hys]; [done|].
    specialize (Hlow Hys). destruct (loop_inv_old s G node new m s1 y Hi Hn Hl Hys) as (_ & _ & ?). lia.
  - intros x y Hx Hy. by apply H11; apply Hold.
  - intros x Hx. destruct (Hold x Hx) as [Hx1 Hlt].
    destruct (close_root x Hx1) as (g & [->|Hg]%elem_of_cons & Hgx & Hr); [lia|by exists g].
  - apply Forall_app. split; [done|by constructor].
  - rewrite join_app. simpl. rewrite app_nil_r. apply NoDup_app. split_and!; [done| |].
    + intros x Hx Hc. apply H15 in Hx as [_ Hx]. apply Hx. by apply close_index.
    + rewrite Hst in H4. change (node :: Stack s) with ([node] ++ Stack s) in H4. rewrite app_assoc in H4.
      by apply NoDup_app in H4 as (H4 & _ & _).
  - intros x. rewrite join_app, elem_of_app, closed_acct_closed, H15. simpl. by rewrite app_nil_r.
Qed.

Lemma close_down : m = NextIndex s → call_post s G node [] m closed_acct.
Proof.
  intros Hm. pose proof close_grows as [E Hg1 Hg2 Hg3 Hg4].
  split; [by split|by apply closed_acct_inv| |lia| |set_solver].
  - apply (i_visited _ _ (li_inv _ _ _ _ _ _ Hl)), close_index. set_solver.
  - left. split; [done|]. simpl. apply close_fresh. set_solver.
Qed.

Lemma close_node_spec :
  ∃ m' s' new', close_node s1 node (NextIndex s) m = Some (m', s') ∧ call_post s G node new' m' s'.
Proof.
  unfold close_node. destruct (NextIndex s =? m) eqn:E.
  - apply Nat.eqb_eq, eq_sym in E. rewrite (pop_component_spec _ s1 node new (Stack s) []).
    + exists m, closed_acct, []. split; [|by apply close_down]. simpl. unfold add_component.
      pose proof (i_mode _ _ (li_inv _ _ _ _ _ _ Hl)) as Hmode. simpl. unfold closed_acct. by rewrite Hmode.
    + apply close_stack.
    + apply close_node_notin.
    + rewrite close_stack, length_app. lia.
  - apply Nat.eqb_neq in E. exists m, s1, (new ++ [node]). split; [done|]. apply close_up.
    destruct (li_low _ _ _ _ _ _ Hl) as [?|[? _]]; [by subst|done].
Qed.
End closing.

Lemma visit_loop_inv s G node :
  inv s G → NodeIndex s !! node = None → (∀ g, g ∈ G → reach succ g node) → node ∈ V →
  loop_inv s G node [] (NextIndex s) (visit s node).
Proof.
  intros Hi Hn Hg Hv. split; [apply grows_refl|by apply visit_inv|by left|set_solver].
Qed.

Lemma call_spec_all fuel : call_spec fuel.
Proof.
  induction fuel as [|fuel IH]; intros s G node Hi Hn Hg Hv Hf.
  - exfalso. assert (node ∈ V ∖ dom (NodeIndex s)) as Hin.
    { apply elem_of_difference. split; [done|]. by apply not_elem_of_dom. }
    unfold unvisited in Hf. assert (size (V ∖ dom (NodeIndex s)) = 0) as Hz by lia.
    apply size_empty_inv in Hz. set_solver.
  - simpl. destruct (edge_loop_spec fuel s G node (succ node) [] (NextIndex s) (visit s node)) as
      (m & s1 & new & -> & Hl & _ & _ & Ht); [done..| | | |].
    + intros t Ht. split; [done|by apply (HV node)].
    + by apply visit_loop_inv.
    + pose proof (unvisited_visit s node Hv Hn). lia.
    + simpl. by apply (close_node_spec s G node new m s1).
Qed.

Lemma empty_acct_inv : inv (empty_acct false) [].
Proof.
  assert (∀ x, visited (empty_acct false) x → False) as Hv by (intros x Hx; by apply Hx).
  split; simpl; try done; try (by constructor); try lia; try (intros; set_solver).
  - intros x y [Hx _]. by apply Hv in Hx.
  - intros x. split; [by intros ?%elem_of_nil|]. intros [Hx _]. by apply Hv in Hx.
Qed.

(** The outer loop: between calls nothing is open. *)
Lemma visit_all_spec fuel nodes s :
  (∀ n, n ∈ nodes → n ∈ V) → size V ≤ fuel → inv s [] →
  ∃ s', foldl (visit_unvisited fuel) (Some s) nodes = Some s' ∧ inv s' [] ∧
    (∀ x, visited s x → visited s' x) ∧ (∀ n, n ∈ nodes → visited s' n).
Proof.
  intros Hn Hf. revert s. induction nodes as [|n nodes IH]; intros s Hi; cbn [foldl].
  { exists s. split_and!; [done..|set_solver]. }
  assert (∃ s1, visit_unvisited fuel (Some s) n = Some s1 ∧ inv s1 [] ∧
    (∀ x, visited s x → visited s1 x) ∧ visited s1 n) as (s1 & E & Hi1 & Hv1 & Hn1).
  { unfold visit_unvisited. simpl. pose proof (node_index_zero s [] n Hi) as Hz.
    destruct (node_index s n =? 0) eqn:E.
    - apply Nat.eqb_eq, Hz in E.
      destruct (call_spec_all fuel s [] n Hi E) as (m & s1 & new & -> & Hc); [set_solver|set_solver| |].
      { transitivity (size V); [|done]. unfold unvisited. apply subseteq_size. set_solver. }
      exists s1. split_and!; [done|apply Hc| |apply (cp_node _ _ _ _ _ _ Hc)].
      intros x. eapply grows_visited. apply Hc.
    - apply Nat.eqb_neq in E. exists s. split_and!; [done..|]. unfold visited. tauto. }
  rewrite E. destruct (IH ltac:(set_solver) s1 Hi1) as (s' & E' & Hi' & Hv' & Hn').
  exists s'. split_and!; [done|done|auto|]. intros x [->|Hx]%elem_of_cons; auto.
Qed.

(** Once nothing is open the components are the classes of the visited
    nodes. *)
Lemma inv_done s : inv s [] → ∀ x, x ∈ mjoin (SCC s) ↔ visited s x.
Proof.
  intros Hi x. rewrite (i_scc_all _ _ Hi). unfold closed. split; [by intros [? _]|].
  intros Hv. split; [done|]. intros Hx. destruct (i_root _ _ Hi x Hx) as (g & Hg & _). set_solver.
Qed.
End correctness.

(** Leaving components of one node out changes nothing but the result. *)
Definition drop_singles (s : sccAcct) : sccAcct := {|
  ExcludeSingle := true; NextIndex := NextIndex s; NodeIndex := NodeIndex s; Stack := Stack s;
  SCC := filter (λ scc, length scc ≠ 1) (SCC s) |}.

Definition keeps_mode (f : sccAcct → N → option (nat * sccAcct)) : Prop :=
  ∀ s n m s', f s n = Some (m, s') → ExcludeSingle s' = ExcludeSingle s.

Definition commutes (f : sccAcct → N → option (nat * sccAcct)) : Prop :=
  ∀ s n, ExcludeSingle s = false → f (drop_singles s) n = (λ r, (r.1, drop_singles r.2)) <$> f s n.

Lemma pop_component_mode fuel s node scc scc' s' :
  pop_component fuel s node scc = Some (scc', s') → ExcludeSingle s' = ExcludeSingle s.
Proof.
  revert s scc. induction fuel as [|fuel IH]; intros s scc; simpl; [done|]. unfold pop.
  destruct (Stack s); [done|]. case_bool_decide; [by intros [= _ <-]|]. intros E. by rewrite (IH _ _ E).
Qed.

Lemma pop_component_drop fuel s node scc :
  pop_component fuel (drop_singles s) node scc =
  (λ r, (r.1, drop_singles r.2)) <$> pop_component fuel s node scc.
Proof.
  revert s scc. induction fuel as [|fuel IH]; intros s scc; simpl; [done|]. unfold pop. simpl.
  destruct (Stack s) as [|a l]; [done|]. case_bool_decide; [done|]. by rewrite <-IH.
Qed.

Lemma add_component_drop s scc :
  ExcludeSingle s = false → add_component (drop_singles s) scc = drop_singles (add_component s scc).
Proof.
  intros Hm. unfold add_component, drop_singles. rewrite Hm. simpl. rewrite filter_app, filter_cons, filter_nil.
  destruct (length scc =? 1) eqn:E.
  - apply Nat.eqb_eq in E. rewrite decide_False by lia. by rewrite app_nil_r.
  - apply Nat.eqb_neq in E. by rewrite decide_True.
Qed.

Lemma edge_loop_mode rec targets s m m' s' :
  keeps_mode rec → edge_loop rec targets s m = Some (m', s') → ExcludeSingle s' = ExcludeSingle s.
Proof.
  intros Hr. revert s m. induction targets as [|t targets IH]; intros s m; simpl; [by intros [= _ <-]|].
  destruct (_ =? 0); [|destruct (inStack s t); apply IH].
  destruct (rec s t) as [[m1 s1]|] eqn:E; simpl; [|done]. intros E'. by rewrite (IH _ _ E'), (Hr _ _ _ _ E).
Qed.

Lemma edge_loop_drop rec targets s m :
  keeps_mode rec → commutes rec → ExcludeSingle s = false →
  edge_loop rec targets (drop_singles s) m =
  (λ r, (r.1, drop_singles r.2)) <$> edge_loop rec targets s m.
Proof.
  intros Hk Hc. revert s m. induction targets as [|t targets IH]; intros s m Hm; simpl; [done|].
  change (node_index (drop_singles s) t) with (node_index s t).
  change (inStack (drop_singles s) t) with (inStack s t).
  destruct (_ =? 0); [|destruct (inStack s t); by apply IH]. rewrite Hc by done.
  destruct (rec s t) as [[m1 s1]|] eqn:E; simpl; [|done]. apply IH. by rewrite (Hk _ _ _ _ E).
Qed.

Lemma add_component_mode s scc : ExcludeSingle (add_component s scc) = ExcludeSingle s.
Proof. unfold add_component. by destruct (_ && _). Qed.

Lemma stronglyConnected_mode fuel : keeps_mode (stronglyConnected fuel).
Proof.
  induction fuel as [|fuel IH]; intros s n m s'; simpl; [done|].
  destruct (edge_loop _ _ _ _) as [[m1 s1]|] eqn:E; simpl; [|done].
  apply edge_loop_mode in E; [|done]. unfold close_node. destruct (_ =? _); [|intros [= _ <-]; exact E].
  destruct (pop_component _ _ _ _) as [[scc s2]|] eqn:Ep; simpl; [|done].
  intros [= _ <-]. rewrite add_component_mode, (pop_component_mode _ _ _ _ _ _ Ep). exact E.
Qed.

Lemma stronglyConnected_drop fuel : commutes (stronglyConnected fuel).
Proof.
  induction fuel as [|fuel IH]; intros s n Hm; simpl; [done|].
  change (visit (drop_singles s) n) with (drop_singles (visit s n)).
  rewrite edge_loop_drop by (done || apply stronglyConnected_mode).
  destruct (edge_loop _ _ _ _) as [[m1 s1]|] eqn:E; simpl; [|done].
  apply edge_loop_mode in E; [|apply stronglyConnected_mode]. simpl in E.
  unfold close_node. destruct (_ =? m1); [|done]. rewrite pop_component_drop.
  destruct (pop_component _ _ _ _) as [[scc s2]|] eqn:Ep; simpl; [|done].
  rewrite add_component_drop; [done|]. rewrite (pop_component_mode _ _ _ _ _ _ Ep). congruence.
Qed.

Lemma visit_all_drop fuel nodes s :
  ExcludeSingle s = false →
  foldl (visit_unvisited fuel) (Some (drop_singles s)) nodes =
  drop_singles <$> foldl (visit_unvisited fuel) (Some s) nodes.
Proof.
  revert s. induction nodes as [|n nodes IH]; intros s Hm; [done|].
  assert (visit_unvisited fuel (Some (drop_singles s)) n = drop_singles <$> visit_unvisited fuel (Some s) n ∧
    ∀ s', visit_unvisited fuel (Some s) n = Some s' → ExcludeSingle s' = false) as [E Hm'].
  { unfold visit_unvisited. simpl. change (node_index (drop_singles s) n) with (node_index s n).
    destruct (_ =? 0); [|split; [done|by intros s' [= <-]]]. rewrite stronglyConnected_drop by done.
    destruct (stronglyConnected fuel s n) as [[m1 s1]|] eqn:E; simpl; [|done]. split; [done|].
    intros s' [= <-]. rewrite <-Hm. by apply (stronglyConnected_mode _ _ _ _ _ E). }
  cbn [foldl]. rewrite E. destruct (visit_unvisited fuel (Some s) n) as [s1|]; [by apply IH, Hm'|].
  simpl. clear. induction nodes; [done|]. by simpl.
Qed.

Lemma exclude_single_filters fuel nodes :
  StronglyConnectedComponents fuel nodes true =
  filter (λ scc, length scc ≠ 1) <$> StronglyConnectedComponents fuel nodes false.
Proof.
  unfold StronglyConnectedComponents.
  change (empty_acct true) with (drop_singles (empty_acct false)). rewrite visit_all_drop by done.
  by destruct (foldl _ _ _).
Qed.

(** The nodes reachable from a list, in a finite graph. *)
Lemma reachable_set (V : gset N) nodes :
  (∀ n, n ∈ V → ∀ m, edge succ n m → m ∈ V) → (∀ n, n ∈ nodes → n ∈ V) →
  ∃ W : gset N, W ⊆ V ∧ ∀ x, x ∈ W ↔ ∃ n, n ∈ nodes ∧ reach succ n x.
Proof.
  intros HV. induction nodes as [|n nodes IH]; intros Hn; [exists ∅; set_solver|].
  destruct IH as (W & Hsub & HW); [set_solver|].
  destruct (walk_reaches succ V n (walk_fuel succ V)) as (_ & F & _ & _ & _ & HF); [set_solver|done|done|].
  exists (F ∪ W). split.
  - apply union_subseteq. split; [|done]. intros x Hx. apply HF in Hx.
    assert (n ∈ V) as Hnv by set_solver. clear -HV Hx Hnv.
    induction Hx as [|a b c Hab _ IH]; [done|]. by apply IH, (HV a).
  - intros x. rewrite elem_of_union, HF, HW. set_solver.
Qed.

Lemma NoDup_join_part (sccs : list (list N)) scc : NoDup (mjoin sccs) → scc ∈ sccs → NoDup scc.
Proof.
  induction sccs as [|a sccs IH]; [set_solver|]. simpl. intros (H1 & _ & H2)%NoDup_app [->|Hin]%elem_of_cons; auto.
Qed.

(** A component of more than one node. *)
Lemma component_single scc x :
  is_component scc → NoDup scc → x ∈ scc → length scc ≠ 1 ↔ ∃ y, y ≠ x ∧ mutual x y.
Proof.
  intros [_ Hc] Hn Hx. split.
  - intros Hl. destruct scc as [|a [|b scc]]; [set_solver|done|].
    apply NoDup_cons in Hn as [Ha Hn]. destruct (decide (x = a)) as [->|Hne].
    + exists b. split; [set_solver|]. apply Hc; set_solver.
    + exists a. split; [done|]. apply Hc; set_solver.
  - intros (y & Hne & Hy) Hl. apply Hc in Hy; [|done]. destruct scc as [|a [|b scc]]; set_solver.
Qed.
End tarjan.

(** * Properties *)

Section properties.
  Context {N : Type} `{Countable N} (succ : N → list N).

Lemma components_found (V : gset N) (nodes : list N) (excludeSingle : bool) (fuel : nat) :
  (∀ n, n ∈ V → ∀ m, edge succ n m → m ∈ V) → (∀ n, n ∈ nodes → n ∈ V) → size V ≤ fuel →
  ∃ sccs, StronglyConnectedComponents succ fuel nodes excludeSingle = Some sccs ∧
    NoDup (mjoin sccs) ∧ Forall (is_component succ) sccs ∧
    ∀ x, x ∈ mjoin sccs ↔ (∃ n, n ∈ nodes ∧ reach succ n x) ∧
      (excludeSingle = true → ∃ y, y ≠ x ∧ mutual succ x y).
Proof.
  intros HV Hn Hf. destruct (reachable_set succ V nodes HV Hn) as (W & Hsub & HW).
  assert (∀ n, n ∈ W → ∀ m, edge succ n m → m ∈ W) as HWc.
  { intros n Hnw m Hm. apply HW in Hnw as (a & Ha & Hr). apply HW. exists a. split; [done|]. by eapply rtc_r. }
  destruct (visit_all_spec succ W HWc fuel nodes (empty_acct false)) as (s & E & Hi & _ & Hvs).
  { intros n Hin. apply HW. exists n. split; [done|apply rtc_refl]. }
  { pose proof (subseteq_size _ _ Hsub). lia. }
  { by apply empty_acct_inv. }
  pose proof (inv_done succ W HWc s Hi) as Hdone.
  assert (∀ x, x ∈ mjoin (SCC s) ↔ ∃ n, n ∈ nodes ∧ reach succ n x) as Hall.
  { intros x. rewrite Hdone, <-HW. split; [apply (i_from succ W _ _ Hi)|]. intros Hx.
    apply HW in Hx as (n & Hin & Hr). specialize (Hvs n Hin). clear -Hi Hvs Hr.
    induction Hr as [|a b c Hab _ IH]; [done|]. apply IH. apply (i_edges succ W _ _ Hi a); set_solver. }
  pose proof (i_scc succ W _ _ Hi) as Hc. pose proof (i_scc_nodup succ W _ _ Hi) as Hd.
  assert (StronglyConnectedComponents succ fuel nodes false = Some (SCC s)) as Ef.
  { unfold StronglyConnectedComponents. by rewrite E. }
  destruct excludeSingle; [rewrite exclude_single_filters, Ef|].
  2: { exists (SCC s). split_and!; [done..|]. intros x. rewrite Hall. split; [done|by intros [? _]]. }
  eexists. split; [done|]. split_and!.
  - clear -Hd. induction (SCC s) as [|scc sccs IH]; [done|]. simpl in Hd. apply NoDup_app in Hd as (H1 & H2 & H3).
    rewrite filter_cons. case_decide; [|by apply IH]. simpl. apply NoDup_app. split_and!; [done| |by apply IH].
    intros x Hx Hj. apply (H2 x Hx). apply list_elem_of_join in Hj as (l & Hl & Hin).
    apply list_elem_of_filter in Hin as [_ Hin]. apply list_elem_of_join. by exists l.
  - apply Forall_forall. intros scc [_ Hin]%list_elem_of_filter. by eapply Forall_forall in Hc.
  - intros x. rewrite <-Hall, !list_elem_of_join. split.
    + intros (scc & Hx & [Hl Hin]%list_elem_of_filter). split; [by exists scc|]. intros _.
      eapply Forall_forall in Hc; [|done]. apply (component_single succ scc); [done| |done|done].
      by eapply NoDup_join_part.
    + intros [(scc & Hx & Hin) Hy]. exists scc. split; [done|]. apply list_elem_of_filter. split; [|done].
      eapply Forall_forall in Hc; [|done]. apply (component_single succ scc x); [done| |done|by apply Hy].
      by eapply NoDup_join_part.
Qed.

(** C27: on a finite graph Tarjan's algorithm ends, with recursion no deeper
    than the graph has nodes, and gives exactly the strongly connected
    components: no node is in two of them or twice in one, each is the set of
    the nodes its nodes reach and are reached from, and they hold every node
    reachable from the given ones, but for the components of one node when
    those are to be left out. *)
Theorem strong_components_exact (V : gset N) (nodes : list N) (excludeSingle : bool) (fuel : nat) :
  (∀ n, n ∈ V → ∀ m, edge succ n m → m ∈ V) → (∀ n, n ∈ nodes → n ∈ V) → size V ≤ fuel →
  ∃ sccs, StronglyConnectedComponents succ fuel nodes excludeSingle = Some sccs ∧
    NoDup (mjoin sccs) ∧ Forall (is_component succ) sccs ∧
    ∀ x, x ∈ mjoin sccs ↔ (∃ n, n ∈ nodes ∧ reach succ n x) ∧
      (excludeSingle = true → ∃ y, y ≠ x ∧ mutual succ x y).
Proof. apply components_found. Qed.
End properties.

(** The graph of the tests: a cycle of three nodes and one more. *)
Lemma strong_components_exact_witness :
  StronglyConnectedComponents demo_succ 5 [0; 3; 4] false = Some [[3]; [2; 1; 0]; [4]] ∧
  ∃ sccs, StronglyConnectedComponents demo_succ 5 [0; 3; 4] true = Some sccs ∧
    ∀ x, x ∈ mjoin sccs ↔ (∃ n, n ∈ [0; 3; 4] ∧ reach demo_succ n x) ∧ ∃ y, y ≠ x ∧ mutual demo_succ x y.
Proof.
  split; [vm_compute; reflexivity|].
  destruct (strong_components_exact demo_succ demo_nodes [0; 3; 4] true 5) as (sccs & E & _ & _ & Hx);
    [apply demo_closed|set_solver|vm_compute; lia|].
  exists sccs. split; [exact E|]. intros x. destruct (Hx x) as [H1 H2]. split.
  - intros H. destruct (H1 H) as [H3 H4]. split; [exact H3|exact (H4 eq_refl)].
  - intros [H3 H4]. apply H2. split; [exact H3|intros _; exact H4].
Defined.

(** * Graphs written as text

    Reading lines [a -> b ; name] into nodes, and writing nodes for GraphViz. A
    node is known by its name: the source keeps one node for each. *)

Record BasicEdge : Type := { be_Name : string; EdgeHead : string; EdgeTail : string }.

(** The nodes with their edges in order. *)
Definition basic_nodes := gmap string (list BasicEdge).

Definition BasicNode_Edges (nodes : basic_nodes) (n : string) : list string :=
  EdgeTail <$> default [] (nodes !! n).

Definition AddEdge (nodes : basic_nodes) (n : string) (edge : BasicEdge) : basic_nodes :=
  <[n := default [] (nodes !! n) ++ [edge]]> nodes.

Definition BasicNode_String (name : string) : string :=
  if bool_decide (name = EmptyString) then "Node" else name.

Definition BasicEdge_String (e : BasicEdge) : string :=
  if bool_decide (be_Name e = EmptyString) then "Edge" else be_Name e.

(** What follows the first [sep] of a text that has it. *)
Fixpoint str_after (sep s : string) : string :=
  if String.prefix sep s then str_from (String.length sep) s
  else match s with EmptyString => EmptyString | String _ r => str_after sep r end.

(** [strings.Trim(s, " \t\r\n")] *)
Definition trim_blanks (s : string) : string :=
  str_trim (String " " (String (Ascii.ascii_of_nat 9) (String (Ascii.ascii_of_nat 13)
    (String newline EmptyString)))) s.

(** One line: its edge, when it has an arrow. *)
Definition parse_line (line : string) : option BasicEdge :=
  let '(edgeName, line) :=
    if str_contains ";" line then (trim_blanks (str_after ";" line), str_before ";" line)
    else (EmptyString, line) in
  if str_contains "->" line then
    Some {| be_Name := edgeName; EdgeHead := trim_blanks (str_before "->" line);
            EdgeTail := trim_blanks (str_after "->" line) |}
  else None.

Definition ensure_node (nodes : basic_nodes) (n : string) : basic_nodes :=
  match nodes !! n with None => <[n := []]> nodes | Some _ => nodes end.

Definition add_line (nodes : basic_nodes) (line : string) : basic_nodes :=
  match parse_line line with
  | None => nodes
  | Some e => AddEdge (ensure_node (ensure_node nodes (EdgeHead e)) (EdgeTail e)) (EdgeHead e) e
  end.

Definition ParseBasic (s : string) : basic_nodes := foldl add_line ∅ (str_split newline s).

(** [WriteDot] *)
Definition dot_quote (s : string) : string := dquote +:+ s +:+ dquote.

Definition node_dot (nodes : basic_nodes) (n : string) : string :=
  String (Ascii.ascii_of_nat 9) (dot_quote (BasicNode_String n) +:+ ";" +:+ String newline EmptyString) +:+
  str_join EmptyString ((λ e,
    String (Ascii.ascii_of_nat 9) (dot_quote (BasicNode_String n) +:+ " -> " +:+
      dot_quote (BasicNode_String (EdgeTail e)) +:+ " [label=" +:+ dot_quote (BasicEdge_String e) +:+ "];" +:+
      String newline EmptyString)) <$> default [] (nodes !! n)).

Definition WriteDot (nodes : basic_nodes) (ns : list string) : string :=
  "digraph {" +:+ String newline EmptyString +:+ str_join EmptyString (node_dot nodes <$> ns) +:+
  "}" +:+ String newline EmptyString.

(** * Facts *)

Lemma ensure_node_lookup nodes n m :
  ensure_node nodes n !! m = if bool_decide (n = m) then Some (default [] (nodes !! m)) else nodes !! m.
Proof.
  unfold ensure_node, basic_nodes in *. destruct (decide (n = m)) as [->|Hne].
  - rewrite bool_decide_eq_true_2 by done. destruct (nodes !! m) eqn:E; simpl; [by rewrite E|].
    by rewrite lookup_insert_eq.
  - rewrite bool_decide_eq_false_2 by done. destruct (nodes !! n); [done|]. by rewrite lookup_insert_ne.
Qed.

Lemma foldl_lines_edges lines nodes n :
  default [] (foldl add_line nodes lines !! n) =
  default [] (nodes !! n) ++ filter (λ e, EdgeHead e = n) (omap parse_line lines).
Proof.
  revert nodes. induction lines as [|l lines IH]; intros nodes; [by rewrite app_nil_r|].
  cbn [foldl]. rewrite IH. clear IH. unfold add_line at 1. simpl.
  destruct (parse_line l) as [e|]; [|done]. rewrite filter_cons. unfold AddEdge, basic_nodes in *.
  destruct (decide (EdgeHead e = n)) as [<-|Hne].
  - rewrite lookup_insert_eq. simpl. rewrite !ensure_node_lookup, (bool_decide_eq_true_2 (EdgeHead e = _)) by done.
    rewrite <-app_assoc. by case_bool_decide.
  - rewrite lookup_insert_ne, !ensure_node_lookup by done. rewrite (bool_decide_eq_false_2 (EdgeHead e = n)) by done.
    by case_bool_decide.
Qed.

(** The edges of a node are those of the lines that begin with its name, in
    their order. *)
Theorem parse_basic_edges (s n : string) :
  BasicNode_Edges (ParseBasic s) n =
  EdgeTail <$> filter (λ e, EdgeHead e = n) (omap parse_line (str_split newline s)).
Proof. unfold BasicNode_Edges, ParseBasic. by rewrite foldl_lines_edges. Qed.

(** The texts of the tests (digraph/basic_test.go, graphviz_test.go). *)
Definition lines (l : list string) : string := str_join (String newline EmptyString) l.

Example parse_basic_demo :
  let nodes := ParseBasic (lines ["a -> b ; first"; "b -> c ; second"; "b -> d"]) in
  BasicNode_Edges nodes "b" = ["c"; "d"] ∧ BasicNode_Edges nodes "a" = ["b"] ∧
  WriteDot nodes ["a"] = lines ["digraph {"; String (Ascii.ascii_of_nat 9) (dot_quote "a" +:+ ";");
    String (Ascii.ascii_of_nat 9) (dot_quote "a" +:+ " -> " +:+ dot_quote "b" +:+ " [label=" +:+
      dot_quote "first" +:+ "];"); "}"; ""].
Proof. vm_compute. done. Qed.
