(* ===== verification/Depgraph.v ===== *)
(** Dependency graphs (src/depgraph/graph.go, noun.go, dependency.go): nouns
    linked by dependencies that carry constraints.

    Nouns live in a heap and are referred to by identity, as the pointers of
    the source do; the constraint interface is a class. *)
From S2P Require Import Prelude Gerror Digraph.

(** * Data *)

Section data.
  Context (N M C : Type).

Record Dependency : Type := {
  dep_Name : string;
  dep_Constraints : list C;
  dep_Source : N;
  dep_Target : N;
}.

Record Noun : Type := {
  noun_Name : string;
  noun_Meta : M;
  noun_Deps : list Dependency;
}.
End data.
Arguments Build_Dependency {N C} _ _ _ _.
Arguments dep_Name {N C} _.
Arguments dep_Constraints {N C} _.
Arguments dep_Source {N C} _.
Arguments dep_Target {N C} _.
Arguments Build_Noun {N M C} _ _ _.
Arguments noun_Name {N M C} _.
Arguments noun_Meta {N M C} _.
Arguments noun_Deps {N M C} _.

(** The interface [Constraint]: [Ok None] is satisfied, [Ok (Some e)] is not,
    for the reason [e]. *)
Class Constraint (N M C E : Type) :=
  Satisfied : C → Noun N M C → Noun N M C → outcome (option E).

Section depgraph.
  Context {N M C E : Type} `{Countable N} `{!Constraint N M C E}.

(** The graph: its nouns in order, the heap they live in, and the root. *)
Record Graph : Type := {
  g_Name : string;
  g_heap : gmap N (Noun N M C);
  g_Nouns : list N;
  g_Root : option N;
}.

Record Violation : Type := {
  v_Source : N;
  v_Target : N;
  v_Dependency : Dependency N C;
  v_Constraint : C;
  v_Err : E;
}.

(** * Operations *)

(** The tails of the edges of a noun. *)
Definition Edges (g : Graph) (n : N) : list N :=
  match g_heap g !! n with Some noun => dep_Target <$> noun_Deps noun | None => [] end.

(** The inner loop of the callback: the violated constraints of one
    dependency. *)
Fixpoint dep_violations (g : Graph) (n : N) (noun : Noun N M C) (dep : Dependency N C)
    (target : Noun N M C) (cs : list C) : outcome (list Violation) :=
  match cs with
  | [] => Ok []
  | constraint :: rest =>
      r ← Satisfied constraint noun target;
      vs ← dep_violations g n noun dep target rest;
      Ok (match r with
          | None => vs
          | Some e => {| v_Source := n; v_Target := dep_Target dep; v_Dependency := dep;
                         v_Constraint := constraint; v_Err := e |} :: vs
          end)
  end.

(** The callback for one noun; a dangling pointer panics. *)
Fixpoint deps_violations (g : Graph) (n : N) (noun : Noun N M C) (deps : list (Dependency N C))
    : outcome (list Violation) :=
  match deps with
  | [] => Ok []
  | dep :: rest =>
      match g_heap g !! dep_Target dep with
      | None => Panic NilDeref
      | Some target =>
          vs ← dep_violations g n noun dep target (dep_Constraints dep);
          vs' ← deps_violations g n noun rest;
          Ok (vs ++ vs')
      end
  end.

Definition noun_violations (g : Graph) (n : N) : outcome (list Violation) :=
  match g_heap g !! n with
  | None => Panic NilDeref
  | Some noun => deps_violations g n noun (noun_Deps noun)
  end.

Definition check_noun (g : Graph) (n : N) (acc : outcome (list Violation)) : outcome (list Violation) :=
  vs ← acc; vs' ← noun_violations g n; Ok (vs ++ vs').

(** [CheckConstraints]: [None] is running out of fuel, [Ok None] is nil, and
    [Ok (Some vs)] is a constraint error with its violations. *)
Definition CheckConstraints (fuel : nat) (g : Graph) : option (outcome (option (list Violation))) :=
  match g_Root g with
  | None => Some (Err (New "Graph must be validated before checking constraint violations"))
  | Some root =>
      r ← DepthFirstWalk (Edges g) fuel root (λ n acc, (true, check_noun g n acc)) (Ok []);
      Some (vs ← r; Ok (match vs with [] => None | _ => Some vs end))
  end.

(** [Graph.Noun]: the first noun with the name. *)
Definition find_Noun (g : Graph) (name : string) : option N :=
  head (filter (λ n, (noun_Name <$> g_heap g !! n) = Some name) (g_Nouns g)).

Definition DependsOn (g : Graph) (n : N) : list N :=
  filter (λ other, other ≠ n ∧ n ∈ Edges g other) (g_Nouns g).

(** * Facts *)

(** No dangling pointers. *)
Definition heap_wf (g : Graph) : Prop :=
  ∀ n noun, g_heap g !! n = Some noun →
    Forall (λ dep, is_Some (g_heap g !! dep_Target dep)) (noun_Deps noun).

(** The constraint of a dependency of a noun is violated for a reason. *)
Definition violated (g : Graph) (v : Violation) : Prop :=
  ∃ noun target, g_heap g !! v_Source v = Some noun ∧ g_heap g !! v_Target v = Some target ∧
    v_Dependency v ∈ noun_Deps noun ∧ dep_Target (v_Dependency v) = v_Target v ∧
    v_Constraint v ∈ dep_Constraints (v_Dependency v) ∧
    Satisfied (v_Constraint v) noun target = Ok (Some (v_Err v)).

Context (sat_total : ∀ c n t, ∃ r, Satisfied (Constraint := _) c n t = Ok r).

Lemma dep_violations_spec g n noun dep target cs :
  ∃ vs, dep_violations g n noun dep target cs = Ok vs ∧
    ∀ v, v ∈ vs ↔ v_Source v = n ∧ v_Target v = dep_Target dep ∧ v_Dependency v = dep ∧
      v_Constraint v ∈ cs ∧ Satisfied (v_Constraint v) noun target = Ok (Some (v_Err v)).
Proof.
  induction cs as [|c cs (vs & E1 & IH)]; simpl; [exists []; set_solver|].
  destruct (sat_total c noun target) as [r Er]. rewrite Er. simpl. rewrite E1. simpl.
  eexists. split; [done|]. intros v. destruct r as [e|].
  - rewrite elem_of_cons, IH, elem_of_cons. split.
    + intros [->|(?&?&?&?&?)]; simpl; tauto.
    + intros (Hs & Ht & Hd & [Hc|Hc] & Hr); [left|tauto]. subst. rewrite Er in Hr.
      destruct v; simpl in *; naive_solver.
  - rewrite IH, elem_of_cons. split; [tauto|]. intros (Hs & Ht & Hd & [Hc|Hc] & Hr); [|tauto].
    rewrite Hc, Er in Hr. done.
Qed.

Lemma deps_violations_spec g n noun deps :
  Forall (λ dep, is_Some (g_heap g !! dep_Target dep)) deps →
  ∃ vs, deps_violations g n noun deps = Ok vs ∧
    ∀ v, v ∈ vs ↔ v_Source v = n ∧ v_Dependency v ∈ deps ∧ v_Target v = dep_Target (v_Dependency v) ∧
      v_Constraint v ∈ dep_Constraints (v_Dependency v) ∧
      ∃ target, g_heap g !! v_Target v = Some target ∧
        Satisfied (v_Constraint v) noun target = Ok (Some (v_Err v)).
Proof.
  induction 1 as [|dep deps [target Ht] Hf (vs' & E2 & IH)]; simpl; [exists []; set_solver|].
  rewrite Ht. destruct (dep_violations_spec g n noun dep target (dep_Constraints dep)) as (vs & E1 & Hvs).
  rewrite E1. simpl. rewrite E2. simpl. eexists. split; [done|]. intros v.
  rewrite elem_of_app, Hvs, IH, elem_of_cons. split.
  - intros [(-> & Hvt & -> & ? & ?)|(?&?&?&?&?)]; [|tauto]. rewrite Hvt. split_and!; eauto.
  - intros (Hs & [->|Hd] & Hvt & Hc & t & Hg & Hr); [left|right; eauto 10].
    rewrite Hvt, Ht in Hg. simplify_eq. done.
Qed.

Lemma noun_violations_spec g n :
  heap_wf g → is_Some (g_heap g !! n) →
  ∃ vs, noun_violations g n = Ok vs ∧ ∀ v, v ∈ vs ↔ v_Source v = n ∧ violated g v.
Proof.
  intros Hw [noun Hn]. unfold noun_violations. rewrite Hn.
  destruct (deps_violations_spec g n noun (noun_Deps noun)) as (vs & E1 & Hvs); [by eapply Hw|].
  exists vs. split; [done|]. intros v. rewrite Hvs. unfold violated. split.
  - intros (<- & Hd & Ht & Hc & t & Hg & Hr). split; [done|]. exists noun, t. eauto 10.
  - intros (Hs & noun' & t & Hn' & Hg & Hd & Ht & Hc & Hr). rewrite Hs, Hn in Hn'.
    simplify_eq. split_and!; eauto.
Qed.

Lemma check_nouns_spec g order acc :
  heap_wf g → Forall (λ n, is_Some (g_heap g !! n)) order →
  ∃ vs, foldl (λ s n, check_noun g n s) (Ok acc) order = Ok vs ∧
    ∀ v, v ∈ vs ↔ v ∈ acc ∨ (v_Source v ∈ order ∧ violated g v).
Proof.
  intros Hw. revert acc. induction order as [|n order IH]; intros acc Hf.
  { exists acc. split; [done|]. set_solver. }
  apply Forall_cons in Hf as [Hn Hf]. cbn [foldl].
  destruct (noun_violations_spec g n Hw Hn) as (vs & E1 & Hvs).
  unfold check_noun at 2. simpl. rewrite E1. simpl.
  destruct (IH (acc ++ vs) Hf) as (all & E2 & Hall). exists all. split; [done|].
  intros v. rewrite Hall, elem_of_app, Hvs, elem_of_cons. naive_solver.
Qed.
End depgraph.
Arguments Graph : clear implicits.
Arguments Violation : clear implicits.

(** * Properties *)

Section properties.
  Context {N M C E : Type} `{Countable N} `{!Constraint N M C E}.
  Implicit Types (g : Graph N M C _ _).

Lemma edges_closed g n m : heap_wf g → edge (Edges g) n m → m ∈ dom (g_heap g).
Proof.
  intros Hw Hm. unfold edge, Edges in Hm. destruct (g_heap g !! n) as [noun|] eqn:En.
  - apply list_elem_of_fmap in Hm as (dep & -> & Hdep). apply elem_of_dom.
    specialize (Hw n noun En). rewrite Forall_forall in Hw. by apply Hw.
  - by apply not_elem_of_nil in Hm.
Qed.

(** A check that finds nothing has looked at every constraint. *)
Lemma dep_violations_nil g n noun dep target cs :
  dep_violations g n noun dep target cs = Ok [] → ∀ c, c ∈ cs → Satisfied c noun target = Ok None.
Proof.
  induction cs as [|c cs IH]; simpl; [intros _ c Hc; by apply not_elem_of_nil in Hc|].
  intros Hv. apply bind_Ok in Hv as (r & Hr & Hv). apply bind_Ok in Hv as (vs & Hvs & Hv).
  destruct r; [done|]. injection Hv as ->. intros c' [->|Hc]%elem_of_cons; [done|by apply IH].
Qed.

Lemma deps_violations_nil g n noun deps :
  deps_violations g n noun deps = Ok [] →
  ∀ dep, dep ∈ deps → ∃ target, g_heap g !! dep_Target dep = Some target ∧
    ∀ c, c ∈ dep_Constraints dep → Satisfied c noun target = Ok None.
Proof.
  induction deps as [|d deps IH]; simpl; [intros _ dep Hd; by apply not_elem_of_nil in Hd|].
  destruct (g_heap g !! dep_Target d) as [target|] eqn:Et; [|done]. intros Hv.
  apply bind_Ok in Hv as (vs & Hvs & Hv). apply bind_Ok in Hv as (vs' & Hvs' & Hv).
  injection Hv as [-> ->]%app_eq_nil. intros dep [->|Hd]%elem_of_cons; [|by apply IH].
  exists target. split; [done|]. by eapply dep_violations_nil.
Qed.

Lemma check_nouns_grow g order acc vs :
  foldl (λ s n, check_noun g n s) acc order = Ok vs →
  ∃ vs0, acc = Ok vs0 ∧ (∀ v, v ∈ vs0 → v ∈ vs) ∧
  ∀ n, n ∈ order → ∃ vsn, noun_violations g n = Ok vsn ∧ ∀ v, v ∈ vsn → v ∈ vs.
Proof.
  revert acc. induction order as [|n order IH]; intros acc; simpl.
  { intros ->. exists vs. split_and!; [done..|]. intros n Hn. by apply not_elem_of_nil in Hn. }
  intros Hf. apply IH in Hf as (vs1 & Hc & Hin & Hall). unfold check_noun in Hc.
  apply bind_Ok in Hc as (vs0 & -> & Hc). apply bind_Ok in Hc as (vsn & Hn & [= <-]).
  exists vs0. split_and!; [done|intros v Hv; apply Hin; set_solver|].
  intros n' [->|Hn']%elem_of_cons; [|by apply Hall]. exists vsn. split; [done|].
  intros v Hv. apply Hin. set_solver.
Qed.

Lemma check_constraints_nil g root fuel :
  heap_wf g → g_Root g = Some root → is_Some (g_heap g !! root) →
  walk_fuel (Edges g) (dom (g_heap g)) ≤ fuel → CheckConstraints fuel g = Some (Ok None) →
  ∀ n noun, reach (Edges g) root n → g_heap g !! n = Some noun →
  ∀ dep, dep ∈ noun_Deps noun → ∃ target, g_heap g !! dep_Target dep = Some target ∧
    ∀ c, c ∈ dep_Constraints dep → Satisfied c noun target = Ok None.
Proof.
  intros Hw Hr Hroot Hf Hc n noun Hre Hn. unfold CheckConstraints in Hc. rewrite Hr in Hc.
  destruct (walk_reaches (Edges g) (dom (g_heap g)) root fuel) as (order & final & E1 & _ & Ho & _);
    [by apply elem_of_dom|intros m _ m'; by apply edges_closed|done|].
  unfold DepthFirstWalk in Hc.
  pose proof (walk_loop_fold (Edges g) (check_noun g) fuel [root] ∅ (Ok []) []) as Hfold.
  simpl in Hfold. rewrite Hfold, E1 in Hc. simpl in Hc.
  destruct (foldl _ _ order) as [vs| |] eqn:Ef; simpl in Hc; [|done..].
  destruct vs; [|done]. apply check_nouns_grow in Ef as (_ & _ & _ & Hall).
  destruct (Hall n) as (vsn & Hv & Hin); [by apply Ho|]. destruct vsn as [|v0 vsn].
  - unfold noun_violations in Hv. rewrite Hn in Hv. by apply (deps_violations_nil g n).
  - exfalso. apply (not_elem_of_nil v0), Hin. set_solver.
Qed.

(** C21: checking the constraints of a graph without dangling pointers always
    ends; it returns nil exactly when every constraint of every dependency of
    every noun reachable from the root is satisfied, and otherwise an error
    that lists exactly the violated ones. *)
Theorem check_constraints_exact g root fuel :
  (∀ c n t, ∃ r, Satisfied (Constraint := Constraint0) c n t = Ok r) →
  heap_wf g → g_Root g = Some root → is_Some (g_heap g !! root) →
  walk_fuel (Edges g) (dom (g_heap g)) ≤ fuel →
  ∃ r, CheckConstraints fuel g = Some (Ok r) ∧
    match r with
    | None => ∀ v, reach (Edges g) root (v_Source v) → ¬ violated g v
    | Some vs => vs ≠ [] ∧ ∀ v, v ∈ vs ↔ reach (Edges g) root (v_Source v) ∧ violated g v
    end.
Proof.
  intros Hsat Hw Hr Hroot Hf. unfold CheckConstraints. rewrite Hr.
  destruct (walk_reaches (Edges g) (dom (g_heap g)) root fuel) as (order & final & E1 & Hn & Ho & _);
    [by apply elem_of_dom|intros n _ m; by apply edges_closed|done|].
  unfold DepthFirstWalk.
  pose proof (walk_loop_fold (Edges g) (check_noun g) fuel [root] ∅ (Ok []) []) as Hfold.
  simpl in Hfold. rewrite Hfold, E1. simpl.
  assert (Forall (λ n, is_Some (g_heap g !! n)) order) as Hall.
  { apply Forall_forall. intros n Hn'. apply Ho in Hn'. unfold reach in Hn'.
    apply rtc_inv_r in Hn' as [<-|(m & _ & Hm)]; [done|]. by apply elem_of_dom, (edges_closed g m). }
  destruct (check_nouns_spec Hsat g order [] Hw Hall) as (vs & E2 & Hvs). rewrite E2. simpl.
  assert (∀ v, v ∈ vs ↔ reach (Edges g) root (v_Source v) ∧ violated g v) as Hv.
  { intros v. rewrite Hvs, Ho. set_solver. }
  eexists. split; [done|]. destruct vs as [|v0 vs].
  - intros v Hre Hvi. apply (not_elem_of_nil v). by apply Hv.
  - done.
Qed.

(** [DependsOn] lists exactly the other nouns of the graph that have a
    dependency on the noun. *)
Theorem depends_on_exact g n other :
  other ∈ DependsOn g n ↔
  other ∈ g_Nouns g ∧ other ≠ n ∧
  ∃ noun dep, g_heap g !! other = Some noun ∧ dep ∈ noun_Deps noun ∧ dep_Target dep = n.
Proof.
  unfold DependsOn. rewrite list_elem_of_filter. unfold Edges.
  destruct (g_heap g !! other) as [noun|] eqn:En.
  - rewrite list_elem_of_fmap. naive_solver.
  - split; [intros [[_ Hn] _]; by apply not_elem_of_nil in Hn|naive_solver].
Qed.
End properties.

(** Two nouns that depend on each other under a constraint that asks for a
    name, and a root. *)
#[local] Instance name_constraint : Constraint string unit string string :=
  λ c _ t, Ok (if bool_decide (noun_Name t = c) then None else Some ("not " +:+ c)).

Definition demo_dep (a b c : string) : Dependency string string :=
  {| dep_Name := a +:+ "-" +:+ b; dep_Constraints := [c]; dep_Source := a; dep_Target := b |}.

Definition demo_graph (c : string) : Graph string unit string _ _ := {|
  g_Name := "demo";
  g_heap := list_to_map
    [("root", {| noun_Name := "root"; noun_Meta := (); noun_Deps := [demo_dep "root" "a" "a"] |});
     ("a", {| noun_Name := "a"; noun_Meta := (); noun_Deps := [demo_dep "a" "b" "b"] |});
     ("b", {| noun_Name := "b"; noun_Meta := (); noun_Deps := [demo_dep "b" "a" c] |})];
  g_Nouns := ["root"];
  g_Root := Some "root" |}.

Lemma demo_graph_wf c : heap_wf (demo_graph c).
Proof.
  intros n noun Hn. apply elem_of_list_to_map_2 in Hn. rewrite !elem_of_cons in Hn.
  destruct Hn as [[= -> ->]|[[= -> ->]|[[= -> ->]|Hn]]]; [..|by apply not_elem_of_nil in Hn];
    repeat constructor; vm_compute; eauto.
Qed.

Lemma check_constraints_exact_witness :
  ∃ vs, CheckConstraints 10 (demo_graph "c") = Some (Ok (Some vs)) ∧
    ∀ v, v ∈ vs ↔ reach (Edges (demo_graph "c")) "root" (v_Source v) ∧ violated (demo_graph "c") v.
Proof.
  destruct (check_constraints_exact (demo_graph "c") "root" 10) as (r & E & Hr).
  - intros c n t. unfold Satisfied, name_constraint. eauto.
  - apply demo_graph_wf.
  - reflexivity.
  - vm_compute. eauto.
  - vm_compute. lia.
  - destruct r as [vs|]; [|vm_compute in E; discriminate E]. exists vs. split; [exact E|apply Hr].
Defined.
