(* ===== verification/GraphValidate.v ===== *)
(** Validating a dependency graph and printing it (src/depgraph/graph.go):
    one root, every noun reachable from it and no circular dependencies. *)
From S2P Require Import Prelude Digraph Tarjan Depgraph.
From stdpp Require Import relations.

Section validate.
  Context {N M C : Type} `{Countable N}.
  Implicit Types (g : @Graph N M C _ _) (n m : N).

(** * Operations *)

(** The slices are nil where they have no element. *)
Record ValidateError : Type := {
  MissingRoot : bool;
  ve_Unreachable : list N;
  Cycles : list (list N);
}.

Definition noun_name g n : string := default "" (noun_Name <$> g_heap g !! n).

(** [ValidateError.Error] *)
Definition error_lines g (v : ValidateError) : list string :=
  (if MissingRoot v then ["The graph has no single root"] else []) ++
  ((λ n, "Unreachable node: " +:+ noun_name g n) <$> ve_Unreachable v) ++
  ((λ c, "Cycle: " +:+ str_join " -> " (noun_name g <$> c)) <$> Cycles v).

Definition ValidateError_Error g (v : ValidateError) : string :=
  "The dependency graph is not valid:" +:+ String newline (String newline EmptyString) +:+
  str_join (String newline EmptyString) ((λ l, "* " +:+ l) <$> error_lines g v).

(** The loops of a noun to itself, once for each dependency. *)
Definition self_loops g : list (list N) :=
  g_Nouns g ≫= λ n,
    match g_heap g !! n with
    | None => []
    | Some noun =>
        (λ _, [n]) <$> filter (λ d, dep_Source d = dep_Target d) (noun_Deps noun)
    end.

Definition set_root g root : @Graph N M C _ _ := {|
  g_Name := g_Name g; g_heap := g_heap g; g_Nouns := g_Nouns g; g_Root := root |}.

(** The search for the root and for what it does not reach; the root is set
    when it is found and is otherwise left as it was. *)
Definition check_root (fuel : nat) g : option (@Graph N M C _ _ * bool * list N) :=
  match Sources (Edges g) (g_Nouns g) with
  | [root] =>
      unreached ← Unreachable (Edges g) fuel root (g_Nouns g);
      Some (set_root g (Some root), false, unreached)
  | _ => Some (g, true, [])
  end.

Definition invalid (v : ValidateError) : bool :=
  MissingRoot v || negb (bool_decide (ve_Unreachable v = [])) || negb (bool_decide (Cycles v = [])).

(** [Validate]: the graph with its root set, and the error when there is one.
    [None] is running out of fuel. *)
Definition Validate (fuel : nat) g : option (@Graph N M C _ _ * option ValidateError) :=
  r ← check_root fuel g;
  let '(g', missing, unreached) := r in
  cycles ← StronglyConnectedComponents (Edges g') fuel (g_Nouns g') true;
  let vErr := {| MissingRoot := missing; ve_Unreachable := unreached;
                 Cycles := cycles ++ self_loops g' |} in
  Some (g', if invalid vErr then Some vErr else None).

(** [Graph.String]: the nouns and their dependencies by name, a name that
    occurs twice standing for the last noun (or dependency) of that name. *)
Definition last_named {A} (name : A → string) (l : list A) (k : string) : option A :=
  last (filter (λ x, name x = k) l).

Definition noun_lines g (k : string) : list string :=
  match last_named (noun_name g) (g_Nouns g) k with
  | None => []
  | Some n =>
      let deps := default [] (noun_Deps <$> g_heap g !! n) in
      let target := λ d : Dependency N C, noun_name g (dep_Target d) in
      noun_name g n ::
      (sort_strings (target <$> deps) ≫= λ k,
        match last_named target deps k with
        | None => []
        | Some dep => ["  " +:+ noun_name g (dep_Source dep) +:+ " -> " +:+ noun_name g (dep_Target dep)]
        end)
  end.

Definition Graph_String g : string :=
  str_join EmptyString ((λ l, l +:+ String newline EmptyString) <$>
    (match g_Root g with Some r => "root: " +:+ noun_name g r | None => "root: <unknown>" end ::
     (sort_strings (noun_name g <$> g_Nouns g) ≫= noun_lines g))).

(** * Facts *)

(** A noun of the graph on which no noun of the graph depends. *)
Definition is_source g n : Prop := n ∈ g_Nouns g ∧ ∀ m, m ∈ g_Nouns g → n ∉ Edges g m.

(** The graph is in order: its nouns are in the heap, their dependencies are
    their own and lead to nouns of the graph. *)
Definition graph_wf g : Prop :=
  ∀ n, n ∈ g_Nouns g → ∃ noun, g_heap g !! n = Some noun ∧
    ∀ d, d ∈ noun_Deps noun → dep_Source d = n ∧ dep_Target d ∈ g_Nouns g.

Definition single_root g root : Prop := ∀ n, is_source g n ↔ n = root.

Definition on_cycle g n : Prop := n ∈ g_Nouns g ∧ tc (edge (Edges g)) n n.

Lemma NoDup_Sources g : NoDup (Sources (Edges g) (g_Nouns g)).
Proof.
  unfold Sources, FilterDegree. pose proof (NoDup_fst_map_to_list (InDegree (Edges g) (g_Nouns g))) as Hn.
  induction (map_to_list _) as [|[k v] l IH]; [constructor|]. simpl in *. apply NoDup_cons in Hn as [Hk Hn].
  rewrite filter_cons. case_decide; [|by apply IH]. simpl. constructor; [|by apply IH].
  rewrite list_elem_of_fmap. intros ([k' v'] & -> & [_ Hin]%list_elem_of_filter). apply Hk.
  apply list_elem_of_fmap. by exists (k', v').
Qed.

Lemma sources_single g root : Sources (Edges g) (g_Nouns g) = [root] ↔ single_root g root.
Proof.
  assert (∀ n, n ∈ Sources (Edges g) (g_Nouns g) ↔ is_source g n) as Hs
    by (intros n; apply sources_sinks_exact).
  unfold single_root. split.
  - intros E n. rewrite <-Hs, E. apply list_elem_of_singleton.
  - intros Hr. assert (∀ n, n ∈ Sources (Edges g) (g_Nouns g) ↔ n = root) as Hall
      by (intros n; by rewrite Hs). clear Hs Hr. pose proof (NoDup_Sources g) as Hn.
    destruct (Sources (Edges g) (g_Nouns g)) as [|a [|b l]].
    + exfalso. apply (not_elem_of_nil root). by apply Hall.
    + f_equal. apply Hall. set_solver.
    + apply NoDup_cons in Hn as [Hn _]. exfalso. apply Hn.
      assert (a = root) as -> by (apply Hall; set_solver).
      assert (b = root) as -> by (apply Hall; set_solver). set_solver.
Qed.

Lemma set_root_edges g r : Edges (set_root g r) = Edges g.
Proof. done. Qed.

Lemma wf_closed g n m : graph_wf g → n ∈ g_Nouns g → edge (Edges g) n m → m ∈ g_Nouns g.
Proof.
  intros Hwf Hn. destruct (Hwf n Hn) as (noun & Hh & Hd). unfold edge, Edges. rewrite Hh.
  intros (d & -> & Hin)%list_elem_of_fmap. by apply Hd.
Qed.

Lemma wf_reach g n m : graph_wf g → n ∈ g_Nouns g → reach (Edges g) n m → m ∈ g_Nouns g.
Proof.
  intros Hwf Hn Hr. induction Hr as [|a b c Hab _ IH]; [done|]. apply IH. by eapply wf_closed.
Qed.

Lemma self_loops_exact g n :
  graph_wf g → n ∈ mjoin (self_loops g) ↔ n ∈ g_Nouns g ∧ edge (Edges g) n n.
Proof.
  intros Hwf. unfold self_loops. rewrite list_elem_of_join. unfold edge. split.
  - intros (l & Hn & (a & Hl & Ha)%list_elem_of_bind). destruct (Hwf a Ha) as (noun & Hh & Hd).
    rewrite Hh in Hl. apply list_elem_of_fmap in Hl as (d & -> & [He Hin]%list_elem_of_filter).
    apply list_elem_of_singleton in Hn as ->. split; [done|]. unfold Edges. rewrite Hh.
    apply list_elem_of_fmap. exists d. split; [|done]. destruct (Hd d Hin) as [<- _]. congruence.
  - intros [Hn He]. destruct (Hwf n Hn) as (noun & Hh & Hd). unfold Edges in He. rewrite Hh in He.
    apply list_elem_of_fmap in He as (d & E & Hin). exists [n]. split; [set_solver|].
    apply list_elem_of_bind. exists n. split; [|done]. rewrite Hh. apply list_elem_of_fmap.
    exists d. split; [done|]. apply list_elem_of_filter. split; [|done]. destruct (Hd d Hin). congruence.
Qed.

(** A node is on a cycle when it has a loop or another node is mutually
    reachable. *)
Lemma cycle_split g n :
  tc (edge (Edges g)) n n ↔ edge (Edges g) n n ∨ ∃ m, m ≠ n ∧ mutual (Edges g) n m.
Proof.
  split.
  - intros Ht. inversion Ht as [? ? He|? m ? Hnm Hmn]; subst; [by left|].
    destruct (decide (m = n)) as [->|Hne]; [by left|]. right. exists m. split; [done|].
    split; [by apply rtc_once|by apply tc_rtc].
  - intros [?|(m & Hne & Hnm & Hmn)]; [by apply tc_once|].
    destruct (rtc_inv _ _ Hnm) as [?|(k & Hk & Hkm)]; [done|].
    eapply tc_rtc_r; [|done]. eapply tc_rtc_r; [by apply tc_once|done].
Qed.

Lemma check_root_spec fuel g :
  graph_wf g → walk_fuel (Edges g) (list_to_set (g_Nouns g)) ≤ fuel →
  ∃ g' missing unreached, check_root fuel g = Some (g', missing, unreached) ∧
    g_heap g' = g_heap g ∧ g_Nouns g' = g_Nouns g ∧
    ((∃ root, missing = false ∧ single_root g root ∧ g_Root g' = Some root ∧
        ∀ n, n ∈ unreached ↔ n ∈ g_Nouns g ∧ ¬ reach (Edges g) root n) ∨
     (missing = true ∧ unreached = [] ∧ g' = g ∧ ∀ root, ¬ single_root g root)).
Proof.
  intros Hwf Hf. unfold check_root.
  destruct (Sources (Edges g) (g_Nouns g)) as [|root [|b l]] eqn:E.
  - exists g, true, []. split_and!; [done..|]. right. split_and!; [done..|]. intros r Hr.
    apply sources_single in Hr. congruence.
  - assert (single_root g root) as Hr by (by apply sources_single).
    assert (root ∈ g_Nouns g) as Hin by (by apply Hr).
    destruct (unreachable_exact (Edges g) (list_to_set (g_Nouns g)) root (g_Nouns g) fuel) as (l & -> & _ & Hl).
    + by apply elem_of_list_to_set.
    + intros n Hn m Hm. apply elem_of_list_to_set in Hn. apply elem_of_list_to_set. by eapply wf_closed.
    + done.
    + eexists _, _, _. split; [done|]. split_and!; [done..|]. left. by exists root.
  - exists g, true, []. split_and!; [done..|]. right. split_and!; [done..|]. intros r Hr.
    apply sources_single in Hr. congruence.
Qed.

(** The cycles reported hold exactly the nouns on a cycle. *)
Lemma cycles_exact g fuel :
  graph_wf g → size (list_to_set (g_Nouns g) : gset N) ≤ fuel →
  ∃ cycles, StronglyConnectedComponents (Edges g) fuel (g_Nouns g) true = Some cycles ∧
    Forall (λ c, c ≠ []) (cycles ++ self_loops g) ∧
    ∀ n, n ∈ mjoin (cycles ++ self_loops g) ↔ on_cycle g n.
Proof.
  intros Hwf Hf.
  destruct (components_found (Edges g) (list_to_set (g_Nouns g)) (g_Nouns g) true fuel) as (cs & E & _ & Hall & Hc).
  - intros n Hn m Hm. apply elem_of_list_to_set in Hn. apply elem_of_list_to_set. by eapply wf_closed.
  - intros n Hn. by apply elem_of_list_to_set.
  - done.
  - exists cs. split; [done|]. split.
    { apply Forall_app. split; [by eapply Forall_impl; [done|intros c [? _]]|].
      apply Forall_forall. intros c (n & Hc' & _)%list_elem_of_bind. destruct (g_heap g !! n); [|set_solver].
      by apply list_elem_of_fmap in Hc' as (d & -> & _). }
    intros n. rewrite join_app, elem_of_app, Hc, self_loops_exact by done.
    unfold on_cycle. rewrite cycle_split. split.
    + intros [[(a & Ha & Hr) Hm]|[Hn He]]; [|tauto]. split; [by eapply wf_reach|]. auto.
    + intros [Hn [He|Hm]]; [by right|left]. split; [|done]. exists n. split; [done|apply rtc_refl].
Qed.

Lemma reach_dec (succ : N → list N) (V : gset N) (a b : N) :
  (∀ n, n ∈ V → ∀ m, edge succ n m → m ∈ V) → a ∈ V → reach succ a b ∨ ¬ reach succ a b.
Proof.
  intros HV Ha. destruct (walk_reaches succ V a (walk_fuel succ V) Ha HV (le_n _)) as (o & _ & _ & _ & Ho & _).
  rewrite <-Ho. destruct (decide (b ∈ o)); auto.
Qed.

Lemma single_root_unique g r r' : single_root g r → single_root g r' → r = r'.
Proof. intros Hr Hr'. by apply Hr', Hr. Qed.

(** A list of components is empty exactly when its union is. *)
Lemma join_nil (l : list (list N)) : Forall (λ c, c ≠ []) l → l = [] ↔ ∀ n, n ∉ mjoin l.
Proof.
  destruct l as [|c l]; intros Hl; [split; [intros _ n; apply not_elem_of_nil|done]|].
  split; [done|]. intros Hn. apply Forall_cons in Hl as [Hc _]. destruct c as [|a c]; [done|].
  exfalso. apply (Hn a). simpl. set_solver.
Qed.
End validate.

(** * Properties *)

Section properties.
  Context {N M C : Type} `{Countable N}.

(** The bounds of the walks. *)
Definition validate_fuel (g : @Graph N M C _ _) : nat :=
  let V := list_to_set (g_Nouns g) in walk_fuel (Edges g) V + size V.

(** C28: validating a graph always ends, and finds no error exactly when one
    noun of the graph has no noun depending on it, every noun is reachable
    from it, and no noun depends on itself, directly or through others; the
    root is then set.  Otherwise the error says whether the single root is
    missing, lists exactly the nouns the root does not reach, and its cycles
    hold exactly the nouns that are on a circle of dependencies. *)
Theorem validate_exact (g : @Graph N M C _ _) (fuel : nat) :
  graph_wf g → validate_fuel g ≤ fuel →
  ∃ g' e, Validate fuel g = Some (g', e) ∧ g_heap g' = g_heap g ∧ g_Nouns g' = g_Nouns g ∧
    (e = None ↔ ∃ root, single_root g root ∧ (∀ n, n ∈ g_Nouns g → reach (Edges g) root n) ∧
                  ∀ n, ¬ on_cycle g n) ∧
    (∀ root, single_root g root → g_Root g' = Some root) ∧
    (∀ v, e = Some v →
      (MissingRoot v = true ↔ ∀ root, ¬ single_root g root) ∧
      (∀ n, n ∈ ve_Unreachable v ↔ ∃ root, single_root g root ∧ n ∈ g_Nouns g ∧ ¬ reach (Edges g) root n) ∧
      (∀ n, n ∈ mjoin (Cycles v) ↔ on_cycle g n)).
Proof.
  intros Hwf Hf. unfold validate_fuel in Hf.
  destruct (check_root_spec fuel g Hwf ltac:(lia)) as (g' & missing & un & E & Hh & Hn & Hroot).
  destruct (cycles_exact g fuel Hwf ltac:(lia)) as (cs & Ec & Hne & Hcyc).
  assert (Edges g' = Edges g) as He by (unfold Edges; by rewrite Hh).
  assert (self_loops g' = self_loops g) as Hs by (unfold self_loops; by rewrite Hh, Hn).
  unfold Validate. rewrite E. simpl. rewrite He, Hn, Ec. simpl. rewrite Hs.
  set (v := {| MissingRoot := missing; ve_Unreachable := un; Cycles := cs ++ self_loops g |}).
  exists g', (if invalid v then Some v else None).
  assert ((MissingRoot v = true ↔ ∀ root, ¬ single_root g root) ∧
      (∀ n, n ∈ ve_Unreachable v ↔ ∃ root, single_root g root ∧ n ∈ g_Nouns g ∧ ¬ reach (Edges g) root n) ∧
      (∀ n, n ∈ mjoin (Cycles v) ↔ on_cycle g n)) as (Hm & Hu & Hc).
  { split_and!; [..|done]; simpl.
    - destruct Hroot as [(root & -> & Hr & _)|(-> & _ & _ & Hr)]; naive_solver.
    - intros n. destruct Hroot as [(root & -> & Hr & _ & Hl)|(-> & -> & _ & Hr)].
      + rewrite Hl. split; [by exists root|]. intros (r & Hr' & Hn'). by rewrite (single_root_unique g root r).
      + split; [by intros ?%elem_of_nil|]. intros (r & Hr' & _). by destruct (Hr r). }
  split_and!; [done|done|done| | |].
  - assert (invalid v = false ↔ MissingRoot v = false ∧ ve_Unreachable v = [] ∧ Cycles v = []) as Hinv.
    { unfold invalid. rewrite !orb_false_iff, !negb_false_iff, !bool_decide_eq_true. tauto. }
    assert (Cycles v = [] ↔ ∀ n, ¬ on_cycle g n) as Hcn.
    { transitivity (∀ n, n ∉ mjoin (Cycles v)); [by apply join_nil|]. by setoid_rewrite Hc. }
    rewrite Hcn in Hinv. transitivity (invalid v = false); [by destruct (invalid v)|]. rewrite Hinv.
    destruct Hroot as [(root & -> & Hr & _ & Hl)|(-> & _ & _ & Hr)]; [|naive_solver]. simpl.
    assert (un = [] ↔ ∀ n, n ∈ g_Nouns g → reach (Edges g) root n) as ->.
    { split.
      - intros -> n Hin. destruct (reach_dec (Edges g) (list_to_set (g_Nouns g)) root n) as [|Hx]; [..|done|].
        + intros a Ha b Hb. apply elem_of_list_to_set in Ha. apply elem_of_list_to_set. by eapply wf_closed.
        + apply elem_of_list_to_set. by apply Hr.
        + exfalso. by apply (not_elem_of_nil n), Hl.
      - intros Hall. destruct un as [|a un]; [done|]. destruct (proj1 (Hl a)) as [Ha Hx]; [set_solver|].
        by destruct Hx; apply Hall. }
    split.
    + intros (_ & Hall & Hcy). by exists root.
    + intros (r & Hr' & Hall & Hcy). by rewrite (single_root_unique g root r).
  - intros root Hr. destruct Hroot as [(r & _ & Hr' & -> & _)|(_ & _ & _ & Hr')]; [|by destruct (Hr' root)].
    by rewrite (single_root_unique g root r).
  - intros v'. destruct (invalid v); [|done]. by intros [= <-].
Qed.
End properties.

(** The graph of two nouns that depend on each other, under a root. *)
Definition circle : Graph string unit string _ _ := {|
  g_Name := g_Name (demo_graph "c"); g_heap := g_heap (demo_graph "c");
  g_Nouns := ["root"; "a"; "b"]; g_Root := None |}.

Lemma circle_wf : graph_wf circle.
Proof.
  intros n Hn. apply elem_of_cons in Hn as [->|Hn]; [|apply elem_of_cons in Hn as [->|Hn];
    [|apply list_elem_of_singleton in Hn as ->]]; eexists; (split; [vm_compute; reflexivity|]);
    intros d ->%list_elem_of_singleton; (split; [done|set_solver]).
Qed.

Lemma validate_exact_witness :
  ∃ g' v, Validate 20 circle = Some (g', Some v) ∧ g_Root g' = Some "root" ∧
    ValidateError_Error g' v = "The dependency graph is not valid:" +:+ String newline (String newline
      "* Cycle: b -> a") ∧
    ∀ n, n ∈ mjoin (Cycles v) ↔ on_cycle circle n.
Proof.
  destruct (validate_exact circle 20 circle_wf) as (g' & e & E & _ & _ & _ & _ & Hv); [vm_compute; lia|].
  destruct e as [v|]; [|vm_compute in E; discriminate E]. exists g', v. split; [exact E|].
  destruct (Hv v eq_refl) as (_ & _ & Hc).
  vm_compute in E. injection E as <- <-. split; [reflexivity|]. split; [vm_compute; reflexivity|exact Hc].
Defined.

Example circle_text : Graph_String circle =
  str_join (String newline EmptyString)
    ["root: <unknown>"; "a"; "  a -> b"; "b"; "  b -> a"; "root"; "  root -> a"; ""].
Proof. vm_compute. reflexivity. Qed.
