(* ===== verification/CookbookDeps.v ===== *)
(** Dependency resolution for a run list (src/cookbook/cookbook.go,
    src/cookbook/versioning.go, src/cookbook/deperr.go): the graph of cookbooks
    a run list needs, the versions chosen, and the errors reported. *)
From S2P Require Import Prelude Gerror Iface Config Store Objects UtilStrings Versioning.
From S2P Require Import Cookbooks Digraph Depgraph.

(** * The version library

    github.com/hashicorp/go-version, as the package uses it: versions and
    constraints are parsed or refused, a constraint checks a version, and a
    constraint prints as the text it was parsed from. *)
Class GVersion := {
  gver : Type;
  gcon : Type;
  gNewVersion : string → option gver;
  gNewConstraint : string → option (list gcon);
  gCheck : gcon → gver → bool;
  gString : gcon → string;
}.

(** What the documentation of the library says of one constraint, without a
    comma: it parses to a single constraint that prints back unchanged. *)
Class GVersionLaws `{GVersion} := {
  gNewConstraint_one c k :
    str_all (λ a, negb (bool_decide (a = ","%char))) c = true →
    gNewConstraint c = Some k → ∃ g, k = [g] ∧ gString g = c;
}.

Section deps.
  Context `{GVersion} {Sto : Type} {Ops : StoreOps Sto object} (conf : Conf).
  Implicit Types (s : Sto).

(** [versionConstraint]: nil is the empty list. *)
Definition versionConstraint : Type := list gcon.

Definition constraint_String (v : versionConstraint) : string := str_join "," (map gString v).

Record depMeta : Type := {
  dm_version : string;
  dm_constraint : versionConstraint;
  dm_notFound : bool;
  dm_noVersion : bool;
}.

Definition new_meta (c : versionConstraint) : depMeta :=
  {| dm_version := EmptyString; dm_constraint := c; dm_notFound := false; dm_noVersion := false |}.

(** A noun is referred to by its cookbook name; [None] is the root. *)
Abbreviation ref := (option string).
Abbreviation noun := (Noun ref (option depMeta) versionConstraint).
Abbreviation dependency := (Dependency ref versionConstraint).

(** What resolution works on: the nodes and the cookbooks fetched so far. *)
Record resolution : Type := {
  nodes : gmap string noun;
  cbShelf : gmap string Cookbook;
}.

Definition constraintPresent (constraints : versionConstraint) (cons : string) : bool :=
  existsb (λ c, bool_decide (gString c = cons)) constraints.

(** An unparsable constraint appends nothing. *)
Definition appendConstraint (constraints : versionConstraint) (cons : string) : versionConstraint :=
  if constraintPresent constraints cons then constraints
  else constraints ++ default [] (gNewConstraint cons).

(** ** Choosing a version *)

(** [cs.Check(v)], where [v] is nil when the version does not parse. *)
Definition check_version (cs : gcon) (ver : string) : outcome bool :=
  match gNewVersion ver with Some v => Ok (gCheck cs v) | None => Panic NilDeref end.

(** The loop labelled [Ver]: its inner loop ends at the first constraint,
    either way. *)
Fixpoint multi_loop (cs : gcon) (vs : list CookbookVersion) : outcome (option CookbookVersion) :=
  match vs with
  | [] => Ok None
  | cver :: rest =>
      check_version cs (cbv_Version cver) ≫= λ b : bool,
      if b then Ok (Some cver) else multi_loop cs rest
  end.

Definition latestMultiConstraint (c : Cookbook) (constraints : versionConstraint)
    : outcome (option CookbookVersion) :=
  match constraints with
  | [] => (λ r : CookbookVersion * Cookbook, Some r.1) <$> LatestVersion c
  | cs :: _ => multi_loop cs (sortedVersions c)
  end.

(** The constraints that some version fails. *)
Fixpoint fails_some (cs : gcon) (vs : list CookbookVersion) : outcome bool :=
  match vs with
  | [] => Ok false
  | cver :: rest =>
      check_version cs (cbv_Version cver) ≫= λ b : bool,
      if b then fails_some cs rest else Ok true
  end.

Fixpoint badConstraints (c : Cookbook) (constraints : versionConstraint) : outcome (list string) :=
  match constraints with
  | [] => Ok []
  | cs :: rest =>
      fails_some cs (sortedVersions c) ≫= λ b : bool,
      bad ← badConstraints c rest;
      Ok (if b then gString cs :: bad else bad)
  end.

(** ** Constraints of the graph *)

Inductive violation_type : Set := CookbookNotFound | CookbookNoVersion.

#[global] Instance violation_type_eq_dec : EqDecision violation_type.
Proof. solve_decision. Defined.

Record versionConstraintError : Type := {
  ViolationType : violation_type;
  ParentCookbook : string;
  ParentConstraint : string;
  ParentVersion : string;
  vce_Cookbook : string;
  vce_Constraint : string;
}.

Definition versionConstraint_Satisfied s (v : versionConstraint) (head tail : noun)
    : outcome (option versionConstraintError) :=
  match noun_Meta tail with
  | None => Panic TypeAssertion
  | Some tMeta =>
      let '(headVersion, headConstraint) :=
        match noun_Meta head with
        | Some m => (dm_version m, constraint_String (dm_constraint m))
        | None => (EmptyString, EmptyString)
        end in
      let verr t con := {|
        ViolationType := t; ParentCookbook := noun_Name head; ParentConstraint := headConstraint;
        ParentVersion := headVersion; vce_Cookbook := noun_Name tail; vce_Constraint := con |} in
      if dm_notFound tMeta then Ok (Some (verr CookbookNotFound (constraint_String v)))
      else if bool_decide (dm_version tMeta = EmptyString) then
        cb ← Get s (noun_Name tail);
        match cb with
        | Some cb => badver ← badConstraints cb v; Ok (Some (verr CookbookNoVersion (str_join "," badver)))
        | None => Ok (Some (verr CookbookNoVersion (constraint_String v)))
        end
      else Ok None
  end.

(** ** Building the graph *)

(** [checkDependency]: the position of the dependency on a cookbook. *)
Fixpoint find_dep (depName : string) (deps : list dependency) : option (nat * dependency) :=
  match deps with
  | [] => None
  | d :: r =>
      if bool_decide (depName = dep_Name d) then Some (0, d)
      else (λ p, (p.1 + 1, p.2)) <$> find_dep depName r
  end.

Definition checkDependency (node : noun) (cbName : string) : option (nat * dependency) :=
  find_dep (noun_Name node +:+ "-" +:+ cbName) (noun_Deps node).

Definition set_deps (n : noun) (ds : list dependency) : noun :=
  {| noun_Name := noun_Name n; noun_Meta := noun_Meta n; noun_Deps := ds |}.

Definition set_meta (n : noun) (m : depMeta) : noun :=
  {| noun_Name := noun_Name n; noun_Meta := Some m; noun_Deps := noun_Deps n |}.

Definition put_node (st : resolution) (k : string) (n : noun) : resolution :=
  {| nodes := <[k := n]> (nodes st); cbShelf := cbShelf st |}.

Definition put_shelf (st : resolution) (k : string) (c : Cookbook) : resolution :=
  {| nodes := nodes st; cbShelf := <[k := c]> (cbShelf st) |}.

(** [nodes[k].Meta.( *depMeta)]. *)
Definition node_meta (st : resolution) (k : string) : outcome (noun * depMeta) :=
  match nodes st !! k with
  | None => Panic NilDeref
  | Some n => match noun_Meta n with Some m => Ok (n, m) | None => Panic TypeAssertion end
  end.

Definition with_constraint (m : depMeta) (c : versionConstraint) : depMeta :=
  {| dm_version := dm_version m; dm_constraint := c; dm_notFound := dm_notFound m;
     dm_noVersion := dm_noVersion m |}.
Definition with_notFound (m : depMeta) : depMeta :=
  {| dm_version := dm_version m; dm_constraint := dm_constraint m; dm_notFound := true;
     dm_noVersion := dm_noVersion m |}.
Definition with_noVersion (m : depMeta) : depMeta :=
  {| dm_version := dm_version m; dm_constraint := dm_constraint m; dm_notFound := dm_notFound m;
     dm_noVersion := true |}.
Definition with_version (m : depMeta) (v : string) : depMeta :=
  {| dm_version := v; dm_constraint := dm_constraint m; dm_notFound := dm_notFound m;
     dm_noVersion := dm_noVersion m |}.

(** Record the dependency of [from] on [r] under the constraint [c]: replaced
    where it was, or appended.  Also says whether it was there. *)
Definition link_dep (st : resolution) (from r c : string) : outcome (resolution * bool) :=
  match nodes st !! from with
  | None => Panic NilDeref
  | Some node =>
      let dep := {| dep_Name := from +:+ "-" +:+ r;
                    dep_Constraints := [default [] (gNewConstraint c)];
                    dep_Source := Some from; dep_Target := Some r |} in
      match checkDependency node r with
      | None => Ok (put_node st from (set_deps node (noun_Deps node ++ [dep])), false)
      | Some (pos, d) =>
          let d' := {| dep_Name := dep_Name d; dep_Constraints := dep_Constraints dep;
                       dep_Source := dep_Source d; dep_Target := dep_Target d |} in
          Ok (put_node st from (set_deps node (<[pos := d']> (noun_Deps node))), true)
      end
  end.

(** One turn of the loop of [getDependencies], up to the recursive call: the
    new state, and the version to go on with, if any. *)
Definition dep_step s (cbv : CookbookVersion) (st : resolution) (r : string) (c2 : iface)
    : outcome (resolution * option CookbookVersion) :=
  let skip_it :=
    match nodes st !! r with
    | Some n => match noun_Meta n with
                | Some m => Ok (dm_noVersion m || dm_notFound m)
                | None => Panic TypeAssertion
                end
    | None => Ok false
    end in
  skip_it ≫= λ b : bool,
  if b then Ok (st, None)
  else
    c ← assert_string c2;
    let st := match nodes st !! r with
              | Some _ => st
              | None => put_node st r {| noun_Name := r; noun_Meta := Some (new_meta []); noun_Deps := [] |}
              end in
    linked ← link_dep st (cbv_CookbookName cbv) r c;
    let '(st, dt) := linked in
    nm ← node_meta st r;
    let '(n, m) := nm in
    shelf ←
      (match cbShelf st !! r with
       | Some cb => Ok (Some (cb, dt && constraintPresent (dm_constraint m) c))
       | None => o ← Get s r; Ok (match o with Some cb => Some (cb, false) | None => None end)
       end);
    match shelf with
    | None =>
        Ok (put_node st r (set_meta n
              (with_constraint (with_notFound m) (appendConstraint (dm_constraint m) c))), None)
    | Some (_, true) => Ok (st, None)
    | Some (depCb, false) =>
        let cons := appendConstraint (dm_constraint m) c in
        let m := with_constraint m cons in
        let st := put_shelf st r depCb in
        depCbv ← latestMultiConstraint depCb cons;
        match depCbv with
        | None => Ok (put_node st r (set_meta n (with_noVersion m)), None)
        | Some depCbv =>
            let n := if negb (bool_decide (dm_version m = EmptyString))
                        && negb (bool_decide (dm_version m = cbv_Version depCbv))
                     then set_deps n [] else n in
            Ok (put_node st r (set_meta n (with_version m (cbv_Version depCbv))), Some depCbv)
        end
    end.

Definition dependencies_of (cbv : CookbookVersion) : outcome jmap :=
  match mget "dependencies" (cbv_Metadata cbv) with IMap d => Ok d | _ => Panic TypeAssertion end.

(** [getDependencies]: [fuel] bounds the depth of the recursion, and running
    out of it is running out of stack. *)
Fixpoint getDependencies (fuel : nat) s (cbv : CookbookVersion) (st : resolution) : outcome resolution :=
  match fuel with
  | O => Panic StackOverflow
  | S fuel =>
      depList ← dependencies_of cbv;
      (fix loop (l : jmap) (st : resolution) : outcome resolution :=
         match l with
         | [] => Ok st
         | (r, c2) :: rest =>
             p ← dep_step s cbv st r c2;
             let '(st, next) := p in
             st ← (match next with Some depCbv => getDependencies fuel s depCbv st | None => Ok st end);
             loop rest st
         end) depList st
  end.

(** ** The run list *)

(** The cookbook of a run list item, and its version if it has one. *)
Definition run_list_cookbook (cbV : string) : string * versionConstraint :=
  let cx := str_split "@" cbV in
  let cbName := str_before "::" (hd EmptyString cx) in
  match cx with
  | [_; v] => (cbName, default [] (gNewConstraint ("= " +:+ v)))
  | _ => (cbName, [])
  end.

Definition runlist_node (k : string) (c : versionConstraint) : noun :=
  {| noun_Name := k; noun_Meta := Some (new_meta c); noun_Deps := [] |}.

Definition runlist_nodes (runList : list string) : gmap string noun :=
  foldl (λ ns item, let '(k, c) := run_list_cookbook item in <[k := runlist_node k c]> ns) ∅ runList.

(** The constraints of the environment, on the cookbooks of the run list. *)
Definition env_nodes (envConstraints : list (string * string)) (ns : gmap string noun) : gmap string noun :=
  foldl (λ ns kc,
    match ns !! kc.1 with
    | Some n =>
        match noun_Meta n with
        | Some m => <[kc.1 := set_meta n (with_constraint m (appendConstraint (dm_constraint m) kc.2))]> ns
        | None => ns
        end
    | None => ns
    end) ns envConstraints.

(** The dependencies of the root, in some order of the map of nodes. *)
Definition root_deps (ns : gmap string noun) : list dependency :=
  (λ kn, {| dep_Name := "runlist-" +:+ kn.1;
            dep_Constraints := [match noun_Meta kn.2 with Some m => dm_constraint m | None => [] end];
            dep_Source := None; dep_Target := Some kn.1 |}) <$> map_to_list ns.

Fixpoint resolve_runlist (fuel : nat) s (names : list string) (st : resolution) : outcome resolution :=
  match names with
  | [] => Ok st
  | cbName :: rest =>
      nm ← node_meta st cbName;
      let '(n, m) := nm in
      if bool_decide (is_Some (cbShelf st !! cbName)) || dm_notFound m then resolve_runlist fuel s rest st
      else
        o ← Get s cbName;
        match o with
        | None => resolve_runlist fuel s rest (put_node st cbName (set_meta n (with_notFound m)))
        | Some cb =>
            let st := put_shelf st cbName cb in
            v ← latestMultiConstraint cb (dm_constraint m);
            match v with
            | None => resolve_runlist fuel s rest (put_node st cbName (set_meta n (with_noVersion m)))
            | Some cbv =>
                st ← getDependencies fuel s cbv
                       (put_node st cbName (set_meta n (with_version m (cbv_Version cbv))));
                resolve_runlist fuel s rest st
            end
        end
  end.

Definition root_noun (deps : list dependency) : noun :=
  {| noun_Name := "^runlist_root^"; noun_Meta := None; noun_Deps := deps |}.

Definition dep_graph (st : resolution) (deps : list dependency)
    : Graph ref (option depMeta) versionConstraint _ _ :=
  {| g_Name := "runlist"; g_heap := <[None := root_noun deps]> (kmap Some (nodes st));
     g_Nouns := [None]; g_Root := Some None |}.

Definition chkDiv : list string :=
  ["definitions"; "libraries"; "attributes"; "providers"; "resources"; "templates"; "root_files"; "files"].

Definition fill_divs (json : jmap) : jmap :=
  foldl (λ j cd, match mlookup cd j with
                 | None | Some INil => mset cd (IDivs []) j
                 | Some _ => j
                 end) json chkDiv.

(** The last loop: the chosen version of every cookbook on the shelf. *)
Definition chosen_json (st : resolution) (kc : string * Cookbook) : outcome (string * jmap) :=
  nm ← node_meta st kc.1;
  v ← latestMultiConstraint kc.2 (dm_constraint nm.2);
  match v with
  | None => Err (New ("Somehow, and this shouldn't have beenable to happen at this stage, no versions of "
      +:+ cb_Name kc.2 +:+ " satisfied the constraints '" +:+ constraint_String (dm_constraint nm.2) +:+ "'!"))
  | Some cbv => j ← ToJSON conf cbv "POST"; Ok (cbv_CookbookName cbv, fill_divs j)
  end.

(** The result: the versions, or the violations of a [DependsError]. *)
Definition depends_result : Type := list (string * jmap) + list versionConstraintError.

(** The constraints of the package, as the graph sees them. *)
Definition cookbook_constraint s
    : Constraint ref (option depMeta) versionConstraint versionConstraintError :=
  versionConstraint_Satisfied s.

(** [g.CheckConstraints()], with fuel for a walk of the whole graph. *)
Definition check_graph s (g : Graph ref (option depMeta) versionConstraint _ _)
    : outcome (option (list versionConstraintError)) :=
  match @CheckConstraints _ _ _ _ _ _ (cookbook_constraint s) (walk_fuel (Edges g) (dom (g_heap g))) g with
  | Some (Ok (Some vs)) => Ok (Some (map v_Err vs))
  | Some (Ok None) => Ok None
  | Some (Err e) => Err e
  | Some (Panic p) => Panic p
  | None => Panic StackOverflow
  end.

Definition DependsCookbooks (fuel : nat) s (runList : list string) (envConstraints : list (string * string))
    : outcome depends_result :=
  let names := map (λ i, (run_list_cookbook i).1) runList in
  let ns := env_nodes envConstraints (runlist_nodes runList) in
  let deps := root_deps ns in
  st ← resolve_runlist fuel s names {| nodes := ns; cbShelf := ∅ |};
  cerr ← check_graph s (dep_graph st deps);
  match cerr with
  | Some vs => Ok (inr vs)
  | None => js ← traverse (chosen_json st) (map_to_list (cbShelf st));
            Ok (inl (foldl (λ m kv, mset kv.1 kv.2 m) [] js))
  end.
End deps.
