(* ===== verification/Deperr.v ===== *)
(** The report on dependencies that cannot be met (src/cookbook/deperr.go). *)
From S2P Require Import Prelude Gerror Iface UtilStrings CookbookDeps.

(** * Definitions *)

Definition from_runlist (v : versionConstraintError) : bool := bool_decide (ParentCookbook v = "^runlist_root^").
Definition is_missing (v : versionConstraintError) : bool := bool_decide (ViolationType v = CookbookNotFound).

(** The four kinds of violations, in the order of the list. *)
Definition unsatisfiable (vs : list versionConstraintError) : list versionConstraintError :=
  List.filter (λ v, negb (from_runlist v)) vs.
Definition notFound (vs : list versionConstraintError) : list versionConstraintError := List.filter is_missing vs.
Definition mostConstrained (vs : list versionConstraintError) : list versionConstraintError :=
  List.filter (λ v, negb (is_missing v) && negb (from_runlist v)) vs.
Definition noVersion (vs : list versionConstraintError) : list versionConstraintError :=
  List.filter (λ v, negb (is_missing v) && from_runlist v) vs.

(** Sorted, without duplicates. *)
Definition tidy (l : list string) : list string := RemoveDupStrings (sort_strings l).

(** Sorted, with the duplicates removed from the slice in place but the
    shortened slice dropped: what the whole slice then holds. *)
Definition untidy (l : list string) : list string :=
  let l := sort_strings l in backing (dup_loop (length l) 0 {| backing := l; len := length l |}).

Definition in_parens (a b : string) : string := "(" +:+ a +:+ " " +:+ b +:+ ")".

Definition notFoundStr (vs : list versionConstraintError) : list string := tidy (map vce_Cookbook (notFound vs)).

Definition noVersionStr (vs : list versionConstraintError) : list string :=
  tidy (map (λ v, in_parens (vce_Cookbook v) (vce_Constraint v)) (noVersion vs)).

Definition mostConstrainedStr (vs : list versionConstraintError) : list string :=
  tidy (map (λ v, vce_Cookbook v +:+ " " +:+ vce_Constraint v +:+ " -> [" +:+ ParentCookbook v +:+ " "
                  +:+ ParentConstraint v +:+ "]") (mostConstrained vs)).

Definition unsatisfiableStr (vs : list versionConstraintError) : list string :=
  untidy (map (λ v, in_parens (ParentCookbook v) (ParentConstraint v)) (unsatisfiable vs)).

Definition unsat_message (v : versionConstraintError) : string :=
  "Unable to satisfy constraints on package " +:+ vce_Cookbook v
  +:+ (if is_missing v then ", which does not exist," else EmptyString)
  +:+ " due to solution constraint " +:+ in_parens (ParentCookbook v) (ParentConstraint v)
  +:+ ". Solution constraints that may result in a constraint on " +:+ vce_Cookbook v +:+ ": [("
  +:+ ParentCookbook v +:+ " = " +:+ ParentVersion v +:+ ") -> " +:+ in_parens (vce_Cookbook v) (vce_Constraint v)
  +:+ "]".

Definition runlist_message (missing nover : list string) : list string :=
  match missing, nover with
  | [], [] => []
  | _, _ =>
      ["Run list contains invalid items:"
       +:+ (match missing with
            | [] => EmptyString
            | [_] => " no such cookbook " +:+ str_join ", " missing
            | _ => " no such cookbooks " +:+ str_join ", " missing
            end)
       +:+ (match nover with
            | [] => EmptyString
            | _ => " no versions match the constraints on cookbook " +:+ str_join ", " nover
            end)
       +:+ "."]
  end.

Definition lf : string := String newline EmptyString.

(** [ErrMap], for the violations of a [DependsError]. *)
Definition ErrMap (vs : list versionConstraintError) : jmap :=
  [("message", IStr (str_join lf
      (map unsat_message (unsatisfiable vs) ++ runlist_message (notFoundStr vs) (noVersionStr vs))));
   ("non_existent_cookbooks", IStrs (notFoundStr vs))]
  ++ match unsatisfiable vs with
     | [] => [("cookbooks_with_no_versions", IStrs (noVersionStr vs))]
     | _ => [("unsatisfiable_run_list_item", IStr (str_join ", " (unsatisfiableStr vs)));
             ("most_constrained_cookbooks", IStrs (mostConstrainedStr vs))]
     end.

Definition DependsError_Error (vs : list versionConstraintError) : string :=
  match mget "message" (ErrMap vs) with IStr m => m | _ => EmptyString end.

(** * Properties *)

Lemma tidy_spec l : StronglySorted String.le (tidy l) ∧ NoDup (tidy l) ∧ ∀ x, x ∈ tidy l ↔ x ∈ l.
Proof.
  unfold tidy. rewrite RemoveDupStrings_adj.
  destruct (adj_dedup_sorted (sort_strings l)) as [H1 H2]; [apply sort_strings_sorted|].
  split_and!; [done..|]. intros x. by rewrite adj_dedup_elem, sort_strings_Permutation.
Qed.

Lemma elem_of_map_filter {A} (f : A → string) (p : A → bool) l x :
  x ∈ map f (List.filter p l) ↔ ∃ v, v ∈ l ∧ p v = true ∧ f v = x.
Proof.
  rewrite list_elem_of_In, in_map_iff. setoid_rewrite filter_In. setoid_rewrite <-list_elem_of_In. naive_solver.
Qed.

(** The report names, sorted and without duplicates, exactly the cookbooks
    that were not found, and, when every violation comes from the run list,
    exactly the cookbooks with the constraints no version meets; otherwise
    exactly the dependencies of other cookbooks that no version meets. *)
Theorem depends_error_report (vs : list versionConstraintError) :
  ∃ missing, mget "non_existent_cookbooks" (ErrMap vs) = IStrs missing ∧
    StronglySorted String.le missing ∧ NoDup missing ∧
    (∀ c, c ∈ missing ↔ ∃ v, v ∈ vs ∧ ViolationType v = CookbookNotFound ∧ vce_Cookbook v = c) ∧
    (Forall (λ v, ParentCookbook v = "^runlist_root^") vs →
     ∃ nover, mget "cookbooks_with_no_versions" (ErrMap vs) = IStrs nover ∧
       StronglySorted String.le nover ∧ NoDup nover ∧
       ∀ t, t ∈ nover ↔ ∃ v, v ∈ vs ∧ ViolationType v ≠ CookbookNotFound ∧
         in_parens (vce_Cookbook v) (vce_Constraint v) = t) ∧
    (¬ Forall (λ v, ParentCookbook v = "^runlist_root^") vs →
     mget "cookbooks_with_no_versions" (ErrMap vs) = INil ∧
     ∃ most, mget "most_constrained_cookbooks" (ErrMap vs) = IStrs most ∧
       StronglySorted String.le most ∧ NoDup most ∧
       ∀ t, t ∈ most ↔ ∃ v, v ∈ vs ∧ ViolationType v ≠ CookbookNotFound ∧ ParentCookbook v ≠ "^runlist_root^" ∧
         vce_Cookbook v +:+ " " +:+ vce_Constraint v +:+ " -> [" +:+ ParentCookbook v +:+ " "
           +:+ ParentConstraint v +:+ "]" = t).
Proof.
  assert (∀ v, from_runlist v = true ↔ ParentCookbook v = "^runlist_root^") as Hr
    by (intros v; unfold from_runlist; by rewrite bool_decide_eq_true).
  assert (∀ v, is_missing v = true ↔ ViolationType v = CookbookNotFound) as Hm
    by (intros v; unfold is_missing; by rewrite bool_decide_eq_true).
  assert (Forall (λ v, ParentCookbook v = "^runlist_root^") vs ↔ unsatisfiable vs = []) as Hu.
  { unfold unsatisfiable. clear Hm. induction vs as [|v vs IH]; [done|]. rewrite Forall_cons. simpl.
    destruct (from_runlist v) eqn:E; simpl; rewrite <-Hr, E; [rewrite IH|]; naive_solver. }
  exists (notFoundStr vs). destruct (tidy_spec (map vce_Cookbook (notFound vs))) as (H1 & H2 & H3).
  fold (notFoundStr vs) in H1, H2, H3. split_and!; [done..| | |].
  - intros c. rewrite H3. unfold notFound. rewrite elem_of_map_filter. by setoid_rewrite Hm.
  - rewrite Hu. intros E. exists (noVersionStr vs). unfold ErrMap. rewrite E. split; [done|].
    destruct (tidy_spec (map (λ v, in_parens (vce_Cookbook v) (vce_Constraint v)) (noVersion vs))) as (N1 & N2 & N3).
    fold (noVersionStr vs) in N1, N2, N3. split_and!; [done..|]. intros t. rewrite N3. unfold noVersion.
    rewrite elem_of_map_filter. apply Hu in E. rewrite Forall_forall in E. split.
    + intros (v & Hv & Hp & <-). exists v. rewrite andb_true_iff, negb_true_iff, <-not_true_iff_false, Hm in Hp. naive_solver.
    + intros (v & Hv & Hp & <-). exists v. rewrite andb_true_iff, negb_true_iff, <-not_true_iff_false, Hm, Hr. naive_solver.
  - rewrite Hu. intros E. unfold ErrMap. destruct (unsatisfiable vs); [done|]. split; [done|].
    exists (mostConstrainedStr vs). split; [done|]. unfold mostConstrainedStr.
    destruct (tidy_spec (map (λ v, vce_Cookbook v +:+ " " +:+ vce_Constraint v +:+ " -> [" +:+ ParentCookbook v +:+ " "
      +:+ ParentConstraint v +:+ "]") (mostConstrained vs))) as (N1 & N2 & N3).
    split_and!; [done..|]. intros t. rewrite N3. unfold mostConstrained. rewrite elem_of_map_filter.
    setoid_rewrite andb_true_iff. setoid_rewrite negb_true_iff. setoid_rewrite <-not_true_iff_false.
    setoid_rewrite Hm. setoid_rewrite Hr. naive_solver.
Qed.

Definition demo_violation (parent cookbook : string) : versionConstraintError :=
  {| ViolationType := CookbookNotFound; ParentCookbook := parent; ParentConstraint := "= 1.0.0";
     ParentVersion := "1.0.0"; vce_Cookbook := cookbook; vce_Constraint := EmptyString |}.

(** The duplicates of the unsatisfiable run list items are removed from a
    slice that is then printed whole: the items come out shifted, and one
    that was there once is printed twice. *)
Theorem unsatisfiable_shifted :
  unsatisfiableStr [demo_violation "a" "x"; demo_violation "a" "y"; demo_violation "b" "x"] =
    ["(a = 1.0.0)"; "(b = 1.0.0)"; "(b = 1.0.0)"].
Proof. by vm_compute. Qed.
