(* ===== verification/DepsFacts.v ===== *)
(** Facts about dependency resolution: what a successful resolution of a run
    list guarantees, and where it fails to terminate or to honour a
    constraint. *)
From S2P Require Import Prelude Gerror Iface Config Store Objects UtilStrings Versioning.
From S2P Require Import Cookbooks CookbookFacts Digraph Depgraph CookbookDeps.

Section resolution.
  Context `{GVersion} {Sto : Type} {Ops : StoreOps Sto object} (conf : Conf).
  Implicit Types (s : Sto) (st : resolution) (k r : string).

(** * The invariant of the resolution *)

Record res_inv s st : Prop := {
  ri_meta k n : nodes st !! k = Some n →
    noun_Name n = k ∧ ∃ m, noun_Meta n = Some m ∧ (dm_notFound m = true → Get s k = Ok None);
  ri_deps k n dep : nodes st !! k = Some n → dep ∈ noun_Deps n →
    ∃ r, dep_Target dep = Some r ∧ is_Some (nodes st !! r);
  ri_shelf k c : cbShelf st !! k = Some c → Get s k = Ok (Some c);
}.

Definition not_found st k : Prop :=
  ∃ n m, nodes st !! k = Some n ∧ noun_Meta n = Some m ∧ dm_notFound m = true.

(** Nothing learnt is forgotten. *)
Record ext st st' : Prop := {
  ext_nodes k : is_Some (nodes st !! k) → is_Some (nodes st' !! k);
  ext_shelf k : is_Some (cbShelf st !! k) → is_Some (cbShelf st' !! k);
  ext_nf k : not_found st k → not_found st' k;
}.

#[global] Instance ext_preorder : PreOrder ext.
Proof. split; [by split|]. intros a b c [] []. split; auto. Qed.

(** Replacing the node of a known cookbook. *)
Lemma put_node_step s st k n n' m m' :
  res_inv s st → nodes st !! k = Some n → noun_Meta n = Some m →
  noun_Name n' = k → noun_Meta n' = Some m' →
  (dm_notFound m = true → dm_notFound m' = true) → (dm_notFound m' = true → Get s k = Ok None) →
  (∀ dep, dep ∈ noun_Deps n' → ∃ r, dep_Target dep = Some r ∧ is_Some (nodes st !! r)) →
  res_inv s (put_node st k n') ∧ ext st (put_node st k n').
Proof.
  intros Hi Hn Hm Hn' Hm' Hnf Hg Hd.
  assert (∀ r, is_Some (nodes st !! r) → is_Some (nodes (put_node st k n') !! r)) as Hmono.
  { intros r Hr. simpl. destruct (decide (r = k)) as [->|]; [rewrite lookup_insert_eq; eauto|].
    by rewrite lookup_insert_ne. }
  split; [split|split]; simpl.
  - intros k' n0 [[<- <-]|[_ Hl]]%lookup_insert_Some; [|by eapply ri_meta]. split; [done|]. eauto.
  - intros k' n0 dep [[<- <-]|[_ Hl]]%lookup_insert_Some Hin.
    + destruct (Hd dep Hin) as (r & ? & ?). eauto.
    + destruct (ri_deps s st Hi k' n0 dep Hl Hin) as (r & ? & ?). eauto.
  - apply Hi.
  - done.
  - done.
  - intros k' (n0 & m0 & Hl & Hm0 & Hf0). unfold not_found. simpl. destruct (decide (k' = k)) as [->|].
    + exists n', m'. rewrite lookup_insert_eq. simplify_eq. auto.
    + exists n0, m0. by rewrite lookup_insert_ne.
Qed.

(** A node for a cookbook met for the first time. *)
Lemma new_node_step s st k :
  res_inv s st → nodes st !! k = None →
  let st' := put_node st k {| noun_Name := k; noun_Meta := Some (new_meta []); noun_Deps := [] |} in
  res_inv s st' ∧ ext st st'.
Proof.
  intros Hi Hn st'.
  assert (∀ r, is_Some (nodes st !! r) → is_Some (nodes st' !! r)) as Hmono.
  { intros r Hr. simpl. destruct (decide (r = k)) as [->|]; [rewrite lookup_insert_eq; eauto|].
    by rewrite lookup_insert_ne. }
  split; [split|split]; simpl.
  - intros k' n0 [[<- <-]|[_ Hl]]%lookup_insert_Some; [|by eapply ri_meta].
    split; [done|]. by exists (new_meta []).
  - intros k' n0 dep [[<- <-]|[_ Hl]]%lookup_insert_Some Hin; [by apply not_elem_of_nil in Hin|].
    destruct (ri_deps s st Hi k' n0 dep Hl Hin) as (r & ? & ?). eauto.
  - apply Hi.
  - done.
  - done.
  - intros k' (n0 & m0 & Hl & Hm0 & Hf0). exists n0, m0. simpl.
    rewrite lookup_insert_ne; [done|]. intros ->. congruence.
Qed.

Lemma put_shelf_step s st k c :
  res_inv s st → Get s k = Ok (Some c) → res_inv s (put_shelf st k c) ∧ ext st (put_shelf st k c).
Proof.
  intros [H1 H2 H3] Hg. split; split; simpl; try done.
  - intros k' c' [[<- <-]|[_ Hl]]%lookup_insert_Some; eauto.
  - intros k' Hs. destruct (decide (k' = k)) as [->|]; [rewrite lookup_insert_eq; eauto|].
    by rewrite lookup_insert_ne.
Qed.

Lemma link_dep_step s st from r c st' dt :
  res_inv s st → is_Some (nodes st !! r) → link_dep st from r c = Ok (st', dt) →
  res_inv s st' ∧ ext st st' ∧ is_Some (nodes st' !! r) ∧ cbShelf st' = cbShelf st.
Proof.
  intros Hi Hr. unfold link_dep. destruct (nodes st !! from) as [n|] eqn:En; [|done].
  destruct (ri_meta s st Hi from n En) as (Hnm & m & Hm & Hf).
  assert (∀ ds, (∀ dep, dep ∈ ds →
      (∃ d, d ∈ noun_Deps n ∧ dep_Target dep = dep_Target d) ∨ dep_Target dep = Some r) →
    res_inv s (put_node st from (set_deps n ds)) ∧ ext st (put_node st from (set_deps n ds)) ∧
    is_Some (nodes (put_node st from (set_deps n ds)) !! r) ∧
    cbShelf (put_node st from (set_deps n ds)) = cbShelf st) as Hput.
  { intros ds Hds. destruct (put_node_step s st from n (set_deps n ds) m m) as [A B]; try done.
    - intros dep Hin. destruct (Hds dep Hin) as [(d & Hd & ->)|Ht]; [by eapply ri_deps|eauto].
    - split_and!; [done..| |done]. by apply (ext_nodes _ _ B). }
  destruct (checkDependency n r) as [[pos d]|] eqn:Ec; intros [= <- <-]; apply Hput.
  - intros dep Hin. apply list_elem_of_lookup in Hin as [i Hi'].
    apply list_lookup_insert_Some in Hi' as [(_ & <- & Hlt)|[_ Hi']].
    + simpl. assert (∀ l p, find_dep (noun_Name n +:+ "-" +:+ r) l = Some p → p.2 ∈ l) as Hfind.
      { induction l as [|x l IH]; simpl; [done|]. intros p. case_bool_decide; [intros [= <-]; set_solver|].
        intros Hp. apply fmap_Some in Hp as (q & Hq & ->). apply IH in Hq. set_solver. }
      apply Hfind in Ec. left. by exists d.
    + left. exists dep. split; [by eapply list_elem_of_lookup_2|done].
  - intros dep [Hin|Hin]%elem_of_app; [left; by exists dep|]. right. apply list_elem_of_singleton in Hin as ->. done.
Qed.
(** The part of a step after the dependency is linked. *)
Lemma node_meta_Ok st k n m :
  node_meta st k = Ok (n, m) ↔ nodes st !! k = Some n ∧ noun_Meta n = Some m.
Proof. unfold node_meta. repeat case_match; naive_solver. Qed.

Lemma dep_step_inv s cbv st r c2 st' next :
  res_inv s st → dep_step s cbv st r c2 = Ok (st', next) → res_inv s st' ∧ ext st st'.
Proof.
  intros Hi. unfold dep_step. intros Hs. apply bind_Ok in Hs as (b & _ & Hs).
  destruct b; [by simplify_eq|]. apply bind_Ok in Hs as (c & _ & Hs).
  set (st0 := match nodes st !! r with Some _ => st | None => _ end) in Hs.
  assert (res_inv s st0 ∧ ext st st0 ∧ is_Some (nodes st0 !! r)) as (Hi0 & He0 & Hr0).
  { unfold st0. destruct (nodes st !! r) eqn:E; [by rewrite E; eauto|].
    destruct (new_node_step s st r Hi E) as [A B]. split_and!; [done..|].
    simpl. rewrite lookup_insert_eq. eauto. }
  apply bind_Ok in Hs as ([st1 dt] & Hl & Hs).
  destruct (link_dep_step s st0 (cbv_CookbookName cbv) r c st1 dt Hi0 Hr0 Hl) as (Hi1 & He1 & _ & _).
  apply bind_Ok in Hs as ([n m] & Hm & Hs). apply node_meta_Ok in Hm as [Hn Hm].
  destruct (ri_meta s st1 Hi1 r n Hn) as (Hname & m' & Hm' & Hnf). rewrite Hm in Hm'. injection Hm' as <-.
  assert (ext st st1) as He by (etrans; [exact He0|exact He1]).
  apply bind_Ok in Hs as (shelf & Hsh & Hs).
  assert (∀ dep, dep ∈ noun_Deps n → ∃ r', dep_Target dep = Some r' ∧ is_Some (nodes st1 !! r')) as Hdeps.
  { intros dep. by eapply ri_deps. }
  destruct shelf as [[depCb [|]]|].
  - injection Hs as <- <-. done.
  - assert (Get s r = Ok (Some depCb)) as Hg.
    { destruct (cbShelf st1 !! r) as [cb|] eqn:Ec.
      - injection Hsh as <- _. by apply (ri_shelf s st1 Hi1).
      - apply bind_Ok in Hsh as (o & Ho & Hsh). destruct o; by simplify_eq/=. }
    destruct (put_shelf_step s st1 r depCb Hi1 Hg) as [Hi2 He2].
    apply bind_Ok in Hs as (v & _ & Hs). destruct v as [v|]; injection Hs as <- <-.
    + match goal with |- context [put_node _ _ (set_meta ?nn ?mm)] =>
        destruct (put_node_step s (put_shelf st1 r depCb) r n (set_meta nn mm) m mm)
          as [A B] end; try done.
      * simpl. by destruct (negb _ && negb _).
      * intros dep. simpl. destruct (negb _ && negb _); [by intros Hx%not_elem_of_nil|apply Hdeps].
      * split; [done|]. etrans; [exact He|]. etrans; [exact He2|exact B].
    + match goal with |- context [put_node _ _ (set_meta ?nn ?mm)] =>
        destruct (put_node_step s (put_shelf st1 r depCb) r n (set_meta nn mm) m mm)
          as [A B] end; try done.
      split; [done|]. etrans; [exact He|]. etrans; [exact He2|exact B].
  - injection Hs as <- <-.
    match goal with |- context [put_node _ _ (set_meta ?nn ?mm)] =>
      destruct (put_node_step s st1 r n (set_meta nn mm) m mm) as [A B] end; try done.
    + intros _. destruct (cbShelf st1 !! r) as [cb|]; [done|].
      apply bind_Ok in Hsh as (o & Ho & Hsh). destruct o; by simplify_eq/=.
    + split; [done|]. etrans; [exact He|exact B].
Qed.

Lemma getDependencies_inv fuel s cbv st st' :
  res_inv s st → getDependencies fuel s cbv st = Ok st' → res_inv s st' ∧ ext st st'.
Proof.
  revert cbv st st'. induction fuel as [|fuel IH]; intros cbv st st' Hi; [done|]. simpl. intros Hd.
  apply bind_Ok in Hd as (depList & _ & Hd). revert st Hi Hd.
  induction depList as [|[r c2] depList IHl]; intros st Hi Hd; [by simplify_eq|].
  apply bind_Ok in Hd as ([st1 next] & Hs & Hd).
  destruct (dep_step_inv s cbv st r c2 st1 next Hi Hs) as [Hi1 He1].
  apply bind_Ok in Hd as (st2 & Hn & Hd).
  assert (res_inv s st2 ∧ ext st1 st2) as [Hi2 He2].
  { destruct next as [depCbv|]; [by eapply IH|by simplify_eq]. }
  destruct (IHl st2 Hi2 Hd) as [Hi3 He3]. split; [done|].
  etrans; [exact He1|]. etrans; [exact He2|exact He3].
Qed.

(** After the run list, every cookbook of it is on the shelf or known to be
    missing. *)
Lemma resolve_runlist_inv fuel s names st st' :
  res_inv s st → resolve_runlist fuel s names st = Ok st' →
  res_inv s st' ∧ ext st st' ∧
  ∀ k, k ∈ names → is_Some (cbShelf st' !! k) ∨ not_found st' k.
Proof.
  revert st. induction names as [|k names IH]; intros st Hi; simpl.
  { intros [= <-]. split_and!; [done..|]. intros k Hk. by apply not_elem_of_nil in Hk. }
  intros Hd. apply bind_Ok in Hd as ([n m] & Hm & Hd). apply node_meta_Ok in Hm as [Hn Hm].
  destruct (ri_meta s st Hi k n Hn) as (Hname & m' & Hm' & Hnf). rewrite Hm in Hm'. injection Hm' as <-.
  assert (∀ dep, dep ∈ noun_Deps n → ∃ r', dep_Target dep = Some r' ∧ is_Some (nodes st !! r')) as Hdeps.
  { intros dep. by eapply ri_deps. }
  assert (∀ st1, res_inv s st1 → ext st st1 → (is_Some (cbShelf st1 !! k) ∨ not_found st1 k) →
    resolve_runlist fuel s names st1 = Ok st' →
    res_inv s st' ∧ ext st st' ∧ ∀ k', k' ∈ k :: names → is_Some (cbShelf st' !! k') ∨ not_found st' k')
    as Hgo.
  { intros st1 Hi1 He1 Hk Hr. destruct (IH st1 Hi1 Hr) as (Hi2 & He2 & Hall).
    split_and!; [done|by etrans|]. intros k' [->|Hk']%elem_of_cons; [|by apply Hall].
    destruct Hk; [left; by apply (ext_shelf _ _ He2)|right; by apply (ext_nf _ _ He2)]. }
  destruct (bool_decide (is_Some (cbShelf st !! k)) || dm_notFound m) eqn:Eb.
  { apply (Hgo st); [done..| |done]. apply orb_true_iff in Eb as [Eb|Eb].
    - left. by apply bool_decide_eq_true in Eb.
    - right. by exists n, m. }
  apply bind_Ok in Hd as (o & Ho & Hd). destruct o as [cb|].
  - destruct (put_shelf_step s st k cb Hi Ho) as [Hi1 He1].
    assert (is_Some (cbShelf (put_shelf st k cb) !! k)) as Hsh by (simpl; rewrite lookup_insert_eq; eauto).
    apply bind_Ok in Hd as (v & _ & Hd). destruct v as [cbv|].
    + apply bind_Ok in Hd as (st2 & Hg & Hd).
      destruct (put_node_step s (put_shelf st k cb) k n (set_meta n (with_version m (cbv_Version cbv))) m
        (with_version m (cbv_Version cbv))) as [A B]; try done.
      destruct (getDependencies_inv fuel s cbv _ st2 A Hg) as [Hi2 He2].
      assert (ext (put_shelf st k cb) st2) as He3 by (etrans; [exact B|exact He2]).
      apply (Hgo st2); [done|by etrans| |done]. left. by apply (ext_shelf _ _ He3).
    + destruct (put_node_step s (put_shelf st k cb) k n (set_meta n (with_noVersion m)) m
        (with_noVersion m)) as [A B]; try done.
      eapply Hgo; [exact A|by etrans| |exact Hd]. left. by apply (ext_shelf _ _ B).
  - destruct (put_node_step s st k n (set_meta n (with_notFound m)) m (with_notFound m)) as [A B]; try done.
    eapply Hgo; [exact A|exact B| |exact Hd]. right. exists (set_meta n (with_notFound m)), (with_notFound m).
    simpl. by rewrite lookup_insert_eq.
Qed.
End resolution.

(** * A successful resolution *)

Section success.
  Context `{GVersion} {Sto : Type} {Ops : StoreOps Sto object} {L : StoreLaws Sto object} (conf : Conf).
  Implicit Types (s : Sto) (st : resolution) (k : string).

(** The nodes made for the run list. *)
Definition plain_nodes (ns : gmap string (Noun (option string) (option depMeta) versionConstraint)) : Prop :=
  ∀ k n, ns !! k = Some n → noun_Name n = k ∧ noun_Deps n = [] ∧
    ∃ m, noun_Meta n = Some m ∧ dm_notFound m = false.

Lemma runlist_nodes_spec l :
  plain_nodes (runlist_nodes l) ∧
  ∀ i, i ∈ l → is_Some (runlist_nodes l !! (run_list_cookbook i).1).
Proof.
  unfold runlist_nodes. induction l as [|i l [IH1 IH2]] using rev_ind.
  { split; [intros k n; simpl; by rewrite lookup_empty|]. intros i Hi. by apply not_elem_of_nil in Hi. }
  rewrite foldl_app. simpl. destruct (run_list_cookbook i) as [k c] eqn:E. split.
  - intros k' n [[<- <-]|[_ Hl]]%lookup_insert_Some; [|by apply IH1].
    split_and!; [done..|]. by exists (new_meta c).
  - intros j Hj. destruct (decide ((run_list_cookbook j).1 = k)) as [->|Hne].
    { rewrite lookup_insert_eq. eauto. }
    rewrite lookup_insert_ne by done. apply elem_of_app in Hj as [Hj|Hj%list_elem_of_singleton]; [auto|subst j].
    by rewrite E in Hne.
Qed.

Lemma env_nodes_spec env ns :
  plain_nodes ns → plain_nodes (env_nodes env ns) ∧ ∀ k, is_Some (ns !! k) → is_Some (env_nodes env ns !! k).
Proof.
  unfold env_nodes. revert ns. induction env as [|[k ec] env IH]; intros ns Hp; [done|]. simpl.
  destruct (ns !! k) as [n|] eqn:En; [|by apply IH].
  destruct (Hp k n En) as (Hn & Hd & m & Hm & Hf). rewrite Hm.
  set (n' := set_meta n _).
  assert (plain_nodes (<[k := n']> ns)) as Hp'.
  { intros k' n0 [[<- <-]|[_ Hl]]%lookup_insert_Some; [|by apply Hp]. split_and!; [done..|]. by eexists. }
  destruct (IH _ Hp') as [H1 H2]. split; [done|]. intros k' Hk'. apply H2.
  destruct (decide (k' = k)) as [->|]; [rewrite lookup_insert_eq; eauto|by rewrite lookup_insert_ne].
Qed.

Lemma plain_inv s ns : plain_nodes ns → res_inv s {| nodes := ns; cbShelf := ∅ |}.
Proof.
  intros Hp. split; simpl.
  - intros k n Hn. destruct (Hp k n Hn) as (? & _ & m & Hm & Hf). split; [done|]. exists m.
    split; [done|]. congruence.
  - intros k n dep Hn Hd. destruct (Hp k n Hn) as (_ & E & _). rewrite E in Hd. by apply not_elem_of_nil in Hd.
  - intros k c. by rewrite lookup_empty.
Qed.

(** The graph of a resolution has no dangling pointers. *)
Lemma dep_graph_wf s st ns :
  res_inv s st → (∀ k, is_Some (ns !! k) → is_Some (nodes st !! k)) →
  heap_wf (dep_graph st (root_deps ns)).
Proof.
  intros Hi Hns n noun Hn. apply Forall_forall. intros dep Hd. simpl in *.
  assert (∀ r, is_Some (nodes st !! r) →
    is_Some (<[None := root_noun (root_deps ns)]> (kmap Some (nodes st) : gmap _ _) !! Some r)) as Hheap.
  { intros r Hr. rewrite lookup_insert_ne by done. by rewrite lookup_kmap by apply _. }
  apply lookup_insert_Some in Hn as [[<- <-]|[_ Hn]].
  - simpl in Hd. unfold root_deps in Hd. apply list_elem_of_fmap in Hd as ([k n0] & -> & Hk). simpl.
    apply Hheap, Hns. apply elem_of_map_to_list in Hk. eauto.
  - apply lookup_kmap_Some in Hn as (k & -> & Hk); [|apply _].
    destruct (ri_deps s st Hi k noun dep Hk Hd) as (r & -> & Hr). by apply Hheap.
Qed.

(** When the check passes, no cookbook of the run list is missing. *)
Lemma check_graph_nil s st ns k :
  res_inv s st → (∀ k, is_Some (ns !! k) → is_Some (nodes st !! k)) →
  check_graph s (dep_graph st (root_deps ns)) = Ok None → is_Some (ns !! k) → ¬ not_found st k.
Proof.
  intros Hi Hns Hc [n0 Hk] (n & m & Hn & Hm & Hf).
  set (g := dep_graph st (root_deps ns)) in *.
  assert (@CheckConstraints _ _ _ _ _ _ (cookbook_constraint s)
    (walk_fuel (Edges g) (dom (g_heap g))) g = Some (Ok None)) as Hcc.
  { unfold check_graph in Hc. repeat case_match; simplify_eq; done. }
  destruct (@check_constraints_nil _ _ _ _ _ _ (cookbook_constraint s) g None
    (walk_fuel (Edges g) (dom (g_heap g)))) with (n := @None string) (noun := root_noun (root_deps ns))
    (dep := {| dep_Name := "runlist-" +:+ k;
               dep_Constraints := [match noun_Meta n0 with Some m => dm_constraint m | None => [] end];
               dep_Source := None; dep_Target := Some k |} : Dependency (option string) versionConstraint)
    as (target & Ht & Hs); try done.
  - by eapply dep_graph_wf.
  - simpl. rewrite lookup_insert_eq. eauto.
  - apply rtc_refl.
  - simpl. by rewrite lookup_insert_eq.
  - simpl. unfold root_deps. apply list_elem_of_fmap. exists (k, n0). split; [done|].
    by apply elem_of_map_to_list.
  - simpl in Ht. rewrite lookup_insert_ne in Ht by done. rewrite lookup_kmap in Ht by apply _.
    rewrite Hn in Ht. injection Ht as <-.
    specialize (Hs _ (proj2 (list_elem_of_singleton _ _) eq_refl)).
    unfold Satisfied, cookbook_constraint, versionConstraint_Satisfied in Hs. rewrite Hm in Hs.
    simpl in Hs. by rewrite Hf in Hs.
Qed.

(** The version chosen is one of the cookbook's. *)
Lemma multi_loop_elem cs vs v : multi_loop cs vs = Ok (Some v) → v ∈ vs.
Proof.
  induction vs as [|w vs IH]; simpl; [done|]. intros Hm. apply bind_Ok in Hm as ([] & _ & Hm).
  - injection Hm as <-. set_solver.
  - apply elem_of_cons. right. by apply IH.
Qed.

Lemma latestMultiConstraint_elem c cons v :
  cb_latest c = None → latestMultiConstraint c cons = Ok (Some v) → v ∈ sortedVersions c.
Proof.
  intros Hl. unfold latestMultiConstraint. destruct cons as [|cs cons]; [|apply multi_loop_elem].
  intros Hv. apply fmap_Ok in Hv as ([w c'] & Hw & [= ->]). simpl in *. unfold LatestVersion in Hw.
  rewrite Hl in Hw. destruct (sortedVersions c); [done|]. injection Hw as <- _. set_solver.
Qed.

Lemma stored_no_latest s k c :
  st_inv s → cookbooks_wf s → Get s k = Ok (Some c) → cb_latest c = None.
Proof.
  intros Hi Hw Hg. apply Get_store in Hg; [|done]. apply st_get_gob in Hg; [|done..].
  injection Hg as Hg. by rewrite <-Hg.
Qed.

Lemma mset_all_keys {A} (js : list (string * A)) m k :
  (k ∈ js.*1 ∨ is_Some (mlookup k m)) → is_Some (mlookup k (foldl (λ m kv, mset kv.1 kv.2 m) m js)).
Proof.
  revert m. induction js as [|[k' a] js IH]; intros m Hk; simpl.
  { destruct Hk as [Hk|?]; [by apply not_elem_of_nil in Hk|done]. }
  apply IH. rewrite mlookup_mset. simpl in Hk. case_bool_decide as E; [right; eauto|].
  destruct Hk as [[->|Hk]%elem_of_cons|Hk]; [done|by left|by right].
Qed.

Lemma traverse_elem {A B} (f : A → outcome B) l ys x :
  traverse f l = Ok ys → x ∈ l → ∃ y, f x = Ok y ∧ y ∈ ys.
Proof.
  revert ys. induction l as [|a l IH]; intros ys Ht Hx; [by apply not_elem_of_nil in Hx|].
  simpl in Ht. apply bind_Ok in Ht as (y & Hy & Ht). apply bind_Ok in Ht as (ys' & Hys & [= <-]).
  apply elem_of_cons in Hx as [->|Hx]; [exists y; set_solver|].
  destruct (IH ys' Hys Hx) as (z & Hz & Hin). exists z. set_solver.
Qed.

(** A cookbook on the shelf is in the result under its name. *)
Lemma chosen_name s st k c r :
  st_inv s → cookbooks_wf s → Get s k = Ok (Some c) → chosen_json conf st (k, c) = Ok r → r.1 = k.
Proof.
  intros Hi Hw Hg Hc. unfold chosen_json in Hc. apply bind_Ok in Hc as (nm & _ & Hc). simpl in Hc.
  apply bind_Ok in Hc as (v & Hv & Hc). destruct v as [v|]; [|done].
  apply bind_Ok in Hc as (j & _ & [= <-]). simpl. destruct (Get_wf s k c Hw Hg) as [Hn Hwc].
  apply latestMultiConstraint_elem in Hv; [|by eapply stored_no_latest].
  apply elem_of_sortedVersions in Hv as [kv Hkv]; [|apply Hwc].
  by rewrite (wc_name c Hwc kv v Hkv).
Qed.

(** C22: when resolving a run list succeeds, every cookbook the run list names
    is stored on the server and a version of it is in the answer under its
    name; a run list with an unknown cookbook never succeeds. *)
Theorem depends_covers_run_list fuel s runList env res item :
  st_inv s → cookbooks_wf s → DependsCookbooks conf fuel s runList env = Ok (inl res) →
  item ∈ runList →
  (∃ c, Get s (run_list_cookbook item).1 = Ok (Some c)) ∧
  is_Some (mlookup (run_list_cookbook item).1 res).
Proof.
  intros Hi Hw Hd Hin. unfold DependsCookbooks in Hd.
  set (ns := env_nodes env (runlist_nodes runList)) in Hd.
  destruct (runlist_nodes_spec runList) as [Hp0 Hk0].
  destruct (env_nodes_spec env _ Hp0) as [Hp Hk]. fold ns in Hp, Hk.
  apply bind_Ok in Hd as (st & Hr & Hd).
  destruct (resolve_runlist_inv fuel s _ _ st (plain_inv s ns Hp) Hr) as (Hinv & Hext & Hnames).
  apply bind_Ok in Hd as (cerr & Hc & Hd). destruct cerr; [done|].
  apply bind_Ok in Hd as (js & Hjs & [= <-]).
  set (k := (run_list_cookbook item).1).
  assert (is_Some (ns !! k)) as Hns by (apply Hk, Hk0, Hin).
  destruct (Hnames k) as [[c Hsh]|Hnf].
  { apply list_elem_of_fmap. by exists item. }
  - pose proof (ri_shelf s st Hinv k c Hsh) as Hg. split; [by exists c|].
    apply mset_all_keys. left. destruct (traverse_elem _ _ js (k, c) Hjs) as (y & Hy & Hyin).
    { by apply elem_of_map_to_list. }
    apply list_elem_of_fmap. exists y. split; [|done]. symmetry. by eapply chosen_name.
  - exfalso. eapply (check_graph_nil s st ns k); [done|apply Hext|done..].
Qed.
End success.

(** * Where resolution goes wrong *)

Section limits.
  Context `{GVersion} {Sto : Type} {Ops : StoreOps Sto object} (conf : Conf).
  Implicit Types (s : Sto) (st : resolution).

(** Only the first constraint on a cookbook takes part in choosing its
    version: every other one is ignored. *)
Lemma only_first_constraint_counts c cs rest rest' :
  latestMultiConstraint c (cs :: rest) = latestMultiConstraint c (cs :: rest').
Proof. done. Qed.

Lemma existsb_app_default con cons :
  gNewConstraint con = None → constraintPresent cons con = false →
  appendConstraint cons con = cons.
Proof. intros Hn Hp. unfold appendConstraint. rewrite Hp, Hn. simpl. apply app_nil_r. Qed.

(** Linking from a known node replaces its list of dependencies. *)
Lemma link_dep_known st from n r c :
  nodes st !! from = Some n →
  ∃ ds dt, link_dep st from r c = Ok (put_node st from (set_deps n ds), dt).
Proof.
  intros Hn. unfold link_dep. rewrite Hn. destruct (checkDependency n r) as [[pos d]|]; eauto.
Qed.

(** A cookbook that depends on itself under a constraint the version library
    refuses is resolved forever: the constraint is never recorded, so the test
    that ends the recursion never succeeds, at any depth. *)
Theorem self_dependency_diverges fuel s st a con cbv c c' n m :
  dependencies_of cbv = Ok [(a, IStr con)] → cbv_CookbookName cbv = a →
  gNewConstraint con = None → cbShelf st !! a = Some c → LatestVersion c = Ok (cbv, c') →
  nodes st !! a = Some n → noun_Name n = a → noun_Meta n = Some m →
  dm_notFound m = false → dm_noVersion m = false → dm_constraint m = [] →
  dm_version m = cbv_Version cbv →
  getDependencies fuel s cbv st = Panic StackOverflow.
Proof.
  intros Hd Ha Hn Hsh Hl Hnode Hname Hm H1 H2 H3 H4. revert st n m Hsh Hnode Hname Hm H1 H2 H3 H4.
  induction fuel as [|fuel IH]; intros st n m Hsh Hnode Hname Hm H1 H2 H3 H4; [done|].
  cbn [getDependencies]. rewrite Hd. cbn [mbind outcome_bind].
  assert (∃ st' n' m', dep_step s cbv st a (IStr con) = Ok (st', Some cbv) ∧
    cbShelf st' !! a = Some c ∧ nodes st' !! a = Some n' ∧ noun_Name n' = a ∧ noun_Meta n' = Some m' ∧
    dm_notFound m' = false ∧ dm_noVersion m' = false ∧ dm_constraint m' = [] ∧
    dm_version m' = cbv_Version cbv) as (st' & n' & m' & -> & ? & ? & ? & ? & ? & ? & ? & ?).
  { destruct (link_dep_known st a n a con Hnode) as (ds & dt & Hlink).
    unfold dep_step. rewrite Hnode, Hm, H1, H2. simpl. rewrite Ha.
    rewrite Hlink. simpl. unfold node_meta. simpl. rewrite lookup_insert_eq. simpl.
    rewrite Hm. simpl. rewrite Hsh. simpl. rewrite H3. simpl. rewrite andb_false_r.
    rewrite existsb_app_default by done. simpl. rewrite Hl. simpl. rewrite H4.
    rewrite (bool_decide_eq_true_2 (cbv_Version cbv = cbv_Version cbv)) by done. simpl.
    rewrite andb_false_r. eexists _, _, _. split; [done|]. simpl. rewrite !lookup_insert_eq. done. }
  cbn [mbind outcome_bind]. by rewrite (IH st' n' m').
Qed.
End limits.

(** * Concrete resolutions *)

(** A small version library: dotted numbers, and one operator before them. *)
Definition demo_nums (v : string) : option (list Z) :=
  if forallb (λ w, negb (bool_decide (w = EmptyString)) && str_all is_digit w) (str_split "." v)
  then Some (ver_nums v) else None.

#[local] Instance demo_gversion : GVersion := {|
  gver := list Z;
  gcon := string * string * list Z;
  gNewVersion := demo_nums;
  gNewConstraint c :=
    match str_split " " c with
    | [op; v] => if bool_decide (op ∈ constraint_ops)
                 then (λ l, [(c, op, l)]) <$> demo_nums v else None
    | _ => (λ l, [(c, "=", l)]) <$> demo_nums c
    end;
  gCheck c v := satisfies c.1.2 v c.2;
  gString c := c.1.1;
|}.

Definition demo_cbv (name ver : string) (deps : jmap) : string * CookbookVersion :=
  (ver, {| cbv_CookbookName := name; cbv_Name := name +:+ "-" +:+ ver; cbv_Version := ver;
     cbv_ChefType := "cookbook_version"; cbv_JSONClass := "Chef::CookbookVersion";
     cbv_Definitions := []; cbv_Libraries := []; cbv_Attributes := []; cbv_Recipes := [];
     cbv_Providers := []; cbv_Resources := []; cbv_Templates := []; cbv_RootFiles := [];
     cbv_Files := []; cbv_IsFrozen := false; cbv_Metadata := [("dependencies", IMap deps)] |}).

Definition demo_cb (name : string) (vs : list (string * CookbookVersion)) : Cookbook :=
  {| cb_Name := name; cb_Versions := vs; cb_latest := None |}.

(** Two versions of "apt", and "web", which needs it. *)
Definition demo_apt : Cookbook := demo_cb "apt" [demo_cbv "apt" "1.0.0" []; demo_cbv "apt" "2.0.0" []].
Definition demo_web : Cookbook := demo_cb "web" [demo_cbv "web" "1.0.0" [("apt", IStr "< 2.0.0")]].

Definition demo_shelf : absStore object := Save (Save ∅ demo_apt) demo_web.

Lemma demo_shelf_wf : st_inv demo_shelf ∧ cookbooks_wf demo_shelf.
Proof.
  assert (st_inv (∅ : absStore object)) as H0 by (intros t k v; by rewrite lookup_empty).
  assert (cookbooks_wf (∅ : absStore object)) as H1 by (intros n o; simpl; by rewrite lookup_empty).
  assert (wf_cookbook demo_apt ∧ wf_cookbook demo_web) as [Ha Hw].
  { split; split; try (apply (bool_decide_eq_true_1 (NoDup _)); vm_compute; reflexivity);
      intros k v Hin; simpl in Hin; rewrite ?elem_of_cons in Hin;
      repeat destruct Hin as [[= -> ->]|Hin]; by try apply not_elem_of_nil in Hin. }
  assert (∀ s c, st_inv s → st_inv (Save (S := absStore object) s c)) as Hset
    by (intros s c Hs; by apply st_set_inv).
  split; [by do 2 apply Hset|]. apply Save_wf; [by apply Hset|by apply Save_wf|done].
Qed.

(** The versions in an answer. *)
Definition answer_versions (r : outcome depends_result) : option (list (string * iface)) :=
  match r with Ok (inl res) => Some (map (λ kv, (kv.1, mget "version" kv.2)) res) | _ => None end.

Lemma depends_covers_run_list_witness :
  ∃ res, DependsCookbooks default_conf 5 demo_shelf ["web"] [] = Ok (inl res) ∧
    is_Some (mlookup "web" res).
Proof.
  assert (match DependsCookbooks default_conf 5 demo_shelf ["web"] [] with
          | Ok (inl _) => true | _ => false end = true) as Hk by (vm_compute; reflexivity).
  destruct (DependsCookbooks default_conf 5 demo_shelf ["web"] []) as [[res|]| |] eqn:E; [|done..].
  exists res. split; [done|]. destruct demo_shelf_wf as [Hi Hw].
  apply (depends_covers_run_list default_conf 5 demo_shelf ["web"] [] res "web" Hi Hw E).
  by apply list_elem_of_singleton.
Defined.

(** The environment allows only versions of "apt" below 2.0.0, and yet the
    answer holds 2.0.0, without an error. *)
Example environment_constraint_ignored :
  answer_versions (DependsCookbooks default_conf 5 demo_shelf ["apt@2.0.0"] [("apt", "< 2.0.0")])
  = Some [("apt", IStr "2.0.0")].
Proof. vm_compute. reflexivity. Qed.

(** The dependency of "web" limits the version of "apt". *)
Example dependency_constraint_used :
  answer_versions (DependsCookbooks default_conf 5 demo_shelf ["web"] [])
  = Some [("web", IStr "1.0.0"); ("apt", IStr "1.0.0")] ∨
  answer_versions (DependsCookbooks default_conf 5 demo_shelf ["web"] [])
  = Some [("apt", IStr "1.0.0"); ("web", IStr "1.0.0")].
Proof. (left; vm_compute; reflexivity) || (right; vm_compute; reflexivity). Qed.
