(* ===== verification/Flatten.v ===== *)
(** Flattening objects for the search index (src/util/util.go): nested
    attributes become a flat map from joined keys to strings or lists of
    strings, and that map becomes the sorted lines "key:value" the index
    stores. *)
From S2P Require Import Prelude Gerror Iface Config UtilStrings.

(** * Definitions *)

Section flatten.
  Context (conf : Conf).

Definition key_sep : string := if DotSearch conf then "." else "_".

Definition getNKey (key subkey : string) : string :=
  if bool_decide (key = EmptyString) then subkey else key +:+ key_sep +:+ subkey.

(** Every dynamic type the sources hold here prints as [%v] does. *)
Definition stringify (source : iface) : string := fmt_v source.

Definition mergeInterfaceMapChildren (strArr : list string) (val : iface) : outcome (list string) :=
  match val with
  | IStrs l => Ok (strArr ++ l)
  | IStr s => Ok (strArr ++ [s])
  | _ => Panic TypeAssertion
  end.

(** [for j, q := range nm { merger[j] = q }] *)
Definition merge_into (merger nm : jmap) : jmap := foldl (λ m kv, mset kv.1 kv.2 m) merger nm.

(** The elements of the array kept so far, and the values of the maps in it. *)
Record merge_state : Type := { km : list string; mapMerge : list (string * list string) }.

Definition add_child (key imk : string) (imv : iface) (st : merge_state) : outcome merge_state :=
  let nk := getNKey key imk in
  l ← mergeInterfaceMapChildren (default [] (mlookup nk (mapMerge st))) imv;
  Ok {| km := km st; mapMerge := mset nk l (mapMerge st) |}.

(** An element that is a map. *)
Fixpoint merge_map_elem (key : string) (interMap : jmap) (st : merge_state) : outcome merge_state :=
  match interMap with
  | [] => Ok st
  | (imk, imv) :: r => st ← add_child key imk imv st; merge_map_elem key r st
  end.

(** One value of an element that is an array itself. *)
Fixpoint merge_slice_elem (key : string) (smMerge : jmap) (st : merge_state) : outcome merge_state :=
  match smMerge with
  | [] => Ok st
  | (smk, smv) :: r =>
      st ← (if bool_decide (smk = EmptyString)
            then l ← mergeInterfaceMapChildren (km st) smv; Ok {| km := l; mapMerge := mapMerge st |}
            else add_child key smk smv st);
      merge_slice_elem key r st
  end.

(** The longest prefix that ends before a [c], as greedy matching finds it. *)
Fixpoint before_last (c : ascii) (s : string) : option string :=
  match s with
  | EmptyString => None
  | String a r =>
      match before_last c r with
      | Some p => Some (String a p)
      | None => if bool_decide (a = c) then Some EmptyString else None
      end
  end.

(** "recipe" or "role" and, greedily, what stands in brackets after it on the
    same line. *)
Definition roleMatch (item : string) : option (string * string) :=
  let thing (t : string) :=
    (λ x, (t, x)) <$> before_last "]" (str_span (λ c, negb (bool_decide (c = newline)))
      (str_from (String.length t + 1) item)).1 in
  if String.prefix "recipe[" item then thing "recipe"
  else if String.prefix "role[" item then thing "role"
  else None.

(** The recipes or the roles named in a run list. *)
Definition run_list_things (t : string) (v : list string) : list string :=
  omap (λ w, match roleMatch w with
             | Some (t', x) => if bool_decide (t = t') then Some x else None
             | None => None
             end) v.

Definition top_level (key : string) (keys : list string) (merger : jmap) : jmap :=
  if negb (bool_decide (key = EmptyString)) && negb (UsePostgreSQL conf)
  then mset key (IStrs keys) merger else merger.

Fixpoint DeepMerge (key : string) (source : iface) {struct source} : outcome jmap :=
  match source with
  | IMap v =>
      let fix entries (l : jmap) (merger : jmap) : outcome jmap :=
        match l with
        | [] => Ok merger
        | (k, u) :: r =>
            nm ← DeepMerge (getNKey key k) u; entries r (merge_into merger nm)
        end in
      merger ← entries v [];
      Ok (top_level key (mkeys v) merger)
  | IMapStr v =>
      Ok (top_level key (mkeys v)
            (foldl (λ m kv, mset (getNKey key kv.1) (IStr kv.2) m) [] v))
  | IArr v =>
      let fix elems (l : list iface) (st : merge_state) : outcome merge_state :=
        match l with
        | [] => Ok st
        | w :: r =>
            st ← (match w with
                  | IMap _ | IMapStr _ | IMapStrs _ =>
                      interMap ← DeepMerge EmptyString w; merge_map_elem key interMap st
                  | IArr svs =>
                      let fix slice (l : list iface) (st : merge_state) : outcome merge_state :=
                        match l with
                        | [] => Ok st
                        | sv :: r =>
                            smMerge ← DeepMerge EmptyString sv;
                            st ← merge_slice_elem key smMerge st; slice r st
                        end in
                      slice svs st
                  | IStrs _ | IDivs _ => Panic TypeAssertion
                  | _ => Ok {| km := km st ++ [stringify w]; mapMerge := mapMerge st |}
                  end);
            elems r st
        end in
      st ← elems v {| km := []; mapMerge := [] |};
      Ok (mset key (IStrs (km st)) (map (λ kv, (kv.1, IStrs kv.2)) (mapMerge st)))
  | IStrs v =>
      let merger := [(key, IStrs v)] in
      if bool_decide (key = "run_list") then
        let roles := run_list_things "role" v in
        let recipes := run_list_things "recipe" v in
        let merger := match roles with [] => merger | _ => mset "role" (IStrs roles) merger end in
        Ok (match recipes with [] => merger | _ => mset "recipe" (IStrs recipes) merger end)
      else Ok merger
  | _ => Ok [(key, IStr (stringify source))]
  end.

(** [FlattenObj], for the exported fields of an object with their json tags. *)
Definition flat_key (key : string) : string :=
  if bool_decide (key ∈ ["automatic"; "normal"; "default"; "override"; "raw_data"])
  then EmptyString else key.

Fixpoint flatten_fields (fields : jmap) (expanded : jmap) : outcome jmap :=
  match fields with
  | [] => Ok expanded
  | (key, v) :: r =>
      subExpand ← DeepMerge (flat_key key) v; flatten_fields r (merge_into expanded subExpand)
  end.

Definition FlattenObj (fields : jmap) : outcome jmap := flatten_fields fields [].

Definition MapifyObject (fields : jmap) : jmap := merge_into [] fields.

(** [Indexify]. *)
Definition index_line (k v : string) : string := k +:+ ":" +:+ TrimStringMax v (IndexValTrim conf).

Definition index_lines (kv : string * iface) : outcome (list string) :=
  match kv.2 with
  | IStr v => Ok [index_line kv.1 v]
  | IStrs v => Ok (index_line kv.1 <$> RemoveDupStrings (sort_strings v))
  | _ => Panic ExplicitPanic
  end.

Fixpoint collect_lines (flattened : jmap) : outcome (list string) :=
  match flattened with
  | [] => Ok []
  | kv :: r => l ← index_lines kv; ls ← collect_lines r; Ok (l ++ ls)
  end.

Definition Indexify (flattened : jmap) : outcome (list string) :=
  ls ← collect_lines flattened; Ok (sort_strings ls).
End flatten.

(** * The loops of [DeepMerge] *)

Section loops.
  Context (conf : Conf).

Definition merge_entries (key : string) :=
  fix entries (l merger : jmap) : outcome jmap :=
    match l with
    | [] => Ok merger
    | (k, u) :: r =>
        nm ← DeepMerge conf (getNKey conf key k) u; entries r (merge_into merger nm)
    end.

Lemma DeepMerge_IMap key v :
  DeepMerge conf key (IMap v) =
  (merger ← merge_entries key v []; Ok (top_level conf key (mkeys v) merger)).
Proof. done. Qed.

Definition slice_elems (key : string) :=
  fix slice (l : list iface) (st : merge_state) : outcome merge_state :=
    match l with
    | [] => Ok st
    | sv :: r =>
        smMerge ← DeepMerge conf EmptyString sv;
        st ← merge_slice_elem conf key smMerge st; slice r st
    end.

Definition array_elem (key : string) (w : iface) (st : merge_state) : outcome merge_state :=
  match w with
  | IMap _ | IMapStr _ | IMapStrs _ =>
      interMap ← DeepMerge conf EmptyString w; merge_map_elem conf key interMap st
  | IArr svs => slice_elems key svs st
  | IStrs _ | IDivs _ => Panic TypeAssertion
  | _ => Ok {| km := km st ++ [stringify w]; mapMerge := mapMerge st |}
  end.

Definition array_elems (key : string) :=
  fix elems (l : list iface) (st : merge_state) : outcome merge_state :=
    match l with
    | [] => Ok st
    | w :: r => st ← array_elem key w st; elems r st
    end.

Lemma DeepMerge_IArr key v :
  DeepMerge conf key (IArr v) =
  (st ← array_elems key v {| km := []; mapMerge := [] |};
   Ok (mset key (IStrs (km st)) (map (λ kv, (kv.1, IStrs kv.2)) (mapMerge st)))).
Proof. done. Qed.
End loops.

(** * What flattening produces *)

(** Values as [encoding/json] decodes them. *)
Fixpoint json (i : iface) : bool :=
  match i with
  | INil | IBool _ | IStr _ | INumber _ => true
  | IArr l => forallb json l
  | IMap m => forallb (λ kv, json kv.2) m
  | _ => false
  end.

(** The fields of the indexed objects hold decoded values or typed maps and
    slices of strings. *)
Definition field_value (i : iface) : bool :=
  json i || match i with IStrs _ | IMapStr _ | IMapStrs _ => true | _ => false end.

Definition flat_value (i : iface) : bool :=
  match i with IStr _ | IStrs _ => true | _ => false end.

Definition flat_map (m : jmap) : Prop := Forall (λ kv, flat_value kv.2 = true) m.

Section indexable.
  Context (conf : Conf).

Lemma mset_flat k v m : flat_map m → flat_value v = true → flat_map (mset k v m).
Proof.
  intros Hm Hv. induction Hm as [|[k0 v0] m Hv0 Hm IH]; simpl.
  - by repeat constructor.
  - case_bool_decide; by constructor.
Qed.

Lemma merge_into_flat m nm : flat_map m → flat_map nm → flat_map (merge_into m nm).
Proof.
  intros Hm Hn. revert m Hm. induction Hn as [|[k v] nm Hv Hn IH]; intros m Hm; simpl; [done|].
  apply IH. by apply mset_flat.
Qed.

Lemma top_level_flat key ks m : flat_map m → flat_map (top_level conf key ks m).
Proof. unfold top_level. case_match; [|done]. intros. by apply mset_flat. Qed.

Lemma flat_children l v : flat_value v = true → ∃ l', mergeInterfaceMapChildren l v = Ok l'.
Proof. destruct v; try done; eexists; done. Qed.

Lemma add_child_ok key k v st : flat_value v = true → ∃ st', add_child conf key k v st = Ok st'.
Proof.
  intros Hv. unfold add_child.
  destruct (flat_children (default [] (mlookup (getNKey conf key k) (mapMerge st))) v Hv) as [l ->].
  eexists. done.
Qed.

Lemma merge_map_elem_ok key m st : flat_map m → ∃ st', merge_map_elem conf key m st = Ok st'.
Proof.
  intros Hm. revert st. induction Hm as [|[k v] m Hv Hm IH]; intros st; simpl; [eauto|].
  destruct (add_child_ok key k v st Hv) as [st1 ->]. apply IH.
Qed.

Lemma merge_slice_elem_ok key m st : flat_map m → ∃ st', merge_slice_elem conf key m st = Ok st'.
Proof.
  intros Hm. revert st. induction Hm as [|[k v] m Hv Hm IH]; intros st; simpl; [eauto|].
  case_bool_decide.
  - destruct (flat_children (km st) v Hv) as [l ->]. apply IH.
  - destruct (add_child_ok key k v st Hv) as [st1 ->]. apply IH.
Qed.

(** Flattening yields strings and lists of strings only, without a panic. *)
Definition merges (i : iface) : Prop := ∀ key, ∃ m, DeepMerge conf key i = Ok m ∧ flat_map m.

Lemma merge_entries_ok key l m :
  Forall (λ kv, merges kv.2) l → flat_map m →
  ∃ m', merge_entries conf key l m = Ok m' ∧ flat_map m'.
Proof.
  intros Hl. revert m. induction Hl as [|[k u] l Hu Hl IH]; intros m Hm; simpl; [eauto|].
  simpl in Hu. destruct (Hu (getNKey conf key k)) as (nm & -> & Hnm). apply IH. by apply merge_into_flat.
Qed.

Lemma slice_elems_ok key l st : Forall merges l → ∃ st', slice_elems conf key l st = Ok st'.
Proof.
  intros Hl. revert st. induction Hl as [|u l Hu Hl IH]; intros st; simpl; [eauto|].
  destruct (Hu EmptyString) as (nm & -> & Hnm). simpl.
  destruct (merge_slice_elem_ok key nm st Hnm) as [st' ->]. apply IH.
Qed.

Definition inner_merges (i : iface) : Prop :=
  match i with IArr l => Forall merges l | _ => True end.

Lemma array_elem_ok key w st :
  json w = true → merges w → inner_merges w → ∃ st', array_elem conf key w st = Ok st'.
Proof.
  intros Hj Hm Hi.
  assert (∃ st', (m ← DeepMerge conf EmptyString w; merge_map_elem conf key m st) = Ok st') as Hmap.
  { destruct (Hm EmptyString) as (m & -> & Hf). by apply merge_map_elem_ok. }
  destruct w; try done; simpl; try (by eexists). by apply slice_elems_ok.
Qed.

Lemma array_elems_ok key l st :
  Forall (λ w, json w = true ∧ merges w ∧ inner_merges w) l →
  ∃ st', array_elems conf key l st = Ok st'.
Proof.
  intros Hl. revert st. induction Hl as [|w l (Hj & Hm & Hi) Hl IH]; intros st; simpl; [eauto|].
  destruct (array_elem_ok key w st Hj Hm Hi) as [st1 ->]. apply IH.
Qed.

Lemma json_merges i : json i = true → merges i ∧ inner_merges i.
Proof.
  induction i as [| | | | |l IH|m IH| | |] using iface_nested_ind; intros Hj; try done;
    try (split; [|done]; intros key; eexists; split; [done|by repeat constructor]).
  - simpl in Hj. apply Is_true_true, forallb_True in Hj.
    assert (Forall (λ w, json w = true ∧ merges w ∧ inner_merges w) l) as Hl.
    { rewrite Forall_forall in *. intros w Hw. specialize (Hj w Hw). apply Is_true_true in Hj.
      destruct (IH w Hw Hj). done. }
    split; [|by eapply Forall_impl; [exact Hl|intros ? (_ & ? & _)]].
    intros key. rewrite DeepMerge_IArr.
    destruct (array_elems_ok key l {| km := []; mapMerge := [] |} Hl) as [st ->].
    eexists. split; [done|]. apply mset_flat; [|done]. apply Forall_forall. intros kv Hkv.
    apply list_elem_of_fmap in Hkv as (? & -> & _). done.
  - split; [|done]. intros key. rewrite DeepMerge_IMap. simpl in Hj. apply Is_true_true, forallb_True in Hj.
    destruct (merge_entries_ok key m []) as (m' & -> & Hm'); [|by constructor|].
    + rewrite Forall_forall in *. intros kv Hkv. specialize (Hj kv Hkv). apply Is_true_true in Hj.
      by apply IH.
    + eexists. split; [done|]. by apply top_level_flat.
Qed.

Lemma field_merges i : field_value i = true → merges i.
Proof.
  intros Hf. apply orb_true_iff in Hf as [Hf|Hf]; [by apply json_merges|].
  destruct i as [| | | |l| | |m|m|]; try done; intros key; simpl.
  - case_bool_decide.
    + eexists. split; [done|]. repeat case_match; repeat apply mset_flat; try done; by repeat constructor.
    + eexists. split; [done|]. by repeat constructor.
  - eexists. split; [done|]. apply top_level_flat.
    assert (∀ acc, flat_map acc →
      flat_map (foldl (λ m kv, mset (getNKey conf key kv.1) (IStr kv.2) m) acc m)) as Hfold.
    { clear. induction m as [|[k s] m IH]; intros acc Hacc; simpl; [done|]. apply IH. by apply mset_flat. }
    apply Hfold. constructor.
  - eexists. split; [done|]. by repeat constructor.
Qed.

Lemma flatten_fields_ok fields m :
  Forall (λ kv, field_value kv.2 = true) fields → flat_map m →
  ∃ m', flatten_fields conf fields m = Ok m' ∧ flat_map m'.
Proof.
  intros Hf. revert m. induction Hf as [|[k v] fields Hv Hf IH]; intros m Hm; simpl; [eauto|].
  destruct (field_merges v Hv (flat_key k)) as (nm & -> & Hnm). apply IH. by apply merge_into_flat.
Qed.

(** * Index lines *)

(** The strings a flat value stands for. *)
Definition flat_strings (i : iface) : list string :=
  match i with IStr s => [s] | IStrs l => l | _ => [] end.

Lemma elem_of_RemoveDup x l : x ∈ RemoveDupStrings (sort_strings l) ↔ x ∈ l.
Proof. rewrite RemoveDupStrings_adj, adj_dedup_elem. apply elem_of_sort_strings. Qed.

Lemma collect_lines_ok m :
  flat_map m → ∃ ls, collect_lines conf m = Ok ls ∧
    ∀ line, line ∈ ls ↔ ∃ k v w, (k, v) ∈ m ∧ w ∈ flat_strings v ∧ line = index_line conf k w.
Proof.
  induction 1 as [|[k v] m Hv Hm (ls & IH1 & IH2)]; simpl.
  { exists []. split; [done|]. set_solver. }
  assert (∃ l, index_lines conf (k, v) = Ok l ∧
    ∀ line, line ∈ l ↔ ∃ w, w ∈ flat_strings v ∧ line = index_line conf k w) as (l & Hl & Hin).
  { destruct v; try done; (eexists; split; [done|]); intros line; simpl.
    - rewrite list_elem_of_singleton. set_solver.
    - rewrite list_elem_of_fmap. setoid_rewrite elem_of_RemoveDup. naive_solver. }
  rewrite Hl, IH1. exists (l ++ ls). split; [done|]. intros line. rewrite elem_of_app, Hin, IH2.
  setoid_rewrite elem_of_cons. naive_solver.
Qed.

Lemma collect_lines_perm m m' ls :
  m ≡ₚ m' → collect_lines conf m = Ok ls → ∃ ls', collect_lines conf m' = Ok ls' ∧ ls ≡ₚ ls'.
Proof.
  intros Hp. revert ls. induction Hp as [|kv m m' Hp IH|kv kv' m|m1 m2 m3 H1 IH1 H2 IH2]; intros ls Hls.
  - eauto.
  - simpl in *. apply bind_Ok in Hls as (l & -> & Hls). apply bind_Ok in Hls as (r & Hr & [= <-]).
    destruct (IH r Hr) as (r' & -> & Hrr). eexists. split; [done|]. by rewrite Hrr.
  - simpl in *. apply bind_Ok in Hls as (l & -> & Hls). apply bind_Ok in Hls as (r & Hr & [= <-]).
    apply bind_Ok in Hr as (l' & -> & Hr). apply bind_Ok in Hr as (r' & -> & [= <-]).
    eexists. split; [done|]. rewrite !app_assoc. by rewrite (Permutation_app_comm l l').
  - destruct (IH1 ls Hls) as (l2 & Hl2 & Hp2). destruct (IH2 l2 Hl2) as (l3 & Hl3 & Hp3).
    exists l3. split; [done|]. by etrans.
Qed.
End indexable.

(** * Attributes and their joined keys *)

Definition scalar (i : iface) : bool :=
  match i with INil | IBool _ | IStr _ | INumber _ => true | _ => false end.

(** Attributes: maps with non-empty keys, scalars and arrays of scalars. *)
Fixpoint attributes (i : iface) : bool :=
  match i with
  | IMap m => forallb (λ kv, negb (bool_decide (kv.1 = EmptyString)) && attributes kv.2) m
  | IArr l => forallb scalar l
  | _ => scalar i
  end.

(** The value at a path of map keys. *)
Inductive at_path : iface → list string → iface → Prop :=
| at_here i : at_path i [] i
| at_key m k u p w : (k, u) ∈ m → at_path u p w → at_path (IMap m) (k :: p) w.

(** What is indexed for it: the keys of a map, the elements of an array, the
    text of a scalar. *)
Definition flat_of (u : iface) : iface :=
  match u with
  | IMap m => IStrs (mkeys m)
  | IArr l => IStrs (map stringify l)
  | _ => IStr (stringify u)
  end.

Section paths.
  Context (conf : Conf).

Lemma mset_elem {A} (k k' : string) (v v' : A) m :
  (k', v') ∈ mset k v m → (k', v') = (k, v) ∨ (k', v') ∈ m.
Proof.
  induction m as [|[k0 v0] m IH]; simpl; [set_solver|]. case_bool_decide; set_solver.
Qed.

Lemma elem_of_merge_into k v m nm : (k, v) ∈ merge_into m nm → (k, v) ∈ m ∨ (k, v) ∈ nm.
Proof.
  unfold merge_into. revert m. induction nm as [|[k0 v0] nm IH]; intros m; simpl; [by left|].
  intros [H|H]%IH; [|set_solver]. apply mset_elem in H as [H|H]; [|by left]. right. rewrite H. set_solver.
Qed.

Lemma mkeys_merge_into m nm k : k ∈ mkeys (merge_into m nm) ↔ k ∈ mkeys m ∨ k ∈ mkeys nm.
Proof.
  unfold merge_into. revert m. induction nm as [|[k0 v0] nm IH]; intros m; simpl; [set_solver|].
  rewrite IH, mkeys_mset. simpl. set_solver.
Qed.

Lemma merge_into_wf m nm : wf_map m → wf_map (merge_into m nm).
Proof. revert m. induction nm as [|[k v] nm IH]; intros m Hm; simpl; [done|]. apply IH. by apply mset_wf. Qed.

Lemma merge_entries_wf key l m m' : wf_map m → merge_entries conf key l m = Ok m' → wf_map m'.
Proof.
  revert m. induction l as [|[k u] l IH]; intros m Hm; simpl; [by intros [= <-]|].
  intros Hl. apply bind_Ok in Hl as (nm & _ & Hl). eapply IH, Hl. by apply merge_into_wf.
Qed.

Definition join_path (key : string) (p : list string) : string := foldl (getNKey conf) key p.

Lemma join_path_join k p :
  k ≠ EmptyString → join_path k p = str_join (key_sep conf) (k :: p).
Proof.
  revert k. induction p as [|k' p IH]; intros k Hk; [done|].
  change (join_path k (k' :: p)) with (join_path (getNKey conf k k') p).
  unfold getNKey. rewrite bool_decide_false by done. rewrite IH.
  - destruct p; simpl; rewrite ?str_app_assoc; done.
  - by destruct k.
Qed.

(** The flat map of a value under a key: entries stand for paths, and every
    path has an entry. *)
Definition flattens (key : string) (i : iface) (m : jmap) (P : list string → Prop) : Prop :=
  (∀ k v, (k, v) ∈ m → ∃ p u, P p ∧ at_path i p u ∧ k = join_path key p ∧ v = flat_of u) ∧
  (∀ p u, P p → at_path i p u → join_path key p ∈ mkeys m).

Lemma merge_entries_flattens key l m0 m :
  merge_entries conf key l m0 = Ok m →
  (∀ k u nm, (k, u) ∈ l → DeepMerge conf (getNKey conf key k) u = Ok nm →
    flattens (getNKey conf key k) u nm (λ _, True)) →
  (∀ k v, (k, v) ∈ m → (k, v) ∈ m0 ∨
    ∃ k' u' p u, (k', u') ∈ l ∧ at_path u' p u ∧ k = join_path (getNKey conf key k') p ∧ v = flat_of u) ∧
  (∀ k, k ∈ mkeys m0 → k ∈ mkeys m) ∧
  (∀ k' u' p u, (k', u') ∈ l → at_path u' p u → join_path (getNKey conf key k') p ∈ mkeys m).
Proof.
  revert m0. induction l as [|[k u] l IH]; intros m0 Hm Hl.
  { simpl in Hm. injection Hm as <-. split_and!; [by left|done|set_solver]. }
  simpl in Hm. apply bind_Ok in Hm as (nm & Hnm & Hm).
  destruct (Hl k u nm ltac:(set_solver) Hnm) as [Hs Hc].
  destruct (IH _ Hm) as (H1 & H2 & H3). { intros; eapply Hl; [|done]. set_solver. }
  split_and!.
  - intros k' v Hin. destruct (H1 k' v Hin) as [Hin'|(k1 & u1 & p & u' & ? & ? & ? & ?)].
    + apply elem_of_merge_into in Hin' as [?|Hin']; [by left|]. right.
      destruct (Hs k' v Hin') as (p & u' & _ & ? & -> & ->). exists k, u, p, u'. set_solver.
    + right. exists k1, u1, p, u'. set_solver.
  - intros k' Hk'. apply H2, mkeys_merge_into. by left.
  - intros k' u' p w [[= -> ->]|Hin]%elem_of_cons Hp; [|by eapply H3].
    apply H2, mkeys_merge_into. right. by eapply Hc.
Qed.

Lemma top_level_key key ks m :
  UsePostgreSQL conf = false → key ≠ EmptyString → top_level conf key ks m = mset key (IStrs ks) m.
Proof. intros Hp Hk. unfold top_level. by rewrite Hp, bool_decide_false. Qed.

Lemma getNKey_nonempty key k : k ≠ EmptyString → getNKey conf key k ≠ EmptyString.
Proof. unfold getNKey. case_bool_decide; [done|]. by destruct key. Qed.

Lemma scalar_elems key l st :
  forallb scalar l = true →
  array_elems conf key l st = Ok {| km := km st ++ map stringify l; mapMerge := mapMerge st |}.
Proof.
  revert st. induction l as [|w l IH]; intros st Hl; simpl; [rewrite app_nil_r; by destruct st|].
  simpl in Hl. apply andb_true_iff in Hl as [Hw Hl].
  assert (array_elem conf key w st = Ok {| km := km st ++ [stringify w]; mapMerge := mapMerge st |})
    as -> by (by destruct w).
  simpl. rewrite IH by done. simpl. by rewrite <-app_assoc.
Qed.

Lemma flattens_leaf key u :
  (∀ p w, at_path u p w → p = [] ∧ w = u) → flattens key u [(key, flat_of u)] (λ _, True).
Proof.
  intros Hu. split.
  - intros k v [= -> ->]%list_elem_of_singleton. exists [], u. split_and!; [done|constructor|done..].
  - intros p w _ [-> _]%Hu. set_solver.
Qed.

Lemma attributes_json i : attributes i = true → json i = true.
Proof.
  induction i as [| | | | |l _|es IH| | |] using iface_nested_ind; intros Ha; try done; simpl in *.
  - apply forallb_forall. intros w Hw. apply forallb_forall with (x := w) in Ha; [|done]. by destruct w.
  - apply Is_true_true, forallb_True. apply Is_true_true, forallb_True in Ha.
    rewrite Forall_forall in *. intros kv Hkv. specialize (Ha kv Hkv).
    apply Is_true_true, andb_true_iff in Ha as [_ Ha]. apply Is_true_true. by apply IH.
Qed.

Lemma merge_entries_total key l m :
  (∀ k u, (k, u) ∈ l → attributes u = true) → ∃ m', merge_entries conf key l m = Ok m'.
Proof.
  revert m. induction l as [|[k u] l IH]; intros m Hl; simpl; [eauto|].
  destruct (json_merges conf u) as [Hm _].
  { apply attributes_json, (Hl k u). set_solver. }
  destruct (Hm (getNKey conf key k)) as (nm & -> & _). apply IH. intros k' u' Hin. apply (Hl k' u'). set_solver.
Qed.

Lemma DeepMerge_flattens i key m :
  UsePostgreSQL conf = false → attributes i = true → key ≠ EmptyString →
  DeepMerge conf key i = Ok m → flattens key i m (λ _, True).
Proof.
  intros Hpg. revert key m.
  induction i as [| | | | |l _|es IH| | |] using iface_nested_ind; intros key fm Ha Hk; try done;
    try (intros [= <-]; apply flattens_leaf; intros p w Hp; by inversion Hp).
  - rewrite DeepMerge_IArr. simpl in Ha. rewrite scalar_elems by done. intros [= <-].
    apply flattens_leaf. intros p w Hp. by inversion Hp.
  - rewrite DeepMerge_IMap. intros Hm. apply bind_Ok in Hm as (m0 & Hm0 & [= <-]).
    rewrite top_level_key by done. simpl in Ha. apply Is_true_true, forallb_True in Ha.
    rewrite Forall_forall in Ha, IH.
    destruct (merge_entries_flattens key es [] m0 Hm0) as (H1 & _ & H3).
    { intros k u nm Hin Hnm. specialize (Ha _ Hin). apply Is_true_true in Ha. simpl in Ha.
      apply andb_true_iff in Ha as [Hk' Hu]. apply negb_true_iff, bool_decide_eq_false in Hk'.
      apply (IH _ Hin); [done|by apply getNKey_nonempty|done]. }
    split.
    + intros k v Hin. apply mset_elem in Hin as [[= -> ->]|Hin].
      * exists [], (IMap es). split_and!; [done|constructor|done..].
      * destruct (H1 k v Hin) as [Hn|(k' & u' & p & u & Hin' & Hp & -> & ->)]; [by apply not_elem_of_nil in Hn|].
        exists (k' :: p), u. split_and!; [done| |done..]. by econstructor.
    + intros p u _ Hp. apply mkeys_mset. inversion Hp as [|? k u' p' w Hin Hp']; subst; [by left|].
      right. by eapply H3.
Qed.
End paths.

(** * Search keys for the ltree type *)

Section search_keys.
  Context (conf : Conf).
  (** Whether a rune outside ASCII is a letter or a number of Unicode. *)
  Context (uniLN : string → bool).

(** [[\pL\pN_\.]], with extra characters allowed. *)
Definition key_rune (extra : string) (u : string) : bool :=
  match u with
  | String c EmptyString => is_alnum c || str_mem c ("_." +:+ extra)
  | _ => uniLN u
  end.

(** [ReplaceAllString] of two or more of a character by one. *)
Fixpoint collapse (c : ascii) (s : string) : string :=
  match s with
  | EmptyString => EmptyString
  | String a r =>
      let r' := collapse c r in
      match r' with
      | String b _ => if bool_decide (a = c) && bool_decide (b = c) then r' else String a r'
      | EmptyString => String a r'
      end
  end.

Definition pgKeyReplace (key extra : string) : string :=
  let k := str_join EmptyString ((λ u, if key_rune extra u then u else "_") <$> runes key) in
  let k := collapse "." (collapse "_" k) in
  let k := str_trim "." (str_trim "_" k) in
  if ConvertSearch conf then collapse "." (str_replace "_" "." k) else k.

Definition PgSearchKey (key : string) : string := pgKeyReplace key EmptyString.

Definition PgSearchQueryKey (key : string) : string := pgKeyReplace key "*?".

(** No two of a character in a row. *)
Fixpoint no_repeat (c : ascii) (s : string) : bool :=
  match s with
  | String a (String b _ as r) => negb (bool_decide (a = c) && bool_decide (b = c)) && no_repeat c r
  | _ => true
  end.

Lemma no_repeat_cons c a s : no_repeat c (String a s) = true → no_repeat c s = true.
Proof. simpl. destruct s; [done|]. by intros [_ ?]%andb_true_iff. Qed.

Lemma collapse_no_repeat c s : no_repeat c (collapse c s) = true.
Proof.
  induction s as [|a s IH]; simpl; [done|]. destruct (collapse c s) as [|b r] eqn:E; [done|].
  destruct (bool_decide (a = c) && bool_decide (b = c)) eqn:Eb; [done|]. simpl in *. by rewrite Eb.
Qed.

Lemma collapse_head c a s : ∃ r, collapse c (String a s) = String a r.
Proof.
  simpl. destruct (collapse c s) as [|b r]; [eauto|].
  destruct (bool_decide (a = c) && bool_decide (b = c)) eqn:E; [|eauto].
  apply andb_true_iff in E as [E1 E2]. apply bool_decide_eq_true in E1, E2. subst. eauto.
Qed.

Lemma collapse_other c d s : c ≠ d → no_repeat d s = true → no_repeat d (collapse c s) = true.
Proof.
  intros Hcd. induction s as [|a s IH]; intros Hs; [done|].
  specialize (IH (no_repeat_cons _ _ _ Hs)). destruct s as [|a' s]; [done|].
  destruct (collapse_head c a' s) as [r Hr]. rewrite Hr in IH.
  remember (String a' s) as s' eqn:Es. simpl. rewrite Hr. subst s'.
  destruct (bool_decide (a = c) && bool_decide (a' = c)); [done|].
  simpl in Hs. apply andb_true_iff in Hs as [Hs _]. simpl in *. by rewrite Hs, IH.
Qed.

Lemma drop_while_no_repeat c p s : no_repeat c s = true → no_repeat c (str_drop_while p s) = true.
Proof.
  induction s as [|a s IH]; intros Hs; [done|]. simpl. destruct (p a); [|done].
  apply IH. by eapply no_repeat_cons.
Qed.

Definition starts (c : ascii) (s : string) : bool :=
  match s with String a _ => bool_decide (a = c) | EmptyString => false end.

Lemma no_repeat_starts c a s :
  no_repeat c (String a s) = negb (bool_decide (a = c) && starts c s) && no_repeat c s.
Proof. destruct s; simpl; [by rewrite andb_false_r|done]. Qed.

Lemma rev_app_no_repeat c s t :
  no_repeat c s = true → no_repeat c t = true → starts c s && starts c t = false →
  no_repeat c (String.rev_app s t) = true.
Proof.
  revert t. induction s as [|a s IH]; intros t Hs Ht Hst; simpl; [done|].
  rewrite no_repeat_starts in Hs. apply andb_true_iff in Hs as [Ha Hs]. simpl in Hst.
  apply IH; [done| |].
  - rewrite no_repeat_starts, Ht. by rewrite Hst.
  - simpl. apply negb_true_iff in Ha. by rewrite andb_comm.
Qed.

Lemma trim_no_repeat c cut s : no_repeat c s = true → no_repeat c (str_trim cut s) = true.
Proof.
  assert (∀ t, no_repeat c t = true → no_repeat c (String.rev t) = true) as Hrev.
  { intros t Ht. apply rev_app_no_repeat; [done..|]. apply andb_false_r. }
  intros Hs. unfold str_trim. by apply Hrev, drop_while_no_repeat, Hrev, drop_while_no_repeat.
Qed.

Lemma replace_none old new s :
  str_all (λ c, negb (bool_decide (c = old))) new = true →
  str_all (λ c, negb (bool_decide (c = old))) (str_replace old new s) = true.
Proof.
  intros Hn. induction s as [|a s IH]; simpl; [done|]. rewrite str_all_app, IH, andb_true_r.
  case_bool_decide as E; [done|]. simpl. by rewrite bool_decide_false.
Qed.

Lemma collapse_all p c s : str_all p s = true → str_all p (collapse c s) = true.
Proof.
  induction s as [|a s IH]; simpl; [done|]. intros [Ha Hs]%andb_true_iff. specialize (IH Hs).
  destruct (collapse c s) as [|b r]; [by simpl; rewrite Ha|].
  destruct (bool_decide (a = c) && bool_decide (b = c)); [done|]. simpl in *. by rewrite Ha.
Qed.

Lemma no_char_no_repeat c s :
  str_all (λ a, negb (bool_decide (a = c))) s = true → no_repeat c s = true.
Proof.
  induction s as [|a s IH]; [done|]. intros Hs. rewrite no_repeat_starts.
  change (negb (bool_decide (a = c)) && str_all (λ a, negb (bool_decide (a = c))) s = true) in Hs.
  apply andb_true_iff in Hs as [Ha Hs]. apply negb_true_iff in Ha. by rewrite Ha, IH.
Qed.
End search_keys.

(** * Properties *)

Section properties.
  Context (conf : Conf).

(** Attributes without empty keys whose arrays hold scalars only, without
    PostgreSQL, are flattened to one entry per joined path: every
    entry stands for a value at a path of the attributes and holds its text,
    its elements or its keys, every path has an entry, and a value whose joined
    name no other path shares is found under that name. *)
Theorem plain_attributes (es : jmap) :
  UsePostgreSQL conf = false → attributes (IMap es) = true →
  ∃ fl, DeepMerge conf EmptyString (IMap es) = Ok fl ∧ wf_map fl ∧
  (∀ k v, mlookup k fl = Some v →
    ∃ p u, p ≠ [] ∧ at_path (IMap es) p u ∧ k = str_join (key_sep conf) p ∧ v = flat_of u) ∧
  (∀ p u, p ≠ [] → at_path (IMap es) p u → is_Some (mlookup (str_join (key_sep conf) p) fl)) ∧
  (∀ p u, p ≠ [] → at_path (IMap es) p u →
    (∀ p' u', p' ≠ [] → at_path (IMap es) p' u' →
      str_join (key_sep conf) p' = str_join (key_sep conf) p → u' = u) →
    mlookup (str_join (key_sep conf) p) fl = Some (flat_of u)).
Proof.
  intros Hpg Ha. pose proof Ha as Ha'. simpl in Ha'. apply Is_true_true, forallb_True in Ha'.
  rewrite Forall_forall in Ha'.
  assert (∀ k u, (k, u) ∈ es → k ≠ EmptyString ∧ attributes u = true) as Hes.
  { intros k u Hin. specialize (Ha' _ Hin). apply Is_true_true, andb_true_iff in Ha' as [Hk Hu].
    by apply negb_true_iff, bool_decide_eq_false in Hk. }
  destruct (merge_entries_total conf EmptyString es []) as [fl Hfl].
  { intros k u Hin. by apply Hes in Hin as [_ ?]. }
  destruct (merge_entries_flattens conf EmptyString es [] fl Hfl) as (H1 & _ & H3).
  { intros k u nm Hin Hnm. apply Hes in Hin as [??]. by eapply DeepMerge_flattens. }
  assert (wf_map fl) as Hwf by (eapply merge_entries_wf, Hfl; constructor).
  assert (∀ k v, mlookup k fl = Some v → ∃ p u, p ≠ [] ∧ at_path (IMap es) p u ∧
    k = str_join (key_sep conf) p ∧ v = flat_of u) as Hsound.
  { intros k v Hl. apply mlookup_Some in Hl; [|done].
    destruct (H1 k v Hl) as [Hn|(k' & u' & p & u & Hin & Hp & -> & ->)]; [by apply not_elem_of_nil in Hn|].
    exists (k' :: p), u. split_and!; [done|by econstructor| |done].
    apply join_path_join. by apply Hes in Hin as [? _]. }
  assert (∀ p u, p ≠ [] → at_path (IMap es) p u → is_Some (mlookup (str_join (key_sep conf) p) fl)) as Hcomp.
  { intros p u Hne Hp. inversion Hp as [|? k u' p' w Hin Hp']; subst; [done|].
    destruct (mlookup (str_join (key_sep conf) (k :: p')) fl) eqn:E; [by eauto|].
    apply mlookup_None in E. destruct E. rewrite <-join_path_join by (by apply Hes in Hin as [? _]).
    by eapply (H3 k u' p' u Hin). }
  exists fl. rewrite DeepMerge_IMap, Hfl. split_and!; [done..|].
  intros p u Hne Hp Hu. destruct (Hcomp p u Hne Hp) as [v Hv]. rewrite Hv.
  destruct (Hsound _ _ Hv) as (p' & u' & Hne' & Hp' & Hj & ->). by rewrite (Hu p' u').
Qed.

(** C33: every object whose fields hold decoded JSON (or typed maps and slices
    of strings) is flattened and turned into index lines without a panic; the
    lines are sorted and are exactly "key:value" for the values of the flat
    map, cut to the configured length; the order in which Go ranges over the
    flat map does not matter. *)
Theorem indexify_exact (fields : jmap) :
  Forall (λ kv, field_value kv.2 = true) fields →
  ∃ fl lines, FlattenObj conf fields = Ok fl ∧ Indexify conf fl = Ok lines ∧
  StronglySorted String.le lines ∧
  (∀ line, line ∈ lines ↔
    ∃ k v w, (k, v) ∈ fl ∧ w ∈ flat_strings v ∧ line = index_line conf k w) ∧
  (∀ fl', fl ≡ₚ fl' → Indexify conf fl' = Ok lines).
Proof.
  intros Hf. destruct (flatten_fields_ok conf fields [] Hf) as (fl & Hfl & Hflat); [constructor|].
  destruct (collect_lines_ok conf fl Hflat) as (ls & Hls & Hin).
  exists fl, (sort_strings ls). unfold FlattenObj, Indexify. rewrite Hls.
  split_and!; [done|done|apply sort_strings_sorted|..].
  - intros line. rewrite elem_of_sort_strings. apply Hin.
  - intros fl' Hp. destruct (collect_lines_perm conf fl fl' ls Hp Hls) as (ls' & -> & Hp').
    simpl. by rewrite (sort_strings_proper ls ls' Hp').
Qed.

(** A normalised search key never holds two underscores or two dots in a
    row, and with query conversion on it holds no underscore at all. *)
Theorem pg_key_normal (uniLN : string → bool) (key extra : string) :
  let k := pgKeyReplace conf uniLN key extra in
  no_repeat "." k = true ∧ no_repeat "_" k = true ∧
  (ConvertSearch conf = true → str_all (λ c, negb (bool_decide (c = "_"%char))) k = true).
Proof.
  unfold pgKeyReplace. set (k0 := collapse "." (collapse "_" _)).
  assert (no_repeat "." k0 = true ∧ no_repeat "_" k0 = true) as [H1 H2].
  { split; [apply collapse_no_repeat|]. apply collapse_other; [done|]. apply collapse_no_repeat. }
  destruct (ConvertSearch conf).
  - assert (str_all (λ c, negb (bool_decide (c = "_"%char)))
      (collapse "." (str_replace "_" "." (str_trim "." (str_trim "_" k0)))) = true) as Hno.
    { by apply collapse_all, replace_none. }
    split_and!; [apply collapse_no_repeat| |done]. by apply no_char_no_repeat.
  - by split_and!; [apply trim_no_repeat, trim_no_repeat..|].
Qed.
End properties.

(** * Concrete objects *)

Definition demo_attrs : jmap :=
  [("platform", IStr "debian");
   ("network", IMap [("ports", IArr [INumber "22"; INumber "80"]); ("up", IBool true)])].

Lemma plain_attributes_witness :
  ∃ fl, DeepMerge default_conf EmptyString (IMap demo_attrs) = Ok fl ∧
    mlookup "network_up" fl = Some (IStr "true").
Proof.
  destruct (plain_attributes default_conf demo_attrs) as (fl & Hfl & _ & _ & _ & H); [done..|].
  exists fl. split; [done|].
  apply (H ["network"; "up"] (IBool true)); [done| |].
  - eapply at_key; [right; left|]. eapply at_key; [right; left|]. constructor.
  - intros p' u' Hne Hp Hj. injection Hfl as <-. inversion Hp as [|? k u p w Hin Hp1]; subst; [done|].
    unfold demo_attrs in Hin. rewrite !elem_of_cons in Hin. destruct Hin as [[= -> ->]|[[= -> ->]|Hin]]; [| |by apply not_elem_of_nil in Hin].
    + inversion Hp1; subst. vm_compute in Hj. discriminate.
    + inversion Hp1 as [|? k u p2 w Hin Hp2]; subst; [vm_compute in Hj; discriminate|].
      rewrite !elem_of_cons in Hin. destruct Hin as [[= -> ->]|[[= -> ->]|Hin]]; [| |by apply not_elem_of_nil in Hin].
      * inversion Hp2; subst. vm_compute in Hj. discriminate.
      * by inversion Hp2.
Defined.

Lemma indexify_exact_witness :
  ∃ fl lines, FlattenObj default_conf [("name", IStr "n1"); ("normal", IMap demo_attrs);
      ("run_list", IStrs ["recipe[apt]"; "role[base]"])] = Ok fl ∧
    Indexify default_conf fl = Ok lines ∧ "network_ports:80" ∈ lines ∧ "role:base" ∈ lines.
Proof.
  destruct (indexify_exact default_conf [("name", IStr "n1"); ("normal", IMap demo_attrs);
      ("run_list", IStrs ["recipe[apt]"; "role[base]"])]) as (fl & lines & Hfl & Hix & _ & Hin & _).
  { by repeat constructor. }
  exists fl, lines. split_and!; [done..| |]; apply Hin; vm_compute in Hfl; injection Hfl as <-.
  - exists "network_ports", (IStrs ["22"; "80"]), "80". split_and!; [set_solver..|done].
  - exists "role", (IStrs ["base"]), "base". split_and!; [set_solver..|done].
Defined.
