(* ===== verification/FlattenPaths.v ===== *)
(** What flattening makes of any decoded JSON (src/util/util.go, [DeepMerge]),
    arrays of maps and of arrays included: which names the flat map has, and
    which texts stand under them, by the paths of the value. *)
From S2P Require Import Prelude Gerror Iface Config UtilStrings Flatten.

(** * Specification *)

(** A decoded JSON value: the keys of a map are distinct, and none is empty. *)
Fixpoint decoded (i : iface) : bool :=
  match i with
  | IMap m =>
      bool_decide (NoDup (mkeys m)) && forallb (λ kv, negb (bool_decide (kv.1 = EmptyString)) && decoded kv.2) m
  | IArr l => forallb decoded l
  | _ => scalar i
  end.

Lemma decoded_map m :
  decoded (IMap m) = true → wf_map m ∧ ∀ k u, (k, u) ∈ m → k ≠ EmptyString ∧ decoded u = true.
Proof.
  simpl. intros [Hn Hd]%andb_true_iff. split; [by apply bool_decide_eq_true in Hn|]. intros k u Hin.
  apply Is_true_true, forallb_True in Hd. rewrite Forall_forall in Hd. specialize (Hd _ Hin).
  apply Is_true_true, andb_true_iff in Hd as [Hk Hu]. by apply negb_true_iff, bool_decide_eq_false in Hk.
Qed.

Lemma decoded_arr l w : decoded (IArr l) = true → w ∈ l → decoded w = true.
Proof.
  simpl. intros Hd Hw. apply Is_true_true, forallb_True in Hd. rewrite Forall_forall in Hd.
  by apply Is_true_true, Hd.
Qed.

Section spec.
  Context (conf : Conf).

(** Whether the keys of a map under a name are listed there. *)
Definition listed (key : string) : bool := negb (bool_decide (key = EmptyString)) && negb (UsePostgreSQL conf).

(** The paths of keys that have an entry: through maps key by key, and through
    arrays without a step, to the maps and arrays in them.  The flag says
    whether the keys of the map at hand are listed, which those of a map that
    is an element of an array are not. *)
Inductive entry : bool → iface → list string → Prop :=
| e_scalar b i : scalar i = true → entry b i []
| e_keys m : entry true (IMap m) []
| e_key b m k u p : (k, u) ∈ m → entry (negb (UsePostgreSQL conf)) u p → entry b (IMap m) (k :: p)
| e_array b l : entry b (IArr l) []
| e_map_elem b l m p : IMap m ∈ l → entry false (IMap m) p → entry b (IArr l) p
| e_array_elem b l l' w p : IArr l' ∈ l → w ∈ l' → entry false w p → entry b (IArr l) p.

(** The texts under a path: of a scalar, of the keys of a map, of the scalars
    in an array. *)
Inductive yields : bool → iface → list string → string → Prop :=
| y_scalar b i : scalar i = true → yields b i [] (stringify i)
| y_keys m k u : (k, u) ∈ m → yields true (IMap m) [] k
| y_key b m k u p s : (k, u) ∈ m → yields (negb (UsePostgreSQL conf)) u p s → yields b (IMap m) (k :: p) s
| y_elem b l w : w ∈ l → scalar w = true → yields b (IArr l) [] (stringify w)
| y_map_elem b l m p s : IMap m ∈ l → yields false (IMap m) p s → yields b (IArr l) p s
| y_array_elem b l l' w p s : IArr l' ∈ l → w ∈ l' → yields false w p s → yields b (IArr l) p s.

Lemma yields_entry b i p s : yields b i p s → entry b i p.
Proof. induction 1; by econstructor. Qed.

Lemma entry_nonempty b i p : decoded i = true → entry b i p → Forall (λ k, k ≠ EmptyString) p.
Proof.
  intros Hd He. revert Hd. induction He as [| |b m k u p Hin He IH| |b l m p Hin He IH|b l l' w p Hl Hw He IH];
    intros Hd; try by constructor.
  - destruct (decoded_map m Hd) as [_ Hm]. destruct (Hm k u Hin). constructor; auto.
  - by eapply IH, decoded_arr.
  - eapply IH, decoded_arr, Hw. by eapply decoded_arr.
Qed.

Lemma entry_map_elem m p : entry false (IMap m) p → p ≠ [].
Proof. inversion 1; by subst. Qed.

(** ** Names *)

Lemma getNKey_longer key k : k ≠ EmptyString → String.length key < String.length (getNKey conf key k).
Proof.
  intros Hk. unfold getNKey. destruct k as [|a k]; [done|]. case_bool_decide as E; [subst; simpl; lia|].
  rewrite !str_length_app. simpl. lia.
Qed.

Lemma join_path_longer key p : String.length key ≤ String.length (join_path conf key p).
Proof.
  revert key. induction p as [|k p IH]; intros key; simpl; [done|]. etrans; [|apply IH].
  destruct k as [|a k]; [|pose proof (getNKey_longer key (String a k) ltac:(done)); lia].
  unfold getNKey. case_bool_decide; [subst; simpl; lia|]. rewrite !str_length_app. lia.
Qed.

Lemma join_path_ne key k p : k ≠ EmptyString → join_path conf key (k :: p) ≠ key.
Proof.
  intros Hk He. pose proof (join_path_longer (getNKey conf key k) p) as H1. pose proof (getNKey_longer key k Hk).
  change (join_path conf (getNKey conf key k) p) with (join_path conf key (k :: p)) in H1. rewrite He in H1. lia.
Qed.

(** The name of an element's entry, put behind the name of the array. *)
Lemma getNKey_join key p :
  p ≠ [] → Forall (λ k, k ≠ EmptyString) p → getNKey conf key (join_path conf EmptyString p) = join_path conf key p.
Proof.
  destruct p as [|k p]; [done|]. intros _ [Hk _]%Forall_cons_1.
  change (join_path conf EmptyString (k :: p)) with (join_path conf k p). unfold getNKey at 1. case_bool_decide as E.
  - by subst.
  - rewrite (join_path_join conf k p), (join_path_join conf key (k :: p)) by done. done.
Qed.

(** * Flat maps *)

(** The texts under a name. *)
Definition texts (fl : jmap) (k s : string) : Prop := ∃ v, mlookup k fl = Some v ∧ s ∈ flat_strings v.

Definition unshared (key : string) (i : iface) (p : list string) : Prop :=
  ∀ p', entry (listed key) i p' → join_path conf key p' = join_path conf key p → p' = p.

Record flat_spec (key : string) (i : iface) (fl : jmap) : Prop := {
  fs_wf : wf_map fl;
  fs_flat : flat_map fl;
  fs_names k : is_Some (mlookup k fl) ↔ ∃ p, entry (listed key) i p ∧ k = join_path conf key p;
  fs_sound k s : texts fl k s → ∃ p, yields (listed key) i p s ∧ k = join_path conf key p;
  fs_complete p s : yields (listed key) i p s → unshared key i p → texts fl (join_path conf key p) s;
}.

Lemma mlookup_merge_into k m nm :
  wf_map nm → mlookup k (merge_into m nm) = match mlookup k nm with Some v => Some v | None => mlookup k m end.
Proof.
  unfold merge_into. revert m. induction nm as [|[k0 v0] nm IH]; intros m Hwf; [done|].
  apply NoDup_cons in Hwf as [Hk0 Hwf]. simpl. rewrite IH, mlookup_mset by done. case_bool_decide as E; [|done].
  subst. by rewrite (proj2 (mlookup_None k0 nm)).
Qed.

Lemma texts_mset k v m j s :
  texts (mset k v m) j s ↔ (j = k ∧ s ∈ flat_strings v) ∨ (j ≠ k ∧ texts m j s).
Proof. unfold texts. rewrite mlookup_mset. case_bool_decide; naive_solver. Qed.

(** ** Maps *)

(** The entries of a map, merged one after the other. *)
Lemma merge_entries_spec key l m0 m :
  (∀ k u, (k, u) ∈ l → ∀ nm, DeepMerge conf (getNKey conf key k) u = Ok nm → flat_spec (getNKey conf key k) u nm) →
  merge_entries conf key l m0 = Ok m → wf_map m0 → flat_map m0 → wf_map l →
  wf_map m ∧ flat_map m ∧
  (∀ j, is_Some (mlookup j m) ↔ is_Some (mlookup j m0) ∨
    ∃ k u p, (k, u) ∈ l ∧ entry (listed (getNKey conf key k)) u p ∧ j = join_path conf key (k :: p)) ∧
  (∀ j s, texts m j s → texts m0 j s ∨
    ∃ k u p, (k, u) ∈ l ∧ yields (listed (getNKey conf key k)) u p s ∧ j = join_path conf key (k :: p)) ∧
  (∀ j s, texts m0 j s → (∀ k u p, (k, u) ∈ l → entry (listed (getNKey conf key k)) u p → j ≠ join_path conf key (k :: p)) →
    texts m j s) ∧
  (∀ k u p s, (k, u) ∈ l → yields (listed (getNKey conf key k)) u p s →
    (∀ k' u' p', (k', u') ∈ l → entry (listed (getNKey conf key k')) u' p' →
      join_path conf key (k' :: p') = join_path conf key (k :: p) → k' :: p' = k :: p) →
    texts m (join_path conf key (k :: p)) s).
Proof.
  revert m0. induction l as [|[k u] l IH]; intros m0 Hl Hm Hw0 Hf0 Hwl.
  { simpl in Hm. injection Hm as <-. split_and!; [done|done|naive_solver set_solver|naive_solver|done|set_solver]. }
  simpl in Hm. apply bind_Ok in Hm as (nm & Hnm & Hm). apply NoDup_cons in Hwl as [Hk Hwl].
  destruct (Hl k u ltac:(set_solver) nm Hnm) as [Nw Nf Nn Ns Nc].
  destruct (IH (merge_into m0 nm)) as (I1 & I2 & I3 & I4 & I5 & I6); [| |by apply merge_into_wf|by apply merge_into_flat|done|].
  { intros k' u' Hin. apply Hl. set_solver. }
  { exact Hm. }
  pose proof (λ j, mlookup_merge_into j m0 nm Nw) as Hlk.
  assert (∀ j s, texts (merge_into m0 nm) j s ↔ texts nm j s ∨ (mlookup j nm = None ∧ texts m0 j s)) as Htx.
  { intros j s. unfold texts. rewrite Hlk. destruct (mlookup j nm); naive_solver. }
  split_and!; [done|done|..].
  - intros j. rewrite I3, Hlk. split.
    + intros [Hj|(k' & u' & p & ? & ? & ?)]; [|right; exists k', u', p; set_solver].
      destruct (mlookup j nm) eqn:E; [|by left].
      destruct (proj1 (Nn j)) as (p & ? & ?); [by rewrite E|]. right. exists k, u, p. set_solver.
    + intros [Hj|(k' & u' & p & [[= -> ->]|Hin]%elem_of_cons & He & Hj)].
      * left. destruct (mlookup j nm); [by eexists|done].
      * left. destruct (proj2 (Nn j)) as [v ->]; [by exists p|by eexists].
      * right. exists k', u', p. set_solver.
  - intros j s Ht. destruct (I4 j s Ht) as [Hj|(k' & u' & p & ? & ? & ?)]; [|right; exists k', u', p; set_solver].
    apply Htx in Hj as [Hj|[_ Hj]]; [|by left]. destruct (Ns j s Hj) as (p & ? & ?). right. exists k, u, p. set_solver.
  - intros j s Ht Hno. apply I5.
    + apply Htx. right. split; [|done]. destruct (mlookup j nm) eqn:E; [|done].
      destruct (proj1 (Nn j)) as (p & He & Hj); [by rewrite E|]. exfalso. eapply (Hno k u p); [set_solver|done|done].
    + intros k' u' p Hin. apply (Hno k' u' p). set_solver.
  - intros k' u' p s [[= -> ->]|Hin]%elem_of_cons Hy Hu.
    + apply I5.
      * apply Htx. left. apply (Nc p s Hy). intros p' He Hj.
        assert (k :: p' = k :: p) as [= ->]; [|done]. apply (Hu k u p'); [set_solver|done|done].
      * intros k2 u2 p2 Hin2 He Hj. assert (k2 :: p2 = k :: p) as [= -> ->] by (apply (Hu k2 u2 p2); [set_solver|done|done]).
        apply Hk. apply list_elem_of_fmap. by exists (k, u2).
    + apply (I6 k' u' p s Hin Hy). intros k2 u2 p2 Hin2. apply Hu. set_solver.
Qed.

Lemma flat_spec_map key m fl :
  decoded (IMap m) = true →
  (∀ k u, (k, u) ∈ m → ∀ nm, DeepMerge conf (getNKey conf key k) u = Ok nm → flat_spec (getNKey conf key k) u nm) →
  DeepMerge conf key (IMap m) = Ok fl → flat_spec key (IMap m) fl.
Proof.
  intros Hd IH Hfl. destruct (decoded_map m Hd) as [Hwf Hm]. rewrite DeepMerge_IMap in Hfl.
  apply bind_Ok in Hfl as (m0 & Hm0 & [= <-]).
  destruct (merge_entries_spec key m [] m0 IH Hm0) as (I1 & I2 & I3 & I4 & _ & I6); [constructor|constructor|done|].
  assert (∀ k u, (k, u) ∈ m → listed (getNKey conf key k) = negb (UsePostgreSQL conf)) as Hlist.
  { intros k u [Hk _]%Hm. unfold listed. rewrite bool_decide_false by (by apply getNKey_nonempty). done. }
  assert (∀ p, entry (listed key) (IMap m) p → p = [] ∧ listed key = true ∨ ∃ k u p', p = k :: p' ∧ (k, u) ∈ m ∧
    entry (listed (getNKey conf key k)) u p') as Hen.
  { intros p He. inversion He as [| |? ? k u p' Hin He'| | |]; simplify_eq/=; try done; [by left|].
    right. exists k, u, p'. by rewrite (Hlist k u). }
  assert (top_level conf key (mkeys m) m0 = if listed key then mset key (IStrs (mkeys m)) m0 else m0) as ->.
  { unfold top_level, listed. by destruct (_ && _). }
  assert (∀ k u p, (k, u) ∈ m → join_path conf key (k :: p) ≠ key) as Hne.
  { intros k u p [Hk _]%Hm. by apply join_path_ne. }
  split.
  - destruct (listed key); [by apply mset_wf|done].
  - destruct (listed key); [by apply mset_flat|done].
  - intros j. split.
    + intros Hj. assert (j = key ∧ listed key = true ∨ is_Some (mlookup j m0)) as [[-> Hl]|Hj'].
      { destruct (listed key); [|by right]. rewrite mlookup_mset in Hj. case_bool_decide; auto. }
      * exists []. split; [rewrite Hl; apply e_keys|done].
      * apply I3 in Hj' as [[? ?]|(k & u & p & Hin & He & ->)]; [done|]. exists (k :: p). split; [|done].
        eapply e_key; [done|]. by rewrite <-(Hlist k u).
    + intros (p & He & ->). destruct (Hen p He) as [[-> Hl]|(k & u & p' & -> & Hin & He')].
      * rewrite Hl, mlookup_mset. by rewrite bool_decide_true.
      * assert (is_Some (mlookup (join_path conf key (k :: p')) m0)) as Hs by (apply I3; right; eauto 10).
        destruct (listed key); [|done]. rewrite mlookup_mset. by case_bool_decide.
  - intros j s Hj. assert (j = key ∧ listed key = true ∧ s ∈ mkeys m ∨ texts m0 j s) as [(-> & Hl & Hs)|Hj'].
    { destruct (listed key); [|by right]. apply texts_mset in Hj as [[-> ?]|[? ?]]; auto. }
    + exists []. split; [|done]. rewrite Hl. apply list_elem_of_fmap in Hs as ([k u] & -> & Hin). by eapply y_keys.
    + apply I4 in Hj' as [(? & ? & _)|(k & u & p & Hin & Hy & ->)]; [done|]. exists (k :: p). split; [|done].
      eapply y_key; [done|]. by rewrite <-(Hlist k u).
  - intros p s Hy Hu.
    assert (p = [] ∧ listed key = true ∧ s ∈ mkeys m ∨ ∃ k u p', p = k :: p' ∧ (k, u) ∈ m ∧
      yields (listed (getNKey conf key k)) u p' s) as [(-> & Hl & Hs)|(k & u & p' & -> & Hin & Hy')].
    { inversion Hy as [|? k u Hin|? ? k u p' ? Hin Hy'| | |]; simplify_eq/=; try done.
      - left. split_and!; [done..|]. apply list_elem_of_fmap. by exists (s, u).
      - right. exists k, u, p'. by rewrite (Hlist k u). }
    + rewrite Hl. apply texts_mset. by left.
    + assert (texts m0 (join_path conf key (k :: p')) s) as Ht.
      { eapply I6; [done..|]. intros k2 u2 p2 Hin2 He2. apply Hu. eapply e_key; [done|].
        by rewrite <-(Hlist k2 u2). }
      destruct (listed key); [|done]. apply texts_mset. right. split; [by eapply Hne|done].
Qed.

(** ** Arrays *)

Definition mtexts (st : merge_state) (k s : string) : Prop := ∃ l, mlookup k (mapMerge st) = Some l ∧ s ∈ l.

(** What the elements of an array add to the state: names and texts for paths,
    complete for the paths of [U]. *)
Record adds (key : string) (U E : list string → Prop) (Y : list string → string → Prop) (st st' : merge_state) : Prop := {
  ad_wf : wf_map (mapMerge st) → wf_map (mapMerge st');
  ad_names k : is_Some (mlookup k (mapMerge st')) ↔
    is_Some (mlookup k (mapMerge st)) ∨ ∃ p, p ≠ [] ∧ E p ∧ k = join_path conf key p;
  ad_km s : s ∈ km st' ↔ s ∈ km st ∨ Y [] s;
  ad_sound k s : mtexts st' k s → mtexts st k s ∨ ∃ p, p ≠ [] ∧ Y p s ∧ k = join_path conf key p;
  ad_keep k s : mtexts st k s → mtexts st' k s;
  ad_complete p s : p ≠ [] → Y p s → U p → mtexts st' (join_path conf key p) s;
}.

Lemma adds_nothing key U (E : list string → Prop) (Y : list string → string → Prop) st :
  (∀ p, ¬ E p) → (∀ p s, ¬ Y p s) → adds key U E Y st st.
Proof. intros HE HY. split; naive_solver. Qed.

Lemma adds_trans key U E1 Y1 E2 Y2 st1 st2 st3 :
  adds key U E1 Y1 st1 st2 → adds key U E2 Y2 st2 st3 →
  adds key U (λ p, E1 p ∨ E2 p) (λ p s, Y1 p s ∨ Y2 p s) st1 st3.
Proof.
  intros [W1 N1 K1 S1 P1 C1] [W2 N2 K2 S2 P2 C2]. split.
  - auto.
  - intros k. rewrite N2, N1. naive_solver.
  - intros s. rewrite K2, K1. naive_solver.
  - intros k s [Hs|(p & ? & ? & ?)]%S2; [|right; exists p; naive_solver].
    apply S1 in Hs as [?|(p & ? & ? & ?)]; [by left|]. right. exists p. naive_solver.
  - auto.
  - intros p s Hp [Hy|Hy] HU; auto.
Qed.

Lemma adds_iff key U E Y E' Y' st st' :
  (∀ p, E p ↔ E' p) → (∀ p s, Y p s ↔ Y' p s) → adds key U E Y st st' → adds key U E' Y' st st'.
Proof.
  intros HE HY [W N K S P C]. split; [done| | | |done|].
  - intros k. rewrite N. setoid_rewrite HE. done.
  - intros s. rewrite K. by rewrite HY.
  - intros k s Hs. destruct (S k s Hs) as [?|(p & ? & ? & ?)]; [by left|]. right. exists p. by rewrite <-HY.
  - intros p s Hp Hy. apply C; [done|]. by apply HY.
Qed.

Lemma children_texts l v l' : mergeInterfaceMapChildren l v = Ok l' → l' = l ++ flat_strings v.
Proof. by destruct v; try done; intros [= <-]. Qed.

(** One flat map of an element. *)
Lemma merge_slice_texts key fl st st' :
  merge_slice_elem conf key fl st = Ok st' →
  (wf_map (mapMerge st) → wf_map (mapMerge st')) ∧
  (∀ s, s ∈ km st' ↔ s ∈ km st ∨ ∃ v, (EmptyString, v) ∈ fl ∧ s ∈ flat_strings v) ∧
  (∀ j, is_Some (mlookup j (mapMerge st')) ↔ is_Some (mlookup j (mapMerge st)) ∨
    ∃ k v, k ≠ EmptyString ∧ (k, v) ∈ fl ∧ j = getNKey conf key k) ∧
  (∀ j s, mtexts st' j s ↔ mtexts st j s ∨
    ∃ k v, k ≠ EmptyString ∧ (k, v) ∈ fl ∧ s ∈ flat_strings v ∧ j = getNKey conf key k).
Proof.
  revert st. induction fl as [|[k v] fl IH]; intros st; simpl.
  { intros [= <-]. split_and!; [done|set_solver..]. }
  intros (st1 & H1 & H2)%bind_Ok. destruct (IH st1 H2) as (I1 & I2 & I3 & I4). case_bool_decide as Hk.
  - subst k. apply bind_Ok in H1 as (l & ->%children_texts & [= <-]). simpl in *. split_and!; [done|..].
    + intros s. rewrite I2, elem_of_app. setoid_rewrite elem_of_cons. naive_solver.
    + intros j. rewrite I3. setoid_rewrite elem_of_cons. naive_solver.
    + intros j s. rewrite I4. setoid_rewrite elem_of_cons. naive_solver.
  - apply bind_Ok in H1 as (l & ->%children_texts & [= <-]). simpl in *. split_and!.
    + intros Hw. by apply I1, mset_wf.
    + intros s. rewrite I2. setoid_rewrite elem_of_cons. naive_solver.
    + intros j. rewrite I3, mlookup_mset. setoid_rewrite elem_of_cons. case_bool_decide; naive_solver.
    + intros j s. rewrite I4. setoid_rewrite elem_of_cons.
      assert (mtexts {| km := km st; mapMerge := mset (getNKey conf key k)
        (default [] (mlookup (getNKey conf key k) (mapMerge st)) ++ flat_strings v) (mapMerge st) |} j s ↔
        mtexts st j s ∨ (j = getNKey conf key k ∧ s ∈ flat_strings v)) as ->; [|naive_solver].
      unfold mtexts. simpl. rewrite mlookup_mset. case_bool_decide as Ej; [subst j|naive_solver].
      split.
      * intros (l & [= <-] & Hs). apply elem_of_app in Hs as [Hs|Hs]; [|auto].
        left. destruct (mlookup (getNKey conf key k) (mapMerge st)); [eauto|set_solver].
      * intros [(l & Hl & Hs)|[_ Hs]]; (eexists; split; [done|]); apply elem_of_app; [left; by rewrite Hl|by right].
Qed.

Lemma map_elem_slice key fl st :
  Forall (λ kv, kv.1 ≠ EmptyString) fl → merge_map_elem conf key fl st = merge_slice_elem conf key fl st.
Proof.
  intros Hf. revert st. induction Hf as [|[k v] fl Hk Hf IH]; intros st; [done|]. simpl in *.
  rewrite bool_decide_false by done. destruct (add_child conf key k v st); simpl; auto.
Qed.

Lemma join_empty p : Forall (λ k, k ≠ EmptyString) p → join_path conf EmptyString p = EmptyString → p = [].
Proof. destruct p as [|k p]; [done|]. intros [Hk _]%Forall_cons_1 Hj. by apply join_path_ne in Hj. Qed.

Lemma elem_adds key (U : list string → Prop) w fl st st' :
  decoded w = true → flat_spec EmptyString w fl → merge_slice_elem conf key fl st = Ok st' →
  (∀ p p', U p → entry false w p' → join_path conf key p' = join_path conf key p → p' = p) →
  adds key U (entry false w) (yields false w) st st'.
Proof.
  intros Hd [Fw Ff Fn Fs Fc] Hm HU. change (listed EmptyString) with false in *.
  destruct (merge_slice_texts key fl st st' Hm) as (M1 & M2 & M3 & M4).
  assert (∀ p, entry false w p → Forall (λ k, k ≠ EmptyString) p) as Hne by (intros p; by apply entry_nonempty).
  assert (∀ k v, (k, v) ∈ fl ↔ mlookup k fl = Some v) as Hlk by (intros k v; by rewrite mlookup_Some).
  split.
  - done.
  - intros j. rewrite M3. f_equiv. split.
    + intros (k & v & Hk & Hin%Hlk & ->). destruct (proj1 (Fn k)) as (p & He & ->); [by rewrite Hin|].
      exists p. assert (p ≠ []) by (by intros ->). split_and!; [done..|]. apply getNKey_join; auto.
    + intros (p & Hp & He & ->). destruct (proj2 (Fn (join_path conf EmptyString p))) as [v Hv]; [by exists p|].
      exists (join_path conf EmptyString p), v. split_and!; [|by apply Hlk|symmetry; apply getNKey_join; auto].
      intros Hj. by apply join_empty in Hj; auto.
  - intros s. rewrite M2. f_equiv. split.
    + intros (v & Hin%Hlk & Hs). destruct (Fs EmptyString s) as (p & Hy & Hj); [by exists v|].
      assert (p = []) as ->; [|done]. apply join_empty; [|done]. by eapply Hne, yields_entry.
    + intros Hy. destruct (Fc [] s Hy) as (v & Hv & Hs); [|by exists v; rewrite Hlk].
      intros p' He Hj. apply join_empty; [auto|done].
  - intros j s [?|(k & v & Hk & Hin%Hlk & Hs & ->)]%M4; [by left|]. right.
    destruct (Fs k s) as (p & Hy & ->); [by exists v|]. exists p. assert (p ≠ []) by (by intros ->).
    split_and!; [done..|]. apply getNKey_join; [done|]. by eapply Hne, yields_entry.
  - intros j s Hs. apply M4. by left.
  - intros p s Hp Hy Hu. apply M4. right. pose proof (Hne p (yields_entry _ _ _ _ Hy)) as Hpn.
    destruct (Fc p s Hy) as (v & Hv & Hs).
    { intros p' He Hj. apply HU; [done..|]. destruct (decide (p' = [])) as [->|Hp'].
      - symmetry in Hj. apply join_empty in Hj; [done|done].
      - rewrite <-(getNKey_join key p'), <-(getNKey_join key p), Hj; auto. }
    exists (join_path conf EmptyString p), v. split_and!; [|by apply Hlk|done|symmetry; by apply getNKey_join].
    intros Hj. by apply join_empty in Hj.
Qed.

(** What one element of an array stands for. *)
Definition elem_entry (w : iface) (p : list string) : Prop :=
  match w with
  | IMap _ => entry false w p
  | IArr svs => ∃ w', w' ∈ svs ∧ entry false w' p
  | _ => False
  end.

Definition elem_yields (w : iface) (p : list string) (s : string) : Prop :=
  match w with
  | IMap _ => yields false w p s
  | IArr svs => ∃ w', w' ∈ svs ∧ yields false w' p s
  | _ => p = [] ∧ s = stringify w
  end.

Lemma entry_array b l p : entry b (IArr l) p ↔ p = [] ∨ ∃ w, w ∈ l ∧ elem_entry w p.
Proof.
  split.
  - inversion 1; simplify_eq/=; try done; [by left|right..].
    + eexists. split; [done|]. done.
    + eexists. split; [done|]. simpl. eauto.
  - intros [->|(w & Hw & He)]; [apply e_array|]. destruct w; try done; [|by eapply e_map_elem].
    destruct He as (w' & ? & ?). by eapply e_array_elem.
Qed.

Lemma yields_array b l p s :
  decoded (IArr l) = true → yields b (IArr l) p s ↔ ∃ w, w ∈ l ∧ elem_yields w p s.
Proof.
  intros Hd. split.
  - inversion 1; simplify_eq/=; try done.
    + match goal with H : scalar ?x = true |- _ => exists x; split; [done|]; by destruct x end.
    + eexists. split; [done|]. done.
    + eexists. split; [done|]. simpl. eauto.
  - intros (w & Hw & Hy). pose proof (decoded_arr l w Hd Hw) as Hdw.
    destruct w; cbn [decoded scalar] in Hdw; try done; cbn [elem_yields] in Hy; try (destruct Hy as [-> ->]; by apply y_elem).
    + destruct Hy as (w' & ? & ?). by eapply y_array_elem.
    + by eapply y_map_elem.
Qed.

(** Values whose flat maps are as specified, whatever the name. *)
Definition specified (i : iface) : Prop := ∀ key, ∃ fl, DeepMerge conf key i = Ok fl ∧ flat_spec key i fl.

Lemma slice_elems_adds key (U : list string → Prop) svs st :
  Forall (λ w, decoded w = true ∧ specified w) svs →
  (∀ p p' w, U p → w ∈ svs → entry false w p' → join_path conf key p' = join_path conf key p → p' = p) →
  ∃ st', slice_elems conf key svs st = Ok st' ∧
    adds key U (λ p, ∃ w, w ∈ svs ∧ entry false w p) (λ p s, ∃ w, w ∈ svs ∧ yields false w p s) st st'.
Proof.
  intros Hs. revert st. induction Hs as [|w svs [Hd Hw] Hs IH]; intros st HU.
  { exists st. split; [done|]. apply adds_nothing; set_solver. }
  destruct (Hw EmptyString) as (fl & Hfl & Hsp). cbn [slice_elems]. rewrite Hfl. simpl.
  destruct (merge_slice_elem_ok conf key fl st (fs_flat _ _ _ Hsp)) as [st1 H1]. rewrite H1. simpl.
  destruct (IH st1) as (st' & -> & Hadds). { intros p p' w' ? ?. apply HU; set_solver. }
  exists st'. split; [done|]. eapply adds_iff; [..|eapply adds_trans; [eapply elem_adds; [done|done|exact H1|]|exact Hadds]].
  - intros p. setoid_rewrite elem_of_cons. naive_solver.
  - intros p s. setoid_rewrite elem_of_cons. naive_solver.
  - intros p p' Hp. apply (HU p p' w Hp). set_solver.
Qed.

Lemma array_elem_adds key (U : list string → Prop) w st :
  decoded w = true → specified w → match w with IArr svs => Forall (λ w, decoded w = true ∧ specified w) svs | _ => True end →
  (∀ p p', U p → elem_entry w p' → join_path conf key p' = join_path conf key p → p' = p) →
  ∃ st', array_elem conf key w st = Ok st' ∧ adds key U (elem_entry w) (elem_yields w) st st'.
Proof.
  intros Hd Hw Hin HU.
  assert (scalar w = true → ∃ st', array_elem conf key w st = Ok st' ∧ adds key U (elem_entry w) (elem_yields w) st st') as Hsc.
  { intros Hs. exists {| km := km st ++ [stringify w]; mapMerge := mapMerge st |}.
    split; [by destruct w|]. assert (elem_entry w = λ _, False) as -> by (by destruct w).
    assert (elem_yields w = λ p s, p = [] ∧ s = stringify w) as -> by (by destruct w).
    split; simpl; try naive_solver. intros s. rewrite elem_of_app, list_elem_of_singleton. naive_solver. }
  destruct w as [| | | | |svs|m| | |]; try (by apply Hsc); try done.
  - destruct (slice_elems_adds key U svs st Hin) as (st' & H1 & H2); [|by exists st'].
    intros p p' w Hp Hw' He. apply HU; [done|]. simpl. eauto.
  - destruct (Hw EmptyString) as (fl & Hfl & Hsp). cbn [array_elem]. rewrite Hfl. simpl.
    rewrite map_elem_slice.
    + destruct (merge_slice_elem_ok conf key fl st (fs_flat _ _ _ Hsp)) as [st1 H1].
      exists st1. split; [done|]. by eapply elem_adds.
    + apply Forall_forall. intros [k v] Hkv Hk. simpl in Hk. subst k.
      apply mlookup_Some in Hkv; [|apply (fs_wf _ _ _ Hsp)].
      destruct (proj1 (fs_names _ _ _ Hsp EmptyString)) as (p & He & Hj); [by rewrite Hkv|].
      assert (p = []) as ->; [|by apply entry_map_elem in He]. by apply join_empty; [eapply entry_nonempty|].
Qed.

Lemma array_elems_adds key (U : list string → Prop) l st :
  Forall (λ w, decoded w = true ∧ specified w ∧
    match w with IArr svs => Forall (λ w, decoded w = true ∧ specified w) svs | _ => True end) l →
  (∀ p p' w, U p → w ∈ l → elem_entry w p' → join_path conf key p' = join_path conf key p → p' = p) →
  ∃ st', array_elems conf key l st = Ok st' ∧
    adds key U (λ p, ∃ w, w ∈ l ∧ elem_entry w p) (λ p s, ∃ w, w ∈ l ∧ elem_yields w p s) st st'.
Proof.
  intros Hl. revert st. induction Hl as [|w l (Hd & Hw & Hin) Hl IH]; intros st HU.
  { exists st. split; [done|]. apply adds_nothing; set_solver. }
  destruct (array_elem_adds key U w st Hd Hw Hin) as (st1 & H1 & A1).
  { intros p p' Hp. apply (HU p p' w Hp). set_solver. }
  cbn [array_elems]. rewrite H1. simpl. destruct (IH st1) as (st' & -> & A2). { intros p p' w' ? ?. apply HU; set_solver. }
  exists st'. split; [done|]. eapply adds_iff; [..|eapply adds_trans; [exact A1|exact A2]].
  - intros p. setoid_rewrite elem_of_cons. naive_solver.
  - intros p s. setoid_rewrite elem_of_cons. naive_solver.
Qed.

Lemma mlookup_strs k (m : list (string * list string)) :
  mlookup k (map (λ kv, (kv.1, IStrs kv.2)) m) = IStrs <$> mlookup k m.
Proof. induction m as [|[k0 l] m IH]; [done|]. simpl. by case_bool_decide. Qed.

Lemma specified_array l :
  decoded (IArr l) = true →
  Forall (λ w, specified w ∧ match w with IArr svs => Forall (λ w, decoded w = true ∧ specified w) svs | _ => True end) l →
  specified (IArr l).
Proof.
  intros Hd Hl key.
  destruct (array_elems_adds key (unshared key (IArr l)) l {| km := []; mapMerge := [] |}) as (st & Hst & [W N K S _ C]).
  { rewrite Forall_forall in *. intros w Hw. destruct (Hl w Hw). split_and!; [by eapply decoded_arr|done..]. }
  { intros p p' w Hu Hw He. apply Hu. apply entry_array. right. eauto. }
  rewrite DeepMerge_IArr, Hst. eexists. split; [done|]. simpl in *.
  assert (∀ b p, entry b (IArr l) p → Forall (λ k, k ≠ EmptyString) p) as Hne by (intros b p; by apply entry_nonempty).
  assert (∀ b p, entry b (IArr l) p → p ≠ [] → join_path conf key p ≠ key) as Hjk.
  { intros b [|k p] He Hp; [done|]. apply join_path_ne. by eapply Hne, Forall_cons_1 in He as [? _]. }
  assert (∀ k s, texts (mset key (IStrs (km st)) (map (λ kv, (kv.1, IStrs kv.2)) (mapMerge st))) k s ↔
    (k = key ∧ s ∈ km st) ∨ (k ≠ key ∧ mtexts st k s)) as Ht.
  { intros k s. rewrite texts_mset. unfold texts at 1, mtexts. rewrite mlookup_strs. simpl.
    destruct (mlookup k (mapMerge st)); naive_solver. }
  split.
  - apply mset_wf. unfold wf_map, mkeys. rewrite <-list_fmap_compose. apply W. constructor.
  - apply mset_flat; [|done]. apply Forall_forall. intros kv (? & -> & _)%list_elem_of_fmap. done.
  - intros k. rewrite mlookup_mset, mlookup_strs. case_bool_decide as Ek.
    + subst k. split; [|by eexists]. intros _. exists []. split; [apply e_array|done].
    + rewrite fmap_is_Some, N. split.
      * intros [[? ?]|(p & Hp & He & ->)]; [done|]. exists p. split; [|done]. apply entry_array. by right.
      * intros (p & He & ->). right. exists p. apply entry_array in He as [->|He]; [done|].
        split_and!; [by intros ->|done|done].
  - intros k s [[-> Hs]|[Hk Hs]]%Ht.
    + apply K in Hs as [Hs|Hs]; [by apply not_elem_of_nil in Hs|]. exists []. split; [|done]. by apply yields_array.
    + apply S in Hs as [(? & ? & _)|(p & Hp & Hy & ->)]; [done|]. exists p. split; [|done]. by apply yields_array.
  - intros p s Hy Hu. apply Ht. pose proof (yields_entry _ _ _ _ Hy) as He. apply yields_array in Hy; [|done].
    destruct (decide (p = [])) as [->|Hp]; [left|right; split; [by eapply Hjk|by apply C]].
    split; [done|]. apply K. by right.
Qed.

(** ** All values *)

Lemma decoded_specified i :
  decoded i = true →
  specified i ∧ match i with IArr svs => Forall (λ w, decoded w = true ∧ specified w) svs | _ => True end.
Proof.
  assert (∀ i, scalar i = true → specified i) as Hsc.
  { intros i0 Hs key. assert (DeepMerge conf key i0 = Ok [(key, IStr (stringify i0))]) as -> by (by destruct i0).
    eexists. split; [done|].
    assert (∀ b p, entry b i0 p ↔ p = []) as He.
    { intros b p. split; [|intros ->; by constructor]. by inversion 1; simplify_eq/=. }
    assert (∀ b p s, yields b i0 p s ↔ p = [] ∧ s = stringify i0) as Hy.
    { intros b p s. split; [|intros [-> ->]; by constructor]. by inversion 1; simplify_eq/=. }
    split.
    - apply NoDup_singleton.
    - by repeat constructor.
    - intros k. simpl. setoid_rewrite He. case_bool_decide; naive_solver.
    - intros k s (v & Hv & Hs'). simpl in Hv. setoid_rewrite Hy. case_bool_decide; [|done]. simplify_eq.
      apply list_elem_of_singleton in Hs'. exists []. done.
    - intros p s [-> ->]%Hy _. eexists. simpl. rewrite bool_decide_true by done. split; [done|]. simpl. set_solver. }
  induction i as [| | | | |l IH|m IH| | |] using iface_nested_ind; intros Hd; try done; try (split; [by apply Hsc|done]).
  - assert (∀ w, w ∈ l → decoded w = true) as Hdw by (intros w; by apply decoded_arr).
    rewrite Forall_forall in IH. split.
    + apply specified_array; [done|]. apply Forall_forall. intros w Hw. apply IH; auto.
    + apply Forall_forall. intros w Hw. split; [auto|]. apply IH; auto.
  - split; [|done]. intros key. destruct (decoded_map m Hd) as [_ Hm]. rewrite Forall_forall in IH.
    assert (∀ k u, (k, u) ∈ m → specified u) as Hsp.
    { intros k u Hin. destruct (Hm k u Hin). by apply (IH (k, u) Hin). }
    assert (∃ m', ∀ m0, m0 = [] → merge_entries conf key m m0 = Ok m') as [m0 Hm0].
    { assert (∀ m0, ∃ m', merge_entries conf key m m0 = Ok m') as Htot; [|destruct (Htot []) as [m' ?]; exists m'; by intros ? ->].
      clear IH Hd Hm. induction m as [|[k u] m IHm]; intros m0; [by eexists|]. simpl.
      destruct (Hsp k u ltac:(set_solver) (getNKey conf key k)) as (nm & -> & _). simpl. apply IHm.
      intros k' u' Hin. apply (Hsp k' u'). set_solver. }
    eexists. split; [by rewrite DeepMerge_IMap, (Hm0 [] eq_refl)|]. eapply flat_spec_map; [done| |by rewrite DeepMerge_IMap, (Hm0 [] eq_refl)].
    intros k u Hin nm Hnm. destruct (Hsp k u Hin (getNKey conf key k)) as (nm' & Hnm' & Hf). congruence.
Qed.
End spec.

(** * Properties *)

Section properties.
  Context (conf : Conf).

Lemma join_path_empty p :
  Forall (λ k, k ≠ EmptyString) p → join_path conf EmptyString p = str_join (key_sep conf) p.
Proof.
  destruct p as [|k p]; [done|]. intros [Hk _]%Forall_cons_1.
  change (join_path conf EmptyString (k :: p)) with (join_path conf k p). by apply join_path_join.
Qed.

(** C32: flattening any decoded JSON object whose keys are not empty, with maps
    and arrays nested in any way, never panics and gives a flat map with
    exactly one entry for every joined path of keys, where arrays are passed
    through; every text in an entry is the text of a scalar, of an element of
    an array or of a key (a map lists its keys unless it is an element of an
    array or PostgreSQL is used) at a path with that joined name; and the entry
    of a path whose joined name no other path shares has all the texts there
    are at that path.  (Where paths share a name, a later one may replace an
    earlier one.) *)
Theorem flatten_attributes (es : jmap) :
  decoded (IMap es) = true →
  ∃ fl, DeepMerge conf EmptyString (IMap es) = Ok fl ∧ wf_map fl ∧ flat_map fl ∧
  (∀ k, is_Some (mlookup k fl) ↔ ∃ p, entry conf false (IMap es) p ∧ k = str_join (key_sep conf) p) ∧
  (∀ k v s, mlookup k fl = Some v → s ∈ flat_strings v →
    ∃ p, yields conf false (IMap es) p s ∧ k = str_join (key_sep conf) p) ∧
  (∀ p s, yields conf false (IMap es) p s →
    (∀ p', entry conf false (IMap es) p' → str_join (key_sep conf) p' = str_join (key_sep conf) p → p' = p) →
    ∃ v, mlookup (str_join (key_sep conf) p) fl = Some v ∧ s ∈ flat_strings v).
Proof.
  intros Hd. destruct (decoded_specified conf (IMap es) Hd) as [Hsp _].
  destruct (Hsp EmptyString) as (fl & Hfl & [Fw Ff Fn Fs Fc]). change (listed conf EmptyString) with false in *.
  assert (∀ p, entry conf false (IMap es) p → join_path conf EmptyString p = str_join (key_sep conf) p) as Hj.
  { intros p He. apply join_path_empty. by eapply entry_nonempty. }
  exists fl. split_and!; [done..| | |].
  - intros k. rewrite Fn. split; intros (p & He & ->); exists p; by rewrite Hj.
  - intros k v s Hk Hs. destruct (Fs k s) as (p & Hy & ->); [by exists v|]. exists p. split; [done|].
    by apply Hj, (yields_entry conf false _ p s).
  - intros p s Hy Hu. rewrite <-(Hj p) by (by eapply yields_entry). apply Fc; [done|]. intros p' He.
    rewrite !Hj by (done || by eapply yields_entry). by apply Hu.
Qed.
End properties.

(** Two interfaces in an array: the addresses of both stand under one name. *)
Definition demo_interfaces : jmap :=
  [("interfaces", IArr [IMap [("addr", IStr "10.0.0.1"); ("up", IBool true)];
                        IMap [("addr", IStr "10.0.0.2")]; IArr [IStr "lo"; IMap [("mtu", INumber "1500")]]])].

Lemma flatten_attributes_witness :
  ∃ fl, DeepMerge default_conf EmptyString (IMap demo_interfaces) = Ok fl ∧
    (∃ p, yields default_conf false (IMap demo_interfaces) p "10.0.0.2" ∧ "interfaces_addr" = str_join "_" p) ∧
    is_Some (mlookup "interfaces_mtu" fl).
Proof.
  destruct (flatten_attributes default_conf demo_interfaces) as (fl & Hfl & _ & _ & Hn & Hs & _); [by vm_compute|].
  exists fl. split; [done|]. split.
  - apply (Hs "interfaces_addr" (IStrs ["10.0.0.1"; "10.0.0.2"])); [|set_solver].
    vm_compute in Hfl. by injection Hfl as <-.
  - apply Hn. exists ["interfaces"; "mtu"]. split; [|done].
    eapply e_key; [left|]. eapply (e_array_elem _ _ _ [IStr "lo"; IMap [("mtu", INumber "1500")]]); [set_solver|right; left|].
    eapply e_key; [left|]. by constructor.
Defined.
