(* ===== verification/FileIndex.v ===== *)
(** The in-memory search index (src/indexer/file_index.go): collections of
    documents, each held as a trie of its lines "key:value" together with the
    lines as text. *)
From S2P Require Import Prelude Gerror Iface Config Store UtilStrings Flatten.

(** * What the index relies on *)

(** The trie library: [Create] is [None] when it returns an error or panics. *)
Class TrieOps (T : Type) : Type := {
  Create : list string → option T;
  Accepts : T → string → bool;
  HasPrefix : T → string → option T;
  ChildKeys : T → list string;
}.

(** Strings of valid UTF-8, the only ones JSON decodes to. *)
Definition valid_utf8 (s : string) : Prop := str_join EmptyString (runes s) = s.

(** What a trie can be made of: sorted words, none twice, none empty. A word
    that comes twice makes the trie mark the node before its end, so that the
    word is lost and its longest proper prefix is found; [Indexify] gives such a
    word twice when values are cut short ([trimming_repeats_lines]), and not
    otherwise ([untrimmed_lines_good]). *)
Record good_words (ws : list string) : Prop := {
  gw_sorted : StronglySorted String.le ws;
  gw_nodup : NoDup ws;
  gw_nonempty : ws ≠ [];
  gw_words : Forall (λ w, w ≠ EmptyString ∧ valid_utf8 w) ws;
}.

(** [c] leads from the prefix [p] to a word, with no shorter way. *)
Definition next_word (ws : list string) (p c : string) : Prop :=
  p +:+ c ∈ ws ∧ c ≠ EmptyString ∧ ∀ c' d, c = c' +:+ d → d ≠ EmptyString → p +:+ c' ∉ ws.

Class TrieLaws (T : Type) {O : TrieOps T} : Prop := {
  trie_create ws : good_words ws → ∃ t, Create ws = Some t;
  trie_accepts ws t w : good_words ws → Create ws = Some t → valid_utf8 w →
    Accepts t w = bool_decide (w ∈ ws);
  trie_prefix ws t p : good_words ws → Create ws = Some t → valid_utf8 p →
    match HasPrefix t p with
    | Some n => ∀ c, c ∈ ChildKeys n ↔ next_word ws p c
    | None => ∀ c, p +:+ c ∉ ws
    end;
}.

(** [regexp.Compile], and matching anywhere in a string. *)
Class Regexp : Type := Compile : string → option (string → bool).

(** What can be indexed: its collection, its name there, its flat form. *)
Record Indexable : Type := {
  DocID : string;
  Index : string;
  Flatten : outcome jmap;
}.

(** * Definitions *)

Section index.
  Context (conf : Conf) {T : Type} {O : TrieOps T} {RE : Regexp}.

(** A document; fresh ones have no trie and no text yet, and reading those
    fails like decompressing no bytes does. *)
Record IdxDoc : Type := { trie : option T; docText : option string }.

Definition new_doc : IdxDoc := {| trie := None; docText := None |}.

Abbreviation collection := (gmap string IdxDoc).

Record FileIndex : Type := { idxmap : gmap string collection; updated : bool }.

Definition set_map (i : FileIndex) (m : gmap string collection) : FileIndex :=
  {| idxmap := m; updated := true |}.

Definition eof : gerror := New "unexpected EOF".

Definition decompressTrie (t : option T) : outcome T :=
  match t with Some t => Ok t | None => Err eof end.

Definition decompressText (t : option string) : outcome string :=
  match t with Some t => Ok t | None => Err eof end.

(** [\\(\S)] replaced by its group: a backslash before anything but white
    space goes. *)
Definition is_space (c : ascii) : bool := str_mem c (String (Ascii.ascii_of_nat 9)
  (String newline (String (Ascii.ascii_of_nat 12) (String (Ascii.ascii_of_nat 13) " ")))).

Fixpoint unescape (term : string) : string :=
  match term with
  | String a (String b r as r') =>
      if bool_decide (a = "\"%char) && negb (is_space b) then String b (unescape r)
      else String a (unescape r')
  | _ => term
  end.

(** ** Documents *)

(** [update]: when the trie cannot be made the document stays as it was. *)
Definition update (idoc : IdxDoc) (object : Indexable) : outcome IdxDoc :=
  fl ← Flatten object;
  flattened ← Indexify conf fl;
  Ok (match Create flattened with
      | Some t => {| trie := Some t; docText := Some (str_join (String newline EmptyString) flattened) |}
      | None => idoc
      end).

Definition exactSearch (idoc : IdxDoc) (term : string) : outcome bool :=
  t ← decompressTrie (trie idoc); Ok (Accepts t term).

(** [SplitN(reTerm, ":", 2)]. *)
Definition split_term (term : string) : option (string * string) :=
  let '(a, r) := str_span (λ c, negb (bool_decide (c = ":"%char))) term in
  match r with String _ b => Some (a, b) | EmptyString => None end.

Definition wild_to_re (re : string) : string := str_replace "?" ".?" (str_replace "*" ".*" re).

Definition bad_regexp (re : string) : gerror :=
  New ("error parsing regexp: " +:+ re).

Definition regexSearch (idoc : IdxDoc) (reTerm : string) : outcome bool :=
  match split_term reTerm with
  | None => Panic IndexOutOfRange
  | Some (k, re) =>
      let re := wild_to_re (str_replace "." "\." re) in
      match Compile re with
      | None => Err (bad_regexp re)
      | Some reComp =>
          t ← decompressTrie (trie idoc);
          Ok (match HasPrefix t (k +:+ ":") with
              | Some n => existsb reComp (ChildKeys n)
              | None => false
              end)
      end
  end.

Definition is_wild (c : ascii) : bool := bool_decide (c = "*"%char) || bool_decide (c = "?"%char).

Definition Examine (idoc : IdxDoc) (term : string) : outcome bool :=
  if str_any is_wild term then regexSearch idoc term else exactSearch idoc term.

Definition TextSearch (idoc : IdxDoc) (term : string) : outcome bool :=
  match term with
  | EmptyString => Panic IndexOutOfRange
  | String c _ =>
      if is_wild c then Err (New "Can't start a term with a wildcard character")
      else
        let re := "(?m):" +:+ wild_to_re term +:+ "$" in
        match Compile re with
        | None => Err (bad_regexp re)
        | Some reComp => txt ← decompressText (docText idoc); Ok (reComp txt)
        end
  end.

Definition str_leb (s t : string) : bool := negb (str_ltb t s).

(** The test of [RangeSearch] on one value. *)
Definition in_bounds (start end_ : string) (inclusive negated : bool) (child : string) : bool :=
  let wildStart := bool_decide (start = "*") in
  let wildEnd := bool_decide (end_ = "*") in
  match negated, inclusive with
  | false, true =>
      if wildStart then str_leb child end_
      else if wildEnd then str_leb start child
      else str_leb start child && str_leb child end_
  | false, false =>
      if wildStart then str_ltb child end_
      else if wildEnd then str_ltb start child
      else str_ltb start child && str_ltb child end_
  | true, true =>
      if wildStart then str_leb end_ child
      else if wildEnd then str_leb child start
      else str_leb child start || str_leb end_ child
  | true, false =>
      if wildStart then str_ltb end_ child
      else if wildEnd then str_ltb child start
      else str_ltb child start || str_ltb end_ child
  end.

Definition RangeSearch (idoc : IdxDoc) (field start end_ : string) (inclusive negated : bool) : outcome bool :=
  if bool_decide (start = "*") && bool_decide (end_ = "*")
  then Err (New "you can't have both start and end be wild in a range search, sadly")
  else
    t ← decompressTrie (trie idoc);
    Ok (match HasPrefix t (field +:+ ":") with
        | Some n => existsb (in_bounds start end_ inclusive negated) (ChildKeys n)
        | None => false
        end).

(** ** Collections *)

Definition addDoc (ic : collection) (object : Indexable) : outcome collection :=
  d ← update (default new_doc (ic !! DocID object)) object;
  Ok (<[DocID object := d]> ic).

Definition delDoc (ic : collection) (doc : string) : collection := delete doc ic.

Definition allDocs (ic : collection) : collection := ic.

(** Every document is examined; one failure fails the search. *)
Fixpoint search_list (f : IdxDoc → outcome bool) (docs : list (string * IdxDoc)) : outcome collection :=
  match docs with
  | [] => Ok ∅
  | (k, v) :: r =>
      f v ≫= λ m : bool, rest ← search_list f r; Ok (if m then <[k := v]> rest else rest)
  end.

Definition searchCollection (ic : collection) (term : string) (notop : bool) : outcome collection :=
  search_list (λ d, xorb notop <$> Examine d term) (map_to_list ic).

Definition searchTextCollection (ic : collection) (term : string) (notop : bool) : outcome collection :=
  search_list (λ d, xorb notop <$> TextSearch d term) (map_to_list ic).

Definition searchRange (ic : collection) (field start end_ : string) (inclusive negated : bool)
    : outcome collection :=
  search_list (λ d, RangeSearch d field start end_ inclusive negated) (map_to_list ic).

(** ** The index *)

Definition default_names : list string := ["client"; "environment"; "node"; "role"].

Definition CreateCollection (m : gmap string collection) (idxName : string) : gmap string collection :=
  match m !! idxName with Some _ => m | None => <[idxName := ∅]> m end.

Definition makeDefaultCollections (i : FileIndex) : FileIndex :=
  set_map i (foldl CreateCollection ∅ default_names).

Definition Initialize : FileIndex := makeDefaultCollections {| idxmap := ∅; updated := false |}.

Definition Clear (i : FileIndex) : FileIndex := makeDefaultCollections i.

Definition CreateNewCollection (i : FileIndex) (idxName : string) : FileIndex :=
  set_map i (CreateCollection (idxmap i) idxName).

Definition DeleteCollection (i : FileIndex) (idxName : string) : outcome FileIndex :=
  if bool_decide (idxName ∈ ["node"; "client"; "environment"; "role"])
  then Err (New (idxName +:+ " is a default search index, cannot be deleted."))
  else Ok (set_map i (delete idxName (idxmap i))).

Definition SaveItem (i : FileIndex) (object : Indexable) : outcome FileIndex :=
  let m := CreateCollection (idxmap i) (Index object) in
  ic ← addDoc (default ∅ (m !! Index object)) object;
  Ok (set_map i (<[Index object := ic]> m)).

(** The error does not undo the mark that the index has changed. *)
Definition DeleteItem (i : FileIndex) (idxName doc : string) : FileIndex * option gerror :=
  match idxmap i !! idxName with
  | None => (set_map i (idxmap i), Some (New ("Index collection " +:+ idxName +:+ " not found")))
  | Some ic => (set_map i (<[idxName := delDoc ic doc]> (idxmap i)), None)
  end.

Definition unknown_index (idx : string) : gerror :=
  New ("I don't know how to search for " +:+ idx +:+ " data objects.").

Definition Search (i : FileIndex) (idx term : string) (notop : bool) : outcome collection :=
  match idxmap i !! idx with
  | None => Err (unknown_index idx)
  | Some idc =>
      if bool_decide (term = "*:*") then Ok (allDocs idc)
      else searchCollection idc (unescape term) notop
  end.

Definition SearchText (i : FileIndex) (idx term : string) (notop : bool) : outcome collection :=
  match idxmap i !! idx with
  | None => Err (unknown_index idx)
  | Some idc => searchTextCollection idc (unescape term) notop
  end.

Definition SearchRange (i : FileIndex) (idx field start end_ : string) (inclusive negated : bool)
    : outcome collection :=
  match idxmap i !! idx with
  | None => Err (unknown_index idx)
  | Some idc => searchRange idc field start end_ inclusive negated
  end.

(** The same among documents already found. *)
Definition SearchResults (term : string) (notop : bool) (docs : collection) : outcome collection :=
  if bool_decide (term = "*:*") then Ok (if notop then ∅ else docs)
  else searchCollection docs (unescape term) notop.

Definition SearchResultsRange (field start end_ : string) (inclusive negated : bool) (docs : collection)
    : outcome collection := searchRange docs field start end_ inclusive negated.

Definition SearchResultsText (term : string) (notop : bool) (docs : collection) : outcome collection :=
  searchTextCollection docs (unescape term) notop.

(** Freezing to the index file, when one is configured: [Some] content when it
    was written, and reading it back ([None] for a missing file). *)
Definition Save (hasFile : bool) (i : FileIndex)
    : outcome (FileIndex * option (gmap string collection)) :=
  if hasFile then
    Ok (if updated i then ({| idxmap := idxmap i; updated := false |}, Some (idxmap i)) else (i, None))
  else Err (New "Yikes! Cannot save index to disk because no file was specified.").

Definition Load (hasFile : bool) (content : option (gmap string collection)) (i : FileIndex)
    : outcome FileIndex :=
  if hasFile then
    Ok (match content with Some m => {| idxmap := m; updated := updated i |} | None => i end)
  else Err (New "Yikes! Cannot load index from disk because no file was specified.").

Definition Endpoints (i : FileIndex) : list string := sort_strings ((map_to_list (idxmap i)).*1).
End index.

#[global] Arguments IdxDoc T : clear implicits.
#[global] Arguments FileIndex T : clear implicits.

(** * Lemmas *)

Section facts.
  Context (conf : Conf) {T : Type} {O : TrieOps T} {L : TrieLaws T} {RE : Regexp}.
  Implicit Types (i : FileIndex T) (d : IdxDoc T) (ls : list string).

(** A search keeps the documents that pass. *)
Lemma search_list_ok (f : IdxDoc T → outcome bool) (b : string → IdxDoc T → bool) (ic : gmap string (IdxDoc T)) :
  (∀ k d, ic !! k = Some d → f d = Ok (b k d)) →
  ∃ r, search_list f (map_to_list ic) = Ok r ∧
    ∀ k d, r !! k = Some d ↔ ic !! k = Some d ∧ b k d = true.
Proof.
  intros Hf. assert (∀ l, (∀ k d, (k, d) ∈ l → f d = Ok (b k d)) → NoDup l.*1 →
    ∃ r, search_list f l = Ok r ∧ ∀ k d, r !! k = Some d ↔ (k, d) ∈ l ∧ b k d = true) as Hl.
  { clear. induction l as [|[k d] l IH]; intros Hf Hnd; simpl.
    { exists ∅. split; [done|]. intros k d. rewrite lookup_empty.
      split; [done|]. by intros [Hin%not_elem_of_nil _]. }
    apply NoDup_cons in Hnd as [Hk Hnd]. rewrite (Hf k d) by set_solver.
    destruct IH as (r & -> & Hr); [intros; apply Hf; set_solver|done|]. simpl.
    assert (∀ d', (k, d') ∉ l) as Hk'.
    { intros d' Hin. apply Hk, list_elem_of_fmap. by exists (k, d'). }
    eexists. split; [done|]. intros k' d'. rewrite elem_of_cons.
    destruct (b k d) eqn:Eb.
    - rewrite lookup_insert_Some, Hr. naive_solver.
    - rewrite Hr. split; [by intros [??]; auto|]. intros [[[= -> ->]|?] ?]; [congruence|done]. }
  destruct (Hl (map_to_list ic)) as (r & Hr & Hin).
  - intros k d Hkd. by apply Hf, elem_of_map_to_list.
  - apply NoDup_fst_map_to_list.
  - exists r. split; [done|]. intros k d. by rewrite Hin, elem_of_map_to_list.
Qed.

(** ** The index as a map of lines *)

Abbreviation abs_index := (gmap string (gmap string (list string))).

Definition doc_is ls d : Prop :=
  good_words ls ∧ ∃ t, Create ls = Some t ∧
    d = {| trie := Some t; docText := Some (str_join (String newline EmptyString) ls) |}.

Definition coll_is (ac : gmap string (list string)) (ic : gmap string (IdxDoc T)) : Prop :=
  ∀ k, option_Forall2 doc_is (ac !! k) (ic !! k).

Definition represents (a : abs_index) i : Prop :=
  ∀ idx, option_Forall2 coll_is (a !! idx) (idxmap i !! idx).

(** The lines of an object. *)
Definition obj_lines (object : Indexable) : outcome (list string) :=
  fl ← Flatten object; Indexify conf fl.

Definition good_object (object : Indexable) : Prop :=
  ∃ ls, obj_lines object = Ok ls ∧ good_words ls.

(** Without trimming (the default), every object whose flat form is a map, with
    keys without colons, and has at least one line, all of them valid UTF-8, has
    good lines. *)
Lemma index_line_inj k w k' w' :
  (IndexValTrim conf ≤ 0)%Z → no_colon k = true → no_colon k' = true →
  index_line conf k w = index_line conf k' w' → k = k' ∧ w = w'.
Proof.
  intros Ht Hk Hk'. unfold index_line, TrimStringMax. rewrite (proj2 (Z.leb_le _ _) Ht).
  change (k +:+ String ":" w = k' +:+ String ":" w' → k = k' ∧ w = w'). intros He.
  pose proof (str_split_app _ _ w Hk) as E. pose proof (str_split_app _ _ w' Hk') as E'.
  rewrite He in E. rewrite E in E'. injection E' as -> Ek. split; [done|].
  rewrite <-(str_join_split ":" w), <-(str_join_split ":" w'). by rewrite Ek.
Qed.

Lemma index_lines_from kv l line :
  index_lines conf kv = Ok l → line ∈ l → ∃ w, line = index_line conf kv.1 w.
Proof.
  unfold index_lines. destruct kv.2; try done; intros [= <-]; [intros ->%list_elem_of_singleton; eauto|].
  intros (w & -> & _)%list_elem_of_fmap. eauto.
Qed.

Lemma collect_lines_from fl ls line :
  collect_lines conf fl = Ok ls → line ∈ ls → ∃ k w, k ∈ fl.*1 ∧ line = index_line conf k w.
Proof.
  revert ls. induction fl as [|kv fl IH]; intros ls; simpl; [intros [= <-] ?%not_elem_of_nil; done|].
  intros (l & Hl & (ls' & Hls & [= <-])%bind_Ok)%bind_Ok [Hin|Hin]%elem_of_app.
  - destruct (index_lines_from kv l line Hl Hin) as [w ->]. exists kv.1, w. split; [by left|done].
  - destruct (IH ls' Hls Hin) as (k & w & ? & ->). exists k, w. split; [by right|done].
Qed.

Lemma untrimmed_lines_nodup fl ls :
  (IndexValTrim conf ≤ 0)%Z → NoDup fl.*1 → Forall (λ k, no_colon k = true) fl.*1 →
  collect_lines conf fl = Ok ls → NoDup ls.
Proof.
  intros Ht. revert ls. induction fl as [|kv fl IH]; intros ls; simpl; [intros _ _ [= <-]; constructor|].
  intros [Hn Hnd]%NoDup_cons [Hk Hks]%Forall_cons_1 (l & Hl & (ls' & Hls & [= <-])%bind_Ok)%bind_Ok. apply NoDup_app. split_and!.
  - unfold index_lines in Hl. destruct kv.2; try done; injection Hl as <-; [apply NoDup_singleton|].
    apply NoDup_fmap_2_strong; [|by apply RemoveDupStrings_sorted, sort_strings_sorted].
    intros x y _ _ Hxy. by apply index_line_inj in Hxy as [_ ?].
  - intros line Hin Hin'. destruct (index_lines_from kv l line Hl Hin) as [w ->].
    destruct (collect_lines_from fl ls' _ Hls Hin') as (k & w' & Hkin & He). rewrite Forall_forall in Hks.
    apply index_line_inj in He as [He _]; [by rewrite He in Hn|done|done|by apply Hks].
  - by apply IH.
Qed.

Lemma untrimmed_lines_good object fl ls :
  (IndexValTrim conf ≤ 0)%Z → Flatten object = Ok fl → NoDup fl.*1 → Forall (λ k, no_colon k = true) fl.*1 →
  Indexify conf fl = Ok ls → ls ≠ [] → Forall valid_utf8 ls → good_object object.
Proof.
  intros Ht Hfl Hnd Hc Hls Hne Hv. exists ls. unfold obj_lines. rewrite Hfl. split; [done|].
  unfold Indexify in Hls. apply bind_Ok in Hls as (ls0 & H0 & [= <-]). split.
  - apply sort_strings_sorted.
  - rewrite sort_strings_Permutation. by eapply untrimmed_lines_nodup.
  - done.
  - rewrite Forall_forall in Hv. apply Forall_forall. intros line Hin. split; [|by apply Hv].
    rewrite elem_of_sort_strings in Hin. destruct (collect_lines_from fl ls0 line H0 Hin) as (k & w & _ & ->).
    unfold index_line. by destruct k.
Qed.

Lemma update_good d object ls :
  obj_lines object = Ok ls → good_words ls → ∃ d', update conf d object = Ok d' ∧ doc_is ls d'.
Proof.
  intros Hl Hg. unfold obj_lines in Hl. apply bind_Ok in Hl as (fl & Hfl & Hl).
  unfold update. rewrite Hfl. simpl. rewrite Hl. simpl.
  destruct (trie_create ls Hg) as [t Ht]. rewrite Ht. eexists. split; [done|]. split; [done|]. eauto.
Qed.

(** ** Commands *)

Inductive icmd : Type :=
| CSave (object : Indexable)
| CDelete (idx doc : string)
| CCreate (idx : string)
| CDrop (idx : string)
| CClear.

(** A refused command leaves the index alone. *)
Definition run_icmd i (c : icmd) : outcome (FileIndex T) :=
  match c with
  | CSave object => SaveItem conf i object
  | CDelete idx doc => Ok (DeleteItem i idx doc).1
  | CCreate idx => Ok (CreateNewCollection i idx)
  | CDrop idx => match DeleteCollection i idx with Err _ => Ok i | o => o end
  | CClear => Ok (Clear i)
  end.

Fixpoint run_icmds i (cs : list icmd) : outcome (FileIndex T) :=
  match cs with [] => Ok i | c :: cs => i ← run_icmd i c; run_icmds i cs end.

Definition abs_defaults : abs_index := list_to_map ((λ n, (n, ∅)) <$> default_names).

Definition abs_icmd (a : abs_index) (c : icmd) : abs_index :=
  match c with
  | CSave object =>
      <[Index object := <[DocID object := match obj_lines object with Ok ls => ls | _ => [] end]>
                          (default ∅ (a !! Index object))]> a
  | CDelete idx doc => alter (delete doc) idx a
  | CCreate idx => match a !! idx with Some _ => a | None => <[idx := ∅]> a end
  | CDrop idx => if bool_decide (idx ∈ default_names) then a else delete idx a
  | CClear => abs_defaults
  end.

Definition abs_icmds (cs : list icmd) : abs_index := foldl abs_icmd abs_defaults cs.

Definition good_icmd (c : icmd) : Prop :=
  match c with CSave object => good_object object | _ => True end.

Lemma const_map_lookup {A} (x : A) (l : list string) (idx : string) :
  (list_to_map ((λ n, (n, x)) <$> l) : gmap string A) !! idx = if bool_decide (idx ∈ l) then Some x else None.
Proof.
  induction l as [|n l IH]; [done|]. rewrite fmap_cons, list_to_map_cons.
  destruct (decide (idx = n)) as [->|Hne].
  - rewrite lookup_insert_eq, bool_decide_true by set_solver. done.
  - rewrite lookup_insert_ne, IH by done. apply (f_equal (λ b : bool, if b then Some x else None)).
    apply bool_decide_ext. set_solver.
Qed.

Lemma default_collections i :
  idxmap (makeDefaultCollections i) =
  (list_to_map ((λ n, (n, ∅)) <$> default_names) : gmap string (gmap string (IdxDoc T))).
Proof. reflexivity. Qed.

Lemma coll_is_empty : coll_is ∅ ∅.
Proof. intros k. rewrite !lookup_empty. constructor. Qed.

Lemma represents_defaults i : represents abs_defaults (makeDefaultCollections i).
Proof.
  intros idx. unfold abs_defaults. rewrite default_collections, !const_map_lookup. case_bool_decide; [|constructor].
  constructor. apply coll_is_empty.
Qed.

Lemma represents_insert a i u idx ac ic :
  represents a i → coll_is ac ic →
  represents (<[idx := ac]> a) {| idxmap := <[idx := ic]> (idxmap i); updated := u |}.
Proof.
  intros Hr Hc idx'. simpl. destruct (decide (idx' = idx)) as [->|].
  - rewrite !lookup_insert_eq. by constructor.
  - rewrite !lookup_insert_ne by done. apply Hr.
Qed.

Lemma represents_create a i idx :
  represents a i →
  represents (match a !! idx with Some _ => a | None => <[idx := ∅]> a end) (CreateNewCollection i idx).
Proof.
  intros Hr. unfold CreateNewCollection, CreateCollection, set_map. pose proof (Hr idx) as Hidx.
  destruct (a !! idx) as [ac|], (idxmap i !! idx) as [ic|]; inversion Hidx; [apply Hr|].
  apply represents_insert; [done|apply coll_is_empty].
Qed.

Lemma run_icmd_represents a i c :
  represents a i → good_icmd c → ∃ i', run_icmd i c = Ok i' ∧ represents (abs_icmd a c) i'.
Proof.
  intros Hr Hg. destruct c as [object|idx doc|idx|idx|]; simpl.
  - destruct Hg as (ls & Hls & Hg). rewrite Hls. unfold SaveItem, addDoc.
    set (m := CreateCollection (idxmap i) (Index object)).
    assert (coll_is (default ∅ (a !! Index object)) (default ∅ (m !! Index object))) as Hc.
    { unfold m, CreateCollection. pose proof (Hr (Index object)) as Hidx.
      destruct (a !! Index object), (idxmap i !! Index object) eqn:E; inversion Hidx; subst.
      - by rewrite E.
      - rewrite lookup_insert_eq. apply coll_is_empty. }
    destruct (update_good (default new_doc (default ∅ (m !! Index object) !! DocID object)) object ls Hls Hg)
      as (d' & -> & Hd'). simpl. eexists. split; [done|].
    intros idx. simpl. destruct (decide (idx = Index object)) as [->|].
    + rewrite !lookup_insert_eq. constructor. intros k. destruct (decide (k = DocID object)) as [->|].
      * rewrite !lookup_insert_eq. by constructor.
      * rewrite !lookup_insert_ne by done. apply Hc.
    + rewrite !lookup_insert_ne by done. unfold m, CreateCollection.
      destruct (idxmap i !! Index object); [apply Hr|]. rewrite lookup_insert_ne by done. apply Hr.
  - eexists. split; [done|]. unfold DeleteItem. pose proof (Hr idx) as Hidx.
    destruct (a !! idx) as [ac|] eqn:Ea, (idxmap i !! idx) as [ic|] eqn:Ei; inversion Hidx as [? ? Hc|]; subst; simpl.
    + intros idx'. simpl. destruct (decide (idx' = idx)) as [->|].
      * rewrite lookup_alter_eq, Ea, lookup_insert_eq. constructor. intros k. unfold delDoc.
        destruct (decide (k = doc)) as [->|]; [rewrite !lookup_delete_eq; constructor|].
        rewrite !lookup_delete_ne by done. apply Hc.
      * rewrite lookup_alter_ne, lookup_insert_ne by done. apply Hr.
    + rewrite alter_id by naive_solver. apply Hr.
  - eexists. split; [done|]. by apply represents_create.
  - unfold DeleteCollection. assert (bool_decide (idx ∈ ["node"; "client"; "environment"; "role"]) =
      bool_decide (idx ∈ default_names)) as -> by (apply bool_decide_ext; unfold default_names; set_solver).
    case_bool_decide; [by exists i|]. eexists. split; [done|]. intros idx'. simpl.
    destruct (decide (idx' = idx)) as [->|]; [rewrite !lookup_delete_eq; constructor|].
    rewrite !lookup_delete_ne by done. apply Hr.
  - eexists. split; [done|]. apply represents_defaults.
Qed.

Lemma run_icmds_represents a i cs :
  represents a i → Forall good_icmd cs →
  ∃ i', run_icmds i cs = Ok i' ∧ represents (foldl abs_icmd a cs) i'.
Proof.
  intros Hr Hg. revert a i Hr. induction Hg as [|c cs Hc Hg IH]; intros a i Hr; simpl; [eauto|].
  destruct (run_icmd_represents a i c Hr Hc) as (i' & -> & Hr'). by apply IH.
Qed.

(** ** Searching a represented index *)

Lemma examine_exact ls d term :
  doc_is ls d → str_any is_wild term = false → valid_utf8 term →
  Examine d term = Ok (bool_decide (term ∈ ls)).
Proof.
  intros (Hg & t & Ht & ->) Hw Hv. unfold Examine. rewrite Hw. unfold exactSearch. simpl.
  by rewrite (trie_accepts ls t term).
Qed.

Lemma range_search_next ls d field start end_ inclusive negated :
  doc_is ls d → valid_utf8 (field +:+ ":") → ¬ (start = "*" ∧ end_ = "*") →
  ∃ b, RangeSearch d field start end_ inclusive negated = Ok b ∧
    (b = true ↔ ∃ c, next_word ls (field +:+ ":") c ∧ in_bounds start end_ inclusive negated c = true).
Proof.
  intros (Hg & t & Ht & ->) Hv Hb. unfold RangeSearch. simpl.
  replace (bool_decide (start = "*") && bool_decide (end_ = "*")) with false
    by (symmetry; apply andb_false_iff; destruct (decide (start = "*"));
        [right; apply bool_decide_false; naive_solver|left; by apply bool_decide_false]).
  eexists. split; [done|]. pose proof (trie_prefix ls t (field +:+ ":") Hg Ht Hv) as Hp.
  destruct (HasPrefix t (field +:+ ":")) as [n|].
  - rewrite existsb_exists. setoid_rewrite <-Hp. setoid_rewrite list_elem_of_In. done.
  - split; [done|]. intros (c & [Hc _] & _). by apply Hp in Hc.
Qed.
End facts.

(** * Properties *)

Section properties.
  Context (conf : Conf) {T : Type} {O : TrieOps T} {L : TrieLaws T} {RE : Regexp}.

(** C16: the index implements a map from collections to documents to lines.
    After any sequence of deletions, collection commands and saves of objects
    whose lines are distinct, non-empty and valid UTF-8, searching a collection
    for a term "key:value" of valid UTF-8 without wildcards finds exactly the
    documents whose last saved lines hold that line, or with NOT exactly the
    others; an unknown collection is refused. Lines are distinct unless values
    are trimmed or keys hold colons. *)
Theorem index_search_exact (cs : list icmd) (idx term : string) (notop : bool) :
  Forall (good_icmd conf) cs →
  str_any is_wild (unescape term) = false → valid_utf8 (unescape term) →
  ∃ i, run_icmds conf (T := T) Initialize cs = Ok i ∧
  match abs_icmds conf cs !! idx with
  | None => Search i idx term notop = Err (unknown_index idx)
  | Some docs =>
      ∃ r, Search i idx term notop = Ok r ∧
      ∀ k, is_Some (r !! k) ↔
        ∃ lines, docs !! k = Some lines ∧ bool_decide (unescape term ∈ lines) = negb notop
  end.
Proof.
  intros Hg Hw Hv.
  destruct (run_icmds_represents conf abs_defaults Initialize cs (represents_defaults _) Hg)
    as (i & Hi & Hr). exists i. split; [done|]. fold (abs_icmds conf cs) in Hr.
  pose proof (Hr idx) as Hidx. unfold Search.
  destruct (abs_icmds conf cs !! idx) as [docs|], (idxmap i !! idx) as [ic|];
    inversion Hidx as [? ? Hc|]; subst; [|done].
  rewrite bool_decide_false by (intros ->; by vm_compute in Hw).
  destruct (search_list_ok (λ d, xorb notop <$> Examine d (unescape term))
    (λ k d, xorb notop (bool_decide (unescape term ∈ default [] (docs !! k)))) ic) as (r & Hsr & Hin).
  { intros k d Hd. pose proof (Hc k) as Hk. rewrite Hd in Hk. inversion Hk as [ls ? Hls Hls'|]; subst.
    simpl. by rewrite (examine_exact ls d (unescape term)). }
  exists r. split; [exact Hsr|]. intros k. split.
  - intros [d Hd]. apply Hin in Hd as [Hd Hb]. pose proof (Hc k) as Hk. rewrite Hd in Hk.
    inversion Hk as [ls ? Hls Hls' Heq|]; subst. exists ls. split; [done|].
    rewrite <-Hls' in Hb. simpl in Hb. by destruct notop, (bool_decide (unescape term ∈ ls)).
  - intros (ls & Hls & Hb). pose proof (Hc k) as Hk. rewrite Hls in Hk.
    inversion Hk as [? d Hd Heq Heq'|]; subst. exists d. apply Hin. split; [done|].
    rewrite Hls. simpl. rewrite Hb. by destruct notop.
Qed.

(** A range search over a collection finds exactly the documents that have,
    under the field, a value within the bounds that no shorter value of the
    field is a prefix of: the library's listing of values stops at the first
    word it meets. *)
Theorem index_range_exact (cs : list icmd) (idx field start end_ : string) (inclusive negated : bool) docs :
  Forall (good_icmd conf) cs → abs_icmds conf cs !! idx = Some docs →
  valid_utf8 (field +:+ ":") → ¬ (start = "*" ∧ end_ = "*") →
  ∃ i r, run_icmds conf (T := T) Initialize cs = Ok i ∧
  SearchRange i idx field start end_ inclusive negated = Ok r ∧
  ∀ k, is_Some (r !! k) ↔ ∃ lines c, docs !! k = Some lines ∧
    next_word lines (field +:+ ":") c ∧ in_bounds start end_ inclusive negated c = true.
Proof.
  intros Hg Hdocs Hv Hb.
  destruct (run_icmds_represents conf abs_defaults Initialize cs (represents_defaults _) Hg)
    as (i & Hi & Hr). exists i. fold (abs_icmds conf cs) in Hr.
  pose proof (Hr idx) as Hidx. rewrite Hdocs in Hidx. unfold SearchRange.
  destruct (idxmap i !! idx) as [ic|]; inversion Hidx as [? ? Hc|]; subst.
  set (ok d := match RangeSearch d field start end_ inclusive negated with Ok b => b | _ => false end).
  assert (∀ k d, ic !! k = Some d → RangeSearch d field start end_ inclusive negated = Ok (ok d) ∧
    ∃ ls, docs !! k = Some ls ∧ (ok d = true ↔
      ∃ c, next_word ls (field +:+ ":") c ∧ in_bounds start end_ inclusive negated c = true)) as Hok.
  { intros k d Hd. pose proof (Hc k) as Hk. rewrite Hd in Hk. inversion Hk as [ls ? Hls Hls'|]; subst.
    destruct (range_search_next ls d field start end_ inclusive negated Hls Hv Hb) as (b & Hb1 & Hb2).
    unfold ok. rewrite Hb1. eauto. }
  destruct (search_list_ok (λ d, RangeSearch d field start end_ inclusive negated) (λ _ d, ok d) ic)
    as (r & Hsr & Hin); [intros k d Hd; by apply (Hok k)|].
  exists r. split_and!; [done|done|]. intros k. split.
  - intros [d Hd]. apply Hin in Hd as [Hd Hd']. destruct (Hok k d Hd) as (_ & ls & Hls & Hiff).
    destruct (proj1 Hiff Hd') as (c & ? & ?). eauto.
  - intros (ls & c & Hls & Hn & Hbd). pose proof (Hc k) as Hk. rewrite Hls in Hk.
    inversion Hk as [? d Hd Heq Heq'|]; subst. symmetry in Heq'. destruct (Hok k d Heq') as (_ & ls' & Hls' & Hiff).
    exists d. apply Hin. split; [done|]. apply Hiff. rewrite Hls in Hls'. injection Hls' as <-. eauto.
Qed.
End properties.

(** * A trie kept as its list of words *)

Fixpoint strip (p s : string) : option string :=
  match p, s with
  | EmptyString, _ => Some s
  | String a p, String b s => if bool_decide (a = b) then strip p s else None
  | String _ _, EmptyString => None
  end.

Lemma strip_Some p s c : strip p s = Some c ↔ s = p +:+ c.
Proof.
  revert s. induction p as [|a p IH]; intros s; simpl; [naive_solver|].
  destruct s as [|b s]; [done|]. case_bool_decide as E.
  - subst. rewrite IH. rewrite str_app_cons. naive_solver.
  - rewrite str_app_cons. naive_solver.
Qed.

Definition proper_prefix (c' c : string) : bool :=
  match strip c' c with Some (String _ _) => true | _ => false end.

#[local] Instance words_trie : TrieOps (list string) := {|
  Create ws := match ws with [] => None | _ => Some ws end;
  Accepts ws w := bool_decide (w ∈ ws);
  HasPrefix ws p := match omap (strip p) ws with [] => None | l => Some l end;
  ChildKeys ws :=
    filter (λ c, c ≠ EmptyString ∧ existsb (λ c', proper_prefix c' c) ws = false) ws;
|}.

#[local] Instance words_trie_laws : TrieLaws (list string).
Proof.
  split.
  - intros ws [_ _ Hne _]. destruct ws; [done|]. by eexists.
  - intros ws t w _ Ht _. simpl in Ht. by destruct ws; simplify_eq.
  - intros ws t p _ Ht _. assert (t = ws) as -> by (simpl in Ht; by destruct ws; simplify_eq).
    assert (∀ c, c ∈ omap (strip p) ws ↔ p +:+ c ∈ ws) as Hc.
    { intros c. rewrite list_elem_of_omap. setoid_rewrite strip_Some. naive_solver. }
    simpl. destruct (omap (strip p) ws) as [|x l] eqn:E.
    + intros c Hin. apply Hc in Hin. by apply not_elem_of_nil in Hin.
    + rewrite <-E in *. clear E. intros c. simpl. rewrite list_elem_of_filter, Hc. unfold next_word.
      assert (existsb (λ c', proper_prefix c' c) (omap (strip p) ws) = false ↔
        ∀ c' d, c = c' +:+ d → d ≠ EmptyString → p +:+ c' ∉ ws) as ->; [|naive_solver].
      rewrite <-not_true_iff_false, existsb_exists. setoid_rewrite <-list_elem_of_In. setoid_rewrite Hc.
      unfold proper_prefix. split.
      * intros Hn c' d -> Hd Hin. apply Hn. exists c'. split; [done|].
        rewrite (proj2 (strip_Some c' _ d) eq_refl). by destruct d.
      * intros Hn (c' & Hin & Hs). destruct (strip c' c) as [[|a d]|] eqn:Es; [done| |done].
        apply strip_Some in Es. by eapply (Hn c' (String a d)).
Qed.

(** Two roles saved and one of them deleted again. *)
#[local] Instance no_regexp : Regexp := λ _, None.

Definition demo_item (name : string) (roles : list string) : Indexable := {|
  DocID := name; Index := "node";
  Flatten := FlattenObj default_conf [("name", IStr name); ("role", IStrs roles)] |}.

Definition demo_icmds : list icmd :=
  [CSave (demo_item "n1" ["web"; "web1"]); CSave (demo_item "n2" ["db"]); CDelete "node" "n2";
   CSave (demo_item "n3" ["web1"])].

Lemma good_words_check ws :
  bool_decide (ws = sort_strings ws ∧ NoDup ws ∧ ws ≠ [] ∧
    Forall (λ w, w ≠ EmptyString ∧ str_join EmptyString (runes w) = w) ws) = true → good_words ws.
Proof.
  intros (Hs & ? & ? & ?)%bool_decide_eq_true. split; [|done..]. rewrite Hs. apply sort_strings_sorted.
Qed.

Lemma demo_icmds_good : Forall (good_icmd default_conf) demo_icmds.
Proof.
  repeat constructor; (eexists; split; [vm_compute; reflexivity|apply good_words_check; vm_compute; reflexivity]).
Qed.

Lemma index_search_exact_witness :
  ∃ i r, run_icmds default_conf (T := list string) Initialize demo_icmds = Ok i ∧
    Search i "node" "role:web1" false = Ok r ∧ is_Some (r !! "n1") ∧ r !! "n2" = None ∧ is_Some (r !! "n3").
Proof.
  destruct (index_search_exact default_conf (T := list string) demo_icmds "node" "role:web1" false)
    as (i & Hi & Hs); [apply demo_icmds_good|reflexivity|reflexivity|].
  exists i. destruct (abs_icmds default_conf demo_icmds !! "node") as [docs|] eqn:Ed.
  - destruct Hs as (r & Hr & Hk). exists r. vm_compute in Ed. injection Ed as <-. split_and!; [done..| | |].
    + apply Hk. eexists. split; [vm_compute; reflexivity|]. vm_compute. reflexivity.
    + destruct (r !! "n2") as [d|] eqn:E; [|done]. exfalso.
      destruct (proj1 (Hk "n2")) as (ls & Hls & _); [by rewrite E; eexists|]. vm_compute in Hls. discriminate.
    + apply Hk. eexists. split; [vm_compute; reflexivity|]. vm_compute. reflexivity.
  - vm_compute in Ed. discriminate.
Defined.

(** "n1" has the role "web1" and is not found by a range around it, since it
    has the role "web" too. *)
Lemma index_range_exact_witness :
  ∃ i r, run_icmds default_conf (T := list string) Initialize demo_icmds = Ok i ∧
    SearchRange i "node" "role" "web1" "web2" true false = Ok r ∧
    is_Some (r !! "n3") ∧ r !! "n1" = None.
Proof.
  destruct (abs_icmds default_conf demo_icmds !! "node") as [docs|] eqn:Ed; [|vm_compute in Ed; discriminate].
  destruct (index_range_exact default_conf (T := list string) demo_icmds "node" "role" "web1" "web2" true false docs)
    as (i & r & Hi & Hs & Hk); [apply demo_icmds_good|done|reflexivity|by intros [[=] _]|].
  vm_compute in Ed. injection Ed as <-. exists i, r. split_and!; [done|done| |].
  - apply Hk. eexists _, "web1". split; [vm_compute; reflexivity|]. split; [|vm_compute; reflexivity].
    split_and!; [apply (bool_decide_eq_true_1 (_ ∈ _)); vm_compute; reflexivity|done|]. intros c' d Hd Hne Hin.
    rewrite !elem_of_cons in Hin. destruct Hin as [Hin|[Hin|Hin]]; [discriminate| |by apply not_elem_of_nil in Hin].
    injection Hin as Hin. change (c' = "web1") in Hin. subst c'. by destruct d.
  - destruct (r !! "n1") as [d|] eqn:E; [|done]. exfalso.
    destruct (proj1 (Hk "n1")) as (ls & c & Hls & (Hin & _ & Hn) & Hb); [by rewrite E; eexists|].
    vm_compute in Hls. injection Hls as <-. rewrite !elem_of_cons in Hin.
    destruct Hin as [Hin|[Hin|[Hin|Hin]]]; [discriminate| | |by apply not_elem_of_nil in Hin];
      injection Hin as Hin; [change (c = "web") in Hin|change (c = "web1") in Hin]; subst c; [by vm_compute in Hb|].
    apply (Hn "web" "1" eq_refl); [done|].
    apply (bool_decide_eq_true_1 (_ ∈ _)). vm_compute. reflexivity.
Defined.

(** Duplicates are removed before values are cut: with index-val-trim 1 the
    values "ab" and "ac" give the same line twice. *)
Definition trimming_conf : Conf := {|
  UseSSL := false; HTTPSUrls := false; ProxyHostname := "localhost"; ProxyPort := 4545;
  UsePostgreSQL := false; DotSearch := false; ConvertSearch := false; IndexValTrim := 1;
  UseAuth := false; LogEvents := false; SkipLogExtended := false;
  TimeSlewDur := 900000000000; JSONReqMaxSize := 1000000; ObjMaxSize := 10485760; DisableWebUI := false; UseShovey := false |}.

Example trimming_repeats_lines :
  Indexify trimming_conf [("k", IStrs ["ab"; "ac"])] = Ok ["k:a"; "k:a"] ∧ ¬ good_words ["k:a"; "k:a"].
Proof.
  split; [vm_compute; reflexivity|]. intros [_ Hn _ _]. apply NoDup_cons in Hn as [Hn _]. apply Hn. left.
Qed.
