(* ===== verification/Query.v ===== *)
(** Parsed search queries (src/search/parse.go): the chain of query links the
    parser's actions build, and how one link searches the index. *)
From S2P Require Import Prelude Gerror Iface Config UtilStrings Flatten FileIndex.

(** * Data *)

Inductive Op : Set :=
| OpNotAnOp | OpUnaryNot | OpUnaryReq | OpUnaryPro | OpBinAnd | OpBinOr | OpBoost | OpFuzzy
| OpStartGroup | OpEndGroup | OpStartIncl | OpEndIncl | OpStartExcl | OpEndExcl.

#[export] Instance Op_eq_dec : EqDecision Op.
Proof. solve_decision. Defined.

Record QueryTerm : Type := { qt_term : string; qt_mod : Op }.

Record BasicQuery : Type := { bq_field : string; bq_term : QueryTerm; bq_op : Op; bq_complete : bool }.

Record GroupedQuery : Type :=
  { gq_field : string; gq_terms : list QueryTerm; gq_op : Op; gq_complete : bool }.

Record RangeQuery : Type :=
  { rq_field : string; rq_start : string; rq_end : string; rq_inclusive : bool; rq_op : Op;
    rq_complete : bool; rq_negated : bool }.

Record SubQuery : Type := { sq_start : bool; sq_end : bool; sq_op : Op; sq_complete : bool }.

Record NotQuery : Type := { nq_op : Op }.

(** The implementations of the interface [Queryable].  The links [next] and
    [prev] are the neighbours in the chain. *)
Inductive Queryable : Type :=
| QBasic (q : BasicQuery)
| QGrouped (q : GroupedQuery)
| QRange (q : RangeQuery)
| QSub (q : SubQuery)
| QNot (q : NotQuery).

(** * The methods of a link *)

Section links.
  Context (conf : Conf) (uniLN : string → bool).

Definition q_op (q : Queryable) : Op :=
  match q with
  | QBasic q => bq_op q | QGrouped q => gq_op q | QRange q => rq_op q
  | QSub q => sq_op q | QNot q => nq_op q
  end.

Definition AddOp (o : Op) (q : Queryable) : Queryable :=
  match q with
  | QBasic q => QBasic {| bq_field := bq_field q; bq_term := bq_term q; bq_op := o;
                          bq_complete := bq_complete q |}
  | QGrouped q => QGrouped {| gq_field := gq_field q; gq_terms := gq_terms q; gq_op := o;
                              gq_complete := gq_complete q |}
  | QRange q => QRange {| rq_field := rq_field q; rq_start := rq_start q; rq_end := rq_end q;
                          rq_inclusive := rq_inclusive q; rq_op := o; rq_complete := rq_complete q;
                          rq_negated := rq_negated q |}
  | QSub q => QSub {| sq_start := sq_start q; sq_end := sq_end q; sq_op := o;
                      sq_complete := sq_complete q |}
  | QNot _ => QNot {| nq_op := o |}
  end.

Definition conv_field (s : string) : string :=
  if ConvertSearch conf then PgSearchQueryKey conf uniLN s else s.

Definition AddField (s : string) (q : Queryable) : Queryable :=
  match q with
  | QBasic q => QBasic {| bq_field := conv_field s; bq_term := bq_term q; bq_op := bq_op q;
                          bq_complete := bq_complete q |}
  | QGrouped q => QGrouped {| gq_field := conv_field s; gq_terms := gq_terms q; gq_op := gq_op q;
                              gq_complete := gq_complete q |}
  | QRange q => QRange {| rq_field := conv_field s; rq_start := rq_start q; rq_end := rq_end q;
                          rq_inclusive := rq_inclusive q; rq_op := rq_op q; rq_complete := rq_complete q;
                          rq_negated := rq_negated q |}
  | _ => q
  end.

Definition AddTermOp (o : Op) (q : Queryable) : Queryable :=
  match q with
  | QBasic q => QBasic {| bq_field := bq_field q;
                          bq_term := {| qt_term := qt_term (bq_term q); qt_mod := o |};
                          bq_op := bq_op q; bq_complete := bq_complete q |}
  | QGrouped q => QGrouped {| gq_field := gq_field q;
                              gq_terms := gq_terms q ++ [{| qt_term := EmptyString; qt_mod := o |}];
                              gq_op := gq_op q; gq_complete := gq_complete q |}
  | _ => q
  end.

(** The operator before a link negates it. *)
Definition negating (o : Op) : bool :=
  bool_decide (o = OpUnaryNot) || bool_decide (o = OpUnaryPro).

Definition prev_negates (prev : option Queryable) : bool :=
  match prev with Some p => negating (q_op p) | None => false end.

(** The terms of a group: the last one is filled when an operator made it. *)
Fixpoint add_group_term (s : string) (ts : list QueryTerm) : list QueryTerm :=
  match ts with
  | [] => [{| qt_term := s; qt_mod := OpNotAnOp |}]
  | [t] => if bool_decide (qt_term t = EmptyString)
           then [{| qt_term := s; qt_mod := qt_mod t |}]
           else [t; {| qt_term := s; qt_mod := OpNotAnOp |}]
  | t :: ts => t :: add_group_term s ts
  end.

Definition AddTerm (prev : option Queryable) (s : string) (q : Queryable) : Queryable :=
  match q with
  | QBasic q =>
      let m := match prev with
               | Some p => if negating (q_op p) then q_op p else qt_mod (bq_term q)
               | None => qt_mod (bq_term q)
               end in
      QBasic {| bq_field := bq_field q; bq_term := {| qt_term := s; qt_mod := m |};
                bq_op := bq_op q; bq_complete := true |}
  | QGrouped q =>
      QGrouped {| gq_field := gq_field q; gq_terms := add_group_term s (gq_terms q); gq_op := gq_op q;
                  gq_complete := gq_complete q |}
  | QRange q =>
      let first := bool_decide (rq_start q = EmptyString) in
      QRange {| rq_field := rq_field q; rq_start := if first then s else rq_start q;
                rq_end := if first then rq_end q else s; rq_inclusive := rq_inclusive q;
                rq_op := rq_op q; rq_complete := true; rq_negated := rq_negated q |}
  | _ => q
  end.

Definition IsIncomplete (q : Queryable) : bool :=
  match q with
  | QBasic q => negb (bq_complete q)
  | QGrouped q => negb (gq_complete q)
  | QRange q => bool_decide (rq_start q = EmptyString) || bool_decide (rq_end q = EmptyString)
  | QSub q => negb (sq_complete q)
  | QNot _ => false
  end.

Definition q_SetCompleted (q : Queryable) : Queryable :=
  match q with
  | QBasic q => QBasic {| bq_field := bq_field q; bq_term := bq_term q; bq_op := bq_op q;
                          bq_complete := true |}
  | QGrouped q => QGrouped {| gq_field := gq_field q; gq_terms := gq_terms q; gq_op := gq_op q;
                              gq_complete := true |}
  | QRange q => QRange {| rq_field := rq_field q; rq_start := rq_start q; rq_end := rq_end q;
                          rq_inclusive := rq_inclusive q; rq_op := rq_op q; rq_complete := true;
                          rq_negated := rq_negated q |}
  | QSub q => QSub {| sq_start := sq_start q; sq_end := sq_end q; sq_op := sq_op q;
                      sq_complete := true |}
  | QNot q => QNot q
  end.

(** * The token under construction *)

(** The links in the order they were made: every new link is linked behind the
    latest one.  [QueryChain] is the position of the first link that a start
    action made. *)
Record Token : Type := { links : list Queryable; QueryChain : option nat }.

Definition empty_token : Token := {| links := []; QueryChain := None |}.

Definition Latest (z : Token) : option Queryable := last (links z).

(** The link before the latest one. *)
Definition latest_prev (z : Token) : option Queryable := last (take (length (links z) - 1) (links z)).

(** A call on [z.Latest], which panics when there is none. *)
Definition on_latest (f : Queryable → Queryable) (z : Token) : outcome Token :=
  match Latest z with
  | None => Panic NilDeref
  | Some q => Ok {| links := take (length (links z) - 1) (links z) ++ [f q];
                    QueryChain := QueryChain z |}
  end.

Definition push (q : Queryable) (z : Token) : Token :=
  {| links := links z ++ [q];
     QueryChain := match QueryChain z with None => Some (length (links z)) | c => c end |}.

(** A new link is due: there is none yet, or the latest one is complete. *)
Definition may_start (z : Token) : bool :=
  match Latest z with None => true | Some q => negb (IsIncomplete q) end.

Definition new_basic : Queryable :=
  QBasic {| bq_field := EmptyString; bq_term := {| qt_term := EmptyString; qt_mod := OpNotAnOp |};
            bq_op := OpBinOr; bq_complete := false |}.

Definition StartBasic (z : Token) : Token := if may_start z then push new_basic z else z.

Definition StartRange (inclusive : bool) (z : Token) : Token :=
  let rn (op : Op) (negated : bool) :=
    QRange {| rq_field := EmptyString; rq_start := EmptyString; rq_end := EmptyString;
              rq_inclusive := inclusive; rq_op := op; rq_complete := false; rq_negated := negated |} in
  push (match Latest z with
        | None => rn OpBinOr false
        | Some q => rn (match latest_prev z with Some p => q_op p | None => OpNotAnOp end)
                       (bool_decide (q_op q = OpUnaryNot))
        end) z.

Definition StartGrouped (z : Token) : Token :=
  if may_start z
  then push (QGrouped {| gq_field := EmptyString; gq_terms := []; gq_op := OpBinOr;
                         gq_complete := false |}) z
  else z.

Definition StartSubQuery (z : Token) : Token :=
  if may_start z
  then push (QSub {| sq_start := true; sq_end := false; sq_op := OpNotAnOp; sq_complete := true |}) z
  else z.

(** The end marker never starts the chain. *)
Definition EndSubQuery (z : Token) : Token :=
  if may_start z
  then {| links := links z ++
            [QSub {| sq_start := false; sq_end := true; sq_op := OpNotAnOp; sq_complete := true |}];
          QueryChain := QueryChain z |}
  else z.

Definition SetNotQuery (op : Op) (z : Token) : Token := push (QNot {| nq_op := op |}) z.

(** The parser's actions. *)
Inductive action : Type :=
| AAddOp (o : Op)
| AAddField (s : string)
| AAddTerm (s : string)
| AAddTermOp (o : Op)
| AAddRange (s : string)
| AStartBasic
| AStartRange (inclusive : bool)
| AStartGrouped
| ASetCompleted
| AStartSubQuery
| AEndSubQuery
| ASetNotQuery (o : Op).

Definition apply_action (a : action) (z : Token) : outcome Token :=
  match a with
  | AAddOp o => on_latest (AddOp o) z
  | AAddField s => on_latest (AddField s) z
  | AAddTerm s => let z := StartBasic z in on_latest (AddTerm (latest_prev z) s) z
  | AAddTermOp o => on_latest (AddTermOp o) (StartBasic z)
  | AAddRange s => on_latest (AddTerm (latest_prev z) s) z
  | AStartBasic => Ok (StartBasic z)
  | AStartRange inclusive => Ok (StartRange inclusive z)
  | AStartGrouped => Ok (StartGrouped z)
  | ASetCompleted => on_latest q_SetCompleted z
  | AStartSubQuery => Ok (StartSubQuery z)
  | AEndSubQuery => Ok (EndSubQuery z)
  | ASetNotQuery o => Ok (SetNotQuery o z)
  end.

Fixpoint apply_actions (l : list action) (z : Token) : outcome Token :=
  match l with [] => Ok z | a :: l => z ← apply_action a z; apply_actions l z end.

(** The chain to execute. *)
Definition Evaluate (z : Token) : list Queryable :=
  match QueryChain z with Some n => drop n (links z) | None => [] end.

Definition makeSearchTerm (field term : string) : string := str_join ":" [field; term].

(** * Searching with one link *)

Context {T : Type} {TO : TrieOps T} {RE : Regexp}.

Abbreviation docs := (gmap string (IdxDoc T)).

Fixpoint group_results (search : string → bool → outcome docs) (field : string) (ts : list QueryTerm)
    : outcome (list (Op * docs)) :=
  match ts with
  | [] => Ok []
  | v :: ts =>
      r ← search (makeSearchTerm field (qt_term v)) (negating (qt_mod v));
      rs ← group_results search field ts; Ok ((qt_mod v, r) :: rs)
  end.

(** The results gathered, whether a required term was met, and the documents
    all required terms have. *)
Fixpoint merge_loop (tmpRes : list (Op * docs)) (reqOp : bool) (res : docs) (req : option docs)
    : docs * option docs :=
  match tmpRes with
  | [] => (res, req)
  | (op, r) :: l =>
      if bool_decide (op = OpUnaryReq) then
        merge_loop l true res
          (Some (match req with None => r | Some req => filter (λ kv, is_Some (r !! kv.1)) req end))
      else merge_loop l reqOp (if reqOp then res else r ∪ res) req
  end.

(** What is required is computed and not returned. *)
Definition mergeResults (tmpRes : list (Op * docs)) : docs := (merge_loop tmpRes false ∅ None).1.

Definition SearchIndex (i : FileIndex T) (prev : option Queryable) (q : Queryable) (idxName : string)
    : outcome docs :=
  match q with
  | QBasic q =>
      if bool_decide (bq_field q = EmptyString)
      then SearchText i idxName (qt_term (bq_term q)) (prev_negates prev)
      else Search i idxName (makeSearchTerm (bq_field q) (qt_term (bq_term q))) (prev_negates prev)
  | QGrouped q =>
      mergeResults <$> group_results (Search i idxName) (gq_field q) (gq_terms q)
  | QRange q =>
      SearchRange i idxName (rq_field q) (rq_start q) (rq_end q) (rq_inclusive q) (rq_negated q)
  | QSub _ | QNot _ => Ok ∅
  end.

Definition q_SearchResults (prev : option Queryable) (q : Queryable) (curRes : docs) : outcome docs :=
  match q with
  | QBasic q =>
      SearchResults (makeSearchTerm (bq_field q) (qt_term (bq_term q))) (prev_negates prev) curRes
  | QGrouped q =>
      mergeResults <$> group_results (λ t n, SearchResults t n curRes) (gq_field q) (gq_terms q)
  | QRange q =>
      SearchResultsRange (rq_field q) (rq_start q) (rq_end q) (rq_inclusive q) (rq_negated q) curRes
  | QSub _ | QNot _ => Ok ∅
  end.

(** * Executing a chain *)

(** [extractSubQuery], from the links behind a marker: the chain of the sub
    query, its end marker, and what follows.  A sub query without links starts
    at its own end marker, from which nothing is snipped off. *)
Fixpoint sub_chain (n : nat) (acc : list Queryable) (l : list Queryable)
    : outcome (list Queryable * Queryable * list Queryable) :=
  match l with
  | [] => Err (New "Yikes! Somehow we weren't able to finish the subquery.")
  | s :: r =>
      let n := match s with
               | QSub q => if sq_start q then S n else pred n
               | _ => n
               end in
      match n with
      | O => Ok (match acc with [] => l | _ => rev acc end, s, r)
      | S _ => sub_chain n (s :: acc) r
      end
  end.

Definition extractSubQuery (l : list Queryable) : outcome (list Queryable * Queryable * list Queryable) :=
  match l with [] => Panic NilDeref | _ => sub_chain 1 [] l end.

Definition merge_docs (curOp : Op) (d r : docs) : docs :=
  if bool_decide (d = ∅) || bool_decide (curOp = OpBinAnd) then r
  else if bool_decide (curOp = OpBinOr) then r ∪ d
  else d.

(** [SolrQuery.execute]; [prev] is the link before the chain. *)
Fixpoint execute (fuel : nat) (i : FileIndex T) (idxName : string) (chain : list Queryable)
    (prev : option Queryable) (curOp : Op) (d : docs) : outcome docs :=
  match fuel, chain with
  | _, [] => Ok d
  | O, _ => Panic StackOverflow
  | S fuel, s :: rest =>
      match s with
      | QSub _ =>
          sub ← extractSubQuery rest;
          let '(newq, nend, rest') := sub in
          let d0 := if bool_decide (curOp = OpBinAnd) then d else ∅ in
          r ← execute fuel i idxName newq (Some s) curOp d0;
          execute fuel i idxName rest' (Some nend) (q_op nend) (merge_docs curOp d r)
      | QNot _ => execute fuel i idxName rest (Some s) curOp d
      | _ =>
          r ← (if bool_decide (curOp = OpBinAnd) then q_SearchResults prev s d
               else SearchIndex i prev s idxName);
          execute fuel i idxName rest (Some s) (q_op s) (merge_docs curOp d r)
      end
  end.

Definition run_query (i : FileIndex T) (idxName : string) (chain : list Queryable) : outcome docs :=
  execute (S (length chain)) i idxName chain None OpNotAnOp ∅.
End links.

(** * Termination *)

Section termination.
  Context {T : Type} {TO : TrieOps T} {RE : Regexp}.
  Implicit Types (i : FileIndex T) (d : gmap string (IdxDoc T)).

Lemma sub_chain_length n acc l newq nend r :
  sub_chain n acc l = Ok (newq, nend, r) → length newq ≤ length acc + length l ∧ length r < length l.
Proof.
  revert n acc. induction l as [|s l IH]; intros n acc; simpl; [done|].
  set (n' := match s with QSub q => _ | _ => n end). destruct n' as [|n'].
  - intros [= <- <- <-]. destruct acc; simpl; [lia|]. rewrite length_app, length_rev. simpl. lia.
  - intros [? ?]%IH. simpl in *. lia.
Qed.

Lemma sub_chain_no_panic n acc l p : sub_chain n acc l ≠ Panic p.
Proof.
  revert n acc. induction l as [|s l IH]; intros n acc; simpl; [done|].
  destruct (match s with QSub q => if sq_start q then S n else pred n | _ => n end); [done|]. apply IH.
Qed.

Lemma extract_length l newq nend r :
  extractSubQuery l = Ok (newq, nend, r) → length newq ≤ length l ∧ length r < length l.
Proof. unfold extractSubQuery. destruct l; [done|]. intros H%sub_chain_length. simpl in *. lia. Qed.

(** Beyond the length of the chain, more fuel changes nothing. *)
Lemma execute_fuel fuel fuel' i idx chain prev curOp d :
  length chain ≤ fuel → length chain ≤ fuel' →
  execute fuel i idx chain prev curOp d = execute fuel' i idx chain prev curOp d.
Proof.
  revert fuel' chain prev curOp d.
  induction fuel as [|fuel IH]; intros fuel' chain prev curOp d Hf Hf'.
  { destruct chain; simpl in *; [by destruct fuel'|lia]. }
  destruct chain as [|s rest]; [by destruct fuel'|].
  destruct fuel' as [|fuel']; [simpl in *; lia|]. cbn [length] in Hf, Hf'. cbn [execute].
  assert (∀ p o d', execute fuel i idx rest p o d' = execute fuel' i idx rest p o d') as Hrest
    by (intros; apply IH; lia).
  destruct s as [q|q|q|q|q]; try apply Hrest;
    try (destruct (if bool_decide (curOp = OpBinAnd) then _ else _) as [r| |]; simpl; [apply Hrest|done..]).
  destruct (extractSubQuery rest) as [[[newq nend] rest']| |] eqn:E; [|done..].
  apply extract_length in E as [H1 H2]. simpl.
  rewrite (IH fuel' newq) by lia.
  destruct (execute fuel' i idx newq _ _ _) as [r| |]; simpl; [|done..].
  apply IH; lia.
Qed.

(** No search of a link overflows the stack. *)
Definition no_overflow {A} (m : outcome A) : Prop := m ≠ Panic StackOverflow.

Lemma bind_no_overflow {A B} (m : outcome A) (f : A → outcome B) :
  no_overflow m → (∀ a, no_overflow (f a)) → no_overflow (m ≫= f).
Proof. destruct m as [a| |p]; simpl; [by intros _ H; apply H|done|]. unfold no_overflow. naive_solver. Qed.

Lemma fmap_no_overflow {A B} (m : outcome A) (f : A → B) : no_overflow m → no_overflow (f <$> m).
Proof. destruct m as [a| |p]; simpl; [done|done|]. unfold no_overflow. naive_solver. Qed.

Lemma search_list_no_overflow (f : IdxDoc T → outcome bool) l :
  (∀ x, no_overflow (f x)) → no_overflow (search_list f l).
Proof.
  intros Hf. induction l as [|[k v] l IH]; simpl; [done|].
  apply bind_no_overflow; [done|]. intros b. by apply bind_no_overflow.
Qed.

Lemma Examine_no_overflow (x : IdxDoc T) term : no_overflow (Examine x term).
Proof.
  unfold Examine, regexSearch, exactSearch. case_match.
  - destruct (split_term term) as [[k re]|]; [|done]. case_match; [|done].
    apply bind_no_overflow; [by destruct (trie x)|done].
  - apply bind_no_overflow; [by destruct (trie x)|done].
Qed.

Lemma TextSearch_no_overflow (x : IdxDoc T) term : no_overflow (TextSearch x term).
Proof.
  unfold TextSearch. destruct term as [|c r]; [done|]. case_match; [done|].
  case_match; [|done]. apply bind_no_overflow; [by destruct (docText x)|done].
Qed.

Lemma searchCollection_no_overflow d term notop : no_overflow (searchCollection d term notop).
Proof. apply search_list_no_overflow. intros x. apply fmap_no_overflow, Examine_no_overflow. Qed.

Lemma searchRange_no_overflow d f s e a b : no_overflow (searchRange d f s e a b).
Proof.
  apply search_list_no_overflow. intros x. unfold RangeSearch. case_match; [done|].
  apply bind_no_overflow; [by destruct (trie x)|done].
Qed.

Lemma group_results_no_overflow (search : string → bool → outcome (gmap string (IdxDoc T))) f ts :
  (∀ t n, no_overflow (search t n)) → no_overflow (group_results search f ts).
Proof.
  intros Hs. induction ts as [|v ts IH]; simpl; [done|].
  apply bind_no_overflow; [done|]. intros r. by apply bind_no_overflow.
Qed.

Lemma Search_no_overflow i idx term notop : no_overflow (Search i idx term notop).
Proof. unfold Search. repeat case_match; try done. apply searchCollection_no_overflow. Qed.

Lemma SearchResults_no_overflow term notop d : no_overflow (SearchResults term notop d).
Proof. unfold SearchResults. case_match; [done|]. apply searchCollection_no_overflow. Qed.

Lemma link_no_overflow i prev q idx d :
  no_overflow (SearchIndex i prev q idx) ∧ no_overflow (q_SearchResults prev q d).
Proof.
  split; destruct q as [q|q|q|q|q]; simpl; try done.
  - case_match; [|apply Search_no_overflow]. unfold SearchText. case_match; [|done].
    apply search_list_no_overflow. intros x. apply fmap_no_overflow, TextSearch_no_overflow.
  - apply fmap_no_overflow, group_results_no_overflow. intros. apply Search_no_overflow.
  - unfold SearchRange. case_match; [|done]. apply searchRange_no_overflow.
  - apply SearchResults_no_overflow.
  - apply fmap_no_overflow, group_results_no_overflow. intros. apply SearchResults_no_overflow.
  - apply searchRange_no_overflow.
Qed.

Lemma execute_no_overflow fuel i idx chain prev curOp d :
  length chain ≤ fuel → no_overflow (execute fuel i idx chain prev curOp d).
Proof.
  revert chain prev curOp d. induction fuel as [|fuel IH]; intros chain prev curOp d Hf.
  { by destruct chain; simpl in *; [|lia]. }
  destruct chain as [|s rest]; [done|]. cbn [length] in Hf. cbn [execute].
  assert (∀ p o d', no_overflow (execute fuel i idx rest p o d')) as Hrest by (intros; apply IH; lia).
  destruct s as [q|q|q|q|q]; try apply Hrest;
    try (apply bind_no_overflow; [|intros; apply Hrest];
         destruct (bool_decide (curOp = OpBinAnd));
         [apply (proj2 (link_no_overflow i prev _ idx d))|apply (proj1 (link_no_overflow i prev _ idx d))]).
  destruct (extractSubQuery rest) as [[[newq nend] rest']|e|p] eqn:E.
  - apply extract_length in E as [H1 H2]. simpl.
    apply bind_no_overflow; [apply IH; lia|]. intros r. apply IH. lia.
  - done.
  - unfold extractSubQuery in E. destruct rest; [by injection E as <-|].
    by apply sub_chain_no_panic in E.
Qed.
End termination.

(** * Flat queries *)

(** A test "field:term", possibly negated, and the operator that joins it to
    the next one. *)
Record literal : Type := { l_not : bool; l_field : string; l_term : string; l_and : bool }.

Definition l_op (l : literal) : Op := if l_and l then OpBinAnd else OpBinOr.

(** The actions of the parser for it. *)
Definition lit_actions (l : literal) : list action :=
  (if l_not l then [ASetNotQuery OpUnaryNot] else []) ++
  [AStartBasic; AAddField (l_field l); AAddTerm (l_term l); AAddOp (l_op l)].

(** The line it asks for. *)
Definition lit_line (conf : Conf) (uniLN : string → bool) (l : literal) : string :=
  unescape (makeSearchTerm (conv_field conf uniLN (l_field l)) (l_term l)).

Record good_literal (conf : Conf) (uniLN : string → bool) (l : literal) : Prop := {
  gl_field : conv_field conf uniLN (l_field l) ≠ EmptyString;
  gl_wild : str_any is_wild (lit_line conf uniLN l) = false;
  gl_valid : valid_utf8 (lit_line conf uniLN l);
}.

(** The meaning: the tests joined from left to right. *)
Fixpoint eval_literals (conf : Conf) (uniLN : string → bool) (lines : list string)
    (acc and_ : bool) (ls : list literal) : bool :=
  match ls with
  | [] => acc
  | l :: ls =>
      let v := xorb (l_not l) (bool_decide (lit_line conf uniLN l ∈ lines)) in
      eval_literals conf uniLN lines (if and_ then acc && v else acc || v) (l_and l) ls
  end.

Section flat.
  Context (conf : Conf) (uniLN : string → bool).
  Context {T : Type} {TO : TrieOps T} {TL : TrieLaws T} {RE : Regexp}.
  Implicit Types (d : gmap string (IdxDoc T)).

Definition lit_basic (l : literal) : Queryable :=
  QBasic {| bq_field := conv_field conf uniLN (l_field l);
            bq_term := {| qt_term := l_term l; qt_mod := if l_not l then OpUnaryNot else OpNotAnOp |};
            bq_op := l_op l; bq_complete := true |}.

Definition lit_links (l : literal) : list Queryable :=
  (if l_not l then [QNot {| nq_op := OpUnaryNot |}] else []) ++ [lit_basic l].

(** ** The actions build the chain *)

Lemma on_latest_snoc f ls q c :
  on_latest f {| links := ls ++ [q]; QueryChain := c |} = Ok {| links := ls ++ [f q]; QueryChain := c |}.
Proof.
  unfold on_latest, Latest. simpl. rewrite last_snoc, length_app. simpl.
  rewrite Nat.add_sub, take_app_length. done.
Qed.

Lemma latest_prev_snoc ls q c :
  latest_prev {| links := ls ++ [q]; QueryChain := c |} = last ls.
Proof. unfold latest_prev. simpl. rewrite length_app. simpl. by rewrite Nat.add_sub, take_app_length. Qed.

(** A chain whose last link is complete and has a binary operator. *)
Definition chain_ok (ls : list Queryable) : Prop :=
  match last ls with
  | Some q => IsIncomplete q = false ∧ (q_op q = OpBinAnd ∨ q_op q = OpBinOr)
  | None => True
  end.

Lemma apply_actions_app l1 l2 z :
  apply_actions conf uniLN (l1 ++ l2) z = (z' ← apply_actions conf uniLN l1 z; apply_actions conf uniLN l2 z').
Proof.
  revert z. induction l1 as [|a l1 IH]; intros z; simpl; [done|].
  destruct (apply_action conf uniLN a z); simpl; [apply IH|done..].
Qed.

(** The latest link negates a test exactly when the test is negated. *)
Definition ready_for (ls : list Queryable) (l : literal) : Prop :=
  match last ls with
  | Some q => IsIncomplete q = false ∧ negating (q_op q) = l_not l ∧ (l_not l = true → q_op q = OpUnaryNot)
  | None => l_not l = false
  end.

(** Before an operator follows, a test is joined by OR. *)
Lemma test_actions ls c l :
  ready_for ls l →
  apply_actions conf uniLN [AStartBasic; AAddField (l_field l); AAddTerm (l_term l)]
    {| links := ls; QueryChain := Some c |} =
  Ok {| links := ls ++ [AddOp OpBinOr (lit_basic l)]; QueryChain := Some c |}.
Proof.
  unfold ready_for. intros Hl. cbn [apply_actions apply_action].
  assert (StartBasic {| links := ls; QueryChain := Some c |} =
    {| links := ls ++ [new_basic]; QueryChain := Some c |}) as ->.
  { unfold StartBasic, may_start, Latest. cbn [links]. destruct (last ls); [|done]. by destruct Hl as [-> _]. }
  cbn [mbind outcome_bind]. rewrite on_latest_snoc. cbn [mbind outcome_bind].
  set (q1 := AddField conf uniLN (l_field l) new_basic).
  assert (StartBasic {| links := ls ++ [q1]; QueryChain := Some c |} =
    {| links := ls ++ [q1]; QueryChain := Some c |}) as ->.
  { unfold StartBasic, may_start, Latest. cbn [links]. by rewrite last_snoc. }
  rewrite latest_prev_snoc, on_latest_snoc. cbn [mbind outcome_bind].
  unfold lit_basic. repeat f_equal. simpl. do 3 f_equal.
  destruct (last ls) as [q|]; [|by rewrite Hl]. destruct Hl as (_ & -> & Hn).
  destruct (l_not l); [by rewrite Hn|done].
Qed.

Lemma lit_basic_ok ls l : chain_ok (ls ++ [lit_basic l]).
Proof. unfold chain_ok. rewrite last_snoc. split; [done|]. simpl. unfold l_op. destruct (l_and l); auto. Qed.

(** The actions of a test, the operator behind it apart. *)
Definition open_actions (l : literal) : list action :=
  (if l_not l then [ASetNotQuery OpUnaryNot] else []) ++
  [AStartBasic; AAddField (l_field l); AAddTerm (l_term l)].

Lemma open_actions_ok ls c l :
  chain_ok ls →
  apply_actions conf uniLN (open_actions l) {| links := ls; QueryChain := Some c |} =
    Ok {| links := ls ++ (if l_not l then [QNot {| nq_op := OpUnaryNot |}] else []) ++ [AddOp OpBinOr (lit_basic l)];
          QueryChain := Some c |}.
Proof.
  intros Hok. unfold open_actions. destruct (l_not l) eqn:En.
  - rewrite apply_actions_app.
    assert (apply_actions conf uniLN [ASetNotQuery OpUnaryNot] {| links := ls; QueryChain := Some c |} =
      Ok {| links := ls ++ [QNot {| nq_op := OpUnaryNot |}]; QueryChain := Some c |}) as -> by done.
    cbn [mbind outcome_bind]. rewrite test_actions; [by rewrite <-app_assoc|].
    unfold ready_for. rewrite last_snoc. by rewrite En.
  - apply test_actions. unfold ready_for, chain_ok in *. destruct (last ls) as [q|]; [|done].
    destruct Hok as [Hc Hop]. split; [done|]. rewrite En. split; [|done]. by destruct Hop as [->| ->].
Qed.

Lemma lit_actions_ok ls c l :
  chain_ok ls →
  apply_actions conf uniLN (lit_actions l) {| links := ls; QueryChain := Some c |} =
    Ok {| links := ls ++ lit_links l; QueryChain := Some c |}.
Proof.
  intros Hok. assert (lit_actions l = open_actions l ++ [AAddOp (l_op l)]) as ->.
  { unfold lit_actions, open_actions. by rewrite <-app_assoc. }
  rewrite apply_actions_app, open_actions_ok by done. cbn [mbind outcome_bind apply_actions apply_action].
  rewrite app_assoc, on_latest_snoc. cbn [mbind outcome_bind]. unfold lit_links. by rewrite app_assoc.
Qed.

Lemma lits_actions_ok ls c lits :
  chain_ok ls →
  apply_actions conf uniLN (lits ≫= lit_actions) {| links := ls; QueryChain := Some c |} =
    Ok {| links := ls ++ (lits ≫= lit_links); QueryChain := Some c |}.
Proof.
  revert ls. induction lits as [|l lits IH]; intros ls Hok; simpl; [by rewrite app_nil_r|].
  rewrite apply_actions_app, lit_actions_ok by done. simpl. rewrite IH; [by rewrite app_assoc|].
  unfold lit_links. rewrite app_assoc. apply lit_basic_ok.
Qed.

(** The first action of a test starts the chain. *)
Lemma start_chain l acts :
  apply_actions conf uniLN (open_actions l ++ acts) empty_token =
  apply_actions conf uniLN (open_actions l ++ acts) {| links := []; QueryChain := Some 0 |}.
Proof. unfold open_actions. by destruct (l_not l). Qed.

(** The actions of a query: the last test has no operator behind it. *)
Definition flat_actions (init : list literal) (l : literal) : list action := (init ≫= lit_actions) ++ open_actions l.

Definition joined_by_or (l : literal) : literal :=
  {| l_not := l_not l; l_field := l_field l; l_term := l_term l; l_and := false |}.

Lemma literals_chain init l :
  ∃ z, apply_actions conf uniLN (flat_actions init l) empty_token = Ok z ∧
    Evaluate z = (init ++ [joined_by_or l]) ≫= lit_links.
Proof.
  assert (apply_actions conf uniLN (flat_actions init l) empty_token =
    apply_actions conf uniLN (flat_actions init l) {| links := []; QueryChain := Some 0 |}) as ->.
  { unfold flat_actions. destruct init as [|l0 init]; simpl; [by rewrite <-(app_nil_r (open_actions l)), start_chain|].
    assert (lit_actions l0 = open_actions l0 ++ [AAddOp (l_op l0)]) as ->.
    { unfold lit_actions, open_actions. by rewrite <-app_assoc. }
    rewrite <-!app_assoc. apply start_chain. }
  unfold flat_actions. rewrite apply_actions_app, lits_actions_ok by done. cbn [mbind outcome_bind].
  rewrite open_actions_ok.
  - eexists. split; [done|]. unfold Evaluate. simpl. rewrite drop_0, bind_app. simpl. by rewrite app_nil_r.
  - destruct init as [|l0 init _] using rev_ind; [done|]. rewrite bind_app. simpl. rewrite app_nil_r.
    unfold lit_links at 2. rewrite !app_assoc. apply lit_basic_ok.
Qed.

(** ** Running the chain *)

(** A set of documents found so far, given by a test on their lines. *)
Definition found (ac : gmap string (list string)) (ic d : gmap string (IdxDoc T)) (P : list string → bool) : Prop :=
  ∀ k x, d !! k = Some x ↔ ic !! k = Some x ∧ ∃ ls, ac !! k = Some ls ∧ P ls = true.

Lemma search_found ac ic d P term notop :
  coll_is ac ic → found ac ic d P → str_any is_wild term = false → valid_utf8 term →
  ∃ r, searchCollection d term notop = Ok r ∧
    found ac ic r (λ ls, P ls && xorb notop (bool_decide (term ∈ ls))).
Proof.
  intros Hc Hd Hw Hv.
  destruct (search_list_ok (λ x, xorb notop <$> Examine x term)
    (λ k _, xorb notop (bool_decide (term ∈ default [] (ac !! k)))) d) as (r & Hr & Hin).
  { intros k x Hx. apply Hd in Hx as (Hx & ls & Hls & _). pose proof (Hc k) as Hk. rewrite Hls, Hx in Hk.
    inversion Hk; subst. rewrite Hls. simpl. by rewrite (examine_exact ls x term). }
  exists r. split; [done|]. intros k x. rewrite Hin, (Hd k x). split.
  - intros ((Hx & ls & Hls & HP) & Hb). split; [done|]. exists ls. split; [done|].
    rewrite Hls in Hb. simpl in Hb. by rewrite HP, Hb.
  - intros (Hx & ls & Hls & [HP Hb]%andb_true_iff). split; [eauto|]. by rewrite Hls.
Qed.

Lemma found_all ac ic : coll_is ac ic → found ac ic ic (λ _, true).
Proof.
  intros Hc k x. split; [|by intros [? _]]. intros Hx. split; [done|].
  pose proof (Hc k) as Hk. rewrite Hx in Hk. inversion Hk. eauto.
Qed.

Lemma found_ext ac ic d P Q : found ac ic d P → (∀ ls, P ls = Q ls) → found ac ic d Q.
Proof. intros Hd HPQ k x. rewrite (Hd k x). setoid_rewrite HPQ. done. Qed.

Lemma found_merge_or ac ic d r P Q (o : Op) :
  found ac ic d P → found ac ic r Q → (o = OpBinOr ∨ d = ∅) → o ≠ OpBinAnd →
  found ac ic (merge_docs o d r) (λ ls, P ls || Q ls).
Proof.
  intros Hd Hr Ho Hna. unfold merge_docs.
  assert (found ac ic (r ∪ d) (λ ls, P ls || Q ls)) as Hu.
  { intros k x. rewrite lookup_union_Some_raw. split.
    - intros [[? (ls & ? & HQ)]%Hr|[_ [? (ls & ? & HP)]%Hd]]; (split; [done|]); exists ls;
        (split; [done|]); apply orb_true_iff; auto.
    - intros (Hx & ls & Hls & [HP|HQ]%orb_true_iff).
      + destruct (r !! k) as [y|] eqn:Ey.
        * left. pose proof Ey as Ey'. apply Hr in Ey' as [Hy _]. congruence.
        * right. split; [done|]. apply Hd. eauto.
      + left. apply Hr. eauto. }
  destruct (decide (d = ∅)) as [->|Hne].
  - rewrite bool_decide_true by done. simpl. by rewrite (right_id_L ∅ (∪)) in Hu.
  - rewrite (bool_decide_false (d = ∅)), (bool_decide_false (o = OpBinAnd)) by done. simpl.
    destruct Ho as [->|?]; [|done]. by rewrite bool_decide_true.
Qed.

Lemma lit_SearchResults prev l d :
  q_SearchResults prev (lit_basic l) d =
  SearchResults (makeSearchTerm (conv_field conf uniLN (l_field l)) (l_term l)) (prev_negates prev) d.
Proof. done. Qed.

Lemma lit_SearchIndex i prev l idx :
  conv_field conf uniLN (l_field l) ≠ EmptyString →
  SearchIndex i prev (lit_basic l) idx =
  Search i idx (makeSearchTerm (conv_field conf uniLN (l_field l)) (l_term l)) (prev_negates prev).
Proof. intros Hf. simpl. by rewrite bool_decide_false. Qed.

Lemma execute_literals ac ic i idx fuel lits prev (o : Op) d P :
  idxmap i !! idx = Some ic → coll_is ac ic → Forall (good_literal conf uniLN) lits →
  length (lits ≫= lit_links) ≤ fuel → found ac ic d P →
  (o = OpBinAnd ∨ o = OpBinOr ∨ d = ∅) → prev_negates prev = false →
  ∃ r, execute fuel i idx (lits ≫= lit_links) prev o d = Ok r ∧
    found ac ic r (λ ls, eval_literals conf uniLN ls (P ls) (bool_decide (o = OpBinAnd)) lits).
Proof.
  intros Hidx Hc Hg. revert fuel prev o d P.
  induction Hg as [|l lits [Hf Hw Hv] Hg IH]; intros fuel prev o d P Hfuel Hd Ho Hprev.
  { exists d. by destruct fuel. }
  (* the basic link, after the link that may negate it *)
  assert (∀ fuel prev', length (lits ≫= lit_links) ≤ fuel → prev_negates prev' = l_not l →
    ∃ r, execute (S fuel) i idx (lit_basic l :: (lits ≫= lit_links)) prev' o d = Ok r ∧
    found ac ic r (λ ls, eval_literals conf uniLN ls
      (if bool_decide (o = OpBinAnd) then P ls && xorb (l_not l) (bool_decide (lit_line conf uniLN l ∈ ls))
       else P ls || xorb (l_not l) (bool_decide (lit_line conf uniLN l ∈ ls))) (l_and l) lits)) as Hbasic.
  { clear Hfuel fuel. intros fuel prev' Hfuel Hp. cbn [execute lit_basic].
    assert (makeSearchTerm (conv_field conf uniLN (l_field l)) (l_term l) ≠ "*:*") as Hstar.
    { intros Hs. unfold lit_line in Hw. by rewrite Hs in Hw. }
    assert (∀ b, bool_decide (l_op l = OpBinAnd) = b → l_and l = b) as Hand.
    { intros b <-. unfold l_op. by destruct (l_and l). }
    destruct (bool_decide_reflect (o = OpBinAnd)) as [->|Eo].
    - rewrite lit_SearchResults, Hp. unfold SearchResults. rewrite bool_decide_false by done.
      destruct (search_found ac ic d P (lit_line conf uniLN l) (l_not l) Hc Hd Hw Hv) as (r & Hr & Hfr).
      fold (lit_line conf uniLN l). rewrite Hr. cbn [mbind outcome_bind].
      unfold merge_docs. rewrite (bool_decide_true (OpBinAnd = OpBinAnd)), orb_true_r by done.
      destruct (IH fuel (Some (lit_basic l)) (l_op l) r _ Hfuel Hfr) as (r' & Hr' & Hfr').
      + unfold l_op. destruct (l_and l); auto.
      + simpl. unfold l_op. by destruct (l_and l).
      + exists r'. split; [exact Hr'|]. by rewrite <-(Hand _ eq_refl) in Hfr'.
    - rewrite lit_SearchIndex, Hp by done.
      unfold Search. rewrite Hidx, bool_decide_false by done.
      destruct (search_found ac ic ic _ (lit_line conf uniLN l) (l_not l) Hc (found_all ac ic Hc) Hw Hv)
        as (r & Hr & Hfr). fold (lit_line conf uniLN l). rewrite Hr. cbn [mbind outcome_bind].
      destruct (IH fuel (Some (lit_basic l)) (l_op l) (merge_docs o d r) _ Hfuel
        (found_merge_or _ _ _ _ _ _ o Hd Hfr ltac:(naive_solver) Eo)) as (r' & Hr' & Hfr').
      + unfold l_op. destruct (l_and l); auto.
      + simpl. unfold l_op. by destruct (l_and l).
      + exists r'. split; [exact Hr'|]. by rewrite <-(Hand _ eq_refl) in Hfr'. }
  cbn [mbind list_bind] in *. unfold lit_links in *. destruct (l_not l) eqn:En; cbn [app length] in *.
  - destruct fuel as [|[|fuel]]; [lia..|]. destruct (Hbasic fuel (Some (QNot {| nq_op := OpUnaryNot |})))
      as (r & Hr & Hfr); [lia|done|]. exists r. split; [exact Hr|]. simpl. by rewrite En.
  - destruct fuel as [|fuel]; [lia|]. destruct (Hbasic fuel prev) as (r & Hr & Hfr); [lia|done|].
    exists r. split; [exact Hr|]. simpl. by rewrite En.
Qed.
End flat.

(** * Properties *)

Section properties.
  Context (conf : Conf) (uniLN : string → bool).
  Context {T : Type} {TO : TrieOps T} {RE : Regexp}.

Lemma eval_joined lines acc and_ init l :
  eval_literals conf uniLN lines acc and_ (init ++ [joined_by_or l]) =
  eval_literals conf uniLN lines acc and_ (init ++ [l]).
Proof. revert acc and_. induction init as [|l0 init IH]; intros acc and_; [done|]. apply IH. Qed.

(** The chain the parser's actions build for tests joined by AND, OR and
    NOT, run against the index, finds exactly the documents whose lines satisfy
    the tests joined from left to right. *)
Lemma flat_chain_exact {TL : TrieLaws T} i idx ic docs (init : list literal) (l : literal) :
  idxmap i !! idx = Some ic → coll_is (T := T) docs ic → Forall (good_literal conf uniLN) (init ++ [l]) →
  ∃ z r, apply_actions conf uniLN (flat_actions init l) empty_token = Ok z ∧
    run_query i idx (Evaluate z) = Ok r ∧
    ∀ k, is_Some (r !! k) ↔
      ∃ lines, docs !! k = Some lines ∧ eval_literals conf uniLN lines false false (init ++ [l]) = true.
Proof.
  intros Ei Hc Hl. assert (Forall (good_literal conf uniLN) (init ++ [joined_by_or l])) as Hl'.
  { apply Forall_app in Hl as [Hi [Hll _]%Forall_cons_1]. apply Forall_app. split; [done|].
    constructor; [|done]. by destruct Hll. }
  setoid_rewrite <-eval_joined. clear Hl. set (lits := init ++ [joined_by_or l]) in *.
  destruct (literals_chain conf uniLN init l) as (z & Hz & Hev).
  assert (found docs ic (∅ : gmap string (IdxDoc T)) (λ _, false)) as H0.
  { intros k x. rewrite lookup_empty. naive_solver. }
  destruct (execute_literals conf uniLN docs ic i idx (S (length (lits ≫= lit_links conf uniLN))) lits
    None OpNotAnOp ∅ (λ _, false) Ei Hc Hl' ltac:(lia) H0) as (r & Hrun & Hf); [auto|done|].
  exists z, r. rewrite Hev. split_and!; [done..|]. intros k. split.
  - intros [x Hx]. apply Hf in Hx as (_ & ls & Hls & He). eauto.
  - intros (ls & Hls & He). pose proof (Hc k) as Hk. rewrite Hls in Hk.
    destruct (ic !! k) as [x|] eqn:Ex; inversion Hk. exists x. apply Hf. eauto.
Qed.

(** Executing a chain of links, sub queries included, terminates: a
    recursion as deep as the chain is long is enough, and more depth changes
    nothing. *)
Theorem query_terminates (i : FileIndex T) (idx : string) (chain : list Queryable) fuel :
  run_query i idx chain ≠ Panic StackOverflow ∧
  (length chain ≤ fuel → execute fuel i idx chain None OpNotAnOp ∅ = run_query i idx chain).
Proof.
  unfold run_query. split; [apply execute_no_overflow; lia|].
  intros Hf. apply execute_fuel; lia.
Qed.

(** A grouped query that begins with a required term finds nothing: the
    documents that have every required term are computed and dropped. *)
Theorem required_terms_lost (r : gmap string (IdxDoc T)) (rest : list (Op * gmap string (IdxDoc T))) :
  mergeResults ((OpUnaryReq, r) :: rest) = ∅.
Proof.
  unfold mergeResults. simpl.
  assert (∀ req res, (merge_loop rest true res req).1 = res) as H; [|apply H].
  induction rest as [|[op r'] rest IH]; intros req res; simpl; [done|]. case_match; apply IH.
Qed.
End properties.

(** * Concrete queries *)

Definition ascii_only : string → bool := λ _, false.

Definition demo_lit (neg : bool) (f t : string) (and_ : bool) : literal :=
  {| l_not := neg; l_field := f; l_term := t; l_and := and_ |}.

#[local] Existing Instances words_trie words_trie_laws no_regexp.

Definition demo_index : outcome (FileIndex (list string)) :=
  run_icmds default_conf Initialize demo_icmds.

Definition run_names (acts : list action) : outcome (list string) :=
  i ← demo_index; z ← apply_actions default_conf ascii_only acts empty_token;
  r ← run_query i "node" (Evaluate z); Ok (sort_strings (map_to_list r).*1).

Definition field_actions (f t : string) : list action := [AStartBasic; AAddField f; AAddTerm t].

(** "NOT (name:n1 OR name:n3)" negates the first test only and finds "n3". *)
Example not_group_negates_first :
  run_names ([AStartSubQuery; ASetNotQuery OpUnaryNot] ++ field_actions "name" "n1" ++ [AAddOp OpBinOr] ++
    field_actions "name" "n3" ++ [AEndSubQuery]) = Ok ["n3"].
Proof. vm_compute. reflexivity. Qed.

(** "()" makes the server panic. *)
Example empty_group_panics : run_names [AStartSubQuery; AEndSubQuery] = Panic NilDeref.
Proof. vm_compute. reflexivity. Qed.
