(* ===== verification/QueryParser.v ===== *)
(** The parser of search queries (src/search/search-parse.peg.go, made from the
    grammar src/search/search-parse.peg).

    Every rule of the grammar is a function on the position in the buffer and
    the tokens recorded so far; a rule that fails puts both back.  What is kept
    is the longest token seen, for the error message.  The loops of the code
    take fuel: a parser that uses it up diverges. *)
From S2P Require Import Prelude Gerror Iface Config UtilStrings Flatten FileIndex Query.

Inductive pegRule : Set :=
| ruleUnknown | ruleq | rulebody | ruleexpression | ruleterm | rulefield | rulefield_norm | rulefield_group
| rulefield_range | rulefield_inc_range | rulefield_exc_range | rulefield_name | rulerange_value | rulesub_q
| rulegroup | ruleoperation | ruleunary_op | rulebinary_op | ruleboolean_operator | ruleor_operator
| ruleand_operator | rulenot_op | rulenot_sub_op | rulenot_operator | rulebang_operator | rulerequired_op
| rulerequired_operator | ruleprohibited_op | ruleprohibited_operator | ruleboost_op | rulefuzzy_op
| rulefuzzy_param | rulestring | rulekeyword | rulevalid_letter | rulestart_letter | ruleend_letter
| rulespecial_char | ruleopen_paren | ruleclose_paren | ruleopen_incl | ruleclose_incl | ruleopen_excl
| ruleclose_excl | rulespace | rulePegText | ruleAction0 | ruleAction1 | ruleAction2 | ruleAction3 | ruleAction4
| ruleAction5 | ruleAction6 | ruleAction7 | ruleAction8 | ruleAction9 | ruleAction10 | ruleAction11 | ruleAction12
| ruleAction13 | ruleAction14 | ruleAction15 | ruleAction16 | ruleAction17 | ruleAction18 | ruleAction19
| ruleAction20 | ruleAction21.

Definition rul3s (r : pegRule) : string :=
  match r with
  | ruleUnknown => "Unknown" | ruleq => "q" | rulebody => "body" | ruleexpression => "expression"
  | ruleterm => "term" | rulefield => "field" | rulefield_norm => "field_norm" | rulefield_group => "field_group"
  | rulefield_range => "field_range" | rulefield_inc_range => "field_inc_range"
  | rulefield_exc_range => "field_exc_range" | rulefield_name => "field_name" | rulerange_value => "range_value"
  | rulesub_q => "sub_q" | rulegroup => "group" | ruleoperation => "operation" | ruleunary_op => "unary_op"
  | rulebinary_op => "binary_op" | ruleboolean_operator => "boolean_operator" | ruleor_operator => "or_operator"
  | ruleand_operator => "and_operator" | rulenot_op => "not_op" | rulenot_sub_op => "not_sub_op"
  | rulenot_operator => "not_operator" | rulebang_operator => "bang_operator" | rulerequired_op => "required_op"
  | rulerequired_operator => "required_operator" | ruleprohibited_op => "prohibited_op"
  | ruleprohibited_operator => "prohibited_operator" | ruleboost_op => "boost_op" | rulefuzzy_op => "fuzzy_op"
  | rulefuzzy_param => "fuzzy_param" | rulestring => "string" | rulekeyword => "keyword"
  | rulevalid_letter => "valid_letter" | rulestart_letter => "start_letter" | ruleend_letter => "end_letter"
  | rulespecial_char => "special_char" | ruleopen_paren => "open_paren" | ruleclose_paren => "close_paren"
  | ruleopen_incl => "open_incl" | ruleclose_incl => "close_incl" | ruleopen_excl => "open_excl"
  | ruleclose_excl => "close_excl" | rulespace => "space" | rulePegText => "PegText" | ruleAction0 => "Action0"
  | ruleAction1 => "Action1" | ruleAction2 => "Action2" | ruleAction3 => "Action3" | ruleAction4 => "Action4"
  | ruleAction5 => "Action5" | ruleAction6 => "Action6" | ruleAction7 => "Action7" | ruleAction8 => "Action8"
  | ruleAction9 => "Action9" | ruleAction10 => "Action10" | ruleAction11 => "Action11" | ruleAction12 => "Action12"
  | ruleAction13 => "Action13" | ruleAction14 => "Action14" | ruleAction15 => "Action15" | ruleAction16 => "Action16"
  | ruleAction17 => "Action17" | ruleAction18 => "Action18" | ruleAction19 => "Action19" | ruleAction20 => "Action20"
  | ruleAction21 => "Action21"
  end.

Record token32 : Set := { tk_rule : pegRule; tk_begin : nat; tk_end : nat }.

Definition no_token : token32 := {| tk_rule := ruleUnknown; tk_begin := 0; tk_end := 0 |}.

(** The variables of [Init]: the position, the tokens of the tree below
    [tokenIndex], the latest first, and the longest token. *)
Record pstate : Set := { position : nat; tree : list token32; max_token : token32 }.

Inductive presult : Set :=
| Match (s : pstate)
| NoMatch (max : token32)
| Diverge.

Abbreviation parser := (pstate → presult).

(** * The forms of a rule *)

Section forms.
  Context (buffer : list string) (fuel : nat).

Definition set_max (s : pstate) (m : token32) : pstate :=
  {| position := position s; tree := tree s; max_token := m |}.

(** [add]. *)
Definition add (r : pegRule) (begin : nat) (s : pstate) : pstate :=
  let t := {| tk_rule := r; tk_begin := begin; tk_end := position s |} in
  {| position := position s; tree := t :: tree s;
     max_token := if negb (begin =? position s)%nat && (tk_end (max_token s) <? position s)%nat then t
                  else max_token s |}.

(** [position++]. *)
Definition advance (s : pstate) : pstate :=
  {| position := Datatypes.S (position s); tree := tree s; max_token := max_token s |}.

(** The rune at the position; there is none at the end. *)
Definition peek (s : pstate) : option string := buffer !! position s.

Definition empty_p : parser := Match.

Definition seq_p (p q : parser) : parser :=
  λ s, match p s with Match s' => q s' | r => r end.

Definition alt_p (p q : parser) : parser :=
  λ s, match p s with NoMatch m => q (set_max s m) | r => r end.

Definition not_p (p : parser) : parser :=
  λ s, match p s with Match s' => NoMatch (max_token s') | NoMatch m => Match (set_max s m) | Diverge => Diverge end.

Definition opt_p (p : parser) : parser := alt_p p empty_p.

Fixpoint star_loop (n : nat) (p : parser) (s : pstate) : presult :=
  match n with
  | O => Diverge
  | Datatypes.S n =>
      match p s with Match s' => star_loop n p s' | NoMatch m => Match (set_max s m) | Diverge => Diverge end
  end.

Definition star_p (p : parser) : parser := star_loop fuel p.

Definition plus_p (p : parser) : parser := seq_p p (star_p p).

(** One rune of a class. *)
Definition class_p (f : string → bool) : parser :=
  λ s, match peek s with
       | Some c => if f c then Match (advance s) else NoMatch (max_token s)
       | None => NoMatch (max_token s)
       end.

Definition chr (c : ascii) : parser := class_p (λ u, bool_decide (u = String c EmptyString)).

(** The characters of a literal, one after the other. *)
Fixpoint lit (t : string) : parser :=
  match t with EmptyString => empty_p | String c r => seq_p (chr c) (lit r) end.

(** A rule, which leaves a token when it matches. *)
Definition rule (r : pegRule) (p : parser) : parser :=
  λ s, match p s with Match s' => Match (add r (position s) s') | x => x end.

Definition act (r : pegRule) : parser := λ s, Match (add r (position s) s).

(** A switch on the rune at the position. *)
Definition switch (f : option string → parser) : parser := λ s, f (peek s) s.

Definition matchDot : parser := class_p (λ _, true).
End forms.

Infix ">>>" := seq_p (at level 61, left associativity).
Infix "///" := alt_p (at level 62, left associativity).

(** * The rules *)

Section rules.
  Context (uniLN : string → bool) (buffer : list string) (fuel : nat).
  Local Abbreviation chr := (chr buffer).
  Local Abbreviation lit := (lit buffer).
  Local Abbreviation class_p := (class_p buffer).
  Local Abbreviation switch := (switch buffer).
  Local Abbreviation star_p := (star_p fuel).
  Local Abbreviation plus_p := (plus_p fuel).

(** A rune that is one byte of the given class. *)
Definition byte_in (f : ascii → bool) (u : string) : bool :=
  match u with String c EmptyString => f c | _ => false end.

Definition is_rune (c : ascii) (u : option string) : bool := bool_decide (u = Some (String c EmptyString)).

Definition quote_char : ascii := Ascii.ascii_of_nat 34.
Definition backslash : ascii := Ascii.ascii_of_nat 92.
Definition tab : ascii := Ascii.ascii_of_nat 9.
Definition return_char : ascii := Ascii.ascii_of_nat 13.

Definition is_blank (c : ascii) : bool := bool_decide (c ∈ [" "%char; tab; newline; return_char]).

Definition space_p : parser := rule rulespace (plus_p (class_p (byte_in is_blank))).

Definition special_chars : list ascii :=
  [":"%char; backslash; "?"%char; "*"%char; "~"%char; quote_char; "^"%char; "]"%char; "["%char; "}"%char; "{"%char;
   ")"%char; "("%char; "!"%char; "|"%char; "&"%char; "+"%char; "-"%char].

Definition special_char_p : parser := rule rulespecial_char (class_p (byte_in (λ c, bool_decide (c ∈ special_chars)))).

(** A letter or a number outside ASCII. *)
Definition uni_rune (u : string) : bool :=
  match u with String _ EmptyString | EmptyString => false | _ => uniLN u end.

Definition start_byte (c : ascii) : bool := is_alnum c || str_mem c "*_.".

Definition start_letter_p : parser :=
  rule rulestart_letter
    (switch (λ u, if is_rune backslash u then chr backslash >>> special_char_p
                  else class_p (λ u, byte_in start_byte u || uni_rune u))).

(** The last case of the switch accepts a letter or a number outside ASCII
    without moving on. *)
Definition inner_letter_p : parser :=
  switch (λ u, if is_rune backslash u then chr backslash >>> special_char_p
               else if match u with Some u => uni_rune u | None => false end then empty_p
               else class_p (byte_in (λ c, is_alnum c || str_mem c "-@._?*"))).

Definition valid_letter_p : parser :=
  rule rulevalid_letter (plus_p start_letter_p >>> star_p inner_letter_p).

Definition keyword_p : parser :=
  rule rulekeyword
    (switch (λ u, if is_rune "N" u then lit "NOT" else if is_rune "O" u then lit "OR" else lit "AND")).

Definition term_p : parser :=
  rule ruleterm
    (rule rulePegText
       (keyword_p >>> plus_p valid_letter_p /// not_p keyword_p >>> not_p (chr "?") >>> valid_letter_p)
     >>> act ruleAction0).

Definition string_p : parser :=
  rule rulestring
    (chr quote_char >>> rule rulePegText (term_p >>> star_p (space_p >>> term_p)) >>> chr quote_char
     >>> act ruleAction21).

Definition digit_p : parser := class_p (byte_in is_digit).

Definition fuzzy_param_p : parser :=
  rule rulefuzzy_param
    (rule rulePegText (digit_p >>> lit ".?" >>> digit_p /// plus_p digit_p) >>> act ruleAction20).

Definition field_name_p : parser :=
  rule rulefield_name (rule rulePegText (not_p keyword_p >>> plus_p valid_letter_p) >>> act ruleAction6).

Definition range_value_p : parser :=
  rule rulerange_value (rule rulePegText (plus_p valid_letter_p /// chr "*") >>> act ruleAction7).

Definition field_range_p : parser :=
  rule rulefield_range
    (rule rulefield_inc_range
       (act ruleAction4 >>> field_name_p >>> chr ":" >>> rule ruleopen_incl (chr "[") >>> range_value_p
        >>> lit " TO " >>> range_value_p >>> rule ruleclose_incl (chr "]"))
     /// rule rulefield_exc_range
       (act ruleAction5 >>> field_name_p >>> chr ":" >>> rule ruleopen_excl (chr "{") >>> range_value_p
        >>> lit " TO " >>> range_value_p >>> rule ruleclose_excl (chr "}"))).

Definition not_operator_p : parser := rule rulenot_operator (lit "NOT" >>> act ruleAction14).

Definition required_operator_p : parser := rule rulerequired_operator (chr "+" >>> act ruleAction16).

Definition term_or_string : parser := term_p /// string_p.

(** ** The rules that lead back to [body] *)

Section recursive.
  Context (body : parser).

Definition sub_q_p : parser :=
  rule rulesub_q (rule ruleopen_paren (chr "(") >>> body >>> rule ruleclose_paren (chr ")")).

Definition group_p : parser :=
  rule rulegroup (opt_p space_p >>> act ruleAction8 >>> sub_q_p >>> act ruleAction9 >>> opt_p space_p).

Definition field_p : parser :=
  rule rulefield
    (rule rulefield_norm (act ruleAction1 >>> field_name_p >>> chr ":" >>> term_or_string)
     /// rule rulefield_group (act ruleAction2 >>> field_name_p >>> chr ":" >>> group_p >>> act ruleAction3)).

Definition boolean_operator_p : parser :=
  rule ruleboolean_operator
    (rule ruleor_operator (lit "OR" /// lit "||") >>> act ruleAction10
     /// rule ruleand_operator (lit "AND" /// lit "&&") >>> act ruleAction11).

Definition binary_op_p : parser :=
  rule rulebinary_op
    ((group_p /// field_p /// field_range_p /// term_p) >>> opt_p space_p >>> boolean_operator_p
     >>> plus_p space_p >>> body).

(** What NOT, ! and - apply to. *)
Definition negatable : parser := field_p /// field_range_p /// term_p /// string_p.

Definition not_op_p : parser :=
  rule rulenot_op
    (not_operator_p >>> space_p >>> negatable
     /// rule rulebang_operator (chr "!" >>> act ruleAction15) >>> opt_p space_p >>> negatable).

Definition prohibited_op_p : parser :=
  rule ruleprohibited_op
    (not_p valid_letter_p >>> rule ruleprohibited_operator (chr "-" >>> act ruleAction17) >>> negatable).

Definition required_op_p : parser :=
  rule rulerequired_op
    (not_p valid_letter_p >>> required_operator_p >>> term_or_string /// required_operator_p >>> term_or_string).

Definition not_sub_op_p : parser :=
  rule rulenot_sub_op (act ruleAction12 >>> not_operator_p >>> space_p >>> sub_q_p >>> act ruleAction13).

Definition unary_op_p : parser :=
  rule ruleunary_op
    (not_op_p ///
     switch (λ u, if is_rune "-" u then prohibited_op_p
                  else if is_rune "+" u then required_op_p else not_sub_op_p)).

Definition fuzzy_op_p : parser :=
  rule rulefuzzy_op
    (term_or_string >>> chr "~" >>> act ruleAction19 >>> opt_p fuzzy_param_p
     >>> (space_p /// not_p valid_letter_p)).

Definition boost_op_p : parser :=
  rule ruleboost_op (term_or_string >>> chr "^" >>> act ruleAction18 >>> fuzzy_param_p).

Definition operation_p : parser := rule ruleoperation (binary_op_p /// unary_op_p /// fuzzy_op_p /// boost_op_p).

Definition expression_p : parser :=
  rule ruleexpression
    (operation_p /// field_p /// field_range_p ///
     switch (λ u, if is_rune quote_char u then string_p
                  else if existsb (λ c, is_rune c u) [tab; newline; return_char; " "%char; "("%char] then group_p
                  else term_p)).
End recursive.

Fixpoint body_p (n : nat) : parser :=
  match n with
  | O => λ _, Diverge
  | Datatypes.S n => rule rulebody (star_p (expression_p (body_p n) /// space_p))
  end.

Definition q_p : parser := rule ruleq (body_p fuel >>> not_p (matchDot buffer)).
End rules.

(** * Parsing, and what the tokens do *)

(** [translatePositions]: the line and the symbol of a position. *)
Definition text_position (buffer : list string) (p : nat) : nat * nat :=
  foldl (λ '(line, symbol) u, if bool_decide (u = String newline EmptyString) then (Datatypes.S line, 0%nat)
                              else (line, Datatypes.S symbol))
    (1%nat, 0%nat) (take (Datatypes.S p) (buffer ++ [EmptyString])).

(** The text of the runes from [begin] to [end]. *)
Definition token_text (buffer : list string) (t : token32) : string :=
  str_join EmptyString (take (tk_end t - tk_begin t) (drop (tk_begin t) buffer)).

Definition parseError_Error (buffer : list string) (max : token32) : string :=
  let n (z : nat) := itoa (Z.of_nat z) in
  let b := text_position buffer (tk_begin max) in
  let e := text_position buffer (tk_end max) in
  let nl := String newline EmptyString in
  nl +:+ "parse error near " +:+ rul3s (tk_rule max) +:+ " (line " +:+ n b.1 +:+ " symbol " +:+ n b.2 +:+ " - line "
  +:+ n e.1 +:+ " symbol " +:+ n e.2 +:+ "):" +:+ nl +:+ str_quote (token_text buffer max) +:+ nl.

(** [Init] and [Parse]: the tokens in the order they were recorded, an error,
    or a loop that does not end. *)
Definition Parse (uniLN : string → bool) (fuel : nat) (query : string) : option (list token32 + string) :=
  let buffer := runes query in
  match q_p uniLN buffer fuel {| position := 0; tree := []; max_token := no_token |} with
  | Match s => Some (inl (rev (tree s)))
  | NoMatch max => Some (inr (parseError_Error buffer max))
  | Diverge => None
  end.

(** [Execute]: the calls on the token under construction; [text] is what the
    last token of text covered. *)
Definition token_action (r : pegRule) (text : string) : option action :=
  match r with
  | ruleAction0 | ruleAction20 | ruleAction21 => Some (AAddTerm text)
  | ruleAction1 => Some AStartBasic
  | ruleAction2 => Some AStartGrouped
  | ruleAction3 => Some ASetCompleted
  | ruleAction4 => Some (AStartRange true)
  | ruleAction5 => Some (AStartRange false)
  | ruleAction6 => Some (AAddField text)
  | ruleAction7 => Some (AAddRange text)
  | ruleAction8 | ruleAction12 => Some AStartSubQuery
  | ruleAction9 | ruleAction13 => Some AEndSubQuery
  | ruleAction10 => Some (AAddOp OpBinOr)
  | ruleAction11 => Some (AAddOp OpBinAnd)
  | ruleAction14 | ruleAction15 => Some (ASetNotQuery OpUnaryNot)
  | ruleAction16 => Some (AAddTermOp OpUnaryReq)
  | ruleAction17 => Some (ASetNotQuery OpUnaryPro)
  | ruleAction18 => Some (AAddOp OpBoost)
  | ruleAction19 => Some (AAddOp OpFuzzy)
  | _ => None
  end.

Fixpoint Execute (buffer : list string) (text : string) (tokens : list token32) : list action :=
  match tokens with
  | [] => []
  | t :: tokens =>
      match tk_rule t with
      | rulePegText => Execute buffer (token_text buffer t) tokens
      | r => match token_action r text with
             | Some a => a :: Execute buffer text tokens
             | None => Execute buffer text tokens
             end
      end
  end.

(** The actions of a query that parses. *)
Definition query_actions (uniLN : string → bool) (fuel : nat) (query : string) : option (list action + string) :=
  match Parse uniLN fuel query with
  | Some (inl tokens) => Some (inl (Execute (runes query) EmptyString tokens))
  | Some (inr e) => Some (inr e)
  | None => None
  end.
