(* ===== verification/ParserFacts.v ===== *)
(** Facts about the query parser: it ends on every query without letters and
    numbers outside ASCII, more fuel never changes what it returns, and on some
    other queries it does not end. *)
From S2P Require Import Prelude Gerror Iface Config UtilStrings Flatten FileIndex Query QueryParser.

(** * Progress *)

Section progress.
  Context (buffer : list string).
  Local Abbreviation len := (length buffer).

(** With fewer than [k] runes left, [p] ends, and when it matches it has not
    gone back, or has moved on, and is still within the buffer. *)
Definition advances (strict : bool) (k : nat) (p : parser) : Prop :=
  ∀ s, position s ≤ len → len - position s < k →
  match p s with
  | Match s' => (if strict then position s < position s' else position s ≤ position s') ∧ position s' ≤ len
  | NoMatch _ => True
  | Diverge => False
  end.

Lemma adv_weaken b k p : advances true k p → advances b k p.
Proof.
  intros Hp s Hs Hk. specialize (Hp s Hs Hk). destruct (p s); [|done..]. destruct b; simpl in *; lia.
Qed.

Lemma adv_less b k k' p : k' ≤ k → advances b k p → advances b k' p.
Proof. intros Hle Hp s Hs Hk. apply Hp; [done|lia]. Qed.

Lemma adv_seq a b k p q : advances a k p → advances b k q → advances (a || b) k (seq_p p q).
Proof.
  intros Hp Hq s Hs Hk. specialize (Hp s Hs Hk). unfold seq_p. destruct (p s) as [s'| |]; [|done..].
  specialize (Hq s' (proj2 Hp)). destruct a, b; simpl in *;
    (destruct (q s'); [|done..|by apply Hq; lia]; specialize (Hq ltac:(lia)); lia).
Qed.

(** What follows a rune that was read has one rune less. *)
Lemma adv_seq_strict b k p q :
  advances true (Datatypes.S k) p → advances b k q → advances true (Datatypes.S k) (seq_p p q).
Proof.
  intros Hp Hq s Hs Hk. specialize (Hp s Hs Hk). unfold seq_p. destruct (p s) as [s'| |]; [|done..].
  specialize (Hq s' (proj2 Hp) ltac:(lia)). destruct (q s'); [|done..]. destruct b; simpl in *; lia.
Qed.

Lemma adv_alt b k p q : advances b k p → advances b k q → advances b k (alt_p p q).
Proof.
  intros Hp Hq s Hs Hk. specialize (Hp s Hs Hk). unfold alt_p. destruct (p s) as [s'|m|]; [done| |done].
  exact (Hq (set_max s m) Hs Hk).
Qed.

Lemma adv_not b k p : advances b k p → advances false k (not_p p).
Proof.
  intros Hp s Hs Hk. specialize (Hp s Hs Hk). unfold not_p. destruct (p s); simpl; [done|lia|done].
Qed.

Lemma adv_empty k : advances false k empty_p.
Proof. intros s Hs _. simpl. lia. Qed.

Lemma adv_opt b k p : advances b k p → advances false k (opt_p p).
Proof.
  intros Hp. apply adv_alt; [|apply adv_empty]. intros s Hs Hk. specialize (Hp s Hs Hk).
  destruct (p s); [|done..]. destruct b; simpl in *; lia.
Qed.

Lemma adv_star fuel k p : k ≤ fuel → advances true k p → advances false k (star_p fuel p).
Proof.
  intros Hf Hp s Hs Hk. unfold star_p. assert (len - position s < fuel) as Hn by lia. clear Hf.
  revert s Hs Hk Hn. induction fuel as [|n IH]; intros s Hs Hk Hn; [lia|]. simpl.
  pose proof (Hp s Hs Hk) as Hps. destruct (p s) as [s'|m|]; [|simpl; lia|done].
  specialize (IH s' (proj2 Hps) ltac:(lia) ltac:(lia)). destruct (star_loop n p s'); [|done..]. lia.
Qed.

Lemma adv_plus fuel k p : k ≤ fuel → advances true k p → advances true k (plus_p fuel p).
Proof. intros Hf Hp. exact (adv_seq true false k _ _ Hp (adv_star fuel k p Hf Hp)). Qed.

Lemma adv_class k f : advances true k (class_p buffer f).
Proof.
  intros s Hs _. unfold class_p, peek. destruct (buffer !! position s) as [u|] eqn:E; [|done].
  apply lookup_lt_Some in E. destruct (f u); simpl; [lia|done].
Qed.

Lemma adv_lit k c t : advances true k (lit buffer (String c t)).
Proof.
  revert c. induction t as [|d t IH]; intros c; simpl.
  - exact (adv_seq true false k _ _ (adv_class k _) (adv_empty k)).
  - exact (adv_seq true true k _ _ (adv_class k _) (IH d)).
Qed.

Lemma adv_rule b k r p : advances b k p → advances b k (rule r p).
Proof. intros Hp s Hs Hk. specialize (Hp s Hs Hk). unfold rule. by destruct (p s). Qed.

Lemma adv_act k r : advances false k (act r).
Proof. intros s Hs _. simpl. lia. Qed.

Lemma adv_switch b k f : (∀ u, advances b k (f u)) → advances b k (switch buffer f).
Proof. intros Hf s. apply Hf. Qed.

(** A switch sees the rune at the position. *)
Lemma adv_switch_peek b k f :
  (∀ u, (∀ v, u = Some v → v ∈ buffer) → advances b k (f u)) → advances b k (switch buffer f).
Proof. intros Hf s. apply Hf. intros v Hv. by eapply list_elem_of_lookup_2. Qed.
End progress.

(** A sequence is strict as soon as one of its parts is. *)
Lemma adv_seq_l buffer b k p q :
  advances buffer true k p → advances buffer b k q → advances buffer true k (seq_p p q).
Proof. apply adv_seq. Qed.

Lemma adv_seq_r buffer k p q :
  advances buffer false k p → advances buffer true k q → advances buffer true k (seq_p p q).
Proof. apply adv_seq. Qed.

Lemma adv_seq_lax buffer k p q :
  advances buffer false k p → advances buffer false k q → advances buffer false k (seq_p p q).
Proof. apply adv_seq. Qed.

Create HintDb adv.
#[export] Hint Resolve adv_class adv_lit adv_empty adv_act : adv.
#[export] Hint Resolve adv_rule adv_alt adv_not adv_opt adv_plus adv_star adv_switch : adv.
#[export] Hint Resolve adv_seq_l adv_seq_r adv_seq_lax | 5 : adv.
#[export] Hint Resolve adv_weaken | 10 : adv.

Section rules_progress.
  Context (uniLN : string → bool) (buffer : list string) (fuel : nat).
  Context (Hascii : ∀ u, u ∈ buffer → uni_rune uniLN u = false).
  Local Abbreviation adv := (advances buffer).

Lemma adv_space k : k ≤ fuel → adv true k (space_p buffer fuel).
Proof. intros Hf. unfold space_p. eauto with adv. Qed.

Lemma adv_special k : adv true k (special_char_p buffer).
Proof. unfold special_char_p. eauto with adv. Qed.
Hint Resolve adv_space adv_special : adv.

Lemma adv_start k : adv true k (start_letter_p uniLN buffer).
Proof. apply adv_rule, adv_switch. intros u. case_match; [apply (adv_seq buffer true true)|]; auto with adv. apply adv_class. Qed.

Lemma adv_inner k : adv true k (inner_letter_p uniLN buffer).
Proof.
  apply adv_switch_peek. intros u Hu. case_match; [apply (adv_seq buffer true true); auto with adv; apply adv_class|].
  destruct u as [u|]; [rewrite Hascii by (by apply Hu)|]; auto with adv.
Qed.
Hint Resolve adv_start adv_inner : adv.

Lemma adv_valid k : k ≤ fuel → adv true k (valid_letter_p uniLN buffer fuel).
Proof. intros Hf. unfold valid_letter_p. eauto with adv. Qed.

Lemma adv_keyword k : adv true k (keyword_p buffer).
Proof. apply adv_rule, adv_switch. intros u. repeat case_match; apply adv_lit. Qed.
Hint Resolve adv_valid adv_keyword : adv.

Lemma adv_term k : k ≤ fuel → adv true k (term_p uniLN buffer fuel).
Proof.
  intros Hf. apply adv_rule, adv_seq_l with false; [|apply adv_act]. apply adv_rule, adv_alt.
  - apply adv_seq_l with true; auto with adv.
  - apply adv_seq_r; [|auto with adv]. apply adv_seq_lax; eauto with adv.
Qed.
Hint Resolve adv_term : adv.

Lemma adv_string k : k ≤ fuel → adv true k (string_p uniLN buffer fuel).
Proof.
  intros Hf. unfold string_p, chr. apply adv_rule, adv_seq_l with false; [|apply adv_act].
  apply adv_seq_l with true; [|apply adv_class]. apply adv_seq_l with true; [apply adv_class|]. apply adv_rule.
  apply adv_seq_l with false; [auto with adv|]. apply adv_star; [done|]. apply adv_seq_l with true; auto with adv.
Qed.

Lemma adv_fuzzy k : k ≤ fuel → adv true k (fuzzy_param_p buffer fuel).
Proof.
  intros Hf. apply adv_rule, adv_seq_l with false; [|apply adv_act]. apply adv_rule, adv_alt.
  - apply adv_seq_l with true; [apply adv_seq_l with true|]; apply adv_class || apply adv_lit.
  - apply adv_plus; [done|apply adv_class].
Qed.

Lemma adv_name k : k ≤ fuel → adv true k (field_name_p uniLN buffer fuel).
Proof.
  intros Hf. apply adv_rule, adv_seq_l with false; [|apply adv_act]. apply adv_rule, adv_seq_r; eauto with adv.
Qed.

Lemma adv_range_value k : k ≤ fuel → adv true k (range_value_p uniLN buffer fuel).
Proof.
  intros Hf. apply adv_rule, adv_seq_l with false; [|apply adv_act]. apply adv_rule, adv_alt; [auto with adv|apply adv_class].
Qed.
Hint Resolve adv_string adv_fuzzy adv_name adv_range_value : adv.

Lemma adv_range k : k ≤ fuel → adv true k (field_range_p uniLN buffer fuel).
Proof.
  intros Hf. unfold field_range_p, chr. apply adv_rule, adv_alt; apply adv_rule;
    (do 6 (apply adv_seq_l with true; [|auto using adv_rule, adv_class, adv_range_value, adv_lit]));
    (apply adv_seq_r; [apply adv_act|auto with adv]).
Qed.

Lemma adv_not_operator k : adv true k (not_operator_p buffer).
Proof. apply adv_rule, adv_seq_l with false; [apply adv_lit|apply adv_act]. Qed.

Lemma adv_required k : adv true k (required_operator_p buffer).
Proof. apply adv_rule, adv_seq_l with false; [apply adv_class|apply adv_act]. Qed.

Lemma adv_term_or_string k : k ≤ fuel → adv true k (term_or_string uniLN buffer fuel).
Proof. intros Hf. apply adv_alt; auto with adv. Qed.
Hint Resolve adv_range adv_not_operator adv_required adv_term_or_string : adv.

Section recursive.
  Context (n : nat) (body : parser) (Hn : Datatypes.S n ≤ fuel) (Hbody : adv false n body).

Lemma adv_sub_q : adv true (Datatypes.S n) (sub_q_p buffer body).
Proof.
  apply adv_rule, adv_seq_l with true; [|apply adv_rule, adv_class].
  apply adv_seq_strict with false; [apply adv_rule, adv_class|done].
Qed.
Hint Resolve adv_sub_q : adv.

Lemma adv_group : adv true (Datatypes.S n) (group_p buffer fuel body).
Proof.
  unfold group_p. apply adv_rule, adv_seq_l with false; [|eauto with adv].
  apply adv_seq_l with false; [|apply adv_act]. apply adv_seq_r; [|auto with adv].
  apply adv_seq_lax; [eauto with adv|apply adv_act].
Qed.
Hint Resolve adv_group : adv.

Lemma adv_field : adv true (Datatypes.S n) (field_p uniLN buffer fuel body).
Proof.
  unfold field_p, chr. apply adv_rule, adv_alt; apply adv_rule.
  - apply adv_seq_l with true; [|auto with adv]. apply adv_seq_l with true; [|apply adv_class].
    apply adv_seq_r; [apply adv_act|auto with adv].
  - apply adv_seq_l with false; [|apply adv_act]. apply adv_seq_l with true; [|auto with adv].
    apply adv_seq_l with true; [|apply adv_class]. apply adv_seq_r; [apply adv_act|auto with adv].
Qed.
Hint Resolve adv_field : adv.

Lemma adv_boolean k : adv true k (boolean_operator_p buffer).
Proof.
  apply adv_rule, adv_alt; (apply adv_seq_l with false; [|apply adv_act]); apply adv_rule, adv_alt; apply adv_lit.
Qed.

Lemma adv_binary : adv true (Datatypes.S n) (binary_op_p uniLN buffer fuel body).
Proof.
  unfold binary_op_p. apply adv_rule, adv_seq_strict with false; [|done].
  apply adv_seq_l with true; [|auto with adv]. apply adv_seq_l with true; [|apply adv_boolean].
  apply adv_seq_l with false; [|eauto with adv]. repeat apply adv_alt; auto with adv.
Qed.

Lemma adv_negatable : adv true (Datatypes.S n) (negatable uniLN buffer fuel body).
Proof. repeat apply adv_alt; auto with adv. Qed.
Hint Resolve adv_binary adv_negatable : adv.

Lemma adv_unary : adv true (Datatypes.S n) (unary_op_p uniLN buffer fuel body).
Proof.
  unfold unary_op_p. apply adv_rule, adv_alt.
  - unfold not_op_p, chr. apply adv_rule, adv_alt.
    + apply adv_seq_l with true; [|auto with adv]. apply adv_seq_l with true; auto with adv.
    + apply adv_seq_l with true; [|auto with adv]. apply adv_seq_l with false; [|eauto with adv].
      apply adv_rule, adv_seq_l with false; [apply adv_class|apply adv_act].
  - apply adv_switch. intros u. repeat case_match.
    + unfold prohibited_op_p, chr. apply adv_rule, adv_seq_l with true; [|auto with adv].
      apply adv_seq_r; [eauto with adv|]. apply adv_rule, adv_seq_l with false; [apply adv_class|apply adv_act].
    + unfold required_op_p. apply adv_rule, adv_alt; (apply adv_seq_l with true; [|auto with adv]); [|auto with adv].
      apply adv_seq_r; eauto with adv.
    + unfold not_sub_op_p. apply adv_rule, adv_seq_l with false; [|apply adv_act].
      apply adv_seq_l with true; [|auto with adv]. apply adv_seq_l with true; [|auto with adv].
      apply adv_seq_r; [apply adv_act|auto with adv].
Qed.

Lemma adv_fuzzy_boost :
  adv true (Datatypes.S n) (fuzzy_op_p uniLN buffer fuel) ∧ adv true (Datatypes.S n) (boost_op_p uniLN buffer fuel).
Proof.
  unfold fuzzy_op_p, boost_op_p, chr. split; apply adv_rule.
  - apply adv_seq_l with false; [|apply adv_alt; eauto with adv]. apply adv_seq_l with false; [|eauto with adv].
    apply adv_seq_l with false; [|apply adv_act]. apply adv_seq_l with true; [auto with adv|apply adv_class].
  - apply adv_seq_l with true; [|auto with adv]. apply adv_seq_l with false; [|apply adv_act].
    apply adv_seq_l with true; [auto with adv|apply adv_class].
Qed.

Lemma adv_expression : adv true (Datatypes.S n) (expression_p uniLN buffer fuel body).
Proof.
  destruct adv_fuzzy_boost as [Hfz Hbo]. unfold expression_p. apply adv_rule.
  repeat apply adv_alt; auto with adv.
  - apply adv_rule. repeat apply adv_alt; auto using adv_binary, adv_unary.
  - apply adv_switch. intros u. repeat case_match; auto with adv.
Qed.
End recursive.

Lemma adv_body n : n ≤ fuel → adv false n (body_p uniLN buffer fuel n).
Proof.
  induction n as [|n IH]; intros Hf; [intros s _ ?; lia|]. simpl. apply adv_rule, adv_star; [done|].
  apply adv_alt; [|by apply adv_space]. apply adv_expression; [done|]. apply IH. lia.
Qed.
End rules_progress.

(** * More fuel *)

(** [q] returns what [p] returns, when [p] ends. *)
Definition defined_by (p q : parser) : Prop := ∀ s, p s = Diverge ∨ p s = q s.

#[export] Instance defined_by_preorder : PreOrder defined_by.
Proof.
  split; [intros p s; by right|]. intros p q r Hpq Hqr s.
  destruct (Hpq s) as [->| ->]; [by left|apply Hqr].
Qed.

(** Splits on whether the smaller parser diverges at [s]. *)
Ltac by_divergence H s := let E := fresh "E" in destruct (H s) as [E|E]; [left; by rewrite ?E|rewrite ?E].

#[export] Instance seq_defined : Proper (defined_by ==> defined_by ==> defined_by) seq_p.
Proof.
  intros p p' Hp q q' Hq s. unfold seq_p. by_divergence Hp s. destruct (p' s) as [s'| |]; [|by right..].
  apply Hq.
Qed.

#[export] Instance alt_defined : Proper (defined_by ==> defined_by ==> defined_by) alt_p.
Proof.
  intros p p' Hp q q' Hq s. unfold alt_p. by_divergence Hp s. destruct (p' s); [by right| |by right]. apply Hq.
Qed.

#[export] Instance not_defined : Proper (defined_by ==> defined_by) not_p.
Proof. intros p p' Hp s. unfold not_p. by_divergence Hp s. by right. Qed.

#[export] Instance opt_defined : Proper (defined_by ==> defined_by) opt_p.
Proof. intros p p' Hp. unfold opt_p. by rewrite Hp. Qed.

#[export] Instance rule_defined r : Proper (defined_by ==> defined_by) (rule r).
Proof. intros p p' Hp s. unfold rule. by_divergence Hp s. by right. Qed.

#[export] Instance switch_defined buffer :
  Proper (pointwise_relation _ defined_by ==> defined_by) (switch buffer).
Proof. intros f f' Hf s. apply Hf. Qed.

#[export] Instance star_defined : Proper (le ==> defined_by ==> defined_by) star_p.
Proof.
  intros n m Hnm p p' Hp. unfold star_p. revert m Hnm. induction n as [|n IH]; intros m Hnm s; [by left|].
  destruct m as [|m]; [lia|]. simpl. by_divergence Hp s. destruct (p' s); [|by right..]. apply IH. lia.
Qed.

#[export] Instance plus_defined : Proper (le ==> defined_by ==> defined_by) plus_p.
Proof. intros n m Hnm p p' Hp. unfold plus_p. apply seq_defined; [done|]. by apply star_defined. Qed.

(** A rule built from rules that are defined as far as their counterparts. *)
Ltac solve_defined :=
  repeat first
    [ assumption | reflexivity
    | apply rule_defined | apply seq_defined | apply alt_defined | apply not_defined | apply opt_defined
    | apply plus_defined | apply star_defined
    | apply switch_defined; intros ?; repeat case_match ].

Section more_fuel.
  Context (uniLN : string → bool) (buffer : list string).

Section letters.
  Context (n m : nat) (Hnm : n ≤ m).

Lemma space_defined : defined_by (space_p buffer n) (space_p buffer m).
Proof. unfold space_p. solve_defined. Qed.

Lemma valid_defined : defined_by (valid_letter_p uniLN buffer n) (valid_letter_p uniLN buffer m).
Proof. unfold valid_letter_p. solve_defined. Qed.

Lemma term_defined : defined_by (term_p uniLN buffer n) (term_p uniLN buffer m).
Proof. pose proof valid_defined. unfold term_p. solve_defined. Qed.

Lemma string_defined : defined_by (string_p uniLN buffer n) (string_p uniLN buffer m).
Proof. pose proof term_defined. pose proof space_defined. unfold string_p. solve_defined. Qed.

Lemma fuzzy_defined : defined_by (fuzzy_param_p buffer n) (fuzzy_param_p buffer m).
Proof. unfold fuzzy_param_p. solve_defined. Qed.

Lemma name_defined : defined_by (field_name_p uniLN buffer n) (field_name_p uniLN buffer m).
Proof. pose proof valid_defined. unfold field_name_p. solve_defined. Qed.

Lemma range_defined : defined_by (field_range_p uniLN buffer n) (field_range_p uniLN buffer m).
Proof.
  pose proof valid_defined. pose proof name_defined.
  assert (defined_by (range_value_p uniLN buffer n) (range_value_p uniLN buffer m)) as Hv.
  { unfold range_value_p. solve_defined. }
  unfold field_range_p. solve_defined.
Qed.

Lemma expression_defined b b' :
  defined_by b b' → defined_by (expression_p uniLN buffer n b) (expression_p uniLN buffer m b').
Proof.
  intros Hb. pose proof valid_defined. pose proof term_defined. pose proof string_defined. pose proof space_defined.
  pose proof fuzzy_defined. pose proof name_defined. pose proof range_defined.
  assert (defined_by (sub_q_p buffer b) (sub_q_p buffer b')) by (unfold sub_q_p; solve_defined).
  assert (defined_by (group_p buffer n b) (group_p buffer m b')) by (unfold group_p; solve_defined).
  assert (defined_by (field_p uniLN buffer n b) (field_p uniLN buffer m b')).
  { unfold field_p, term_or_string. solve_defined. }
  unfold expression_p, operation_p, binary_op_p, unary_op_p, fuzzy_op_p, boost_op_p, not_op_p, prohibited_op_p,
    required_op_p, not_sub_op_p, negatable, term_or_string.
  solve_defined.
Qed.
End letters.

Lemma body_defined f f' n m : f ≤ f' → n ≤ m → defined_by (body_p uniLN buffer f n) (body_p uniLN buffer f' m).
Proof.
  intros Hf. revert m. induction n as [|n IH]; intros m Hnm s; [by left|]. destruct m as [|m]; [lia|].
  simpl. revert s. change (defined_by (body_p uniLN buffer f (Datatypes.S n)) (body_p uniLN buffer f' (Datatypes.S m))).
  simpl. pose proof (space_defined f f' Hf). pose proof (expression_defined f f' Hf _ _ (IH m ltac:(lia))).
  solve_defined.
Qed.
End more_fuel.

(** A query that was parsed, or refused, is so with more fuel. *)
Lemma Parse_more uniLN n m q r : n ≤ m → Parse uniLN n q = Some r → Parse uniLN m q = Some r.
Proof.
  intros Hnm. unfold Parse.
  assert (defined_by (q_p uniLN (runes q) n) (q_p uniLN (runes q) m)) as Hq.
  { unfold q_p. pose proof (body_defined uniLN (runes q) n m n m Hnm Hnm). solve_defined. }
  destruct (Hq {| position := 0; tree := []; max_token := no_token |}) as [->| ->]; [done|]. done.
Qed.

Lemma Parse_ends uniLN fuel q :
  Forall (λ u, uni_rune uniLN u = false) (runes q) → length (runes q) < fuel → is_Some (Parse uniLN fuel q).
Proof.
  intros Ha Hf. unfold Parse, q_p, rule, seq_p.
  pose proof (adv_body uniLN (runes q) fuel (proj1 (Forall_forall _ _) Ha) fuel (Nat.le_refl _)
    {| position := 0; tree := []; max_token := no_token |} (Nat.le_0_l _) ltac:(simpl; lia)) as Hb.
  destruct (body_p _ _ _ _ _) as [s| |]; [|by eexists|done].
  unfold not_p, matchDot, class_p. destruct (peek _ s); by eexists.
Qed.

(** * A query that never ends *)

Section hang.
  Context (fuel : nat).

(** A loop over something that matches without moving on. *)
Lemma star_stuck p s : p s = Match s → star_p fuel p s = Diverge.
Proof. intros Hp. unfold star_p. induction fuel as [|n IH]; [done|]. simpl. by rewrite Hp. Qed.

Lemma seq_diverges p q s : p s = Diverge → seq_p p q s = Diverge.
Proof. unfold seq_p. by intros ->. Qed.

Lemma seq_then p q s s' : p s = Match s' → seq_p p q s = q s'.
Proof. unfold seq_p. by intros ->. Qed.

Lemma alt_diverges p q s : p s = Diverge → alt_p p q s = Diverge.
Proof. unfold alt_p. by intros ->. Qed.

Lemma alt_then p q s m : p s = NoMatch m → alt_p p q s = q (set_max s m).
Proof. unfold alt_p. by intros ->. Qed.

Lemma rule_diverges r p s : p s = Diverge → rule r p s = Diverge.
Proof. unfold rule. by intros ->. Qed.
End hang.

Section accented.
  Context (uniLN : string → bool) (fuel : nat) (Hu : uniLN "é" = true).
  Local Abbreviation buffer := ["a"; "-"; "é"].
  Local Abbreviation st toks m := {| position := 0; tree := toks; max_token := m |}.

Lemma hang_letter toks m : valid_letter_p uniLN buffer (4 + fuel) (st toks m) = Diverge.
Proof.
  apply rule_diverges. erewrite seq_then by reflexivity.
  unfold star_p. cbn [star_loop Nat.add]. 
  match goal with |- match ?x with _ => _ end = _ => eassert (x = Match _) as -> by reflexivity end.
  apply (star_stuck (3 + fuel)). unfold inner_letter_p, switch. cbn. rewrite Hu. reflexivity.
Qed.

Lemma hang_name toks m : field_name_p uniLN buffer (4 + fuel) (st toks m) = Diverge.
Proof.
  apply rule_diverges, seq_diverges, rule_diverges. erewrite seq_then by reflexivity.
  apply seq_diverges, hang_letter.
Qed.

Lemma hang_body n toks m : body_p uniLN buffer (4 + fuel) (Datatypes.S n) (st toks m) = Diverge.
Proof.
  apply rule_diverges. unfold star_p. cbn [star_loop Nat.add].
  rewrite (alt_diverges (expression_p _ _ _ _)); [done|].
  apply rule_diverges. do 3 apply alt_diverges.
  apply rule_diverges. do 3 apply alt_diverges. apply rule_diverges.
  do 4 apply seq_diverges. apply alt_diverges, alt_diverges. erewrite alt_then by reflexivity.
  apply rule_diverges, alt_diverges, rule_diverges. do 2 apply seq_diverges.
  erewrite seq_then by reflexivity. apply hang_name.
Qed.
End accented.

(** * Properties *)



(** The query a-é does not end, whatever the loops are given. *)
Theorem accented_query_hangs uniLN fuel : uniLN "é" = true → Parse uniLN fuel "a-é" = None.
Proof.
  intros Hu. destruct (Parse uniLN fuel "a-é") as [r|] eqn:E; [|done]. exfalso.
  apply (Parse_more _ _ (4 + fuel)) in E; [|lia]. revert E. unfold Parse, q_p. change (runes "a-é") with ["a"; "-"; "é"].
  rewrite rule_diverges; [done|]. apply seq_diverges. by apply (hang_body _ _ Hu (3 + fuel)).
Qed.
