(* ===== verification/ParserText.v ===== *)
(** What the parser makes of the text of a flat query: tests "field:term"
    joined by AND and OR, the last one possibly behind NOT.  The parser accepts
    the text and calls the actions that build the chain of the tests, so that
    the query as it is written finds exactly the documents that satisfy it.

    [reads] and [fails] say what a parser does in front of a given text,
    whatever tokens came before; a rule follows from its parts. *)
From S2P Require Import Prelude Gerror Iface Config UtilStrings Flatten FileIndex Query QueryParser ParserFacts.

(** * The actions of the tokens *)

(** The calls made so far and the text of the last token of text. *)
Abbreviation calls := (list action * string)%type.

Definition act_calls (r : pegRule) (st : calls) : calls :=
  match token_action r st.2 with Some a => (st.1 ++ [a], st.2) | None => st end.

Definition token_calls (buffer : list string) (t : token32) (st : calls) : calls :=
  match tk_rule t with
  | rulePegText => (st.1, token_text buffer t)
  | r => act_calls r st
  end.

(** The calls of a tree, its latest token first. *)
Definition tree_calls (buffer : list string) (tree : list token32) : calls :=
  foldr (token_calls buffer) ([], EmptyString) tree.

Lemma Execute_tree buffer tree : Execute buffer EmptyString (rev tree) = (tree_calls buffer tree).1.
Proof.
  assert (∀ l st, (foldl (λ st t, token_calls buffer t st) st l).1 = st.1 ++ Execute buffer st.2 l) as H.
  { induction l as [|t l IH]; intros [a x]; simpl; [by rewrite app_nil_r|]. rewrite IH.
    unfold token_calls, act_calls. destruct (tk_rule t); simpl; by rewrite <-?app_assoc. }
  rewrite <-(app_nil_l (Execute _ _ _)). change (@nil action) with (fst (@nil action, EmptyString)) at 1.
  change EmptyString with (snd (@nil action, EmptyString)) at 2. rewrite <-H. f_equal.
  unfold tree_calls. induction tree as [|t tree IH]; [done|]. simpl. by rewrite foldl_app, IH.
Qed.

(** * Texts in front of a parser *)

Section reads.
  Context (buffer : list string).

(** In front of [mid] and then [post], [p] matches [mid] and makes the calls
    [f]. *)
Definition reads (p : parser) (mid post : list string) (f : calls → calls) : Prop :=
  ∀ i toks m, drop i buffer = mid ++ post → i ≤ length buffer →
  ∃ toks' m', p {| position := i; tree := toks; max_token := m |} =
    Match {| position := i + length mid; tree := toks'; max_token := m' |} ∧
    tree_calls buffer toks' = f (tree_calls buffer toks).

Definition fails (p : parser) (rest : list string) : Prop :=
  ∀ i toks m, drop i buffer = rest → i ≤ length buffer →
  ∃ m', p {| position := i; tree := toks; max_token := m |} = NoMatch m'.

Lemma drop_mid i mid post :
  drop i buffer = mid ++ post → i ≤ length buffer →
  drop (i + length mid) buffer = post ∧ i + length mid ≤ length buffer.
Proof.
  intros Hd Hi. rewrite <-drop_drop, Hd, drop_app_length. split; [done|].
  apply (f_equal length) in Hd. rewrite length_drop, length_app in Hd. lia.
Qed.

Lemma reads_seq p q mid1 mid2 post f g :
  reads p mid1 (mid2 ++ post) f → reads q mid2 post g → reads (p >>> q) (mid1 ++ mid2) post (λ st, g (f st)).
Proof.
  intros Hp Hq i toks m Hd Hi. rewrite <-app_assoc in Hd.
  destruct (Hp i toks m Hd Hi) as (t1 & m1 & E1 & H1). destruct (drop_mid i mid1 _ Hd Hi) as [Hd' Hi'].
  destruct (Hq _ t1 m1 Hd' Hi') as (t2 & m2 & E2 & H2). exists t2, m2. unfold seq_p.
  rewrite E1, E2, length_app, Nat.add_assoc, H2, H1. done.
Qed.

Lemma fails_seq p q rest : fails p rest → fails (p >>> q) rest.
Proof. intros Hp i toks m Hd Hi. destruct (Hp i toks m Hd Hi) as [m' E]. exists m'. unfold seq_p. by rewrite E. Qed.

Lemma fails_after p q mid post f : reads p mid post f → fails q post → fails (p >>> q) (mid ++ post).
Proof.
  intros Hp Hq i toks m Hd Hi. destruct (Hp i toks m Hd Hi) as (t1 & m1 & E1 & H1).
  destruct (drop_mid i mid _ Hd Hi) as [Hd' Hi']. destruct (Hq _ t1 m1 Hd' Hi') as [m' E2].
  exists m'. unfold seq_p. by rewrite E1, E2.
Qed.

Lemma reads_alt_l p q mid post f : reads p mid post f → reads (p /// q) mid post f.
Proof.
  intros Hp i toks m Hd Hi. destruct (Hp i toks m Hd Hi) as (t1 & m1 & E1 & H1). exists t1, m1.
  unfold alt_p. by rewrite E1.
Qed.

Lemma reads_alt_r p q mid post f : fails p (mid ++ post) → reads q mid post f → reads (p /// q) mid post f.
Proof.
  intros Hp Hq i toks m Hd Hi. destruct (Hp i toks m Hd Hi) as [m' E]. unfold alt_p. rewrite E.
  exact (Hq i toks m' Hd Hi).
Qed.

Lemma fails_alt p q rest : fails p rest → fails q rest → fails (p /// q) rest.
Proof.
  intros Hp Hq i toks m Hd Hi. destruct (Hp i toks m Hd Hi) as [m' E]. unfold alt_p. rewrite E.
  exact (Hq i toks m' Hd Hi).
Qed.

Lemma reads_not p rest : fails p rest → reads (not_p p) [] rest id.
Proof.
  intros Hp i toks m Hd Hi. destruct (Hp i toks m Hd Hi) as [m' E]. exists toks, m'. unfold not_p.
  rewrite E, Nat.add_0_r. done.
Qed.

Lemma fails_not p mid post f : reads p mid post f → fails (not_p p) (mid ++ post).
Proof.
  intros Hp i toks m Hd Hi. destruct (Hp i toks m Hd Hi) as (t1 & m1 & E1 & H1). exists m1.
  unfold not_p. by rewrite E1.
Qed.

Lemma reads_empty rest : reads empty_p [] rest id.
Proof. intros i toks m Hd Hi. exists toks, m. by rewrite Nat.add_0_r. Qed.

Lemma reads_opt_no p rest : fails p rest → reads (opt_p p) [] rest id.
Proof. intros Hp. apply reads_alt_r; [done|apply reads_empty]. Qed.

(** What a token of rule [r] over [mid] adds. *)
Definition rule_calls (r : pegRule) (mid : list string) (st : calls) : calls :=
  match r with rulePegText => (st.1, str_join EmptyString mid) | r => act_calls r st end.

Lemma reads_rule r p mid post f :
  reads p mid post f → reads (rule r p) mid post (λ st, rule_calls r mid (f st)).
Proof.
  intros Hp i toks m Hd Hi. destruct (Hp i toks m Hd Hi) as (t1 & m1 & E1 & H1). unfold rule. rewrite E1.
  eexists _, _. split; [done|]. simpl. unfold tree_calls. simpl. fold (tree_calls buffer t1). rewrite H1.
  unfold token_calls, rule_calls, token_text. simpl. destruct r; try done.
  by rewrite Nat.add_comm, Nat.add_sub, Hd, take_app_length.
Qed.

(** A rule that is neither an action nor the text of a token. *)
Definition quiet (r : pegRule) : bool :=
  match r with rulePegText => false | r => match token_action r EmptyString with Some _ => false | None => true end end.

Lemma reads_quiet r p mid post f : quiet r = true → reads p mid post f → reads (rule r p) mid post f.
Proof.
  intros Hq Hp i toks m Hd Hi. destruct (reads_rule r p mid post f Hp i toks m Hd Hi) as (t1 & m1 & E1 & H1).
  exists t1, m1. split; [done|]. rewrite H1. by destruct r.
Qed.

Lemma fails_rule r p rest : fails p rest → fails (rule r p) rest.
Proof. intros Hp i toks m Hd Hi. destruct (Hp i toks m Hd Hi) as [m' E]. exists m'. unfold rule. by rewrite E. Qed.

Lemma reads_act r rest : r ≠ rulePegText → reads (act r) [] rest (act_calls r).
Proof.
  intros Hr i toks m Hd Hi. rewrite Nat.add_0_r. eexists _, _. split; [done|]. simpl. unfold tree_calls. simpl.
  unfold token_calls. simpl. by destruct r.
Qed.

Lemma peek_drop i toks m rest :
  drop i buffer = rest → peek buffer {| position := i; tree := toks; max_token := m |} = head rest.
Proof. intros <-. unfold peek. simpl. rewrite <-(Nat.add_0_r i) at 1. rewrite <-lookup_drop. by destruct (drop i buffer). Qed.

Lemma reads_class f u post : f u = true → reads (class_p buffer f) [u] post id.
Proof.
  intros Hf i toks m Hd Hi. unfold class_p. rewrite (peek_drop i toks m _ Hd). simpl. rewrite Hf.
  exists toks, m. split; [|done]. unfold advance. simpl. by rewrite Nat.add_comm.
Qed.

Lemma fails_class f rest :
  match rest with u :: _ => f u = false | [] => True end → fails (class_p buffer f) rest.
Proof.
  intros Hf i toks m Hd Hi. unfold class_p. rewrite (peek_drop i toks m _ Hd). destruct rest as [|u rest]; [by eexists|].
  simpl. rewrite Hf. by eexists.
Qed.

Lemma reads_switch g mid post f : reads (g (head (mid ++ post))) mid post f → reads (switch buffer g) mid post f.
Proof. intros Hg i toks m Hd Hi. unfold switch. rewrite (peek_drop i toks m _ Hd). by apply Hg. Qed.

Lemma fails_switch g rest : fails (g (head rest)) rest → fails (switch buffer g) rest.
Proof. intros Hg i toks m Hd Hi. unfold switch. rewrite (peek_drop i toks m _ Hd). by apply Hg. Qed.

(** A loop reads a list of texts that do not change the calls. *)
Lemma reads_star fuel p mids post :
  Forall (λ mid, ∀ rest, reads p mid rest id) mids → fails p post → length mids < fuel →
  reads (star_p fuel p) (concat mids) post id.
Proof.
  intros Hm Hf. unfold star_p. revert fuel. induction Hm as [|mid mids Hmid Hm IH]; intros fuel Hl;
    (destruct fuel as [|n]; [simpl in Hl; lia|]); intros i toks m Hd Hi; simpl.
  - destruct (Hf i toks m Hd Hi) as [m' ->]. exists toks, m'. by rewrite Nat.add_0_r.
  - simpl in Hd, Hl. rewrite <-app_assoc in Hd. destruct (Hmid _ i toks m Hd Hi) as (t1 & m1 & -> & H1).
    destruct (drop_mid i mid _ Hd Hi) as [Hd' Hi']. destruct (IH n ltac:(lia) _ t1 m1 Hd' Hi') as (t2 & m2 & -> & H2).
    exists t2, m2. rewrite length_app, Nat.add_assoc, H2, H1. done.
Qed.

(** A loop whose first round makes the calls [f] and whose second fails. *)
Lemma reads_star_one fuel p mid post f :
  reads p mid post f → fails p post → 1 < fuel → reads (star_p fuel p) mid post f.
Proof.
  intros Hp Hf Hl i toks m Hd Hi. unfold star_p. destruct fuel as [|[|n]]; [lia..|]. simpl.
  destruct (Hp i toks m Hd Hi) as (t1 & m1 & -> & H1). destruct (drop_mid i mid _ Hd Hi) as [Hd' Hi'].
  destruct (Hf _ t1 m1 Hd' Hi') as [m' ->]. by exists t1, m'.
Qed.

Lemma reads_eq p mid mid' post f f' :
  reads p mid post f → mid = mid' → (∀ st, f st = f' st) → reads p mid' post f'.
Proof.
  intros Hp <- Hf i toks m Hd Hi. destruct (Hp i toks m Hd Hi) as (t1 & m1 & E1 & H1). exists t1, m1.
  by rewrite <-Hf.
Qed.
End reads.

(** * Words *)

(** The bytes of a string as runes. *)
Fixpoint bytes (s : string) : list string :=
  match s with EmptyString => [] | String c r => String c EmptyString :: bytes r end.

Lemma bytes_app s t : bytes (s +:+ t) = bytes s ++ bytes t.
Proof. induction s as [|c s IH]; [done|]. rewrite str_app_cons. simpl. by rewrite IH. Qed.

Lemma join_bytes s : str_join EmptyString (bytes s) = s.
Proof.
  induction s as [|c s IH]; [done|]. destruct s as [|d s]; [done|].
  change (bytes (String c (String d s))) with (String c EmptyString :: String d EmptyString :: bytes s).
  change (str_join EmptyString (String c EmptyString :: String d EmptyString :: bytes s)) with
    (String c EmptyString +:+ str_join EmptyString (bytes (String d s))). by rewrite IH.
Qed.

Lemma runes_bytes s : str_all (in_range 0 127) s = true → runes s = bytes s.
Proof.
  intros Hs. rewrite <-(join_bytes s) at 1. apply runes_join.
  induction s as [|c s IH]; simpl in *; constructor; apply andb_true_iff in Hs as [Hc Hs]; [|by apply IH].
  intros t. unfold next_rune, rune_head. by rewrite Hc.
Qed.

Inductive letter : Set := Plain (c : ascii) | Escaped (c : ascii).

Definition letter_text (l : letter) : list string :=
  match l with
  | Plain c => [String c EmptyString]
  | Escaped c => [String backslash EmptyString; String c EmptyString]
  end.

Definition inner_byte (c : ascii) : bool := is_alnum c || str_mem c "-@._?*".
Definition special (c : ascii) : bool := bool_decide (c ∈ special_chars).

Definition starting (l : letter) : bool := match l with Plain c => start_byte c | Escaped c => special c end.
Definition inner (l : letter) : bool := match l with Plain c => inner_byte c | Escaped c => special c end.

Fixpoint inner_word (s : string) : bool :=
  match s with
  | EmptyString => true
  | String c r =>
      if bool_decide (c = backslash)
      then match r with String d r => special d && inner_word r | EmptyString => false end
      else inner_byte c && inner_word r
  end.

Definition begins_keyword (s : string) : bool :=
  String.prefix "AND" s || String.prefix "OR" s || String.prefix "NOT" s.

(** A word a query may hold as the name of a field or as a term: letters,
    numbers and some signs, others behind a backslash, and no keyword in front. *)
Definition query_word (s : string) : bool :=
  match s with String c _ => bool_decide (c = backslash) || start_byte c | EmptyString => false end
  && inner_word s && negb (begins_keyword s).

Lemma inner_word_letters s :
  inner_word s = true → ∃ ls, bytes s = concat (letter_text <$> ls) ∧ Forall (λ l, inner l = true) ls ∧
    length ls ≤ String.length s ∧ (∀ c r, s = String c r → c ≠ backslash → head ls = Some (Plain c)) ∧
    (∀ r, s = String backslash r → ∃ d, head ls = Some (Escaped d)).
Proof.
  induction s as [s IH] using (induction_ltof1 _ String.length). destruct s as [|c r]; [exists []; naive_solver|].
  simpl. case_bool_decide as E; [subst|].
  - destruct r as [|d r]; [done|]. intros [Hd Hr]%andb_true_iff.
    destruct (IH r) as (ls & Hb & Hi & Hl & _); [unfold ltof; simpl; lia|done|].
    exists (Escaped d :: ls). simpl. rewrite Hb. split_and!; [done|by constructor|lia|naive_solver|naive_solver].
  - intros [Hd Hr]%andb_true_iff. destruct (IH r) as (ls & Hb & Hi & Hl & _); [unfold ltof; simpl; lia|done|].
    exists (Plain c :: ls). simpl. rewrite Hb. split_and!; [done|by constructor|lia|naive_solver|naive_solver].
Qed.

(** A word begins with a letter that may start one. *)
Lemma query_word_letters s :
  query_word s = true → ∃ l ls, bytes s = concat (letter_text <$> (l :: ls)) ∧ starting l = true ∧
    Forall (λ l, inner l = true) ls ∧ length ls ≤ String.length s.
Proof.
  unfold query_word. intros [[Hs Hi]%andb_true_iff _]%andb_true_iff. destruct s as [|c r]; [done|].
  destruct (inner_word_letters _ Hi) as (ls & Hb & Hf & Hl & Hp & He).
  destruct (decide (c = backslash)) as [->|Hc].
  - destruct (He r eq_refl) as [d Hd]. destruct ls as [|l ls]; [done|]. injection Hd as ->.
    apply Forall_cons_1 in Hf as [Hd Hf]. exists (Escaped d), ls. split_and!; [done..|]. simpl in *. lia.
  - pose proof (Hp c r eq_refl Hc) as Hh. destruct ls as [|l ls]; [done|]. injection Hh as ->.
    apply Forall_cons_1 in Hf as [Hd Hf]. exists (Plain c), ls. rewrite bool_decide_false in Hs by done.
    split_and!; [done..|]. simpl in *. lia.
Qed.

(** The letters of a word that the first loop takes. *)
Lemma starting_prefix ls :
  ∃ l1 l2, ls = l1 ++ l2 ∧ Forall (λ l, starting l = true) l1 ∧ (∀ l, head l2 = Some l → starting l = false).
Proof.
  induction ls as [|l ls (l1 & l2 & -> & H1 & H2)]; [by exists [], []|].
  destruct (starting l) eqn:E; [exists (l :: l1), l2|exists [], (l :: l1 ++ l2)]; split_and!; auto; naive_solver.
Qed.

Section words.
  Context (uniLN : string → bool) (buffer : list string) (fuel : nat).
  Local Abbreviation reads := (reads buffer).
  Local Abbreviation fails := (fails buffer).

(** What may follow a word. *)
Definition stops (post : list string) : Prop := match post with u :: _ => u = ":" ∨ u = " " | [] => True end.

Lemma is_rune_byte c d : is_rune c (Some (String d EmptyString)) = bool_decide (d = c).
Proof. unfold is_rune. apply bool_decide_ext. split; [congruence|by intros ->]. Qed.

Lemma reads_chr c post : reads (chr buffer c) [String c EmptyString] post id.
Proof. apply reads_class. by apply bool_decide_true. Qed.

Lemma fails_chr c rest :
  match rest with u :: _ => u ≠ String c EmptyString | [] => True end → fails (chr buffer c) rest.
Proof. intros H. apply fails_class. destruct rest; [done|]. by apply bool_decide_false. Qed.

Lemma reads_special c post : special c = true → reads (special_char_p buffer) [String c EmptyString] post id.
Proof. intros Hc. apply reads_quiet; [done|]. by apply reads_class. Qed.

Lemma reads_escaped c post :
  special c = true → reads (chr buffer backslash >>> special_char_p buffer) (letter_text (Escaped c)) post id.
Proof. intros Hc. apply (reads_seq buffer _ _ [_] [_] post id id); [apply reads_chr|by apply reads_special]. Qed.

Lemma reads_start l post : starting l = true → reads (start_letter_p uniLN buffer) (letter_text l) post id.
Proof.
  intros Hl. apply reads_quiet; [done|]. apply reads_switch. destruct l as [c|c]; [|by apply reads_escaped].
  simpl in *. rewrite is_rune_byte, bool_decide_false by (by intros ->). apply reads_class. simpl. by rewrite Hl.
Qed.

Lemma reads_inner l post : inner l = true → reads (inner_letter_p uniLN buffer) (letter_text l) post id.
Proof.
  intros Hl. apply reads_switch. destruct l as [c|c]; [|by apply reads_escaped].
  simpl in *. rewrite is_rune_byte, bool_decide_false by (by intros ->). by apply reads_class.
Qed.

Lemma fails_start rest :
  match rest with [] => True | String c EmptyString :: _ => starting (Plain c) = false ∧ c ≠ backslash | _ => False end →
  fails (start_letter_p uniLN buffer) rest.
Proof.
  intros H. apply fails_rule, fails_switch. destruct rest as [|[|c [|]] rest]; try done; [by apply fails_class|].
  simpl in *. rewrite is_rune_byte, bool_decide_false by (by destruct H). apply fails_class. simpl.
  destruct H as [-> _]. done.
Qed.

Lemma fails_start_stop post : stops post → fails (start_letter_p uniLN buffer) post.
Proof. intros H. apply fails_start. destruct post as [|u post]; [done|]. by destruct H as [-> | ->]. Qed.

Lemma fails_inner_stop post : stops post → fails (inner_letter_p uniLN buffer) post.
Proof.
  intros H. apply fails_switch. destruct post as [|u post]; [by apply fails_class|].
  destruct H as [-> | ->]; by apply fails_class.
Qed.

Lemma reads_word w post :
  query_word w = true → String.length w < fuel → stops post →
  reads (valid_letter_p uniLN buffer fuel) (bytes w) post id.
Proof.
  intros Hw Hf Hp. destruct (query_word_letters w Hw) as (l & ls & Hb & Hl & Hls & Hlen).
  destruct (starting_prefix ls) as (l1 & l2 & -> & H1 & H2). rewrite length_app in Hlen.
  apply reads_quiet; [done|]. apply Forall_app in Hls as [_ Hi]. simpl in Hb. rewrite fmap_app, concat_app, app_assoc in Hb.
  rewrite Hb. apply (reads_seq buffer _ _ _ _ _ id id); [apply (reads_seq buffer _ _ _ _ _ id id)|].
  - by apply reads_start.
  - apply reads_star; [|destruct l2 as [|l' l2]; [by apply fails_start_stop|]|rewrite length_fmap; lia].
    + apply Forall_fmap. eapply Forall_impl; [exact H1|]. intros k Hk rest. by apply reads_start.
    + specialize (H2 l' eq_refl). apply Forall_cons_1 in Hi as [Hi _]. destruct l' as [c|c]; [|simpl in *; congruence].
      apply fails_start. simpl. split; [done|]. by intros ->.
  - apply reads_star; [|by apply fails_inner_stop|rewrite length_fmap; lia].
    apply Forall_fmap. eapply Forall_impl; [exact Hi|]. intros k Hk rest. by apply reads_inner.
Qed.

Lemma fails_valid post : stops post → fails (valid_letter_p uniLN buffer fuel) post.
Proof. intros H. by apply fails_rule, fails_seq, fails_seq, fails_start_stop. Qed.
End words.

(** * Tests *)

Section tests.
  Context (uniLN : string → bool) (buffer : list string) (fuel : nat).
  Local Abbreviation reads := (reads buffer).
  Local Abbreviation fails := (fails buffer).

Lemma reads_lit t post : reads (lit buffer t) (bytes t) post id.
Proof.
  induction t as [|c t IH]; [apply reads_empty|].
  exact (reads_seq buffer _ _ [_] _ _ id id (reads_chr buffer c _) IH).
Qed.

Lemma fails_lit k w post :
  str_all is_upper k = true → String.prefix k w = false → stops post → fails (lit buffer k) (bytes w ++ post).
Proof.
  revert w. induction k as [|c k IH]; intros w Hk Hw Hp; [by destruct w|]. simpl in Hk.
  apply andb_true_iff in Hk as [Hc Hk]. destruct w as [|d w].
  - apply fails_seq, fails_chr. destruct post as [|u post]; [done|]. destruct Hp as [-> | ->]; by intros [= <-].
  - simpl in Hw. destruct (Ascii.ascii_dec c d) as [<-|Hne].
    + apply (fails_after buffer _ _ [_] _ id); [apply reads_chr|]. by apply IH.
    + apply fails_seq, fails_chr. simpl. congruence.
Qed.

Lemma fails_keyword w post : begins_keyword w = false → stops post → fails (keyword_p buffer) (bytes w ++ post).
Proof.
  unfold begins_keyword. intros [[H1 H2]%orb_false_iff H3]%orb_false_iff Hp.
  apply fails_rule, fails_switch. repeat case_match; by apply fails_lit.
Qed.

Lemma fails_word_chr c w post :
  query_word w = true → special c = true → c ≠ backslash → c ≠ "*"%char → fails (chr buffer c) (bytes w ++ post).
Proof.
  unfold query_word. intros [[Hs _]%andb_true_iff _]%andb_true_iff Hc Hb Ha. destruct w as [|d w]; [done|].
  apply fails_chr. simpl. intros [= ->]. rewrite bool_decide_false in Hs by done. simpl in Hs.
  apply bool_decide_eq_true_1 in Hc. unfold special_chars in Hc. set_unfold in Hc.
  repeat destruct Hc as [->|Hc]; done.
Qed.

Definition good_word (w : string) : Prop := query_word w = true ∧ String.length w < fuel.

Lemma good_no_keyword w : query_word w = true → begins_keyword w = false.
Proof. unfold query_word. intros [_ H]%andb_true_iff. by apply negb_true_iff. Qed.
Hint Resolve good_no_keyword : core.

Lemma reads_name w post :
  good_word w → reads (field_name_p uniLN buffer fuel) (bytes w) (":" :: post) (λ st, (st.1 ++ [AAddField w], w)).
Proof.
  intros [Hw Hf]. apply reads_quiet; [done|]. eapply reads_eq.
  - eapply (reads_seq buffer _ _ (bytes w) []); [|by apply reads_act]. apply (reads_rule buffer rulePegText).
    apply (reads_seq buffer _ _ [] (bytes w) _ id id).
    + apply reads_not, fails_keyword; [auto|by left].
    + rewrite <-(app_nil_r (bytes w)). apply (reads_seq buffer _ _ _ _ _ id id).
      * apply reads_word; [done..|by left].
      * apply (reads_star buffer fuel _ []); [done| |simpl; lia]. apply fails_valid. by left.
  - by rewrite app_nil_r.
  - intros [a x]. simpl. by rewrite join_bytes.
Qed.

Lemma reads_term w post :
  good_word w → stops post → reads (term_p uniLN buffer fuel) (bytes w) post (λ st, (st.1 ++ [AAddTerm w], w)).
Proof.
  intros [Hw Hf] Hp. apply reads_quiet; [done|]. eapply reads_eq.
  - eapply (reads_seq buffer _ _ (bytes w) []); [|by apply reads_act]. apply (reads_rule buffer rulePegText).
    apply reads_alt_r; [by apply fails_seq, fails_keyword; auto|].
    apply (reads_seq buffer _ _ [] (bytes w) _ id id); [apply (reads_seq buffer _ _ [] [] _ id id)|].
    + by apply reads_not, fails_keyword; auto.
    + by apply reads_not, fails_word_chr.
    + by apply reads_word.
  - by rewrite app_nil_r.
  - intros [a x]. simpl. by rewrite join_bytes.
Qed.

(** The text "field:term" of a test and what it calls. *)
Definition test_text (l : literal) : list string := bytes (l_field l) ++ [":"] ++ bytes (l_term l).

Definition test_calls (l : literal) (st : calls) : calls :=
  (st.1 ++ [AStartBasic; AAddField (l_field l); AAddTerm (l_term l)], l_term l).

Definition good_test (l : literal) : Prop := good_word (l_field l) ∧ good_word (l_term l).

Context (body : parser).

Lemma reads_field l post :
  good_test l → stops post → reads (field_p uniLN buffer fuel body) (test_text l) post (test_calls l).
Proof.
  intros [Hf Ht] Hp. apply reads_quiet; [done|]. apply reads_alt_l, reads_quiet; [done|].
  unfold test_text. rewrite app_assoc. eapply reads_eq; [eapply reads_seq; [eapply reads_seq|]|done|].
  - eapply (reads_seq buffer _ _ [] (bytes (l_field l))); [by apply reads_act|]. by apply reads_name.
  - apply reads_chr.
  - by apply reads_alt_l, reads_term.
  - intros [a x]. unfold test_calls. simpl. by rewrite <-!app_assoc.
Qed.

(** What cannot begin a group. *)
Definition no_group (rest : list string) : Prop :=
  match rest with u :: _ => byte_in is_blank u = false ∧ u ≠ "(" | [] => True end.

Lemma fails_space rest :
  match rest with u :: _ => byte_in is_blank u = false | [] => True end → fails (space_p buffer fuel) rest.
Proof. intros H. by apply fails_rule, fails_seq, fails_class. Qed.

Lemma fails_group rest : no_group rest → fails (group_p buffer fuel body) rest.
Proof.
  intros H. apply fails_rule, fails_seq, fails_seq.
  change rest with ([] ++ [] ++ rest). eapply (fails_after buffer _ _ ([] ++ [])).
  - apply (reads_seq buffer _ _ [] []); [|by apply reads_act]. apply reads_opt_no, fails_space.
    destruct rest; [done|]. apply H.
  - apply fails_rule, fails_seq, fails_seq, fails_rule, fails_chr. destruct rest; [done|]. apply H.
Qed.

Lemma test_no_group l post : good_test l → no_group (test_text l ++ post).
Proof.
  intros [[Hw _] _]. unfold test_text, query_word in *. apply andb_true_iff in Hw as [[Hw _]%andb_true_iff _].
  destruct (l_field l) as [|c r]; [done|]. simpl. split.
  - destruct (is_blank c) eqn:E; [|done]. unfold is_blank in E. apply bool_decide_eq_true_1 in E. set_unfold in E.
    repeat destruct E as [->|E]; done.
  - by intros [= ->].
Qed.
End tests.

(** * Queries *)

Section queries.
  Context (uniLN : string → bool) (buffer : list string) (fuel : nat) (Hfuel : 1 < fuel).
  Local Abbreviation reads := (reads buffer).
  Local Abbreviation fails := (fails buffer).

(** No field, term, string or group begins here. *)
Record blocked (rest : list string) : Prop := {
  bl_name : fails (field_name_p uniLN buffer fuel) rest;
  bl_term : fails (term_p uniLN buffer fuel) rest;
  bl_string : fails (string_p uniLN buffer fuel) rest;
  bl_group : no_group rest;
}.

(** An action, then something that fails. *)
Lemma fails_act r p rest : r ≠ rulePegText → fails p rest → fails (act r >>> p) rest.
Proof. intros Hr Hp. eapply (fails_after buffer _ _ []); [by apply reads_act|done]. Qed.

Section blocked.
  Context (rest : list string) (Hr : blocked rest) (body : parser).

Lemma blocked_field : fails (field_p uniLN buffer fuel body) rest.
Proof.
  destruct Hr as [Hn _ _ _].
  apply fails_rule, fails_alt; apply fails_rule; [do 2 apply fails_seq|do 3 apply fails_seq]; by apply fails_act.
Qed.

Lemma blocked_range : fails (field_range_p uniLN buffer fuel) rest.
Proof.
  destruct Hr as [Hn _ _ _].
  apply fails_rule, fails_alt; apply fails_rule; (do 6 apply fails_seq); by apply fails_act.
Qed.

Lemma blocked_binary : fails (binary_op_p uniLN buffer fuel body) rest.
Proof.
  apply fails_rule. do 4 apply fails_seq. destruct Hr. repeat apply fails_alt; [..|done].
  - by apply fails_group.
  - apply blocked_field.
  - apply blocked_range.
Qed.

Lemma blocked_fuzzy : fails (fuzzy_op_p uniLN buffer fuel) rest ∧ fails (boost_op_p uniLN buffer fuel) rest.
Proof. destruct Hr. split; apply fails_rule; repeat apply fails_seq; by apply fails_alt. Qed.
End blocked.

Lemma blocked_end : blocked [].
Proof.
  split; [| | |done].
  - apply fails_rule, fails_seq, fails_rule. eapply (fails_after buffer _ _ []).
    + by apply reads_not, (fails_keyword buffer EmptyString).
    + by apply fails_seq, fails_valid.
  - apply fails_rule, fails_seq, fails_rule, fails_alt; [by apply fails_seq, (fails_keyword buffer EmptyString)|].
    eapply (fails_after buffer _ _ []); [|by apply fails_valid].
    eapply (reads_seq buffer _ _ [] []); apply reads_not; [by apply (fails_keyword buffer EmptyString)|by apply fails_chr].
  - by apply fails_rule, fails_seq, fails_seq, fails_seq, fails_chr.
Qed.

Lemma reads_not_keyword post : reads (keyword_p buffer) (bytes "NOT") post id.
Proof. apply reads_quiet; [done|]. apply reads_switch, reads_lit. Qed.

Lemma blocked_not post : blocked (bytes "NOT" ++ " " :: post).
Proof.
  split.
  - apply fails_rule, fails_seq, fails_rule, fails_seq. eapply fails_not, reads_not_keyword.
  - apply fails_rule, fails_seq, fails_rule, fails_alt.
    + eapply fails_after; [apply reads_not_keyword|]. apply fails_seq, fails_valid. by right.
    + do 2 apply fails_seq. eapply fails_not, reads_not_keyword.
  - by apply fails_rule, fails_seq, fails_seq, fails_seq, fails_chr.
  - done.
Qed.

Section body.
  Context (body : parser).

(** Neither NOT nor one of the signs is in front. *)
Lemma fails_unary rest :
  fails (lit buffer "NOT") rest →
  match rest with u :: _ => u ≠ "!" ∧ u ≠ "-" ∧ u ≠ "+" | [] => True end →
  fails (unary_op_p uniLN buffer fuel body) rest.
Proof.
  intros Hn Hs. apply fails_rule, fails_alt.
  - apply fails_rule, fails_alt; [by apply fails_seq, fails_seq, fails_rule, fails_seq|].
    apply fails_seq, fails_seq, fails_rule, fails_seq, fails_chr. destruct rest; [done|]. apply Hs.
  - apply fails_switch. assert (is_rune "-" (head rest) = false ∧ is_rune "+" (head rest) = false) as [-> ->].
    { destruct rest; [done|]. unfold is_rune. simpl. split; apply bool_decide_false; naive_solver. }
    apply fails_rule. do 3 apply fails_seq. apply fails_act; [done|]. by apply fails_rule, fails_seq.
Qed.

Lemma expression_end : fails (expression_p uniLN buffer fuel body) [].
Proof.
  pose proof blocked_end as Hb. destruct (blocked_fuzzy [] Hb) as [Hz Ho].
  apply fails_rule. repeat apply fails_alt.
  - apply fails_rule. repeat apply fails_alt; [by apply blocked_binary| |done..]. apply fails_unary; [|done].
    by apply fails_seq, fails_chr.
  - by apply blocked_field.
  - by apply blocked_range.
  - apply fails_switch. apply Hb.
Qed.

(** What a binary operator joins. *)
Lemma reads_operand l post :
  good_test fuel l → stops post →
  reads (group_p buffer fuel body /// field_p uniLN buffer fuel body /// field_range_p uniLN buffer fuel
         /// term_p uniLN buffer fuel) (test_text l) post (test_calls l).
Proof.
  intros Hl Hp. apply reads_alt_l, reads_alt_l, reads_alt_r; [|by apply reads_field].
  by eapply fails_group, test_no_group.
Qed.

(** A last test, not negated. *)
Lemma reads_last l :
  good_test fuel l → reads (expression_p uniLN buffer fuel body) (test_text l) [] (test_calls l).
Proof.
  intros Hl. pose proof Hl as [[Hf Hf'] Ht]. pose proof (good_no_keyword _ Hf) as Hk.
  assert (∀ c, c ≠ ":"%char →
    fails (term_or_string uniLN buffer fuel >>> chr buffer c) (test_text l ++ [])) as Hop.
  { intros c Hc. unfold test_text. rewrite <-!app_assoc. eapply fails_after.
    - apply reads_alt_l, reads_term; [done|by left].
    - apply fails_chr. simpl. congruence. }
  apply reads_quiet; [done|]. apply reads_alt_l, reads_alt_l, reads_alt_r; [|by apply reads_field].
  apply fails_rule. repeat apply fails_alt.
  - apply fails_rule. do 2 apply fails_seq. rewrite <-(app_nil_r (test_text l)) at 1. eapply fails_after.
    + eapply (reads_seq buffer _ _ (test_text l) []); [by apply reads_operand|by apply reads_opt_no, fails_space].
    + apply fails_rule, fails_alt; apply fails_seq, fails_rule, fails_alt; by apply fails_seq, fails_chr.
  - unfold test_text. rewrite <-!app_assoc. apply fails_unary.
    + apply fails_lit; [done| |by left]. unfold begins_keyword in Hk. by apply orb_false_iff in Hk as [_ Hk].
    + unfold query_word in Hf. destruct (l_field l) as [|c r]; [done|]. simpl.
      apply andb_true_iff in Hf as [[Hs _]%andb_true_iff _]. split_and!; intros [= ->]; done.
  - apply fails_rule. do 3 apply fails_seq. by apply Hop.
  - apply fails_rule. do 2 apply fails_seq. by apply Hop.
Qed.

Lemma reads_blank post :
  match post with u :: _ => byte_in is_blank u = false | [] => True end →
  reads (space_p buffer fuel) (bytes " ") post id.
Proof.
  intros Hp. apply reads_quiet; [done|]. apply (reads_seq buffer _ _ [" "] [] _ id id).
  - by apply reads_class.
  - apply (reads_star buffer fuel _ []); [done|by apply fails_class|simpl; lia].
Qed.

(** A last test behind NOT. *)
Lemma reads_last_not l :
  good_test fuel l →
  reads (expression_p uniLN buffer fuel body) (bytes "NOT " ++ test_text l) []
    (λ st, test_calls l (st.1 ++ [ASetNotQuery OpUnaryNot], st.2)).
Proof.
  intros Hl. apply reads_quiet; [done|]. do 3 apply reads_alt_l. apply reads_quiet; [done|].
  do 2 apply reads_alt_l. apply reads_alt_r.
  { apply blocked_binary. exact (blocked_not (test_text l ++ [])). }
  apply reads_quiet; [done|]. apply reads_alt_l, reads_quiet; [done|]. apply reads_alt_l.
  change (bytes "NOT ") with ((bytes "NOT" ++ []) ++ bytes " "). eapply reads_eq; [|done|].
  - eapply reads_seq; [eapply reads_seq|].
    + apply reads_quiet; [done|]. eapply reads_seq; [apply reads_lit|by apply reads_act].
    + apply reads_blank. pose proof (test_no_group fuel l [] Hl) as Hg. unfold no_group in Hg.
      destruct (test_text l ++ []); [done|]. apply Hg.
    + do 3 apply reads_alt_l. by apply reads_field.
  - by intros [a x].
Qed.

Definition op_text (l : literal) : string := if l_and l then "AND" else "OR".

Lemma reads_boolean l post :
  reads (boolean_operator_p buffer) (bytes (op_text l)) post (λ st, (st.1 ++ [AAddOp (l_op l)], st.2)).
Proof.
  apply reads_quiet; [done|]. unfold op_text, l_op. destruct (l_and l).
  - apply reads_alt_r.
    { apply fails_seq, fails_rule, fails_alt; by apply fails_seq, fails_chr. }
    apply (reads_seq buffer _ _ (bytes "AND") [] post id (act_calls ruleAction11)); [|by apply reads_act].
    apply reads_quiet; [done|]. apply reads_alt_l, reads_lit.
  - apply reads_alt_l. apply (reads_seq buffer _ _ (bytes "OR") [] post id (act_calls ruleAction10)); [|by apply reads_act].
    apply reads_quiet; [done|]. apply reads_alt_l, reads_lit.
Qed.

(** A test, an operator and what follows. *)
Lemma reads_joined l rest f :
  good_test fuel l → reads body rest [] f →
  match rest with u :: _ => byte_in is_blank u = false | [] => True end →
  reads (expression_p uniLN buffer fuel body)
    (test_text l ++ bytes (" " +:+ op_text l +:+ " ") ++ rest) []
    (λ st, f ((test_calls l st).1 ++ [AAddOp (l_op l)], l_term l)).
Proof.
  intros Hl Hb Hr. apply reads_quiet; [done|]. do 3 apply reads_alt_l. apply reads_quiet; [done|].
  do 3 apply reads_alt_l. apply reads_quiet; [done|]. rewrite !bytes_app, !app_assoc.
  eapply reads_eq; [|done|].
  - eapply reads_seq; [|exact Hb]. eapply reads_seq; [eapply reads_seq; [eapply reads_seq|]|].
    + apply reads_operand; [done|by right].
    + apply reads_alt_l, reads_blank. unfold op_text. by destruct (l_and l).
    + apply reads_boolean.
    + rewrite <-(app_nil_r (bytes " ")). apply (reads_seq buffer _ _ _ _ _ id id).
      * apply reads_blank. by rewrite app_nil_r.
      * apply (reads_star buffer fuel _ []); [done| |simpl; lia]. rewrite app_nil_r. by apply fails_space.
  - done.
Qed.
End body.
End queries.

(** * The text of a query *)

Definition test_string (l : literal) : string := l_field l +:+ ":" +:+ l_term l.

(** The tests before the last one, each with the operator behind it, and the
    last one, possibly behind NOT. *)
Fixpoint query_text (init : list literal) (l : literal) : string :=
  match init with
  | [] => (if l_not l then "NOT " else EmptyString) +:+ test_string l
  | l0 :: init => test_string l0 +:+ " " +:+ op_text l0 +:+ " " +:+ query_text init l
  end.

Lemma bytes_test l : bytes (test_string l) = test_text l.
Proof. unfold test_string, test_text. by rewrite !bytes_app. Qed.

Lemma length_bytes s : length (bytes s) = String.length s.
Proof. induction s as [|c s IH]; simpl; auto. Qed.

Section flat_query.
  Context (uniLN : string → bool) (buffer : list string) (fuel : nat) (Hfuel : 1 < fuel).

Definition flat_calls (init : list literal) (l : literal) (st : calls) : calls :=
  (st.1 ++ flat_actions init l, l_term l).

Lemma query_text_head init l :
  Forall (good_test fuel) (init ++ [l]) →
  match bytes (query_text init l) with u :: _ => byte_in is_blank u = false | [] => True end.
Proof.
  assert (∀ l post, good_test fuel l →
    match bytes (test_string l) ++ post with u :: _ => byte_in is_blank u = false | [] => True end) as Ht.
  { intros l' post Hl. pose proof (test_no_group fuel l' post Hl) as Hg. rewrite bytes_test.
    destruct (test_text l' ++ post); [done|]. apply Hg. }
  destruct init as [|l0 init]; simpl; intros [Hl _]%Forall_cons_1.
  - destruct (l_not l); [done|]. rewrite <-(app_nil_r (bytes _)). by apply (Ht l []).
  - rewrite bytes_app. by apply Ht.
Qed.

Lemma reads_query n init l :
  Forall (good_test fuel) (init ++ [l]) → Forall (λ l, l_not l = false) init → length init < n →
  reads buffer (body_p uniLN buffer fuel n) (bytes (query_text init l)) [] (flat_calls init l).
Proof.
  revert n. induction init as [|l0 init IH]; intros n Hg Hn Hlen; (destruct n as [|n]; [simpl in Hlen; lia|]);
    simpl in Hg; apply Forall_cons_1 in Hg as [Hl Hg].
  all: apply reads_quiet; [done|]; apply reads_star_one; [| |done];
    [|apply fails_alt; [by apply expression_end|by apply fails_space]]; apply reads_alt_l; simpl.
  - unfold flat_calls, flat_actions, open_actions. simpl. destruct (l_not l) eqn:En.
    + rewrite bytes_app, bytes_test. eapply reads_eq; [by apply reads_last_not|done|].
      intros [a x]. unfold test_calls. simpl. by rewrite <-app_assoc.
    + change (EmptyString +:+ test_string l) with (test_string l). rewrite bytes_test. by apply reads_last.
  - apply Forall_cons_1 in Hn as [Hn0 Hn]. rewrite bytes_app, bytes_test.
    rewrite <-!str_app_assoc, bytes_app, !str_app_assoc.
    eapply reads_eq; [apply reads_joined; [done|done|apply (IH n); [done..|simpl in Hlen; lia]|]|done|].
    + by apply query_text_head.
    + intros [a x]. unfold flat_calls, test_calls, flat_actions. simpl. unfold lit_actions. rewrite Hn0. simpl.
      by rewrite <-!app_assoc.
Qed.
End flat_query.

(** ** The whole text *)

Lemma inner_byte_ascii c : inner_byte c = true → in_range 0 127 c = true.
Proof. destruct c as [[] [] [] [] [] [] [] []]; vm_compute; done. Qed.

Lemma special_ascii c : special c = true → in_range 0 127 c = true.
Proof. destruct c as [[] [] [] [] [] [] [] []]; vm_compute; done. Qed.

Lemma inner_word_ascii s : inner_word s = true → str_all (in_range 0 127) s = true.
Proof.
  induction s as [s IH] using (induction_ltof1 _ String.length). destruct s as [|c r]; [done|]. simpl.
  case_bool_decide as E; [subst|].
  - destruct r as [|d r]; [done|]. intros [Hd%special_ascii Hr]%andb_true_iff. simpl. rewrite Hd.
    apply IH; [unfold ltof; simpl; lia|done].
  - intros [Hc%inner_byte_ascii Hr]%andb_true_iff. rewrite Hc. apply IH; [unfold ltof; simpl; lia|done].
Qed.

(** Both sides of a test are words. *)
Definition query_test (l : literal) : bool := query_word (l_field l) && query_word (l_term l).

Lemma query_word_ascii w : query_word w = true → str_all (in_range 0 127) w = true.
Proof. unfold query_word. intros [[_ H]%andb_true_iff _]%andb_true_iff. by apply inner_word_ascii. Qed.

Lemma query_test_ascii l : query_test l = true → str_all (in_range 0 127) (test_string l) = true.
Proof.
  unfold query_test, test_string. intros [Hf%query_word_ascii Ht%query_word_ascii]%andb_true_iff.
  by rewrite !str_all_app, Hf, Ht.
Qed.

Lemma query_text_ascii init l :
  Forall (λ l, query_test l = true) (init ++ [l]) → str_all (in_range 0 127) (query_text init l) = true.
Proof.
  induction init as [|l0 init IH]; simpl; intros [Hl%query_test_ascii Hi]%Forall_cons_1.
  - rewrite str_all_app, Hl. by destruct (l_not l).
  - rewrite !str_all_app, Hl, IH by done. unfold op_text. by destruct (l_and l0).
Qed.

Lemma query_text_bounds init l :
  length init < String.length (query_text init l) ∧ 1 ≤ String.length (query_text init l) ∧
  Forall (λ l', String.length (l_field l') < String.length (query_text init l) ∧
                String.length (l_term l') < String.length (query_text init l)) (init ++ [l]).
Proof.
  induction init as [|l0 init (IH1 & IH2 & IH3)]; simpl; rewrite !str_length_app; unfold test_string;
    rewrite !str_length_app; simpl.
  - split_and!; [lia..|]. repeat constructor; lia.
  - split_and!; [lia..|]. constructor; [lia|]. eapply Forall_impl; [exact IH3|]. simpl. intros l' [??]. lia.
Qed.

(** The actions of a flat query, from its text. *)
Lemma query_text_actions uniLN fuel init l :
  Forall (λ l, query_test l = true) (init ++ [l]) → Forall (λ l, l_not l = false) init →
  length (runes (query_text init l)) < fuel →
  query_actions uniLN fuel (query_text init l) = Some (inl (flat_actions init l)).
Proof.
  intros Hl Hn. pose proof (query_text_ascii init l Hl) as Ha. pose proof (query_text_bounds init l) as (Hb & Hb1 & Hw).
  unfold query_actions, Parse. rewrite runes_bytes, length_bytes by done. intros Hf.
  set (text := query_text init l) in *. set (buffer := bytes text).
  assert (Forall (good_test fuel) (init ++ [l])) as Hg.
  { apply Forall_forall. intros l' Hin. rewrite Forall_forall in Hl, Hw.
    destruct (Hw l' Hin) as [H1 H2]. specialize (Hl l' Hin). unfold query_test in Hl. apply andb_true_iff in Hl as [??].
    repeat split; [done|lia|done|lia]. }
  assert (reads buffer (q_p uniLN buffer fuel) buffer [] (flat_calls init l)) as Hq.
  { apply reads_quiet; [done|]. eapply reads_eq.
    - eapply (reads_seq buffer _ _ buffer []); [apply (reads_query uniLN buffer fuel); [lia|done..|lia]|].
      apply reads_not. by apply fails_class.
    - apply app_nil_r.
    - done. }
  destruct (Hq 0 [] no_token) as (t & m & -> & Ht); [by rewrite app_nil_r|lia|].
  cbn [tree]. fold buffer. by rewrite Execute_tree, Ht.
Qed.

(** * Properties *)

Section properties.
  Context (conf : Conf) (uniLN : string → bool).
  Context {T : Type} {TO : TrieOps T} {RE : Regexp}.

(** C11: the text of a query that is a row of tests "field:term" of plain words
    without wildcards, joined by AND and OR, with the last one possibly behind
    NOT (the grammar refuses NOT before any other test), is parsed, the parser's
    actions build a chain, and the chain, run against the index after any
    history of deletions, collection commands and saves of objects whose lines
    are distinct, non-empty and valid UTF-8, finds exactly the documents whose
    lines satisfy the tests joined from left to right. *)
Theorem text_query_exact {TL : TrieLaws T} (cs : list icmd) idx docs (init : list literal) (l : literal) fuel :
  Forall (good_icmd conf) cs → abs_icmds conf cs !! idx = Some docs →
  Forall (λ l, query_test l = true) (init ++ [l]) → Forall (λ l, l_not l = false) init →
  Forall (good_literal conf uniLN) (init ++ [l]) → length (runes (query_text init l)) < fuel →
  ∃ i acts z r, run_icmds conf (T := T) Initialize cs = Ok i ∧
    query_actions uniLN fuel (query_text init l) = Some (inl acts) ∧
    apply_actions conf uniLN acts empty_token = Ok z ∧
    run_query i idx (Evaluate z) = Ok r ∧
    ∀ k, is_Some (r !! k) ↔
      ∃ lines, docs !! k = Some lines ∧ eval_literals conf uniLN lines false false (init ++ [l]) = true.
Proof.
  intros Hg Hdocs Hq Hn Hl Hf.
  destruct (run_icmds_represents conf abs_defaults Initialize cs (represents_defaults _) Hg) as (i & Hi & Hrep).
  fold (abs_icmds conf cs) in Hrep. pose proof (Hrep idx) as Hidx. rewrite Hdocs in Hidx.
  destruct (idxmap i !! idx) as [ic|] eqn:Ei; inversion Hidx as [? ? Hc|]; subst.
  destruct (flat_chain_exact conf uniLN i idx ic docs init l Ei Hc Hl) as (z & r & Hz & Hr & Hk).
  exists i, (flat_actions init l), z, r. split_and!; [done| |done..]. by apply query_text_actions.
Qed.
End properties.

#[local] Existing Instances words_trie words_trie_laws no_regexp.

(** "role:web1 AND NOT role:web" *)
Lemma text_query_exact_witness :
  ∃ i acts z r, run_icmds default_conf (T := list string) Initialize demo_icmds = Ok i ∧
    query_actions ascii_only 27 "role:web1 AND NOT role:web" = Some (inl acts) ∧
    apply_actions default_conf ascii_only acts empty_token = Ok z ∧
    run_query i "node" (Evaluate z) = Ok r ∧ is_Some (r !! "n3") ∧ r !! "n1" = None.
Proof.
  destruct (abs_icmds default_conf demo_icmds !! "node") as [docs|] eqn:Ed; [|vm_compute in Ed; discriminate].
  destruct (text_query_exact default_conf ascii_only (T := list string) demo_icmds "node" docs
    [demo_lit false "role" "web1" true] (demo_lit true "role" "web" false) 27)
    as (i & acts & z & r & Hi & Ha & Hz & Hr & Hk);
    [apply demo_icmds_good|done|repeat constructor|repeat constructor|repeat constructor; done|vm_compute; lia|].
  exists i, acts, z, r. vm_compute in Ed. injection Ed as <-. split_and!; [done..| |].
  - apply Hk. eexists. split; [vm_compute; reflexivity|]. vm_compute. reflexivity.
  - destruct (r !! "n1") as [d|] eqn:E; [|done]. exfalso.
    destruct (proj1 (Hk "n1")) as (ls & Hls & He); [by rewrite E; eexists|].
    vm_compute in Hls. injection Hls as <-. vm_compute in He. discriminate.
Defined.

Definition refused (query : string) : bool :=
  match query_actions ascii_only 40 query with Some (inr _) => true | _ => false end.

(** A test that is not the last one cannot be negated, a field cannot have a
    keyword in front of its name, and the parameter of a fuzzy search cannot be
    a decimal number, though the chain of such a query could be built. *)
Example refused_queries : forallb refused ["NOT a:b AND c:d"; "ORACLE:x"; "a~0.8"] = true.
Proof. vm_compute. reflexivity. Qed.
