(* ===== verification/PgSearch.v ===== *)
(** Searching with PostgreSQL (src/search/postgres_search.go): a query chain is
    compiled to one SQL statement and the list of its arguments.

    The statement is the text the source builds; [craftFullQuery] numbers its
    placeholders.  The database that runs it is the class [SqlDb]. *)
From S2P Require Import Prelude Gerror Iface Config UtilStrings Flatten FileIndex Query QueryParser.

(** An argument of a statement: the organization's number or a text. *)
Inductive sql_arg : Type := AInt (z : Z) | AStr (s : string).

(** * The text of the clauses *)

Definition ARG : string := "_ARG_".

(** [binOp] *)
Definition binOp (op : Op) : string :=
  if bool_decide (op = OpNotAnOp) then EmptyString
  else if bool_decide (op = OpBinAnd) then " AND " else " OR ".

Definition escapeArg (arg : string) : string :=
  str_replace "?" "_" (str_replace "*" "%" (str_replace "_" "\_" (str_replace "%" "\%" arg))).

Definition has_wildcard (s : string) : bool := str_any (λ c, str_mem c "*?") s.

(** [matchOp]: the operator, and the term as it is left behind. *)
Definition matchOp (term : QueryTerm) : string * QueryTerm :=
  if has_wildcard (qt_term term) then
    (if negating (qt_mod term) then "NOT LIKE" else "LIKE",
     {| qt_term := escapeArg (qt_term term); qt_mod := qt_mod term |})
  else (if negating (qt_mod term) then "<>" else "=", term).

(** [fN], the alias of the table of the link. *)
Definition alias (n : nat) : string := "f" +:+ itoa (Z.of_nat n).

Definition path_clause (n : nat) : string := alias n +:+ ".path OPERATOR(goiardi.~) " +:+ ARG.

Definition value_clause (n : nat) (cop : string) : string := alias n +:+ ".value " +:+ cop +:+ " " +:+ ARG.

Section build.
  Context (conf : Conf) (uniLN : string → bool).

Definition craftAltQueryPath (a b : string) : string := PgSearchQueryKey conf uniLN (str_join "." [a; b]).

(** A clause: its arguments, another path to look for, and its text. *)
Definition clause : Type := (list string * string * string)%type.

Definition buildBasicQuery (field : string) (term : QueryTerm) (tNum : nat) (op : Op) : clause :=
  let opStr := binOp op in
  let originalTerm := qt_term term in
  let '(cop, term) := matchOp term in
  if bool_decide (originalTerm = "*") || bool_decide (originalTerm = EmptyString) then
    ([field], EmptyString, opStr +:+ "(" +:+ alias tNum +:+ ".path ~ " +:+ ARG +:+ ")")
  else if bool_decide (field = EmptyString) then
    ([qt_term term], EmptyString, opStr +:+ "(" +:+ value_clause tNum cop +:+ ")")
  else
    let altQueryPath := craftAltQueryPath field originalTerm in
    let notPath := negating (qt_mod term) in
    let clauseJoin := if notPath then "AND NOT" else "OR" in
    let q := "((" +:+ path_clause tNum +:+ " AND " +:+ value_clause tNum cop +:+ ") " +:+ clauseJoin +:+
             " (" +:+ path_clause tNum +:+ "))" in
    let q := if notPath then
      "(" +:+ q +:+ " OR NOT EXISTS (SELECT 1 FROM found_items WHERE i.item_name = found_items.item_name AND found_items.path OPERATOR(goiardi.~) "
        +:+ ARG +:+ "))"
      else q in
    ([field; qt_term term; altQueryPath] ++ (if notPath then [field] else []), altQueryPath, opStr +:+ q).

(** The word between a term of a group and the one before. *)
Definition term_join (first : bool) (mod_ : Op) : string :=
  if first then EmptyString
  else if bool_decide (mod_ = OpUnaryPro) || bool_decide (mod_ = OpUnaryReq) || bool_decide (mod_ = OpUnaryNot)
  then " AND " else " OR ".

(** The loop over the terms: the clauses on values, those on paths, the
    terms to match and the paths, and the number of the last table.  The
    clauses on values all have the table [tNum]. *)
Fixpoint group_clauses (field : string) (terms : list QueryTerm) (tNum ltNum : nat)
    : list (string * Op) * list (string * Op) * list string * list string * nat :=
  match terms with
  | [] => ([], [], [], [], ltNum)
  | v :: terms =>
      let '(cop, v') := matchOp v in
      let ltreeNot := if bool_decide (qt_mod v = OpUnaryNot) then "!" else EmptyString in
      let arg := field +:+ "." +:+ ltreeNot +:+ PgSearchQueryKey conf uniLN (qt_term v) in
      let '(grouped, groupedPaths, args, groupedArgs, last) := group_clauses field terms tNum (S ltNum) in
      ((value_clause tNum cop, qt_mod v) :: grouped,
       (path_clause (S ltNum), qt_mod v) :: groupedPaths,
       qt_term v' :: args, arg :: groupedArgs, last)
  end.

Fixpoint join_clauses (first : bool) (cs : list (string * Op)) : list string :=
  match cs with
  | [] => []
  | (c, op) :: cs => (term_join first op +:+ c) :: join_clauses false cs
  end.

(** The clause and the number of the last table it uses. *)
Definition buildGroupedQuery (field : string) (terms : list QueryTerm) (tNum : nat) (op : Op) : clause * nat :=
  let '(grouped, groupedPaths, args, groupedArgs, ltNum) := group_clauses field terms tNum tNum in
  ((field :: args ++ groupedArgs, field +:+ ".*",
    binOp op +:+ "((" +:+ path_clause tNum +:+ " AND (" +:+ str_join " " (join_clauses true grouped) +:+
    ")) OR (" +:+ str_join " " (join_clauses true groupedPaths) +:+ "))"), ltNum).

(** One end of a range: the clauses on values and paths and their arguments,
    none for an open end. *)
Definition range_end (field bound sign : string) (tNum : nat) : list (string * string * string * string) :=
  if bool_decide (bound = "*") then []
  else [(alias tNum +:+ ".value " +:+ sign +:+ " " +:+ ARG, bound,
         alias tNum +:+ ".path OPERATOR(goiardi." +:+ sign +:+ ") " +:+ ARG,
         field +:+ "." +:+ PgSearchQueryKey conf uniLN bound)].

Definition buildRangeQuery (field start end_ : string) (inclusive : bool) (tNum : nat) (op : Op) (negated : bool)
    : clause :=
  let '(start, end_) := if str_ltb end_ start then (end_, start) else (start, end_) in
  let xtraPath := field +:+ ".*" in
  let equals := if inclusive then "=" else EmptyString in
  let ends := range_end field start (">" +:+ equals) tNum ++ range_end field end_ ("<" +:+ equals) tNum in
  let ranges := (λ e, e.1.1.1) <$> ends in
  let rangePaths := (λ e, e.1.2) <$> ends in
  (field :: ((λ e, e.1.1.2) <$> ends) ++ xtraPath :: (snd <$> ends), xtraPath,
   binOp op +:+ (if negated then " NOT " else EmptyString) +:+ "(" +:+ path_clause tNum +:+
   (match ends with [] => EmptyString | _ => " AND (" +:+ str_join " AND " ranges +:+ ")" end) +:+
   (match ends with [] => EmptyString
    | _ => " OR (" +:+ path_clause tNum +:+ " AND " +:+ str_join " AND " rangePaths +:+ ")" end) +:+ ")").

(** * The statement *)

(** The statement under construction, with the number of tables so far. *)
Record PgQuery : Type := {
  paths : list string;
  queryStrs : list string;
  arguments : list string;
  tables : nat;
}.

Definition add_clause (pq : PgQuery) (c : clause) (tables' : nat) : PgQuery :=
  let '(args, xtraPath, qstr) := c in
  {| paths := paths pq ++ (if bool_decide (xtraPath = EmptyString) then [] else [xtraPath]);
     queryStrs := queryStrs pq ++ [qstr]; arguments := arguments pq ++ args; tables := tables' |}.

Definition add_path (pq : PgQuery) (p : string) : PgQuery :=
  {| paths := paths pq ++ [p]; queryStrs := queryStrs pq; arguments := arguments pq; tables := tables pq |}.

(** The numbering of the placeholders: every [_ARG_] in turn. *)
Fixpoint number_args (skip pcount : nat) (s : string) : string :=
  match s with
  | EmptyString => EmptyString
  | String c r =>
      match skip with
      | S k => number_args k pcount r
      | O => if String.prefix ARG s then "$" +:+ itoa (Z.of_nat pcount) +:+ number_args 4 (S pcount) r
             else String c (number_args 0 pcount r)
      end
  end.

Definition builtin_index (idx : string) : bool :=
  bool_decide (idx = "node") || bool_decide (idx = "client") || bool_decide (idx = "environment") ||
  bool_decide (idx = "role").

Definition dollar (n : nat) : string := "$" +:+ itoa (Z.of_nat n).

Definition items_statement (idx : string) : string :=
  if builtin_index idx
  then "SELECT name AS item_name FROM goiardi." +:+ idx +:+ "s WHERE organization_id = $1"
  else "SELECT orig_name AS item_name FROM goiardi.data_bag_items JOIN goiardi.data_bags ON goiardi.data_bag_items.data_bag_id = goiardi.data_bags.id WHERE goiardi.data_bags.organization_id = $1 AND goiardi.data_bags.name = $2".

Definition with_statement (idx : string) (npaths : nat) : string :=
  "WITH found_items AS (SELECT item_name, path, value FROM goiardi.search_items si WHERE si.organization_id = $1 AND si.search_collection_id = (SELECT id FROM goiardi.search_collections WHERE name = $2) AND path OPERATOR(goiardi.?) ARRAY[ "
  +:+ str_join ", " (dollar <$> seq 3 npaths) +:+ " ]::goiardi.lquery[]), items AS (" +:+ items_statement idx +:+ ")".

Definition join_table (i : nat) : string :=
  "INNER JOIN found_items AS " +:+ alias i +:+ " ON i.item_name = " +:+ alias i +:+ ".item_name".

(** With one table only the first clause is used, which panics without one. *)
Definition select_statement (pq : PgQuery) : outcome string :=
  if tables pq =? 1 then
    match queryStrs pq with
    | [] => Panic IndexOutOfRange
    | q :: _ => Ok ("SELECT COALESCE(ARRAY_AGG(DISTINCT item_name), '{}'::text[]) FROM found_items f0 WHERE " +:+ q)
    end
  else Ok ("SELECT COALESCE(ARRAY_AGG(i.item_name), '{}'::text[]) FROM items i " +:+
           str_join " " (join_table <$> seq 0 (tables pq)) +:+ " WHERE " +:+ str_join " " (queryStrs pq)).

Definition craftFullQuery (orgID : Z) (idx : string) (pq : PgQuery) : outcome (string * list sql_arg) :=
  selectStmt ← select_statement pq;
  let fullQuery := with_statement idx (length (paths pq)) +:+ " " +:+ selectStmt in
  Ok (number_args 0 (3 + length (paths pq)) fullQuery,
      [AInt orgID; AStr idx] ++ (AStr <$> paths pq) ++ (AStr <$> arguments pq)).

(** [PgQuery.execute] on a chain.  The statement crafted for a sub query is
    thrown away, its panics are not. *)
Fixpoint execute (fuel : nat) (chain : list Queryable) (curOp : Op) (pq : PgQuery) : outcome PgQuery :=
  match fuel, chain with
  | _, [] => Ok pq
  | O, _ => Panic StackOverflow
  | S fuel, p :: rest =>
      match p with
      | QBasic c =>
          let pq := if bool_decide (bq_field c = EmptyString) then pq else add_path pq (bq_field c) in
          execute fuel rest (bq_op c)
            (add_clause pq (buildBasicQuery (bq_field c) (bq_term c) (tables pq) curOp) (S (tables pq)))
      | QGrouped c =>
          let pq := add_path pq (gq_field c) in
          let '(cl, ltNum) := buildGroupedQuery (gq_field c) (gq_terms c) (tables pq) curOp in
          execute fuel rest (gq_op c) (add_clause pq cl (S ltNum))
      | QRange c =>
          let pq := add_path pq (rq_field c) in
          execute fuel rest (rq_op c)
            (add_clause pq (buildRangeQuery (rq_field c) (rq_start c) (rq_end c) (rq_inclusive c) (tables pq)
               curOp (rq_negated c)) (S (tables pq)))
      | QSub _ =>
          sub ← extractSubQuery rest;
          let '(newq, nend, rest') := sub in
          np ← execute fuel newq OpNotAnOp
                 {| paths := []; queryStrs := []; arguments := []; tables := tables pq |};
          _ ← craftFullQuery 1 EmptyString np;
          execute fuel rest' (q_op nend)
            {| paths := paths pq ++ paths np; arguments := arguments pq ++ arguments np;
               queryStrs := queryStrs pq ++ [binOp curOp +:+ "(" +:+ str_join " " (queryStrs np) +:+ ")"];
               tables := tables np |}
      | QNot _ => execute fuel rest curOp pq
      end
  end.

Definition empty_query : PgQuery := {| paths := []; queryStrs := []; arguments := []; tables := 0 |}.

(** The statement of a chain and its arguments. *)
Definition full_query (idx : string) (chain : list Queryable) : outcome (string * list sql_arg) :=
  pq ← execute (S (length chain)) chain OpNotAnOp empty_query; craftFullQuery 1 idx pq.
End build.

(** * Running it *)

(** The database: whether a statement that asks for one row gives one, and
    the array of names a statement selects (empty without a row). *)
Class SqlDb : Type := {
  sql_row : string → list sql_arg → outcome bool;
  sql_names : string → list sql_arg → outcome (list string);
}.

Section search.
  Context (conf : Conf) (uniLN : string → bool) {DB : SqlDb}.

Definition collection_statement : string :=
  "SELECT 1 FROM goiardi.search_collections WHERE organization_id = $1 AND name = $2".

(** The statement for all the items of a collection, with its arguments. *)
Definition all_items (idx : string) : string * list sql_arg :=
  if builtin_index idx
  then ("SELECT COALESCE(ARRAY_AGG(name), '{}'::text[]) FROM goiardi." +:+ idx +:+ "s WHERE organization_id = $1",
        [AInt 1])
  else ("SELECT COALESCE(ARRAY_AGG(orig_name), '{}'::text[]) FROM goiardi.data_bag_items JOIN goiardi.data_bags ON goiardi.data_bag_items.data_bag_id = goiardi.data_bags.id WHERE goiardi.data_bags.organization_id = $1 AND goiardi.data_bags.name = $2",
        [AInt 1; AStr idx]).

(** The names of the objects found: the part of [Search] up to the fetching of
    the objects. *)
Definition pg_names (idx q : string) : outcome (list string) :=
  found ← sql_row collection_statement [AInt 1; AStr idx];
  if negb found then Err (New ("I don't know how to search for " +:+ idx +:+ " data objects."))
  else if bool_decide (q = "*:*") then let '(stmt, args) := all_items idx in sql_names stmt args
  else
    match query_actions uniLN (S (length (runes q))) q with
    | None => Panic StackOverflow
    | Some (inr e) => Err (New e)
    | Some (inl acts) =>
        z ← apply_actions conf uniLN acts empty_token;
        r ← full_query conf uniLN idx (Evaluate z);
        sql_names r.1 r.2
    end.
End search.
