(* ===== verification/PgFacts.v ===== *)
(** What holds of the statements compiled for PostgreSQL (PgSearch.v): their
    placeholders and arguments agree, and the words of a query reach the
    database as arguments only. *)
From S2P Require Import Prelude Gerror Iface Config UtilStrings Flatten FileIndex Query QueryParser PgSearch.

(** * Text as fragments

    A text is read as literal pieces, numbered placeholders and placeholders
    still to be numbered. *)
Inductive frag : Type := FLit (s : string) | FDol (k : nat) | FArg.

Definition frag_text (f : frag) : string :=
  match f with FLit s => s | FDol k => dollar k | FArg => ARG end.

Definition flat (fs : list frag) : string := str_join EmptyString (frag_text <$> fs).

(** The text once numbered from [p], and the numbers it then has. *)
Fixpoint render (p : nat) (fs : list frag) : string :=
  match fs with
  | [] => EmptyString
  | FArg :: fs => dollar p +:+ render (S p) fs
  | f :: fs => frag_text f +:+ render p fs
  end.

Fixpoint numbers (p : nat) (fs : list frag) : list nat :=
  match fs with
  | [] => []
  | FArg :: fs => p :: numbers (S p) fs
  | FDol k :: fs => k :: numbers p fs
  | FLit _ :: fs => numbers p fs
  end.

(** The placeholders of a numbered statement: the digits behind each [$]. *)
Fixpoint placeholders (s : string) : list string :=
  match s with
  | EmptyString => []
  | String c r => if bool_decide (c = "$"%char) then (str_span is_digit r).1 :: placeholders r else placeholders r
  end.

Definition starts_ok (s : string) : bool :=
  match s with String c _ => negb (is_digit c) | EmptyString => true end.

(** A piece without [$] that cannot take part in an [_ARG_]. *)
Definition inert (s : string) : Prop :=
  str_all (λ c, negb (bool_decide (c = "$"%char))) s = true ∧
  ∀ p rest, number_args 0 p (s +:+ rest) = s +:+ number_args 0 p rest.

(** A placeholder is not followed by a digit. *)
Fixpoint frags_ok (fs : list frag) : Prop :=
  match fs with
  | [] => True
  | FLit s :: fs => inert s ∧ frags_ok fs
  | _ :: fs => starts_ok (flat fs) = true ∧ frags_ok fs
  end.

Lemma flat_cons f fs : flat (f :: fs) = frag_text f +:+ flat fs.
Proof. unfold flat. destruct fs; simpl; [by rewrite str_app_nil_r|done]. Qed.

Lemma flat_app fs gs : flat (fs ++ gs) = flat fs +:+ flat gs.
Proof.
  induction fs as [|f fs IH]; [done|]. rewrite <-app_comm_cons, !flat_cons, IH. by rewrite str_app_assoc.
Qed.

Lemma number_args_skip p s rest : number_args (String.length s) p (s +:+ rest) = number_args 0 p rest.
Proof. revert rest. induction s as [|c s IH]; intros rest; [done|]. simpl. apply IH. Qed.

Lemma number_args_ARG p rest : number_args 0 p (ARG +:+ rest) = dollar p +:+ number_args 0 (S p) rest.
Proof. unfold dollar. rewrite str_app_assoc. destruct rest; reflexivity. Qed.

Lemma number_args_other c p r : c ≠ "_"%char → number_args 0 p (String c r) = String c (number_args 0 p r).
Proof.
  intros Hc. change (number_args 0 p (String c r)) with
    (if String.prefix ARG (String c r) then "$" +:+ itoa (Z.of_nat p) +:+ number_args 4 (S p) r
     else String c (number_args 0 p r)).
  destruct (String.prefix ARG (String c r)) eqn:E; [|done]. apply String.prefix_correct in E.
  simpl in E. by injection E as -> _.
Qed.

Lemma no_underscore_skip s p rest :
  str_all (λ c, negb (bool_decide (c = "_"%char))) s = true →
  number_args 0 p (s +:+ rest) = s +:+ number_args 0 p rest.
Proof.
  induction s as [|c s IH]; [done|]. cbn [str_all]. rewrite andb_true_iff, negb_true_iff, bool_decide_eq_false.
  intros [Hc Hs]. rewrite !str_app_cons, number_args_other by done. by rewrite IH.
Qed.

Lemma itoa_inert n : inert (itoa (Z.of_nat n)).
Proof.
  destruct (itoa_digits (Z.of_nat n) ltac:(lia)) as [Hd _]. split.
  - eapply str_all_impl; [|exact Hd]. intros c Hc. case_bool_decide as E; [by subst|done].
  - intros p rest. apply no_underscore_skip. eapply str_all_impl; [|exact Hd].
    intros c Hc. case_bool_decide as E; [by subst|done].
Qed.

Lemma dollar_number n p rest : number_args 0 p (dollar n +:+ rest) = dollar n +:+ number_args 0 p rest.
Proof.
  destruct (itoa_inert n) as [_ Hi].
  assert (∀ t, dollar n +:+ t = String "$" (itoa (Z.of_nat n) +:+ t)) as E by done.
  rewrite !E, number_args_other by done. by rewrite Hi.
Qed.

(** Numbering a text is rendering its fragments. *)
Lemma number_args_flat p fs : frags_ok fs → number_args 0 p (flat fs) = render p fs.
Proof.
  revert p. induction fs as [|f fs IH]; intros p; [done|]. rewrite flat_cons.
  destruct f as [s|k|]; cbn [frag_text frags_ok render].
  - intros [[_ Hs] Hf]. by rewrite Hs, IH.
  - intros [_ Hf]. by rewrite dollar_number, IH.
  - intros [_ Hf]. by rewrite number_args_ARG, IH.
Qed.

Lemma placeholders_skip s rest :
  str_all (λ c, negb (bool_decide (c = "$"%char))) s = true →
  placeholders (s +:+ rest) = placeholders rest.
Proof.
  induction s as [|c s IH]; [done|]. simpl. rewrite andb_true_iff, negb_true_iff. intros [-> Hs]. by apply IH.
Qed.

Lemma placeholders_dollar k rest :
  starts_ok rest = true → placeholders (dollar k +:+ rest) = itoa (Z.of_nat k) :: placeholders rest.
Proof.
  intros Hr. change (dollar k +:+ rest) with (String "$" (itoa (Z.of_nat k) +:+ rest)). simpl.
  destruct (itoa_inert k) as [Hi _]. rewrite placeholders_skip by done. f_equal.
  destruct (itoa_digits (Z.of_nat k) ltac:(lia)) as [Hd _].
  rewrite (str_span_intro is_digit (itoa (Z.of_nat k)) rest); [done|done|].
  destruct rest; [done|]. by apply negb_true_iff.
Qed.

Lemma starts_ok_render p fs : starts_ok (flat fs) = true → starts_ok (render p fs) = true.
Proof.
  revert p. induction fs as [|f fs IH]; intros p; [done|]. rewrite flat_cons.
  destruct f as [[|c s]|k|]; simpl; [apply IH|done..].
Qed.

(** The placeholders of a numbered text are the numbers of its fragments. *)
Lemma placeholders_render p fs :
  frags_ok fs → placeholders (render p fs) = (λ k, itoa (Z.of_nat k)) <$> numbers p fs.
Proof.
  revert p. induction fs as [|f fs IH]; intros p; [done|].
  destruct f as [s|k|]; cbn [frag_text frags_ok render numbers fmap list_fmap].
  - intros [[Hs _] Hf]. by rewrite placeholders_skip, IH.
  - intros [Hr Hf]. rewrite placeholders_dollar by (by apply starts_ok_render). by rewrite IH.
  - intros [Hr Hf]. rewrite placeholders_dollar by (by apply starts_ok_render). by rewrite IH.
Qed.

(** * Texts with a number of arguments *)

(** A text whose fragments have the numbers [ks] and then [n] arguments. *)
Fixpoint nargs (fs : list frag) : nat :=
  match fs with [] => 0 | FArg :: fs => S (nargs fs) | _ :: fs => nargs fs end.

Definition text (ks : list nat) (n : nat) (s : string) : Prop :=
  ∃ fs, s = flat fs ∧ frags_ok fs ∧ nargs fs = n ∧ ∀ p, numbers p fs = ks ++ seq p n.

Lemma text_nil : text [] 0 EmptyString.
Proof. by exists []. Qed.

Lemma text_lit ks n s t : inert s → text ks n t → text ks n (s +:+ t).
Proof. intros Hs (fs & -> & Hf & Ha & Hn). exists (FLit s :: fs). by rewrite flat_cons. Qed.

Lemma text_arg n t : starts_ok t = true → text [] n t → text [] (S n) (ARG +:+ t).
Proof.
  intros Ht (fs & -> & Hf & Ha & Hn). exists (FArg :: fs). rewrite flat_cons. split_and!; [done|done| |].
  { simpl. by f_equal. } intros p. cbn [numbers]. by rewrite Hn.
Qed.

Lemma text_dollar ks n k t : starts_ok t = true → text ks n t → text (k :: ks) n (dollar k +:+ t).
Proof.
  intros Ht (fs & -> & Hf & Ha & Hn). exists (FDol k :: fs). rewrite flat_cons. split_and!; [done..|].
  intros p. cbn [numbers]. by rewrite Hn.
Qed.

Lemma starts_ok_app fs t : starts_ok (flat fs) = true → starts_ok t = true → starts_ok (flat fs +:+ t) = true.
Proof. by destruct (flat fs). Qed.

Lemma frags_ok_app fs gs :
  frags_ok fs → frags_ok gs → starts_ok (flat gs) = true → frags_ok (fs ++ gs).
Proof.
  intros Hf Hg Hs. induction fs as [|f fs IH]; [done|]. destruct f; simpl in *; destruct Hf as [H1 H2];
    (split; [|by apply IH]); try done; rewrite flat_app; by apply starts_ok_app.
Qed.

Lemma numbers_app p fs gs : numbers p (fs ++ gs) = numbers p fs ++ numbers (p + nargs fs) gs.
Proof.
  revert p. induction fs as [|f fs IH]; intros p; [by rewrite Nat.add_0_r|].
  destruct f; simpl; rewrite IH; [done..|]. by rewrite Nat.add_succ_r.
Qed.

Lemma nargs_app fs gs : nargs (fs ++ gs) = nargs fs + nargs gs.
Proof. induction fs as [|[] fs IH]; simpl; lia. Qed.

Lemma text_app ks n m s t :
  starts_ok t = true → text ks n s → text [] m t → text ks (n + m) (s +:+ t).
Proof.
  intros Ht (fs & -> & Hf & Ha & Hn) (gs & -> & Hg & Hb & Hm). exists (fs ++ gs). rewrite flat_app, nargs_app.
  split_and!; [done|by apply frags_ok_app|lia|]. intros p.
  by rewrite numbers_app, Hn, Hm, Ha, <-app_assoc, seq_app.
Qed.

Lemma text_app_dollars ks ks' n s t :
  starts_ok t = true → text ks 0 s → text ks' n t → text (ks ++ ks') n (s +:+ t).
Proof.
  intros Ht (fs & -> & Hf & Ha & Hn) (gs & -> & Hg & Hb & Hm). exists (fs ++ gs). rewrite flat_app, nargs_app.
  split_and!; [done|by apply frags_ok_app|lia|]. intros p.
  by rewrite numbers_app, Hn, Hm, Ha, app_nil_r, Nat.add_0_r, <-app_assoc.
Qed.

(** The placeholders a text has once it is numbered. *)
Lemma text_placeholders ks n s p :
  text ks n s → placeholders (number_args 0 p s) = (λ k, itoa (Z.of_nat k)) <$> (ks ++ seq p n).
Proof.
  intros (fs & -> & Hf & _ & Hn). by rewrite number_args_flat, placeholders_render, Hn.
Qed.

Lemma inert_app s t : inert s → inert t → inert (s +:+ t).
Proof.
  intros [H1 H2] [H3 H4]. split; [by rewrite str_all_app, H1|].
  intros p rest. by rewrite !str_app_assoc, H2, H4.
Qed.

Lemma inert_nil : inert EmptyString.
Proof. by split. Qed.

(** A literal of the program is inert by evaluation. *)
Ltac inert_lit := split; [vm_compute; reflexivity|intros ? []; reflexivity].

Lemma text_inert s : inert s → text [] 0 s.
Proof. intros Hs. rewrite <-(str_app_nil_r s). apply text_lit; [done|apply text_nil]. Qed.

Lemma alias_inert n : inert (alias n).
Proof. apply inert_app; [inert_lit|apply itoa_inert]. Qed.

(** Texts joined by a separator. *)
Lemma text_join sep ns l :
  inert sep → (∀ t, starts_ok (sep +:+ t) = true) → Forall2 (λ n s, text [] n s) ns l →
  text [] (foldr Nat.add 0 ns) (str_join sep l).
Proof.
  intros Hi Hs Hl. induction Hl as [|n s ns l Hn Hl IH]; [apply text_nil|].
  destruct Hl as [|m t ns l Hm Hl]; [simpl; by rewrite Nat.add_0_r|].
  change (str_join sep (s :: t :: l)) with (s +:+ sep +:+ str_join sep (t :: l)). cbn [foldr].
  apply text_app; [apply Hs|done|]. by apply text_lit.
Qed.

(** * The clauses *)

Lemma binOp_inert op : inert (binOp op).
Proof. unfold binOp. repeat case_bool_decide; [apply inert_nil|inert_lit..]. Qed.

Create HintDb inert.
#[local] Hint Resolve binOp_inert alias_inert text_nil inert_nil itoa_inert : inert.

(** Reads a text from the left: literals, aliases, arguments. *)
Ltac text_step :=
  rewrite ?str_app_assoc;
  first [ apply text_nil
        | apply text_arg; [reflexivity|]
        | apply text_lit; [solve [auto with inert | inert_lit]|]
        | rewrite <-(str_app_nil_r ARG); apply text_arg; [reflexivity|]
        | apply text_inert; solve [auto with inert | inert_lit] ].

Lemma path_clause_text n : text [] 1 (path_clause n).
Proof. unfold path_clause. repeat text_step. Qed.

Lemma value_clause_text n cop : inert cop → text [] 1 (value_clause n cop).
Proof. intros Hc. unfold value_clause. repeat text_step. Qed.

Lemma matchOp_inert t : inert (matchOp t).1.
Proof. unfold matchOp. repeat case_match; inert_lit. Qed.

#[local] Hint Resolve matchOp_inert : inert.

Section clauses.
  Context (conf : Conf) (uniLN : string → bool).

(** A clause has a placeholder for each of its arguments. *)
Definition clause_ok (c : clause) : Prop := text [] (length c.1.1) c.2.

Lemma buildBasicQuery_ok field term tNum op : clause_ok (buildBasicQuery conf uniLN field term tNum op).
Proof.
  unfold clause_ok, buildBasicQuery. pose proof (matchOp_inert term) as Hc.
  destruct (matchOp term) as [cop t]. simpl in Hc.
  case_match; [cbn [fst snd length]; repeat text_step|].
  case_match; [cbn [fst snd length]|].
  - apply text_lit; [auto with inert|]. apply text_lit; [inert_lit|].
    apply (text_app [] 1 0); [done|by apply value_clause_text|]. apply text_inert. inert_lit.
  - cbn [fst snd]. apply text_lit; [auto with inert|].
    assert (∀ j, inert j → text [] 3 ("((" +:+ path_clause tNum +:+ " AND " +:+ value_clause tNum cop +:+ ") " +:+ j +:+
             " (" +:+ path_clause tNum +:+ "))")) as Hq.
    { intros j Hj. apply text_lit; [inert_lit|]. apply (text_app [] 1 2); [done|apply path_clause_text|].
      apply text_lit; [inert_lit|]. apply (text_app [] 1 1); [done|by apply value_clause_text|].
      apply text_lit; [inert_lit|]. apply text_lit; [done|]. apply text_lit; [inert_lit|].
      apply (text_app [] 1 0); [done|apply path_clause_text|]. apply text_inert. inert_lit. }
    destruct (negating (qt_mod t)); [|apply Hq; inert_lit].
    apply text_lit; [inert_lit|]. apply (text_app [] 3 1); [done|apply Hq; inert_lit|]. repeat text_step.
Qed.

Lemma term_join_inert b m : inert (term_join b m).
Proof. unfold term_join. destruct b; [apply inert_nil|]. case_match; inert_lit. Qed.

Lemma join_clauses_text b cs :
  Forall (λ c, text [] 1 c.1) cs → Forall2 (λ n s, text [] n s) (replicate (length cs) 1) (join_clauses b cs).
Proof.
  intros Hc. revert b. induction Hc as [|[c op] cs Hc _ IH]; intros b; simpl; constructor; [|apply IH].
  apply text_lit; [apply term_join_inert|done].
Qed.

Lemma foldr_replicate n : foldr Nat.add 0 (replicate n 1) = n.
Proof. induction n; simpl; lia. Qed.

Lemma group_clauses_ok field terms tNum ltNum :
  let '(grouped, groupedPaths, args, groupedArgs, _) := group_clauses conf uniLN field terms tNum ltNum in
  Forall (λ c, text [] 1 c.1) grouped ∧ Forall (λ c, text [] 1 c.1) groupedPaths ∧
  length args = length terms ∧ length groupedArgs = length terms ∧
  length grouped = length terms ∧ length groupedPaths = length terms.
Proof.
  revert ltNum. induction terms as [|v terms IH]; intros ltNum; cbn [group_clauses]; [done|].
  pose proof (matchOp_inert v) as Hv. destruct (matchOp v) as [cop v'].
  specialize (IH (S ltNum)). destruct (group_clauses _ _ _ _ _ _) as [[[[g gp] a] ga] l].
  destruct IH as (H1 & H2 & H3 & H4 & H5 & H6). simpl. split_and!; try congruence.
  - constructor; [by apply value_clause_text|done].
  - constructor; [apply path_clause_text|done].
Qed.

Lemma joined_text b cs :
  Forall (λ c, text [] 1 c.1) cs → text [] (length cs) (str_join " " (join_clauses b cs)).
Proof.
  intros Hc. rewrite <-(foldr_replicate (length cs)). apply text_join; [inert_lit|done|].
  by apply join_clauses_text.
Qed.

Lemma buildGroupedQuery_ok field terms tNum op : clause_ok (buildGroupedQuery conf uniLN field terms tNum op).1.
Proof.
  unfold clause_ok, buildGroupedQuery. pose proof (group_clauses_ok field terms tNum tNum) as Hg.
  destruct (group_clauses _ _ _ _ _ _) as [[[[g gp] a] ga] l].
  destruct Hg as (H1 & H2 & H3 & H4 & H5 & H6). cbn [fst snd length]. rewrite length_app, H3, H4.
  apply text_lit; [auto with inert|]. apply text_lit; [inert_lit|].
  apply (text_app [] 1 (length terms + length terms)); [done|apply path_clause_text|].
  apply text_lit; [inert_lit|]. apply (text_app [] (length terms) (length terms)); [done| |].
  { rewrite <-H5 at 1. by apply joined_text. }
  apply text_lit; [inert_lit|]. rewrite <-(Nat.add_0_r (length terms)) at 1.
  apply (text_app []); [done| |apply text_inert; inert_lit].
  rewrite <-H6 at 1. by apply joined_text.
Qed.

Lemma range_end_ok field bound sign tNum :
  inert sign → Forall (λ e, text [] 1 e.1.1.1 ∧ text [] 1 e.1.2) (range_end conf uniLN field bound sign tNum).
Proof.
  intros Hs. unfold range_end. case_bool_decide; constructor; [|done]. cbn [fst snd]. split; repeat text_step.
Qed.

Lemma texts_join {A} sep (f : A → string) (l : list A) :
  inert sep → (∀ t, starts_ok (sep +:+ t) = true) → Forall (λ a, text [] 1 (f a)) l →
  text [] (length l) (str_join sep (f <$> l)).
Proof.
  intros Hi Hs Hl. rewrite <-(foldr_replicate (length l)). apply text_join; [done..|].
  induction Hl; simpl; by constructor.
Qed.

Lemma buildRangeQuery_ok field start end_ inclusive tNum op negated :
  start ≠ "*" ∨ end_ ≠ "*" →
  clause_ok (buildRangeQuery conf uniLN field start end_ inclusive tNum op negated).
Proof.
  intros Hopen. unfold clause_ok, buildRangeQuery.
  destruct (if str_ltb end_ start then (end_, start) else (start, end_)) as [s e] eqn:Ese.
  assert (s ≠ "*" ∨ e ≠ "*") as Hopen' by (destruct (str_ltb end_ start); naive_solver).
  set (equals := if inclusive then "=" else EmptyString).
  set (ends := range_end conf uniLN field s (">" +:+ equals) tNum ++ range_end conf uniLN field e ("<" +:+ equals) tNum).
  assert (Forall (λ e, text [] 1 e.1.1.1 ∧ text [] 1 e.1.2) ends) as Hends.
  { apply Forall_app. split; apply range_end_ok; unfold equals; destruct inclusive; inert_lit. }
  assert (ends ≠ []) as Hne.
  { unfold ends, range_end. repeat case_bool_decide; naive_solver. }
  clearbody ends. cbn [fst snd]. simpl length. rewrite length_app. cbn [length]. rewrite !length_fmap.
  assert (text [] (length ends) (str_join " AND " ((λ e, e.1.1.1) <$> ends)) ∧
          text [] (length ends) (str_join " AND " ((λ e, e.1.2) <$> ends))) as [Hv Hp].
  { split; (apply texts_join; [inert_lit|done|]); (eapply Forall_impl; [done|]); naive_solver. }
  destruct ends as [|e0 ends]; [done|]. set (es := e0 :: ends) in *.
  apply text_lit; [auto with inert|]. apply text_lit; [destruct negated; [inert_lit|apply inert_nil]|].
  apply text_lit; [inert_lit|]. apply (text_app [] 1); [done|apply path_clause_text|]. rewrite !str_app_assoc.
  apply text_lit; [inert_lit|]. apply (text_app []); [done|exact Hv|].
  apply text_lit; [inert_lit|]. apply text_lit; [inert_lit|]. apply (text_app [] 1); [done|apply path_clause_text|].
  apply text_lit; [inert_lit|]. rewrite <-(Nat.add_0_r (length es)).
  apply (text_app []); [done|exact Hp|]. apply text_lit; [inert_lit|]. apply text_inert. inert_lit.
Qed.

(** * Chains *)

(** A link that tests something; a range open at both ends is left out. *)
Definition is_test (q : Queryable) : Prop :=
  match q with
  | QBasic _ | QGrouped _ => True
  | QRange r => rq_start r ≠ "*" ∨ rq_end r ≠ "*"
  | QSub _ | QNot _ => False
  end.

(** A chain whose sub queries are closed and test something. *)
Inductive chain_ok : list Queryable → Prop :=
| ok_nil : chain_ok []
| ok_test q c : is_test q → chain_ok c → chain_ok (q :: c)
| ok_not q c : chain_ok c → chain_ok (QNot q :: c)
| ok_sub s e inner c :
    sq_start s = true → sq_start e = false → chain_ok inner → Exists is_test inner → chain_ok c →
    chain_ok (QSub s :: inner ++ QSub e :: c).

(** The statement so far: its clauses have a placeholder for each argument,
    and each brought a table along. *)
Record pq_ok (from : nat) (pq : PgQuery) (tested : Prop) : Prop := {
  pq_clauses : ∃ ns, Forall2 (λ n s, text [] n s) ns (queryStrs pq) ∧
                     foldr Nat.add 0 ns = length (arguments pq);
  pq_tables : from + length (queryStrs pq) ≤ tables pq;
  pq_tested : tested → queryStrs pq ≠ [];
}.

Lemma sum_app l k : foldr Nat.add 0 (l ++ k) = foldr Nat.add 0 l + foldr Nat.add 0 k.
Proof. induction l; simpl; lia. Qed.

Lemma pq_ok_add from pq P c n : 
  pq_ok from pq P → clause_ok c → tables pq < n → pq_ok from (add_clause pq c n) True.
Proof.
  intros [(ns & Hns & Hsum) Ht _] Hc Hn. destruct c as [[args path] q]. unfold clause_ok in Hc. simpl in Hc.
  split; simpl.
  - exists (ns ++ [length args]). split; [apply Forall2_app; [done|by repeat constructor]|].
    rewrite sum_app, Hsum, length_app. simpl. lia.
  - rewrite length_app. simpl. lia.
  - intros _. by destruct (queryStrs pq).
Qed.

Lemma pq_ok_path from pq P p : pq_ok from pq P → pq_ok from (add_path pq p) P.
Proof. intros [H1 H2 H3]. by split. Qed.

Lemma group_last field terms tNum ltNum :
  ltNum ≤ (group_clauses conf uniLN field terms tNum ltNum).2.
Proof.
  revert ltNum. induction terms as [|v terms IH]; intros ltNum; simpl; [done|].
  destruct (matchOp v) as [cop v']. specialize (IH (S ltNum)).
  destruct (group_clauses _ _ _ _ _ _) as [[[[g gp] a] ga] l]. simpl in *. lia.
Qed.

Lemma grouped_last field terms tNum op : tNum ≤ (buildGroupedQuery conf uniLN field terms tNum op).2.
Proof.
  unfold buildGroupedQuery. pose proof (group_last field terms tNum tNum).
  destruct (group_clauses _ _ _ _ _ _) as [[[[g gp] a] ga] l]. done.
Qed.

Lemma sub_chain_over n acc c rest :
  chain_ok c → sub_chain (S n) acc (c ++ rest) = sub_chain (S n) (rev c ++ acc) rest.
Proof.
  intros Hc. revert n acc rest. induction Hc as [|q c Hq Hc IH|q c Hc IH|s e inner c Hs He Hi IHi _ Hc IH];
    intros n acc rest; [done|..].
  - destruct q; try done; simpl; by rewrite IH, <-app_assoc.
  - simpl. by rewrite IH, <-app_assoc.
  - rewrite <-app_comm_cons, <-app_assoc. simpl. rewrite Hs, IHi. simpl. rewrite He, IH. f_equal.
    rewrite rev_app_distr. simpl. by rewrite <-!app_assoc.
Qed.

Lemma extract_ok e inner rest :
  chain_ok inner → inner ≠ [] → sq_start e = false →
  extractSubQuery (inner ++ QSub e :: rest) = Ok (inner, QSub e, rest).
Proof.
  intros Hi Hne He. unfold extractSubQuery. destruct (inner ++ QSub e :: rest) as [|q0 l] eqn:E; [by destruct inner|].
  rewrite <-E, sub_chain_over by done. simpl. rewrite He, app_nil_r.
  destruct inner as [|q inner]; [done|]. rewrite rev_involutive.
  destruct (rev (q :: inner)) as [|q1 l1] eqn:Er; [|done]. apply (f_equal (@rev _)) in Er. by rewrite rev_involutive in Er.
Qed.

Lemma craft_total orgID idx pq from :
  pq_ok from pq True → ∃ q, craftFullQuery orgID idx pq =
    Ok (q, [AInt orgID; AStr idx] ++ (AStr <$> paths pq) ++ (AStr <$> arguments pq)).
Proof.
  intros [_ _ Ht]. unfold craftFullQuery, select_statement.
  destruct (tables pq =? 1); [|by eexists]. destruct (queryStrs pq); [by destruct Ht|by eexists].
Qed.

Lemma pq_ok_weaken from pq (P Q : Prop) : pq_ok from pq P → (Q → P) → pq_ok from pq Q.
Proof. intros [H1 H2 H3] HQ. split; auto. Qed.

(** Executing a chain never fails, and keeps placeholders and arguments in
    step. *)
Lemma execute_ok fuel chain op pq from P :
  chain_ok chain → length chain ≤ fuel → pq_ok from pq P →
  ∃ pq', execute conf uniLN fuel chain op pq = Ok pq' ∧ pq_ok from pq' (P ∨ Exists is_test chain).
Proof.
  intros Hc. revert fuel op pq from P.
  induction Hc as [|q c Hq Hc IH|q c Hc IH|s e inner c Hs He Hi IHi Htest Hc IH];
    intros fuel op pq from P Hf Hok.
  - exists pq. split; [by destruct fuel|]. eapply pq_ok_weaken; [done|]. intros [?|Hx]; [done|by inversion Hx].
  - destruct fuel as [|fuel]; [simpl in Hf; lia|]. cbn [execute].
    assert (∀ op' pq1, pq_ok from pq1 True → ∃ pq', execute conf uniLN fuel c op' pq1 = Ok pq' ∧
      pq_ok from pq' (P ∨ Exists is_test (q :: c))) as Hnext.
    { intros op' pq1 H1. destruct (IH fuel op' pq1 from True) as (pq' & E & H'); [simpl in Hf; lia|done|].
      exists pq'. split; [done|]. eapply pq_ok_weaken; [done|]. by left. }
    destruct q as [b|g|r|b|b]; try done.
    + apply Hnext. eapply pq_ok_add; [|apply buildBasicQuery_ok|lia].
      case_match; [done|by apply pq_ok_path].
    + pose proof (buildGroupedQuery_ok (gq_field g) (gq_terms g) (tables (add_path pq (gq_field g))) op) as Hg.
      pose proof (grouped_last (gq_field g) (gq_terms g) (tables (add_path pq (gq_field g))) op) as Hl.
      destruct (buildGroupedQuery _ _ _ _ _ _) as [cl n]. simpl in Hg, Hl.
      apply Hnext. eapply pq_ok_add; [by apply pq_ok_path|done|simpl; lia].
    + apply Hnext. eapply pq_ok_add; [by apply pq_ok_path|by apply buildRangeQuery_ok|lia].
  - destruct fuel as [|fuel]; [simpl in Hf; lia|]. cbn [execute].
    destruct (IH fuel op pq from P) as (pq' & E & H'); [simpl in Hf; lia|done|].
    exists pq'. split; [done|]. eapply pq_ok_weaken; [done|]. rewrite Exists_cons. simpl. tauto.
  - destruct fuel as [|fuel]; [simpl in Hf; lia|]. cbn [execute].
    simpl in Hf. rewrite length_app in Hf. simpl in Hf.
    assert (inner ≠ []) as Hne by (intros ->; by inversion Htest).
    rewrite extract_ok by done. cbn [mbind outcome_bind].
    destruct (IHi fuel OpNotAnOp {| paths := []; queryStrs := []; arguments := []; tables := tables pq |}
                (tables pq) False) as (np & E & Hnp); [lia| |].
    { split; simpl; [by exists []|lia|done]. }
    assert (pq_ok (tables pq) np True) as Hnp' by (eapply pq_ok_weaken; [done|by right]).
    destruct (craft_total 1 EmptyString np _ Hnp') as (q0 & Eq).
    simpl. rewrite E. simpl. rewrite Eq. simpl.
    edestruct (IH fuel (q_op (QSub e))) as (pq' & E' & H'); [lia| |exists pq'; split; [exact E'|]].
    2: { eapply pq_ok_weaken; [exact H'|]. intros _. left. exact I. }
    destruct Hok as [(ns & Hns & Hsum) Ht _], Hnp' as [(ms & Hms & Hsum') Ht' Hne'].
    split; simpl.
    + exists (ns ++ [length (arguments np)]). split.
      * apply Forall2_app; [done|]. constructor; [|done]. rewrite <-Hsum'.
        apply text_lit; [auto with inert|]. apply text_lit; [inert_lit|].
        rewrite <-(Nat.add_0_r (foldr _ _ _)). apply (text_app []); [done| |apply text_inert; inert_lit].
        apply text_join; [inert_lit|done|done].
      * rewrite sum_app, Hsum, length_app. simpl. lia.
    + rewrite length_app. simpl. destruct (queryStrs np); [by destruct Hne'|]. simpl in Ht'. lia.
    + intros _. by destruct (queryStrs pq).
Qed.

(** The numbers of the organization and of the collection in the part of the
    statement that lists the items. *)
Definition items_numbers (idx : string) : list nat := if builtin_index idx then [1] else [1; 2].

Lemma params_text k n :
  text (seq k n) 0 (str_join ", " (dollar <$> seq k n)).
Proof.
  revert k. induction n as [|n IH]; intros k; [apply text_nil|]. cbn [seq fmap list_fmap].
  destruct n as [|n].
  - cbn. rewrite <-(str_app_nil_r (dollar k)). apply text_dollar; [done|apply text_nil].
  - change (str_join ", " (dollar k :: (dollar <$> seq (S k) (S n)))) with
      (dollar k +:+ ", " +:+ str_join ", " (dollar <$> seq (S k) (S n))).
    apply text_dollar; [done|]. apply text_lit; [inert_lit|apply IH].
Qed.

Lemma items_text idx : text (items_numbers idx) 0 (items_statement idx).
Proof.
  unfold items_numbers, items_statement. destruct (builtin_index idx) eqn:E.
  - assert (inert idx) as Hi.
    { unfold builtin_index in E. repeat (apply orb_true_iff in E as [E|E]);
        apply bool_decide_eq_true in E as ->; inert_lit. }
    change "s WHERE organization_id = $1" with ("s WHERE organization_id = " +:+ dollar 1 +:+ EmptyString).
    apply text_lit; [inert_lit|]. apply text_lit; [done|]. apply text_lit; [inert_lit|].
    apply text_dollar; [done|apply text_nil].
  - match goal with |- text _ _ ?s => change s with
      ("SELECT orig_name AS item_name FROM goiardi.data_bag_items JOIN goiardi.data_bags ON goiardi.data_bag_items.data_bag_id = goiardi.data_bags.id WHERE goiardi.data_bags.organization_id = "
       +:+ dollar 1 +:+ " AND goiardi.data_bags.name = " +:+ dollar 2 +:+ EmptyString) end.
    apply text_lit; [inert_lit|]. apply text_dollar; [done|]. apply text_lit; [inert_lit|].
    apply text_dollar; [done|apply text_nil].
Qed.

Lemma with_text idx n :
  text ([1; 2] ++ seq 3 n ++ items_numbers idx) 0 (with_statement idx n).
Proof.
  unfold with_statement.
  match goal with |- text _ _ (?s +:+ _) => change s with
    ("WITH found_items AS (SELECT item_name, path, value FROM goiardi.search_items si WHERE si.organization_id = "
     +:+ dollar 1 +:+ " AND si.search_collection_id = (SELECT id FROM goiardi.search_collections WHERE name = "
     +:+ dollar 2 +:+ ") AND path OPERATOR(goiardi.?) ARRAY[ ") end.
  rewrite !str_app_assoc. apply text_lit; [inert_lit|]. apply text_dollar; [done|].
  apply text_lit; [inert_lit|]. apply text_dollar; [done|]. apply text_lit; [inert_lit|].
  apply text_app_dollars; [done|apply params_text|]. apply text_lit; [inert_lit|].
  rewrite <-(app_nil_r (items_numbers idx)). apply text_app_dollars; [done|apply items_text|].
  apply text_inert. inert_lit.
Qed.

Lemma join_table_inert i : inert (join_table i).
Proof. unfold join_table. repeat (apply inert_app; [auto with inert; inert_lit|]). inert_lit. Qed.

Lemma joins_inert l : inert (str_join " " (join_table <$> l)).
Proof.
  induction l as [|i [|j l] IH]; [apply inert_nil|apply join_table_inert|].
  change (str_join " " (join_table <$> i :: j :: l)) with (join_table i +:+ " " +:+ str_join " " (join_table <$> j :: l)).
  apply inert_app; [apply join_table_inert|]. apply inert_app; [inert_lit|done].
Qed.

Lemma select_text pq :
  pq_ok 0 pq True → ∃ s, select_statement pq = Ok s ∧ text [] (length (arguments pq)) s.
Proof.
  intros [(ns & Hns & Hsum) Ht Hne]. unfold select_statement. destruct (tables pq =? 1) eqn:E.
  - apply Nat.eqb_eq in E. destruct Hns as [|n q ns qs Hq Hqs]; [by destruct Hne|].
    destruct Hqs; [|simpl in Ht; lia]. simpl in Hsum. rewrite <-Hsum, Nat.add_0_r. eexists. split; [done|].
    apply text_lit; [inert_lit|done].
  - eexists. split; [done|]. rewrite <-Hsum.
    apply text_lit; [inert_lit|]. apply text_lit; [apply joins_inert|]. apply text_lit; [inert_lit|].
    by apply text_join; [inert_lit|done|].
Qed.

Lemma craft_placeholders orgID idx pq :
  pq_ok 0 pq True → ∃ q, craftFullQuery orgID idx pq =
    Ok (q, [AInt orgID; AStr idx] ++ (AStr <$> paths pq) ++ (AStr <$> arguments pq)) ∧
  placeholders q = (λ k, itoa (Z.of_nat k)) <$>
    ([1; 2] ++ seq 3 (length (paths pq)) ++ items_numbers idx ++
     seq (3 + length (paths pq)) (length (arguments pq))).
Proof.
  intros Hok. destruct (select_text pq Hok) as (s & Es & Hs). unfold craftFullQuery. rewrite Es.
  eexists. split; [done|]. rewrite (text_placeholders ([1; 2] ++ seq 3 (length (paths pq)) ++ items_numbers idx)
    (length (arguments pq))); [by rewrite <-!app_assoc|].
  rewrite <-(app_nil_r (_ ++ _ ++ _)). apply text_app_dollars; [done|apply with_text|].
  apply text_lit; [inert_lit|done].
Qed.
End clauses.

(** * Queries of the same form *)

Section same.
  Context (conf : Conf) (uniLN : string → bool).

Definition blank (s : string) : bool := bool_decide (s = EmptyString).

(** Two terms with the same operator, of which both or neither have wildcards. *)
Definition same_term (t t' : QueryTerm) : Prop :=
  qt_mod t = qt_mod t' ∧ has_wildcard (qt_term t) = has_wildcard (qt_term t').

(** The ends of a range in the order the source takes them, and whether each
    is open. *)
Definition open_ends (start end_ : string) : bool * bool :=
  let '(s, e) := if str_ltb end_ start then (end_, start) else (start, end_) in
  (bool_decide (s = "*"), bool_decide (e = "*")).

(** Two links of the same form: the same operators, and the same answers to
    the questions whether a word is empty, a star or has wildcards. *)
Definition same_link (q q' : Queryable) : Prop :=
  match q, q' with
  | QBasic b, QBasic b' =>
      bq_op b = bq_op b' ∧ blank (bq_field b) = blank (bq_field b') ∧
      same_term (bq_term b) (bq_term b') ∧
      bool_decide (qt_term (bq_term b) = "*") || blank (qt_term (bq_term b)) =
      bool_decide (qt_term (bq_term b') = "*") || blank (qt_term (bq_term b')) ∧
      blank (craftAltQueryPath conf uniLN (bq_field b) (qt_term (bq_term b))) =
      blank (craftAltQueryPath conf uniLN (bq_field b') (qt_term (bq_term b')))
  | QGrouped g, QGrouped g' => gq_op g = gq_op g' ∧ Forall2 same_term (gq_terms g) (gq_terms g')
  | QRange r, QRange r' =>
      rq_op r = rq_op r' ∧ rq_inclusive r = rq_inclusive r' ∧ rq_negated r = rq_negated r' ∧
      open_ends (rq_start r) (rq_end r) = open_ends (rq_start r') (rq_end r')
  | QSub s, QSub s' => sq_start s = sq_start s' ∧ sq_end s = sq_end s' ∧ sq_op s = sq_op s'
  | QNot n, QNot n' => nq_op n = nq_op n'
  | _, _ => False
  end.

(** Clauses and statements that differ in their arguments only. *)
Definition same_clause (c c' : clause) : Prop :=
  length c.1.1 = length c'.1.1 ∧ blank c.1.2 = blank c'.1.2 ∧ c.2 = c'.2.

Definition same_query (pq pq' : PgQuery) : Prop :=
  length (paths pq) = length (paths pq') ∧ queryStrs pq = queryStrs pq' ∧
  length (arguments pq) = length (arguments pq') ∧ tables pq = tables pq'.

Lemma same_matchOp t t' : same_term t t' → (matchOp t).1 = (matchOp t').1.
Proof. intros [Hm Hw]. unfold matchOp. rewrite Hw, Hm. destruct (has_wildcard (qt_term t')); reflexivity. Qed.

Lemma matchOp_mod t : qt_mod (matchOp t).2 = qt_mod t.
Proof. unfold matchOp. by destruct (has_wildcard _). Qed.

Lemma same_basic f t f' t' n op :
  blank f = blank f' → same_term t t' →
  bool_decide (qt_term t = "*") || blank (qt_term t) = bool_decide (qt_term t' = "*") || blank (qt_term t') →
  blank (craftAltQueryPath conf uniLN f (qt_term t)) = blank (craftAltQueryPath conf uniLN f' (qt_term t')) →
  same_clause (buildBasicQuery conf uniLN f t n op) (buildBasicQuery conf uniLN f' t' n op).
Proof.
  intros Hf Ht Hs Hp. pose proof (same_matchOp t t' Ht) as Hc. destruct Ht as [Hm _].
  pose proof (matchOp_mod t) as H1. pose proof (matchOp_mod t') as H2. unfold buildBasicQuery, blank in *.
  destruct (matchOp t) as [cop u], (matchOp t') as [cop' u']. simpl in *. subst cop'. rewrite Hs, Hf, H1, H2, Hm.
  case_match; [done|]. case_match; [done|]. split_and!; cbn [fst snd]; [|exact Hp|done].
  by destruct (negating (qt_mod t')).
Qed.

Lemma same_group f f' ts ts' n last :
  Forall2 same_term ts ts' →
  let '(g, gp, a, ga, l) := group_clauses conf uniLN f ts n last in
  let '(g', gp', a', ga', l') := group_clauses conf uniLN f' ts' n last in
  g = g' ∧ gp = gp' ∧ length a = length a' ∧ length ga = length ga' ∧ l = l'.
Proof.
  intros Ht. revert last. induction Ht as [|t t' ts ts' Ht Hts IH]; intros last; cbn [group_clauses]; [done|].
  pose proof (same_matchOp t t' Ht) as Hc. destruct Ht as [Hm _].
  destruct (matchOp t) as [cop u], (matchOp t') as [cop' u']. simpl in Hc. subst cop'.
  specialize (IH (S last)). destruct (group_clauses _ _ f ts _ _) as [[[[g gp] a] ga] l].
  destruct (group_clauses _ _ f' ts' _ _) as [[[[g' gp'] a'] ga'] l'].
  destruct IH as (-> & -> & Ha & Hga & ->). rewrite Hm. simpl. split_and!; congruence.
Qed.

Lemma blank_app s t : t ≠ EmptyString → blank (s +:+ t) = false.
Proof. intros Ht. unfold blank. apply bool_decide_eq_false. by destruct s. Qed.

Lemma same_grouped f f' ts ts' n op :
  Forall2 same_term ts ts' →
  let r := buildGroupedQuery conf uniLN f ts n op in
  let r' := buildGroupedQuery conf uniLN f' ts' n op in
  same_clause r.1 r'.1 ∧ r.2 = r'.2.
Proof.
  intros Ht. unfold buildGroupedQuery. pose proof (same_group f f' ts ts' n n Ht) as Hg.
  destruct (group_clauses _ _ f ts _ _) as [[[[g gp] a] ga] l].
  destruct (group_clauses _ _ f' ts' _ _) as [[[[g' gp'] a'] ga'] l'].
  destruct Hg as (-> & -> & Ha & Hga & ->). split; [|done]. split_and!; simpl; [|by rewrite !blank_app|done].
  rewrite !length_app. congruence.
Qed.

Lemma same_end f f' b b' sign n :
  bool_decide (b = "*") = bool_decide (b' = "*") →
  let l := range_end conf uniLN f b sign n in
  let l' := range_end conf uniLN f' b' sign n in
  length l = length l' ∧ ((λ e, e.1.1.1) <$> l) = ((λ e, e.1.1.1) <$> l') ∧
  ((λ e, e.1.2) <$> l) = ((λ e, e.1.2) <$> l').
Proof. intros Hb. unfold range_end. rewrite Hb. by case_match. Qed.

Lemma same_range f f' s e s' e' incl n op neg :
  open_ends s e = open_ends s' e' →
  same_clause (buildRangeQuery conf uniLN f s e incl n op neg) (buildRangeQuery conf uniLN f' s' e' incl n op neg).
Proof.
  unfold open_ends, buildRangeQuery.
  destruct (if str_ltb e s then (e, s) else (s, e)) as [a b].
  destruct (if str_ltb e' s' then (e', s') else (s', e')) as [a' b']. intros [= Ha Hb].
  set (equals := if incl then "=" else EmptyString).
  destruct (same_end f f' a a' (">" +:+ equals) n Ha) as (H1 & H2 & H3).
  destruct (same_end f f' b b' ("<" +:+ equals) n Hb) as (H4 & H5 & H6).
  set (l1 := range_end conf uniLN f a _ n) in *. set (l2 := range_end conf uniLN f b _ n) in *.
  set (l1' := range_end conf uniLN f' a' _ n) in *. set (l2' := range_end conf uniLN f' b' _ n) in *.
  assert (length (l1 ++ l2) = length (l1' ++ l2')) as Hl by (rewrite !length_app; congruence).
  split_and!; cbn [fst snd].
  - simpl. rewrite !length_app. simpl. rewrite !length_fmap. congruence.
  - by rewrite !blank_app.
  - rewrite !fmap_app, H2, H3, H5, H6.
    destruct (l1 ++ l2) as [|x xs], (l1' ++ l2') as [|y ys]; done.
Qed.

Lemma same_add pq pq' c c' n :
  same_query pq pq' → same_clause c c' → same_query (add_clause pq c n) (add_clause pq' c' n).
Proof.
  intros (H1 & H2 & H3 & H4) (Ha & Hp & Hq). destruct c as [[a p] q], c' as [[a' p'] q'].
  unfold blank in Hp. simpl in *. subst q'. unfold same_query. simpl. rewrite !length_app, Hp, H2.
  split_and!; [|done|lia|done]. destruct (bool_decide (p' = EmptyString)); simpl; lia.
Qed.

Lemma same_path pq pq' p p' : same_query pq pq' → same_query (add_path pq p) (add_path pq' p').
Proof. intros (H1 & H2 & H3 & H4). unfold same_query. simpl. rewrite !length_app. simpl. split_and!; [lia|done..]. Qed.

(** Results that are the same but for what differs in statements. *)
Definition same_result {A B} (R : A → B → Prop) (r : outcome A) (r' : outcome B) : Prop :=
  match r, r' with
  | Ok a, Ok b => R a b
  | Err e, Err e' => e = e'
  | Panic p, Panic p' => p = p'
  | _, _ => False
  end.

Lemma same_bind {A A' B B'} (R : A → A' → Prop) (Q : B → B' → Prop) r r' f f' :
  same_result R r r' → (∀ a a', R a a' → same_result Q (f a) (f' a')) → same_result Q (r ≫= f) (r' ≫= f').
Proof. destruct r, r'; simpl; try done; naive_solver. Qed.

Lemma same_op q q' : same_link q q' → q_op q = q_op q'.
Proof. destruct q, q'; simpl; try done; naive_solver. Qed.

Lemma Forall2_rev {A B} (R : A → B → Prop) l k : Forall2 R l k → Forall2 R (rev l) (rev k).
Proof. intros Hl. induction Hl; simpl; [constructor|]. apply Forall2_app; [done|by repeat constructor]. Qed.

(** Sub queries of chains of the same form are of the same form. *)
Lemma same_sub_chain n acc acc' l l' :
  Forall2 same_link acc acc' → Forall2 same_link l l' →
  same_result (λ a b, Forall2 same_link a.1.1 b.1.1 ∧ same_link a.1.2 b.1.2 ∧ Forall2 same_link a.2 b.2)
    (sub_chain n acc l) (sub_chain n acc' l').
Proof.
  intros Hacc Hl. revert n acc acc' Hacc. induction Hl as [|s s' l l' Hs Hl IH]; intros n acc acc' Hacc; [done|].
  cbn [sub_chain].
  set (m := match s with QSub q => if sq_start q then S n else pred n | _ => n end).
  set (m' := match s' with QSub q => if sq_start q then S n else pred n | _ => n end).
  assert (m = m') as <-.
  { unfold m, m'. destruct s, s'; try done. destruct Hs as (-> & _). done. }
  destruct m as [|m]; [|apply IH; by constructor]. simpl. split_and!; [|done|done].
  destruct Hacc as [|a a' acc acc' Ha Hacc]; [by constructor|].
  change (Forall2 same_link (rev (a :: acc)) (rev (a' :: acc'))). by apply Forall2_rev; constructor.
Qed.

Lemma same_craft orgID idx idx' pq pq' :
  builtin_index idx = builtin_index idx' → (builtin_index idx = true → idx = idx') → same_query pq pq' →
  same_result (λ a b, a.1 = b.1 ∧ length a.2 = length b.2) (craftFullQuery orgID idx pq) (craftFullQuery orgID idx' pq').
Proof.
  intros Hb Hi (H1 & H2 & H3 & H4). unfold craftFullQuery, select_statement. rewrite H2, H4.
  assert (items_statement idx = items_statement idx') as He.
  { unfold items_statement. rewrite Hb. destruct (builtin_index idx') eqn:E; [|done]. by rewrite Hi. }
  unfold with_statement. rewrite H1, He.
  destruct (tables pq' =? 1); [destruct (queryStrs pq'); [done|]|]; simpl; rewrite !length_app, !length_fmap;
    (split; [done|congruence]).
Qed.

Lemma same_execute fuel c c' op pq pq' :
  Forall2 same_link c c' → same_query pq pq' →
  same_result same_query (execute conf uniLN fuel c op pq) (execute conf uniLN fuel c' op pq').
Proof.
  revert c c' op pq pq'. induction fuel as [|fuel IH]; intros c c' op pq pq' Hc Hpq.
  { by destruct Hc. }
  destruct Hc as [|q q' c c' Hq Hc]; [done|]. cbn [execute]. pose proof Hpq as (_ & _ & _ & Ht).
  destruct q as [b|g|r|s|n], q' as [b'|g'|r'|s'|n']; try done; cbn [same_link] in Hq.
  - destruct Hq as (Ho & Hf & Hterm & Hs & Hp). rewrite Ho.
    assert (same_query (if bool_decide (bq_field b = EmptyString) then pq else add_path pq (bq_field b))
              (if bool_decide (bq_field b' = EmptyString) then pq' else add_path pq' (bq_field b'))) as Hpq'.
    { unfold blank in Hf. rewrite Hf. case_match; [done|by apply same_path]. }
    pose proof Hpq' as (_ & _ & _ & Ht'). rewrite Ht'. apply IH; [done|]. apply same_add; [done|].
    by apply same_basic.
  - destruct Hq as [Ho Hts]. rewrite Ho.
    pose proof (same_grouped (gq_field g) (gq_field g') _ _ (tables pq) op Hts) as [Hg1 Hg2].
    simpl tables. rewrite <-Ht.
    destruct (buildGroupedQuery conf uniLN (gq_field g) _ _ _) as [cl n],
      (buildGroupedQuery conf uniLN (gq_field g') _ _ _) as [cl' n']. simpl in Hg1, Hg2. subst n'.
    apply IH; [done|]. apply same_add; [by apply same_path|done].
  - destruct Hq as (Ho & Hi & Hn & He). rewrite Ho, Hi, Hn. simpl tables. rewrite Ht.
    apply IH; [done|]. apply same_add; [by apply same_path|by apply same_range].
  - eapply (same_bind (λ a b, Forall2 same_link a.1.1 b.1.1 ∧ same_link a.1.2 b.1.2 ∧ Forall2 same_link a.2 b.2)).
    { unfold extractSubQuery. destruct Hc; [done|]. apply same_sub_chain; by constructor. }
    intros [[nq nend] rest] [[nq' nend'] rest'] (Hnq & Hend & Hrest). simpl in Hnq, Hend, Hrest.
    eapply (same_bind same_query); [apply IH; [done|by rewrite Ht]|]. intros np np' Hnp.
    eapply (same_bind (λ a b, a.1 = b.1 ∧ length a.2 = length b.2)); [by apply same_craft|]. intros _ _ _.
    rewrite (same_op _ _ Hend). apply IH; [done|]. destruct Hpq as (H1 & H2 & H3 & _), Hnp as (G1 & G2 & G3 & G4).
    unfold same_query. simpl. rewrite !length_app, H2, G2, G4. split_and!; [lia|done|lia|done].
  - by apply IH.
Qed.
End same.

(** * Properties *)

Section properties.
  Context (conf : Conf) (uniLN : string → bool).


(** C12: the words of a query never become part of the statement: two chains
    that agree in their operators, and in which words are empty, a star or have
    wildcards, compile to the same statement with as many arguments, on the
    same built-in collection or on any two data bags, or fail alike. *)
Theorem words_stay_arguments (idx idx' : string) (chain chain' : list Queryable) :
  builtin_index idx = builtin_index idx' → (builtin_index idx = true → idx = idx') →
  Forall2 (same_link conf uniLN) chain chain' →
  same_result (λ r r', r.1 = r'.1 ∧ length r.2 = length r'.2)
    (full_query conf uniLN idx chain) (full_query conf uniLN idx' chain').
Proof.
  intros Hb Hi Hc. unfold full_query. pose proof (Forall2_length _ _ _ Hc) as ->.
  eapply (same_bind same_query); [by apply same_execute|]. intros pq pq' Hpq. by apply same_craft.
Qed.
End properties.

(** * Examples *)

(** The chain of a query text, with ASCII letters only. *)
Definition parsed (query : string) : outcome (list Queryable) :=
  match query_actions (λ _, false) (S (length (runes query))) query with
  | Some (inl acts) => z ← apply_actions default_conf (λ _, false) acts empty_token; Ok (Evaluate z)
  | Some (inr e) => Err (New e)
  | None => Panic StackOverflow
  end.

Definition basic (field term : string) (op : Op) : Queryable :=
  QBasic {| bq_field := field; bq_term := {| qt_term := term; qt_mod := OpNotAnOp |}; bq_op := op;
            bq_complete := true |}.

Definition sub_start : SubQuery := {| sq_start := true; sq_end := false; sq_op := OpNotAnOp; sq_complete := true |}.
Definition sub_end : SubQuery := {| sq_start := false; sq_end := true; sq_op := OpNotAnOp; sq_complete := true |}.

Definition nested (a b c : string) : list Queryable :=
  basic "role" a OpBinAnd :: QSub sub_start :: [basic "x" b OpBinOr; basic "y" c OpBinOr] ++ [QSub sub_end].

Example nested_parsed : parsed "role:web AND (x:1 OR y:2*)" = Ok (nested "web" "1" "2*").
Proof. vm_compute. reflexivity. Qed.

Lemma nested_ok a b c : chain_ok (nested a b c) ∧ Exists is_test (nested a b c).
Proof.
  split; [|by constructor]. apply ok_test; [done|]. apply (ok_sub sub_start sub_end); try done.
  - by repeat (apply ok_test; [done|]); constructor.
  - by constructor.
  - constructor.
Qed.


(** Quotes and semicolons of a query are arguments like any other word. *)
Lemma words_stay_arguments_witness :
  same_result (λ r r', r.1 = r'.1 ∧ length r.2 = length r'.2)
    (full_query default_conf (λ _, false) "node" (nested "web" "1" "2*"))
    (full_query default_conf (λ _, false) "node" (nested "'; DROP TABLE nodes; --" "$1" "_ARG_*")).
Proof.
  apply (words_stay_arguments default_conf (λ _, false)); [reflexivity|reflexivity|].
  repeat constructor; vm_compute; reflexivity.
Defined.

(** The last clause of the statement of a query, and its arguments. *)
Definition compiled (query : string) : outcome (string * list sql_arg) :=
  chain ← parsed query; full_query default_conf (λ _, false) "node" chain.

Definition has_text (s : string) (r : outcome (string * list sql_arg)) : bool :=
  match r with Ok (q, _) => str_contains s q | _ => false end.

(** A range without an upper end asks for values below its lower end: the
    ends are put in order with the star as a word. *)
Example open_range_inverted :
  has_text "WHERE (f0.path OPERATOR(goiardi.~) $5 AND (f0.value <= $6)" (compiled "x:[5 TO *]") = true ∧
  ∃ q, compiled "x:[5 TO *]" = Ok (q, [AInt 1; AStr "node"; AStr "x"; AStr "x.*"; AStr "x"; AStr "5";
                                        AStr "x.*"; AStr "x.5"]).
Proof. split; [vm_compute; reflexivity|]. eexists. vm_compute. reflexivity. Qed.

(** A range open at both ends has an argument too many. *)
Example open_range_arguments :
  match compiled "x:[* TO *]" with
  | Ok (q, args) => placeholders q = ["1"; "2"; "3"; "4"; "1"; "5"] ∧ length args = 6
  | _ => False
  end.
Proof. vm_compute. done. Qed.

(** A single negated test refers to the table [i], which the statement for one
    table does not have. *)
Example lone_negation_names_no_table :
  has_text "FROM found_items f0 WHERE" (compiled "NOT x:y") = true ∧
  has_text "WHERE i.item_name = found_items.item_name" (compiled "NOT x:y") = true ∧
  has_text "items i" (compiled "NOT x:y") = false.
Proof. vm_compute. done. Qed.
