(* ===== verification/World.v ===== *)
(** The state the object packages work on: the data store, the search index,
    the objects handed to the indexer whose goroutines have not run yet
    (src/indexer/indexer.go), and the goroutines of pushed jobs; and what the packages share when they load and
    save one kind of object. *)
From S2P Require Import Prelude Gerror Iface Config Store Objects UtilStrings Validations Flatten FileIndex.

(** * One kind of stored object *)

(** The type under which a package stores its objects, and the type
    assertion it makes on what it loads. *)
Class Stored (A : Type) : Type := {
  s_type : string;
  s_name : A → string;
  s_inj : A → object;
  s_proj : object → option A;
  s_gob : A → A;
}.
#[global] Arguments s_type A {_}.

Class StoredLaws (A : Type) `{Stored A} : Prop := {
  s_type_ok : obj_type (s_type A) = true;
  s_proj_inj a : s_proj (s_inj a) = Some a;
  s_inj_proj o a : s_proj o = Some a → o = s_inj a;
  s_gob_inj a : gob (s_inj a) = s_inj (s_gob a);
  s_gob_name a : s_name (s_gob a) = s_name a;
}.

Section kind.
  Context {A : Type} `{Stored A} {S : Type} {O : StoreOps S object}.
  Implicit Types (s : S) (a : A) (k : string).

(** [ds.Get] with the type assertion. *)
Definition load s k : outcome (option A) :=
  o ← st_get s (s_type A) k;
  match o with
  | None => Ok None
  | Some o => match s_proj o with Some a => Ok (Some a) | None => Panic TypeAssertion end
  end.

Definition store s a : S := st_set s (s_type A) (s_name a) (s_inj a).

Definition unstore s k : S := st_del s (s_type A) k.

(** The objects of a list of names, those that are gone skipped. *)
Fixpoint load_all s (names : list string) : outcome (list A) :=
  match names with
  | [] => Ok []
  | k :: r =>
      o ← load s k; l ← load_all s r;
      Ok (match o with Some a => a :: l | None => l end)
  end.

Definition load_list s : outcome (list A) := names ← st_list s (s_type A); load_all s names.

(** Every object of the kind is stored under its name. *)
Definition kind_wf s : Prop :=
  ∀ k o, st_get s (s_type A) k = Ok (Some o) → ∃ a, o = s_inj a ∧ s_name a = k.

Context {SL : StoredLaws A} {L : StoreLaws S object}.

Lemma load_get s k a :
  st_inv s → kind_wf s → load s k = Ok (Some a) ↔ st_get s (s_type A) k = Ok (Some (s_inj a)).
Proof.
  intros Hi Hw. unfold load. destruct (st_get_ok s (s_type A) k Hi s_type_ok) as [[o|] Ho]; rewrite Ho; simpl.
  - destruct (Hw k o Ho) as (a' & -> & _). rewrite s_proj_inj. split; [by intros [= ->]|].
    intros [= He]. do 2 f_equal. assert (Some a' = Some a) as [= ->]; [|done].
    by rewrite <-(s_proj_inj a'), He, s_proj_inj.
  - done.
Qed.

Lemma load_ok s k : st_inv s → kind_wf s → ∃ o, load s k = Ok o ∧
  (o = None ↔ st_get s (s_type A) k = Ok None).
Proof.
  intros Hi Hw. unfold load. destruct (st_get_ok s (s_type A) k Hi s_type_ok) as [[o|] Ho]; rewrite Ho; simpl.
  - destruct (Hw k o Ho) as (a' & -> & _). rewrite s_proj_inj. by eexists.
  - by eexists.
Qed.

Lemma load_name s k a : st_inv s → kind_wf s → load s k = Ok (Some a) → s_name a = k.
Proof.
  intros Hi Hw Hl. apply load_get in Hl; [|done..]. destruct (Hw k _ Hl) as (a' & He & <-).
  assert (Some a = Some a') as [= ->]; [|done]. by rewrite <-(s_proj_inj a), He, s_proj_inj.
Qed.

Lemma load_store s a k :
  st_inv s → load (store s a) k = if bool_decide (k = s_name a) then Ok (Some (s_gob a)) else load s k.
Proof.
  intros Hi. unfold load, store. rewrite st_get_set by (done || apply s_type_ok).
  destruct (decide (k = s_name a)) as [->|Hne].
  - rewrite (bool_decide_true (_ ∧ _)), bool_decide_true by done. simpl. by rewrite s_gob_inj, s_proj_inj.
  - rewrite (bool_decide_false (_ ∧ _)), bool_decide_false by naive_solver. done.
Qed.

Lemma load_unstore s j k :
  st_inv s → load (unstore s j) k = if bool_decide (k = j) then Ok None else load s k.
Proof.
  intros Hi. unfold load, unstore. rewrite st_get_del by (done || apply s_type_ok).
  destruct (decide (k = j)) as [->|Hne].
  - by rewrite (bool_decide_true (_ ∧ _)), bool_decide_true by done.
  - by rewrite (bool_decide_false (_ ∧ _)), bool_decide_false by naive_solver.
Qed.

Lemma store_kind_wf s a : st_inv s → kind_wf s → kind_wf (store s a).
Proof.
  intros Hi Hw k o. unfold store. rewrite st_get_set by (done || apply s_type_ok).
  case_bool_decide as E; [|apply Hw]. intros [= <-]. exists (s_gob a). destruct E as [_ ->].
  split; [apply s_gob_inj|apply s_gob_name].
Qed.

Lemma unstore_kind_wf s j : st_inv s → kind_wf s → kind_wf (unstore s j).
Proof.
  intros Hi Hw k o. unfold unstore. rewrite st_get_del by (done || apply s_type_ok).
  case_bool_decide; [done|apply Hw].
Qed.

Lemma store_inv s a : st_inv s → st_inv (store s a).
Proof. intros. apply st_set_inv; [apply s_type_ok|done]. Qed.

Lemma unstore_inv s j : st_inv s → st_inv (unstore s j).
Proof. intros. apply st_del_inv; [apply s_type_ok|done]. Qed.

Lemma load_all_elem s names l a :
  st_inv s → kind_wf s → load_all s names = Ok l →
  a ∈ l ↔ ∃ k, k ∈ names ∧ load s k = Ok (Some a).
Proof.
  intros Hi Hw. revert l. induction names as [|k names IH]; intros l Hl; simpl in Hl.
  { injection Hl as <-. set_solver. }
  apply bind_Ok in Hl as (o & Ho & Hl). apply bind_Ok in Hl as (l' & Hl' & [= <-]).
  specialize (IH l' Hl'). setoid_rewrite elem_of_cons. destruct o as [a'|].
  - rewrite elem_of_cons, IH. split.
    + intros [->|(j & ? & ?)]; eauto.
    + intros (j & [->|Hj] & Hj'); [left; congruence|]. right. eauto.
  - rewrite IH. split; [intros (j & ? & ?); eauto|]. intros (j & [->|Hj] & Hj'); [congruence|eauto].
Qed.

Lemma load_all_ok s names : st_inv s → kind_wf s → ∃ l, load_all s names = Ok l.
Proof.
  intros Hi Hw. induction names as [|k names [l IH]]; simpl; [eauto|].
  destruct (load_ok s k Hi Hw) as (o & -> & _). rewrite IH. eexists. done.
Qed.

(** [load_list] is exactly the stored objects of the kind. *)
Lemma load_list_spec s :
  st_inv s → kind_wf s →
  ∃ l, load_list s = Ok l ∧ ∀ a, a ∈ l ↔ load s (s_name a) = Ok (Some a).
Proof.
  intros Hi Hw. destruct (st_list_ok s (s_type A) Hi s_type_ok) as (names & Hn & _ & _ & Hin).
  unfold load_list. rewrite Hn. simpl. destruct (load_all_ok s names Hi Hw) as [l Hl]. exists l.
  split; [done|]. intros a. rewrite (load_all_elem s names l a Hi Hw Hl). split.
  - intros (k & _ & Hk). by rewrite (load_name s k a Hi Hw Hk).
  - intros Ha. exists (s_name a). split; [|done]. apply Hin. exists (s_inj a). by apply load_get.
Qed.

Lemma load_all_names s names l :
  st_inv s → kind_wf s → load_all s names = Ok l → s_name <$> l `sublist_of` names.
Proof.
  intros Hi Hw. revert l. induction names as [|k names IH]; intros l Hl; simpl in Hl.
  { by injection Hl as <-. }
  apply bind_Ok in Hl as (o & Ho & Hl). apply bind_Ok in Hl as (l' & Hl' & [= <-]).
  specialize (IH l' Hl'). destruct o as [a|]; [|by apply sublist_cons].
  simpl. rewrite (load_name s k a) by done. by apply sublist_skip.
Qed.

Lemma load_list_NoDup s l : st_inv s → kind_wf s → load_list s = Ok l → NoDup (s_name <$> l).
Proof.
  intros Hi Hw (names & Hn & Hl)%bind_Ok. destruct (st_list_ok s (s_type A) Hi s_type_ok) as (names' & Hn' & _ & Hnd & _).
  assert (names = names') as -> by congruence. eapply sublist_NoDup; [done|]. by eapply load_all_names.
Qed.
End kind.

(** Objects of different types do not meet. *)
Section two_kinds.
  Context {A B : Type} `{Stored A, Stored B} {SA : StoredLaws A} {SB : StoredLaws B}.
  Context {S : Type} {O : StoreOps S object} {L : StoreLaws S object}.

Lemma load_store_ne (s : S) (b : B) k :
  st_inv s → s_type A ≠ s_type B → load (A := A) (store s b) k = load s k.
Proof.
  intros Hi Hne. unfold load, store. rewrite st_get_set by (done || apply s_type_ok).
  by rewrite bool_decide_false by naive_solver.
Qed.

Lemma load_unstore_ne (s : S) j k :
  st_inv s → s_type A ≠ s_type B → load (A := A) (unstore (A := B) s j) k = load s k.
Proof.
  intros Hi Hne. unfold load, unstore. rewrite st_get_del by (done || apply s_type_ok).
  by rewrite bool_decide_false by naive_solver.
Qed.

Lemma kind_wf_store_ne (s : S) (b : B) :
  st_inv s → s_type A ≠ s_type B → kind_wf (A := A) s → kind_wf (A := A) (store s b).
Proof.
  intros Hi Hne Hw k o. unfold store. rewrite st_get_set by (done || apply s_type_ok).
  rewrite bool_decide_false by naive_solver. apply Hw.
Qed.

Lemma kind_wf_unstore_ne (s : S) j :
  st_inv s → s_type A ≠ s_type B → kind_wf (A := A) s → kind_wf (A := A) (unstore (A := B) s j).
Proof.
  intros Hi Hne Hw k o. unfold unstore. rewrite st_get_del by (done || apply s_type_ok).
  rewrite bool_decide_false by naive_solver. apply Hw.
Qed.
End two_kinds.

(** * The world *)

(** The goroutines of pushed jobs (src/shovey/shovey.go): one that tells a job
    of a change to one of its runs; and one that waits for a number of messages
    of the nodes a job was sent to, with the one it hands runs to that are to be
    saved, through a channel. *)
Inductive task : Type :=
| TNotify (shoveyUUID : string)
| TListen (runID : string) (messages : nat) (srCh : list ShoveyRun).

Section world.
  Context (conf : Conf) {S : Type} {T : Type} {TO : TrieOps T}.

Record world : Type := {
  sto : S;
  index : FileIndex T;
  pending : list Indexable;
  tasks : list task;
}.

Definition set_sto (w : world) (s : S) : world := 
  {| sto := s; index := index w; pending := pending w; tasks := tasks w |}.

Definition set_index (w : world) (i : FileIndex T) : world :=
  {| sto := sto w; index := i; pending := pending w; tasks := tasks w |}.

Definition set_tasks (w : world) (l : list task) : world :=
  {| sto := sto w; index := index w; pending := pending w; tasks := l |}.

(** [IndexObj] starts a goroutine that saves the object. *)
Definition IndexObj (w : world) (o : Indexable) : world :=
  {| sto := sto w; index := index w; pending := pending w ++ [o]; tasks := tasks w |}.

(** One of those goroutines runs: any of them, in any order. *)
Inductive index_step : world → world → Prop :=
| index_one w l1 o l2 i :
    pending w = l1 ++ o :: l2 → SaveItem conf (index w) o = Ok i →
    index_step w {| sto := sto w; index := i; pending := l1 ++ l2; tasks := tasks w |}.

Definition DeleteItemFromCollection (w : world) (idxName doc : string) : world :=
  set_index w (DeleteItem (index w) idxName doc).1.

Definition w_CreateNewCollection (w : world) (idxName : string) : world :=
  set_index w (CreateNewCollection (index w) idxName).

(** The error for a built-in collection is dropped by the callers. *)
Definition w_DeleteCollection (w : world) (idxName : string) : world :=
  match DeleteCollection (index w) idxName with Ok i => set_index w i | _ => w end.
End world.
#[global] Arguments world S T : clear implicits.

(** * Uploaded objects *)

(** The loop over the keys of an uploaded object. *)
Definition check_elements (valid : list string) (json : jmap) : outcome () :=
  match filter (λ k, k ∉ valid) (mkeys json) with
  | [] => Ok ()
  | k :: _ => Err (Errorf ("Invalid key " +:+ k +:+ " in request body"))
  end.

(** A field that may be left out, and otherwise has one legal value. *)
Definition class_field (json : jmap) (key legal current : string) : outcome string :=
  match ValidateAsFieldString (mget key json) with
  | Ok v => if bool_decide (v = legal) then Ok v else Err (Errorf ("Field '" +:+ key +:+ "' invalid"))
  | Err e => if bool_decide (Error e = "Field 'name' nil") then Ok current else Err e
  | Panic p => Panic p
  end.

Lemma check_elements_Ok valid json :
  check_elements valid json = Ok () ↔ ∀ k, k ∈ mkeys json → k ∈ valid.
Proof.
  unfold check_elements. destruct (filter (λ k, k ∉ valid) (mkeys json)) as [|k l] eqn:E.
  - split; [|done]. intros _ k Hk. destruct (decide (k ∈ valid)) as [|Hn]; [done|].
    assert (k ∈ filter (λ k, k ∉ valid) (mkeys json)) as Hf by (by apply list_elem_of_filter).
    rewrite E in Hf. by apply not_elem_of_nil in Hf.
  - split; [done|]. intros Hv. assert (k ∈ filter (λ k, k ∉ valid) (mkeys json)) as Hf by (rewrite E; set_solver).
    apply list_elem_of_filter in Hf as [Hn Hk]. by destruct Hn; apply Hv.
Qed.

Lemma class_field_Ok json key legal current v :
  class_field json key legal current = Ok v → v = legal ∨ v = current.
Proof.
  unfold class_field. destruct (ValidateAsFieldString (mget key json)); [|case_bool_decide|done];
    [case_bool_decide; naive_solver|naive_solver..].
Qed.

Lemma class_field_no_panic json key legal current p : class_field json key legal current ≠ Panic p.
Proof. unfold class_field, ValidateAsFieldString. repeat case_match; naive_solver. Qed.
