(* ===== verification/Expiry.v ===== *)
(** Deleting the stored objects of one kind that are older than a time: the
    packages sort them by a time, find the first that is young enough by
    binary search, and delete those before it. *)
From S2P Require Import Prelude Gerror Iface Store Objects SortSearch World.

Section expiry.
  Context {A : Type} `{Stored A} {SL : StoredLaws A} {S : Type} {O : StoreOps S object} {L : StoreLaws S object}.
  Context (key : A → Z).
  Implicit Types (s : S) (a : A).

Lemma delete_all_load s (l : list A) k :
  st_inv s →
  st_inv (foldl (λ s a, unstore (A := A) s (s_name a)) s l) ∧
  load (A := A) (foldl (λ s a, unstore (A := A) s (s_name a)) s l) k =
    if bool_decide (k ∈ s_name <$> l) then Ok None else load s k.
Proof.
  revert s. induction l as [|a l IH]; intros s Hi; simpl; [done|].
  destruct (IH (unstore (A := A) s (s_name a))) as [H1 H2]; [by apply unstore_inv|]. split; [done|]. rewrite H2.
  rewrite load_unstore by done.
  destruct (decide (k ∈ s_name <$> l)) as [Hin|Hn].
  - rewrite !bool_decide_true by set_solver. done.
  - rewrite (bool_decide_false (k ∈ s_name <$> l)) by done.
    apply (f_equal (λ b : bool, if b then Ok None else load s k)), bool_decide_ext. set_solver.
Qed.

(** The objects of the kind, sorted, and how many of them are too old. *)
Definition cut (t : Z) (l : list A) : nat := sort_Search (length l) (at_least key t l).

Definition expire s (t : Z) (l : list A) : S := foldl (λ s a, unstore (A := A) s (s_name a)) s (take (cut t l) l).

(** Exactly the objects before [t] go, and they are counted. *)
Lemma expire_spec s t all :
  st_inv s → kind_wf (A := A) s → load_list s = Ok all →
  let l := go_sort (key_less key) all in
  cut t l = length (filter (λ a, (key a < t)%Z) all) ∧
  ∀ k a, load (A := A) (expire s t l) k = Ok (Some a) ↔ load s k = Ok (Some a) ∧ (t ≤ key a)%Z.
Proof.
  intros Hi Hw Hall l. destruct (load_list_spec (A := A) s Hi Hw) as (all' & Hall' & Hin).
  assert (all' = all) as -> by congruence. clear Hall'.
  assert (StronglySorted (le_of (key_less key)) l) as Hs by exact (go_sort_sorted (key_less key) all).
  assert (l ≡ₚ all) as Hp by apply go_sort_Permutation.
  split; [unfold cut; rewrite <-count_old by done; by rewrite Hp|].
  intros k a. unfold expire. destruct (delete_all_load s (take (cut t l) l) k Hi) as [_ ->].
  destruct (load_ok (A := A) s k Hi Hw) as ([a0|] & Hl & _); rewrite Hl; [|case_bool_decide; naive_solver].
  pose proof (load_name s k a0 Hi Hw Hl) as Hk. subst k.
  assert (s_name a0 ∈ s_name <$> take (cut t l) l ↔ (key a0 < t)%Z) as Hiff.
  { rewrite list_elem_of_fmap. split.
    - intros (x & Hx & Hxin). apply take_old in Hxin as [Hxin Hlt]; [|done]. rewrite Hp in Hxin.
      apply Hin in Hxin. rewrite <-Hx, Hl in Hxin. by injection Hxin as <-.
    - intros Hlt. exists a0. split; [done|]. apply take_old; [done|]. split; [|done]. rewrite Hp. by apply Hin. }
  case_bool_decide as Eb.
  - apply Hiff in Eb. split; [done|]. intros [[= <-] ?]. lia.
  - split; [|by intros [? _]]. intros [= <-]. split; [done|]. rewrite Hiff in Eb. lia.
Qed.

Lemma expire_inv s t l : st_inv s → st_inv (expire s t l).
Proof. intros Hi. by apply (delete_all_load s (take (cut t l) l) EmptyString). Qed.

(** When the oldest is young enough, nothing is to be done. *)
Lemma cut_none t all :
  let l := go_sort (key_less key) all in
  (∀ a, head l = Some a → (t ≤ key a)%Z) → cut t l = 0%nat.
Proof.
  intros l Hh. assert (StronglySorted (le_of (key_less key)) l) as Hs by exact (go_sort_sorted (key_less key) all).
  destruct (search_split key t l Hs) as (Hle & Ht & _). cbv zeta in Hle, Ht. fold (cut t l) in Hle, Ht.
  destruct l as [|a l'] eqn:El; [simpl in Hle; lia|].
  destruct (cut t (a :: l')) as [|j]; [done|]. simpl in Ht. apply Forall_cons in Ht as [Ht _].
  specialize (Hh a eq_refl). lia.
Qed.
End expiry.
