(* ===== verification/Nodes.v ===== *)
(** Nodes (src/node/node.go): creating, validating, storing and indexing
    them. *)
From S2P Require Import Prelude Gerror Iface Config Store Objects UtilStrings Validations Flatten FileIndex World.

#[export] Instance node_stored : Stored Node := {|
  s_type := "node"; s_name := n_Name; s_inj := ONode;
  s_proj o := match o with ONode n => Some n | _ => None end; s_gob := gob_node |}.

#[export] Instance node_stored_laws : StoredLaws Node.
Proof. split; try done. by intros [] a [= ->]. Qed.

Section nodes.
  Context (conf : Conf) {S T : Type} {O : StoreOps S object} {TO : TrieOps T}.
  Implicit Types (w : world S T) (n : Node).

(** * Definitions *)

Definition New_ w (name : string) : outcome Node :=
  if negb (ValidateDBagName name) then Err (Errorf "Field 'name' invalid")
  else
    found ← st_get (sto w) "node" name;
    match found with
    | Some _ => Err (SetStatus (Errorf ("Node " +:+ name +:+ " already exists")) StatusConflict)
    | None =>
        Ok {| n_Name := name; n_ChefEnvironment := "_default"; n_RunList := []; n_JSONClass := "Chef::Node";
              n_ChefType := "node"; n_Automatic := []; n_Normal := []; n_Default := []; n_Override := [];
              n_isDown := false |}
    end.

Definition validElements : list string :=
  ["name"; "json_class"; "chef_type"; "chef_environment"; "run_list"; "override"; "normal"; "default";
   "automatic"].

(** The environment a node asks for, its current one by default. *)
Definition env_field (jsonNode : jmap) n : outcome string :=
  match ValidateAsFieldString (mget "chef_environment" jsonNode) with
  | Ok v => if ValidateEnvName v then Ok v else Err (Errorf "Field 'chef_environment' invalid")
  | Err e => if bool_decide (Error e = "Field 'name' nil") then Ok (n_ChefEnvironment n) else Err e
  | Panic p => Panic p
  end.

Definition UpdateFromJSON n (jsonNode : jmap) : outcome Node :=
  nodeName ← ValidateAsString (mget "name" jsonNode);
  if bool_decide (n_Name n ≠ nodeName) then
    Err (Errorf ("Node name " +:+ n_Name n +:+ " and " +:+ nodeName +:+ " from JSON do not match."))
  else
    check_elements validElements jsonNode ≫= λ _,
    run_list ← ValidateRunList (mget "run_list" jsonNode);
    normal ← ValidateAttributes "normal" (mget "normal" jsonNode);
    automatic ← ValidateAttributes "automatic" (mget "automatic" jsonNode);
    dflt ← ValidateAttributes "default" (mget "default" jsonNode);
    override ← ValidateAttributes "override" (mget "override" jsonNode);
    env ← env_field jsonNode n;
    json_class ← class_field jsonNode "json_class" "Chef::Node" (n_JSONClass n);
    chef_type ← class_field jsonNode "chef_type" "node" (n_ChefType n);
    Ok {| n_Name := n_Name n; n_ChefEnvironment := env; n_RunList := run_list; n_JSONClass := json_class;
          n_ChefType := chef_type; n_Automatic := automatic; n_Normal := normal; n_Default := dflt;
          n_Override := override; n_isDown := n_isDown n |}.

Definition NewFromJSON w (jsonNode : jmap) : outcome Node :=
  nodeName ← ValidateAsString (mget "name" jsonNode);
  node ← New_ w nodeName;
  UpdateFromJSON node jsonNode.

Definition not_found (name : string) : gerror :=
  SetStatus (Errorf ("node '" +:+ name +:+ "' not found")) StatusNotFound.

Definition Get w (nodeName : string) : outcome Node :=
  o ← load (sto w) nodeName;
  match o with Some n => Ok n | None => Err (not_found nodeName) end.

Definition DoesExist w (nodeName : string) : outcome bool :=
  o ← st_get (sto w) "node" nodeName; Ok (bool_decide (is_Some o)).

(** [GetMulti]: the nodes that exist, in the order of the names. *)
Definition GetMulti w (nodeNames : list string) : outcome (list Node) := load_all (sto w) nodeNames.

(** The exported fields, with their json tags. *)
Definition fields n : jmap :=
  [("name", IStr (n_Name n)); ("chef_environment", IStr (n_ChefEnvironment n));
   ("run_list", IStrs (n_RunList n)); ("json_class", IStr (n_JSONClass n)); ("chef_type", IStr (n_ChefType n));
   ("automatic", IMap (n_Automatic n)); ("normal", IMap (n_Normal n)); ("default", IMap (n_Default n));
   ("override", IMap (n_Override n))].

Definition indexable n : Indexable :=
  {| DocID := n_Name n; Index := "node"; Flatten := FlattenObj conf (fields n) |}.

Definition Save w n : world S T := IndexObj (set_sto w (store (sto w) n)) (indexable n).

(** Deleting the node's statuses, when serf is on, is in Tables.v. *)
Definition Delete w n : world S T :=
  DeleteItemFromCollection (set_sto w (unstore (A := Node) (sto w) (n_Name n))) "node" (n_Name n).

Definition GetList w : outcome (list string) := st_list (sto w) "node".

Definition GetFromEnv w (envName : string) : outcome (list Node) :=
  names ← GetList w;
  ns ← load_all (sto w) names;
  Ok (filter (λ n, n_ChefEnvironment n = envName) ns).

Definition AllNodes w : outcome (list Node) := names ← GetList w; load_all (sto w) names.

Definition Count w : outcome Z := l ← GetList w; Ok (Z.of_nat (length l)).

(** * The index follows the store

    [Save] and [Delete] each lock the store and then, separately, the index;
    the calls of concurrent requests run between the two.  A call that has
    changed the store and not yet the index: *)
Inductive call : Type := CSaving (n : Node) | CDeleting (k : string).

Definition deleting (fl : list call) : list string :=
  omap (λ c, match c with CDeleting k => Some k | CSaving _ => None end) fl.

Lemma elem_of_deleting fl k : k ∈ deleting fl ↔ CDeleting k ∈ fl.
Proof.
  unfold deleting. rewrite list_elem_of_omap. split; [|by eexists; eauto]. intros ([n|j] & Hin & Hj); [done|].
  by injection Hj as ->.
Qed.

(** The server with the calls under way, and the names of the nodes whose last
    save was made while a deletion of that name was under way. *)
Record running : Type := { r_world : world S T; r_calls : list call; r_raced : gset string }.

(** The halves of [Save] and [Delete], and the goroutine of a saved object. *)
Inductive node_step : running → running → Prop :=
| step_set w fl rc n :
    node_step {| r_world := w; r_calls := fl; r_raced := rc |}
      {| r_world := set_sto w (store (sto w) n); r_calls := CSaving n :: fl;
         r_raced := if decide (n_Name n ∈ deleting fl) then {[n_Name n]} ∪ rc else rc ∖ {[n_Name n]} |}
| step_go w l1 n l2 rc :
    node_step {| r_world := w; r_calls := l1 ++ CSaving n :: l2; r_raced := rc |}
      {| r_world := IndexObj w (indexable n); r_calls := l1 ++ l2; r_raced := rc |}
| step_remove w fl rc n :
    node_step {| r_world := w; r_calls := fl; r_raced := rc |}
      {| r_world := set_sto w (unstore (A := Node) (sto w) (n_Name n)); r_calls := CDeleting (n_Name n) :: fl;
         r_raced := rc |}
| step_unindex w l1 k l2 rc :
    node_step {| r_world := w; r_calls := l1 ++ CDeleting k :: l2; r_raced := rc |}
      {| r_world := DeleteItemFromCollection w "node" k; r_calls := l1 ++ l2; r_raced := rc |}
| step_index w w' fl rc :
    index_step conf w w' →
    node_step {| r_world := w; r_calls := fl; r_raced := rc |} {| r_world := w'; r_calls := fl; r_raced := rc |}.

(** The whole of a call is its two halves. *)
Lemma save_steps w fl rc n :
  ∃ rc', rtc node_step {| r_world := w; r_calls := fl; r_raced := rc |}
    {| r_world := Save w n; r_calls := fl; r_raced := rc' |}.
Proof.
  eexists. eapply rtc_l; [apply step_set|]. eapply rtc_l; [|apply rtc_refl].
  apply (step_go (set_sto w (store (sto w) n)) [] n fl).
Qed.

Lemma delete_steps w fl rc n :
  rtc node_step {| r_world := w; r_calls := fl; r_raced := rc |}
    {| r_world := Delete w n; r_calls := fl; r_raced := rc |}.
Proof.
  eapply rtc_l; [apply step_remove|]. eapply rtc_l; [|apply rtc_refl].
  apply (step_unindex (set_sto w (unstore (A := Node) (sto w) (n_Name n))) [] (n_Name n) fl).
Qed.

(** A node is in the index, on its way into it, or about to be. *)
Definition node_found (x : running) (k : string) : Prop :=
  (∃ ic, idxmap (index (r_world x)) !! "node" = Some ic ∧ is_Some (ic !! k)) ∨
  (∃ o, o ∈ pending (r_world x) ∧ Index o = "node" ∧ DocID o = k) ∨
  (∃ n, CSaving n ∈ r_calls x ∧ n_Name n = k).

Context {L : StoreLaws S object}.

Record node_inv (x : running) : Prop := {
  ni_store : st_inv (sto (r_world x));
  ni_wf : kind_wf (A := Node) (sto (r_world x));
  ni_node_coll : is_Some (idxmap (index (r_world x)) !! "node");
  ni_indexed k n : load (sto (r_world x)) k = Ok (Some n) → k ∉ r_raced x →
    ¬ (CDeleting k ∈ r_calls x) ∧ node_found x k;
}.

(** Saving a document keeps every other one. *)
Lemma SaveItem_docs i o i' :
  SaveItem conf i o = Ok i' →
  (∀ idx ic, idxmap i !! idx = Some ic →
    ∃ ic', idxmap i' !! idx = Some ic' ∧ ∀ k, is_Some (ic !! k) → is_Some (ic' !! k)) ∧
  (∃ ic', idxmap i' !! Index o = Some ic' ∧ is_Some (ic' !! DocID o)).
Proof.
  unfold SaveItem. intros Hs. apply bind_Ok in Hs as (ic0 & Hadd & [= <-]).
  unfold addDoc in Hadd. apply bind_Ok in Hadd as (d & _ & [= <-]). simpl. split.
  - intros idx ic Hic. unfold CreateCollection. destruct (decide (idx = Index o)) as [->|Hne].
    + rewrite Hic, lookup_insert_eq. eexists. split; [done|]. intros k Hk. rewrite Hic. simpl.
      destruct (decide (k = DocID o)) as [->|]; [by rewrite lookup_insert_eq|by rewrite lookup_insert_ne].
    + rewrite lookup_insert_ne by done. exists ic. split; [|done].
      destruct (idxmap i !! Index o); [done|]. by rewrite lookup_insert_ne.
  - eexists. rewrite lookup_insert_eq. split; [done|]. rewrite lookup_insert_eq. eauto.
Qed.

(** The goroutine of a saved object keeps what is found. *)
Lemma node_found_index w w' fl rc k :
  index_step conf w w' →
  node_found {| r_world := w; r_calls := fl; r_raced := rc |} k →
  node_found {| r_world := w'; r_calls := fl; r_raced := rc |} k.
Proof.
  intros Hs. destruct Hs as [w l1 o l2 i Hp Hs]. destruct (SaveItem_docs _ _ _ Hs) as [H1 H2].
  intros [(ic & Hic & Hk)|[(o' & Hin & Ho & Hd)|?]]; [| |by right; right]; simpl in *.
  - left. destruct (H1 _ _ Hic) as (ic' & ? & Hk'). simpl. eauto.
  - rewrite Hp in Hin. destruct (decide (Index o = "node" ∧ DocID o = k)) as [[Hio <-]|Hne].
    { left. simpl. rewrite Hio in H2. destruct H2 as (ic' & ? & ?). eauto. }
    right. left. exists o'. split; [|done]. simpl. rewrite elem_of_app, elem_of_cons in Hin.
    rewrite elem_of_app. destruct Hin as [?|[->|?]]; [by left|naive_solver|by right].
Qed.

(** Taking a document out of the index keeps the others. *)
Lemma node_found_unindex w l1 l2 rc k j :
  k ≠ j → node_found {| r_world := w; r_calls := l1 ++ CDeleting j :: l2; r_raced := rc |} k →
  node_found {| r_world := DeleteItemFromCollection w "node" j; r_calls := l1 ++ l2; r_raced := rc |} k.
Proof.
  intros Hne [(ic & Hic & Hk)|[?|(n & Hin & Hn)]]; simpl in *.
  - left. simpl. unfold DeleteItem. rewrite Hic. simpl. eexists. rewrite lookup_insert_eq. split; [done|].
    unfold delDoc. by rewrite lookup_delete_ne.
  - by right; left.
  - right; right. exists n. split; [|done]. simpl. rewrite elem_of_app, elem_of_cons in Hin. rewrite elem_of_app.
    naive_solver.
Qed.

Lemma node_step_inv x y : node_inv x → node_step x y → node_inv y.
Proof.
  intros [Hi Hw Hc Hx] Hs. destruct Hs as [w fl rc n|w l1 n l2 rc|w fl rc n|w l1 j l2 rc|w w' fl rc Hs]; simpl in *.
  - split; simpl; [by apply store_inv|by apply store_kind_wf|done|].
    intros k m. rewrite load_store by done. destruct (decide (k = n_Name n)) as [->|Hne].
    + intros _ Hr. destruct (decide (n_Name n ∈ deleting fl)) as [|Hd]; [set_solver|].
      rewrite elem_of_deleting in Hd. split; [set_solver|].
      right; right. exists n. split; [left|done].
    + rewrite bool_decide_false by done. intros Hl Hr.
      destruct (Hx k m Hl) as [Hd Hf]; [case_decide; set_solver|]. split; [set_solver|].
      destruct Hf as [?|[?|(n' & ? & ?)]]; [by left|by right; left|]. right; right. exists n'. split; [by right|done].
  - split; simpl; [done..|]. intros k m Hl Hr. destruct (Hx k m Hl Hr) as [Hd Hf]. split; [set_solver|].
    destruct Hf as [?|[(o & ? & ?)|(n' & Hin & Hn)]]; [by left|right; left; exists o; simpl; set_solver|].
    simpl in Hin. rewrite elem_of_app, elem_of_cons in Hin. destruct (decide (n_Name n = k)) as [Hk|Hk].
    + right; left. exists (indexable n). simpl. set_solver.
    + right; right. exists n'. simpl. rewrite elem_of_app. naive_solver.
  - split; simpl; [by apply unstore_inv|by apply unstore_kind_wf|done|].
    intros k m. rewrite load_unstore by done. case_bool_decide as E; [done|]. intros Hl Hr.
    destruct (Hx k m Hl Hr) as [Hd Hf]. split; [set_solver|].
    destruct Hf as [?|[?|(n' & ? & ?)]]; [by left|by right; left|]. right; right. exists n'. split; [by right|done].
  - split; simpl; [done|done|..].
    + unfold DeleteItem. destruct (idxmap (index w) !! "node") eqn:E; [|by destruct Hc]. simpl.
      rewrite lookup_insert_eq. eauto.
    + intros k m Hl Hr. destruct (Hx k m Hl Hr) as [Hd Hf]. split; [set_solver|].
      apply node_found_unindex; [set_solver|done].
  - assert (sto w' = sto w) as Hsto by (by destruct Hs). split; simpl; [by rewrite Hsto..| |].
    + destruct Hs as [w l1 o l2 i Hp Hs]. destruct (SaveItem_docs _ _ _ Hs) as [H1 _].
      destruct Hc as [ic Hc]. destruct (H1 _ _ Hc) as (ic' & ? & _). simpl. eauto.
    + rewrite Hsto. intros k m Hl Hr. destruct (Hx k m Hl Hr) as [Hd Hf]. split; [done|]. by eapply node_found_index.
Qed.

Lemma node_steps_inv x y : node_inv x → rtc node_step x y → node_inv y.
Proof. intros Hi Hr. induction Hr; [done|]. eauto using node_step_inv. Qed.
End nodes.

(** * Properties *)

Section properties.
  Context (conf : Conf) {S T : Type} {O : StoreOps S object} {L : StoreLaws S object} {TO : TrieOps T}.
  Implicit Types (w : world S T) (n : Node).

(** An upload that is accepted has only known keys, keeps the node's name,
    and leaves a run list of distinct valid items, an environment that is valid
    or the one the node had, and the class and type of a node. *)
Theorem node_update_valid n (jsonNode : jmap) n' :
  n_JSONClass n = "Chef::Node" → n_ChefType n = "node" →
  UpdateFromJSON n jsonNode = Ok n' →
  (∀ k, k ∈ mkeys jsonNode → k ∈ validElements) ∧
  mget "name" jsonNode = IStr (n_Name n) ∧ n_Name n' = n_Name n ∧
  NoDup (n_RunList n') ∧ Forall run_list_item (n_RunList n') ∧
  (ValidateEnvName (n_ChefEnvironment n') = true ∨ n_ChefEnvironment n' = n_ChefEnvironment n) ∧
  n_JSONClass n' = "Chef::Node" ∧ n_ChefType n' = "node".
Proof.
  intros Hc Ht Hu. unfold UpdateFromJSON in Hu. apply bind_Ok in Hu as (name & Hname & Hu).
  case_bool_decide as En; [done|].
  apply bind_Ok in Hu as ([] & Hk & Hu). apply bind_Ok in Hu as (rl & Hrl & Hu).
  do 4 (apply bind_Ok in Hu as (? & _ & Hu)). apply bind_Ok in Hu as (env & Henv & Hu).
  apply bind_Ok in Hu as (jc & Hjc & Hu). apply bind_Ok in Hu as (ct & Hct & [= <-]). simpl.
  apply ValidateRunList_items in Hrl as [? ?]. apply class_field_Ok in Hjc, Hct.
  split_and!; try done.
  - by apply check_elements_Ok.
  - unfold ValidateAsString in Hname. by destruct (mget "name" jsonNode); simplify_eq.
  - unfold env_field in Henv. destruct (ValidateAsFieldString (mget "chef_environment" jsonNode)); [| |done].
    + destruct (ValidateEnvName a) eqn:E; simplify_eq. by left.
    + case_bool_decide; simplify_eq. by right.
  - destruct Hjc; congruence.
  - destruct Hct; congruence.
Qed.

(** A saved node is read back as it was saved, without the memory of
    whether it is down, and no other node changes; a deleted node is not found
    and no other node changes; a new node is refused exactly when one of that
    name exists. *)
Theorem node_store_roundtrip w n k :
  st_inv (sto w) → kind_wf (A := Node) (sto w) →
  Get (Save conf w n) k = (if bool_decide (k = n_Name n) then Ok (gob_node n) else Get w k) ∧
  Get (Delete w n) k = (if bool_decide (k = n_Name n) then Err (not_found k) else Get w k) ∧
  (ValidateDBagName k = true → (∃ n', New_ w k = Ok n') ↔ Get w k = Err (not_found k)).
Proof.
  intros Hi Hw. unfold Get, Save, Delete. simpl. rewrite load_store, load_unstore by done.
  change (s_name n) with (n_Name n). split_and!.
  - by case_bool_decide.
  - by case_bool_decide; simplify_eq.
  - intros Hk. unfold New_. rewrite Hk. simpl. destruct (load_ok (A := Node) (sto w) k Hi Hw) as (o & Ho & Hn).
    rewrite Ho. simpl in *. destruct o as [n0|].
    + pose proof (proj1 (load_get (sto w) k n0 Hi Hw) Ho) as Hg. simpl in Hg. rewrite Hg. simpl.
      split; [by intros [? ?]|done].
    + rewrite (proj1 Hn eq_refl). simpl. split; [done|]. by eexists.
Qed.

(** C29: however the halves of concurrent calls of [Save] and [Delete], first in
    the store and then in the index, interleave with each other and with the
    goroutines of the indexer, once no call and no goroutine is left every
    stored node is in the index, but for a node whose last save was made while
    a deletion of the same name was between its two halves. *)
Theorem nodes_stay_indexed w x k n :
  st_inv (sto w) → (∀ k, st_get (sto w) "node" k = Ok None) → index w = Initialize →
  rtc (node_step conf) {| r_world := w; r_calls := []; r_raced := ∅ |} x →
  r_calls x = [] → pending (r_world x) = [] → Get (r_world x) k = Ok n → k ∉ r_raced x →
  ∃ ic, idxmap (index (r_world x)) !! "node" = Some ic ∧ is_Some (ic !! k).
Proof.
  intros Hi Hempty Hix Hr Hcl Hp Hg Hk.
  assert (node_inv {| r_world := w; r_calls := []; r_raced := ∅ |}) as H0.
  { split; simpl; [done| | |].
    - intros j o Hj. simpl in Hj. rewrite Hempty in Hj. done.
    - rewrite Hix. by eexists.
    - intros j m Hj. unfold load in Hj. simpl in Hj. by rewrite Hempty in Hj. }
  destruct (node_steps_inv conf _ x H0 Hr) as [_ _ _ Hx].
  unfold Get in Hg. apply bind_Ok in Hg as ([m|] & Hl & Hg); [|done].
  destruct (Hx k m Hl Hk) as [_ [?|[(o & Hin & _)|(m' & Hin & _)]]]; [done| |].
  - rewrite Hp in Hin. by apply not_elem_of_nil in Hin.
  - rewrite Hcl in Hin. by apply not_elem_of_nil in Hin.
Qed.
End properties.

(** * Concrete nodes *)

Definition demo_world : world (absStore object) (list string) :=
  {| sto := ∅; index := Initialize; pending := []; tasks := [] |}.

Definition demo_node_json : jmap :=
  [("name", IStr "web1"); ("run_list", IStrs ["recipe[apt]"; "recipe[apt]"; "nginx"]);
   ("normal", IMap [("tier", IStr "front")])].

Lemma demo_world_inv : st_inv (sto demo_world) ∧ kind_wf (A := Node) (sto demo_world).
Proof.
  split; [intros t k v; simpl; by rewrite lookup_empty|]. intros k o. simpl. by rewrite lookup_empty.
Qed.

#[local] Existing Instances words_trie words_trie_laws no_regexp.

Definition demo_node : outcome Node := NewFromJSON demo_world demo_node_json.

Lemma node_update_valid_witness :
  ∃ n n', New_ demo_world "web1" = Ok n ∧ UpdateFromJSON n demo_node_json = Ok n' ∧
    n_RunList n' = ["recipe[apt]"; "recipe[nginx]"] ∧ NoDup (n_RunList n').
Proof.
  eexists _, _. split; [vm_compute; reflexivity|]. split; [vm_compute; reflexivity|]. split; [done|].
  match goal with |- NoDup (n_RunList ?n') =>
    apply (node_update_valid {| n_Name := "web1"; n_ChefEnvironment := "_default"; n_RunList := [];
      n_JSONClass := "Chef::Node"; n_ChefType := "node"; n_Automatic := []; n_Normal := []; n_Default := [];
      n_Override := []; n_isDown := false |} demo_node_json n') end; [done|done|vm_compute; reflexivity].
Defined.

Definition demo_web1 : Node :=
  {| n_Name := "web1"; n_ChefEnvironment := "_default"; n_RunList := ["recipe[apt]"];
     n_JSONClass := "Chef::Node"; n_ChefType := "node"; n_Automatic := []; n_Normal := []; n_Default := [];
     n_Override := []; n_isDown := true |}.

Lemma node_store_roundtrip_witness :
  Get (Save default_conf demo_world demo_web1) "web1" = Ok (gob_node demo_web1) ∧
  n_isDown (gob_node demo_web1) = false.
Proof.
  split; [|done]. destruct demo_world_inv as [Hi Hw].
  by destruct (node_store_roundtrip default_conf demo_world demo_web1 "web1" Hi Hw) as [-> _].
Defined.

Definition saved_world : world (absStore object) (list string) := Save default_conf demo_world demo_web1.

(** The goroutine of the first pending object, run. *)
Definition index_first (w : world (absStore object) (list string)) : world (absStore object) (list string) :=
  match pending w with
  | [] => w
  | o :: l =>
      match SaveItem default_conf (index w) o with
      | Ok i => {| sto := sto w; index := i; pending := l; tasks := tasks w |}
      | _ => w
      end
  end.

Lemma index_first_step w o l i :
  pending w = o :: l → SaveItem default_conf (index w) o = Ok i →
  index_step default_conf w (index_first w).
Proof.
  intros Hp Hs. unfold index_first. rewrite Hp, Hs. by apply (index_one default_conf w [] o l i).
Qed.

(** The server at rest. *)
Definition resting (w : world (absStore object) (list string)) : running := {| r_world := w; r_calls := []; r_raced := ∅ |}.

Lemma index_first_runs w fl rc o l i :
  pending w = o :: l → SaveItem default_conf (index w) o = Ok i →
  node_step default_conf {| r_world := w; r_calls := fl; r_raced := rc |}
    {| r_world := index_first w; r_calls := fl; r_raced := rc |}.
Proof. intros Hp Hs. apply step_index. by eapply index_first_step. Qed.

Ltac run_index :=
  match goal with
  | |- node_step _ {| r_world := ?w; r_calls := _; r_raced := _ |} _ =>
      destruct (SaveItem default_conf (index w) (indexable default_conf demo_web1)) as [i| |] eqn:E;
      [|vm_compute in E; discriminate..]; by apply (index_first_runs w _ _ (indexable default_conf demo_web1) [] i)
  end.

Lemma nodes_stay_indexed_witness :
  ∃ ic, idxmap (index (index_first saved_world)) !! "node" = Some ic ∧ is_Some (ic !! "web1").
Proof.
  apply (nodes_stay_indexed default_conf demo_world
    {| r_world := index_first saved_world; r_calls := []; r_raced := ∅ ∖ {["web1"]} |} "web1" (gob_node demo_web1)).
  - by apply demo_world_inv.
  - intros k. simpl. by rewrite lookup_empty.
  - reflexivity.
  - eapply rtc_l; [apply (step_set default_conf demo_world [] ∅ demo_web1)|].
    rewrite decide_False by (apply not_elem_of_nil).
    eapply rtc_l; [apply (step_go default_conf (set_sto demo_world (store (sto demo_world) demo_web1)) [] demo_web1 [])|].
    eapply rtc_l; [|apply rtc_refl]. run_index.
  - reflexivity.
  - vm_compute. reflexivity.
  - vm_compute. reflexivity.
  - set_solver.
Defined.

(** A node deleted before the goroutine of its last save has run stays in the
    index for good. *)
Example deleted_node_stays_indexed :
  let w := index_first (Delete saved_world demo_web1) in
  (∃ rc, rtc (node_step default_conf) (resting demo_world) {| r_world := w; r_calls := []; r_raced := rc |}) ∧
  pending w = [] ∧ Get w "web1" = Err (not_found "web1") ∧
  match Search (index w) "node" "name:web1" false with Ok r => bool_decide (is_Some (r !! "web1")) | _ => false end = true.
Proof.
  intros w. split_and!; [|vm_compute; reflexivity..].
  destruct (save_steps default_conf demo_world [] ∅ demo_web1) as [rc Hs]. exists rc.
  etrans; [exact Hs|]. etrans; [apply (delete_steps default_conf _ _ _ demo_web1)|].
  eapply rtc_l; [|apply rtc_refl]. run_index.
Qed.

(** A node that is saved, and whose goroutine runs, between the two halves of a
    deletion of the same name is stored and not in the index, for good. *)
Definition removed_world : world (absStore object) (list string) :=
  let w := index_first saved_world in set_sto w (unstore (A := Node) (sto w) "web1").

Definition raced_world : world (absStore object) (list string) :=
  DeleteItemFromCollection (index_first (Save default_conf removed_world demo_web1)) "node" "web1".

Example save_during_delete_unindexed :
  (∃ rc, rtc (node_step default_conf) (resting demo_world) {| r_world := raced_world; r_calls := []; r_raced := rc |}) ∧
  pending raced_world = [] ∧ Get raced_world "web1" = Ok (gob_node demo_web1) ∧
  match idxmap (index raced_world) !! "node" with Some ic => bool_decide (is_Some (ic !! "web1")) | None => true end = false.
Proof.
  split_and!; [|vm_compute; reflexivity..].
  destruct (save_steps default_conf demo_world [] ∅ demo_web1) as [rc Hs].
  destruct (save_steps default_conf removed_world [CDeleting "web1"] rc demo_web1) as [rc' Hs']. exists rc'.
  etrans; [exact Hs|]. eapply rtc_l; [run_index|].
  eapply rtc_l; [apply (step_remove _ _ _ _ demo_web1)|]. etrans; [exact Hs'|].
  eapply rtc_l; [run_index|]. eapply rtc_l; [|apply rtc_refl].
  apply (step_unindex default_conf (index_first (Save default_conf removed_world demo_web1)) [] "web1" []).
Qed.
