(* ===== verification/Roles.v ===== *)
(** Roles (src/role/role.go): creating, validating, storing and indexing
    them. *)
From S2P Require Import Prelude Gerror Iface Config Store Objects UtilStrings Validations Flatten FileIndex World.

#[export] Instance role_stored : Stored Role := {|
  s_type := "role"; s_name := r_Name; s_inj := ORole;
  s_proj o := match o with ORole r => Some r | _ => None end; s_gob := id |}.

#[export] Instance role_stored_laws : StoredLaws Role.
Proof. split; try done. by intros [] a [= ->]. Qed.

Section roles.
  Context (conf : Conf) {S T : Type} {O : StoreOps S object} {TO : TrieOps T}.
  Implicit Types (w : world S T) (r : Role).

(** * Definitions *)

Definition New_ w (name : string) : outcome Role :=
  found ← st_get (sto w) "role" name;
  match found with
  | Some _ => Err (SetStatus (Errorf ("Role " +:+ name +:+ " already exists")) StatusConflict)
  | None =>
      if negb (ValidateDBagName name) then Err (SetStatus (Errorf "Field 'name' invalid") StatusBadRequest)
      else Ok {| r_Name := name; r_ChefType := "role"; r_JSONClass := "Chef::Role"; r_RunList := [];
                 r_EnvRunLists := []; r_Description := EmptyString; r_Default := []; r_Override := [] |}
  end.

Definition validElements : list string :=
  ["name"; "json_class"; "chef_type"; "run_list"; "env_run_lists"; "default_attributes";
   "override_attributes"; "description"].

(** The run lists per environment are validated in place. *)
Fixpoint validate_env_lists (m : list (string * list string)) : outcome (list (string * list string)) :=
  match m with
  | [] => Ok []
  | (k, v) :: m => v ← ValidateRunList (IStrs v); m ← validate_env_lists m; Ok ((k, v) :: m)
  end.

Definition env_run_lists (jsonRole : jmap) : outcome (list (string * list string)) :=
  match mlookup "env_run_lists" jsonRole with
  | None => Ok []
  | Some (IMapStrs m) => validate_env_lists m
  | Some _ => Panic TypeAssertion
  end.

Definition UpdateFromJSON r (jsonRole : jmap) : outcome Role :=
  let name := mget "name" jsonRole in
  if match name with IStr n => bool_decide (r_Name r ≠ n) | _ => true end then
    Err (Errorf ("Role name " +:+ r_Name r +:+ " and " +:+ fmt_s name +:+ " from JSON do not match."))
  else
    check_elements validElements jsonRole ≫= λ _,
    run_list ← ValidateRunList (mget "run_list" jsonRole);
    erl ← env_run_lists jsonRole;
    dflt ← ValidateAttributes "default_attributes" (mget "default_attributes" jsonRole);
    override ← ValidateAttributes "override_attributes" (mget "override_attributes" jsonRole);
    json_class ← class_field jsonRole "json_class" "Chef::Role" (r_JSONClass r);
    let description := match mget "description" jsonRole with IStr s => s | _ => EmptyString end in
    chef_type ← class_field jsonRole "chef_type" "role" (r_ChefType r);
    Ok {| r_Name := r_Name r; r_ChefType := chef_type; r_JSONClass := json_class; r_RunList := run_list;
          r_EnvRunLists := erl; r_Description := description; r_Default := dflt; r_Override := override |}.

Definition NewFromJSON w (jsonRole : jmap) : outcome Role :=
  match mget "name" jsonRole with
  | IStr name => role ← New_ w name; UpdateFromJSON role jsonRole
  | _ => Panic TypeAssertion
  end.

Definition not_found (name : string) : gerror := New ("Cannot load role " +:+ name).

Definition Get w (roleName : string) : outcome Role :=
  o ← load (sto w) roleName;
  match o with Some r => Ok r | None => Err (not_found roleName) end.

Definition DoesExist w (roleName : string) : outcome bool :=
  o ← st_get (sto w) "role" roleName; Ok (bool_decide (is_Some o)).

Definition GetMulti w (roleNames : list string) : outcome (list Role) := load_all (sto w) roleNames.

Definition fields r : jmap :=
  [("name", IStr (r_Name r)); ("chef_type", IStr (r_ChefType r)); ("json_class", IStr (r_JSONClass r));
   ("run_list", IStrs (r_RunList r)); ("env_run_lists", IMapStrs (r_EnvRunLists r));
   ("description", IStr (r_Description r)); ("default_attributes", IMap (r_Default r));
   ("override_attributes", IMap (r_Override r))].

Definition indexable r : Indexable :=
  {| DocID := r_Name r; Index := "role"; Flatten := FlattenObj conf (fields r) |}.

Definition Save w r : world S T := IndexObj (set_sto w (store (sto w) r)) (indexable r).

Definition Delete w r : world S T :=
  DeleteItemFromCollection (set_sto w (unstore (A := Role) (sto w) (r_Name r))) "role" (r_Name r).

Definition GetList w : outcome (list string) := st_list (sto w) "role".

Definition AllRoles w : outcome (list Role) := names ← GetList w; load_all (sto w) names.

(** * Lemmas *)

Lemma validate_env_lists_ok m m' :
  validate_env_lists m = Ok m' →
  m'.*1 = m.*1 ∧ Forall (λ kv, NoDup kv.2 ∧ Forall run_list_item kv.2) m'.
Proof.
  revert m'. induction m as [|[k v] m IH]; intros m' Hm; simpl in Hm; [simplify_eq; by repeat constructor|].
  apply bind_Ok in Hm as (l & Hl & Hm). apply bind_Ok in Hm as (m1 & Hm1 & [= <-]).
  destruct (IH m1 Hm1) as [H1 H2]. split; [by rewrite !fmap_cons, H1|]. constructor; [|done].
  exact (ValidateRunList_items (IStrs v) l Hl).
Qed.
End roles.

(** * Properties *)

Section properties.
  Context (conf : Conf) {S T : Type} {O : StoreOps S object} {L : StoreLaws S object} {TO : TrieOps T}.
  Implicit Types (w : world S T) (r : Role).

(** An uploaded role that is accepted has only known keys, the role's own
    name, a run list and run lists per environment of distinct valid items, and
    the class and type of a role; a name that is not a string is answered with
    an error, never with a panic. *)
Theorem role_update_valid r (jsonRole : jmap) :
  r_JSONClass r = "Chef::Role" → r_ChefType r = "role" →
  match UpdateFromJSON r jsonRole with
  | Ok r' =>
      (∀ k, k ∈ mkeys jsonRole → k ∈ validElements) ∧
      mget "name" jsonRole = IStr (r_Name r) ∧ r_Name r' = r_Name r ∧
      NoDup (r_RunList r') ∧ Forall run_list_item (r_RunList r') ∧
      Forall (λ kv, NoDup kv.2 ∧ Forall run_list_item kv.2) (r_EnvRunLists r') ∧
      r_JSONClass r' = "Chef::Role" ∧ r_ChefType r' = "role"
  | Err _ => True
  | Panic _ => ∃ v, mlookup "env_run_lists" jsonRole = Some v ∧ ∀ m, v ≠ IMapStrs m
  end.
Proof.
  intros Hc Ht. unfold UpdateFromJSON. set (bad := match mget "name" jsonRole with IStr _ => _ | _ => true end).
  destruct bad eqn:Eb; [done|]. unfold bad in Eb.
  assert (mget "name" jsonRole = IStr (r_Name r)) as Hname.
  { destruct (mget "name" jsonRole); try done. apply bool_decide_eq_false, dec_stable in Eb. by rewrite Eb. }
  destruct (check_elements validElements jsonRole) as [[]| |] eqn:Ek; simpl; [|done|].
  2:{ unfold check_elements in Ek. by case_match. }
  destruct (ValidateRunList (mget "run_list" jsonRole)) as [rl| |p] eqn:Erl; simpl; [|done|].
  2:{ exfalso. by eapply ValidateRunList_no_panic. }
  destruct (env_run_lists jsonRole) as [erl| |p] eqn:Ee; simpl; [|done|].
  2:{ unfold env_run_lists in Ee. destruct (mlookup "env_run_lists" jsonRole) as [v|]; [|done]. exists v.
      split; [done|]. intros m ->. exfalso. revert p Ee. induction m as [|[k v] m IH]; intros p; simpl; [done|].
      destruct (ValidateRunList (IStrs v)) as [l| |q] eqn:El; simpl in El |- *; rewrite El; simpl; [|done|].
      - destruct (validate_env_lists m); simpl; naive_solver.
      - intros _. by eapply (ValidateRunList_no_panic (IStrs v)). }
  destruct (ValidateAttributes "default_attributes" (mget "default_attributes" jsonRole)) as [da| |] eqn:Ed;
    simpl; [|done|by unfold ValidateAttributes in Ed; case_match].
  destruct (ValidateAttributes "override_attributes" (mget "override_attributes" jsonRole)) as [oa| |] eqn:Eo;
    simpl; [|done|by unfold ValidateAttributes in Eo; case_match].
  destruct (class_field jsonRole "json_class" "Chef::Role" (r_JSONClass r)) as [jc| |] eqn:Ejc; simpl;
    [|done|by apply class_field_no_panic in Ejc].
  destruct (class_field jsonRole "chef_type" "role" (r_ChefType r)) as [ct| |] eqn:Ect; simpl;
    [|done|by apply class_field_no_panic in Ect].
  apply class_field_Ok in Ejc, Ect. apply ValidateRunList_items in Erl as [? ?].
  split_and!; try done; [by apply check_elements_Ok| |destruct Ejc; congruence|destruct Ect; congruence].
  unfold env_run_lists in Ee. destruct (mlookup "env_run_lists" jsonRole) as [v|]; [|simplify_eq; constructor].
  destruct v; try done. by apply validate_env_lists_ok in Ee as [_ ?].
Qed.
End properties.

Definition demo_role : Role :=
  {| r_Name := "web"; r_ChefType := "role"; r_JSONClass := "Chef::Role"; r_RunList := [];
     r_EnvRunLists := []; r_Description := EmptyString; r_Default := []; r_Override := [] |}.

Lemma role_update_valid_witness :
  match UpdateFromJSON demo_role [("name", IStr "web"); ("run_list", IStrs ["role[base]"; "nginx"]);
    ("env_run_lists", IMapStrs [("prod", ["nginx"; "recipe[nginx]"])])] with
  | Ok r' => NoDup (r_RunList r') ∧ r_EnvRunLists r' = [("prod", ["recipe[nginx]"])]
  | _ => False
  end.
Proof.
  pose proof (role_update_valid demo_role [("name", IStr "web"); ("run_list", IStrs ["role[base]"; "nginx"]);
    ("env_run_lists", IMapStrs [("prod", ["nginx"; "recipe[nginx]"])])] eq_refl eq_refl) as H.
  destruct (UpdateFromJSON demo_role _) as [r'| |] eqn:E; [|vm_compute in E; discriminate..].
  destruct H as (_ & _ & _ & H & _). split; [done|]. vm_compute in E. by injection E as <-.
Defined.
