(* ===== verification/Environments.v ===== *)
(** Environments (src/environment/environment.go): shared attributes and
    cookbook constraints, and the protected environment "_default". *)
From S2P Require Import Prelude Gerror Iface Config Store Objects UtilStrings Validations Flatten FileIndex World.
From S2P Require Import Versioning Cookbooks CookbookFacts CookbookSafety.

#[export] Instance env_stored : Stored ChefEnvironment := {|
  s_type := "env"; s_name := e_Name; s_inj := OEnv;
  s_proj o := match o with OEnv e => Some e | _ => None end; s_gob := id |}.

#[export] Instance env_stored_laws : StoredLaws ChefEnvironment.
Proof. split; try done. by intros [] a [= ->]. Qed.

Section environments.
  Context (conf : Conf) {S T : Type} {O : StoreOps S object} {TO : TrieOps T}.
  Implicit Types (w : world S T) (e : ChefEnvironment).

(** * Definitions *)

Definition new_env (name description : string) : ChefEnvironment :=
  {| e_Name := name; e_ChefType := "environment"; e_JSONClass := "Chef::Environment";
     e_Description := description; e_Default := []; e_Override := []; e_CookbookVersions := [] |}.

Definition defaultEnvironment : ChefEnvironment := new_env "_default" "The default Chef environment".

Definition New_ w (name : string) : outcome ChefEnvironment :=
  if negb (ValidateEnvName name) then Err (SetStatus (Errorf "Field 'name' invalid") StatusBadRequest)
  else
    found ← st_get (sto w) "env" name;
    if bool_decide (is_Some found) || bool_decide (name = "_default")
    then Err (Errorf "Environment already exists")
    else Ok (new_env name EmptyString).

Definition validElements : list string :=
  ["name"; "chef_type"; "json_class"; "description"; "default_attributes"; "override_attributes";
   "cookbook_versions"].

(** One entry of the cookbook constraints: a constraint, or a bare version. *)
Definition check_constraint (k : string) (v : iface) : outcome () :=
  if negb (ValidateEnvName k) || bool_decide (k = EmptyString)
  then Err (SetStatus (Errorf ("Cookbook name " +:+ k +:+ " invalid")) StatusBadRequest)
  else match v with
       | INil => Err (Errorf "Invalid version number")
       | _ => match ValidateAsConstraint v with
              | Ok _ => Ok ()
              | Err _ => ValidateAsVersion v ≫= λ _, Ok ()
              | Panic p => Panic p
              end
       end.

Fixpoint check_constraints (m : jmap) : outcome () :=
  match m with
  | [] => Ok ()
  | (k, v) :: m => check_constraint k v ≫= λ _, check_constraints m
  end.

(** [e.CookbookVersions[c] = v.(string)] for every entry. *)
Fixpoint copy_versions (m : jmap) (acc : list (string * string)) : outcome (list (string * string)) :=
  match m with
  | [] => Ok acc
  | (c, IStr v) :: m => copy_versions m (mset c v acc)
  | _ => Panic TypeAssertion
  end.

Definition description_field (jsonEnv : jmap) : outcome string :=
  match ValidateAsString (mget "description" jsonEnv) with
  | Err err => if bool_decide (Error err = "Field 'name' missing") then Ok EmptyString else Err err
  | o => o
  end.

Definition UpdateFromJSON e (jsonEnv : jmap) : outcome ChefEnvironment :=
  match mget "name" jsonEnv with
  | IStr name =>
      if bool_decide (e_Name e ≠ name) then
        Err (Errorf ("Environment name " +:+ e_Name e +:+ " and " +:+ name +:+ " from JSON do not match"))
      else if bool_decide (e_Name e = "_default") then
        Err (SetStatus (Errorf "The '_default' environment cannot be modified.") StatusMethodNotAllowed)
      else
        check_elements validElements jsonEnv ≫= λ _,
        dflt ← ValidateAttributes "default_attributes" (mget "default_attributes" jsonEnv);
        override ← ValidateAttributes "override_attributes" (mget "override_attributes" jsonEnv);
        json_class ← class_field jsonEnv "json_class" "Chef::Environment" (e_JSONClass e);
        chef_type ← class_field jsonEnv "chef_type" "environment" (e_ChefType e);
        versions ← ValidateAttributes "cookbook_versions" (mget "cookbook_versions" jsonEnv);
        check_constraints versions ≫= λ _,
        description ← description_field jsonEnv;
        cv ← copy_versions versions [];
        Ok {| e_Name := e_Name e; e_ChefType := chef_type; e_JSONClass := json_class;
              e_Description := description; e_Default := dflt; e_Override := override;
              e_CookbookVersions := cv |}
  | _ => Panic TypeAssertion
  end.

Definition NewFromJSON w (jsonEnv : jmap) : outcome ChefEnvironment :=
  match mget "name" jsonEnv with
  | IStr name => env ← New_ w name; UpdateFromJSON env jsonEnv
  | _ => Panic TypeAssertion
  end.

Definition not_found (name : string) : gerror :=
  SetStatus (Errorf ("Cannot load environment " +:+ name)) StatusNotFound.

Definition Get w (envName : string) : outcome ChefEnvironment :=
  if bool_decide (envName = "_default") then Ok defaultEnvironment
  else
    o ← load (sto w) envName;
    match o with Some e => Ok e | None => Err (not_found envName) end.

Definition DoesExist w (name : string) : outcome bool :=
  o ← st_get (sto w) "env" name; Ok (bool_decide (is_Some o)).

(** [GetMulti] and [AllEnvironments] skip what [Get] does not find. *)
Fixpoint get_all w (names : list string) : outcome (list ChefEnvironment) :=
  match names with
  | [] => Ok []
  | k :: r =>
      match Get w k with
      | Ok e => l ← get_all w r; Ok (e :: l)
      | Err _ => get_all w r
      | Panic p => Panic p
      end
  end.

Definition GetMulti w (envNames : list string) : outcome (list ChefEnvironment) := get_all w envNames.

Definition fields e : jmap :=
  [("name", IStr (e_Name e)); ("chef_type", IStr (e_ChefType e)); ("json_class", IStr (e_JSONClass e));
   ("description", IStr (e_Description e)); ("default_attributes", IMap (e_Default e));
   ("override_attributes", IMap (e_Override e)); ("cookbook_versions", IMapStr (e_CookbookVersions e))].

Definition indexable e : Indexable :=
  {| DocID := e_Name e; Index := "environment"; Flatten := FlattenObj conf (fields e) |}.

Definition MakeDefaultEnvironment w : outcome (world S T) :=
  found ← st_get (sto w) "env" "_default";
  Ok (match found with
      | Some _ => w
      | None => IndexObj (set_sto w (store (sto w) defaultEnvironment)) (indexable defaultEnvironment)
      end).

Definition protected : gerror := Errorf "The '_default' environment cannot be modified.".

Definition Save w e : outcome (world S T) :=
  if bool_decide (e_Name e = "_default") then Err (SetStatus protected StatusMethodNotAllowed)
  else Ok (IndexObj (set_sto w (store (sto w) e)) (indexable e)).

Definition Delete w e : outcome (world S T) :=
  if bool_decide (e_Name e = "_default") then Err protected
  else Ok (DeleteItemFromCollection (set_sto w (unstore (A := ChefEnvironment) (sto w) (e_Name e)))
             "environment" (e_Name e)).

(** The default environment is added to what the store lists. *)
Definition GetList w : outcome (list string) := l ← st_list (sto w) "env"; Ok (l ++ ["_default"]).

Definition AllEnvironments w : outcome (list ChefEnvironment) := names ← GetList w; get_all w names.

Definition cookbookList w : outcome (list Cookbook) := AllCookbooks (sto w).

(** The constraint an environment has for a cookbook; none is the empty one. *)
Definition constraint_for e (name : string) : string :=
  default EmptyString (mlookup name (e_CookbookVersions e)).

Definition AllCookbookHash w e (numVersions : string) : outcome (list (string * option jmap)) :=
  cbs ← cookbookList w;
  hs ← traverse (λ cb, h ← ConstrainedInfoHash conf cb numVersions (constraint_for e (cb_Name cb));
                        Ok (cb_Name cb, h)) cbs;
  Ok (foldl (λ m kv, mset kv.1 kv.2 m) [] hs).

(** The recipes of one cookbook as the environment sees it; the error of a
    nameless recipe is dropped. *)
Definition visible_recipes e (cb : Cookbook) : outcome (list string) :=
  cbv ← LatestConstrained cb (constraint_for e (cb_Name cb));
  match cbv with
  | None => Ok []
  | Some cbv => match Cookbooks.RecipeList cbv with Err _ => Ok [] | o => o end
  end.

Definition RecipeList w e : outcome (list string) :=
  cbs ← cookbookList w;
  ls ← traverse (visible_recipes e) cbs;
  Ok (sort_strings (remove_dups (concat ls))).
End environments.

(** * Lemmas *)

Lemma ValidateAsVersionString_no_panic v p : ValidateAsVersionString v ≠ Panic p.
Proof.
  unfold ValidateAsVersionString. destruct (version_submatch v) as [[[a b] c]|]; [|done].
  assert (∀ n q, check_number n ≠ Panic q) as Hn.
  { intros n q. unfold check_number. repeat case_match; naive_solver. }
  case_bool_decide; [done|].
  destruct (check_number a) as [[]| |] eqn:Ea; simpl; [|done|by apply Hn in Ea].
  destruct (check_number b) as [[]| |] eqn:Eb; simpl; [|done|by apply Hn in Eb].
  destruct c as [|ch c]; simpl; [done|].
  destruct (check_number (String ch c)) as [[]| |] eqn:Ec; simpl; [done..|by apply Hn in Ec].
Qed.

Lemma ValidateAsVersion_no_panic v p : ValidateAsVersion v ≠ Panic p.
Proof. destruct v; try done. apply ValidateAsVersionString_no_panic. Qed.

Lemma ValidateAsConstraint_no_panic v p : ValidateAsConstraint v ≠ Panic p.
Proof.
  destruct v; try done. simpl. destruct (constraint_submatch s) as [[? ver]|]; [|done].
  destruct (ValidateAsVersionString ver) eqn:E; simpl; [done..|]. by apply ValidateAsVersionString_no_panic in E.
Qed.

(** A cookbook constraint of an environment. *)
Definition legal_constraint (v : string) : Prop :=
  ValidateAsConstraint (IStr v) = Ok true ∨ ∃ ver, ValidateAsVersion (IStr v) = Ok ver.

Lemma check_constraint_no_panic k v p : check_constraint k v ≠ Panic p.
Proof.
  unfold check_constraint. case_match; [done|]. destruct v; try done.
  destruct (ValidateAsConstraint (IStr s)) as [| |q] eqn:E; [done| |by apply ValidateAsConstraint_no_panic in E].
  destruct (ValidateAsVersion (IStr s)) as [| |q] eqn:E'; simpl; [done..|].
  by apply ValidateAsVersion_no_panic in E'.
Qed.

Lemma check_constraint_Ok k v :
  check_constraint k v = Ok () → ∃ s, v = IStr s ∧ legal_constraint s ∧ ValidateEnvName k = true ∧ k ≠ EmptyString.
Proof.
  unfold check_constraint. destruct (negb (ValidateEnvName k) || bool_decide (k = EmptyString)) eqn:Ek; [done|].
  apply orb_false_iff in Ek as [Ek1 Ek2]. apply negb_false_iff in Ek1. apply bool_decide_eq_false in Ek2.
  destruct v; try done. intros Hv. exists s. split_and!; [done| |done..]. unfold legal_constraint.
  destruct (ValidateAsConstraint (IStr s)) as [b| |] eqn:E; [|right|done].
  - left. simpl in E. destruct (constraint_submatch s) as [[? ver]|]; [|done].
    apply bind_Ok in E as (? & _ & [= <-]). done.
  - apply bind_Ok in Hv as (ver & ? & _). eauto.
Qed.

Lemma check_constraints_no_panic m p : check_constraints m ≠ Panic p.
Proof.
  induction m as [|[k v] m IH]; simpl; [done|]. destruct (check_constraint k v) eqn:E; simpl; [done..|].
  by apply check_constraint_no_panic in E.
Qed.

Lemma check_constraints_Ok m :
  check_constraints m = Ok () →
  Forall (λ kv, ∃ s, kv.2 = IStr s ∧ legal_constraint s ∧ ValidateEnvName kv.1 = true ∧ kv.1 ≠ EmptyString) m.
Proof.
  induction m as [|[k v] m IH]; simpl; [constructor|]. intros Hm.
  apply bind_Ok in Hm as ([] & Hk & Hm). constructor; [|auto]. by apply check_constraint_Ok.
Qed.

Lemma copy_versions_ok m acc :
  Forall (λ kv, ∃ s, kv.2 = IStr s) m →
  ∃ cv, copy_versions m acc = Ok cv ∧
    (∀ c v, (c, v) ∈ cv → (c, v) ∈ acc ∨ (c, IStr v) ∈ m) ∧
    (∀ c, is_Some (mlookup c cv) ↔ is_Some (mlookup c acc) ∨ c ∈ mkeys m).
Proof.
  intros Hm. revert acc. induction Hm as [|[k v] m [s Hs] Hm IH]; intros acc; simpl in *.
  { exists acc. split_and!; [done|by left|]. intros c. split; [by left|]. intros [?|Hc]; [done|by apply not_elem_of_nil in Hc]. }
  subst v. destruct (IH (mset k s acc)) as (cv & Hcv & H1 & H2). exists cv. split_and!; [done|..].
  - intros c v Hin. destruct (H1 c v Hin) as [Hin'|?]; [|right; set_solver].
    apply mset_elem in Hin' as [[= -> ->]|?]; [right; set_solver|by left].
  - intros c. rewrite H2, mlookup_mset, elem_of_cons. case_bool_decide; naive_solver.
Qed.

Section properties.
  Context (conf : Conf) {S T : Type} {O : StoreOps S object} {L : StoreLaws S object} {TO : TrieOps T}.
  Implicit Types (w : world S T) (e : ChefEnvironment).

(** C38: an accepted environment keeps its name, which is not "_default", has
    only known keys, and has for exactly the uploaded cookbooks, with valid
    names, a constraint or a version that validates; uploads panic only when
    their name is not a string. *)
Theorem environment_update_valid e (jsonEnv : jmap) name :
  mget "name" jsonEnv = IStr name →
  match UpdateFromJSON e jsonEnv with
  | Ok e' =>
      name = e_Name e ∧ e_Name e' = name ∧ name ≠ "_default" ∧
      (∀ k, k ∈ mkeys jsonEnv → k ∈ validElements) ∧
      (∀ c v, (c, v) ∈ e_CookbookVersions e' →
        legal_constraint v ∧ ValidateEnvName c = true ∧ c ≠ EmptyString) ∧
      (∀ c, is_Some (mlookup c (e_CookbookVersions e')) ↔
        ∃ m, mget "cookbook_versions" jsonEnv = IMap m ∧ c ∈ mkeys m)
  | Err _ => True
  | Panic _ => False
  end.
Proof.
  intros Hname. unfold UpdateFromJSON. rewrite Hname. case_bool_decide as E1; [done|].
  case_bool_decide as E2; [done|].
  destruct (check_elements validElements jsonEnv) as [[]| |] eqn:Ek; simpl; [|done|by unfold check_elements in Ek; case_match].
  destruct (ValidateAttributes "default_attributes" (mget "default_attributes" jsonEnv)) as [da| |] eqn:Ed;
    simpl; [|done|by unfold ValidateAttributes in Ed; case_match].
  destruct (ValidateAttributes "override_attributes" (mget "override_attributes" jsonEnv)) as [oa| |] eqn:Eo;
    simpl; [|done|by unfold ValidateAttributes in Eo; case_match].
  destruct (class_field jsonEnv "json_class" "Chef::Environment" (e_JSONClass e)) as [jc| |] eqn:Ejc; simpl;
    [|done|by apply class_field_no_panic in Ejc].
  destruct (class_field jsonEnv "chef_type" "environment" (e_ChefType e)) as [ct| |] eqn:Ect; simpl;
    [|done|by apply class_field_no_panic in Ect].
  destruct (ValidateAttributes "cookbook_versions" (mget "cookbook_versions" jsonEnv)) as [m| |] eqn:Ev;
    simpl; [|done|by unfold ValidateAttributes in Ev; case_match].
  destruct (check_constraints m) as [[]| |] eqn:Ec; simpl; [|done|by apply check_constraints_no_panic in Ec].
  destruct (description_field jsonEnv) as [d| |] eqn:Edesc; simpl; [|done|].
  2:{ unfold description_field, ValidateAsString in Edesc. repeat case_match; naive_solver. }
  apply check_constraints_Ok in Ec.
  destruct (copy_versions_ok m []) as (cv & -> & H1 & H2).
  { eapply Forall_impl; [exact Ec|]. intros kv (s & ? & _). eauto. }
  simpl. split_and!; [done|done|congruence|by apply check_elements_Ok|..].
  - intros c v Hin. destruct (H1 c v Hin) as [Hn|Hm]; [by apply not_elem_of_nil in Hn|].
    rewrite Forall_forall in Ec. destruct (Ec _ Hm) as (s & [= <-] & ? & ? & ?). done.
  - intros c. rewrite H2. unfold ValidateAttributes in Ev. destruct (mget "cookbook_versions" jsonEnv); try done;
      injection Ev as <-; (split; [intros [[? ?]|Hc]|intros (m' & Hm' & Hc)]); try done.
    + by apply not_elem_of_nil in Hc.
    + eauto.
    + injection Hm' as <-. by right.
Qed.

(** The environment "_default" cannot be created, saved, changed or
    deleted, and reading it gives the built-in environment whatever the store
    holds. *)
Theorem default_environment_protected w e (jsonEnv : jmap) :
  e_Name e = "_default" → st_inv (sto w) → kind_wf (A := ChefEnvironment) (sto w) →
  Get w "_default" = Ok defaultEnvironment ∧
  (∃ err, Save conf w e = Err err) ∧ (∃ err, Delete w e = Err err) ∧
  (∃ err, New_ w "_default" = Err err) ∧
  ¬ (∃ e', UpdateFromJSON e jsonEnv = Ok e').
Proof.
  intros He Hi Hw. split_and!.
  - done.
  - unfold Save. rewrite He. by eexists.
  - unfold Delete. rewrite He. by eexists.
  - unfold New_. destruct (st_get_ok (sto w) "env" "_default" Hi) as [o ->]; [done|]. simpl.
    rewrite orb_true_r. by eexists.
  - intros [e' Hu]. unfold UpdateFromJSON in Hu. rewrite He in Hu. destruct (mget "name" jsonEnv); try done.
    by case_bool_decide.
Qed.

Lemma traverse_concat {A B} (f : A → outcome (list B)) l ls x :
  traverse f l = Ok ls → x ∈ concat ls ↔ ∃ a r, a ∈ l ∧ f a = Ok r ∧ x ∈ r.
Proof.
  revert ls. induction l as [|a l IH]; intros ls Hl; simpl in Hl.
  { injection Hl as <-. set_solver. }
  apply bind_Ok in Hl as (r & Hr & Hl). apply bind_Ok in Hl as (rs & Hrs & [= <-]). simpl.
  rewrite elem_of_app, (IH rs Hrs). setoid_rewrite elem_of_cons. split.
  - intros [Hx|(a' & r' & ? & ? & ?)]; [exists a, r; auto|exists a', r'; auto].
  - intros (a' & r' & [->|?] & Hf & Hx); [left; congruence|right; eauto].
Qed.

(** The recipe list of an environment is sorted, has no recipe twice, and
    holds exactly the recipes of the newest allowed version of every stored
    cookbook that has one. *)
Theorem environment_recipes_exact w e l :
  st_inv (sto w) → cookbooks_wf (sto w) → RecipeList w e = Ok l →
  StronglySorted String.le l ∧ NoDup l ∧
  ∀ x, x ∈ l ↔ ∃ name cb cbv rs, Cookbooks.Get (sto w) name = Ok (Some cb) ∧
    LatestConstrained cb (constraint_for e (cb_Name cb)) = Ok (Some cbv) ∧
    Cookbooks.RecipeList cbv = Ok rs ∧ x ∈ rs.
Proof.
  intros Hi Hw Hl. unfold RecipeList, cookbookList in Hl.
  destruct (AllCookbooks_spec (sto w) Hi Hw) as (cbs & Hcbs & Hin). rewrite Hcbs in Hl. simpl in Hl.
  apply bind_Ok in Hl as (ls & Hls & [= <-]). split_and!.
  - apply sort_strings_sorted.
  - rewrite sort_strings_Permutation. apply NoDup_remove_dups.
  - intros x. rewrite elem_of_sort_strings, elem_of_remove_dups, (traverse_concat _ _ _ x Hls). split.
    + intros (cb & r & Hcb & Hr & Hx). apply Hin in Hcb as [name Hname]. unfold visible_recipes in Hr.
      apply bind_Ok in Hr as ([cbv|] & Hc & Hr); [|injection Hr as <-; by apply not_elem_of_nil in Hx].
      exists name, cb, cbv, r. split_and!; [done..| |done].
      destruct (Cookbooks.RecipeList cbv) eqn:Er; [done| |done]. injection Hr as <-. by apply not_elem_of_nil in Hx.
    + intros (name & cb & cbv & rs & Hg & Hc & Hrs & Hx). exists cb, rs. split_and!; [apply Hin; eauto| |done].
      unfold visible_recipes. rewrite Hc. simpl. by rewrite Hrs.
Qed.
End properties.

(** * Concrete environments *)

Definition demo_env_json : jmap :=
  [("name", IStr "prod"); ("cookbook_versions", IMap [("apt", IStr ">= 1.0.0"); ("nginx", IStr "1.2")])].

Lemma environment_update_valid_witness :
  match UpdateFromJSON (new_env "prod" EmptyString) demo_env_json with
  | Ok e' => e_CookbookVersions e' = [("apt", ">= 1.0.0"); ("nginx", "1.2")] ∧ legal_constraint "1.2"
  | _ => False
  end.
Proof.
  pose proof (environment_update_valid (new_env "prod" EmptyString) demo_env_json "prod" eq_refl) as H.
  destruct (UpdateFromJSON (new_env "prod" EmptyString) demo_env_json) as [e'| |] eqn:E;
    [|vm_compute in E; discriminate..].
  destruct H as (_ & _ & _ & _ & Hv & _).
  assert (e_CookbookVersions e' = [("apt", ">= 1.0.0"); ("nginx", "1.2")]) as He
    by (vm_compute in E; by injection E as <-).
  split; [done|]. apply (Hv "nginx" "1.2"). rewrite He. set_solver.
Defined.

Definition env_world : world (absStore object) (list string) :=
  {| sto := demo_store; index := Initialize; pending := []; tasks := [] |}.

#[local] Existing Instances words_trie no_regexp.

Definition empty_world : world (absStore object) (list string) :=
  {| sto := ∅; index := Initialize; pending := []; tasks := [] |}.

Lemma default_environment_protected_witness :
  ∃ err, Save default_conf empty_world defaultEnvironment = Err err.
Proof.
  apply (default_environment_protected default_conf empty_world defaultEnvironment []); [done|..].
  - intros t k v. simpl. by rewrite lookup_empty.
  - intros k o. simpl. by rewrite lookup_empty.
Defined.

Lemma environment_recipes_exact_witness :
  RecipeList env_world (new_env "prod" EmptyString) = Ok ["apt"] ∧ NoDup ["apt"].
Proof.
  assert (RecipeList env_world (new_env "prod" EmptyString) = Ok ["apt"]) as E by (vm_compute; reflexivity).
  split; [done|]. destruct demo_inv as ([Hi _ Hw _] & _).
  by apply (environment_recipes_exact env_world (new_env "prod" EmptyString) ["apt"] Hi Hw E).
Defined.
