(* ===== verification/Sandboxes.v ===== *)
(** Sandboxes (src/sandbox/sandbox.go): the checksums of an upload in
    progress, whether all of them have arrived, and cleaning out old ones. *)
From S2P Require Import Prelude Gerror Iface Config Store Objects UtilStrings SortSearch Validations Flatten FileIndex.
From S2P Require Import Filestore World Expiry.

#[export] Instance sandbox_stored : Stored Sandbox := {|
  s_type := "sandbox"; s_name := sb_ID; s_inj := OSandbox;
  s_proj o := match o with OSandbox s => Some s | _ => None end; s_gob := id |}.

#[export] Instance sandbox_stored_laws : StoredLaws Sandbox.
Proof. split; try done. by intros [] a [= ->]. Qed.

Section sandboxes.
  Context (conf : Conf) {S : Type} {O : StoreOps S object}.
  Implicit Types (s : S) (sb : Sandbox).

(** * Definitions *)

Definition not_found (id : string) : gerror := New ("Sandbox " +:+ id +:+ " not found").

Definition Get s (sandboxID : string) : outcome Sandbox :=
  o ← load s sandboxID;
  match o with Some sb => Ok sb | None => Err (not_found sandboxID) end.

(** The first of the (up to five) ids drawn that no sandbox has. *)
Fixpoint fresh_id s (ids : list string) : outcome (option string) :=
  match ids with
  | [] => Ok None
  | id :: ids => o ← load (A := Sandbox) s id; match o with Some _ => fresh_id s ids | None => Ok (Some id) end
  end.

(** [New], given the random ids and the time. *)
Definition New_ s (ids : list string) (now : Z) (checksumHash : jmap) : outcome Sandbox :=
  o ← fresh_id s (take 5 ids);
  match o with
  | None => Err (New "Somehow every attempt to create a unique sandbox id failed. Bailing.")
  | Some id => Ok {| sb_ID := id; sb_CreationTime := now; sb_Completed := false;
                     sb_Checksums := mkeys checksumHash |}
  end.

Definition Save s sb : S := store s sb.

Definition Delete s sb : S := unstore (A := Sandbox) s (sb_ID sb).

Definition GetList s : outcome (list string) := st_list s "sandbox".

(** Whether a checksum has been uploaded; errors count as no. *)
Definition uploaded s (chk : string) : outcome bool :=
  match Filestore.Get s chk with Ok _ => Ok true | Err _ => Ok false | Panic p => Panic p end.

Definition chk_entry s (chk : string) : outcome (string * jmap) :=
  uploaded s chk ≫= λ n : bool,
  if n then Ok (chk, [("needs_upload", IBool false)])
  else url ← CustomURL conf ("/file_store/" +:+ chk);
       Ok (chk, [("url", IStr url); ("needs_upload", IBool true)]).

Fixpoint chk_loop s (chks : list string) (m : list (string * jmap)) : outcome (list (string * jmap)) :=
  match chks with
  | [] => Ok m
  | chk :: chks => e ← chk_entry s chk; chk_loop s chks (mset e.1 e.2 m)
  end.

Definition UploadChkList s sb : outcome (list (string * jmap)) := chk_loop s (sb_Checksums sb) [].

Definition missing_error sb (chk : string) : gerror :=
  New ("Checksum " +:+ chk +:+ " not uploaded yet, " +:+ sb_ID sb +:+ " not complete, cannot commit yet.").

Fixpoint complete_loop s sb (chks : list string) : outcome () :=
  match chks with
  | [] => Ok ()
  | chk :: chks =>
      uploaded s chk ≫= λ u : bool, if u then complete_loop s sb chks else Err (missing_error sb chk)
  end.

Definition IsComplete s sb : outcome () := complete_loop s sb (sb_Checksums sb).

Definition AllSandboxes s : outcome (list Sandbox) := names ← GetList s; load_all s names.

(** [ByDate], and [sort.Search] for the first sandbox not older than [t]. *)
Definition date_less (a b : Sandbox) : bool := (sb_CreationTime a <? sb_CreationTime b)%Z.

Definition Purge s (now olderThan : Z) : outcome (S * nat) :=
  let t := (now - olderThan)%Z in
  sandboxes ← AllSandboxes s;
  let sorted := go_sort date_less sandboxes in
  match sorted with
  | [] => Ok (s, 0%nat)
  | sb0 :: _ =>
      if (t <? sb_CreationTime sb0)%Z then Ok (s, 0%nat)
      else
        let j := sort_Search (length sorted) (λ i, match sorted !! i with
                                              | Some sb => (t <=? sb_CreationTime sb)%Z
                                              | None => true
                                              end) in
        Ok (foldl (λ s sb, Delete s sb) s (take j sorted), j)
  end.
End sandboxes.

(** * Lemmas *)

Section facts.
  Context (conf : Conf) {S : Type} {O : StoreOps S object} {L : StoreLaws S object}.
  Implicit Types (s : S) (sb : Sandbox).

Lemma uploaded_spec s chk :
  st_inv s → files_wf s →
  (uploaded s chk = Ok true ∧ has_file s chk) ∨ (uploaded s chk = Ok false ∧ ¬ has_file s chk).
Proof.
  intros Hi Hw. unfold uploaded, has_file.
  destruct (Get_cases s chk Hi Hw) as [[f Hf]|[Hf _]]; rewrite Hf; [left; eauto|right]. split; [done|]. by intros [? ?].
Qed.

Lemma complete_loop_spec s sb chks :
  st_inv s → files_wf s →
  (complete_loop s sb chks = Ok () ∧ Forall (has_file s) chks) ∨
  (∃ chk, chk ∈ chks ∧ ¬ has_file s chk ∧ complete_loop s sb chks = Err (missing_error sb chk)).
Proof.
  intros Hi Hw. induction chks as [|chk chks IH]; simpl; [left; by split|].
  destruct (uploaded_spec s chk Hi Hw) as [[-> Hf]|[-> Hf]]; simpl.
  - destruct IH as [[-> Hall]|(c & Hin & Hn & ->)]; [left; by split; [|constructor]|].
    right. exists c. set_solver.
  - right. exists chk. set_solver.
Qed.

Lemma chk_loop_spec s chks m :
  st_inv s → files_wf s →
  ∃ m', chk_loop conf s chks m = Ok m' ∧
    ∀ c, (c ∈ chks → ∃ e, mlookup c m' = Some e ∧
            (mget "needs_upload" e = IBool false ↔ has_file s c) ∧
            (¬ has_file s c → mget "needs_upload" e = IBool true ∧
               mget "url" e = IStr (ServerBaseURL conf +:+ "/file_store/" +:+ c))) ∧
         (c ∉ chks → mlookup c m' = mlookup c m).
Proof.
  intros Hi Hw. revert m. induction chks as [|chk chks IH]; intros m; simpl.
  { exists m. split; [done|]. intros c. split; [|done]. by intros Hc%not_elem_of_nil. }
  unfold chk_entry. destruct (uploaded_spec s chk Hi Hw) as [[-> Hf]|[-> Hf]]; simpl.
  - destruct (IH (mset chk [("needs_upload", IBool false)] m)) as (m' & -> & Hm'). exists m'. split; [done|].
    intros c. destruct (Hm' c) as [H1 H2]. rewrite elem_of_cons. split.
    + intros Hc. destruct (decide (c ∈ chks)) as [?|Hn]; [auto|]. destruct Hc as [->|?]; [|done].
      rewrite H2, mlookup_mset, bool_decide_true by done. eexists. split; [done|]. by split.
    + intros Hc. rewrite H2 by tauto. rewrite mlookup_mset, bool_decide_false by tauto. done.
  - destruct (IH (mset chk [("url", IStr (ServerBaseURL conf +:+ "/file_store/" +:+ chk));
      ("needs_upload", IBool true)] m)) as (m' & Hrun & Hm'). exists m'. split; [exact Hrun|].
    intros c. destruct (Hm' c) as [H1 H2]. rewrite elem_of_cons. split.
    + intros Hc. destruct (decide (c ∈ chks)) as [?|Hn]; [auto|]. destruct Hc as [->|?]; [|done].
      rewrite H2, mlookup_mset, bool_decide_true by done. eexists. split; [done|]. by split; [split|].
    + intros Hc. rewrite H2 by tauto. rewrite mlookup_mset, bool_decide_false by tauto. done.
Qed.

(** * Properties *)

(** A sandbox is complete exactly when every one of its checksums has been
    uploaded; otherwise the error names a missing one. *)
Theorem sandbox_complete_exact s sb :
  st_inv s → files_wf s →
  (IsComplete s sb = Ok () ↔ ∀ chk, chk ∈ sb_Checksums sb → has_file s chk) ∧
  (IsComplete s sb ≠ Ok () → ∃ chk, chk ∈ sb_Checksums sb ∧ ¬ has_file s chk ∧
     IsComplete s sb = Err (missing_error sb chk)).
Proof.
  intros Hi Hw. unfold IsComplete.
  destruct (complete_loop_spec s sb (sb_Checksums sb) Hi Hw) as [[-> Hall]|(c & Hin & Hn & ->)].
  - split; [|done]. split; [|done]. intros _. by apply Forall_forall.
  - split; [|eauto]. split; [done|]. intros Hall. by destruct Hn; apply Hall.
Qed.

(** The upload list has an entry for exactly the sandbox's checksums, asks
    for an upload exactly of those the file store lacks, and gives their
    upload URL. *)
Theorem upload_list_exact s sb :
  st_inv s → files_wf s →
  ∃ m, UploadChkList conf s sb = Ok m ∧
  ∀ chk, (is_Some (mlookup chk m) ↔ chk ∈ sb_Checksums sb) ∧
    ∀ e, mlookup chk m = Some e →
      (mget "needs_upload" e = IBool false ↔ has_file s chk) ∧
      (¬ has_file s chk → mget "needs_upload" e = IBool true ∧
         mget "url" e = IStr (ServerBaseURL conf +:+ "/file_store/" +:+ chk)).
Proof.
  intros Hi Hw. destruct (chk_loop_spec s (sb_Checksums sb) [] Hi Hw) as (m & Hm & Hall).
  exists m. split; [done|]. intros chk. destruct (Hall chk) as [H1 H2].
  destruct (decide (chk ∈ sb_Checksums sb)) as [Hin|Hn].
  - destruct (H1 Hin) as (e & He & Hu & Hn). rewrite He. split; [split; eauto|]. intros e' [= <-]. done.
  - rewrite (H2 Hn). split; [|done]. split; [by intros [? ?]|done].
Qed.

(** Purging removes exactly the sandboxes created before the given age,
    reports how many there were, and keeps every other one. *)
Theorem purge_sandboxes_exact s now olderThan :
  st_inv s → kind_wf (A := Sandbox) s →
  ∃ s' n all, Purge s now olderThan = Ok (s', n) ∧ AllSandboxes s = Ok all ∧
  n = length (filter (λ sb, (sb_CreationTime sb < now - olderThan)%Z) all) ∧
  ∀ k sb, load (A := Sandbox) s' k = Ok (Some sb) ↔
    load s k = Ok (Some sb) ∧ (now - olderThan ≤ sb_CreationTime sb)%Z.
Proof.
  intros Hi Hw. destruct (load_list_spec (A := Sandbox) s Hi Hw) as (all & Hall & _).
  destruct (expire_spec sb_CreationTime s (now - olderThan) all Hi Hw Hall) as [Hcount Hload].
  unfold Purge. assert (AllSandboxes s = Ok all) as -> by exact Hall. simpl.
  pose proof (cut_none sb_CreationTime (now - olderThan) all) as Hnone. cbv zeta in *.
  change (go_sort date_less all) with (go_sort (key_less sb_CreationTime) all).
  unfold expire in Hload. fold (cut sb_CreationTime (now - olderThan) (go_sort (key_less sb_CreationTime) all)).
  set (l := go_sort (key_less sb_CreationTime) all) in *. destruct l as [|sb0 l'] eqn:El.
  { exists s, 0%nat, all. split_and!; [done..|]. intros k sb. by rewrite <-(Hload k sb). }
  destruct (now - olderThan <? sb_CreationTime sb0)%Z eqn:Et.
  - rewrite Hnone in Hcount, Hload by (intros a [= <-]; apply Z.ltb_lt in Et; lia).
    exists s, 0%nat, all. split_and!; [done..|]. intros k sb. by rewrite <-(Hload k sb).
  - eexists _, _, all. split_and!; [done..|exact Hcount|exact Hload].
Qed.
End facts.

(** * Concrete sandboxes *)

Definition demo_sb (id : string) (t : Z) : Sandbox :=
  {| sb_ID := id; sb_CreationTime := t; sb_Completed := false; sb_Checksums := ["aaa"; "bbb"] |}.

(** One of the two files of the sandboxes has arrived. *)
Definition demo_sandboxes : absStore object :=
  Save (Save (Filestore.Save ∅ {| fs_Chksum := "aaa"; fs_Data := "x" |}) (demo_sb "s1" 10)) (demo_sb "s2" 30).

Lemma demo_sandboxes_inv :
  st_inv demo_sandboxes ∧ files_wf demo_sandboxes ∧ kind_wf (A := Sandbox) demo_sandboxes.
Proof.
  assert (st_inv (∅ : absStore object)) as H0 by (intros t k v; by rewrite lookup_empty).
  assert (files_wf (∅ : absStore object)) as H1 by (intros k o; simpl; by rewrite lookup_empty).
  set (s1 := Filestore.Save (∅ : absStore object) {| fs_Chksum := "aaa"; fs_Data := "x" |}).
  assert (st_inv s1) as Hs1 by (by apply st_set_inv).
  assert (files_wf s1) as Hf1 by (by apply file_Save_wf).
  assert (kind_wf (A := Sandbox) s1) as Hk1.
  { intros k o. change (st_get s1 "sandbox" k = Ok (Some o) → ∃ a : Sandbox, o = s_inj a ∧ s_name a = k).
    unfold s1, Filestore.Save. rewrite st_get_set by done. rewrite bool_decide_false by naive_solver.
    simpl. by rewrite lookup_empty. }
  assert (∀ s sb, st_inv s → files_wf s → files_wf (Save (S := absStore object) s sb)) as Hf.
  { intros s sb Hi Hw k o. unfold Save, store. rewrite st_get_set by done.
    rewrite bool_decide_false by naive_solver. apply Hw. }
  split_and!.
  - by apply store_inv, store_inv.
  - apply Hf; [by apply store_inv|by apply Hf].
  - apply store_kind_wf; [by apply store_inv|by apply store_kind_wf].
Qed.

Lemma sandbox_complete_exact_witness :
  IsComplete demo_sandboxes (demo_sb "s1" 10) = Err (missing_error (demo_sb "s1" 10) "bbb") ∧
  ¬ (∀ chk, chk ∈ ["aaa"; "bbb"] → has_file demo_sandboxes chk).
Proof.
  destruct demo_sandboxes_inv as (Hi & Hf & _).
  assert (IsComplete demo_sandboxes (demo_sb "s1" 10) = Err (missing_error (demo_sb "s1" 10) "bbb")) as E
    by (vm_compute; reflexivity).
  split; [done|]. intros Hall.
  destruct (sandbox_complete_exact demo_sandboxes (demo_sb "s1" 10) Hi Hf) as [H _].
  apply H in Hall. by rewrite E in Hall.
Defined.

Lemma upload_list_exact_witness :
  ∃ m, UploadChkList default_conf demo_sandboxes (demo_sb "s1" 10) = Ok m ∧ is_Some (mlookup "bbb" m).
Proof.
  destruct demo_sandboxes_inv as (Hi & Hf & _).
  destruct (upload_list_exact default_conf demo_sandboxes (demo_sb "s1" 10) Hi Hf) as (m & Hm & Hall).
  exists m. split; [done|]. apply (Hall "bbb"). simpl. set_solver.
Defined.

Lemma purge_sandboxes_exact_witness :
  ∃ s' n, Purge demo_sandboxes 50 30 = Ok (s', n) ∧
    load (A := Sandbox) s' "s2" = Ok (Some (demo_sb "s2" 30)) ∧
    ¬ load (A := Sandbox) s' "s1" = Ok (Some (demo_sb "s1" 10)).
Proof.
  destruct demo_sandboxes_inv as (Hi & _ & Hk).
  destruct (purge_sandboxes_exact demo_sandboxes 50 30 Hi Hk) as (s' & n & all & Hp & _ & _ & Hl).
  exists s', n. split_and!; [done| |].
  - apply Hl. split; [vm_compute; reflexivity|]. simpl. lia.
  - intros [_ Ht]%Hl. simpl in Ht. lia.
Defined.
