(* ===== verification/Clients.v ===== *)
(** Clients (src/client/client.go): the actors nodes use, their rights, and
    the rules that keep an administrator around. *)
From S2P Require Import Prelude Gerror Iface Config Store Objects UtilStrings Validations Flatten FileIndex World.

#[export] Instance client_stored : Stored Client := {|
  s_type := "client"; s_name := c_Name; s_inj := OClient;
  s_proj o := match o with OClient c => Some c | _ => None end; s_gob := id |}.

#[export] Instance client_stored_laws : StoredLaws Client.
Proof. split; try done. by intros [] a [= ->]. Qed.

(** The key library: why a public key is refused, and the hash of a password
    with a salt. *)
Class Crypto : Type := {
  key_error : string → option string;
  HashPasswd : string → string → string + string;
}.

Section clients.
  Context (conf : Conf) {CR : Crypto} {S T : Type} {O : StoreOps S object} {TO : TrieOps T}.
  Implicit Types (w : world S T) (c : Client).

(** * Definitions *)

Definition validateClientName (name : string) : outcome () :=
  ensure (ValidateName name) (Errorf ("Invalid client name '" +:+ name +:+
    "' using regex: 'Malformed client name.  Must be A-Z, a-z, 0-9, _, -, or .'.")).

Definition New_ w (clientname : string) : outcome Client :=
  found ← st_get (sto w) "client" clientname;
  match found with
  | Some _ => Err (SetStatus (Errorf "Client already exists") StatusConflict)
  | None =>
      validateClientName clientname ≫= λ _,
      Ok {| c_Name := clientname; c_NodeName := clientname; c_JSONClass := "Chef::ApiClient";
            c_ChefType := "client"; c_Validator := false; c_Orgname := EmptyString;
            c_pubKey := EmptyString; c_Admin := false; c_Certificate := EmptyString |}
  end.

Definition not_found (name : string) : gerror :=
  SetStatus (Errorf ("Client " +:+ name +:+ " not found")) StatusNotFound.

Definition Get w (clientname : string) : outcome Client :=
  o ← load (sto w) clientname;
  match o with Some c => Ok c | None => Err (not_found clientname) end.

Definition DoesExist w (clientname : string) : outcome bool :=
  o ← st_get (sto w) "client" clientname; Ok (bool_decide (is_Some o)).

Definition GetMulti w (names : list string) : outcome (list Client) := load_all (sto w) names.

Definition GetList w : outcome (list string) := st_list (sto w) "client".

Definition AllClients w : outcome (list Client) := names ← GetList w; load_all (sto w) names.

(** The fields of [flatExport]. *)
Definition fields c : jmap :=
  [("name", IStr (c_Name c)); ("node_name", IStr (c_NodeName c)); ("json_class", IStr (c_JSONClass c));
   ("chef_type", IStr (c_ChefType c)); ("validator", IBool (c_Validator c)); ("orgname", IStr (c_Orgname c));
   ("public_key", IStr (c_pubKey c)); ("admin", IBool (c_Admin c)); ("certificate", IStr (c_Certificate c))].

Definition indexable c : Indexable :=
  {| DocID := c_Name c; Index := "client"; Flatten := FlattenObj conf (fields c) |}.

Definition chkInMemUser w (name : string) : outcome () :=
  o ← st_get (sto w) "user" name;
  match o with
  | Some _ => Err (SetStatus (Errorf ("a user named " +:+ name +:+
                " was found that would conflict with this client")) StatusConflict)
  | None => Ok ()
  end.

Definition Save w c : outcome (world S T) :=
  chkInMemUser w (c_Name c) ≫= λ _, Ok (IndexObj (set_sto w (store (sto w) c)) (indexable c)).

Definition num_admins w : outcome nat :=
  cs ← AllClients w; Ok (length (filter (λ c, c_Admin c = true) cs)).

Definition isLastAdmin w c : outcome bool :=
  if c_Admin c then n ← num_admins w; Ok (bool_decide (n = 1)) else Ok false.

Definition Delete w c : outcome (world S T) :=
  isLastAdmin w c ≫= λ last : bool,
  if last then Err (New "Cannot delete the last admin")
  else Ok (DeleteItemFromCollection (set_sto w (unstore (A := Client) (sto w) (c_Name c)))
             "client" (c_Name c)).

Definition set_name c (name : string) : Client :=
  {| c_Name := name; c_NodeName := c_NodeName c; c_JSONClass := c_JSONClass c; c_ChefType := c_ChefType c;
     c_Validator := c_Validator c; c_Orgname := c_Orgname c; c_pubKey := c_pubKey c; c_Admin := c_Admin c;
     c_Certificate := c_Certificate c |}.

(** [Rename] takes the client out of the store; it must be saved again. *)
Definition Rename w c (newName : string) : outcome (world S T * Client) :=
  validateClientName newName ≫= λ _,
  isLastAdmin w c ≫= λ last : bool,
  if last then Err (SetStatus (Errorf "Cannot rename the last admin") StatusForbidden)
  else
    match chkInMemUser w newName with
    | Err e => Err (SetStatus (CastErr (Error e)) StatusConflict)
    | Panic p => Panic p
    | Ok _ =>
        o ← st_get (sto w) "client" newName;
        match o with
        | Some _ => Err (SetStatus (Errorf ("Client " +:+ newName +:+ " already exists, cannot rename "
                      +:+ c_Name c)) StatusConflict)
        | None => Ok (set_sto w (unstore (A := Client) (sto w) (c_Name c)), set_name c newName)
        end
    end.

Definition validElements : list string :=
  ["name"; "json_class"; "chef_type"; "validator"; "org_name"; "orgname"; "public_key"; "private_key"; "admin";
   "certificate"; "password"; "node_name"; "clientname"; "create_key"].

(** The new value of [Admin]: false when it is left out. *)
Definition admin_field w c (jsonActor : jmap) : outcome bool :=
  match mlookup "admin" jsonActor with
  | None => Ok false
  | Some v =>
      match ValidateAsBool v with
      | Ok ab =>
          if c_Admin c && negb ab then
            isLastAdmin w c ≫= λ last : bool,
            if last then Err (SetStatus (Errorf "Cannot remove admin status from the last admin") StatusForbidden)
            else Ok ab
          else Ok ab
      | _ => Err (Errorf "Field 'admin' invalid")
      end
  end.

Definition validator_field (jsonActor : jmap) : outcome bool :=
  match mlookup "validator" jsonActor with None => Ok false | Some v => ValidateAsBool v end.

Definition UpdateFromJSON w c (jsonActor : jmap) : outcome Client :=
  actorName ← ValidateAsString (mget "name" jsonActor);
  if bool_decide (c_Name c ≠ actorName) then
    Err (Errorf ("Client name " +:+ c_Name c +:+ " and " +:+ actorName +:+ " from JSON do not match"))
  else
    check_elements validElements jsonActor ≫= λ _,
    json_class ← class_field jsonActor "json_class" "Chef::ApiClient" (c_JSONClass c);
    chef_type ← class_field jsonActor "chef_type" "client" (c_ChefType c);
    admin_field w c jsonActor ≫= λ ab : bool,
    validator_field jsonActor ≫= λ vb : bool,
    if ab && vb then
      Err (SetStatus (Errorf "Client can be either an admin or a validator, but not both.") StatusBadRequest)
    else Ok {| c_Name := c_Name c; c_NodeName := c_NodeName c; c_JSONClass := json_class;
               c_ChefType := chef_type; c_Validator := vb; c_Orgname := c_Orgname c; c_pubKey := c_pubKey c;
               c_Admin := ab; c_Certificate := c_Certificate c |}.

Definition NewFromJSON w (jsonActor : jmap) : outcome Client :=
  actorName ← ValidateAsString (mget "name" jsonActor);
  client ← New_ w actorName;
  UpdateFromJSON w client jsonActor.

Definition ToJSON c : jmap :=
  [("name", IStr (c_Name c)); ("admin", IBool (c_Admin c)); ("public_key", IStr (c_pubKey c));
   ("validator", IBool (c_Validator c)); ("json_class", IStr (c_JSONClass c)); ("chef_type", IStr (c_ChefType c))].

(** ** Rights *)

Definition IsAdmin c : bool := if UseAuth conf then c_Admin c else true.

Definition IsValidator c : bool :=
  UseAuth conf && bool_decide (c_ChefType c = "client") && c_Validator c.

(** [IsSelf] for another client; users are never the same. *)
Definition IsSelf c (other : Client) : bool :=
  if UseAuth conf then bool_decide (c_Name c = c_Name other) else true.

Definition CheckPermEdit (data : jmap) (perm : string) : outcome () :=
  match mlookup perm data with
  | Some (IBool true) => Err (SetStatus (Errorf "You are not allowed to take this action.") StatusForbidden)
  | _ => Ok ()
  end.

Definition SetPublicKey c (pk : iface) : outcome Client :=
  match pk with
  | IStr pk =>
      match key_error pk with
      | Some e => Err (CastErr e)
      | None =>
          Ok {| c_Name := c_Name c; c_NodeName := c_NodeName c; c_JSONClass := c_JSONClass c;
                c_ChefType := c_ChefType c; c_Validator := c_Validator c; c_Orgname := c_Orgname c;
                c_pubKey := pk; c_Admin := c_Admin c; c_Certificate := c_Certificate c |}
      end
  | _ => Err (New ("invalid type " +:+ go_type pk +:+ " for public key"))
  end.
End clients.
