(* ===== verification/Users.v ===== *)
(** Users (src/user/user.go): the people among the actors, with passwords, and
    the actor behind a request (src/actor/actor.go). *)
From S2P Require Import Prelude Gerror Iface Config Store Objects UtilStrings Validations Flatten FileIndex World Clients.

#[export] Instance user_stored : Stored User := {|
  s_type := "user"; s_name := u_Username; s_inj := OUser;
  s_proj o := match o with OUser u => Some u | _ => None end; s_gob := id |}.

#[export] Instance user_stored_laws : StoredLaws User.
Proof. split; try done. by intros [] a [= ->]. Qed.

Section users.
  Context (conf : Conf) {CR : Crypto} {S T : Type} {O : StoreOps S object} {TO : TrieOps T}.
  Implicit Types (w : world S T) (u : User).

(** * Definitions *)

Definition validateUserName (name : string) : outcome () :=
  ensure (ValidateUserName name) (Errorf "Field 'name' invalid").

(** [New], given the salt drawn. *)
Definition New_ w (name salt : string) : outcome User :=
  found ← st_get (sto w) "user" name;
  match found with
  | Some _ => Err (SetStatus (Errorf ("User '" +:+ name +:+ "' already exists")) StatusConflict)
  | None =>
      validateUserName name ≫= λ _,
      Ok {| u_Username := name; u_Name := name; u_Email := EmptyString; u_Admin := false;
            u_pubKey := EmptyString; u_passwd := EmptyString; u_salt := salt |}
  end.

Definition not_found (name : string) : gerror := Errorf ("User " +:+ name +:+ " not found").

Definition Get w (name : string) : outcome User :=
  o ← load (sto w) name;
  match o with Some u => Ok u | None => Err (not_found name) end.

Definition DoesExist w (name : string) : outcome bool :=
  o ← st_get (sto w) "user" name; Ok (bool_decide (is_Some o)).

Definition GetList w : outcome (list string) := st_list (sto w) "user".

Definition AllUsers w : outcome (list User) := names ← GetList w; load_all (sto w) names.

Definition chkInMemClient w (name : string) : outcome () :=
  o ← st_get (sto w) "client" name;
  match o with
  | Some _ => Err (New ("a client named " +:+ name +:+ " was found that would conflict with this user"))
  | None => Ok ()
  end.

Definition Save w u : outcome (world S T) :=
  match chkInMemClient w (u_Username u) with
  | Err e => Err (SetStatus (CastErr (Error e)) StatusConflict)
  | Panic p => Panic p
  | Ok _ => Ok (set_sto w (store (sto w) u))
  end.

Definition num_admins w : outcome nat :=
  us ← AllUsers w; Ok (length (filter (λ u, u_Admin u = true) us)).

Definition isLastAdmin w u : outcome bool :=
  if u_Admin u then n ← num_admins w; Ok (bool_decide (n = 1)) else Ok false.

Definition Delete w u : outcome (world S T) :=
  isLastAdmin w u ≫= λ last : bool,
  if last then Err (Errorf "Cannot delete the last admin")
  else Ok (set_sto w (unstore (A := User) (sto w) (u_Username u))).

Definition set_username u (name : string) : User :=
  {| u_Username := name; u_Name := u_Name u; u_Email := u_Email u; u_Admin := u_Admin u;
     u_pubKey := u_pubKey u; u_passwd := u_passwd u; u_salt := u_salt u |}.

(** [Rename] deletes the client, not the user, of the old name. *)
Definition Rename w u (newName : string) : outcome (world S T * User) :=
  validateUserName newName ≫= λ _,
  isLastAdmin w u ≫= λ last : bool,
  if last then Err (SetStatus (Errorf "Cannot rename the last admin") StatusForbidden)
  else
    match chkInMemClient w newName with
    | Err e => Err (SetStatus (CastErr (Error e)) StatusConflict)
    | Panic p => Panic p
    | Ok _ =>
        o ← st_get (sto w) "user" newName;
        match o with
        | Some _ => Err (SetStatus (Errorf ("User " +:+ newName +:+ " already exists, cannot rename "
                      +:+ u_Username u)) StatusConflict)
        | None => Ok (set_sto w (unstore (A := Client) (sto w) (u_Username u)), set_username u newName)
        end
    end.

Definition with_passwd u (pw : string) : User :=
  {| u_Username := u_Username u; u_Name := u_Name u; u_Email := u_Email u; u_Admin := u_Admin u;
     u_pubKey := u_pubKey u; u_passwd := pw; u_salt := u_salt u |}.

Definition with_admin u (b : bool) : User :=
  {| u_Username := u_Username u; u_Name := u_Name u; u_Email := u_Email u; u_Admin := b;
     u_pubKey := u_pubKey u; u_passwd := u_passwd u; u_salt := u_salt u |}.

Definition SetPasswd u (password : string) : outcome User :=
  if (String.length password <? 6)%nat then Err (Errorf "Password must have at least 6 characters")
  else match HashPasswd password (u_salt u) with
       | inl pw => Ok (with_passwd u pw)
       | inr e => Err (CastErr e)
       end.

Definition CheckPasswd u (password : string) : outcome () :=
  match HashPasswd password (u_salt u) with
  | inl h => if bool_decide (u_passwd u ≠ h) then Err (Errorf "password did not match") else Ok ()
  | inr e => Err (CastErr e)
  end.

Definition validElements : list string :=
  ["username"; "name"; "org_name"; "public_key"; "private_key"; "admin"; "password"; "email"; "salt";
   "chef_type"; "display_name"; "json_class"; "openid"].

(** A password that is there, and is neither nil nor empty, is set. *)
Definition passwd_field u (jsonUser : jmap) : outcome User :=
  match mlookup "password" jsonUser with
  | None | Some INil => Ok u
  | Some v =>
      passwd ← ValidateAsString v;
      if bool_decide (passwd = EmptyString) then Ok u else SetPasswd u passwd
  end.

Definition admin_field w u (jsonUser : jmap) : outcome User :=
  match mlookup "admin" jsonUser with
  | None => Ok u
  | Some v =>
      match ValidateAsBool v with
      | Ok ab =>
          if u_Admin u && negb ab then
            isLastAdmin w u ≫= λ last : bool,
            if last then Err (SetStatus (Errorf "Cannot remove admin status from the last admin") StatusForbidden)
            else Ok (with_admin u ab)
          else Ok (with_admin u ab)
      | _ => Err (Errorf "Field 'admin' invalid")
      end
  end.

Definition UpdateFromJSON w u (jsonUser : jmap) : outcome User :=
  userName ← ValidateAsString (mget "name" jsonUser);
  if bool_decide (u_Username u ≠ userName) then
    Err (Errorf ("User name " +:+ u_Username u +:+ " and " +:+ userName +:+ " from JSON do not match"))
  else
    check_elements validElements jsonUser ≫= λ _,
    u ← passwd_field u jsonUser;
    admin_field w u jsonUser.

Definition NewFromJSON w (salt : string) (jsonUser : jmap) : outcome User :=
  userName ← ValidateAsString (mget "name" jsonUser);
  user ← New_ w userName salt;
  match mlookup "password" jsonUser with
  | None => Err (Errorf "Field 'password' missing")
  | Some _ => UpdateFromJSON w user jsonUser
  end.

Definition ToJSON u : jmap :=
  [("name", IStr (u_Name u)); ("admin", IBool (u_Admin u)); ("public_key", IStr (u_pubKey u))].

(** ** Rights *)

Definition IsAdmin u : bool := if UseAuth conf then u_Admin u else true.

Definition IsSelf u (other : User) : bool :=
  if UseAuth conf then bool_decide (u_Username u = u_Username other) else true.

Definition SetPublicKey u (pk : iface) : outcome User :=
  match pk with
  | IStr pk =>
      match key_error pk with
      | Some e => Err (CastErr e)
      | None => Ok {| u_Username := u_Username u; u_Name := u_Name u; u_Email := u_Email u; u_Admin := u_Admin u;
                      u_pubKey := pk; u_passwd := u_passwd u; u_salt := u_salt u |}
      end
  | _ => Err (New ("invalid type " +:+ go_type pk +:+ " for public key"))
  end.

(** * The actor behind a request *)

Definition GetReqUser w (name : string) : outcome Actor :=
  let name := if UseAuth conf then name else "admin" in
  match Clients.Get w name with
  | Ok c => Ok (AClient c)
  | Panic p => Panic p
  | Err err =>
      match Get w name with
      | Ok u => Ok (AUser u)
      | Panic p => Panic p
      | Err cerr =>
          Err (SetStatus (Errorf ("Neither a client nor a user named '" +:+ name +:+
            "' could be found. In addition, the following errors were reported: " +:+ Error err +:+ " -- "
            +:+ Error cerr)) StatusUnauthorized)
      end
  end.
End users.
