(* ===== verification/Actors.v ===== *)
(** Clients and users together: names are shared out between them, an
    administrator stays, passwords check (src/client/client.go,
    src/user/user.go, src/actor/actor.go). *)
From S2P Require Import Prelude Gerror Iface Config Store Objects UtilStrings Validations Flatten FileIndex World Clients Users.

(** * Counting administrators *)

Section listing.
  Context {A : Type} `{Stored A} {SL : StoredLaws A} {S : Type} {O : StoreOps S object} {L : StoreLaws S object}.
  Implicit Types (s : S).

(** When an object that passes a test is not the only one, another one is left
    after it is deleted. *)
Lemma another_left (P : A → Prop) `{∀ a, Decision (P a)} s a :
  st_inv s → kind_wf (A := A) s → load s (s_name a) = Ok (Some a) → P a →
  (∀ l, load_list s = Ok l → length (filter P l) ≠ 1) →
  ∃ b, load (unstore (A := A) s (s_name a)) (s_name b) = Ok (Some b) ∧ P b.
Proof.
  intros Hi Hw Ha HP Hn. destruct (load_list_spec s Hi Hw) as (l & Hl & Hin).
  specialize (Hn l Hl). assert (NoDup l) as Hnd by (eapply NoDup_fmap_1, (load_list_NoDup s l); done).
  assert (a ∈ filter P l) as Haf by (apply list_elem_of_filter; split; [done|by apply Hin]).
  assert (∃ b, b ∈ filter P l ∧ b ≠ a) as (b & Hb & Hne).
  { assert (NoDup (filter P l)) as Hndf by (by apply NoDup_filter).
    destruct (filter P l) as [|x [|y r]]; [by apply not_elem_of_nil in Haf|simpl in Hn; done|].
    apply NoDup_cons in Hndf as [Hx _]. apply elem_of_cons in Haf as [->|Haf].
    - exists y. set_solver.
    - exists x. split; [set_solver|]. intros ->. done. }
  apply list_elem_of_filter in Hb as [HPb Hb]. apply Hin in Hb. exists b. split; [|done].
  rewrite load_unstore by done. rewrite bool_decide_false; [done|]. intros Hs. rewrite Hs in Hb. congruence.
Qed.
End listing.

(** * Names *)

Section actors.
  Context (conf : Conf) {CR : Crypto} {S T : Type} {O : StoreOps S object} {L : StoreLaws S object} {TO : TrieOps T}.
  Implicit Types (w : world S T).

Record actors_inv w : Prop := {
  ai_store : st_inv (sto w);
  ai_clients : kind_wf (A := Client) (sto w);
  ai_users : kind_wf (A := User) (sto w);
  ai_disjoint k : load (A := Client) (sto w) k = Ok None ∨ load (A := User) (sto w) k = Ok None;
}.

(** What requests do to actors. *)
Inductive actor_step : world S T → world S T → Prop :=
| as_client_save w c w' : Clients.Save conf w c = Ok w' → actor_step w w'
| as_client_delete w c w' : Clients.Delete w c = Ok w' → actor_step w w'
| as_client_rename w c n w' c' : Clients.Rename w c n = Ok (w', c') → actor_step w w'
| as_user_save w u w' : Users.Save w u = Ok w' → actor_step w w'
| as_user_delete w u w' : Users.Delete w u = Ok w' → actor_step w w'
| as_user_rename w u n w' u' : Users.Rename w u n = Ok (w', u') → actor_step w w'.

(** The store after a step: an actor saved whose name the other kind does not
    have, or an actor taken out. *)
Lemma client_save_store w c w' :
  Clients.Save conf w c = Ok w' → sto w' = store (sto w) c ∧ st_get (sto w) "user" (c_Name c) = Ok None.
Proof.
  unfold Clients.Save, chkInMemUser. intros Hs. apply bind_Ok in Hs as ([] & Hc & [= <-]).
  apply bind_Ok in Hc as ([?|] & Hg & Hc); done.
Qed.

Lemma user_save_store w u w' :
  Users.Save w u = Ok w' → sto w' = store (sto w) u ∧ st_get (sto w) "client" (u_Username u) = Ok None.
Proof.
  unfold Users.Save, chkInMemClient. intros Hs.
  destruct (st_get (sto w) "client" (u_Username u)) as [[?|]| |]; simpl in Hs; try done. by injection Hs as <-.
Qed.

Lemma client_delete_store w c w' :
  Clients.Delete w c = Ok w' →
  sto w' = unstore (A := Client) (sto w) (c_Name c) ∧ Clients.isLastAdmin w c = Ok false.
Proof.
  unfold Clients.Delete. intros Hd. apply bind_Ok in Hd as ([|] & Hl & Hd); [done|]. by injection Hd as <-.
Qed.

Lemma user_delete_store w u w' :
  Users.Delete w u = Ok w' →
  sto w' = unstore (A := User) (sto w) (u_Username u) ∧ Users.isLastAdmin w u = Ok false.
Proof.
  unfold Users.Delete. intros Hd. apply bind_Ok in Hd as ([|] & Hl & Hd); [done|]. by injection Hd as <-.
Qed.

Lemma client_rename_store w c n w' c' :
  Clients.Rename w c n = Ok (w', c') → sto w' = unstore (A := Client) (sto w) (c_Name c).
Proof.
  unfold Clients.Rename. intros Hr. apply bind_Ok in Hr as ([] & _ & Hr). apply bind_Ok in Hr as ([|] & _ & Hr); [done|].
  destruct (chkInMemUser w n); [|done..]. apply bind_Ok in Hr as ([?|] & _ & Hr); [done|]. by injection Hr as <- _.
Qed.

Lemma user_rename_store w u n w' u' :
  Users.Rename w u n = Ok (w', u') →
  sto w' = unstore (A := Client) (sto w) (u_Username u) ∧ u' = set_username u n ∧
  st_get (sto w) "user" n = Ok None ∧ st_get (sto w) "client" n = Ok None.
Proof.
  unfold Users.Rename. intros Hr. apply bind_Ok in Hr as ([] & _ & Hr). apply bind_Ok in Hr as ([|] & _ & Hr); [done|].
  unfold chkInMemClient in Hr. destruct (st_get (sto w) "client" n) as [[?|]| |]; simpl in Hr; try done.
  apply bind_Ok in Hr as ([?|] & Hg & Hr); [done|]. by injection Hr as <- <-.
Qed.

Lemma get_none_load `{Stored A} (s : S) k : st_get s (s_type A) k = Ok None → load (A := A) s k = Ok None.
Proof. unfold load. by intros ->. Qed.

Lemma client_store_inv w w' c :
  actors_inv w → sto w' = store (sto w) c → st_get (sto w) "user" (c_Name c) = Ok None → actors_inv w'.
Proof.
  intros [Hi Hc Hu Hd] Hs Hn. split; rewrite Hs.
  - by apply store_inv.
  - by apply store_kind_wf.
  - by apply kind_wf_store_ne.
  - intros k. rewrite (load_store_ne (A := User) (B := Client)), load_store by done.
    case_bool_decide as E; [|apply Hd]. right. rewrite E. by apply get_none_load.
Qed.

Lemma user_store_inv w w' u :
  actors_inv w → sto w' = store (sto w) u → st_get (sto w) "client" (u_Username u) = Ok None → actors_inv w'.
Proof.
  intros [Hi Hc Hu Hd] Hs Hn. split; rewrite Hs.
  - by apply store_inv.
  - by apply kind_wf_store_ne.
  - by apply store_kind_wf.
  - intros k. rewrite (load_store_ne (A := Client) (B := User)), (load_store (A := User)) by done.
    case_bool_decide as E; [|apply Hd]. left. rewrite E. by apply get_none_load.
Qed.

Lemma client_unstore_inv w w' k0 :
  actors_inv w → sto w' = unstore (A := Client) (sto w) k0 → actors_inv w'.
Proof.
  intros [Hi Hc Hu Hd] Hs. split; rewrite Hs.
  - by apply unstore_inv.
  - by apply unstore_kind_wf.
  - by apply kind_wf_unstore_ne.
  - intros k. rewrite (load_unstore_ne (A := User) (B := Client)), load_unstore by done.
    case_bool_decide; [by left|apply Hd].
Qed.

Lemma user_unstore_inv w w' k0 :
  actors_inv w → sto w' = unstore (A := User) (sto w) k0 → actors_inv w'.
Proof.
  intros [Hi Hc Hu Hd] Hs. split; rewrite Hs.
  - by apply unstore_inv.
  - by apply kind_wf_unstore_ne.
  - by apply unstore_kind_wf.
  - intros k. rewrite (load_unstore_ne (A := Client) (B := User)), (load_unstore (A := User)) by done.
    case_bool_decide; [by right|apply Hd].
Qed.

Lemma actor_step_inv w w' : actors_inv w → actor_step w w' → actors_inv w'.
Proof.
  intros Hi Hs. destruct Hs as [w c w' H|w c w' H|w c n w' c' H|w u w' H|w u w' H|w u n w' u' H].
  - apply client_save_store in H as [? ?]. by eapply client_store_inv.
  - apply client_delete_store in H as [? _]. by eapply client_unstore_inv.
  - apply client_rename_store in H. by eapply client_unstore_inv.
  - apply user_save_store in H as [? ?]. by eapply user_store_inv.
  - apply user_delete_store in H as [? _]. by eapply user_unstore_inv.
  - apply user_rename_store in H as [? _]. by eapply client_unstore_inv.
Qed.

Lemma actor_steps_inv w w' : actors_inv w → rtc actor_step w w' → actors_inv w'.
Proof. intros Hi Hr. induction Hr; eauto using actor_step_inv. Qed.

(** * Properties *)

(** Whatever sequence of saves, deletions and renames of clients and users
    the server has carried out, no client and user have the same name. *)
Theorem actor_names_disjoint w w' k :
  st_inv (sto w) → (∀ k, st_get (sto w) "client" k = Ok None) → (∀ k, st_get (sto w) "user" k = Ok None) →
  rtc actor_step w w' →
  ¬ ((∃ c, Clients.Get w' k = Ok c) ∧ (∃ u, Users.Get w' k = Ok u)).
Proof.
  intros Hi Hc Hu Hr [[c Hgc] [u Hgu]].
  assert (actors_inv w) as H0.
  { split; [done|intros j o; simpl; by rewrite Hc|intros j o; simpl; by rewrite Hu|].
    intros j. left. apply get_none_load, Hc. }
  destruct (actor_steps_inv w w' H0 Hr) as [_ _ _ Hd]. unfold Clients.Get in Hgc. unfold Users.Get in Hgu.
  by destruct (Hd k) as [Hn|Hn]; rewrite Hn in *.
Qed.

(** C30: deleting a stored client or a stored user never removes the last
    administrator of its kind: when one is deleted another one is left. *)
Theorem last_admin_stays w c u :
  actors_inv w →
  (∀ w', load (sto w) (c_Name c) = Ok (Some c) → c_Admin c = true → Clients.Delete w c = Ok w' →
    ∃ c', Clients.Get w' (c_Name c') = Ok c' ∧ c_Admin c' = true) ∧
  (∀ w', load (sto w) (u_Username u) = Ok (Some u) → u_Admin u = true → Users.Delete w u = Ok w' →
    ∃ u', Users.Get w' (u_Username u') = Ok u' ∧ u_Admin u' = true).
Proof.
  intros [Hi Hc Hu _]. split; intros w' Hl Ha Hd.
  - apply client_delete_store in Hd as [Hs Hlast]. unfold Clients.isLastAdmin in Hlast. rewrite Ha in Hlast.
    apply bind_Ok in Hlast as (n & Hn & [= Hne]). apply bool_decide_eq_false in Hne.
    destruct (another_left (A := Client) (λ c, c_Admin c = true) (sto w) c Hi Hc Hl Ha) as (b & Hb & Hab).
    { intros l Hll. unfold Clients.num_admins, Clients.AllClients, Clients.GetList in Hn.
      change (load_list (sto w) ≫= (λ cs : list Client, Ok (length (filter (λ c, c_Admin c = true) cs))) = Ok n) in Hn.
      rewrite Hll in Hn. simpl in Hn. by injection Hn as <-. }
    exists b. split; [|done]. unfold Clients.Get. rewrite Hs. change (c_Name b) with (s_name b).
    change (c_Name c) with (s_name c). by rewrite Hb.
  - apply user_delete_store in Hd as [Hs Hlast]. unfold Users.isLastAdmin in Hlast. rewrite Ha in Hlast.
    apply bind_Ok in Hlast as (n & Hn & [= Hne]). apply bool_decide_eq_false in Hne.
    destruct (another_left (A := User) (λ u, u_Admin u = true) (sto w) u Hi Hu Hl Ha) as (b & Hb & Hab).
    { intros l Hll. unfold Users.num_admins, Users.AllUsers, Users.GetList in Hn.
      change (load_list (sto w) ≫= (λ us : list User, Ok (length (filter (λ u, u_Admin u = true) us))) = Ok n) in Hn.
      rewrite Hll in Hn. simpl in Hn. by injection Hn as <-. }
    exists b. split; [|done]. unfold Users.Get. rewrite Hs. change (u_Username b) with (s_name b).
    change (u_Username u) with (s_name u). by rewrite Hb.
Qed.

(** An accepted client update keeps the name and the key, has only known
    keys, never makes a client both administrator and validator, and does not
    take the rights of the last administrator away by an explicit "admin". *)
Theorem client_update_valid w c (json : jmap) c' :
  Clients.UpdateFromJSON w c json = Ok c' →
  c_Name c' = c_Name c ∧ c_pubKey c' = c_pubKey c ∧
  (∀ k, k ∈ mkeys json → k ∈ Clients.validElements) ∧
  ¬ (c_Admin c' = true ∧ c_Validator c' = true) ∧
  (c_Admin c = true → Clients.isLastAdmin w c = Ok true → is_Some (mlookup "admin" json) → c_Admin c' = true).
Proof.
  unfold Clients.UpdateFromJSON. intros Hu. apply bind_Ok in Hu as (name & Hn & Hu).
  case_bool_decide; [done|]. apply bind_Ok in Hu as ([] & Hk & Hu).
  apply bind_Ok in Hu as (jc & _ & Hu). apply bind_Ok in Hu as (ct & _ & Hu).
  apply bind_Ok in Hu as (ab & Hab & Hu). apply bind_Ok in Hu as (vb & _ & Hu).
  destruct (ab && vb) eqn:Eb; [done|]. injection Hu as <-. simpl.
  split_and!; [done|done|by apply check_elements_Ok|by intros [-> ->]|].
  intros Ha Hlast [v Hv]. unfold Clients.admin_field in Hab. rewrite Hv in Hab.
  destruct (ValidateAsBool v) as [ab0| |]; [|done..]. rewrite Ha, Hlast in Hab. simpl in Hab.
  destruct ab0; simpl in Hab; [by injection Hab as <-|done].
Qed.

(** A password that was set checks, any password with another hash does
    not, and shorter ones than six bytes are refused. *)
Theorem password_roundtrip (u u' : User) (p q : string) :
  Users.SetPasswd u p = Ok u' →
  (6 ≤ String.length p)%nat ∧ Users.CheckPasswd u' p = Ok () ∧ u_salt u' = u_salt u ∧
  (Users.CheckPasswd u' q = Ok () ↔ HashPasswd q (u_salt u) = HashPasswd p (u_salt u)).
Proof.
  unfold Users.SetPasswd, Users.CheckPasswd. destruct (String.length p <? 6) eqn:El; [done|].
  apply Nat.ltb_ge in El. destruct (HashPasswd p (u_salt u)) as [pw|] eqn:Ep; [|done].
  intros [= <-]. simpl. rewrite Ep, bool_decide_false by naive_solver. split_and!; [done..|].
  destruct (HashPasswd q (u_salt u)) as [h|]; [|done]. case_bool_decide; naive_solver.
Qed.

(** With authentication on, the actor of a request is the client of that
    name, or else the user; a name nobody has is answered with 401. *)
Theorem request_actor_exact w name :
  actors_inv w → UseAuth conf = true →
  match GetReqUser conf w name with
  | Ok (AClient c) => Clients.Get w name = Ok c ∧ c_Name c = name
  | Ok (AUser u) => Users.Get w name = Ok u ∧ u_Username u = name ∧ ¬ ∃ c, Clients.Get w name = Ok c
  | Err e => Status e = StatusUnauthorized ∧
      (¬ ∃ c, Clients.Get w name = Ok c) ∧ (¬ ∃ u, Users.Get w name = Ok u)
  | Panic _ => False
  end.
Proof.
  intros [Hi Hc Hu _] Ha. unfold GetReqUser. rewrite Ha. unfold Clients.Get, Users.Get.
  destruct (load_ok (A := Client) (sto w) name Hi Hc) as ([c|] & Hlc & _).
  - rewrite Hlc. simpl. split; [done|]. by apply (load_name (A := Client) (sto w) name c Hi Hc).
  - rewrite Hlc. simpl. destruct (load_ok (A := User) (sto w) name Hi Hu) as ([u|] & Hlu & _); rewrite Hlu; simpl.
    + split_and!; [done| |by intros [? ?]]. by apply (load_name (A := User) (sto w) name u Hi Hu).
    + split_and!; [done|by intros [? ?]..].
Qed.

(** Renaming a user leaves the user of the old name in the store: after the
    renamed user is saved there are two. *)
Theorem renamed_user_stays w u n w1 u1 w2 :
  actors_inv w → load (sto w) (u_Username u) = Ok (Some u) →
  Users.Rename w u n = Ok (w1, u1) → Users.Save w1 u1 = Ok w2 →
  Users.Get w2 (u_Username u) = Ok u ∧ Users.Get w2 n = Ok (set_username u n).
Proof.
  intros [Hi Hc Hu Hd] Hl Hr Hs. apply user_rename_store in Hr as (Hs1 & -> & Hn & _).
  apply user_save_store in Hs as [Hs2 _]. unfold Users.Get. rewrite Hs2, Hs1.
  rewrite !(load_store (A := User)) by (by apply unstore_inv).
  rewrite (load_unstore_ne (A := User) (B := Client)) by done.
  change (s_name (set_username u n)) with n. split.
  - rewrite bool_decide_false; [by rewrite Hl|]. intros He. rewrite He in Hl.
    by rewrite (get_none_load (A := User)) in Hl.
  - by rewrite bool_decide_true.
Qed.
End actors.

(** * Concrete actors *)

#[local] Existing Instances words_trie no_regexp.
#[local] Instance demo_crypto : Crypto := {| key_error _ := None; HashPasswd p s := inl (s +:+ p) |}.

Definition demo_client (name : string) (admin : bool) : Client :=
  {| c_Name := name; c_NodeName := name; c_JSONClass := "Chef::ApiClient"; c_ChefType := "client";
     c_Validator := false; c_Orgname := EmptyString; c_pubKey := "key"; c_Admin := admin;
     c_Certificate := EmptyString |}.

Definition demo_user (name : string) (admin : bool) : User :=
  {| u_Username := name; u_Name := name; u_Email := EmptyString; u_Admin := admin; u_pubKey := "key";
     u_passwd := EmptyString; u_salt := "salt" |}.

Definition no_actors : world (absStore object) (list string) := {| sto := ∅; index := Initialize; pending := []; tasks := [] |}.

Definition two_admins : world (absStore object) (list string) :=
  match (w ← Clients.Save default_conf no_actors (demo_client "root" true);
         w ← Clients.Save default_conf w (demo_client "boss" true); Users.Save w (demo_user "ann" true)) with
  | Ok w => w
  | _ => no_actors
  end.

Lemma two_admins_steps : rtc (actor_step default_conf) no_actors two_admins.
Proof.
  unfold two_admins.
  destruct (Clients.Save default_conf no_actors (demo_client "root" true)) as [w1| |] eqn:E1; [|apply rtc_refl..].
  cbn [mbind outcome_bind].
  destruct (Clients.Save default_conf w1 (demo_client "boss" true)) as [w2| |] eqn:E2; [|apply rtc_refl..].
  cbn [mbind outcome_bind].
  destruct (Users.Save w2 (demo_user "ann" true)) as [w3| |] eqn:E3; [|apply rtc_refl..].
  eapply rtc_l; [eapply as_client_save, E1|]. eapply rtc_l; [eapply as_client_save, E2|].
  eapply rtc_l; [eapply as_user_save, E3|]. apply rtc_refl.
Qed.

Lemma no_actors_inv : actors_inv no_actors.
Proof.
  split; [intros t k v; simpl; by rewrite lookup_empty|intros k o; simpl; by rewrite lookup_empty..|].
  intros k. left. unfold load. simpl. by rewrite lookup_empty.
Qed.

Lemma two_admins_inv : actors_inv two_admins.
Proof. eapply actor_steps_inv; [apply no_actors_inv|apply two_admins_steps]. Qed.

Lemma actor_names_disjoint_witness :
  is_ok (Clients.Get two_admins "root") = true ∧ ¬ ∃ u, Users.Get two_admins "root" = Ok u.
Proof.
  split; [vm_compute; reflexivity|]. intros Hu.
  apply (actor_names_disjoint default_conf no_actors two_admins "root").
  - apply no_actors_inv.
  - intros k. simpl. by rewrite lookup_empty.
  - intros k. simpl. by rewrite lookup_empty.
  - apply two_admins_steps.
  - split; [|done]. eexists. vm_compute. reflexivity.
Defined.

Lemma last_admin_stays_witness :
  ∃ w' c', Clients.Delete two_admins (demo_client "boss" true) = Ok w' ∧
    Clients.Get w' (c_Name c') = Ok c' ∧ c_Admin c' = true.
Proof.
  destruct (Clients.Delete two_admins (demo_client "boss" true)) as [w'| |] eqn:E;
    [|assert (is_ok (Clients.Delete two_admins (demo_client "boss" true)) = true) as Hk by (vm_compute; reflexivity);
      by rewrite E in Hk..].
  destruct (last_admin_stays two_admins (demo_client "boss" true) (demo_user "ann" true) two_admins_inv) as [H _].
  destruct (H w') as (c' & Hg & Ha); [vm_compute; reflexivity|reflexivity|exact E|].
  exists w', c'. split; [reflexivity|]. split; [exact Hg|exact Ha].
Defined.

Lemma client_update_valid_witness :
  ∃ c', Clients.UpdateFromJSON two_admins (demo_client "boss" true) [("name", IStr "boss"); ("validator", IBool true)] = Ok c' ∧
    ¬ (c_Admin c' = true ∧ c_Validator c' = true).
Proof.
  destruct (Clients.UpdateFromJSON two_admins (demo_client "boss" true) [("name", IStr "boss"); ("validator", IBool true)])
    as [c'| |] eqn:E; [|vm_compute in E; discriminate..].
  exists c'. split; [done|]. by apply (client_update_valid _ _ _ c' E).
Defined.

Lemma password_roundtrip_witness :
  ∃ u', Users.SetPasswd (demo_user "ann" true) "secret!" = Ok u' ∧ Users.CheckPasswd u' "secret!" = Ok ().
Proof.
  assert (Users.SetPasswd (demo_user "ann" true) "secret!" =
    Ok (with_passwd (demo_user "ann" true) "saltsecret!")) as E by (vm_compute; reflexivity).
  eexists. split; [exact E|].
  by destruct (password_roundtrip (demo_user "ann" true) _ "secret!" "secret!" E) as (_ & ? & _).
Defined.

Definition auth_conf : Conf := {|
  UseSSL := false; HTTPSUrls := false; ProxyHostname := "localhost"; ProxyPort := 4545;
  UsePostgreSQL := false; DotSearch := false; ConvertSearch := false; IndexValTrim := 0; UseAuth := true;
  LogEvents := false; SkipLogExtended := false; TimeSlewDur := 900000000000; JSONReqMaxSize := 1000000;
  ObjMaxSize := 10485760; DisableWebUI := false; UseShovey := false |}.

Lemma request_actor_exact_witness :
  match GetReqUser auth_conf two_admins "ann" with
  | Ok (AUser u) => u_Username u = "ann"
  | _ => False
  end.
Proof.
  pose proof (request_actor_exact auth_conf two_admins "ann" two_admins_inv eq_refl) as H.
  destruct (GetReqUser auth_conf two_admins "ann") as [[c|u]|e|p] eqn:E; try (vm_compute in E; discriminate).
  by destruct H as (_ & ? & _).
Defined.

(** An update that leaves "admin" out takes the rights of the last
    administrator away. *)
Example last_admin_demoted :
  let w := match Clients.Save default_conf no_actors (demo_client "root" true) with Ok w => w | _ => no_actors end in
  Clients.isLastAdmin w (demo_client "root" true) = Ok true ∧
  Clients.UpdateFromJSON w (demo_client "root" true) [("name", IStr "root")] = Ok (demo_client "root" false).
Proof. split; vm_compute; reflexivity. Qed.
