(* ===== verification/DataBags.v ===== *)
(** Data bags and their items (src/databag/databag.go). *)
From S2P Require Import Prelude Gerror Iface Config Store Objects UtilStrings Validations Flatten FileIndex World.

#[export] Instance databag_stored : Stored DataBag := {|
  s_type := "data_bag"; s_name := db_Name; s_inj := ODataBag;
  s_proj o := match o with ODataBag d => Some d | _ => None end; s_gob := id |}.

#[export] Instance databag_stored_laws : StoredLaws DataBag.
Proof. split; try done. by intros [] a [= ->]. Qed.

(** [strings.Replace(s, sub, "", 1)]. *)
Fixpoint remove_first (sub s : string) : string :=
  match strip sub s with
  | Some r => r
  | None => match s with String c s => String c (remove_first sub s) | EmptyString => EmptyString end
  end.

Section databags.
  Context (conf : Conf) {S T : Type} {O : StoreOps S object} {TO : TrieOps T}.
  Implicit Types (w : world S T) (db : DataBag) (dbi : DataBagItem).

(** * Definitions *)

Definition validateDataBagName (name : string) (dbi : bool) : outcome () :=
  ensure (ValidateDBagName name)
    (SetStatus (Errorf ("Field '" +:+ (if dbi then "id" else "name") +:+ "' invalid")) StatusBadRequest).

(** [New] makes the collection of the search index as well. *)
Definition New_ w (name : string) : outcome (world S T * DataBag) :=
  validateDataBagName name false ≫= λ _,
  found ← st_get (sto w) "data_bag" name;
  match found with
  | Some _ => Err (SetStatus (Errorf ("Data bag " +:+ name +:+ " already exists")) StatusConflict)
  | None => Ok (w_CreateNewCollection w name, {| db_Name := name; db_Items := [] |})
  end.

Definition not_found (name : string) : gerror :=
  SetStatus (Errorf ("Cannot load data bag " +:+ name)) StatusNotFound.

Definition Get w (dbName : string) : outcome DataBag :=
  o ← load (sto w) dbName;
  match o with Some db => Ok db | None => Err (not_found dbName) end.

Definition DoesExist w (dbName : string) : outcome bool :=
  o ← st_get (sto w) "data_bag" dbName; Ok (bool_decide (is_Some o)).

Definition Save w db : world S T := set_sto w (store (sto w) db).

Definition GetList w : outcome (list string) := st_list (sto w) "data_bag".

Definition AllDataBags w : outcome (list DataBag) := names ← GetList w; load_all (sto w) names.

Definition item_missing db (name : string) : gerror :=
  New ("data bag item " +:+ name +:+ " in " +:+ db_Name db +:+ " not found").

Definition GetDBItem db (dbItemName : string) : outcome DataBagItem :=
  match mlookup dbItemName (db_Items db) with
  | Some dbi => Ok dbi
  | None => Err (item_missing db dbItemName)
  end.

Definition DoesItemExist db (dbItemName : string) : bool :=
  bool_decide (is_Some (mlookup dbItemName (db_Items db))).

Definition GetMultiDBItems db (names : list string) : list DataBagItem :=
  omap (λ d, mlookup d (db_Items db)) names.

Definition AllDBItems db : list (string * DataBagItem) := db_Items db.

Definition ListDBItems db : list string := mkeys (db_Items db).

Definition NumDBItems db : nat := length (db_Items db).

Definition fullDBItemName db (dbItemName : string) : string :=
  "data_bag_item_" +:+ db_Name db +:+ "_" +:+ dbItemName.

(** ** Indexing *)

Definition item_DocID dbi : string :=
  match mget "id" (dbi_RawData dbi) with
  | IStr did => did
  | _ => remove_first (dbi_DataBagName dbi) (dbi_Name dbi)
  end.

Fixpoint flatten_raw (raw flatten : jmap) : outcome jmap :=
  match raw with
  | [] => Ok flatten
  | (key, v) :: r => subExpand ← DeepMerge conf key v; flatten_raw r (merge_into flatten subExpand)
  end.

Definition item_indexable dbi : Indexable :=
  {| DocID := item_DocID dbi; Index := dbi_DataBagName dbi; Flatten := flatten_raw (dbi_RawData dbi) [] |}.

(** ** Items *)

Definition set_items db (items : list (string * DataBagItem)) : DataBag :=
  {| db_Name := db_Name db; db_Items := items |}.

Definition NewDBItem w db (raw : jmap) : outcome (world S T * DataBag * DataBagItem) :=
  match mget "id" raw with
  | IStr dbiID =>
      if bool_decide (dbiID = EmptyString) then Err (Errorf "Field 'id' missing")
      else
        validateDataBagName dbiID true ≫= λ _,
        match GetDBItem db dbiID with
        | Ok _ => Err (SetStatus (Errorf ("Data Bag Item '" +:+ dbiID +:+ "' already exists in Data Bag '"
                    +:+ db_Name db +:+ "'.")) StatusConflict)
        | _ =>
            let dbi := {| dbi_Name := fullDBItemName db dbiID; dbi_ChefType := "data_bag_item";
                          dbi_JSONClass := "Chef::DataBagItem"; dbi_DataBagName := db_Name db;
                          dbi_RawData := raw |} in
            let db := set_items db (mset dbiID dbi (db_Items db)) in
            Ok (IndexObj (Save w db) (item_indexable dbi), db, dbi)
        end
  | _ => Err (Errorf "Field 'id' missing")
  end.

Definition UpdateDBItem w db (dbiID : string) (raw : jmap) : outcome (world S T * DataBag * DataBagItem) :=
  dbi ← GetDBItem db dbiID;
  let dbi := {| dbi_Name := dbi_Name dbi; dbi_ChefType := dbi_ChefType dbi; dbi_JSONClass := dbi_JSONClass dbi;
                dbi_DataBagName := dbi_DataBagName dbi; dbi_RawData := raw |} in
  let db := set_items db (mset dbiID dbi (db_Items db)) in
  Ok (IndexObj (Save w db) (item_indexable dbi), db, dbi).

Definition DeleteDBItem w db (dbItemName : string) : world S T * DataBag :=
  let db := set_items db (mdel dbItemName (db_Items db)) in
  (DeleteItemFromCollection (Save w db) (db_Name db) dbItemName, db).

(** [Delete]: the items go first, one by one, and the bag is saved each
    time. *)
Fixpoint delete_items w db (names : list string) : world S T * DataBag :=
  match names with
  | [] => (w, db)
  | n :: r => let '(w, db) := DeleteDBItem w db n in delete_items w db r
  end.

Definition Delete w db : world S T :=
  let '(w, _) := delete_items w db (ListDBItems db) in
  w_DeleteCollection (set_sto w (unstore (A := DataBag) (sto w) (db_Name db))) (db_Name db).

(** [RawDataBagJSON], after decoding: the raw data inside a full item. *)
Definition RawDataBagJSON (rawDbagItem : jmap) : outcome jmap :=
  match mlookup "raw_data" rawDbagItem with
  | None => Ok rawDbagItem
  | Some (IMap m) => Ok m
  | Some _ => Panic TypeAssertion
  end.

(** * Properties *)

Context {L : StoreLaws S object}.

Lemma delete_items_sto w db names :
  st_inv (sto w) →
  let '(w', db') := delete_items w db names in
  st_inv (sto w') ∧ db_Name db' = db_Name db ∧
  ∀ k, k ≠ db_Name db → load (A := DataBag) (sto w') k = load (sto w) k.
Proof.
  revert w db. induction names as [|n names IH]; intros w db Hi; simpl; [done|].
  specialize (IH (DeleteItemFromCollection (Save w (set_items db (mdel n (db_Items db)))) (db_Name db) n)
    (set_items db (mdel n (db_Items db)))).
  simpl in IH. destruct (delete_items _ _ names) as [w' db'].
  destruct IH as (H1 & H2 & H3); [by apply store_inv|]. split_and!; [done..|].
  intros k Hk. rewrite H3 by done. simpl. rewrite load_store by done. by rewrite bool_decide_false.
Qed.

(** Creating an item succeeds only for a valid id that the bag does not
    have yet; then the stored bag holds the item with its data under the id and
    every other item as before, no other bag changes, and the item is handed to
    the indexer under the bag's name and the id. *)
Theorem new_item_roundtrip w db (raw : jmap) w' db' dbi :
  st_inv (sto w) → NewDBItem w db raw = Ok (w', db', dbi) →
  ∃ id, mget "id" raw = IStr id ∧ ValidateDBagName id = true ∧ mlookup id (db_Items db) = None ∧
  Get w' (db_Name db) = Ok db' ∧ GetDBItem db' id = Ok dbi ∧ dbi_RawData dbi = raw ∧
  (∀ j, j ≠ id → GetDBItem db' j = GetDBItem db j) ∧
  (∀ k, k ≠ db_Name db → Get w' k = Get w k) ∧
  (∃ o, pending w' = pending w ++ [o] ∧ Index o = db_Name db ∧ DocID o = id).
Proof.
  intros Hi Hn. unfold NewDBItem in Hn. destruct (mget "id" raw) as [| |id| | | | | | |] eqn:Eid; try done.
  case_bool_decide; [done|]. apply bind_Ok in Hn as ([] & Hv & Hn).
  unfold validateDataBagName, ensure in Hv. destruct (ValidateDBagName id) eqn:Ev; [|done].
  unfold GetDBItem in Hn. destruct (mlookup id (db_Items db)) eqn:El; [done|]. injection Hn as <- <- <-.
  exists id. split_and!; try done.
  - unfold Get. simpl. rewrite load_store by done. by rewrite bool_decide_true.
  - unfold GetDBItem. simpl. by rewrite mlookup_mset, bool_decide_true.
  - intros j Hj. unfold GetDBItem. simpl. rewrite mlookup_mset, bool_decide_false by done. done.
  - intros k Hk. unfold Get. simpl. rewrite load_store by done. by rewrite bool_decide_false.
  - eexists. split; [done|]. split; [done|]. simpl. unfold item_DocID. simpl. by rewrite Eid.
Qed.

(** Deleting an item removes exactly that item from the stored bag;
    deleting a bag makes it and its collection disappear, unless the collection
    is a built-in one, and leaves every other bag as it was. *)
Theorem delete_databag_exact w db (id k : string) :
  st_inv (sto w) → wf_map (db_Items db) →
  (let '(w1, db1) := DeleteDBItem w db id in
   Get w1 (db_Name db) = Ok db1 ∧
   ∀ j, mlookup j (db_Items db1) = if bool_decide (j = id) then None else mlookup j (db_Items db)) ∧
  Get (Delete w db) k = (if bool_decide (k = db_Name db) then Err (not_found k) else Get w k) ∧
  (db_Name db ∉ default_names → idxmap (index (Delete w db)) !! db_Name db = None).
Proof.
  intros Hi Hw. split_and!.
  - unfold DeleteDBItem. simpl. split.
    + unfold Get. simpl. rewrite load_store by done. by rewrite bool_decide_true.
    + intros j. by apply mlookup_mdel.
  - unfold Delete. pose proof (delete_items_sto w db (ListDBItems db) Hi) as Hd.
    destruct (delete_items w db (ListDBItems db)) as [w' db']. destruct Hd as (Hi' & _ & Ho).
    assert (sto (w_DeleteCollection (set_sto w' (unstore (A := DataBag) (sto w') (db_Name db))) (db_Name db)) =
      unstore (A := DataBag) (sto w') (db_Name db)) as Hs by (unfold w_DeleteCollection; by case_match).
    unfold Get. rewrite Hs, load_unstore by done. case_bool_decide as E; [by rewrite E|]. by rewrite Ho.
  - intros Hn. unfold Delete. destruct (delete_items w db (ListDBItems db)) as [w' db'].
    unfold w_DeleteCollection, DeleteCollection.
    rewrite bool_decide_false by (unfold default_names in Hn; set_solver). simpl. apply lookup_delete_eq.
Qed.
End databags.

(** * Concrete bags *)

#[local] Existing Instances words_trie no_regexp.

Definition demo_bag : DataBag := {| db_Name := "users"; db_Items := [] |}.
Definition bag_world : world (absStore object) (list string) :=
  {| sto := ∅; index := Initialize; pending := []; tasks := [] |}.

Definition demo_raw : jmap := [("id", IStr "ann"); ("uid", INumber "7")].

Lemma new_item_roundtrip_witness :
  ∃ w' db' dbi, NewDBItem default_conf bag_world demo_bag demo_raw = Ok (w', db', dbi) ∧ GetDBItem db' "ann" = Ok dbi.
Proof.
  assert (is_ok (NewDBItem default_conf bag_world demo_bag demo_raw) = true) as Hok by (vm_compute; reflexivity).
  remember (NewDBItem default_conf bag_world demo_bag demo_raw) as m eqn:E. symmetry in E.
  destruct m as [[[w' db'] dbi]| |]; [|by simpl in Hok..]. clear Hok.
  exists w', db', dbi. split; [done|].
  destruct (new_item_roundtrip default_conf bag_world demo_bag demo_raw w' db' dbi) as (id & Hid & _ & _ & _ & Hg & _);
    [|exact E|by injection Hid as <-].
  intros t k v. simpl. by rewrite lookup_empty.
Defined.

Lemma delete_databag_exact_witness :
  Get (Delete bag_world demo_bag) "users" = Err (not_found "users").
Proof.
  destruct (delete_databag_exact bag_world demo_bag "ann" "users") as (_ & H & _).
  - intros t k v. simpl. by rewrite lookup_empty.
  - constructor.
  - exact H.
Defined.
