(* ===== verification/Reports.v ===== *)
(** Reports on the runs of chef clients (src/report/report.go): a run is
    started, ended with its results, listed by time and status, and cleaned
    out by age.  The counters of [registerMetrics] are not described. *)
From S2P Require Import Prelude Gerror Iface Config Store Objects UtilStrings SortSearch Validations Flatten FileIndex.
From S2P Require Import World Expiry.

#[export] Instance report_stored : Stored Report := {|
  s_type := "report"; s_name := rp_RunID; s_inj := OReport;
  s_proj o := match o with OReport r => Some r | _ => None end; s_gob := gob_report |}.

#[export] Instance report_stored_laws : StoredLaws Report.
Proof. split; try done. by intros [] a [= ->]. Qed.

(** [time.Parse] with the layout of the reports, whether [uuid.Parse] reads a
    run id, and [time.Time.String]. *)
Class ReportFormats : Type := {
  ParseReportTime : string → Z + string;
  uuid_Parse : string → bool;
  TimeString : Z → string;
}.

Section reports.
  Context {RF : ReportFormats} {S : Type} {O : StoreOps S object}.
  Implicit Types (s : S) (r : Report).

(** * Definitions *)

Definition New_ s (runID nodeName : string) : outcome Report :=
  found ← st_get s "report" runID;
  match found with
  | Some _ => Err (SetStatus (Errorf "Report already exists") StatusConflict)
  | None =>
      if uuid_Parse runID then
        Ok {| rp_RunID := runID; rp_StartTime := zero_time; rp_EndTime := zero_time; rp_TotalResCount := 0;
              rp_Status := "started"; rp_RunList := EmptyString; rp_Resources := []; rp_Data := [];
              rp_NodeName := nodeName |}
      else Err (SetStatus (Errorf "run id was not a valid uuid") StatusBadRequest)
  end.

Definition not_found (runID : string) : gerror :=
  SetStatus (Errorf ("Report " +:+ runID +:+ " not found")) StatusNotFound.

Definition Get s (runID : string) : outcome Report :=
  o ← load s runID;
  match o with Some r => Ok r | None => Err (not_found runID) end.

Definition Save s r : S := store s r.

Definition Delete s r : S := unstore (A := Report) s (rp_RunID r).

Definition GetList s : outcome (list string) := st_list s "report".

Definition AllReports s : outcome (list Report) := names ← GetList s; load_all s names.

(** [ByTime]: by the end of the run. *)
Definition end_less (a b : Report) : bool := (rp_EndTime a <? rp_EndTime b)%Z.

Definition DeleteByAge s (now dur : Z) : outcome (S * nat) :=
  reports ← AllReports s;
  let sorted := go_sort end_less reports in
  let now := (now - dur)%Z in
  match sorted with
  | [] => Ok (s, 0%nat)
  | r0 :: _ =>
      if (now <? rp_EndTime r0)%Z then Ok (s, 0%nat)
      else
        let i := sort_Search (length sorted)
                   (λ i, match sorted !! i with Some r => (now <? rp_EndTime r)%Z | None => true end) in
        Ok (foldl Delete s (take i sorted), i)
  end.

Definition set_start r (t : Z) : Report :=
  {| rp_RunID := rp_RunID r; rp_StartTime := t; rp_EndTime := rp_EndTime r; rp_TotalResCount := rp_TotalResCount r;
     rp_Status := rp_Status r; rp_RunList := rp_RunList r; rp_Resources := rp_Resources r; rp_Data := rp_Data r;
     rp_NodeName := rp_NodeName r |}.

(** The field "action", which has one legal value. *)
Definition check_action (json : jmap) (legal : string) : outcome () :=
  match mget "action" json with
  | IStr action => ensure (bool_decide (action = legal)) (Errorf ("invalid action " +:+ action))
  | _ => Err (Errorf "invalid action")
  end.

(** A time in the layout of the reports. *)
Definition time_field (json : jmap) (key text : string) : outcome Z :=
  match mget key json with
  | IStr t => match ParseReportTime t with inl v => Ok v | inr e => Err (CastErr e) end
  | _ => Err (Errorf text)
  end.

Definition NewFromJSON s (nodeName : string) (json : jmap) : outcome Report :=
  match mget "run_id" json with
  | IStr rid =>
      check_action json "start" ≫= λ _,
      startTime ← time_field json "start_time" "invalid start time";
      report ← New_ s rid nodeName;
      Ok (set_start report startTime)
  | _ => Err (SetStatus (Errorf "invalid run id") StatusBadRequest)
  end.

(** The number of resources: a JSON number or a string. *)
Definition res_count (v : iface) : outcome Z :=
  let convert (fn t : string) :=
    match ParseInt10 t with
    | (n, None) => Ok n
    | (_, Some e) => Err (Errorf ("Error converting " +:+ fmt_v v +:+ " to int: " +:+ num_error_text fn t e))
    end in
  match v with
  | INumber t => convert "ParseInt" t
  | IStr t => convert "Atoi" t
  | _ => Err (Errorf ("invalid total_res_count " +:+ go_type v))
  end.

Definition valid_statuses : list string := ["success"; "failure"; "started"].

Definition status_field (json : jmap) : outcome string :=
  match mget "status" json with
  | IStr status => if bool_decide (status ∈ valid_statuses) then Ok status
                   else Err (Errorf ("invalid status " +:+ status))
  | _ => Err (Errorf "invalid status")
  end.

Definition UpdateFromJSON r (json : jmap) : outcome Report :=
  check_action json "end" ≫= λ _,
  endTime ← time_field json "end_time" "invalid end time";
  trc ← res_count (mget "total_res_count" json);
  status ← status_field json;
  run_list ← (match mget "run_list" json with IStr l => Ok l | _ => Err (Errorf "invalid run_list") end);
  resources ← (match mget "resources" json with
               | IArr l => Ok l
               | v => Err (Errorf ("invalid resources " +:+ go_type v))
               end);
  data ← (match mget "data" json with IMap m => Ok m | _ => Err (Errorf "invalid data") end);
  Ok {| rp_RunID := rp_RunID r; rp_StartTime := rp_StartTime r; rp_EndTime := endTime; rp_TotalResCount := trc;
        rp_Status := status; rp_RunList := run_list; rp_Resources := resources; rp_Data := data;
        rp_NodeName := rp_NodeName r |}.

Definition checkTimeRange r (from until : Z) : bool := (from <? rp_StartTime r)%Z && (rp_StartTime r <? until)%Z.

Definition status_ok (status : string) r : bool :=
  bool_decide (status = EmptyString) || bool_decide (rp_Status r = status).

(** The loop of [GetReportList], with [i] reports taken so far. *)
Fixpoint report_loop s (from until rows : Z) (status : string) (names : list string) (i : Z) : outcome (list Report) :=
  match names with
  | [] => Ok []
  | k :: names =>
      o ← load s k;
      let hit := match o with Some r => checkTimeRange r from until && status_ok status r | None => false end in
      let i := if hit then (i + 1)%Z else i in
      l ← (if (rows <? i)%Z then Ok [] else report_loop s from until rows status names i);
      Ok (match o with Some r => if hit then r :: l else l | None => l end)
  end.

Definition GetReportList s (from until rows : Z) (status : string) : outcome (list Report) :=
  names ← GetList s; report_loop s from until rows status names 0.

Definition GetNodeList s (nodeName : string) (from until rows : Z) (status : string) : outcome (list Report) :=
  reports ← GetReportList s from until rows status;
  Ok (List.filter (λ r, bool_decide (nodeName = rp_NodeName r) && status_ok status r) reports).
End reports.

(** * Properties *)

Section facts.
  Context {RF : ReportFormats} {S : Type} {O : StoreOps S object} {L : StoreLaws S object}.
  Implicit Types (s : S) (r : Report).

(** The reports a list asks for. *)
Definition listed (from until : Z) (status : string) r : bool := checkTimeRange r from until && status_ok status r.

Lemma report_loop_spec s from until rows status names all i :
  load_all s names = Ok all → (0 ≤ i ≤ rows)%Z →
  report_loop s from until rows status names i =
    Ok (take (Z.to_nat (rows + 1 - i)) (List.filter (listed from until status) all)).
Proof.
  revert all i. induction names as [|k names IH]; intros all i Hl Hi; simpl in *.
  { injection Hl as <-. simpl. by rewrite take_nil. }
  apply bind_Ok in Hl as (o & Ho & Hl). apply bind_Ok in Hl as (l & Hl & [= <-]). rewrite Ho. simpl.
  destruct o as [r|]; [|rewrite (proj2 (Z.ltb_ge rows i)) by lia; by rewrite (IH l i)].
  simpl. fold (listed from until status r). destruct (listed from until status r); simpl.
  - destruct (rows <? i + 1)%Z eqn:E.
    + apply Z.ltb_lt in E. replace (Z.to_nat (rows + 1 - i)) with 1%nat by lia. done.
    + apply Z.ltb_ge in E. rewrite (IH l) by (done || lia). simpl.
      replace (Z.to_nat (rows + 1 - i)) with (Datatypes.S (Z.to_nat (rows + 1 - (i + 1)))) by lia. done.
  - rewrite (proj2 (Z.ltb_ge rows i)) by lia. by rewrite (IH l).
Qed.

(** The list of reports holds the reports that began strictly between the
    two times and have the status asked for, in the order of the store, cut
    after one more than the number of rows; the list of a node's reports is
    the node's part of that list, so that reports of other nodes take up its
    rows. *)
Theorem report_lists_exact s nodeName from until rows status :
  st_inv s → kind_wf (A := Report) s → (0 ≤ rows)%Z →
  ∃ all, AllReports s = Ok all ∧ (∀ r, r ∈ all ↔ Get s (rp_RunID r) = Ok r) ∧
  let l := take (Z.to_nat (rows + 1)) (List.filter (listed from until status) all) in
  GetReportList s from until rows status = Ok l ∧
  GetNodeList s nodeName from until rows status = Ok (List.filter (λ r, bool_decide (nodeName = rp_NodeName r)) l).
Proof.
  intros Hi Hw Hr. destruct (load_list_spec (A := Report) s Hi Hw) as (all & Hall & Hin). exists all.
  split; [exact Hall|]. split.
  { intros r. rewrite Hin. unfold Get. simpl.
    destruct (load (A := Report) s (rp_RunID r)) as [[?|]| |]; simpl; naive_solver. }
  intros l. assert (GetReportList s from until rows status = Ok l) as Hl.
  { apply bind_Ok in Hall as (names & Hn & Hall). unfold GetReportList, GetList. change (s_type Report) with "report" in Hn.
    rewrite Hn. simpl. rewrite (report_loop_spec s from until rows status names all 0) by (done || lia).
    unfold l. by rewrite Z.sub_0_r. }
  split; [done|]. unfold GetNodeList. rewrite Hl. simpl. f_equal. apply List.filter_ext_in.
  intros r Hin'. apply list_elem_of_In in Hin'. unfold l in Hin'.
  assert (r ∈ List.filter (listed from until status) all) as Hf
    by (rewrite <-(take_drop (Z.to_nat (rows + 1)) (List.filter _ all)); set_solver).
  apply list_elem_of_In, List.filter_In in Hf as [_ Hf]. unfold listed in Hf. apply andb_prop in Hf as [_ ->].
  by rewrite andb_true_r.
Qed.

(** Removing the reports older than a duration removes exactly those whose
    run ended at or before that time, and counts them; a run that has not
    ended has the zero time for its end and is removed as well. *)
Theorem report_purge_exact s now dur :
  st_inv s → kind_wf (A := Report) s →
  ∃ s' n all, DeleteByAge s now dur = Ok (s', n) ∧ AllReports s = Ok all ∧
  n = length (filter (λ r, (rp_EndTime r ≤ now - dur)%Z) all) ∧
  ∀ k r, load (A := Report) s' k = Ok (Some r) ↔ load s k = Ok (Some r) ∧ (now - dur < rp_EndTime r)%Z.
Proof.
  intros Hi Hw. destruct (load_list_spec (A := Report) s Hi Hw) as (all & Hall & _).
  destruct (expire_spec rp_EndTime s (now - dur + 1) all Hi Hw Hall) as [Hcount Hload].
  unfold DeleteByAge. assert (AllReports s = Ok all) as -> by exact Hall. simpl.
  pose proof (cut_none rp_EndTime (now - dur + 1) all) as Hnone. cbv zeta in *.
  change (go_sort end_less all) with (go_sort (key_less rp_EndTime) all).
  set (l := go_sort (key_less rp_EndTime) all) in *. unfold expire in Hload.
  assert (length (filter (λ r, (rp_EndTime r ≤ now - dur)%Z) all) =
          length (filter (λ r, (rp_EndTime r < now - dur + 1)%Z) all)) as Hf.
  { f_equal. apply list_filter_iff. intros r. lia. }
  assert (∀ s' n, (∀ k r, load (A := Report) s' k = Ok (Some r) ↔ load s k = Ok (Some r) ∧ (now - dur + 1 ≤ rp_EndTime r)%Z) →
    n = length (filter (λ r, (rp_EndTime r < now - dur + 1)%Z) all) →
    ∃ s'' n' all', Ok (s', n) = Ok (s'', n') ∧ Ok all = Ok all' ∧
      n' = length (filter (λ r, (rp_EndTime r ≤ now - dur)%Z) all') ∧
      ∀ k r, load (A := Report) s'' k = Ok (Some r) ↔ load s k = Ok (Some r) ∧ (now - dur < rp_EndTime r)%Z) as Hdone.
  { intros s' n Hs Hn. exists s', n, all. split_and!; [done..|by rewrite Hf|]. intros k r. rewrite Hs.
    split; intros [? ?]; (split; [done|lia]). }
  destruct l as [|r0 l'] eqn:El; [by apply Hdone|]. destruct (now - dur <? rp_EndTime r0)%Z eqn:Et.
  - rewrite Hnone in Hcount, Hload by (intros a [= <-]; apply Z.ltb_lt in Et; lia). by apply Hdone.
  - assert (sort_Search (length (r0 :: l')) (λ i, match (r0 :: l') !! i with
              | Some r => (now - dur <? rp_EndTime r)%Z | None => true end) = cut rp_EndTime (now - dur + 1) (r0 :: l')) as ->.
    { apply search_loop_ext. intros i. unfold at_least. destruct ((r0 :: l') !! i) as [r|]; [|done].
      destruct (Z.ltb_spec (now - dur) (rp_EndTime r)), (Z.leb_spec (now - dur + 1) (rp_EndTime r)); (done || lia). }
    by apply Hdone.
Qed.

Lemma get_save s r k :
  st_inv s → Get (Save s r) k = if bool_decide (k = rp_RunID r) then Ok (gob_report r) else Get s k.
Proof. intros Hi. unfold Get, Save. rewrite load_store by done. simpl. by case_bool_decide. Qed.

Lemma new_report_Ok s nodeName json r :
  st_inv s → NewFromJSON s nodeName json = Ok r →
  Get s (rp_RunID r) = Err (not_found (rp_RunID r)) ∧ mget "run_id" json = IStr (rp_RunID r) ∧
  uuid_Parse (rp_RunID r) = true ∧ rp_Status r = "started" ∧ rp_NodeName r = nodeName ∧ rp_EndTime r = zero_time.
Proof.
  intros Hi Hn. unfold NewFromJSON in Hn. destruct (mget "run_id" json) as [| |rid| | | | | | |] eqn:Eid; try done.
  apply bind_Ok in Hn as (_ & _ & Hn). apply bind_Ok in Hn as (t & _ & Hn). apply bind_Ok in Hn as (r' & Hr & [= <-]).
  unfold New_ in Hr. apply bind_Ok in Hr as ([|] & Hg & Hr); [done|]. destruct (uuid_Parse rid) eqn:Eu; [|done].
  injection Hr as <-. simpl. split_and!; try done. unfold Get, load. simpl. by rewrite Hg.
Qed.

Lemma update_report_Ok r json r' :
  UpdateFromJSON r json = Ok r' →
  rp_RunID r' = rp_RunID r ∧ rp_StartTime r' = rp_StartTime r ∧ rp_NodeName r' = rp_NodeName r ∧
  mget "status" json = IStr (rp_Status r') ∧ rp_Status r' ∈ valid_statuses ∧
  mget "run_list" json = IStr (rp_RunList r') ∧ mget "resources" json = IArr (rp_Resources r') ∧
  mget "data" json = IMap (rp_Data r').
Proof.
  intros Hu. unfold UpdateFromJSON, status_field in Hu. repeat (apply bind_Ok in Hu as (? & ? & Hu)).
  injection Hu as <-. simpl. repeat (case_match; try done). case_bool_decide; naive_solver.
Qed.

(** A run that is reported is recorded: its report is new, is started by
    the first upload under the run id and the node of the request and is there
    to be read, and the second upload completes it, with the start and the node
    of the first, and the status, resources and data of the second; no other
    report changes.  Its run list, though, is not kept. *)
Theorem report_run_recorded s nodeName json1 json2 r1 r2 :
  st_inv s → NewFromJSON s nodeName json1 = Ok r1 →
  let s1 := Save s r1 in
  Get s (rp_RunID r1) = Err (not_found (rp_RunID r1)) ∧
  Get s1 (rp_RunID r1) = Ok (gob_report r1) ∧ rp_Status r1 = "started" ∧
  (UpdateFromJSON (gob_report r1) json2 = Ok r2 →
   let s2 := Save s1 r2 in
   rp_RunID r2 = rp_RunID r1 ∧ rp_StartTime r2 = rp_StartTime r1 ∧ rp_NodeName r2 = nodeName ∧
   mget "status" json2 = IStr (rp_Status r2) ∧ mget "resources" json2 = IArr (rp_Resources r2) ∧
   mget "data" json2 = IMap (rp_Data r2) ∧
   (∀ k, Get s2 k = if bool_decide (k = rp_RunID r1) then Ok (gob_report r2) else Get s k) ∧
   rp_RunList (gob_report r2) = EmptyString).
Proof.
  intros Hi Hn s1. destruct (new_report_Ok s nodeName json1 r1 Hi Hn) as (Hg & _ & _ & Hst & Hnode & _).
  unfold s1. rewrite get_save, bool_decide_true by done. split_and!; try done.
  intros Hu. destruct (update_report_Ok _ _ _ Hu) as (Hid & Ht & Hnn & Hs & _ & _ & Hrs & Hd). simpl in *.
  split_and!; try done; [by rewrite Hnn|]. intros k. rewrite !get_save, Hid by (done || by apply store_inv).
  by case_bool_decide.
Qed.
End facts.

(** * Concrete reports *)

(** Times in seconds, and any run id. *)
#[local] Instance demo_formats : ReportFormats := {|
  ParseReportTime t := match ParseInt10 t with (v, None) => inl (time_Unix v) | _ => inr "bad time" end;
  uuid_Parse _ := true; TimeString _ := "time" |}.

Definition start_json (id t : string) : jmap :=
  [("run_id", IStr id); ("action", IStr "start"); ("start_time", IStr t)].

Definition end_json (t status : string) : jmap :=
  [("action", IStr "end"); ("end_time", IStr t); ("total_res_count", INumber "3"); ("status", IStr status);
   ("run_list", IStr "recipe[web]"); ("resources", IArr []); ("data", IMap [])].

Definition demo_report (id t : string) : Report :=
  match NewFromJSON (∅ : absStore object) "web1" (start_json id t) with
  | Ok r => r
  | _ => set_start (gob_report {| rp_RunID := id; rp_StartTime := 0; rp_EndTime := 0; rp_TotalResCount := 0;
                      rp_Status := ""; rp_RunList := ""; rp_Resources := []; rp_Data := []; rp_NodeName := "" |}) 0
  end.

Definition demo_reports (l : list (string * string)) : absStore object :=
  foldl (λ s it, Save s (demo_report it.1 it.2)) ∅ l.

Lemma demo_reports_inv l :
  st_inv (demo_reports l) ∧ kind_wf (A := Report) (demo_reports l).
Proof.
  unfold demo_reports. assert (st_inv (∅ : absStore object) ∧ kind_wf (A := Report) (∅ : absStore object)) as H0.
  { split; [intros t k v; simpl; by rewrite lookup_empty|]. intros k o. simpl. by rewrite lookup_empty. }
  revert H0. generalize (∅ : absStore object). induction l as [|it l IH]; intros s [Hi Hw]; [done|]. cbn [foldl].
  apply IH. split; [by apply (store_inv (A := Report))|by apply (store_kind_wf (A := Report))].
Qed.

Lemma report_lists_exact_witness :
  ∃ l, GetReportList (demo_reports [("a", "10"); ("b", "20"); ("c", "30")]) 0 (time_Unix 60) 1 "" = Ok l ∧ length l = 2%nat.
Proof.
  destruct (demo_reports_inv [("a", "10"); ("b", "20"); ("c", "30")]) as [Hi Hw].
  destruct (report_lists_exact _ "web1" 0 (time_Unix 60) 1 "" Hi Hw) as (all & Hall & _ & Hl & _); [done|].
  eexists. split; [exact Hl|].
  vm_compute in Hall. injection Hall as <-. by vm_compute.
Defined.

Lemma report_purge_exact_witness :
  ∃ s' n, DeleteByAge (demo_reports [("a", "10")]) (time_Unix 100) 3600 = Ok (s', n) ∧ n = 1%nat ∧
    load (A := Report) s' "a" ≠ Ok (Some (demo_report "a" "10")).
Proof.
  destruct (demo_reports_inv [("a", "10")]) as [Hi Hw].
  destruct (report_purge_exact _ (time_Unix 100) 3600 Hi Hw) as (s' & n & all & Hd & Hall & Hn & Hload).
  exists s', n. split; [exact Hd|]. vm_compute in Hall. injection Hall as <-. split; [by rewrite Hn; vm_compute|].
  rewrite Hload. intros [_ Hlt]. by vm_compute in Hlt.
Defined.

Lemma report_run_recorded_witness :
  ∃ r2, UpdateFromJSON (gob_report (demo_report "a" "10")) (end_json "20" "success") = Ok r2 ∧
    Get (Save (Save ∅ (demo_report "a" "10")) r2) "a" = Ok (gob_report r2) ∧ rp_RunList r2 = "recipe[web]".
Proof.
  destruct (report_run_recorded ∅ "web1" (start_json "a" "10") (end_json "20" "success") (demo_report "a" "10")
    {| rp_RunID := "a"; rp_StartTime := time_Unix 10; rp_EndTime := time_Unix 20; rp_TotalResCount := 3;
       rp_Status := "success"; rp_RunList := "recipe[web]"; rp_Resources := []; rp_Data := []; rp_NodeName := "web1" |})
    as (_ & _ & _ & Hu); [apply (demo_reports_inv [])|by vm_compute|].
  destruct Hu as (_ & _ & _ & _ & _ & _ & Hg & _); [by vm_compute|].
  eexists. split; [by vm_compute|]. split; [exact (Hg "a")|done].
Defined.

(** A run that is still going on is removed, although reports are kept for a
    day. *)
Theorem running_report_purged :
  DeleteByAge (demo_reports [("a", "10")]) (time_Unix 100) (time_Unix 86400) = Ok (∅, 1%nat).
Proof. by vm_compute. Qed.
