(* ===== verification/Loginfo.v ===== *)
(** Logged events (src/loginfo/log_info.go) over the log table of the data
    store, and the names and types of the objects they are about. *)
From S2P Require Import Prelude Gerror Iface Config Store Datastore Tables UtilStrings Objects Validations Flatten.
From S2P Require Import FileIndex World Nodes Roles Environments Sandboxes Clients Users DataBags.

(** * Objects with a name *)

(** The dynamic types of a [util.GoiardiObj]. *)
Inductive GoiardiObj : Type :=
| GNode (n : Node)
| GRole (r : Role)
| GEnv (e : ChefEnvironment)
| GCookbook (c : Cookbook)
| GCbVersion (v : CookbookVersion)
| GDataBag (d : DataBag)
| GItem (i : DataBagItem)
| GClient (c : Client)
| GUser (u : User).

Definition GetName (o : GoiardiObj) : string :=
  match o with
  | GNode n => n_Name n
  | GRole r => r_Name r
  | GEnv e => e_Name e
  | GCookbook c => cb_Name c
  | GCbVersion v => cbv_Name v
  | GDataBag d => db_Name d
  | GItem i => item_DocID i
  | GClient c => c_Name c
  | GUser u => u_Username u
  end.

(** [reflect.TypeOf(obj).String()]. *)
Definition TypeOf (o : GoiardiObj) : string :=
  match o with
  | GNode _ => "*node.Node"
  | GRole _ => "*role.Role"
  | GEnv _ => "*environment.ChefEnvironment"
  | GCookbook _ => "*cookbook.Cookbook"
  | GCbVersion _ => "*cookbook.CookbookVersion"
  | GDataBag _ => "*databag.DataBag"
  | GItem _ => "*databag.DataBagItem"
  | GClient _ => "*client.Client"
  | GUser _ => "*user.User"
  end.

(** The methods of the interface [actor.Actor] that do not depend on the
    configuration. *)
Definition IsUser (a : Actor) : bool := match a with AUser _ => true | AClient _ => false end.
Definition actor_GetName (a : Actor) : string :=
  match a with AClient c => c_Name c | AUser u => u_Username u end.

(** The JSON texts that are kept with an event, and times as text, in RFC 3339
    format, as JSON, and in the format of the sandboxes. *)
Class Encoder : Type := {
  EncodeToJSON : GoiardiObj → string;
  encode_actor : Actor → string;
  FormatTime : Z → string;
  MarshalTime : Z → string;
  FormatSandboxTime : Z → string;
}.

Section loginfo.
  Context (conf : Conf) {EN : Encoder} {S T : Type} {TB : TableOps S object}.
  Implicit Types (w : world S T) (s : S) (le : LogInfo).

(** * Definitions *)

(** [LogEvent], at the time [now]. *)
Definition LogEvent w (doer : Actor) (obj : GoiardiObj) (action : string) (now : Z) : outcome (world S T) :=
  if negb (LogEvents conf) then Ok w
  else
    let le := {| li_Actor := doer; li_ActorInfo := encode_actor doer;
                 li_ActorType := if IsUser doer then "user" else "client"; li_Time := now; li_Action := action;
                 li_ObjectType := TypeOf obj; li_ObjectName := GetName obj;
                 li_ExtendedInfo := if SkipLogExtended conf then EmptyString else EncodeToJSON obj;
                 li_ID := 0 |} in
    s ← tb_set_log (sto w) (OLog le) None; Ok (set_sto w s).

Definition set_id le (id : Z) : LogInfo :=
  {| li_Actor := li_Actor le; li_ActorInfo := li_ActorInfo le; li_ActorType := li_ActorType le;
     li_Time := li_Time le; li_Action := li_Action le; li_ObjectType := li_ObjectType le;
     li_ObjectName := li_ObjectName le; li_ExtendedInfo := li_ExtendedInfo le; li_ID := id |}.

(** The type assertion on what the table holds. *)
Definition as_log (o : object) : outcome LogInfo :=
  match o with OLog le => Ok le | _ => Panic TypeAssertion end.

Definition Get s (id : Z) : outcome LogInfo :=
  o ← tb_log s id; le ← as_log o; Ok (set_id le id).

Definition DoesExist s (eventID : string) : outcome bool :=
  match ParseInt10 eventID with
  | (_, Some e) => Err (CastErr (num_error_text "Atoi" eventID e))
  | (id, None) =>
      match tb_log s id with
      | Ok _ => Ok true
      | Err e => Err (CastErr (Error e))
      | Panic p => Panic p
      end
  end.

Definition Delete s le : outcome S := tb_delete_log s (li_ID le).

Definition PurgeLogInfos s (id : Z) : outcome (Z * S) := tb_purge s id.

Definition checkTimeRange le (from until : Z) : bool := (from <? li_Time le)%Z && (li_Time le <? until)%Z.

(** A bound given in seconds, or the default. *)
Definition time_param (params : list (string * string)) (key : string) (dflt : Z) : outcome Z :=
  match mlookup key params with
  | None => Ok dflt
  | Some f =>
      match ParseInt10 f with
      | (v, None) => Ok (time_Unix v)
      | (_, Some e) => Err (New (num_error_text "ParseInt" f e))
      end
  end.

(** [strings.Title], for ASCII text. *)
Fixpoint Title_from (start : bool) (t : string) : string :=
  match t with
  | EmptyString => EmptyString
  | String c r =>
      String (if start && is_lower c then Ascii.ascii_of_N (Ascii.N_of_ascii c - 32) else c)
             (Title_from (negb (is_word c)) r)
  end.

(** The name of a type as it is logged. *)
Definition object_type (ot : string) : string :=
  if str_any (λ c, str_mem c "*.") ot then ot
  else if bool_decide (ot = "environment") then "*environment.ChefEnvironment"
  else if bool_decide (ot = "cookbook_version") then "*cookbook.CookbookVersion"
  else "*" +:+ ot +:+ "." +:+ Title_from true ot.

Definition type_param (params : list (string * string)) : list (string * string) :=
  match mlookup "object_type" params with
  | Some ot => mset "object_type" (object_type ot) params
  | None => params
  end.

Definition param_ok (params : list (string * string)) (key value : string) : bool :=
  let p := default EmptyString (mlookup key params) in
  bool_decide (p = EmptyString) || bool_decide (p = value).

Definition event_ok (params : list (string * string)) (from until : Z) le : bool :=
  checkTimeRange le from until && param_ok params "action" (li_Action le)
  && param_ok params "object_type" (li_ObjectType le) && param_ok params "object_name" (li_ObjectName le)
  && param_ok params "doer" (actor_GetName (li_Actor le)).

(** The loop over the ids, greatest first. *)
Fixpoint select_events (params : list (string * string)) (from until : Z) (arr : gmap Z object) (keys : list Z)
    : outcome (list LogInfo) :=
  match keys with
  | [] => Ok []
  | i :: r =>
      match arr !! i with
      | None => select_events params from until arr r
      | Some o =>
          le ← as_log o; rest ← select_events params from until arr r;
          Ok (if event_ok params from until le then set_id le i :: rest else rest)
      end
  end.

Definition log_keys (arr : gmap Z object) : list Z := go_sort (reverse_less Z.ltb) ((map_to_list arr).*1).

(** [lis[offset:limit]], where [lis] has [len] slots of which the matches
    fill the first; slicing beyond its ends panics. *)
Definition page (lis : list LogInfo) (len : Z) (offset : Z) (limit : option Z) : outcome (list LogInfo) :=
  let n := Z.of_nat (length lis) in
  let limit := match limit with Some l => Z.min (wrap64 (offset + l)) len | None => len end in
  let limit := Z.min n limit in
  if ((0 <=? offset) && (offset <=? limit))%Z
  then Ok (take (Z.to_nat (limit - offset)) (drop (Z.to_nat offset) lis))
  else Panic IndexOutOfRange.

(** [GetLogInfos(params, offset, limit)] at the time [now]; the offset is 0
    when there is none. *)
Definition GetLogInfos s (now : Z) (params : list (string * string)) (offset : Z) (limit : option Z)
    : outcome (list LogInfo) :=
  from ← time_param params "from" 0;
  until ← time_param params "until" now;
  let params := type_param params in
  arr ← tb_logs s;
  lis ← select_events params from until arr (log_keys arr);
  if bool_decide (arr = ∅) then Ok [] else page lis (Z.of_nat (size arr)) offset limit.

Definition AllLogInfos s (now : Z) : outcome (list LogInfo) := GetLogInfos s now [] 0 None.
End loginfo.

(** * Pages of the log *)

Section pages.
  Context {S : Type} {TB : TableOps S object}.
  Implicit Types (s : S) (le : LogInfo) (logs : gmap Z LogInfo).

#[local] Instance newest_first : StrictWeak (reverse_less Z.ltb).
Proof. split; unfold reverse_less; intros *; rewrite ?Z.ltb_lt, ?Z.ltb_ge; lia. Qed.

(** The events that match, under their ids, the newest first. *)
Definition matches (params : list (string * string)) (from until : Z) logs : list LogInfo :=
  omap (λ i, le ← logs !! i; if event_ok params from until le then Some (set_id le i) else None)
    (go_sort (reverse_less Z.ltb) (map_to_list logs).*1).

Lemma select_matches params from until logs keys :
  select_events params from until (OLog <$> logs) keys =
  Ok (omap (λ i, le ← logs !! i; if event_ok params from until le then Some (set_id le i) else None) keys).
Proof.
  induction keys as [|i keys IH]; [done|]. simpl. rewrite lookup_fmap. destruct (logs !! i) as [le|]; simpl; [|done].
  rewrite IH. simpl. by destruct (event_ok params from until le).
Qed.

Lemma log_keys_fmap logs : log_keys (OLog <$> logs) = go_sort (reverse_less Z.ltb) (map_to_list logs).*1.
Proof.
  unfold log_keys. f_equal. rewrite map_to_list_fmap. rewrite <-list_fmap_compose. by apply list_fmap_ext.
Qed.

Lemma elem_of_matches params from until logs le :
  le ∈ matches params from until logs ↔
  ∃ i le0, logs !! i = Some le0 ∧ event_ok params from until le0 = true ∧ le = set_id le0 i.
Proof.
  unfold matches. rewrite list_elem_of_omap. setoid_rewrite elem_of_go_sort.
  setoid_rewrite list_elem_of_fmap. split.
  - intros (i & _ & Hi). destruct (logs !! i) as [le0|] eqn:E; simpl in Hi; [|done].
    destruct (event_ok params from until le0) eqn:Eo; [|done]. injection Hi as <-. eauto.
  - intros (i & le0 & Hi & Ho & ->). exists i. split.
    + exists (i, le0). split; [done|]. by apply elem_of_map_to_list.
    + rewrite Hi. simpl. by rewrite Ho.
Qed.

Lemma matches_sorted params from until logs :
  StronglySorted (λ x y, li_ID y < li_ID x)%Z (matches params from until logs).
Proof.
  unfold matches. assert (NoDup (go_sort (reverse_less Z.ltb) (map_to_list logs).*1)) as Hn.
  { rewrite go_sort_Permutation. apply NoDup_fst_map_to_list. }
  pose proof (go_sort_sorted (reverse_less Z.ltb) (map_to_list logs).*1) as Hs.
  induction Hs as [|i keys Hs IH Hf]; [constructor|]. apply NoDup_cons in Hn as [Hni Hn]. simpl.
  specialize (IH Hn). destruct (logs !! i) as [le|]; simpl; [|done]. destruct (event_ok params from until le); [|done].
  constructor; [done|]. rewrite Forall_forall. intros x (j & Hj & Hx)%list_elem_of_omap.
  destruct (logs !! j) as [le'|]; simpl in Hx; [|done]. destruct (event_ok params from until le'); [|done].
  injection Hx as <-. simpl. rewrite Forall_forall in Hf. specialize (Hf j Hj). unfold le_of, reverse_less in Hf.
  assert (i ≠ j) by (by intros ->). lia.
Qed.

Lemma matches_length params from until logs : length (matches params from until logs) ≤ size logs.
Proof.
  unfold matches. rewrite <-(length_map_to_list logs), <-(length_fmap fst (map_to_list logs)).
  rewrite <-(Permutation_length (go_sort_Permutation (reverse_less Z.ltb) (map_to_list logs).*1)).
  generalize (go_sort (reverse_less Z.ltb) (map_to_list logs).*1). intros keys.
  induction keys as [|i keys IH]; [done|]. cbn [omap list_omap length].
  destruct (logs !! i) as [le|]; simpl; [|by apply Nat.le_le_succ_r].
  destruct (event_ok params from until le); [by apply le_n_S|by apply Nat.le_le_succ_r].
Qed.

End pages.

Definition demo_event (name : string) (t : Z) : LogInfo :=
  {| li_Actor := AClient {| c_Name := "admin"; c_NodeName := "admin"; c_JSONClass := EmptyString; c_ChefType := "client";
       c_Validator := false; c_Orgname := EmptyString; c_pubKey := EmptyString; c_Admin := true;
       c_Certificate := EmptyString |};
     li_ActorInfo := EmptyString; li_ActorType := "client"; li_Time := t; li_Action := "create";
     li_ObjectType := "*node.Node"; li_ObjectName := name; li_ExtendedInfo := EmptyString; li_ID := 0 |}.

Definition demo_log : DataStore object :=
  match (ds ← SetLogInfo initDataStore (OLog (demo_event "web1" 5)) None; SetLogInfo ds (OLog (demo_event "web2" 6)) None) with
  | Ok ds => ds
  | _ => initDataStore
  end.

