(* ===== verification/Searches.v ===== *)
(** Searching (src/search/search.go): a query is parsed and executed, the
    objects of the documents found are loaded, reduced to the fields asked for,
    sorted and cut to a page.

    The fields of a partial search are read from maps that the search also
    writes to, so that the maps of a result are kept in a heap.  The keys of
    a partial search are taken in the order of the list. *)
From S2P Require Import Prelude Gerror Iface Config Store Objects UtilStrings Validations Flatten FileIndex Query.
From S2P Require Import QueryParser World Nodes Roles Environments Clients Users DataBags Loginfo.

(** [sort.Sort]: what its documentation promises. *)
Class SortImpl : Type := { sort_Sort : ∀ {A : Type}, (A → A → bool) → list A → list A }.

Class SortLaws `{SortImpl} : Prop := {
  sort_perm {A} (less : A → A → bool) l : sort_Sort less l ≡ₚ l;
  sort_ordered {A} (less : A → A → bool) l :
    (∀ x y, x ∈ l → y ∈ l → less x y = true → less y x = false) →
    (∀ x y z, x ∈ l → y ∈ l → z ∈ l → less y x = false → less z y = false → less z x = false) →
    StronglySorted (le_of less) (sort_Sort less l);
}.

(** * Sorting and paging *)

(** [results.Less]: a result with the key comes before one without, and only
    strings are compared. *)
Definition results_Less (sortKey : string) (i j : jmap) : bool :=
  match mget sortKey i, mget sortKey j with
  | INil, INil => true
  | INil, _ => false
  | _, INil => true
  | IStr x, IStr y => str_ltb x y
  | _, _ => false
  end.

(** [sortOrder]: the key and whether the order is descending. *)
Definition sort_key (sortOrder : string) : string :=
  match str_split " " sortOrder with
  | k :: _ => if bool_decide (k = "id") then "name" else k
  | [] => EmptyString
  end.

Definition descending (sortOrder : string) : bool :=
  match str_split " " sortOrder with
  | _ :: o :: _ => bool_decide (to_lower o = "desc")
  | _ => false
  end.

Definition sort_results {SI : SortImpl} (sortOrder : string) (res : list jmap) : list jmap :=
  let less := results_Less (sort_key sortOrder) in
  sort_Sort (if descending sortOrder then reverse_less less else less) res.

(** [res[start:end]]. *)
Definition page_of {A} (res : list A) (start rows : Z) : outcome (list A) :=
  let n := Z.of_nat (length res) in
  let end_ := wrap64 (start + rows) in
  let end_ := if (n <? end_)%Z then n else end_ in
  if (0 <=? start)%Z && (start <=? end_)%Z
  then Ok (take (Z.to_nat (end_ - start)) (drop (Z.to_nat start) res))
  else Panic IndexOutOfRange.

(** * Partial search *)

(** A value, whose maps are in the heap. *)
Inductive hval : Type := HV (v : iface) | HRef (a : nat).

Abbreviation hmap := (list (string * hval)).
Abbreviation heap := (list hmap).

Fixpoint alloc (v : iface) (h : heap) : hval * heap :=
  match v with
  | IMap m =>
      let '(l, h) :=
        (fix go (m : jmap) (h : heap) : hmap * heap :=
           match m with
           | [] => ([], h)
           | (k, x) :: m => let '(y, h) := alloc x h in let '(l, h) := go m h in ((k, y) :: l, h)
           end) m h in
      (HRef (length h), h ++ [l])
  | v => (HV v, h)
  end.

Fixpoint alloc_fields (m : jmap) (h : heap) : hmap * heap :=
  match m with
  | [] => ([], h)
  | (k, x) :: m => let '(y, h) := alloc x h in let '(l, h) := alloc_fields m h in ((k, y) :: l, h)
  end.

(** What is written in the response: the maps as they are in the end. *)
Fixpoint freeze (fuel : nat) (h : heap) (v : hval) : iface :=
  match v, fuel with
  | HV v, _ => v
  | HRef a, Datatypes.S fuel => IMap (map (λ kv, (kv.1, freeze fuel h kv.2)) (h !!! a))
  | HRef _, O => INil
  end.

Fixpoint walk (h : heap) (v : hval) (keys : list string) : hval :=
  match keys with
  | [] => HV INil
  | k :: rest =>
      match v with
      | HRef a =>
          match mlookup k (h !!! a) with
          | Some x => match rest with [] => x | _ => walk h x rest end
          | None => HV INil
          end
      | HV (IMapStr m) => HV (IStr (default EmptyString (mlookup k m)))
      | HV (IMapStrs m) => HV (IStrs (default [] (mlookup k m)))
      | HV x => match rest with [] => HV x | _ => HV INil end
      end
  end.

Definition keyRange : list string :=
  ["raw_data"; "default"; "default_attributes"; "normal"; "override"; "override_attributes"; "automatic"].

(** The value under one of the [keyRange] merged into what was found so far:
    a map into a map, and otherwise it takes its place, unless a map is there. *)
Definition merge_level (st : heap * hval) (tval : hval) : heap * hval :=
  let '(h, pval) := st in
  match tval, pval with
  | HV INil, _ => st
  | HRef t, HRef p => (<[p := foldl (λ m gh, mset gh.1 gh.2 m) (h !!! p) (h !!! t)]> h, pval)
  | HV _, HRef _ => st
  | _, HV _ => (h, tval)
  end.

(** The value of one key for a result. *)
Definition partial_value (j : hmap) (vals : list string) (h : heap) : heap * hval :=
  match vals with
  | [] => (h, HV INil)
  | k :: rest =>
      match mlookup k j with
      | Some step => (h, match rest with [] => step | _ => walk h step rest end)
      | None =>
          foldl (λ st r, merge_level st (walk st.1 (default (HV INil) (mlookup r j)) vals)) (h, HV INil) keyRange
      end
  end.

Fixpoint partial_values (j : hmap) (psearchKeys : list (string * list string)) (h : heap) : heap * hmap :=
  match psearchKeys with
  | [] => (h, [])
  | (key, vals) :: ks =>
      let '(h, v) := partial_value j vals h in
      let '(h, l) := partial_values j ks h in (h, mset key v l)
  end.

Definition partial_result (psearchKeys : list (string * list string)) (j : jmap) : jmap :=
  let '(fields, h) := alloc_fields j [] in
  let '(h, l) := partial_values fields psearchKeys h in
  map (λ kv, (kv.1, freeze (Datatypes.S (length h)) h kv.2)) l.

Definition badly_formatted (k : string) (v : iface) : gerror :=
  New ("Partial search key " +:+ k +:+ " badly formatted: " +:+ go_type v +:+ " " +:+ fmt_v v).

Fixpoint key_strings (k : string) (v : list iface) : outcome (list string) :=
  match v with
  | [] => Ok []
  | IStr j :: r => l ← key_strings k r; Ok (j :: l)
  | j :: _ => Err (badly_formatted k j)
  end.

Fixpoint partial_keys (partialFormat : jmap) : outcome (list (string * list string)) :=
  match partialFormat with
  | [] => Ok []
  | (k, v) :: r =>
      l ← (match v with
           | IArr v => key_strings k v
           | IStrs v => Ok v
           | v => Err (badly_formatted k v)
           end);
      ks ← partial_keys r; Ok ((k, l) :: ks)
  end.

Definition partialSearchFormat (results : list jmap) (partialFormat : jmap) : outcome (list jmap) :=
  psearchKeys ← partial_keys partialFormat; Ok (map (partial_result psearchKeys) results).

(** * Searching *)

Section search.
  Context (conf : Conf) (uniLN : string → bool) {S T : Type}.
  Context {OO : StoreOps S object} {TO : TrieOps T} {RE : Regexp} {SI : SortImpl}.
  Implicit Types (w : world S T).

(** [getResults]: the objects of the documents that are still stored. *)
Definition getResults w (variety : string) (toGet : list string) : outcome (list GoiardiObj) :=
  match toGet with
  | [] => Ok []
  | _ =>
      if bool_decide (variety = "node") then ns ← Nodes.GetMulti w toGet; Ok (map GNode ns)
      else if bool_decide (variety = "role") then rs ← Roles.GetMulti w toGet; Ok (map GRole rs)
      else if bool_decide (variety = "client") then cs ← Clients.GetMulti w toGet; Ok (map GClient cs)
      else if bool_decide (variety = "environment") then es ← Environments.GetMulti w toGet; Ok (map GEnv es)
      else
        match DataBags.Get w variety with
        | Ok dbag => Ok (map GItem (GetMultiDBItems dbag toGet))
        | Err _ => Ok []
        | Panic p => Panic p
        end
  end.

Definition item_fields (d : DataBagItem) : jmap :=
  [("name", IStr (dbi_Name d)); ("chef_type", IStr (dbi_ChefType d)); ("json_class", IStr (dbi_JSONClass d));
   ("data_bag", IStr (dbi_DataBagName d)); ("raw_data", IMap (dbi_RawData d))].

(** What is shown of an object that was found. *)
Definition result_map (o : GoiardiObj) : jmap :=
  match o with
  | GClient c =>
      [("name", IStr (c_Name c)); ("chef_type", IStr (c_ChefType c)); ("json_class", IStr (c_JSONClass c));
       ("admin", IBool (c_Admin c)); ("public_key", IStr (c_pubKey c)); ("validator", IBool (c_Validator c))]
  | GNode n => MapifyObject (Nodes.fields n)
  | GRole r => MapifyObject (Roles.fields r)
  | GEnv e => MapifyObject (Environments.fields e)
  | GItem d => MapifyObject (item_fields d)
  | _ => []
  end.

(** The address of an object that was found. *)
Definition result_url (o : GoiardiObj) : outcome string :=
  match o with
  | GItem d =>
      match mget "id" (dbi_RawData d) with
      | IStr id => CustomURL conf ("/data/" +:+ dbi_DataBagName d +:+ "/" +:+ id)
      | _ => Panic TypeAssertion
      end
  | GNode n => Ok (ObjURL conf "nodes" (n_Name n))
  | GRole r => Ok (ObjURL conf "roles" (r_Name r))
  | GClient c => Ok (ObjURL conf (c_ChefType c +:+ "s") (c_Name c))
  | GEnv e => Ok (ObjURL conf "environments" (e_Name e))
  | _ => Panic TypeAssertion
  end.

Definition formatPartials (results : list jmap) (objs : list GoiardiObj) (partialData : jmap) : outcome (list jmap) :=
  results ← partialSearchFormat results partialData;
  mapM (λ zo, url ← result_url zo.2; Ok [("url", IStr url); ("data", IMap zo.1)]) (zip results objs).

(** The documents of a query.  A query on which the parser does not end is
    out of fuel here. *)
Definition query_docs w (idx query : string) : outcome (gmap string (IdxDoc T)) :=
  match query_actions uniLN (Datatypes.S (length (runes query))) query with
  | None => Panic StackOverflow
  | Some (inr e) => Err (New e)
  | Some (inl acts) =>
      z ← apply_actions conf uniLN acts empty_token;
      run_query (index w) idx (Evaluate z)
  end.

(** [SolrQuery.results]. *)
Definition doc_names (docs : gmap string (IdxDoc T)) : list string := (map_to_list docs).*1.

(** [TrieSearch.Search]. *)
Definition Search w (idx query : string) (rows : Z) (sortOrder : string) (start : Z) (partialData : option jmap)
    : outcome (list jmap) :=
  docs ← query_docs w idx query;
  objs ← getResults w idx (doc_names docs);
  let res := map result_map objs in
  res ← (match partialData with Some p => formatPartials res objs p | None => Ok res end);
  page_of (sort_results sortOrder res) start rows.

Definition GetEndpoints w : list string := Endpoints (index w).
End search.
