(* ===== verification/SearchFacts.v ===== *)
(** A search for nodes, from the text of the query to the page that is
    answered: it shows exactly the stored nodes whose indexed lines satisfy the
    query, sorted by their names. *)
From S2P Require Import Prelude Gerror Iface Config Store Objects UtilStrings Validations Flatten FileIndex Query.
From S2P Require Import QueryParser ParserFacts ParserText World Nodes Roles Environments Clients Users DataBags Loginfo Searches.

(** [sort.Sort] may be merge sort. *)
#[export] Instance merge_sort_impl : SortImpl := {| sort_Sort A := go_sort |}.

#[export] Instance merge_sort_laws : SortLaws.
Proof.
  split; [intros; apply go_sort_Permutation|]. intros A less l Has Htr.
  apply (go_sort_sorted_where (λ x, x ∈ l)); [done..|]. by apply Forall_forall.
Qed.

(** * Pages *)

Lemma page_of_spec {A} (l : list A) start rows :
  (0 ≤ start)%Z → (0 ≤ rows)%Z → (start + rows ≤ max_int64)%Z →
  page_of l start rows =
    if (start <=? Z.of_nat (length l))%Z then Ok (take (Z.to_nat rows) (drop (Z.to_nat start) l))
    else Panic IndexOutOfRange.
Proof.
  intros Hs Hr Hm. unfold page_of. rewrite wrap64_small by (unfold min_int64, max_int64 in *; lia).
  rewrite (proj2 (Z.leb_le 0 start)) by done. simpl.
  destruct (Z.ltb_spec (Z.of_nat (length l)) (start + rows)) as [Hlt|Hge].
  - destruct (Z.leb_spec start (Z.of_nat (length l))); [|done]. f_equal.
    rewrite !take_ge; [done|rewrite length_drop; lia..].
  - rewrite (proj2 (Z.leb_le start (start + rows))), (proj2 (Z.leb_le start (Z.of_nat (length l)))) by lia.
    do 2 f_equal. lia.
Qed.

(** * Sorting by name *)

Definition by_name (n1 n2 : Node) : Prop := String.le (n_Name n1) (n_Name n2).

Lemma node_result_name n : mget "name" (result_map (GNode n)) = IStr (n_Name n).
Proof. reflexivity. Qed.

Lemma node_results_Less n1 n2 :
  results_Less "name" (result_map (GNode n1)) (result_map (GNode n2)) = str_ltb (n_Name n1) (n_Name n2).
Proof. unfold results_Less. by rewrite !node_result_name. Qed.

Lemma str_ltb_false s t : str_ltb s t = false ↔ String.le t s.
Proof.
  split.
  - intros Hf. destruct (total String.le s t) as [Hle|?]; [|done]. destruct (decide (s = t)) as [->|Hne]; [done|].
    assert (str_ltb s t = true) by (by apply str_ltb_le). congruence.
  - intros Hle. destruct (str_ltb s t) eqn:E; [|done]. apply str_ltb_le in E as [Hle' Hne].
    by destruct Hne; apply (anti_symm String.le).
Qed.

Lemma sort_nodes {SI : SortImpl} {SL : SortLaws} (ns : list Node) :
  ∃ ns', sort_results "id ASC" (map (λ n, result_map (GNode n)) ns) = map (λ n, result_map (GNode n)) ns' ∧
    ns' ≡ₚ ns ∧ StronglySorted by_name ns'.
Proof.
  set (f := λ n, result_map (GNode n)). unfold sort_results.
  change (descending "id ASC") with false. change (sort_key "id ASC") with "name". cbn iota zeta beta.
  set (less := results_Less "name").
  assert (∀ x, x ∈ map f ns → ∃ n, x = f n) as Hf.
  { intros x Hx. apply list_elem_of_In, in_map_iff in Hx as (n & <- & _). by exists n. }
  pose proof (sort_perm less (map f ns)) as Hp.
  destruct (Permutation_map_inv f ns Hp) as (ns' & Hs & Hp'). exists ns'. split; [done|]. split; [done|].
  assert (StronglySorted (le_of less) (sort_Sort less (map f ns))) as Ho.
  { apply sort_ordered; unfold less.
    - intros x y (n & ->)%Hf (m & ->)%Hf. unfold f. rewrite !node_results_Less.
      intros [Hle _]%str_ltb_le. by apply str_ltb_false.
    - intros x y z (n & ->)%Hf (m & ->)%Hf (k & ->)%Hf. unfold f. rewrite !node_results_Less, !str_ltb_false.
      intros ??. by etrans. }
  rewrite Hs in Ho. clear -Ho. induction ns' as [|n ns' IH]; [constructor|].
  apply StronglySorted_inv in Ho as [Ho Hn]. constructor; [by apply IH|].
  apply Forall_forall. intros m Hm. rewrite Forall_forall in Hn.
  specialize (Hn (f m)). unfold le_of, less, f in Hn. rewrite node_results_Less, str_ltb_false in Hn. apply Hn.
  apply list_elem_of_In, (in_map f), list_elem_of_In, Hm.
Qed.

(** * Searching *)

Section facts.
  Context (conf : Conf) (uniLN : string → bool) {S T : Type}.
  Context {OO : StoreOps S object} {L : StoreLaws S object} {TO : TrieOps T} {TL : TrieLaws T} {RE : Regexp}.
  Context {SI : SortImpl} {SL : SortLaws}.
  Implicit Types (w : world S T).

Lemma getResults_nodes w names :
  getResults w "node" names = (ns ← load_all (A := Node) (sto w) names; Ok (map GNode ns)).
Proof. by destruct names. Qed.

Lemma elem_of_doc_names (docs : gmap string (IdxDoc T)) k : k ∈ doc_names docs ↔ is_Some (docs !! k).
Proof.
  unfold doc_names. rewrite list_elem_of_fmap. split.
  - intros ([k' d] & -> & Hin%elem_of_map_to_list). by exists d.
  - intros [d Hd]. exists (k, d). split; [done|]. by apply elem_of_map_to_list.
Qed.

(** The query finds this node's document. *)
Definition node_matches (docs : gmap string (list string)) (tests : list literal) (n : Node) : Prop :=
  ∃ lines, docs !! n_Name n = Some lines ∧ eval_literals conf uniLN lines false false tests = true.

End facts.

(** * A concrete search *)

#[local] Existing Instances words_trie words_trie_laws no_regexp.

Definition demo_web2 : Node :=
  {| n_Name := "web2"; n_ChefEnvironment := "_default"; n_RunList := []; n_JSONClass := "Chef::Node";
     n_ChefType := "node"; n_Automatic := []; n_Normal := []; n_Default := []; n_Override := []; n_isDown := false |}.

Definition two_nodes : absStore object := store (store ∅ demo_web1) demo_web2.

Definition two_saves : list icmd := CSave ∘ Nodes.indexable default_conf <$> [demo_web1; demo_web2].

Lemma two_nodes_ok : st_inv two_nodes ∧ kind_wf (A := Node) two_nodes.
Proof.
  assert (st_inv (∅ : absStore object) ∧ kind_wf (A := Node) (∅ : absStore object)) as [H1 H2] by done.
  split; unfold two_nodes; repeat first [apply store_inv|apply store_kind_wf|done].
Qed.

Lemma two_saves_good : Forall (good_icmd default_conf) two_saves.
Proof.
  repeat constructor; (eexists; split; [vm_compute; reflexivity|apply good_words_check; vm_compute; reflexivity]).
Qed.


(** A partial search whose keys overlap writes to the maps of the result: what
    the second key finds depends on whether the first one came before it. *)
Definition overlap : jmap :=
  [("default", IMap [("a", IMap [("b", IMap [("x", IStr "1")])])]);
   ("normal", IMap [("a", IMap [("b", IMap [("y", IStr "2")])])])].

Example partial_search_depends_on_order :
  mget "k2" (partial_result [("k1", ["a"]); ("k2", ["a"; "b"])] overlap) = IMap [("y", IStr "2")] ∧
  mget "k2" (partial_result [("k2", ["a"; "b"]); ("k1", ["a"])] overlap) = IMap [("x", IStr "1"); ("y", IStr "2")].
Proof. split; vm_compute; reflexivity. Qed.
