(* ===== verification/Reindex.v ===== *)
(** Rebuilding the search index ([reindexAll] of src/search.go): the index is
    cleared, and the stored objects are handed to [ReIndex] of
    src/indexer/indexer.go, one kind after the other.

    [reindex_stage] is one such step of [reindexAll], with the objects it calls
    [ReIndex] with. The goroutines, channels and locks of [ReIndex] are in
    ReindexPool.v; here is what a rebuild keeps true, stated of the objects that
    are yet to be indexed, wherever they are: [rebuilding]. *)
From S2P Require Import Prelude Gerror Iface Config Store Objects UtilStrings Validations Flatten FileIndex World Nodes Roles.
From S2P Require Import Environments Clients DataBags.

(** * Definitions *)

(** The steps of [reindexAll], between which other goroutines run. *)
Inductive stage : Set := RClear | RClients | RNodes | RRoles | REnvironments | RDataBags.

#[export] Instance stage_eq_dec : EqDecision stage.
Proof. solve_decision. Defined.

Definition all_stages : list stage := [RClear; RClients; RNodes; RRoles; REnvironments; RDataBags].

Section reindex.
  Context (conf : Conf) {S T : Type} {OO : StoreOps S object} {TO : TrieOps T}.
  Implicit Types (w : world S T).

Definition ClearIndex w : world S T := set_index w (Clear (index w)).

(** The data bags that are found, and their items. *)
Fixpoint bags w (names : list string) : outcome (list DataBag) :=
  match names with
  | [] => Ok []
  | k :: r =>
      match DataBags.Get w k with
      | Ok db => l ← bags w r; Ok (db :: l)
      | Err _ => bags w r
      | Panic p => Panic p
      end
  end.

Definition bag_objects (dbags : list DataBag) : list Indexable :=
  concat (map (λ db, map (λ kv, item_indexable conf kv.2) (AllDBItems db)) dbags).

(** One step of [reindexAll]: what it does itself, and the objects it then
    calls [ReIndex] with, if it does. *)
Definition reindex_stage w (st : stage) : outcome (world S T * option (list Indexable)) :=
  match st with
  | RClear => Ok (ClearIndex w, None)
  | RClients => l ← AllClients w; Ok (w, Some (map (Clients.indexable conf) l))
  | RNodes => l ← AllNodes w; Ok (w, Some (map (Nodes.indexable conf) l))
  | RRoles => l ← AllRoles w; Ok (w, Some (map (Roles.indexable conf) l))
  | REnvironments =>
      l ← AllEnvironments w; defaultEnv ← Environments.Get w "_default";
      Ok (w, Some (map (Environments.indexable conf) (l ++ [defaultEnv])))
  | RDataBags =>
      names ← DataBags.GetList w; dbags ← bags w names;
      Ok (foldl (λ w db, w_CreateNewCollection w (db_Name db)) w dbags, Some (bag_objects dbags))
  end.

(** Seen from outside, the objects of a call are indexed one by one at some
    later time, as those of [IndexObj] are. *)
Definition hand_over w (call : option (list Indexable)) : world S T :=
  {| sto := sto w; index := index w; pending := pending w ++ default [] call; tasks := tasks w |}.
End reindex.

(** * The documents of the index *)

Section documents.
  Context (conf : Conf) {S T : Type} {OO : StoreOps S object} {TO : TrieOps T} {TL : TrieLaws T}.
  Implicit Types (w : world S T) (i : FileIndex T).

Definition has_doc i (idx k : string) : Prop := ∃ ic, idxmap i !! idx = Some ic ∧ is_Some (ic !! k).

Definition indexed w (o : Indexable) : Prop := has_doc (index w) (Index o) (DocID o).

Lemma has_doc_create i idx' idx k : has_doc (CreateNewCollection i idx') idx k ↔ has_doc i idx k.
Proof.
  unfold has_doc, CreateNewCollection, CreateCollection. simpl. destruct (idxmap i !! idx') as [ic'|] eqn:E; [done|].
  destruct (decide (idx = idx')) as [->|Hne]; [|by rewrite lookup_insert_ne].
  rewrite lookup_insert_eq, E. split; [|by intros (? & ? & _)]. intros (ic & [= <-] & [d Hd]).
  by rewrite lookup_empty in Hd.
Qed.

Lemma has_doc_save i o i' idx k :
  SaveItem conf i o = Ok i' → has_doc i' idx k ↔ has_doc i idx k ∨ (idx = Index o ∧ k = DocID o).
Proof.
  unfold SaveItem. set (m := CreateCollection (idxmap i) (Index o)). intros (ic & Hic & [= <-])%bind_Ok.
  unfold addDoc in Hic. apply bind_Ok in Hic as (d & _ & [= <-]).
  rewrite <-(has_doc_create i (Index o) idx k). unfold has_doc, CreateNewCollection. simpl. fold m.
  assert (∃ ic0, m !! Index o = Some ic0) as [ic0 Hm].
  { unfold m, CreateCollection. destruct (idxmap i !! Index o) eqn:E; [eauto|]. rewrite lookup_insert_eq. eauto. }
  rewrite Hm. simpl. destruct (decide (idx = Index o)) as [->|Hne].
  - rewrite lookup_insert_eq, Hm. destruct (decide (k = DocID o)) as [->|Hk].
    + split; [by right|]. intros _. eexists. split; [done|]. by rewrite lookup_insert_eq.
    + split.
      * intros (ic & [= <-] & Hd). rewrite lookup_insert_ne in Hd by done. left. eauto.
      * intros [(ic & [= <-] & Hd)|[_ ?]]; [|done]. eexists. split; [done|]. by rewrite lookup_insert_ne.
  - rewrite lookup_insert_ne by done. naive_solver.
Qed.

Lemma SaveItem_good i o : good_object conf o → ∃ i', SaveItem conf i o = Ok i'.
Proof.
  intros (ls & Hl & Hg). unfold SaveItem, addDoc.
  destruct (update_good conf (default new_doc (default ∅ (CreateCollection (idxmap i) (Index o) !! Index o) !! DocID o))
    o ls Hl Hg) as (d' & -> & _). simpl. by eexists.
Qed.

Lemma has_doc_clear i idx k : ¬ has_doc (Clear i) idx k.
Proof.
  intros (ic & Hic & [d Hd]). unfold Clear in Hic. rewrite default_collections, const_map_lookup in Hic.
  case_bool_decide; [|done]. injection Hic as <-. by rewrite lookup_empty in Hd.
Qed.
End documents.

(** * The rebuild *)

Section rebuild.
  Context (conf : Conf) {S T : Type} {OO : StoreOps S object} {L : StoreLaws S object}.
  Context {TO : TrieOps T} {TL : TrieLaws T}.
  Implicit Types (w : world S T).

(** What a step hands to the indexer, read off the store. *)
Definition stage_objects w (st : stage) : outcome (list Indexable) :=
  match st with
  | RClear => Ok []
  | RClients => l ← AllClients w; Ok (map (Clients.indexable conf) l)
  | RNodes => l ← AllNodes w; Ok (map (Nodes.indexable conf) l)
  | RRoles => l ← AllRoles w; Ok (map (Roles.indexable conf) l)
  | REnvironments =>
      l ← AllEnvironments w; defaultEnv ← Environments.Get w "_default";
      Ok (map (Environments.indexable conf) (l ++ [defaultEnv]))
  | RDataBags => names ← DataBags.GetList w; dbags ← bags w names; Ok (bag_objects conf dbags)
  end.

(** The objects that are stored and can be searched for. *)
Definition searchable w (o : Indexable) : Prop := ∃ st objs, stage_objects w st = Ok objs ∧ o ∈ objs.

Lemma stage_objects_sto w w' st : sto w = sto w' → stage_objects w st = stage_objects w' st.
Proof.
  intros Hs.
  assert (∀ k, Environments.Get w k = Environments.Get w' k) as He by (intros k; unfold Environments.Get; by rewrite Hs).
  assert (∀ names, get_all w names = get_all w' names) as Ha.
  { induction names as [|k names IH]; [done|]. simpl. by rewrite He, IH. }
  assert (∀ names, bags w names = bags w' names) as Hb.
  { induction names as [|k names IH]; [done|]. simpl. unfold DataBags.Get. by rewrite Hs, IH. }
  destruct st; simpl; unfold AllClients, AllNodes, AllRoles, AllEnvironments, Clients.GetList, Nodes.GetList, Roles.GetList,
    Environments.GetList, DataBags.GetList; rewrite ?Hs, ?He; try done.
  - by destruct (st_list (sto w') "env"); simpl; rewrite ?Ha.
  - by destruct (st_list (sto w') "data_bag"); simpl; rewrite ?Hb.
Qed.

Lemma create_bags w dbags :
  let w' := foldl (λ w db, w_CreateNewCollection w (db_Name db)) w dbags in
  sto w' = sto w ∧ pending w' = pending w ∧ ∀ idx k, has_doc (index w') idx k ↔ has_doc (index w) idx k.
Proof.
  revert w. induction dbags as [|db dbags IH]; intros w; simpl; [done|].
  destruct (IH (w_CreateNewCollection w (db_Name db))) as (-> & -> & Hd). split_and!; [done..|].
  intros idx k. rewrite Hd. simpl. apply has_doc_create.
Qed.

Lemma reindex_stage_sto w st w' call : reindex_stage conf w st = Ok (w', call) → sto w' = sto w.
Proof.
  destruct st; simpl; [by intros [= <- <-]|..]; intros (l & _ & Hw)%bind_Ok; [by injection Hw as <- <-..|].
  apply bind_Ok in Hw as (dbs & _ & [= <- <-]). by destruct (create_bags w dbs) as [-> _].
Qed.

(** Every step but the first one calls [ReIndex], with the objects of its kind,
    and only the first one touches what is indexed. *)
Lemma stage_effect w st objs :
  stage_objects w st = Ok objs →
  ∃ w', reindex_stage conf w st = Ok (w', if decide (st = RClear) then None else Some objs) ∧
    sto w' = sto w ∧ pending w' = pending w ∧
    (st ≠ RClear → ∀ idx k, has_doc (index w') idx k ↔ has_doc (index w) idx k) ∧
    (st = RClear → objs = [] ∧ ∀ idx k, ¬ has_doc (index w') idx k).
Proof.
  destruct st; simpl.
  - intros [= <-]. eexists. split; [done|]. simpl. split_and!; try done.
    intros _. split; [done|]. intros idx k. apply has_doc_clear.
  - intros (l & -> & [= <-])%bind_Ok. simpl. eexists. split; [done|]. by split_and!.
  - intros (l & -> & [= <-])%bind_Ok. simpl. eexists. split; [done|]. by split_and!.
  - intros (l & -> & [= <-])%bind_Ok. simpl. eexists. split; [done|]. by split_and!.
  - intros (l & -> & [= <-])%bind_Ok. simpl. eexists. split; [done|]. by split_and!.
  - intros (names & -> & (dbs & Hb & [= <-])%bind_Ok)%bind_Ok. simpl. rewrite Hb. simpl. eexists. split; [done|]. simpl.
    destruct (create_bags w dbs) as (-> & -> & Hd). by split_and!.
Qed.

(** What holds while an index is rebuilt that began in the world [w0], for the
    world, with everything that is yet to be indexed as [pending], and the steps
    that are left. *)
Record rebuilding w0 (x : world S T * list stage) : Prop := {
  rb_sto : sto x.1 = sto w0;
  rb_good : Forall (good_object conf) (pending x.1);
  rb_known o : o ∈ pending x.1 → o ∈ pending w0 ∨ searchable w0 o;
  rb_done : ∃ done, all_stages = done ++ x.2 ∧
    (∀ st objs o, st ∈ done → stage_objects w0 st = Ok objs → o ∈ objs → o ∈ pending x.1 ∨ indexed x.1 o) ∧
    (RClear ∈ done → ∀ idx k, has_doc (index x.1) idx k →
       ∃ o, (o ∈ pending w0 ∨ searchable w0 o) ∧ Index o = idx ∧ DocID o = k);
}.

Lemma rebuilding_stage w0 w st todo w' objs p :
  (∀ o, searchable w0 o → good_object conf o) → rebuilding w0 (w, st :: todo) → stage_objects w0 st = Ok objs →
  sto w' = sto w → (∀ o, o ∈ pending w' ↔ o ∈ pending w ∨ o ∈ objs) →
  (st ≠ RClear → ∀ idx k, has_doc (index w') idx k ↔ has_doc (index w) idx k) →
  (st = RClear → ∀ idx k, ¬ has_doc (index w') idx k) → p = (w', todo) → rebuilding w0 p.
Proof.
  intros Hall [Hs Hg Hk (dn & Hd & Hi & Hc)] Ho Hs1 Hp1 Hn1 Hc1 ->. simpl in *.
  assert (∀ o, o ∈ objs → searchable w0 o) as Hse by (intros o ?; by exists st, objs).
  rewrite Forall_forall in Hg. split; simpl.
  - congruence.
  - apply Forall_forall. intros o. rewrite Hp1. naive_solver.
  - intros o. rewrite Hp1. intros [?|?]; auto.
  - exists (dn ++ [st]). split; [by rewrite <-app_assoc|]. destruct (decide (st = RClear)) as [->|Hne].
    + assert (dn = []) as ->.
      { destruct dn as [|a dn]; [done|]. exfalso. injection Hd as _ Hd.
        assert (RClear ∈ dn ++ RClear :: todo) as Hin by set_solver. rewrite <-Hd in Hin. set_solver. }
      split; [|intros _ idx k Hx; by apply Hc1 in Hx].
      intros st' objs' o Hin Ho1 Hoo. apply list_elem_of_singleton in Hin as ->.
      assert (objs' = objs) as -> by congruence. left. apply Hp1. by right.
    + specialize (Hn1 Hne). split.
      * intros st' objs' o [Hin|Hin]%elem_of_app Ho1 Hoo.
        -- destruct (Hi st' objs' o Hin Ho1 Hoo) as [?|?]; [left; apply Hp1; by left|]. right. by apply Hn1.
        -- apply list_elem_of_singleton in Hin as ->. assert (objs' = objs) as -> by congruence.
           left. apply Hp1. by right.
      * intros Hin idx k Hx%Hn1. apply Hc; [set_solver|done].
Qed.

(** Saving one of the objects. *)
Lemma rebuilding_save w0 w w' todo o :
  rebuilding w0 (w, todo) → o ∈ pending w → SaveItem conf (index w) o = Ok (index w') → sto w' = sto w →
  (∀ o', o' ∈ pending w' → o' ∈ pending w) → (∀ o', o' ∈ pending w → o' = o ∨ o' ∈ pending w') →
  rebuilding w0 (w', todo).
Proof.
  intros [Hs Hg Hk (dn & Hd & Hi & Hc)] Ho Hsave Hs' Hsub Hsup. simpl in *. rewrite Forall_forall in Hg.
  pose proof (has_doc_save conf (index w) o (index w')) as Hsv.
  split; simpl; [congruence|apply Forall_forall; intros o' ?%Hsub; by apply Hg|auto|].
  exists dn. split; [done|]. split.
  - intros st objs o' Hin Ho' Hoo. destruct (Hi st objs o' Hin Ho' Hoo) as [[->|?]%Hsup|Hix]; [|by left|].
    + right. apply Hsv; auto.
    + right. apply Hsv; auto.
  - intros Hin idx k Hx. apply Hsv in Hx as [Hx|[-> ->]]; [by apply Hc| |done]. exists o. auto.
Qed.

(** Passing objects from one goroutine to another. *)
Lemma rebuilding_same w0 w w' todo :
  rebuilding w0 (w, todo) → index w' = index w → sto w' = sto w → (∀ o, o ∈ pending w' ↔ o ∈ pending w) →
  rebuilding w0 (w', todo).
Proof.
  intros [Hs Hg Hk (dn & Hd & Hi & Hc)] Hx Hs' He. simpl in *. rewrite Forall_forall in Hg.
  split; simpl; [congruence|apply Forall_forall; intros o'; rewrite He; apply Hg|intros o; rewrite He; apply Hk|].
  exists dn. unfold indexed in *. simpl in *. rewrite Hx. split; [done|]. split; [|done]. intros st objs o. rewrite He. apply Hi.
Qed.

(** What the rebuilt index holds: the stored objects, and besides them at most
    those that were being indexed when the rebuild began. *)
Record rebuilt w0 (x : world S T * list stage) : Prop := {
  rt_over : x.2 = [] ∧ pending x.1 = [] ∧ sto x.1 = sto w0;
  rt_nodes k n : load (A := Node) (sto w0) k = Ok (Some n) → has_doc (index x.1) "node" k;
  rt_roles k r : load (A := Role) (sto w0) k = Ok (Some r) → has_doc (index x.1) "role" k;
  rt_clients k c : load (A := Client) (sto w0) k = Ok (Some c) → has_doc (index x.1) "client" k;
  rt_items k db name i :
    load (A := DataBag) (sto w0) k = Ok (Some db) → (name, i) ∈ db_Items db →
    has_doc (index x.1) (dbi_DataBagName i) (item_DocID i);
  rt_sound idx k : has_doc (index x.1) idx k →
    ∃ o, (o ∈ pending w0 ∨ searchable w0 o) ∧ Index o = idx ∧ DocID o = k;
}.

Section complete.
  Context (w0 : world S T) (Hi : st_inv (sto w0)).
  Context (Hcl : kind_wf (A := Client) (sto w0)) (Hno : kind_wf (A := Node) (sto w0)).
  Context (Hro : kind_wf (A := Role) (sto w0)) (Hen : kind_wf (A := ChefEnvironment) (sto w0)).
  Context (Hba : kind_wf (A := DataBag) (sto w0)).

Lemma get_all_ok names : ∃ l, get_all w0 names = Ok l.
Proof.
  induction names as [|k names [l IH]]; [by eexists|]. simpl. unfold Environments.Get.
  case_bool_decide; [rewrite IH; by eexists|].
  destruct (load_ok (A := ChefEnvironment) (sto w0) k Hi Hen) as ([e|] & -> & _); simpl; rewrite IH; by eexists.
Qed.

Lemma bags_ok names : ∃ l, bags w0 names = Ok l ∧
  ∀ db, (∃ k, k ∈ names ∧ load (A := DataBag) (sto w0) k = Ok (Some db)) → db ∈ l.
Proof.
  induction names as [|k names (l & IH & Hl)]; [exists []; split; [done|]; set_solver|]. simpl. unfold DataBags.Get.
  destruct (load_ok (A := DataBag) (sto w0) k Hi Hba) as ([db|] & Ek & _); rewrite Ek; simpl; rewrite IH; simpl;
    (eexists; split; [done|]); intros db' (k' & [->|Hin]%elem_of_cons & Hk').
  - assert (db = db') as -> by congruence. left.
  - right. apply Hl. eauto.
  - congruence.
  - apply Hl. eauto.
Qed.

Lemma stage_objects_ok st : ∃ objs, stage_objects w0 st = Ok objs.
Proof.
  destruct st; simpl.
  - by eexists.
  - destruct (load_list_spec (A := Client) (sto w0) Hi Hcl) as (l & Hl & _). change (AllClients w0 = Ok l) in Hl.
    rewrite Hl. by eexists.
  - destruct (load_list_spec (A := Node) (sto w0) Hi Hno) as (l & Hl & _). change (AllNodes w0 = Ok l) in Hl.
    rewrite Hl. by eexists.
  - destruct (load_list_spec (A := Role) (sto w0) Hi Hro) as (l & Hl & _). change (AllRoles w0 = Ok l) in Hl.
    rewrite Hl. by eexists.
  - unfold AllEnvironments, Environments.GetList.
    destruct (st_list_ok (sto w0) "env" Hi eq_refl) as (names & -> & _). simpl.
    destruct (get_all_ok (names ++ ["_default"])) as [l ->]. by eexists.
  - unfold DataBags.GetList. destruct (st_list_ok (sto w0) "data_bag" Hi eq_refl) as (names & -> & _). simpl.
    destruct (bags_ok names) as (l & -> & _). by eexists.
Qed.

(** The stored objects are among those handed over. *)
Lemma searchable_kind `{Stored A, !StoredLaws A} (f : A → Indexable) st (a : A) k l :
  kind_wf (A := A) (sto w0) → load_list (A := A) (sto w0) = Ok l → stage_objects w0 st = Ok (map f l) →
  load (sto w0) k = Ok (Some a) → searchable w0 (f a) ∧ s_name a = k.
Proof.
  intros Hw Hl Hs Hk. destruct (load_list_spec (A := A) (sto w0) Hi Hw) as (l' & Hl' & Hin).
  assert (l' = l) as -> by congruence. pose proof (load_name (sto w0) k a Hi Hw Hk) as Hn. split; [|done].
  exists st, (map f l). split; [done|]. apply list_elem_of_In, in_map, list_elem_of_In, Hin. by rewrite Hn.
Qed.

Lemma searchable_item k db name i :
  load (A := DataBag) (sto w0) k = Ok (Some db) → (name, i) ∈ db_Items db → searchable w0 (item_indexable conf i).
Proof.
  intros Hk Hin. destruct (st_list_ok (sto w0) "data_bag" Hi eq_refl) as (names & Hn & _ & _ & Hnames).
  destruct (bags_ok names) as (l & Hl & Hdb). exists RDataBags, (bag_objects conf l). split.
  { simpl. unfold DataBags.GetList. rewrite Hn. simpl. by rewrite Hl. }
  unfold bag_objects. apply list_elem_of_In, in_concat.
  exists (map (λ kv, item_indexable conf kv.2) (AllDBItems db)). split.
  - apply in_map_iff. exists db. split; [done|]. apply list_elem_of_In, Hdb. exists k. split; [|done].
    apply Hnames. exists (s_inj db). exact (proj1 (load_get (A := DataBag) (sto w0) k db Hi Hba) Hk).
  - apply in_map_iff. exists (name, i). split; [done|]. by apply list_elem_of_In.
Qed.

(** At the end, everything that is stored is indexed. *)
Lemma rebuilding_rebuilt w : rebuilding w0 (w, []) → pending w = [] → rebuilt w0 (w, []).
Proof.
  intros [Hs Hg Hk (dn & Hd & Hx & Hc)] Hp. simpl in *. rewrite app_nil_r in Hd. subst dn. rewrite Hp in *.
  assert (∀ o, searchable w0 o → indexed w o) as Hall.
  { intros o (st & objs & Ho & Hin). destruct (Hx st objs o) as [?|?]; [by destruct st; set_solver|done|done| |done].
    set_solver. }
  split; simpl; [done|..].
  - intros k n Hl. destruct (load_list_spec (A := Node) (sto w0) Hi Hno) as (l & E & _).
    destruct (searchable_kind (Nodes.indexable conf) RNodes n k l Hno E) as [Ho <-]; [|done|by apply Hall in Ho].
    simpl. change (AllNodes w0 = Ok l) in E. by rewrite E.
  - intros k n Hl. destruct (load_list_spec (A := Role) (sto w0) Hi Hro) as (l & E & _).
    destruct (searchable_kind (Roles.indexable conf) RRoles n k l Hro E) as [Ho <-]; [|done|by apply Hall in Ho].
    simpl. change (AllRoles w0 = Ok l) in E. by rewrite E.
  - intros k n Hl. destruct (load_list_spec (A := Client) (sto w0) Hi Hcl) as (l & E & _).
    destruct (searchable_kind (Clients.indexable conf) RClients n k l Hcl E) as [Ho <-]; [|done|by apply Hall in Ho].
    simpl. change (AllClients w0 = Ok l) in E. by rewrite E.
  - intros k db name i Hl Hin. by apply (Hall (item_indexable conf i)), (searchable_item k db name).
  - apply Hc. set_solver.
Qed.

Lemma rebuilding_start : Forall (good_object conf) (pending w0) → rebuilding w0 (w0, all_stages).
Proof.
  intros Hg. split; simpl; [done|done|by left|]. exists []. split; [done|]. split; set_solver.
Qed.

End complete.
End rebuild.

(** * A concrete rebuild *)

#[local] Existing Instances words_trie words_trie_laws.

(** One node is stored, and the index knows nothing. *)
Definition unindexed : world (absStore object) (list string) :=
  {| sto := store (∅ : absStore object) demo_web1; index := Initialize; pending := []; tasks := [] |}.

Lemma unindexed_kind `{Stored A, !StoredLaws A} : s_type A ≠ "node" → kind_wf (A := A) (sto unindexed).
Proof. intros Hne. apply kind_wf_store_ne; [done|done|]. done. Qed.

Lemma good_by_lines o ls : obj_lines default_conf o = Ok ls → bool_decide (ls = sort_strings ls ∧ NoDup ls ∧ ls ≠ [] ∧
    Forall (λ w, w ≠ EmptyString ∧ str_join EmptyString (runes w) = w) ls) = true → good_object default_conf o.
Proof. intros Ho Hb. exists ls. split; [done|by apply good_words_check]. Qed.

Lemma unindexed_good o : searchable default_conf unindexed o → good_object default_conf o.
Proof.
  intros (st & objs & Ho & Hin). destruct st; vm_compute in Ho; injection Ho as <-.
  all: repeat (apply elem_of_cons in Hin as [->|Hin]); try by apply not_elem_of_nil in Hin.
  all: eapply good_by_lines; [vm_compute; reflexivity|vm_compute; reflexivity].
Qed.
