(* ===== verification/ReindexPool.v ===== *)
(** The goroutines of a rebuild of the index: [reindexAll] of src/search.go and
    [ReIndex] of src/indexer/indexer.go, with their channels and locks.

    [reindexAll] takes a lock, goes through its steps, each of which but the
    first starts a goroutine of [ReIndex], and then waits for a message from
    every one of these on the channel [rCh]. A goroutine of [ReIndex] (a [job])
    takes the lock of the indexer, starts a worker per processor, sends its
    objects to them on the channel [ch], closes it, waits on [fCh] for a message
    per object, and passes on a message of its own through [mCh] to [rCh] before
    it gives its lock back. A worker ends when [ch] is closed and empty.

    What a goroutine does next is a function ([main_next], [job_next],
    [worker_next]) that gives nothing when the goroutine has to wait or is over;
    [pool_step] lets any goroutine that need not wait take its step, the
    goroutines of [IndexObj] among them. Channels are bounded as the code makes
    them. *)
From S2P Require Import Prelude Gerror Iface Config Store Objects UtilStrings Validations Flatten FileIndex World Nodes Roles.
From S2P Require Import Environments Clients DataBags Reindex.

(** * Definitions *)

Definition ReindexableTypes : nat := 5.

(** Where a worker of [ReIndex] is: receiving from [ch], about to save an
    object, about to report that it is saved, or over. *)
Inductive worker : Type := WIdle | WBusy (obj : Indexable) | WSaved | WEnd.

(** Where a goroutine of [ReIndex] is: taking the lock, starting [n] more
    workers, sending the rest of the objects, having received [y] messages of
    the workers; then its deferred function: receiving from [mCh], sending to
    [rCh], giving the lock back. *)
Inductive phase : Type :=
| JLock | JSpawn (n : nat) | JSend (rest : list Indexable) | JCollect (y : nat) | JDefer | JNotify | JUnlock | JEnd.

(** A call of [ReIndex]: its objects, its goroutine, its channels (for [fCh]
    and [mCh] the number of messages in them) and its workers. *)
Record job := mkJob {
  j_objects : list Indexable;
  j_phase : phase;
  j_ch : list Indexable;
  j_closed : bool;
  j_fCh : nat;
  j_mCh : nat;
  j_workers : list worker;
}.

(** Where [reindexAll] is: taking its lock, with steps left to take, having
    received [u] messages in its deferred function, or over. *)
Inductive main : Type := MLock | MStages (todo : list stage) | MRecv (u : nat) | MDone.

Record pool (S T : Type) := mkPool {
  p_world : world S T;
  p_main : main;
  p_riM : bool;      (** the lock of src/search.go *)
  p_rCh : nat;       (** the messages in [rCh] *)
  p_mutex : bool;    (** the lock [riM] of src/indexer/indexer.go *)
  p_jobs : list job;
}.
Arguments mkPool {S T}.
Arguments p_world {S T}.
Arguments p_main {S T}.
Arguments p_riM {S T}.
Arguments p_rCh {S T}.
Arguments p_mutex {S T}.
Arguments p_jobs {S T}.

(** A call of [ReIndex] starts its goroutine. *)
Definition ReIndex (objects : list Indexable) : job := mkJob objects JLock [] false 0 0 [].

Definition set_phase (j : job) (ph : phase) : job :=
  mkJob (j_objects j) ph (j_ch j) (j_closed j) (j_fCh j) (j_mCh j) (j_workers j).

Definition set_worker (j : job) (ch : list Indexable) (fCh : nat) (ws : list worker) : job :=
  mkJob (j_objects j) (j_phase j) ch (j_closed j) fCh (j_mCh j) ws.

Section pool.
  Context (conf : Conf) (ncpu : nat) {S T : Type} {OO : StoreOps S object} {TO : TrieOps T}.
  Implicit Types (w : world S T) (p : pool S T).

Definition main_next p : option (pool S T) :=
  let '(mkPool w m rm rch mu js) := p in
  match m with
  | MLock => if rm then None else Some (mkPool w (MStages all_stages) true 0 mu js)
  | MStages (st :: todo) =>
      match reindex_stage conf w st with
      | Ok (w', Some objects) => Some (mkPool w' (MStages todo) rm rch mu (js ++ [ReIndex objects]))
      | Ok (w', None) => Some (mkPool w' (MStages todo) rm rch mu js)
      | _ => None
      end
  | MStages [] => Some (mkPool w (MRecv 0) rm rch mu js)
  | MRecv u =>
      if u <? ReindexableTypes
      then match rch with 0 => None | Datatypes.S r => Some (mkPool w (MRecv (Datatypes.S u)) rm r mu js) end
      else Some (mkPool w MDone false rch mu js)
  | MDone => None
  end.

(** The lock of the indexer and the messages of [rCh] are shared. *)
Definition job_next (mutex : bool) (rCh : nat) (j : job) : option (bool * nat * job) :=
  let z := length (j_objects j) in
  match j_phase j with
  | JLock => if mutex then None else Some (true, rCh, set_phase j (JSpawn ncpu))
  | JSpawn (Datatypes.S n) => Some (mutex, rCh, set_phase (set_worker j (j_ch j) (j_fCh j) (j_workers j ++ [WIdle])) (JSpawn n))
  | JSpawn 0 => Some (mutex, rCh, set_phase j (JSend (j_objects j)))
  | JSend (o :: rest) =>
      if length (j_ch j) <? ncpu
      then Some (mutex, rCh, set_phase (set_worker j (j_ch j ++ [o]) (j_fCh j) (j_workers j)) (JSend rest))
      else None
  | JSend [] => Some (mutex, rCh, mkJob (j_objects j) (JCollect 0) (j_ch j) true (j_fCh j) (j_mCh j) (j_workers j))
  | JCollect y =>
      if y <? z
      then match j_fCh j with
           | 0 => None
           | Datatypes.S f => Some (mutex, rCh, set_phase (set_worker j (j_ch j) f (j_workers j)) (JCollect (Datatypes.S y)))
           end
      else if j_mCh j <? 1
      then Some (mutex, rCh, mkJob (j_objects j) JDefer (j_ch j) (j_closed j) (j_fCh j) (Datatypes.S (j_mCh j)) (j_workers j))
      else None
  | JDefer =>
      match j_mCh j with
      | 0 => None
      | Datatypes.S m => Some (mutex, rCh, mkJob (j_objects j) JNotify (j_ch j) (j_closed j) (j_fCh j) m (j_workers j))
      end
  | JNotify => if rCh <? ReindexableTypes then Some (mutex, Datatypes.S rCh, set_phase j JUnlock) else None
  | JUnlock => Some (false, rCh, set_phase j JEnd)
  | JEnd => None
  end.

(** A worker of the call [j]: the index it leaves, what is then in the channels
    [ch] and [fCh], and where it is. A panic of [SaveItem] ends the server: it
    is no step. *)
Definition worker_next (i : FileIndex T) (j : job) (wk : worker) : option (FileIndex T * list Indexable * nat * worker) :=
  match wk with
  | WIdle =>
      match j_ch j with
      | o :: ch => Some (i, ch, j_fCh j, WBusy o)
      | [] => if j_closed j then Some (i, [], j_fCh j, WEnd) else None
      end
  | WBusy o => match SaveItem conf i o with Ok i' => Some (i', j_ch j, j_fCh j, WSaved) | _ => None end
  | WSaved => if j_fCh j <? length (j_objects j) then Some (i, j_ch j, Datatypes.S (j_fCh j), WIdle) else None
  | WEnd => None
  end.

Inductive pool_step : pool S T → pool S T → Prop :=
| pl_main p p' : main_next p = Some p' → pool_step p p'
| pl_index w w' m rm rch mu js :
    index_step conf w w' → pool_step (mkPool w m rm rch mu js) (mkPool w' m rm rch mu js)
| pl_job w m rm rch mu l1 j l2 mu' rch' j' :
    job_next mu rch j = Some (mu', rch', j') →
    pool_step (mkPool w m rm rch mu (l1 ++ j :: l2)) (mkPool w m rm rch' mu' (l1 ++ j' :: l2))
| pl_worker w m rm rch mu l1 j l2 k1 wk k2 i' ch' f' wk' :
    j_workers j = k1 ++ wk :: k2 → worker_next (index w) j wk = Some (i', ch', f', wk') →
    pool_step (mkPool w m rm rch mu (l1 ++ j :: l2))
      (mkPool (set_index w i') m rm rch mu (l1 ++ set_worker j ch' f' (k1 ++ wk' :: k2) :: l2)).

(** A call of [reindexAll] in the world [w], when no rebuild is running. *)
Definition reindexAll w : pool S T := mkPool w MLock false 0 false [].
End pool.

(** * One call of [ReIndex] *)

(** The objects that are not sent yet, and those the workers hold. *)
Definition unsent (j : job) : list Indexable :=
  match j_phase j with JLock | JSpawn _ => j_objects j | JSend rest => rest | _ => [] end.

Definition held (wk : worker) : list Indexable := match wk with WBusy o => [o] | _ => [] end.

Definition outstanding (j : job) : list Indexable := unsent j ++ j_ch j ++ concat (map held (j_workers j)).

Definition is_saved (wk : worker) : nat := match wk with WSaved => 1 | _ => 0 end.

(** The messages received from the workers. *)
Definition collected (j : job) : nat :=
  match j_phase j with JLock | JSpawn _ | JSend _ => 0 | JCollect y => y | _ => length (j_objects j) end.

Definition to_spawn (ncpu : nat) (j : job) : nat := match j_phase j with JLock => ncpu | JSpawn n => n | _ => 0 end.

Definition sent_all (j : job) : bool := match j_phase j with JLock | JSpawn _ | JSend _ => false | _ => true end.

(** Whether the call has the lock of the indexer, and whether it has sent its
    message to [rCh]. *)
Definition active (j : job) : nat := match j_phase j with JLock | JEnd => 0 | _ => 1 end.
Definition notified (j : job) : nat := match j_phase j with JUnlock | JEnd => 1 | _ => 0 end.

Record job_inv (ncpu : nat) (j : job) : Prop := {
  ji_count : length (unsent j) + length (j_ch j) + length (concat (map held (j_workers j))) +
    sum_list_with is_saved (j_workers j) + j_fCh j + collected j = length (j_objects j);
  ji_workers : length (j_workers j) + to_spawn ncpu j = ncpu;
  ji_closed : j_closed j = sent_all j;
  ji_ended : WEnd ∈ j_workers j → j_closed j = true ∧ j_ch j = [];
  ji_mCh : j_mCh j = match j_phase j with JDefer => 1 | _ => 0 end;
}.

(** What the goroutines of a call have still to do. *)
Definition worker_work (wk : worker) : nat := match wk with WIdle => 1 | WBusy _ => 5 | WSaved => 3 | WEnd => 0 end.

Definition phase_work (ncpu : nat) (j : job) : nat :=
  match j_phase j with
  | JLock => 2 * ncpu + 10 | JSpawn n => 2 * n + 9 | JSend _ => 8 | JCollect _ => 7
  | JDefer => 6 | JNotify => 5 | JUnlock => 3 | JEnd => 0
  end.

Definition job_work (ncpu : nat) (j : job) : nat :=
  phase_work ncpu j + 6 * length (unsent j) + 5 * length (j_ch j) + j_fCh j + sum_list_with worker_work (j_workers j).

Lemma held_app ws1 wk ws2 :
  concat (map held (ws1 ++ wk :: ws2)) = concat (map held ws1) ++ held wk ++ concat (map held ws2).
Proof. by rewrite map_app, concat_app. Qed.

Section job.
  Context (conf : Conf) (ncpu : nat) {T : Type} {TO : TrieOps T} {TL : TrieLaws T}.
  Implicit Types (j : job) (i : FileIndex T).

Definition worker_can i j : Prop :=
  ∃ k1 wk k2 r, j_workers j = k1 ++ wk :: k2 ∧ worker_next conf i j wk = Some r.

Lemma ReIndex_inv objects : job_inv ncpu (ReIndex objects).
Proof. split; cbn; [lia..|done|by intros ?%not_elem_of_nil|done]. Qed.

(** ** The goroutine itself *)

Ltac job_cases j Hn :=
  destruct j as [objs [|[|n]|[|o rest]|y| | | |] ch cl f m ws]; cbn -[Nat.ltb] in *;
  repeat match type of Hn with
    | context [match ?x with _ => _ end] => let E := fresh "E" in destruct x eqn:E
    end;
  simplify_eq/=; rewrite ?Nat.ltb_lt, ?Nat.ltb_ge in *.

Lemma job_next_inv mu rch j mu' rch' j' :
  job_inv ncpu j → job_next ncpu mu rch j = Some (mu', rch', j') → job_inv ncpu j'.
Proof.
  intros [H1 H2 H3 H4 H5] Hn. job_cases j Hn; split; cbn in *; rewrite ?held_app, ?sum_list_with_app, ?length_app; cbn;
    try done; try lia.
  - rewrite elem_of_app, list_elem_of_singleton. naive_solver.
  - intros [??]%H4. congruence.
  - intros [??]%H4. congruence.
Qed.

(** It passes its objects on, and loses none. *)
Lemma job_next_outstanding mu rch j mu' rch' j' x :
  job_next ncpu mu rch j = Some (mu', rch', j') → x ∈ outstanding j' ↔ x ∈ outstanding j.
Proof.
  intros Hn. unfold outstanding. job_cases j Hn; rewrite ?held_app; cbn; rewrite ?app_nil_r; try done. set_solver.
Qed.

(** The lock and the messages it shares with others. *)
Lemma job_next_shared (mu : bool) rch j (mu' : bool) rch' j' :
  job_next ncpu mu rch j = Some (mu', rch', j') → (active j = 1 → mu = true) →
  active j' + Nat.b2n mu = active j + Nat.b2n mu' ∧ notified j' + rch = notified j + rch'.
Proof. intros Hn Ha. job_cases j Hn; try (rewrite Ha by done); simpl; lia. Qed.

Lemma job_next_work mu rch j mu' rch' j' :
  job_next ncpu mu rch j = Some (mu', rch', j') → job_work ncpu j' + rch' < job_work ncpu j + rch.
Proof.
  intros Hn. unfold job_work. job_cases j Hn; rewrite ?sum_list_with_app, ?length_app; cbn; lia.
Qed.

(** ** Its workers *)

Lemma worker_next_inv i j k1 wk k2 i' ch' f' wk' :
  job_inv ncpu j → j_workers j = k1 ++ wk :: k2 → worker_next conf i j wk = Some (i', ch', f', wk') →
  job_inv ncpu (set_worker j ch' f' (k1 ++ wk' :: k2)).
Proof.
  destruct j as [objs ph ch cl f m ws]. cbn. intros [H1 H2 H3 H4 H5] -> Hn. cbn in *.
  rewrite held_app, sum_list_with_app, !length_app in H1. rewrite length_app in H2.
  destruct wk; cbn in *; repeat case_match; simplify_eq/=; rewrite ?Nat.ltb_lt in *;
    split; cbn; rewrite ?held_app, ?sum_list_with_app, ?length_app; cbn; rewrite ?length_app; cbn; try done;
    try (unfold unsent, collected, to_spawn in *; cbn in *; lia).
  all: rewrite elem_of_app, elem_of_cons in *; naive_solver.
Qed.

(** A worker takes an object, saves it and reports it. *)
Lemma worker_next_outstanding i j k1 wk k2 i' ch' f' wk' :
  j_workers j = k1 ++ wk :: k2 → worker_next conf i j wk = Some (i', ch', f', wk') →
  let j' := set_worker j ch' f' (k1 ++ wk' :: k2) in
  (i' = i ∧ ∀ o, o ∈ outstanding j' ↔ o ∈ outstanding j) ∨
  (∃ o, o ∈ outstanding j ∧ SaveItem conf i o = Ok i' ∧ (∀ o', o' ∈ outstanding j' → o' ∈ outstanding j) ∧
    ∀ o', o' ∈ outstanding j → o' = o ∨ o' ∈ outstanding j').
Proof.
  destruct j as [objs ph ch cl f m ws]. cbn. intros -> Hn.
  unfold outstanding, unsent. cbn. rewrite !held_app. generalize (match ph with JLock | JSpawn _ => objs | JSend rest => rest | _ => [] end).
  intros u.
  destruct wk as [|o| |]; cbn in *; repeat case_match; simplify_eq/=.
  - left. set_solver.
  - left. set_solver.
  - right. exists o. set_solver.
  - left. set_solver.
Qed.

Lemma worker_next_work i j k1 wk k2 i' ch' f' wk' :
  j_workers j = k1 ++ wk :: k2 → worker_next conf i j wk = Some (i', ch', f', wk') →
  job_work ncpu (set_worker j ch' f' (k1 ++ wk' :: k2)) < job_work ncpu j.
Proof.
  destruct j as [objs ph ch cl f m ws]. cbn. intros -> Hn. unfold job_work, phase_work, unsent. cbn.
  rewrite !sum_list_with_app. destruct wk; cbn in *; repeat case_match; simplify_eq/=; lia.
Qed.

(** ** No call of [ReIndex] is ever stuck *)

(** As long as there is something to do for the workers, one of them can. *)
Lemma workers_progress i j :
  job_inv ncpu j → Forall (good_object conf) (outstanding j) → j_workers j ≠ [] →
  length (j_ch j) + length (concat (map held (j_workers j))) + sum_list_with is_saved (j_workers j) ≠ 0 → worker_can i j.
Proof.
  intros Hj Hg Hne Hn. destruct (decide (Exists (λ wk, held wk ≠ [] ∨ is_saved wk ≠ 0) (j_workers j))) as [He|He].
  - apply Exists_exists in He as (wk & (k1 & k2 & Hw)%list_elem_of_split & Hwk). exists k1, wk, k2. rewrite Hw.
    destruct wk as [|o| |]; cbn in Hwk; [naive_solver| | |naive_solver].
    + destruct (SaveItem_good conf i o) as [i' Hi'].
      { rewrite Forall_forall in Hg. apply Hg. unfold outstanding. rewrite Hw, held_app. set_solver. }
      eexists. split; [done|]. cbn. by rewrite Hi'.
    + eexists. split; [done|]. unfold worker_next. rewrite (proj2 (Nat.ltb_lt _ _)); [done|].
      pose proof (ji_count _ _ Hj) as Hc. rewrite Hw, sum_list_with_app in Hc. cbn in Hc. lia.
  - assert (length (j_ch j) ≠ 0) as Hch.
    { intros Hz. apply Hn. rewrite Hz. clear -He. apply not_Exists_Forall in He; [|solve_decision..].
      induction He as [|wk ws Hwk _ IH]; [done|]. cbn in *. rewrite length_app.
      destruct wk; cbn in *; naive_solver lia. }
    destruct (j_workers j) as [|wk ws] eqn:Hw; [done|]. exists [], wk, ws.
    apply not_Exists_Forall in He; [|solve_decision..]. apply Forall_cons_1 in He as [Hwk _].
    pose proof (ji_ended _ _ Hj) as Hend. rewrite Hw in Hend. cbn. destruct (j_ch j) as [|o ch] eqn:Hc; [done|].
    destruct wk; cbn in Hwk; [eexists; split; [done|]; cbn; by rewrite Hc|exfalso; naive_solver| |].
    + exfalso. apply Hwk. by right.
    + destruct Hend as [_ ?]; [by left|done].
Qed.

(** The goroutine that has the lock, or one of its workers, can go on, as long
    as there is room in [rCh]. *)
Lemma job_progress i mu rch j :
  0 < ncpu → job_inv ncpu j → Forall (good_object conf) (outstanding j) → active j = 1 → (notified j = 0 → rch < ReindexableTypes) →
  (∃ r, job_next ncpu mu rch j = Some r) ∨ worker_can i j.
Proof.
  intros Hcpu Hj Hg Ha Hr. pose proof Hj as [H1 H2 H3 _ H5].
  destruct (j_phase j) as [|[|n]|[|o rest]|y| | | |] eqn:Hph; unfold active, notified in *; rewrite Hph in *; try done;
    unfold job_next; rewrite Hph; try (left; by eexists).
  - destruct (length (j_ch j) <? ncpu) eqn:Hch; [left; by eexists|]. apply Nat.ltb_ge in Hch. right.
    apply workers_progress; [done..| |lia]. unfold to_spawn in H2. rewrite Hph in H2. intros Hw. rewrite Hw in H2. cbn in H2. lia.
  - destruct (y <? length (j_objects j)) eqn:Hy; [|left; rewrite H5; by eexists]. apply Nat.ltb_lt in Hy.
    destruct (j_fCh j) as [|f] eqn:Hf; [|left; by eexists]. right. unfold to_spawn, unsent, collected in *. rewrite Hph in *.
    apply workers_progress; [done..| |cbn in *; lia]. intros Hw. rewrite Hw in H2. cbn in H2. lia.
  - left. rewrite H5. by eexists.
  - left. rewrite (proj2 (Nat.ltb_lt _ _)) by auto. by eexists.
Qed.

(** Once a call is over, its channels are empty, and its workers can only end. *)
Lemma job_over i j :
  job_inv ncpu j → j_phase j = JEnd →
  outstanding j = [] ∧ j_fCh j = 0 ∧ j_mCh j = 0 ∧ (Forall (λ wk, wk = WEnd) (j_workers j) ∨ worker_can i j).
Proof.
  intros [H1 H2 H3 H4 H5] Hph. unfold unsent, collected, sent_all, outstanding in *. rewrite Hph in *. cbn in *.
  destruct (j_ch j) as [|o ch] eqn:Hch; cbn in H1; [|lia].
  assert (concat (map held (j_workers j)) = []) as Hh by (apply length_zero_iff_nil; lia).
  unfold unsent. rewrite Hh, Hph. split_and!; [done|lia|done|].
  destruct (decide (Forall (λ wk, worker_work wk = 0) (j_workers j))) as [Hall|Hsome].
  { left. eapply Forall_impl; [done|]. by intros [] ?. }
  right. apply not_Forall_Exists in Hsome; [|solve_decision].
  apply Exists_exists in Hsome as (wk & (k1 & k2 & Hw)%list_elem_of_split & Hwk). exists k1, wk, k2.
  rewrite Hw, held_app in Hh. rewrite Hw, sum_list_with_app in H1. destruct wk as [|o| |]; cbn in *.
  - eexists. split; [done|]. by rewrite Hch, H3.
  - by apply app_nil in Hh as [_ ?].
  - lia.
  - done.
Qed.
End job.

(** * The whole rebuild *)

(** What is left of the steps of [reindexAll], and the messages it received. *)
Definition stages_left (m : main) : list stage := match m with MLock => all_stages | MStages todo => todo | _ => [] end.
Definition received (m : main) : nat := match m with MRecv u => u | MDone => ReindexableTypes | _ => 0 end.

(** The steps among those left that call [ReIndex]. *)
Definition calls_left (m : main) : nat := length (filter (λ st, st ≠ RClear) (stages_left m)).

Lemma calls_left_cons st todo :
  calls_left (MStages (st :: todo)) = (if decide (st = RClear) then 0 else 1) + calls_left (MStages todo).
Proof. by destruct st. Qed.
#[local] Arguments calls_left : simpl never.

(** What [reindexAll] has still to do. *)
Definition main_work (m : main) : nat := match m with MLock => 8 | MStages todo => Datatypes.S (length todo) | _ => 0 end.

Section rebuild.
  Context (conf : Conf) (ncpu : nat) {S T : Type} {OO : StoreOps S object} {L : StoreLaws S object}.
  Context {TO : TrieOps T} {TL : TrieLaws T}.
  Implicit Types (w : world S T) (p : pool S T).

(** Everything that is yet to be indexed, wherever it is. *)
Definition gathered p : world S T :=
  {| sto := sto (p_world p); index := index (p_world p); pending := pending (p_world p) ++ concat (map outstanding (p_jobs p));
     tasks := tasks (p_world p) |}.

Record pool_inv w0 p : Prop := {
  pi_world : rebuilding conf w0 (gathered p, stages_left (p_main p));
  pi_jobs : Forall (job_inv ncpu) (p_jobs p);
  pi_mutex : sum_list_with active (p_jobs p) = Nat.b2n (p_mutex p);
  pi_calls : length (p_jobs p) + calls_left (p_main p) = ReindexableTypes;
  pi_messages : p_rCh p + received (p_main p) = sum_list_with notified (p_jobs p);
  pi_received : received (p_main p) ≤ ReindexableTypes;
  pi_riM : p_riM p = match p_main p with MStages _ | MRecv _ => true | _ => false end;
}.

Definition pool_work p : nat * nat :=
  (main_work (p_main p),
   sum_list_with (job_work ncpu) (p_jobs p) + p_rCh p + length (pending (p_world p)) +
   match p_main p with MRecv _ => 1 | _ => 0 end).

Lemma gathered_elem w m rm rch mu l1 j l2 o :
  o ∈ pending (gathered (mkPool w m rm rch mu (l1 ++ j :: l2))) ↔
  (o ∈ pending w ∨ o ∈ concat (map outstanding l1) ∨ o ∈ concat (map outstanding l2)) ∨ o ∈ outstanding j.
Proof. unfold gathered. cbn. rewrite map_app, concat_app. cbn. rewrite !elem_of_app. tauto. Qed.

(** How a rebuild that began in [w0] ends: [reindexAll] and every goroutine it
    led to are over, all channels are empty, both locks are free, and the index
    is rebuilt. *)
Record completed w0 p : Prop := {
  cp_main : p_main p = MDone;
  cp_locks : p_riM p = false ∧ p_mutex p = false;
  cp_rCh : p_rCh p = 0;
  cp_calls : length (p_jobs p) = ReindexableTypes;
  cp_jobs : Forall (λ j, j_phase j = JEnd ∧ j_ch j = [] ∧ j_fCh j = 0 ∧ j_mCh j = 0 ∧
    length (j_workers j) = ncpu ∧ Forall (λ wk, wk = WEnd) (j_workers j)) (p_jobs p);
  cp_index : rebuilt conf w0 (p_world p, []);
}.

(** ** What every step keeps *)

Section keep.
  Context (w0 : world S T) (Hgood : ∀ o, searchable conf w0 o → good_object conf o).
  Context (Hstages : ∀ st, ∃ objs, stage_objects conf w0 st = Ok objs).

Lemma stage_call w st :
  sto w = sto w0 → ∃ w' objs, stage_objects conf w0 st = Ok objs ∧
    reindex_stage conf w st = Ok (w', if decide (st = RClear) then None else Some objs) ∧
    sto w' = sto w ∧ pending w' = pending w ∧
    (st ≠ RClear → ∀ idx k, has_doc (index w') idx k ↔ has_doc (index w) idx k) ∧
    (st = RClear → objs = [] ∧ ∀ idx k, ¬ has_doc (index w') idx k).
Proof.
  intros Hs. destruct (Hstages st) as [objs Ho]. pose proof Ho as Ho'. rewrite (stage_objects_sto conf w0 w) in Ho' by done.
  destruct (stage_effect conf w st objs Ho') as (w' & Hw). exists w', objs. tauto.
Qed.

Lemma stage_keeps w st todo rm rch mu js p' :
  pool_inv w0 (mkPool w (MStages (st :: todo)) rm rch mu js) →
  main_next conf (mkPool w (MStages (st :: todo)) rm rch mu js) = Some p' → pool_inv w0 p'.
Proof.
  intros [Hw Hj Hm Hc Hr Hu Hl] Hn. cbn in *.
  destruct (stage_call w st (rb_sto _ _ _ Hw)) as (w' & objs & Ho & Hst & Hs' & Hp' & Hi' & Hc').
  rewrite Hst in Hn. rewrite calls_left_cons in Hc. destruct (decide (st = RClear)) as [->|Hne].
  - injection Hn as <-. destruct (Hc' eq_refl) as [-> Hc'']. split; cbn; try done.
    eapply rebuilding_stage; [done|done|exact Hw|exact Ho| | | | |reflexivity]; [done| |done|done]. intros o. cbn. rewrite Hp'. set_solver.
  - injection Hn as <-. specialize (Hi' Hne). split; cbn; try done.
    + eapply rebuilding_stage; [done|done|exact Hw|exact Ho| | | | |reflexivity]; [done| |done|done].
      intros o. cbn. rewrite Hp', map_app, concat_app. cbn. unfold outstanding at 2. cbn. rewrite !app_nil_r. set_solver.
    + apply Forall_app. split; [done|]. apply Forall_singleton, ReIndex_inv.
    + rewrite sum_list_with_app. cbn. lia.
    + rewrite length_app. cbn. lia.
    + rewrite sum_list_with_app. cbn. lia.
Qed.

Lemma main_keeps p p' : pool_inv w0 p → main_next conf p = Some p' → pool_inv w0 p'.
Proof.
  destruct p as [w [|[|st todo]|u|] rm rch mu js].
  - intros [Hw Hj Hm Hc Hr Hu Hl] Hn. cbn in *. subst rm. injection Hn as <-.
    assert (calls_left MLock = ReindexableTypes) as He by done.
    assert (js = []) as -> by (apply length_zero_iff_nil; lia). by split.
  - intros [Hw Hj Hm Hc Hr Hu Hl] Hn. cbn in *. injection Hn as <-. by split.
  - apply stage_keeps.
  - intros [Hw Hj Hm Hc Hr Hu Hl] Hn. cbn -[Nat.ltb] in *. destruct (u <? _) eqn:Hlt.
    + apply Nat.ltb_lt in Hlt. destruct rch as [|r]; [done|]. injection Hn as <-. split; cbn; try done; lia.
    + apply Nat.ltb_ge in Hlt. injection Hn as <-. split; cbn; try done; lia.
  - done.
Qed.
Lemma index_keeps w w' m rm rch mu js :
  pool_inv w0 (mkPool w m rm rch mu js) → index_step conf w w' → pool_inv w0 (mkPool w' m rm rch mu js).
Proof.
  intros [Hw Hj Hm Hc Hr Hu Hl] Hst. destruct Hst as [w l1 o l2 i Hp Hsave]. split; cbn in *; try done.
  eapply (rebuilding_save conf w0 (gathered _) _ _ o); [exact Hw|..]; cbn; rewrite ?Hp; set_solver.
Qed.

Lemma job_keeps w m rm rch mu l1 j l2 mu' rch' j' :
  pool_inv w0 (mkPool w m rm rch mu (l1 ++ j :: l2)) → job_next ncpu mu rch j = Some (mu', rch', j') →
  pool_inv w0 (mkPool w m rm rch' mu' (l1 ++ j' :: l2)).
Proof.
  intros [Hw Hj Hm Hc Hr Hu Hl] Hn. cbn in *. rewrite sum_list_with_app in Hm, Hr. rewrite length_app in Hc. cbn in Hm, Hr, Hc.
  apply Forall_app in Hj as [Hj1 [Hjj Hj2]%Forall_cons_1].
  destruct (job_next_shared ncpu mu rch j mu' rch' j' Hn) as [Ha Hb]; [intros Ha; destruct mu; cbn in Hm; [done|lia]|].
  split; cbn; rewrite ?sum_list_with_app, ?length_app; cbn; try done; try lia.
  - eapply rebuilding_same; [exact Hw|done|done|]. intros o. rewrite !gathered_elem.
    by rewrite (job_next_outstanding ncpu mu rch j mu' rch' j' o Hn).
  - apply Forall_app. split; [done|]. constructor; [by eapply job_next_inv|done].
Qed.

Lemma worker_keeps w m rm rch mu l1 j l2 k1 wk k2 i' ch' f' wk' :
  pool_inv w0 (mkPool w m rm rch mu (l1 ++ j :: l2)) →
  j_workers j = k1 ++ wk :: k2 → worker_next conf (index w) j wk = Some (i', ch', f', wk') →
  pool_inv w0 (mkPool (set_index w i') m rm rch mu (l1 ++ set_worker j ch' f' (k1 ++ wk' :: k2) :: l2)).
Proof.
  intros [Hw Hj Hm Hc Hr Hu Hl] Hwk Hn. cbn in *. apply Forall_app in Hj as [Hj1 [Hjj Hj2]%Forall_cons_1].
  rewrite sum_list_with_app in Hm, Hr. rewrite length_app in Hc.
  split; cbn; rewrite ?sum_list_with_app, ?length_app; try done.
  - destruct (worker_next_outstanding conf (index w) j k1 wk k2 i' ch' f' wk' Hwk Hn) as [[-> He]|(o & Ho & Hsave & Hsub & Hsup)].
    + eapply rebuilding_same; [exact Hw|done|done|]. intros o. rewrite !gathered_elem. by rewrite He.
    + eapply (rebuilding_save conf w0 (gathered _) _ _ o); [exact Hw|..]; [|done|done|..]; try intros o';
        rewrite !gathered_elem; naive_solver.
  - apply Forall_app. split; [done|]. constructor; [by eapply worker_next_inv|done].
Qed.

Lemma pool_keeps p p' : pool_inv w0 p → pool_step conf ncpu p p' → pool_inv w0 p'.
Proof.
  intros Hi Hs. destruct Hs; [by eapply main_keeps|by eapply index_keeps|by eapply job_keeps|by eapply worker_keeps].
Qed.
(** ** The work that is left *)

Lemma pool_step_work p p' :
  pool_inv w0 p → pool_step conf ncpu p p' →
  (pool_work p').1 < (pool_work p).1 ∨ (pool_work p').1 = (pool_work p).1 ∧ (pool_work p').2 < (pool_work p).2.
Proof.
  intros Hi Hs. destruct Hs as [p p' Hn|w w' m rm rch mu js Hx|w m rm rch mu l1 j l2 mu' rch' j' Hn|w m rm rch mu l1 j l2 k1 wk k2 i' ch' f' wk' Hw Hn].
  - destruct p as [w [|[|st todo]|u|] rm rch mu js]; cbn -[Nat.ltb] in *.
    + destruct rm; [done|]. injection Hn as <-. cbn. lia.
    + injection Hn as <-. cbn. lia.
    + repeat case_match; simplify_eq/=; lia.
    + repeat case_match; simplify_eq/=; lia.
    + done.
  - right. destruct Hx as [w k1 o k2 i Hp _]. cbn. rewrite Hp, !length_app. cbn. lia.
  - right. cbn. rewrite !sum_list_with_app. cbn. pose proof (job_next_work ncpu mu rch j mu' rch' j' Hn). lia.
  - right. cbn. rewrite !sum_list_with_app. cbn.
    pose proof (worker_next_work conf ncpu (index w) j k1 wk k2 i' ch' f' wk' Hw Hn). lia.
Qed.

(** ** No deadlock *)

Section progress.
  Context (Hcpu : 0 < ncpu).

Lemma notified_le js : sum_list_with notified js ≤ length js.
Proof. induction js as [|j js IH]; [done|]. cbn. unfold notified at 1. destruct (j_phase j); lia. Qed.

Lemma pool_good w m rm rch mu l1 j l2 :
  pool_inv w0 (mkPool w m rm rch mu (l1 ++ j :: l2)) → job_inv ncpu j ∧ Forall (good_object conf) (outstanding j).
Proof.
  intros Hp. pose proof (pi_jobs _ _ Hp) as Hj. cbn in Hj. apply Forall_app in Hj as [_ [Hj _]%Forall_cons_1]. split; [done|].
  pose proof (rb_good _ _ _ (pi_world _ _ Hp)) as Hg. rewrite Forall_forall in Hg. apply Forall_forall. intros o Ho.
  apply Hg. apply gathered_elem. by right.
Qed.

Lemma worker_can_step w m rm rch mu l1 j l2 :
  worker_can conf (index w) j → ∃ p', pool_step conf ncpu (mkPool w m rm rch mu (l1 ++ j :: l2)) p'.
Proof. intros (k1 & wk & k2 & [[[i' ch'] f'] wk'] & Hw & Hn). eexists. by eapply pl_worker. Qed.

Lemma active_progress w m rm rch mu l1 j l2 :
  pool_inv w0 (mkPool w m rm rch mu (l1 ++ j :: l2)) → active j = 1 →
  ∃ p', pool_step conf ncpu (mkPool w m rm rch mu (l1 ++ j :: l2)) p'.
Proof.
  intros Hp Ha. destruct (pool_good _ _ _ _ _ _ _ _ Hp) as [Hj Hg].
  destruct (job_progress conf ncpu (index w) mu rch j Hcpu Hj Hg Ha) as [[[[mu' rch'] j'] Hn]|Hw].
  - intros Hz. pose proof (pi_messages _ _ Hp) as Hr. pose proof (pi_calls _ _ Hp) as Hc. cbn in Hr, Hc.
    rewrite sum_list_with_app in Hr. rewrite length_app in Hc. cbn in Hr, Hc.
    pose proof (notified_le l1). pose proof (notified_le l2). lia.
  - eexists. by eapply pl_job.
  - by apply worker_can_step.
Qed.

(** A call that is not over can go on, or another one has the lock and can. *)
Lemma running_progress w m rm rch mu js j :
  pool_inv w0 (mkPool w m rm rch mu js) → j ∈ js → j_phase j ≠ JEnd →
  ∃ p', pool_step conf ncpu (mkPool w m rm rch mu js) p'.
Proof.
  intros Hp Hin Hne. destruct (decide (active j = 1)) as [Ha|Ha].
  { apply list_elem_of_split in Hin as (l1 & l2 & ->). by apply active_progress. }
  assert (j_phase j = JLock) as Hph by (unfold active in Ha; by destruct (j_phase j)).
  destruct mu eqn:Hmu.
  - pose proof (pi_mutex _ _ Hp) as Hm. cbn in Hm.
    assert (∃ j', j' ∈ js ∧ active j' = 1) as (j' & (l1 & l2 & ->)%list_elem_of_split & Ha'); [|by apply active_progress].
    clear -Hm. induction js as [|j js IH]; cbn in Hm; [done|]. destruct (decide (active j = 1)) as [Ha|Ha]; [set_solver|].
    assert (active j = 0) as Hz by (unfold active in *; by destruct (j_phase j)).
    destruct IH as (j' & ? & ?); [lia|]. set_solver.
  - apply list_elem_of_split in Hin as (l1 & l2 & ->). eexists. eapply pl_job. unfold job_next. by rewrite Hph.
Qed.

Lemma main_progress w m rm rch mu js :
  pool_inv w0 (mkPool w m rm rch mu js) → m ≠ MDone → ∃ p', pool_step conf ncpu (mkPool w m rm rch mu js) p'.
Proof.
  intros Hp Hm. pose proof Hp as [Hw _ _ Hc Hr _ Hl]. cbn in *. destruct m as [|[|st todo]|u|]; [..|done].
  - subst rm. eexists. by apply pl_main.
  - eexists. by apply pl_main.
  - destruct (stage_call w st (rb_sto _ _ _ Hw)) as (w' & objs & _ & Hst & _).
    destruct (decide (st = RClear)); eexists; apply pl_main; cbn; by rewrite Hst.
  - destruct (u <? ReindexableTypes) eqn:Hu; [|eexists; apply pl_main; unfold main_next; by rewrite Hu].
    destruct rch as [|r]; [|eexists; apply pl_main; unfold main_next; by rewrite Hu].
    apply Nat.ltb_lt in Hu. assert (∃ j, j ∈ js ∧ notified j = 0) as (j & Hin & Hj).
    { assert (sum_list_with notified js < length js) as Hlt by (unfold calls_left in Hc; cbn in Hc, Hr; lia).
      clear -Hlt. induction js as [|j js IH]; cbn in Hlt; [lia|]. destruct (decide (notified j = 0)) as [?|?]; [set_solver|].
      destruct IH as (j' & ? & ?); [lia|]. set_solver. }
    eapply running_progress; [done..|]. intros Hph. unfold notified in Hj. by rewrite Hph in Hj.
Qed.

Lemma jobs_progress w rm rch mu js :
  pool_inv w0 (mkPool w MDone rm rch mu js) →
  (∀ j, j ∈ js → j_phase j = JEnd) ∨ ∃ p', pool_step conf ncpu (mkPool w MDone rm rch mu js) p'.
Proof.
  intros Hp. destruct (decide (Forall (λ j, active j = 0 ∧ notified j = 1) js)) as [Hall|Hsome].
  - left. intros j Hin. rewrite Forall_forall in Hall. destruct (Hall j Hin) as [Ha Hn]. unfold active, notified in *.
    by destruct (j_phase j).
  - right. apply not_Forall_Exists in Hsome; [|solve_decision]. apply Exists_exists in Hsome as (j & Hin & Hj).
    eapply running_progress; [done..|]. intros Hph. apply Hj. unfold active, notified. by rewrite Hph.
Qed.

Lemma workers_end w m rm rch mu js :
  pool_inv w0 (mkPool w m rm rch mu js) → (∀ j, j ∈ js → j_phase j = JEnd) →
  Forall (λ j, outstanding j = [] ∧ j_phase j = JEnd ∧ j_ch j = [] ∧ j_fCh j = 0 ∧ j_mCh j = 0 ∧
    length (j_workers j) = ncpu ∧ Forall (λ wk, wk = WEnd) (j_workers j)) js ∨
  ∃ p', pool_step conf ncpu (mkPool w m rm rch mu js) p'.
Proof.
  intros Hp Hph. pose proof (pi_jobs _ _ Hp) as Hj. cbn in Hj. rewrite Forall_forall in Hj.
  destruct (decide (Exists (λ j, Exists (λ wk, worker_work wk ≠ 0) (j_workers j)) js)) as [He|He].
  - right. apply Exists_exists in He as (j & Hin & He). destruct (job_over conf ncpu (index w) j) as (_ & _ & _ & [Hf|Hcan]); [auto..| |].
    + exfalso. apply Exists_exists in He as (wk & Hwk & Hne). rewrite Forall_forall in Hf. by rewrite (Hf wk Hwk) in Hne.
    + apply list_elem_of_split in Hin as (l1 & l2 & ->). by apply worker_can_step.
  - left. apply Forall_forall. intros j Hin. destruct (job_over conf ncpu (index w) j) as (Ho & Hf & Hmc & _); [auto..|].
    pose proof (ji_workers _ _ (Hj j Hin)) as Hn. unfold to_spawn in Hn. rewrite (Hph j Hin), Nat.add_0_r in Hn.
    pose proof Ho as (_ & [Hch _]%app_nil)%app_nil. split_and!; auto. apply Forall_forall. intros wk Hin'.
    destruct wk; [|..|done]; exfalso; apply He, Exists_exists; exists j; (split; [done|]); apply Exists_exists; eauto.
Qed.

Lemma pool_progress p :
  (∀ w, rebuilding conf w0 (w, []) → pending w = [] → rebuilt conf w0 (w, [])) →
  pool_inv w0 p → completed w0 p ∨ ∃ p', pool_step conf ncpu p p'.
Proof.
  intros Hend Hp. destruct p as [w m rm rch mu js]. destruct m as [|todo|u|]; [right; by apply main_progress..|].
  destruct (jobs_progress w rm rch mu js Hp) as [Hph|?]; [|by right].
  destruct (workers_end w MDone rm rch mu js Hp Hph) as [Hover|?]; [|by right].
  pose proof Hp as [Hw _ Hm Hc Hr _ Hl]. cbn in *. destruct (pending w) as [|o l] eqn:Hpend.
  2: { right. pose proof (rb_good _ _ _ Hw) as Hg. cbn in Hg. rewrite Hpend in Hg. apply Forall_app in Hg as [[Hgo _]%Forall_cons_1 _].
       destruct (SaveItem_good conf (index w) o Hgo) as [i Hi]. eexists. by eapply pl_index, (index_one conf w [] o l i). }
  left. assert (concat (map outstanding js) = [] ∧ sum_list_with active js = 0) as [Hout Hact].
  { clear -Hover. induction Hover as [|j js (Ho & Hj & _) _ [IH IH']]; [done|]. cbn. rewrite Ho, IH, IH'.
    unfold active. by rewrite Hj. }
  unfold calls_left in Hc. pose proof (notified_le js). cbn in Hc. split; cbn; try done; try lia.
  - split; [done|]. destruct mu; [|done]. by rewrite Hact in Hm.
  - eapply Forall_impl; [exact Hover|]. cbn. tauto.
  - apply Hend; [|done]. eapply rebuilding_same; [exact Hw|done|done|]. cbn. by rewrite Hout, app_nil_r.
Qed.
End progress.
End keep.

(** ** Every rebuild ends *)

Section complete.
  Context (w0 : world S T) (Hcpu : 0 < ncpu) (Hi : st_inv (sto w0)).
  Context (Hcl : kind_wf (A := Client) (sto w0)) (Hno : kind_wf (A := Node) (sto w0)).
  Context (Hro : kind_wf (A := Role) (sto w0)) (Hen : kind_wf (A := ChefEnvironment) (sto w0)).
  Context (Hba : kind_wf (A := DataBag) (sto w0)).

Lemma pool_start : Forall (good_object conf) (pending w0) → pool_inv w0 (reindexAll w0).
Proof.
  intros Hg. split; cbn; try done; try lia. eapply rebuilding_same; [by apply (rebuilding_start conf (L := L) (TO := TO))|done|done|].
  cbn. by rewrite app_nil_r.
Qed.

(** C14: a rebuild of the index on a server with at least one processor, on a
    stored state that nothing changes meanwhile and whose objects can be indexed
    (each has at least one line, all lines of an object are distinct valid
    UTF-8), ends in whatever order [reindexAll], the goroutines of [ReIndex],
    their workers and the goroutines of [IndexObj] run: no deadlock, no endless
    run. Then all of these goroutines are over, all channels are empty, both
    locks are free, every stored node, role, client and data bag item is
    indexed, and the index holds no document but those of stored objects and of
    objects that were being indexed when the rebuild began. *)
Theorem reindex_completes :
  Forall (good_object conf) (pending w0) → (∀ o, searchable conf w0 o → good_object conf o) →
  eventually (pool_step conf ncpu) (completed w0) (reindexAll w0).
Proof.
  intros Hg Hall. pose proof (stage_objects_ok conf w0 Hi Hcl Hno Hro Hen Hba) as Hst.
  apply (eventually_measure _ _ (pool_inv w0) pool_work).
  - intros p p'. by apply pool_keeps.
  - intros p. apply pool_progress; [done..|]. intros w. by apply (rebuilding_rebuilt conf (L := L) (TO := TO)).
  - intros p p'. by apply pool_step_work.
  - by apply pool_start.
Qed.
End complete.
End rebuild.

(** * A concrete rebuild *)

#[local] Existing Instances words_trie words_trie_laws.

Lemma reindex_completes_witness :
  eventually (pool_step default_conf 2) (completed default_conf 2 unindexed) (reindexAll unindexed) ∧
  load (A := Node) (sto unindexed) "web1" = Ok (Some (gob_node demo_web1)) ∧ ¬ has_doc (index unindexed) "node" "web1".
Proof.
  split; [|split].
  - assert (kind_wf (A := Node) (sto unindexed)) as Hn by (apply store_kind_wf; done).
    apply (reindex_completes default_conf 2 (L := _) (TL := _) unindexed); [lia|by apply store_inv|by apply unindexed_kind|done|by apply unindexed_kind..|constructor|apply unindexed_good].
  - reflexivity.
  - intros (ic & Hic & Hd). vm_compute in Hic. injection Hic as <-. by destruct Hd.
Defined.
