(* ===== verification/Http.v ===== *)
(** Requests, responses and the state in which the request handlers of the
    main package run (src/common.go, src/head.go, src/reqctx/reqctx.go), and a
    small program logic for handlers. *)
From S2P Require Import Prelude Gerror Iface Config Store Datastore Tables UtilStrings Objects Validations Flatten.
From S2P Require Import FileIndex World Nodes Roles Environments Sandboxes Clients Users DataBags Loginfo.

(** * Requests and responses *)

Inductive method : Set := GET | HEAD | PUT | POST | DELETE | OTHER (name : string).

#[export] Instance method_eq_dec : EqDecision method.
Proof. solve_decision. Defined.

Definition method_name (m : method) : string :=
  match m with
  | GET => "GET" | HEAD => "HEAD" | PUT => "PUT" | POST => "POST" | DELETE => "DELETE" | OTHER name => name
  end.

(** What [net] says of an address: whether it is a loopback address, and
    whether the configuration lists it. *)
Record peer : Set := { p_IsLoopback : bool; p_PprofWhitelisted : bool }.

(** What a request brings along.  The names of the headers are in canonical
    form.  [r_Content] is the text of the body, and [r_Body] what
    [json.Decoder] makes of it when it decodes into a map: an error, or a map,
    or nil for the JSON value null; [r_gunzip] is the error of a body that is
    said to be compressed and is not.  [r_Form] is what [ParseForm] finds, and
    [r_Query] what [url.ParseQuery] makes of the query alone, or its error.
    [r_remote] is the peer, unless its
    address is malformed, and [r_forwarded] the last one it forwards for.  The
    rest is what the server draws while it handles the request: the time,
    random ids for a sandbox or a job, a salt, and a pair of keys.  [r_opUser] is the
    actor in the request's context. *)
Record Request : Type := {
  r_Method : method;
  r_Path : string;
  r_Header : list (string * list string);
  r_Content : string;
  r_Body : string + option jmap;
  r_gunzip : option string;
  r_ContentLength : Z;
  r_Form : list (string * list string);
  r_Query : list (string * list string) + string;
  r_remote : option peer;
  r_forwarded : peer;
  r_opUser : option Actor;
  r_now : Z;
  r_ids : list string;
  r_salt : string;
  r_keys : (string * string) + string;
}.

(** [r.Header.Get], for a name in canonical form. *)
Definition Header_Get (r : Request) (k : string) : string :=
  match mlookup k (r_Header r) with Some (v :: _) => v | _ => EmptyString end.

Definition r_Accept (r : Request) : list string := default [] (mlookup "Accept" (r_Header r)).

Definition r_Source (r : Request) : string := Header_Get r "X-Ops-Request-Source".

Definition set_path (r : Request) (p : string) : Request :=
  {| r_Method := r_Method r; r_Path := p; r_Header := r_Header r; r_Content := r_Content r; r_Body := r_Body r;
     r_gunzip := r_gunzip r; r_ContentLength := r_ContentLength r; r_Form := r_Form r; r_Query := r_Query r; r_remote := r_remote r;
     r_forwarded := r_forwarded r; r_opUser := r_opUser r; r_now := r_now r; r_ids := r_ids r; r_salt := r_salt r;
     r_keys := r_keys r |}.

Definition set_opUser (r : Request) (a : option Actor) : Request :=
  {| r_Method := r_Method r; r_Path := r_Path r; r_Header := r_Header r; r_Content := r_Content r; r_Body := r_Body r;
     r_gunzip := r_gunzip r; r_ContentLength := r_ContentLength r; r_Form := r_Form r; r_Query := r_Query r; r_remote := r_remote r;
     r_forwarded := r_forwarded r; r_opUser := a; r_now := r_now r; r_ids := r_ids r; r_salt := r_salt r;
     r_keys := r_keys r |}.

(** What is written: a status line, or a body. *)
Inductive reply_body : Type :=
| BError (text : string)
| BJson (v : iface)
| BObject (o : GoiardiObj)
| BDeps (deps : list (string * jmap))
| BBytes (text : string).

Inductive write : Type := WHeader (status : Z) | WBody (b : reply_body).

(** The status of a response: the first one written, and 200 when a body, or
    nothing, comes first. *)
Definition resp_status (ws : list write) : Z :=
  match ws with WHeader st :: _ => st | _ => StatusOK end.

(** * Handlers *)

(** A step of a handler gives a value, returns from the handler, or panics;
    the server survives a panic with the state it left. *)
Inductive hout (A : Type) : Type :=
| HVal (a : A)
| HReturn
| HPanic (p : panic).
Arguments HVal {A} a.
Arguments HReturn {A}.
Arguments HPanic {A} p.

Record hstate (S T : Type) : Type := { hs_world : world S T; hs_resp : list write }.
Arguments hs_world {S T} h.
Arguments hs_resp {S T} h.
Add Printing Constructor hstate.

Definition handler (S T A : Type) : Type := hstate S T → hout A * hstate S T.

#[export] Instance handler_ret {S T} : MRet (handler S T) := λ A a σ, (HVal a, σ).

#[export] Instance handler_bind {S T} : MBind (handler S T) := λ A B f m σ,
  match m σ with
  | (HVal a, σ) => f a σ
  | (HReturn, σ) => (HReturn, σ)
  | (HPanic p, σ) => (HPanic p, σ)
  end.

Section prims.
  Context {S T : Type}.

Definition write_out (x : write) : handler S T () :=
  λ σ, (HVal (), {| hs_world := hs_world σ; hs_resp := hs_resp σ ++ [x] |}).

(** [return]. *)
Definition stop {A} : handler S T A := λ σ, (HReturn, σ).

Definition crash {A} (p : panic) : handler S T A := λ σ, (HPanic p, σ).

(** Encoding a value into the response. *)
Definition Encode (b : reply_body) : handler S T () := write_out (WBody b).

Definition WriteHeader (st : Z) : handler S T () := write_out (WHeader st).

(** [jsonErrorReport], alone and followed by [return]. *)
Definition report_on (text : string) (st : Z) : handler S T () :=
  WriteHeader st ≫= λ _, Encode (BError text).

Definition jsonErrorReport {A} (text : string) (st : Z) : handler S T A :=
  WriteHeader st ≫= λ _, Encode (BError text) ≫= λ _, stop.

(** A call that looks at the state; its error is handled by [h]. *)
Definition ask {A} (f : world S T → outcome A) (h : gerror → handler S T A) : handler S T A :=
  λ σ, match f (hs_world σ) with
       | Ok a => (HVal a, σ)
       | Err e => h e σ
       | Panic p => (HPanic p, σ)
       end.

(** A call that changes the state; when it fails the state stays. *)
Definition change (f : world S T → outcome (world S T)) (h : gerror → handler S T ()) : handler S T () :=
  λ σ, match f (hs_world σ) with
       | Ok w => (HVal (), {| hs_world := w; hs_resp := hs_resp σ |})
       | Err e => h e σ
       | Panic p => (HPanic p, σ)
       end.

Definition change_with {A} (f : world S T → outcome (world S T * A)) (h : gerror → handler S T A)
    : handler S T A :=
  λ σ, match f (hs_world σ) with
       | Ok (w, a) => (HVal a, {| hs_world := w; hs_resp := hs_resp σ |})
       | Err e => h e σ
       | Panic p => (HPanic p, σ)
       end.

(** A call that may change the state before it fails. *)
Definition act {A} (f : world S T → outcome A * world S T) (h : gerror → handler S T A) : handler S T A :=
  λ σ, match f (hs_world σ) with
       | (Ok a, w) => (HVal a, {| hs_world := w; hs_resp := hs_resp σ |})
       | (Err e, w) => h e {| hs_world := w; hs_resp := hs_resp σ |}
       | (Panic p, w) => (HPanic p, {| hs_world := w; hs_resp := hs_resp σ |})
       end.

(** A pure call. *)
Definition call {A} (m : outcome A) (h : gerror → handler S T A) : handler S T A := ask (λ _, m) h.

(** ** src/reqctx/reqctx.go, src/common.go *)

Definition CtxReqUser (r : Request) : handler S T Actor :=
  match r_opUser r with
  | Some a => mret a
  | None => jsonErrorReport "Surprisingly, there was no actor for this request, and there should have been."
              StatusBadRequest
  end.

(** [r.URL.Path[n:]]. *)
Definition path_from (n : nat) (r : Request) : handler S T string :=
  if (n <=? String.length (r_Path r))%nat then mret (str_from n (r_Path r)) else crash IndexOutOfRange.

Definition splitPath (path : string) : handler S T (list string) :=
  match path with
  | EmptyString => crash IndexOutOfRange
  | String _ rest => mret (str_split "/" rest)
  end.

(** [pathArray[i]]. *)
Definition elem (l : list string) (i : nat) : handler S T string :=
  match l !! i with Some x => mret x | None => crash IndexOutOfRange end.
End prims.

Definition bad_run_list : gerror := New "Field 'run_list' is not a valid run list".

Fixpoint run_list_strings (o : list iface) : outcome (list string) :=
  match o with
  | [] => Ok []
  | IStr v :: r => l ← run_list_strings r; Ok (v :: l)
  | _ :: _ => Err bad_run_list
  end.

Definition chkRunList (rl : iface) : outcome (list string) :=
  match rl with IArr o => run_list_strings o | _ => Err bad_run_list end.

Definition bad_env_lists : gerror := New "Field 'env_run_lists' contains invalid run lists".

Fixpoint env_lists (erl : jmap) : outcome (list (string * list string)) :=
  match erl with
  | [] => Ok []
  | (i, v) :: r =>
      match chkRunList v with
      | Ok l => m ← env_lists r; Ok ((i, l) :: m)
      | Err _ => Err bad_env_lists
      | Panic p => Panic p
      end
  end.

Definition attribute_keys : list string :=
  ["normal"; "default"; "automatic"; "override"; "default_attributes"; "override_attributes"].

(** Attributes that are null become empty. *)
Definition fill_attributes (objData : jmap) : jmap :=
  foldl (λ m k, match mlookup k m with Some INil => mset k (IMap []) m | _ => m end) objData attribute_keys.

Definition checkAttrs (objData : jmap) : outcome jmap :=
  objData ← (match mlookup "run_list" objData with
             | Some rl => l ← chkRunList rl; Ok (mset "run_list" (IStrs l) objData)
             | None => Ok objData
             end);
  objData ← (match mlookup "env_run_lists" objData with
             | Some (IMap erl) => m ← env_lists erl; Ok (mset "env_run_lists" (IMapStrs m) objData)
             | Some _ => Err bad_env_lists
             | None => Ok objData
             end);
  Ok (fill_attributes objData).

(** [parseObjJSON]: the map may be nil. *)
Definition parseObjJSON (r : Request) : outcome (option jmap) :=
  match r_Body r with
  | inl e => Err (New e)
  | inr None => Ok None
  | inr (Some m) => m ← checkAttrs m; Ok (Some m)
  end.

(** Reading a nil map finds nothing, and writing to it panics. *)
Definition nread (m : option jmap) : jmap := match m with Some m => m | None => [] end.

Definition nwrite {S T} (k : string) (v : iface) (m : option jmap) : handler S T (option jmap) :=
  match m with Some m => mret (Some (mset k v m)) | None => crash NilDeref end.

Definition checkAccept (r : Request) (acceptType : string) : outcome () :=
  if existsb (λ at_, bool_decide (at_ = "*/*") || bool_decide (at_ = acceptType)) (r_Accept r) then Ok ()
  else Err (New ("Client cannot accept content type " +:+ acceptType)).

(** * Actors *)

Section actor.
  Context (conf : Conf).

Definition IsAdmin (a : Actor) : bool :=
  match a with AClient c => Clients.IsAdmin conf c | AUser u => Users.IsAdmin conf u end.

Definition a_IsValidator (a : Actor) : bool :=
  match a with AClient c => Clients.IsValidator conf c | AUser _ => false end.

(** A client is never a user. *)
Definition IsSelf (a other : Actor) : bool :=
  match a, other with
  | AClient c, AClient c' => Clients.IsSelf conf c c'
  | AUser u, AUser u' => Users.IsSelf conf u u'
  | _, _ => negb (UseAuth conf)
  end.

(** [opUser.IsClient() && opUser.( *client.Client).NodeName == nodeName]. *)
Definition is_node_client (a : Actor) (nodeName : string) : bool :=
  match a with AClient c => bool_decide (c_NodeName c = nodeName) | AUser _ => false end.
End actor.

(** [CheckPermEdit] of a user and of any actor. *)
Definition user_CheckPermEdit (userData : jmap) (perm : string) : outcome () :=
  match mlookup perm userData with
  | Some (IBool true) => Err (SetStatus (Errorf "You are not allowed to take this action.") StatusForbidden)
  | _ => Ok ()
  end.

Definition a_CheckPermEdit (a : Actor) (data : jmap) (perm : string) : outcome () :=
  match a with AClient _ => Clients.CheckPermEdit data perm | AUser _ => user_CheckPermEdit data perm end.

(** * HEAD responses (src/head.go) *)

Section head.
  Context {S T : Type}.

Definition headResponse (st : Z) : handler S T () := WriteHeader st.

Definition headDefaultResponse : handler S T () := WriteHeader StatusOK.

Definition headForbidden : gerror := StatusError "forbidden" StatusForbidden.

(** A call whose error is looked at later. *)
Definition probe {A} (f : world S T → outcome A) : handler S T (A + gerror) :=
  λ σ, match f (hs_world σ) with
       | Ok a => (HVal (inl a), σ)
       | Err e => (HVal (inr e), σ)
       | Panic p => (HPanic p, σ)
       end.

(** [headChecking] writes every status that applies; the first one counts. *)
Definition headChecking (doesExist : world S T → outcome bool) (permCheck : world S T → outcome ())
    : handler S T () :=
  found ← probe doesExist;
  (match found with inr e => headResponse (Status e) | inl _ => mret () end) ≫= λ _,
  allowed ← probe permCheck;
  (match allowed with inr e => headResponse (Status e) | inl _ => mret () end) ≫= λ _,
  (match found with inl true => mret () | _ => headResponse StatusNotFound end) ≫= λ _,
  headResponse StatusOK.

Definition nilPermCheck (w : world S T) : outcome () := Ok ().

(** The check of most endpoints: validators may not look. *)
Definition validator_check (conf : Conf) (opUser : Actor) (w : world S T) : outcome () :=
  if a_IsValidator conf opUser then Err headForbidden else Ok ().
End head.

(** * Reasoning about handlers *)

Section logic.
  Context {S T : Type}.
  Implicit Types (σ : hstate S T) (w : world S T).

(** Whatever way the handler ends, the postcondition holds of it. *)
Definition wp {A} (h : handler S T A) (Q : hout A → hstate S T → Prop) σ : Prop := Q (h σ).1 (h σ).2.

(** A postcondition for a first step and what follows it. *)
Definition then_ {A B} (f : A → handler S T B) (Q : hout B → hstate S T → Prop) : hout A → hstate S T → Prop :=
  λ o σ, match o with
         | HVal a => wp (f a) Q σ
         | HReturn => Q HReturn σ
         | HPanic p => Q (HPanic p) σ
         end.

Lemma wp_bind {A B} (m : handler S T A) (f : A → handler S T B) Q σ :
  wp m (then_ f Q) σ → wp (m ≫= f) Q σ.
Proof. unfold wp, then_, mbind, handler_bind. by destruct (m σ) as [[] ?]. Qed.

Lemma wp_ret {A} (a : A) (Q : hout A → hstate S T → Prop) σ : Q (HVal a) σ → wp (mret a) Q σ.
Proof. done. Qed.

Lemma wp_stop {A} (Q : hout A → hstate S T → Prop) σ : Q HReturn σ → wp stop Q σ.
Proof. done. Qed.

Lemma wp_crash {A} p (Q : hout A → hstate S T → Prop) σ : Q (HPanic p) σ → wp (crash p) Q σ.
Proof. done. Qed.

Lemma wp_write x (Q : hout () → hstate S T → Prop) σ :
  Q (HVal ()) {| hs_world := hs_world σ; hs_resp := hs_resp σ ++ [x] |} → wp (write_out x) Q σ.
Proof. done. Qed.

Lemma wp_report {A} text st (Q : hout A → hstate S T → Prop) σ :
  Q HReturn {| hs_world := hs_world σ; hs_resp := (hs_resp σ ++ [WHeader st]) ++ [WBody (BError text)] |} →
  wp (jsonErrorReport text st) Q σ.
Proof. done. Qed.

Lemma wp_ask {A} (f : world S T → outcome A) h Q σ :
  (∀ a, f (hs_world σ) = Ok a → Q (HVal a) σ) →
  (∀ e, f (hs_world σ) = Err e → wp (h e) Q σ) →
  (∀ p, f (hs_world σ) = Panic p → Q (HPanic p) σ) →
  wp (ask f h) Q σ.
Proof. intros H1 H2 H3. unfold wp, ask. destruct (f (hs_world σ)) as [a|e|p]; [by apply H1|by apply H2|by apply H3]. Qed.

Lemma wp_probe {A} (f : world S T → outcome A) Q σ :
  (∀ a, f (hs_world σ) = Ok a → Q (HVal (inl a)) σ) →
  (∀ e, f (hs_world σ) = Err e → Q (HVal (inr e)) σ) →
  (∀ p, f (hs_world σ) = Panic p → Q (HPanic p) σ) →
  wp (probe f) Q σ.
Proof. intros H1 H2 H3. unfold wp, probe. destruct (f (hs_world σ)) as [a|e|p]; [by apply H1|by apply H2|by apply H3]. Qed.

Lemma wp_change f h (Q : hout () → hstate S T → Prop) σ :
  (∀ w, f (hs_world σ) = Ok w → Q (HVal ()) {| hs_world := w; hs_resp := hs_resp σ |}) →
  (∀ e, f (hs_world σ) = Err e → wp (h e) Q σ) →
  (∀ p, f (hs_world σ) = Panic p → Q (HPanic p) σ) →
  wp (change f h) Q σ.
Proof. intros H1 H2 H3. unfold wp, change. destruct (f (hs_world σ)) as [a|e|p]; [by apply H1|by apply H2|by apply H3]. Qed.

Lemma wp_change_with {A} f h (Q : hout A → hstate S T → Prop) σ :
  (∀ w a, f (hs_world σ) = Ok (w, a) → Q (HVal a) {| hs_world := w; hs_resp := hs_resp σ |}) →
  (∀ e, f (hs_world σ) = Err e → wp (h e) Q σ) →
  (∀ p, f (hs_world σ) = Panic p → Q (HPanic p) σ) →
  wp (change_with f h) Q σ.
Proof. intros H1 H2 H3. unfold wp, change_with. destruct (f (hs_world σ)) as [[w a]|e|p]; [by apply H1|by apply H2|by apply H3]. Qed.

Lemma wp_act {A} f h (Q : hout A → hstate S T → Prop) σ :
  (∀ a w, f (hs_world σ) = (Ok a, w) → Q (HVal a) {| hs_world := w; hs_resp := hs_resp σ |}) →
  (∀ e w, f (hs_world σ) = (Err e, w) → wp (h e) Q {| hs_world := w; hs_resp := hs_resp σ |}) →
  (∀ p w, f (hs_world σ) = (Panic p, w) → Q (HPanic p) {| hs_world := w; hs_resp := hs_resp σ |}) →
  wp (act f h) Q σ.
Proof.
  intros H1 H2 H3. unfold wp, act. destruct (f (hs_world σ)) as [[a|e|p] w]; [by apply H1|by apply H2|by apply H3].
Qed.

Lemma wp_mono {A} (h : handler S T A) (P Q : hout A → hstate S T → Prop) σ :
  wp h P σ → (∀ o σ', P o σ' → Q o σ') → wp h Q σ.
Proof. unfold wp. auto. Qed.
End logic.

(** One step of a handler: binds are entered, tests are split, and calls leave
    their outcomes in the context. *)
Ltac hstep :=
  match goal with
  | |- wp (_ ≫= _) _ _ => apply wp_bind
  | |- wp (mbind _ _) _ _ => apply wp_bind
  | |- wp (mret _) _ _ => apply wp_ret; cbn [then_ hs_world hs_resp]
  | |- wp stop _ _ => apply wp_stop; cbn [then_ hs_world hs_resp]
  | |- wp (crash _) _ _ => apply wp_crash; cbn [then_ hs_world hs_resp]
  | |- wp (write_out _) _ _ => apply wp_write; cbn [then_ hs_world hs_resp]
  | |- wp (WriteHeader _) _ _ => apply wp_write; cbn [then_ hs_world hs_resp]
  | |- wp (headResponse _) _ _ => apply wp_write; cbn [then_ hs_world hs_resp]
  | |- wp headDefaultResponse _ _ => apply wp_write; cbn [then_ hs_world hs_resp]
  | |- wp (Encode _) _ _ => apply wp_write; cbn [then_ hs_world hs_resp]
  | |- wp (jsonErrorReport _ _) _ _ => apply wp_report; cbn [then_ hs_world hs_resp]
  | |- wp (call _ _) _ _ => unfold call
  | |- wp (ask _ _) _ _ => apply wp_ask; cbn [then_ hs_world hs_resp];
      [let a := fresh "a" in let E := fresh "E" in intros a E
      |let e := fresh "e" in let E := fresh "E" in intros e E
      |let p := fresh "p" in let E := fresh "E" in intros p E]
  | |- wp (probe _) _ _ => apply wp_probe; cbn [then_ hs_world hs_resp];
      [let a := fresh "a" in let E := fresh "E" in intros a E
      |let e := fresh "e" in let E := fresh "E" in intros e E
      |let p := fresh "p" in let E := fresh "E" in intros p E]
  | |- wp (change _ _) _ _ => apply wp_change; cbn [then_ hs_world hs_resp];
      [let w := fresh "w" in let E := fresh "E" in intros w E
      |let e := fresh "e" in let E := fresh "E" in intros e E
      |let p := fresh "p" in let E := fresh "E" in intros p E]
  | |- wp (change_with _ _) _ _ => apply wp_change_with; cbn [then_ hs_world hs_resp];
      [let w := fresh "w" in let a := fresh "a" in let E := fresh "E" in intros w a E
      |let e := fresh "e" in let E := fresh "E" in intros e E
      |let p := fresh "p" in let E := fresh "E" in intros p E]
  | |- wp (act _ _) _ _ => apply wp_act; cbn [then_ hs_world hs_resp];
      [let a := fresh "a" in let w := fresh "w" in let E := fresh "E" in intros a w E
      |let e := fresh "e" in let w := fresh "w" in let E := fresh "E" in intros e w E
      |let p := fresh "p" in let w := fresh "w" in let E := fresh "E" in intros p w E]
  | |- wp (CtxReqUser ?r) _ _ => unfold CtxReqUser; let E := fresh "Eop" in destruct (r_opUser r) eqn:E
  | |- wp (path_from _ _) _ _ => unfold path_from
  | |- wp (splitPath ?p) _ _ => unfold splitPath; let E := fresh "Ep" in destruct p eqn:E
  | |- wp (elem ?l ?i) _ _ => unfold elem; let E := fresh "El" in destruct (l !! i) eqn:E
  | |- wp (nwrite _ _ ?m) _ _ => unfold nwrite; let E := fresh "Em" in destruct m eqn:E
  | |- wp (headChecking _ _) _ _ => unfold headChecking
  | |- wp (if ?b then _ else _) _ _ => let E := fresh "Eb" in destruct b eqn:E
  | |- wp (match ?x with _ => _ end) _ _ => let E := fresh "Ex" in destruct x eqn:E
  end.
