(* ===== verification/Statuses.v ===== *)
(** The statuses of nodes over time (src/node/status.go), on the status table
    of the data store: recording them, the nodes by their latest status, and
    the removal of old statuses. *)
From S2P Require Import Prelude SortSearch Gerror Iface Config Store Datastore Tables UtilStrings Objects Validations.
From S2P Require Import Flatten FileIndex World Nodes Loginfo.

Section statuses.
  Context (conf : Conf) {EN : Encoder} {S T : Type} {OO : StoreOps S object} {TB : TableOps S object} {TO : TrieOps T}.
  Implicit Types (w : world S T) (n : Node) (ns : NodeStatus).

(** * Definitions *)

(** [ByTime]. *)
Definition time_less (a b : NodeStatus) : bool := (ns_UpdatedAt a <? ns_UpdatedAt b)%Z.

Definition set_isDown n (down : bool) : Node :=
  {| n_Name := n_Name n; n_ChefEnvironment := n_ChefEnvironment n; n_RunList := n_RunList n;
     n_JSONClass := n_JSONClass n; n_ChefType := n_ChefType n; n_Automatic := n_Automatic n;
     n_Normal := n_Normal n; n_Default := n_Default n; n_Override := n_Override n; n_isDown := down |}.

(** A write to the status table; what happened before it stays. *)
Definition record_status w (name : string) ns : outcome () * world S T :=
  match tb_set_status (sto w) name (OStatus ns) with
  | Ok s => (Ok (), set_sto w s)
  | Err e => (Err e, w)
  | Panic p => (Panic p, w)
  end.

(** [UpdateStatus] at the time [now].  The node is saved when it goes down or
    comes back. *)
Definition UpdateStatus w n (status : string) (now : Z) : outcome () * world S T :=
  if negb (bool_decide (status = "new" ∨ status = "up" ∨ status = "down"))
  then (Err (New ("invalid node status " +:+ status)), w)
  else
    let nodeDown := bool_decide (status = "down") in
    let n' := set_isDown n nodeDown in
    let w' := if eqb nodeDown (n_isDown n) then w else Nodes.Save conf w n' in
    record_status w' (n_Name n) {| ns_Node := n'; ns_Status := status; ns_UpdatedAt := now |}.

(** [ImportStatus], with what [time.Parse] makes of a time. *)
Definition ImportStatus (Parse : string → outcome Z) w (nodeJSON : jmap) : outcome () * world S T :=
  match mget "Node" nodeJSON, mget "Status" nodeJSON, mget "UpdatedAt" nodeJSON with
  | IMap n, IStr status, IStr ut =>
      match Parse ut with
      | Err e => (Err e, w)
      | Panic p => (Panic p, w)
      | Ok updatedAt =>
          match mget "name" n with
          | IStr name =>
              match Nodes.Get w name with
              | Err _ => (Ok (), w)
              | Panic p => (Panic p, w)
              | Ok nodeP =>
                  record_status (Nodes.Save conf w nodeP) (n_Name nodeP)
                    {| ns_Node := nodeP; ns_Status := status; ns_UpdatedAt := updatedAt |}
              end
          | _ => (Panic TypeAssertion, w)
          end
      end
  | _, _, _ => (Panic TypeAssertion, w)
  end.

(** The type assertion on what the table holds. *)
Definition as_status (o : object) : outcome NodeStatus :=
  match o with OStatus ns => Ok ns | _ => Panic TypeAssertion end.

(** Looking for the latest status sorts the ids of the node's statuses. *)
Definition LatestStatus w n : outcome NodeStatus * world S T :=
  let '(o, s) := tb_latest (sto w) (n_Name n) in (o ≫= as_status, set_sto w s).

Definition AllStatuses w n : outcome (list NodeStatus) :=
  arr ← tb_statuses (sto w) (n_Name n); mapM as_status arr.

(** The loop of [AllNodeStatuses]: an error ends the process. *)
Fixpoint statuses_of w (nodes : list Node) : outcome (list NodeStatus) :=
  match nodes with
  | [] => Ok []
  | n :: r =>
      match AllStatuses w n with
      | Ok ns => rest ← statuses_of w r; Ok (ns ++ rest)
      | Err _ => Panic ExplicitPanic
      | Panic p => Panic p
      end
  end.

Definition AllNodeStatuses w : outcome (list NodeStatus) := nodes ← AllNodes w; statuses_of w nodes.

Definition deleteStatuses w n : outcome () * world S T :=
  let '(o, s) := tb_delete_status (sto w) (n_Name n) in (o, set_sto w s).

Definition ToJSON ns : list (string * string) :=
  [("node_name", n_Name (ns_Node ns)); ("status", ns_Status ns); ("updated_at", FormatTime (ns_UpdatedAt ns))].

(** Nanoseconds. *)
Definition ten_minutes : Z := 600000000000.

(** The nodes whose latest status passes; nodes without one are skipped. *)
Fixpoint by_latest (p : Node → NodeStatus → bool) w (nodes : list Node) : outcome (list Node) * world S T :=
  match nodes with
  | [] => (Ok [], w)
  | n :: r =>
      match LatestStatus w n with
      | (Panic e, w) => (Panic e, w)
      | (Err _, w) => by_latest p w r
      | (Ok ns, w) =>
          let '(rest, w) := by_latest p w r in
          (l ← rest; Ok (if p n ns then n :: l else l), w)
      end
  end.

Definition UnseenNodes w (now : Z) : outcome (list Node) * world S T :=
  match AllNodes w with
  | Ok nodes =>
      by_latest (λ n ns, negb (n_isDown n) && (ns_UpdatedAt ns <? now - ten_minutes)%Z) w nodes
  | Err e => (Err e, w)
  | Panic p => (Panic p, w)
  end.

Definition GetNodesByStatus w (nodeNames : list string) (status : string) : outcome (list Node) * world S T :=
  match load_all (sto w) nodeNames with
  | Ok nodes => by_latest (λ _ ns, bool_decide (ns_Status ns = status)) w nodes
  | Err e => (Err e, w)
  | Panic p => (Panic p, w)
  end.

(** The statuses of a sorted slice that are after the cutoff. *)
Definition after_cutoff (statuses : list NodeStatus) (cutoff : Z) : list NodeStatus :=
  drop (sort_Search (length statuses)
          (λ i, match statuses !! i with Some ns => (cutoff <? ns_UpdatedAt ns)%Z | None => true end)) statuses.

(** The loop of [DeleteNodeStatusesByAge] over the nodes, where [now] is what
    the clock says when the loop comes to a node, and [j] the number of
    statuses removed so far.  Every error has the type [ErrorNodeStatus], an
    interface, so every error is returned, with the count 0. *)
Fixpoint age_loop (now : string → Z) (dur : Z) w (nodes : list Node) (j : Z) : outcome Z * world S T :=
  match nodes with
  | [] => (Ok j, w)
  | node :: r =>
      match AllStatuses w node with
      | Err e => (Err e, w)
      | Panic p => (Panic p, w)
      | Ok statuses =>
          let oldStatLen := Z.of_nat (length statuses) in
          let cutoff := (now (n_Name node) - dur)%Z in
          match go_sort time_less statuses with
          | [] => age_loop now dur w r j
          | (first :: _) as sorted =>
              if (cutoff <? ns_UpdatedAt first)%Z then age_loop now dur w r j
              else
                let left := after_cutoff sorted cutoff in
                match tb_replace (sto w) (n_Name node) (OStatus <$> left) with
                | (Ok _, s) => age_loop now dur (set_sto w s) r (j + (oldStatLen - Z.of_nat (length left)))%Z
                | (Err e, s) => (Err e, set_sto w s)
                | (Panic p, s) => (Panic p, set_sto w s)
                end
          end
      end
  end.

Definition DeleteNodeStatusesByAge (now : string → Z) (dur : Z) w : outcome Z * world S T :=
  match AllNodes w with
  | Ok nodes => age_loop now dur w nodes 0
  | Err e => (Err e, w)
  | Panic p => (Panic p, w)
  end.
End statuses.

(** * Removing old statuses *)

Lemma after_cutoff_filter l cutoff :
  StronglySorted (le_of time_less) l →
  after_cutoff l cutoff = filter (λ ns, (cutoff < ns_UpdatedAt ns)%Z) l.
Proof.
  intros Hs. unfold after_cutoff, sort_Search. rewrite (search_loop_ext _ _ (at_least ns_UpdatedAt (cutoff + 1) l)).
  - fold (sort_Search (length l) (at_least ns_UpdatedAt (cutoff + 1) l)). rewrite drop_new by exact Hs.
    apply list_filter_iff. intros ns. lia.
  - intros k. unfold at_least. destruct (l !! k); [|done].
    destruct (Z.ltb_spec cutoff (ns_UpdatedAt n)), (Z.leb_spec (cutoff + 1) (ns_UpdatedAt n)); (done || lia).
Qed.

Section age.
  Context (now : string → Z) (dur : Z) {T : Type}.
  Implicit Types (w : world (DataStore object) T) (name : string).

(** The statuses on record for a node. *)
Definition statuses w name : list NodeStatus :=
  omap (λ o, match o with OStatus ns => Some ns | _ => None end) (history (sto w) name).

(** The status tables are in order, hold statuses as they are stored, and
    have room for [k] new ones. *)
Record status_wf (k : Z) w : Prop := {
  sw_nodes : wf_nodes (sto w);
  sw_some : getNs (sto w) ≠ Ok None;
  sw_status name o : o ∈ history (sto w) name → ∃ ns, o = OStatus ns ∧ gob_status ns = ns;
  sw_room : ids_room k (tables (sto w)).1;
}.

Lemma statuses_history k w name : status_wf k w → history (sto w) name = OStatus <$> statuses w name.
Proof.
  intros Hw. unfold statuses. pose proof (sw_status k w Hw name) as Ho. induction (history (sto w) name) as [|o l IH]; [done|].
  destruct (Ho o) as (ns & -> & _); [set_solver|]. simpl. f_equal. apply IH. set_solver.
Qed.

Lemma statuses_gob k w name ns : status_wf k w → ns ∈ statuses w name → gob_status ns = ns.
Proof.
  intros Hw Hin. destruct (sw_status k w Hw name (OStatus ns)) as (ns' & [= <-] & ?); [|done].
  rewrite (statuses_history k) by done. apply list_elem_of_fmap. eauto.
Qed.

Lemma mapM_as_status l : mapM as_status (OStatus <$> l) = Ok l.
Proof. induction l as [|x l IH]; [done|]. csimpl. apply bind_Ok. by exists l. Qed.

Lemma AllStatuses_Ok k w n : status_wf k w → AllStatuses w n = Ok (statuses w (n_Name n)).
Proof.
  intros Hw. unfold AllStatuses. simpl.
  rewrite AllNodeStatuses_tables, history_decode by (apply (sw_nodes k w Hw) || apply (sw_some k w Hw)).
  rewrite (statuses_history k) by done. apply mapM_as_status.
Qed.

(** The statuses of a node that are not too old. *)
Definition recent name : list NodeStatus → list NodeStatus :=
  filter (λ ns, (now name - dur < ns_UpdatedAt ns)%Z).

Definition expired name : list NodeStatus → list NodeStatus :=
  filter (λ ns, ¬ (now name - dur < ns_UpdatedAt ns)%Z).

Lemma length_recent_expired name l : length (recent name l) + length (expired name l) = length l.
Proof.
  unfold recent, expired. induction l as [|ns l IH]; [done|]. rewrite !filter_cons.
  destruct (decide (now name - dur < ns_UpdatedAt ns)%Z), (decide (¬ _)); simpl; lia || done.
Qed.

(** One replacement: the statuses left are there, all others stay. *)
Lemma replace_step k w name l :
  status_wf k w → (Z.of_nat (length l) ≤ k ≤ max_int64)%Z → (∀ ns, ns ∈ l → gob_status ns = ns) →
  ∃ s, tb_replace (sto w) name (OStatus <$> l) = (Ok (), s) ∧ keeps_objects (sto w) s ∧
    status_wf (k - Z.of_nat (length l)) (set_sto w s) ∧
    ∀ name', statuses (set_sto w s) name' = if bool_decide (name' = name) then l else statuses w name'.
Proof.
  intros Hw Hl Hg.
  destruct (ReplaceNodeStatuses_spec (sto w) name (OStatus <$> l) k) as (s & E & Hs & Hn & Hr & Hh);
    [apply Hw..|by rewrite length_fmap|apply Hw|].
  assert (∀ name', history s name' = if bool_decide (name' = name) then OStatus <$> l else history (sto w) name') as Hhist.
  { intros name'. unfold history at 1. rewrite Hh. case_bool_decide; [|done].
    change (map gob (OStatus <$> l)) with (gob <$> (OStatus <$> l)). rewrite <-list_fmap_compose.
    apply list_fmap_ext. intros i ns Hi. simpl. f_equal.
    apply Hg. by eapply list_elem_of_lookup_2. }
  exists s. split_and!; [done| | |].
  - pose proof (tb_replace_keeps (sto w) name (OStatus <$> l)) as Hk. simpl in Hk. by rewrite E in Hk.
  - rewrite length_fmap in Hr. split; [done..| |done]. intros name' o. simpl. rewrite Hhist. case_bool_decide; [|apply Hw].
    intros (ns & -> & Hin)%list_elem_of_fmap. eauto.
  - intros name'. unfold statuses. simpl. rewrite Hhist. case_bool_decide; [|done].
    clear. induction l as [|ns l IH]; [done|]. simpl. by f_equal.
Qed.

(** What the removal leaves of the statuses of the nodes visited. *)
Definition aged w w' (nodes : list Node) : Prop :=
  (∀ name, name ∈ n_Name <$> nodes → statuses w' name ≡ₚ recent name (statuses w name)) ∧
  (∀ name, name ∉ n_Name <$> nodes → statuses w' name = statuses w name).

Definition only_tables w w' : Prop :=
  keeps_objects (sto w) (sto w') ∧ index w' = index w ∧ pending w' = pending w.

Definition total w (nodes : list Node) : nat :=
  sum_list_with (λ n, length (statuses w (n_Name n))) nodes.

Definition removed w (nodes : list Node) : nat :=
  sum_list_with (λ n, length (expired (n_Name n) (statuses w (n_Name n)))) nodes.

Lemma sum_list_with_ext {A} (f g : A → nat) l : (∀ x, x ∈ l → f x = g x) → sum_list_with f l = sum_list_with g l.
Proof. induction l as [|x l IH]; intros Hfg; [done|]. simpl. rewrite Hfg, IH; set_solver. Qed.

(** The part of the loop for one node. *)
Lemma recent_all name l :
  (∀ ns, ns ∈ l → (now name - dur < ns_UpdatedAt ns)%Z) → recent name l = l ∧ expired name l = [].
Proof.
  intros Hl. rewrite <-Forall_forall in Hl. split; [by apply filter_all_none|].
  apply filter_all_none. eapply Forall_impl; [done|]. simpl. naive_solver.
Qed.

Lemma sorted_first l first r ns :
  go_sort time_less l = first :: r → ns ∈ l → (ns_UpdatedAt first ≤ ns_UpdatedAt ns)%Z.
Proof.
  intros E Hin. pose proof (go_sort_sorted (key_less ns_UpdatedAt) l) as Hs.
  rewrite <-(go_sort_Permutation time_less l) in Hin. rewrite E in Hin.
  change (go_sort (key_less ns_UpdatedAt) l) with (go_sort time_less l) in Hs. rewrite E in Hs.
  apply StronglySorted_inv in Hs as [_ Hf]. rewrite Forall_forall in Hf.
  apply elem_of_cons in Hin as [->|Hin]; [lia|]. specialize (Hf ns Hin). unfold le_of, key_less in Hf.
  by apply Z.ltb_ge in Hf.
Qed.

Lemma after_cutoff_recent name l :
  after_cutoff (go_sort time_less l) (now name - dur) ≡ₚ recent name l.
Proof.
  rewrite after_cutoff_filter by exact (go_sort_sorted (key_less ns_UpdatedAt) l).
  unfold recent. by rewrite (go_sort_Permutation time_less l).
Qed.

Lemma status_wf_mono k k' w : (k' ≤ k)%Z → status_wf k w → status_wf k' w.
Proof. intros Hk [H1 H2 H3 H4]. split; [done..|]. intros i Hi. specialize (H4 i Hi). lia. Qed.

Lemma only_tables_refl w : only_tables w w.
Proof. split; [|done]. intros Hi. split; [done|]. by intros t k Ht. Qed.

Lemma only_tables_trans w1 w2 w3 : only_tables w1 w2 → only_tables w2 w3 → only_tables w1 w3.
Proof.
  intros (H1 & Hi1 & Hp1) (H2 & Hi2' & Hp2). split_and!; [|congruence..]. intros Hi. destruct (H1 Hi) as [Hi2 Hs].
  destruct (H2 Hi2) as [Hi3 Hs']. split; [done|]. intros t k Ht. by rewrite Hs', Hs.
Qed.

(** One round of the loop. *)
Lemma age_step k w node r :
  status_wf k w → (Z.of_nat (length (statuses w (n_Name node))) ≤ k ≤ max_int64)%Z →
  ∃ w1, (∀ j, age_loop now dur w (node :: r) j =
      age_loop now dur w1 r (j + Z.of_nat (length (expired (n_Name node) (statuses w (n_Name node)))))) ∧
    only_tables w w1 ∧ status_wf (k - Z.of_nat (length (statuses w (n_Name node)))) w1 ∧
    statuses w1 (n_Name node) ≡ₚ recent (n_Name node) (statuses w (n_Name node)) ∧
    (∀ name, name ≠ n_Name node → statuses w1 name = statuses w name).
Proof.
  intros Hw Hk. cbn [age_loop]. rewrite (AllStatuses_Ok k) by done. set (l := statuses w (n_Name node)) in *.
  assert (recent (n_Name node) l = l ∧ expired (n_Name node) l = [] → ∃ w1,
    (∀ j, age_loop now dur w r j = age_loop now dur w1 r (j + Z.of_nat (length (expired (n_Name node) l)))) ∧
    only_tables w w1 ∧ status_wf (k - Z.of_nat (length l)) w1 ∧
    statuses w1 (n_Name node) ≡ₚ recent (n_Name node) l ∧
    (∀ name, name ≠ n_Name node → statuses w1 name = statuses w name)) as Hstay.
  { intros [Hr He]. exists w. rewrite Hr, He. split_and!; [intros j; simpl; f_equal; lia|apply only_tables_refl| |done..].
    eapply status_wf_mono; [|done]. lia. }
  destruct (go_sort time_less l) as [|first rest] eqn:Es.
  { apply Hstay. assert (l = []) as ->; [|done]. apply Permutation_nil_r.
    by rewrite <-(go_sort_Permutation time_less l), Es. }
  destruct (Z.ltb_spec (now (n_Name node) - dur) (ns_UpdatedAt first)) as [Hlt|Hge].
  { apply Hstay, recent_all. intros ns Hin. pose proof (sorted_first l first rest ns Es Hin). lia. }
  rewrite <-Es. pose proof (after_cutoff_recent (n_Name node) l) as Hp.
  set (left := after_cutoff _ _) in *. pose proof (Permutation_length Hp) as Hlen.
  pose proof (length_recent_expired (n_Name node) l) as Hsum.
  destruct (replace_step k w (n_Name node) left) as (s & E & Hko & Hw1 & Hst); [done|lia| |].
  { intros ns Hin. rewrite Hp in Hin. apply list_elem_of_filter in Hin as [_ Hin]. by eapply statuses_gob. }
  exists (set_sto w s). rewrite E. split_and!.
  - intros j. f_equal. lia.
  - by split_and!.
  - eapply status_wf_mono; [|done]. lia.
  - by rewrite Hst, bool_decide_true.
  - intros name Hne. by rewrite Hst, bool_decide_false.
Qed.

Lemma age_loop_spec nodes k w j :
  NoDup (n_Name <$> nodes) → status_wf k w → (Z.of_nat (total w nodes) ≤ k ≤ max_int64)%Z →
  ∃ w', age_loop now dur w nodes j = (Ok (j + Z.of_nat (removed w nodes))%Z, w') ∧
    only_tables w w' ∧ aged w w' nodes.
Proof.
  revert k w j. induction nodes as [|node r IH]; intros k w j Hnd Hw Hk.
  { exists w. split_and!; [simpl; by rewrite Z.add_0_r|apply only_tables_refl|]. split; [set_solver|done]. }
  simpl in Hnd, Hk. apply NoDup_cons in Hnd as [Hni Hnd].
  destruct (age_step k w node r) as (w1 & E & Ht & Hw1 & Hrec & Hoth); [done|lia|].
  assert (∀ n, n ∈ r → statuses w1 (n_Name n) = statuses w (n_Name n)) as Heq.
  { intros n Hn. apply Hoth. intros Hnn. apply Hni. rewrite <-Hnn. by apply list_elem_of_fmap_2. }
  assert (total w1 r = total w r) as Ht1.
  { apply sum_list_with_ext. intros n Hn. by rewrite Heq. }
  assert (removed w1 r = removed w r) as Hr1.
  { apply sum_list_with_ext. intros n Hn. by rewrite Heq. }
  destruct (IH _ w1 (j + Z.of_nat (length (expired (n_Name node) (statuses w (n_Name node)))))%Z Hnd Hw1)
    as (w' & E' & Ht' & Ha1 & Ha2); [lia|].
  exists w'. rewrite E, E', Hr1. split_and!; [do 2 f_equal; simpl; lia|by eapply only_tables_trans|].
  split; simpl; intros name Hin.
  - apply elem_of_cons in Hin as [->|Hin]; [by rewrite Ha2|]. rewrite Ha1, Hoth by set_solver. done.
  - apply not_elem_of_cons in Hin as [Hne Hin]. by rewrite Ha2, Hoth.
Qed.
End age.

(** * Recording a status *)

Lemma store_tables {A} `{Stored A} {SL : StoredLaws A} (ds : DataStore object) (a : A) :
  wf_nodes (store ds a) = wf_nodes ds ∧ getNs (store ds a) = getNs ds ∧ tables (store ds a) = tables ds.
Proof.
  assert (∀ key, key ∈ [nsKey; nsListKey; logKey] → dsc (store ds a) !! key = dsc ds !! key) as Hk.
  { intros key Hkey. apply Set_tables; [apply s_type_ok|done]. }
  unfold wf_nodes, tables, getNs, getNsList. by rewrite !Hk by set_solver.
Qed.

(** What is on record after a status of a node is recorded. *)
Definition with_status (h h' : string → list object) n ns : Prop :=
  h' (n_Name n) = h (n_Name n) ++ [OStatus ns] ∧ ∀ name, name ≠ n_Name n → h' name = h name.

Lemma AllNodeStatuses_history (ds : DataStore object) name l :
  wf_nodes ds → Datastore.AllNodeStatuses ds name = Ok l → history ds name = l.
Proof.
  intros Hw Ha. assert (getNs ds ≠ Ok None) as Hne.
  { intros E. unfold Datastore.AllNodeStatuses in Ha. by rewrite E in Ha. }
  rewrite AllNodeStatuses_tables, history_decode in Ha by done. by injection Ha.
Qed.

(** A status that is new, up or down is added at the end of the node's
    record, with the node as the store keeps it, and is then its latest
    status; no other node's record changes; and the stored objects change
    only when the node goes down or comes back, and then only that node.  Any
    other status is refused with everything as it was. *)
Theorem update_status_latest conf {T} (w : world (DataStore object) T) n status now :
  st_inv (sto w) → wf_nodes (sto w) → ids_room 1 (tables (sto w)).1 →
  if bool_decide (status ∈ ["new"; "up"; "down"]) then
    let ns := {| ns_Node := gob_node n; ns_Status := status; ns_UpdatedAt := now |} in
    ∃ w', UpdateStatus conf w n status now = (Ok (), w') ∧
      with_status (history (sto w)) (history (sto w')) n ns ∧
      (LatestStatus w' n).1 = Ok ns ∧
      ∀ k, load (sto w') k =
        if bool_decide (k = n_Name n) && negb (eqb (bool_decide (status = "down")) (n_isDown n))
        then Ok (Some (gob_node n)) else load (sto w) k
  else UpdateStatus conf w n status now = (Err (New ("invalid node status " +:+ status)), w).
Proof.
  intros Hi Hw Hr. unfold UpdateStatus. case_bool_decide as Es.
  2: { by rewrite (bool_decide_false (_ ∨ _)) by set_solver. }
  rewrite bool_decide_true by set_solver. cbn [negb]. cbv zeta.
  set (n' := set_isDown n _). set (b := eqb _ _).
  set (w1 := if b then w else Nodes.Save conf w n').
  assert (st_inv (sto w1) ∧ wf_nodes (sto w1) ∧ tables (sto w1) = tables (sto w) ∧ ∀ k, load (sto w1) k =
    if bool_decide (k = n_Name n) && negb b then Ok (Some (gob_node n)) else load (sto w) k) as (Hi1 & Hw1 & Ht1 & Hl1).
  { unfold w1. destruct b.
    - split_and!; [done..|]. intros k. by rewrite andb_false_r.
    - change (sto (Nodes.Save conf w n')) with (store (sto w) n'). destruct (store_tables (sto w) n') as (-> & _ & ->). split_and!; [by apply store_inv|done..|].
      intros k. rewrite load_store by done. simpl. rewrite andb_true_r. done. }
  set (ns' := {| ns_Node := n'; ns_Status := status; ns_UpdatedAt := now |}).
  destruct (set_node_status_history (sto w1) (n_Name n) (OStatus ns')) as (ds & E & Hwd & Hso & Ha & Hn & Hl);
    [done|by rewrite Ht1|].
  assert (∀ name, history (sto w1) name = history (sto w) name) as Hh by (intros; unfold history; by rewrite Ht1).
  exists (set_sto w1 ds). unfold record_status. simpl. rewrite E. split_and!; [done|split|..].
  - simpl. rewrite (AllNodeStatuses_history ds (n_Name n) _ Hwd Ha), Hh. done.
  - intros name Hne. simpl. rewrite <-Hh. by apply AllNodeStatuses_history, Hn.
  - unfold LatestStatus. simpl. destruct (Datastore.LatestNodeStatus ds (n_Name n)) as [o s]. simpl in *. by rewrite Hl.
  - intros k. simpl. rewrite <-Hl1. unfold load. by rewrite (Hso (s_type Node) k s_type_ok).
Qed.

(** Recording a status keeps the tables in order, and leaves a record. *)
Lemma UpdateStatus_wf conf {T} (w : world (DataStore object) T) n status now k :
  st_inv (sto w) → kind_wf (A := Node) (sto w) → wf_nodes (sto w) →
  (∀ name o, o ∈ history (sto w) name → ∃ ns, o = OStatus ns ∧ gob_status ns = ns) →
  (1 ≤ k ≤ max_int64)%Z → ids_room k (tables (sto w)).1 → status ∈ ["new"; "up"; "down"] →
  let w' := (UpdateStatus conf w n status now).2 in
  st_inv (sto w') ∧ kind_wf (A := Node) (sto w') ∧ status_wf (k - 1) w'.
Proof.
  intros Hi Hk Hw Hs Hk1 Hr Hst. unfold UpdateStatus. rewrite bool_decide_true by set_solver. cbn [negb]. cbv zeta.
  set (n' := set_isDown n _). set (w1 := if eqb _ _ then w else Nodes.Save conf w n').
  assert (st_inv (sto w1) ∧ kind_wf (A := Node) (sto w1) ∧ wf_nodes (sto w1) ∧ tables (sto w1) = tables (sto w))
    as (Hi1 & Hk1' & Hw1 & Ht1).
  { unfold w1. destruct (eqb _ _); [done|]. change (sto (Nodes.Save conf w n')) with (store (sto w) n').
    destruct (store_tables (sto w) n') as (-> & _ & ->). split_and!; [by apply store_inv|by apply store_kind_wf|done..]. }
  set (ns := {| ns_Node := n'; ns_Status := status; ns_UpdatedAt := now |}).
  destruct (SetNodeStatus_spec (sto w1) (n_Name n) (OStatus ns)) as (ds & E & Hne & Hwd & Hh); [done|rewrite Ht1|].
  { intros i Hin. specialize (Hr i Hin). lia. }
  unfold record_status. simpl. rewrite E. simpl.
  destruct (tb_set_status_keeps (TB := DataStore_tables) (sto w1) (n_Name n) (OStatus ns) ds E Hi1) as [Hid Hso]. split_and!; [done| |split].
  - intros j o Ho. apply (Hk1' j). etrans; [symmetry; exact (Hso "node" j eq_refl)|exact Ho].
  - done.
  - done.
  - intros name o. simpl. unfold history. rewrite Hh. unfold history. rewrite Ht1. fold (history (sto w) (n_Name n)).
    fold (history (sto w) name). case_bool_decide; [|apply Hs]. rewrite elem_of_app, list_elem_of_singleton.
    intros [Ho| ->]; [by eapply Hs|]. by exists (gob_status ns).
  - rewrite SetNodeStatus_eq in E by done. injection E as <-. cbn [sto set_sto].
    rewrite (proj2 (proj2 (get_putNs _ _ _))), Ht1. by apply ids_room_insert.
Qed.

(** A server with one node, which reported at 10 and at 30. *)
Definition status_world0 : world (DataStore object) (list string) :=
  {| sto := store initDataStore demo_web1; index := Initialize; pending := []; tasks := [] |}.

Definition status_world (l : list Z) : world (DataStore object) (list string) :=
  foldl (λ w t, (UpdateStatus default_conf w (gob_node demo_web1) "up" t).2) status_world0 l.

Lemma status_world0_inv :
  st_inv (sto status_world0) ∧ kind_wf (A := Node) (sto status_world0) ∧ wf_nodes (sto status_world0) ∧
  tables (sto status_world0) = (∅, ∅).
Proof.
  destruct (store_tables initDataStore demo_web1) as (Hn & _ & Ht).
  assert (st_inv (initDataStore : DataStore object)) as Hi by apply init_wf.
  change (sto status_world0) with (store initDataStore demo_web1).
  split_and!; [by apply store_inv| |rewrite Hn; apply init_wf|by rewrite Ht].
  apply store_kind_wf; [done|]. intros k o. simpl. unfold Datastore.Get. simpl. by rewrite lookup_empty.
Qed.

Lemma status_world_inv :
  let w := status_world [10; 30]%Z in
  st_inv (sto w) ∧ kind_wf (A := Node) (sto w) ∧ status_wf 5 w.
Proof.
  destruct status_world0_inv as (Hi & Hk & Hw & Ht).
  destruct (UpdateStatus_wf default_conf status_world0 (gob_node demo_web1) "up" 10 7) as (Hi1 & Hk1 & Hw1);
    [done..| |by unfold max_int64| |set_solver|].
  - intros name o. unfold history. rewrite Ht. simpl. set_solver.
  - rewrite Ht. intros i. simpl. rewrite lookup_empty. by intros [].
  - apply (UpdateStatus_wf default_conf (status_world [10]%Z) (gob_node demo_web1) "up" 30 6);
      [done..|apply Hw1|apply Hw1|by unfold max_int64|apply Hw1|set_solver].
Qed.

Lemma update_status_latest_witness :
  ∃ w', UpdateStatus default_conf status_world0 (gob_node demo_web1) "up" 10 = (Ok (), w') ∧
    (LatestStatus w' demo_web1).1 =
      Ok {| ns_Node := gob_node demo_web1; ns_Status := "up"; ns_UpdatedAt := 10 |}.
Proof.
  destruct status_world0_inv as (Hi & _ & Hw & Ht).
  destruct (update_status_latest default_conf status_world0 (gob_node demo_web1) "up" 10 Hi Hw)
    as (w' & E & _ & Hl & _).
  - rewrite Ht. intros i. simpl. rewrite lookup_empty. by intros [].
  - by exists w'.
Defined.

(** Removing the statuses older than a duration keeps, for every stored
    node, exactly the statuses after the cutoff (as the clock stood when the
    node was visited), leaves the records of names that are not nodes and all
    stored objects alone, and returns the number removed; provided the status
    table holds any status at all and its id counter has room. *)
Theorem age_deletion_exact (now : string → Z) (dur : Z) {T} (w : world (DataStore object) T) k nodes :
  st_inv (sto w) → kind_wf (A := Node) (sto w) → AllNodes w = Ok nodes →
  status_wf k w → (Z.of_nat (total w nodes) ≤ k ≤ max_int64)%Z →
  ∃ w', DeleteNodeStatusesByAge now dur w = (Ok (Z.of_nat (removed now dur w nodes)), w') ∧
    only_tables w w' ∧ aged now dur w w' nodes.
Proof.
  intros Hi Hk Hn Hw Ht. unfold DeleteNodeStatusesByAge. rewrite Hn.
  destruct (age_loop_spec now dur nodes k w 0) as (w' & -> & H1 & H2); [|done..|by exists w'].
  exact (load_list_NoDup (sto w) nodes Hi Hk Hn).
Qed.

Lemma age_deletion_exact_witness :
  ∃ w', DeleteNodeStatusesByAge (λ _, 40%Z) 15 (status_world [10; 30]%Z) = (Ok 1%Z, w') ∧
    ns_UpdatedAt <$> statuses w' "web1" = [30%Z].
Proof.
  destruct (age_deletion_exact (λ _, 40%Z) 15 (status_world [10; 30]%Z) 5 [gob_node demo_web1])
    as (w' & E & _ & Ha & _).
  - exact (proj1 status_world_inv).
  - exact (proj1 (proj2 status_world_inv)).
  - by vm_compute.
  - exact (proj2 (proj2 status_world_inv)).
  - by vm_compute.
  - exists w'. split; [exact E|]. specialize (Ha "web1" ltac:(by left)).
    apply Permutation_singleton_r. apply (Permutation_map ns_UpdatedAt) in Ha. exact Ha.
Defined.
