(* ===== verification/Quorum.v ===== *)
(** The quorum of a pushed job (getQuorum of src/shovey/shovey.go): how many of
    its nodes have to be up.  The code computes with float64; so does the model,
    with the IEEE 754 operations of [SpecFloat] at 53 bits. *)
From Stdlib Require Import SpecFloat.
From S2P Require Import Prelude Gerror.

(** * Numbers of type float64 *)

Abbreviation float64 := spec_float.

Definition f64_div (x y : float64) : float64 := SFdiv 53 1024 x y.
Definition f64_mul (x y : float64) : float64 := SFmul 53 1024 x y.
Definition f64_ltb (x y : float64) : bool := SFltb x y.

(** The float64 nearest to a fraction. *)
Definition f64_of_frac (num : Z) (den : positive) : float64 :=
  match num with
  | Z0 => S754_zero false
  | Zpos m => f64_div (S754_finite false m 0) (S754_finite false den 0)
  | Zneg m => f64_div (S754_finite true m 0) (S754_finite false den 0)
  end.

Definition f64_of_Z (z : Z) : float64 := f64_of_frac z 1.

(** The value of a finite float64 times a scale, rounded down, up, or to
    zero. *)
Definition scaled (scale : Z) (neg : bool) (m : positive) (e : Z) : Z * Z :=
  let num := ((if neg then Zneg m else Zpos m) * scale * 2 ^ Z.max e 0)%Z in
  (num, (2 ^ Z.max (- e) 0)%Z).

(** The conversion to int cuts off the fraction; what does not fit becomes
    the least int, as on amd64. *)
Definition int_of_f64 (x : float64) : Z :=
  match x with
  | S754_zero _ => 0
  | S754_finite s m e =>
      let '(n, d) := scaled 1 s m e in
      let z := Z.quot n d in
      if (min_int64 <=? z)%Z && (z <=? max_int64)%Z then z else min_int64
  | S754_infinity _ | S754_nan => min_int64
  end.

(** [math.Ceil]. *)
Definition Ceil (x : float64) : float64 :=
  match x with
  | S754_finite s m e => let '(n, d) := scaled 1 s m e in f64_of_Z (- ((- n) / d))
  | _ => x
  end.

(** [%f]: six digits behind the point, the last one rounded to even. *)
Definition fmt_f (x : float64) : string :=
  match x with
  | S754_zero s => (if s then "-" else EmptyString) +:+ "0.000000"
  | S754_infinity s => if s then "-Inf" else "+Inf"
  | S754_nan => "NaN"
  | S754_finite s m e =>
      let '(n, d) := scaled 1000000 false m e in
      let q := (n / d)%Z in
      let r := (n mod d)%Z in
      let q := if (d <? 2 * r)%Z || ((2 * r =? d)%Z && Z.odd q) then (q + 1)%Z else q in
      let frac := itoa (q mod 1000000) in
      (if s then "-" else EmptyString) +:+ itoa (q / 1000000) +:+ "." +:+
        String.substring 0 (6 - String.length frac) "000000" +:+ frac
  end.

(** * [strconv.ParseFloat] *)

(** The other notations, with exponents, hexadecimal or as words. *)
Class FloatNotations : Type := { parse_notation : string → float64 + string }.

(** Digits, and digits behind a point. *)
Definition decimal (s : string) : option (Z * positive) :=
  let '(a, b) := str_span is_digit s in
  match b with
  | EmptyString => if bool_decide (a = EmptyString) then None else Some (dec_value a, 1%positive)
  | String c f =>
      if bool_decide (c = "."%char) && str_all is_digit f && negb (bool_decide (a +:+ f = EmptyString))
      then Some (dec_value (a +:+ f), Z.to_pos (10 ^ Z.of_nat (String.length f)))
      else None
  end.

Definition float_sign (s : string) : bool * string :=
  match s with
  | String c r =>
      if bool_decide (c = "-"%char) then (true, r)
      else if bool_decide (c = "+"%char) then (false, r) else (false, s)
  | EmptyString => (false, s)
  end.

Definition ParseFloat {FN : FloatNotations} (s : string) : float64 + string :=
  let '(neg, body) := float_sign s in
  match decimal body with
  | Some (n, d) =>
      match f64_of_frac n d with
      | S754_infinity _ => inr (num_error_text "ParseFloat" s ErrRange)
      | x => inl (if neg then SFopp x else x)
      end
  | None => parse_notation s
  end.

(** * Errors of pushed jobs *)

(** [qerror]: a message and the status the job gets. *)
Record qerror : Set := { q_msg : string; q_status : string }.

Definition q_Errorf (msg : string) : qerror := {| q_msg := msg; q_status := "job_failed" |}.

Definition q_SetStatus (e : qerror) (s : string) : qerror := {| q_msg := q_msg e; q_status := s |}.

(** * The quorum *)

(** The submatch of [^(\d+\.?\d?)%$]. *)
Definition percent_submatch (quorum : string) : option string :=
  let '(a, b) := str_span is_digit quorum in
  if bool_decide (a = EmptyString) then None
  else
    let '(point, b) := match b with String "." r => (".", r) | _ => (EmptyString, b) end in
    match b with
    | "%" => Some (a +:+ point)
    | String c "%" => if is_digit c then Some (a +:+ point +:+ String c EmptyString) else None
    | _ => None
    end.

Definition getQuorum {FN : FloatNotations} (quorum : string) (numNodes : Z) : Z + qerror :=
  if (numNodes =? 0)%Z then inr (q_SetStatus (q_Errorf "There's no nodes to make a quorum") "quorum_failed")
  else
    match percent_submatch quorum with
    | Some z =>
        match ParseFloat z with
        | inr e => inr (q_Errorf e)
        | inl q => inl (int_of_f64 (Ceil (f64_mul (f64_div q (f64_of_Z 100)) (f64_of_Z numNodes))))
        end
    | None =>
        match ParseFloat quorum with
        | inr e => inr (q_Errorf e)
        | inl qnum =>
            if f64_ltb (f64_of_Z numNodes) qnum
            then inr (q_SetStatus (q_Errorf (fmt_f qnum +:+ " nodes were required for the quorum, but only " +:+
                   itoa numNodes +:+ " matched the criteria given")) "quorum_failed")
            else inl (int_of_f64 qnum)
        end
    end.

(** * How far the quorum is from the exact one *)

(** A percentage of the nodes, rounded up. *)
Definition exact_quorum (p n : Z) : Z := (- (- (p * n) / 100))%Z.

Definition quorum_close {FN : FloatNotations} (p n : Z) : bool :=
  match getQuorum (itoa p +:+ "%") n with
  | inl q => (q =? exact_quorum p n)%Z || ((q =? exact_quorum p n + 1)%Z && (p * n mod 100 =? 0)%Z && (p <? 100)%Z)
  | inr _ => false
  end.

Section bounds.
  Context {FN : FloatNotations}.

Lemma quorum_table : forallb (λ n, forallb (λ p, quorum_close p n) (seqZ 0 101)) (seqZ 1 100) = true.
Proof. vm_compute. reflexivity. Qed.

(** The quorum of a whole percentage of up to a hundred nodes is the exact
    one, or one more where the percentage of the nodes is a whole number; a
    hundred per cent are all of them. *)
Theorem percent_quorum p n :
  (0 ≤ p ≤ 100)%Z → (1 ≤ n ≤ 100)%Z →
  ∃ q, getQuorum (itoa p +:+ "%") n = inl q ∧
    (q = exact_quorum p n ∨ q = exact_quorum p n + 1 ∧ p * n mod 100 = 0 ∧ p < 100)%Z.
Proof.
  intros Hp Hn. pose proof quorum_table as Ht. rewrite forallb_forall in Ht.
  specialize (Ht n). rewrite <-list_elem_of_In, elem_of_seqZ in Ht. specialize (Ht ltac:(lia)).
  rewrite forallb_forall in Ht. specialize (Ht p). rewrite <-list_elem_of_In, elem_of_seqZ in Ht.
  specialize (Ht ltac:(lia)). unfold quorum_close in Ht. destruct (getQuorum _ _) as [q|]; [|done].
  exists q. split; [done|].
  rewrite orb_true_iff, !andb_true_iff, !Z.eqb_eq, Z.ltb_lt in Ht. tauto.
Qed.

(** Seven per cent of a hundred nodes are eight. *)
Theorem quorum_one_too_many : getQuorum "7%" 100 = inl 8%Z.
Proof. vm_compute. reflexivity. Qed.
End bounds.
