(* ===== verification/Shoveys.v ===== *)
(** Jobs pushed to nodes (src/shovey/shovey.go, src/serfin/serfin.go): a job is
    sent to the nodes that are up when enough of them are, each node has a run
    that it updates and whose output it uploads in pieces, and a job is
    complete when all of its runs are over.  The goroutines the code starts are
    the tasks of the world, and [task_step] runs one of them. *)
From Stdlib Require Import SpecFloat.
From S2P Require Import Prelude Gerror Iface Config Store Datastore Tables UtilStrings Objects SortSearch Validations Flatten FileIndex.
From S2P Require Import World Nodes Roles Environments Sandboxes Clients Users DataBags Loginfo Statuses Quorum.

#[export] Instance shovey_stored : Stored Shovey := {|
  s_type := "shovey"; s_name := sh_RunID; s_inj := OShovey;
  s_proj o := match o with OShovey s => Some s | _ => None end; s_gob := id |}.

#[export] Instance shovey_stored_laws : StoredLaws Shovey.
Proof. split; try done. by intros [] a [= ->]. Qed.

#[export] Instance shovey_run_stored : Stored ShoveyRun := {|
  s_type := "shovey_run"; s_name sr := sr_ShoveyUUID sr +:+ sr_NodeName sr; s_inj := OShoveyRun;
  s_proj o := match o with OShoveyRun s => Some s | _ => None end; s_gob := id |}.

#[export] Instance shovey_run_stored_laws : StoredLaws ShoveyRun.
Proof. split; try done. by intros [] a [= ->]. Qed.

Definition streamKey (shoveyUUID nodeName outputType : string) (seq : Z) : string :=
  shoveyUUID +:+ "_" +:+ nodeName +:+ "_" +:+ outputType +:+ "_" +:+ itoa seq.

#[export] Instance shovey_stream_stored : Stored ShoveyRunStream := {|
  s_type := "shovey_run_stream"; s_name ss := streamKey (ss_ShoveyUUID ss) (ss_NodeName ss) (ss_OutputType ss) (ss_Seq ss);
  s_inj := OShoveyRunStream;
  s_proj o := match o with OShoveyRunStream s => Some s | _ => None end; s_gob := id |}.

#[export] Instance shovey_stream_stored_laws : StoredLaws ShoveyRunStream.
Proof. split; try done. by intros [] a [= ->]. Qed.

(** * The world outside *)

(** The signature of a text with the server's key, and the serf agent: whether
    there is no open connection to it at a time, and the error of an attempt to
    connect to it again. *)
Class Pushing : Type := {
  SignTextBlock : string → string + string;
  Serfer_IsClosed : Z → bool;
  NewRPCClient : Z → nat → option string;
}.

(** A query to the nodes of the cluster. *)
Record serf_query : Type := { q_Payload : list (string * string); q_FilterNodes : list string }.

(** The attempts to connect again: the error of the last one, if it has one. *)
Fixpoint reconnect {PU : Pushing} (now : Z) (retryNum i : nat) (err : option string) : option string :=
  match retryNum with
  | 0 => err
  | Datatypes.S n =>
      match NewRPCClient now i with None => None | Some e => reconnect now n (Datatypes.S i) (Some e) end
  end.

(** [serfin.Query]: the error it sends; the goroutine that has connected again
    goes on to ask for the text of an error it does not have. *)
Definition serf_Query {PU : Pushing} (now : Z) (q : serf_query) : outcome () :=
  if Serfer_IsClosed now then
    match reconnect now 60 0 None with
    | Some e => Err (New ("Could not reconnect to serf after 300 seconds. Last error: " +:+ e))
    | None => Panic NilDeref
    end
  else Ok ().

(** * Fields *)

Definition sh_set_status (s : Shovey) (st : string) : Shovey :=
  {| sh_RunID := sh_RunID s; sh_NodeNames := sh_NodeNames s; sh_Command := sh_Command s;
     sh_CreatedAt := sh_CreatedAt s; sh_UpdatedAt := sh_UpdatedAt s; sh_Status := st; sh_Timeout := sh_Timeout s;
     sh_Quorum := sh_Quorum s |}.

Definition sh_set_updated (s : Shovey) (now : Z) : Shovey :=
  {| sh_RunID := sh_RunID s; sh_NodeNames := sh_NodeNames s; sh_Command := sh_Command s;
     sh_CreatedAt := sh_CreatedAt s; sh_UpdatedAt := now; sh_Status := sh_Status s; sh_Timeout := sh_Timeout s;
     sh_Quorum := sh_Quorum s |}.

Definition sh_set_nodes (s : Shovey) (l : list string) : Shovey :=
  {| sh_RunID := sh_RunID s; sh_NodeNames := l; sh_Command := sh_Command s;
     sh_CreatedAt := sh_CreatedAt s; sh_UpdatedAt := sh_UpdatedAt s; sh_Status := sh_Status s; sh_Timeout := sh_Timeout s;
     sh_Quorum := sh_Quorum s |}.

Definition new_run (id node status : string) (ended : Z) : ShoveyRun :=
  {| sr_ShoveyUUID := id; sr_NodeName := node; sr_Status := status; sr_AckTime := zero_time; sr_EndTime := ended;
     sr_Error := EmptyString; sr_ExitStatus := 0 |}.

Definition sr_set_status (sr : ShoveyRun) (st : string) (ended : Z) : ShoveyRun :=
  {| sr_ShoveyUUID := sr_ShoveyUUID sr; sr_NodeName := sr_NodeName sr; sr_Status := st; sr_AckTime := sr_AckTime sr;
     sr_EndTime := ended; sr_Error := sr_Error sr; sr_ExitStatus := sr_ExitStatus sr |}.

Definition sr_set_ack (sr : ShoveyRun) (now : Z) : ShoveyRun :=
  {| sr_ShoveyUUID := sr_ShoveyUUID sr; sr_NodeName := sr_NodeName sr; sr_Status := sr_Status sr; sr_AckTime := now;
     sr_EndTime := sr_EndTime sr; sr_Error := sr_Error sr; sr_ExitStatus := sr_ExitStatus sr |}.

Definition sr_set_result (sr : ShoveyRun) (error : string) (exit : Z) : ShoveyRun :=
  {| sr_ShoveyUUID := sr_ShoveyUUID sr; sr_NodeName := sr_NodeName sr; sr_Status := sr_Status sr;
     sr_AckTime := sr_AckTime sr; sr_EndTime := sr_EndTime sr; sr_Error := error; sr_ExitStatus := exit |}.

(** Statuses of runs that are over; cancelling does not touch the first ones. *)
Definition finished : list string := ["invalid"; "succeeded"; "failed"; "down"; "nacked"].
Definition over : list string := finished ++ ["cancelled"].

Definition intify (i : iface) : option Z :=
  match i with INumber t => match ParseInt10 t with (n, None) => Some n | _ => None end | _ => None end.

Section shoveys.
  Context {EN : Encoder} {PU : Pushing} {FN : FloatNotations} {S T : Type}.
  Context {OO : StoreOps S object} {TB : TableOps S object}.
  Implicit Types (w : world S T) (s : Shovey) (sr : ShoveyRun) (ss : ShoveyRunStream).

(** * Jobs and runs *)

Definition save_shovey w s (now : Z) : world S T * Shovey :=
  let s := sh_set_updated s now in (set_sto w (store (sto w) s), s).

Definition save_run w sr : world S T := set_sto w (store (sto w) sr).

(** [New], given the id [uuid.New] draws. *)
Definition New_ w (runID command : string) (timeout : Z) (quorumStr : string) (nodeNames : list string) (now : Z)
    : outcome (world S T * Shovey) :=
  found ← st_get (sto w) "shovey" runID;
  match found with
  | Some _ => Err (SetStatus (Errorf "a shovey run with this run id already exists") StatusConflict)
  | None =>
      Ok (save_shovey w {| sh_RunID := runID; sh_NodeNames := nodeNames; sh_Command := command; sh_CreatedAt := now;
            sh_UpdatedAt := now; sh_Status := "submitted"; sh_Timeout := timeout; sh_Quorum := quorumStr |} now)
  end.

Definition Get w (runID : string) : outcome Shovey :=
  o ← load (sto w) runID;
  match o with
  | Some s => Ok s
  | None => Err (SetStatus (Errorf ("shovey job " +:+ runID +:+ " not found")) StatusNotFound)
  end.

Definition DoesExist w (runID : string) : outcome bool :=
  o ← st_get (sto w) "shovey" runID; Ok (match o with Some _ => true | None => false end).

Definition run_not_found s (nodeName : string) : gerror :=
  SetStatus (Errorf ("run " +:+ sh_RunID s +:+ " for node " +:+ nodeName +:+ " not found")) StatusNotFound.

Definition GetRun w s (nodeName : string) : outcome ShoveyRun :=
  o ← load (sto w) (sh_RunID s +:+ nodeName);
  match o with Some sr => Ok sr | None => Err (run_not_found s nodeName) end.

Fixpoint runs_of w s (names : list string) : outcome (list ShoveyRun) :=
  match names with
  | [] => Ok []
  | n :: names =>
      match GetRun w s n with
      | Ok sr => l ← runs_of w s names; Ok (sr :: l)
      | Err e => if bool_decide (Status e ≠ StatusNotFound) then Err e else runs_of w s names
      | Panic p => Panic p
      end
  end.

Definition GetNodeRuns w s : outcome (list ShoveyRun) := runs_of w s (sh_NodeNames s).

(** The job and what is stored when all of its runs are over. *)
Definition checkCompleted w s (now : Z) : outcome (world S T * Shovey) :=
  match GetNodeRuns w s with
  | Err _ => Ok (w, s)
  | Panic p => Panic p
  | Ok srs =>
      let c := length (filter (λ sr, sr_Status sr ∈ over) srs) in
      if bool_decide (c = length (sh_NodeNames s)) then Ok (save_shovey w (sh_set_status s "complete") now) else Ok (w, s)
  end.

(** * Messages to the nodes *)

(** [signRequest]: the signature of the payload's lines, sorted by key. *)
Definition signRequest (payload : list (string * string)) : string + string :=
  let pkeys := sort_strings (mkeys payload) in
  SignTextBlock (str_join (String newline EmptyString)
    ((λ k, k +:+ ": " +:+ default EmptyString (mlookup k payload)) <$> pkeys)).

Definition signed_query (payload : list (string * string)) (nodes : list string) : serf_query + string :=
  match signRequest payload with
  | inl sig => inl {| q_Payload := mset "signature" sig payload; q_FilterNodes := nodes |}
  | inr e => inr e
  end.

Definition start_payload s (now : Z) : list (string * string) :=
  [("run_id", sh_RunID s); ("command", sh_Command s); ("action", "start"); ("time", FormatTime now);
   ("timeout", itoa (sh_Timeout s))].

Definition cancel_payload s (now : Z) : list (string * string) :=
  [("action", "cancel"); ("run_id", sh_RunID s); ("time", FormatTime now)].

(** * Starting a job *)

(** The runs of the nodes that are up, and of those that are not. *)
Definition create_runs w s (up : list string) (now : Z) : world S T :=
  let w := foldl (λ w n, save_run w (new_run (sh_RunID s) n "created" zero_time)) w up in
  foldl (λ w n, if bool_decide (n ∈ up) then w else save_run w (new_run (sh_RunID s) n "down" now)) w (sh_NodeNames s).

(** [startJobs]: the query that was sent, or the error with the status the job
    gets; and the goroutine that waits for the nodes' messages. *)
Definition startJobs w s (now : Z) : outcome (serf_query + qerror) * world S T :=
  match getQuorum (sh_Quorum s) (Z.of_nat (length (sh_NodeNames s))) with
  | inr e => (Ok (inr e), w)
  | inl qnum =>
      match GetNodesByStatus w (sh_NodeNames s) "up" with
      | (Panic p, w) => (Panic p, w)
      | (Err e, w) => (Ok (inr (q_Errorf (Error e))), w)
      | (Ok upNodes, w) =>
          let n := Z.of_nat (length upNodes) in
          if (n <? qnum)%Z then
            (Ok (inr (q_SetStatus (q_Errorf ("Not enough nodes were up to execute job " +:+ sh_RunID s +:+ " - got " +:+
                   itoa n +:+ ", needed at least " +:+ itoa qnum)) "quorum_failed")), w)
          else
            let up := map n_Name upNodes in
            let w := create_runs w s up now in
            match signed_query (start_payload s now) up with
            | inr e => (Ok (inr (q_Errorf e)), w)
            | inl q =>
                match serf_Query now q with
                | Panic p => (Panic p, w)
                | Err e => (Ok (inr (q_Errorf (Error e))), w)
                | Ok _ => (Ok (inl q), set_tasks w (tasks w ++ [TListen (sh_RunID s) (2 * length up) []]))
                end
            end
      end
  end.

Definition Start w s (now : Z) : outcome Shovey * world S T :=
  match startJobs w s now with
  | (Panic p, w) => (Panic p, w)
  | (Err e, w) => (Err e, w)
  | (Ok (inr e), w) => (Err (CastErr (q_msg e)), (save_shovey w (sh_set_status s (q_status e)) now).1)
  | (Ok (inl _), w) => let '(w, s) := save_shovey w (sh_set_status s "running") now in (Ok s, w)
  end.

(** * Cancelling *)

(** The loop over the nodes. *)
Fixpoint cancel_loop w s (names : list string) (now : Z) : outcome () * world S T :=
  match names with
  | [] => (Ok (), w)
  | n :: names =>
      match GetRun w s n with
      | Ok sr =>
          let w := if bool_decide (sr_Status sr ∈ finished) then w else save_run w (sr_set_status sr "cancelled" now) in
          cancel_loop w s names now
      | Err e => (Err e, w)
      | Panic p => (Panic p, w)
      end
  end.

(** The status of the job after some of its runs were cancelled. *)
Definition cancel_status w s (names : list string) (now : Z) : outcome (world S T * Shovey) :=
  if bool_decide (length names = length (sh_NodeNames s)) then
    let s := sh_set_nodes s (sort_strings (sh_NodeNames s)) in
    if bool_decide (sort_strings names = sh_NodeNames s)
    then Ok (save_shovey w (sh_set_status s "cancelled") now) else Ok (w, s)
  else checkCompleted w s now.

Definition CancelRuns w s (nodeNames : list string) (now : Z) : outcome Shovey * world S T :=
  match cancel_loop w s nodeNames now with
  | (Err e, w) => (Err e, w)
  | (Panic p, w) => (Panic p, w)
  | (Ok _, w) =>
      match cancel_status w s nodeNames now with
      | Err e => (Err e, w)
      | Panic p => (Panic p, w)
      | Ok (w, s) =>
          let nodeNames := if bool_decide (length nodeNames = length (sh_NodeNames s)) then sort_strings nodeNames else nodeNames in
          match signed_query (cancel_payload s now) nodeNames with
          | inr e => (Err (CastErr e), w)
          | inl q =>
              match serf_Query now q with
              | Ok _ => (Ok s, w)
              | Err e => (Err (CastErr (Error e)), w)
              | Panic p => (Panic p, w)
              end
          end
      end
  end.

Definition Cancel w s (now : Z) : outcome Shovey * world S T :=
  match CancelRuns w s (sh_NodeNames s) now with
  | (Ok s, w) => let '(w, s) := save_shovey w (sh_set_status s "cancelled") now in (Ok s, w)
  | (Err e, w) => (Err e, w)
  | (Panic p, w) => (Panic p, w)
  end.

(** * Updates of a run *)

Definition update_status sr (srData : jmap) (now : Z) : ShoveyRun :=
  match mget "status" srData with
  | IStr status =>
      sr_set_status sr status
        (if bool_decide (status ∈ ["invalid"; "succeeded"; "failed"; "nacked"]) then now else sr_EndTime sr)
  | _ => sr
  end.

(** [UpdateFromJSON]; the job is told later, by a goroutine. *)
Definition UpdateFromJSON w sr (srData : jmap) (now : Z) : world S T :=
  let sr := update_status sr srData now in
  let error := match mget "error" srData with IStr e => e | _ => sr_Error sr end in
  let exit := match intify (mget "exit_status" srData) with Some n => (n mod 256)%Z | None => sr_ExitStatus sr end in
  let w := save_run w (sr_set_result sr error exit) in
  set_tasks w (tasks w ++ [TNotify (sr_ShoveyUUID sr)]).

(** [notifyParent]; a job that is not there is a nil pointer. *)
Definition notifyParent w (shoveyUUID : string) (now : Z) : outcome (world S T) :=
  match Get w shoveyUUID with
  | Ok s => r ← checkCompleted w s now; Ok r.1
  | Err _ => Panic NilDeref
  | Panic p => Panic p
  end.

(** * Output *)

Definition AddStreamOutput w sr (output outputType : string) (seq : Z) (isLast : bool) (now : Z) : outcome (world S T) :=
  let stream := {| ss_ShoveyUUID := sr_ShoveyUUID sr; ss_NodeName := sr_NodeName sr; ss_Seq := seq;
                   ss_OutputType := outputType; ss_Output := output; ss_IsLast := isLast; ss_CreatedAt := now |} in
  found ← st_get (sto w) "shovey_run_stream" (streamKey (sr_ShoveyUUID sr) (sr_NodeName sr) outputType seq);
  match found with
  | Some _ => Err (SetStatus (Errorf ("sequence " +:+ itoa seq +:+ " for " +:+ sr_ShoveyUUID sr +:+ " - " +:+
                sr_NodeName sr +:+ " already exists")) StatusConflict)
  | None => Ok (set_sto w (store (sto w) stream))
  end.

(** The loop of [GetStreamOutput], which ends at the first number that is not
    there. *)
Fixpoint stream_loop (fuel : nat) w sr (outputType : string) (i : Z) : outcome (list ShoveyRunStream) :=
  match fuel with
  | 0 => Panic StackOverflow
  | Datatypes.S fuel =>
      o ← load (sto w) (streamKey (sr_ShoveyUUID sr) (sr_NodeName sr) outputType i);
      match o with
      | None => Ok []
      | Some s => l ← stream_loop fuel w sr outputType (wrap64 (i + 1)); Ok (s :: l)
      end
  end.

(** As often as there are pieces of output, and once more. *)
Definition GetStreamOutput w sr (outputType : string) (seq : Z) : outcome (list ShoveyRunStream) :=
  names ← st_list (sto w) "shovey_run_stream";
  stream_loop (Datatypes.S (length names)) w sr outputType seq.

Definition seq_less (a b : ShoveyRunStream) : bool := (ss_Seq a <? ss_Seq b)%Z.

Definition CombineStreamOutput w sr (outputType : string) (seq : Z) : outcome string :=
  stream ← GetStreamOutput w sr outputType seq;
  Ok (str_join EmptyString (ss_Output <$> go_sort seq_less stream)).

(** * Answers *)

Definition ToJSON w s : outcome jmap :=
  srs ← GetNodeRuns w s;
  let tjnodes := foldl (λ m sr, mset (sr_Status sr) (default [] (mlookup (sr_Status sr) m) ++ [sr_NodeName sr]) m) [] srs in
  Ok [("id", IStr (sh_RunID s)); ("command", IStr (sh_Command s)); ("run_timeout", INumber (itoa (sh_Timeout s)));
      ("status", IStr (sh_Status s)); ("created_at", IStr (MarshalTime (sh_CreatedAt s)));
      ("updated_at", IStr (MarshalTime (sh_UpdatedAt s))); ("nodes", IMapStrs tjnodes)].

Definition run_ToJSON w sr : outcome jmap :=
  output ← CombineStreamOutput w sr "stdout" 0;
  stderr ← CombineStreamOutput w sr "stderr" 0;
  Ok [("run_id", IStr (sr_ShoveyUUID sr)); ("node_name", IStr (sr_NodeName sr)); ("status", IStr (sr_Status sr));
      ("ack_time", IStr (MarshalTime (sr_AckTime sr))); ("end_time", IStr (MarshalTime (sr_EndTime sr)));
      ("error", IStr (sr_Error sr)); ("exit_status", INumber (itoa (sr_ExitStatus sr)));
      ("output", IStr output); ("stderr", IStr stderr)].

Definition AllShoveyIDs w : outcome (list string) := st_list (sto w) "shovey".

(** The loops that end the process on an error. *)
Definition AllShoveys w : outcome (list Shovey) :=
  ids ← AllShoveyIDs w;
  mapM (λ id, match Get w id with Err _ => Panic ExplicitPanic | o => o end) ids.

Definition AllShoveyRuns w : outcome (list ShoveyRun) :=
  shoveys ← AllShoveys w;
  runs ← mapM (λ s, match GetNodeRuns w s with Err _ => Panic ExplicitPanic | o => o end) shoveys;
  Ok (concat runs).

Definition AllShoveyRunStreams w : outcome (list ShoveyRunStream) :=
  shoveyRuns ← AllShoveyRuns w;
  streams ← mapM (λ sr,
    out ← GetStreamOutput w sr "stdout" 0; err ← GetStreamOutput w sr "stderr" 0; Ok (out ++ err)) shoveyRuns;
  Ok (concat streams).

(** * The goroutines *)

(** One of the goroutines makes a step: a change of a run is told to the job;
    the goroutine that waits for messages gets the acknowledgement of a node,
    whose run it reads and hands on, or something else; or a run that was
    handed on is saved. *)
Inductive task_step : world S T → world S T → Prop :=
| task_notify w l1 id l2 now w' :
    tasks w = l1 ++ TNotify id :: l2 → notifyParent (set_tasks w (l1 ++ l2)) id now = Ok w' → task_step w w'
| task_ack w l1 id n q l2 a sr now :
    tasks w = l1 ++ TListen id (Datatypes.S n) q :: l2 → a ≠ EmptyString → load (sto w) (id +:+ a) = Ok (Some sr) →
    task_step w (set_tasks w (l1 ++ TListen id n (q ++ [sr_set_ack sr now]) :: l2))
| task_other w l1 id n q l2 :
    tasks w = l1 ++ TListen id (Datatypes.S n) q :: l2 → task_step w (set_tasks w (l1 ++ TListen id n q :: l2))
| task_save w l1 id n sr q l2 :
    tasks w = l1 ++ TListen id n (sr :: q) :: l2 →
    task_step w (save_run (set_tasks w (l1 ++ TListen id n q :: l2)) sr)
| task_done w l1 id l2 :
    tasks w = l1 ++ TListen id 0 [] :: l2 → task_step w (set_tasks w (l1 ++ l2)).
End shoveys.
