(* ===== verification/ShoveyFacts.v ===== *)
(** Properties of pushed jobs. *)
From Stdlib Require Import SpecFloat.
From S2P Require Import Prelude Gerror Iface Config Store Datastore Tables UtilStrings Objects SortSearch Validations Flatten FileIndex.
From S2P Require Import World Nodes Roles Environments Sandboxes Clients Users DataBags Loginfo Statuses Quorum Shoveys.

Section output.
  Context {S T : Type} {OO : StoreOps S object} {L : StoreLaws S object}.
  Implicit Types (w : world S T) (sr : ShoveyRun).

Definition piece_key sr (t : string) (i : Z) : string := streamKey (sr_ShoveyUUID sr) (sr_NodeName sr) t i.

#[local] Instance piece_key_inj sr t : Inj (=) (=) (piece_key sr t).
Proof.
  intros i j H. unfold piece_key, streamKey, itoa in H. do 6 apply (inj (String.app _)) in H. by apply (inj pretty) in H.
Qed.

(** The pieces that follow one another from a number on. *)
Definition pieces w sr t (i : Z) (l : list ShoveyRunStream) : Prop :=
  (∀ j s, l !! j = Some s → load (sto w) (piece_key sr t (i + Z.of_nat j)) = Ok (Some s)) ∧
  load (A := ShoveyRunStream) (sto w) (piece_key sr t (i + Z.of_nat (length l))) = Ok None.

Lemma stream_loop_pieces w sr t l : ∀ i fuel,
  pieces w sr t i l → (min_int64 ≤ i)%Z → (i + Z.of_nat (length l) ≤ max_int64)%Z → length l < fuel →
  stream_loop fuel w sr t i = Ok l.
Proof.
  induction l as [|s l IH]; intros i [|fuel] [Hl Hn] Hi Hm Hf; simpl in Hf; try lia; simpl.
  { rewrite Z.add_0_r in Hn. unfold piece_key in Hn. by rewrite Hn. }
  pose proof (Hl 0 s eq_refl) as H0. rewrite Z.add_0_r in H0. unfold piece_key in H0. rewrite H0. simpl.
  simpl in Hm. rewrite wrap64_small by lia. rewrite (IH (i + 1)%Z); [done|split|lia..].
  - intros j s' Hj. specialize (Hl (Datatypes.S j) s' Hj). by replace (i + 1 + Z.of_nat j)%Z with (i + Z.of_nat (Datatypes.S j))%Z by lia.
  - simpl in Hn. by replace (i + 1 + Z.of_nat (length l))%Z with (i + Z.of_nat (Datatypes.S (length l)))%Z by lia.
Qed.

(** There are as many pieces of output as the store lists, at least. *)
Lemma pieces_listed w sr t i l names :
  st_inv (sto w) → pieces w sr t i l → st_list (sto w) "shovey_run_stream" = Ok names → length l ≤ length names.
Proof.
  intros Hi [Hl _] Hn. destruct (st_list_ok (sto w) "shovey_run_stream" Hi eq_refl) as (names' & Hn' & _ & _ & Hin).
  assert (names = names') as -> by congruence.
  rewrite <-(length_seq (length l) 0), <-(length_map (λ j, piece_key sr t (i + Z.of_nat j))).
  apply submseteq_length, NoDup_submseteq.
  - apply NoDup_fmap_2_strong; [|apply NoDup_seq]. intros j k _ _ He%(inj (piece_key sr t)). lia.
  - intros k (j & -> & [_ Hj]%elem_of_seq)%list_elem_of_fmap. apply Hin.
    destruct (lookup_lt_is_Some_2 l j ltac:(lia)) as [s Hs]. specialize (Hl j s Hs). unfold load in Hl.
    apply bind_Ok in Hl as ([o|] & Ho & Hl); [by exists o|done].
Qed.

Lemma GetStreamOutput_pieces w sr t i l :
  st_inv (sto w) → pieces w sr t i l → (min_int64 ≤ i)%Z → (i + Z.of_nat (length l) ≤ max_int64)%Z →
  GetStreamOutput w sr t i = Ok l.
Proof.
  intros Hi Hp Hm Hx. unfold GetStreamOutput.
  destruct (st_list_ok (sto w) "shovey_run_stream" Hi eq_refl) as (names & Hn & _). rewrite Hn.
  change (stream_loop (Datatypes.S (length names)) w sr t i = Ok l). apply stream_loop_pieces; [done..|]. pose proof (pieces_listed w sr t i l names Hi Hp Hn). lia.
Qed.

(** Pieces of output of a run, sent one by one. *)
Definition piece_of sr (t : string) (p : ShoveyRunStream) : Prop :=
  ss_ShoveyUUID p = sr_ShoveyUUID sr ∧ ss_NodeName p = sr_NodeName sr ∧ ss_OutputType p = t.

Definition add_piece w sr (t : string) (p : ShoveyRunStream) : outcome (world S T) :=
  AddStreamOutput w sr (ss_Output p) t (ss_Seq p) (ss_IsLast p) (ss_CreatedAt p).

Definition upload w sr (t : string) (l : list ShoveyRunStream) : outcome (world S T) :=
  foldl (λ o p, o ≫= λ w, add_piece w sr t p) (Ok w) l.

Lemma piece_name sr t p : piece_of sr t p → s_name p = piece_key sr t (ss_Seq p).
Proof. intros (H1 & H2 & H3). unfold piece_key. simpl. by rewrite H1, H2, H3. Qed.

(** A number that is taken is refused, one that is free is added. *)
Lemma add_piece_spec w sr t p :
  st_inv (sto w) → piece_of sr t p →
  (load (A := ShoveyRunStream) (sto w) (s_name p) = Ok None → add_piece w sr t p = Ok (set_sto w (store (sto w) p))) ∧
  (∀ p', load (A := ShoveyRunStream) (sto w) (s_name p) = Ok (Some p') → ∃ e, add_piece w sr t p = Err e ∧ Status e = StatusConflict).
Proof.
  intros Hi Hp. unfold add_piece, AddStreamOutput. rewrite (piece_name sr t p Hp). unfold piece_key, load. simpl.
  destruct Hp as (H1 & H2 & H3).
  destruct (st_get_ok (sto w) "shovey_run_stream" (streamKey (sr_ShoveyUUID sr) (sr_NodeName sr) t (ss_Seq p)) Hi eq_refl)
    as [[o|] ->]; simpl; split; try done.
  - by destruct o.
  - intros _ _. by eexists.
  - intros _. do 3 f_equal. destruct p. simpl in *. by subst.
Qed.

Lemma upload_spec sr t l : ∀ w,
  st_inv (sto w) → Forall (piece_of sr t) l → NoDup (ss_Seq <$> l) →
  (∀ p, p ∈ l → load (A := ShoveyRunStream) (sto w) (s_name p) = Ok None) →
  ∃ w', upload w sr t l = Ok w' ∧ st_inv (sto w') ∧ (∀ p, p ∈ l → load (sto w') (s_name p) = Ok (Some p)) ∧
    (∀ k, k ∉ s_name <$> l → load (A := ShoveyRunStream) (sto w') k = load (sto w) k).
Proof.
  induction l as [|p l IH]; intros w Hi Hp Hnd Hn; [exists w; split_and!; first [done|set_solver]|].
  apply Forall_cons in Hp as [Hp Hl]. apply NoDup_cons in Hnd as [Hnp Hnd].
  unfold upload. simpl. destruct (add_piece_spec w sr t p Hi Hp) as [Ha _]. rewrite Ha by (apply Hn; set_solver).
  assert (∀ p', p' ∈ l → s_name p' ≠ s_name p) as Hne.
  { intros p' Hp' He. rewrite Forall_forall in Hl. rewrite !(piece_name sr t) in He by auto.
    apply (inj (piece_key sr t)) in He. apply Hnp. rewrite <-He. by apply list_elem_of_fmap_2. }
  destruct (IH (set_sto w (store (sto w) p))) as (w' & Hw' & Hi' & Hl' & Hr'); [by apply store_inv|done..| |].
  { intros p' Hp'. cbn [set_sto sto]. rewrite load_store by done. rewrite bool_decide_false by (by apply Hne). apply Hn. set_solver. }
  exists w'. split_and!; [done|done| |].
  - intros p' [->|Hp']%elem_of_cons; [|by apply Hl']. rewrite Hr'.
    + cbn [set_sto sto]. rewrite load_store by done. by rewrite bool_decide_true by done.
    + intros (p2 & He & Hp2)%list_elem_of_fmap. by apply (Hne p2).
  - intros k Hk. simpl in Hk. apply not_elem_of_cons in Hk as [Hk1 Hk2]. rewrite Hr' by done. cbn [set_sto sto].
    rewrite load_store by done. by rewrite bool_decide_false.
Qed.

(** What is sorted already stays as it is. *)
#[local] Instance seq_less_weak : StrictWeak seq_less.
Proof. split; unfold seq_less; intros *; rewrite ?Z.ltb_lt, ?Z.ltb_ge; lia. Qed.

Lemma sorted_pieces (i : Z) l : ss_Seq <$> l = seqZ i (Z.of_nat (length l)) → go_sort seq_less l = l.
Proof.
  intros Hs. assert (∀ j p, l !! j = Some p → ss_Seq p = i + Z.of_nat j)%Z as Hat.
  { intros j p Hj. assert ((ss_Seq <$> l) !! j = Some (ss_Seq p)) as H1 by (by rewrite list_lookup_fmap, Hj).
    rewrite Hs in H1. by apply lookup_seqZ in H1 as [-> _]. }
  apply (StronglySorted_unique_strong (le_of seq_less)).
  - intros x y Hx Hy. unfold le_of, seq_less. rewrite !Z.ltb_ge. intros H1 H2.
    apply elem_of_go_sort in Hx. apply list_elem_of_lookup in Hx as [jx Hx], Hy as [jy Hy].
    pose proof (Hat _ _ Hx). pose proof (Hat _ _ Hy). assert (jx = jy) as -> by lia. congruence.
  - apply go_sort_sorted, _.
  - clear - Hs. revert i Hs. induction l as [|p l IH]; intros i Hs; constructor.
    + apply (IH (i + 1)%Z). simpl in Hs. rewrite seqZ_cons in Hs by lia. injection Hs as _ Hs. etrans; [exact Hs|].
      f_equal; lia.
    + simpl in Hs. rewrite seqZ_cons in Hs by lia. injection Hs as Hp Hs. apply Forall_forall. intros q Hq.
      unfold le_of, seq_less. apply Z.ltb_ge.
      assert (ss_Seq q ∈ ss_Seq <$> l) as Hin by (by apply list_elem_of_fmap_2). change (ss_Seq q ∈ list_fmap _ _ ss_Seq l) in Hin. rewrite Hs in Hin.
      apply elem_of_seqZ in Hin. lia.
  - apply go_sort_Permutation.
Qed.

End output.

Section jobs.
  Context {EN : Encoder} {PU : Pushing} {FN : FloatNotations} {S T : Type}.
  Context {OO : StoreOps S object} {L : StoreLaws S object} {TB : TableOps S object} {TL : TableLaws S object}.
  Implicit Types (w : world S T) (s : Shovey) (sr : ShoveyRun).

(** The run of a node that is stored for a job. *)
Definition run_at w s (n : string) (sr : ShoveyRun) : Prop := load (sto w) (sh_RunID s +:+ n) = Ok (Some sr).

Definition job_at w (id : string) s : Prop := load (sto w) id = Ok (Some s).

Lemma GetRun_Ok w s n sr : GetRun w s n = Ok sr ↔ run_at w s n sr.
Proof. unfold GetRun, run_at. destruct (load _ _) as [[sr'|]| |]; simpl; split; congruence. Qed.

(** Worlds with the same jobs, the same tasks and the same index, whose runs
    differ at most at the names [ks]. *)
Definition runs_changed (ks : list string) w w' : Prop :=
  st_inv (sto w') ∧ (∀ k, k ∉ ks → load (A := ShoveyRun) (sto w') k = load (sto w) k) ∧
  (∀ id, load (A := Shovey) (sto w') id = load (sto w) id) ∧ tasks w' = tasks w.

Lemma runs_changed_refl ks w : st_inv (sto w) → runs_changed ks w w.
Proof. intros. unfold runs_changed. by split_and!. Qed.

Lemma runs_changed_trans ks w1 w2 w3 : runs_changed ks w1 w2 → runs_changed ks w2 w3 → runs_changed ks w1 w3.
Proof.
  intros (H1 & H2 & H3 & H4) (J1 & J2 & J3 & J4). unfold runs_changed. split_and!; [done| | |congruence].
  - intros k Hk. by rewrite J2, H2.
  - intros id. by rewrite J3, H3.
Qed.

Lemma save_run_load w sr k :
  st_inv (sto w) →
  load (sto (save_run w sr)) k = if bool_decide (k = s_name sr) then Ok (Some sr) else load (sto w) k.
Proof. intros Hi. unfold save_run. cbn [set_sto sto]. by rewrite load_store. Qed.

Lemma save_run_changed ks w sr : st_inv (sto w) → s_name sr ∈ ks → runs_changed ks w (save_run w sr).
Proof.
  intros Hi Hk. unfold runs_changed. split_and!; [by apply store_inv| | |done].
  - intros k Hn. rewrite save_run_load by done. rewrite bool_decide_false; [done|]. by intros ->.
  - intros id. by apply (load_store_ne (A := Shovey) (B := ShoveyRun)).
Qed.

(** One run for each of a list of nodes. *)
Lemma save_runs (f : string → ShoveyRun) (id : string) (l : list string) : ∀ w,
  st_inv (sto w) → (∀ n, s_name (f n) = id +:+ n) →
  runs_changed (String.app id <$> l) w (foldl (λ w n, save_run w (f n)) w l) ∧
  ∀ n, n ∈ l → load (sto (foldl (λ w n, save_run w (f n)) w l)) (id +:+ n) = Ok (Some (f n)).
Proof.
  induction l as [|m l IH] using rev_ind; intros w Hi Hf; [split; [by apply runs_changed_refl|set_solver]|].
  rewrite foldl_app. cbn [foldl]. destruct (IH w Hi Hf) as [Hc Hl]. clear IH.
  set (w1 := foldl _ w l) in *. assert (st_inv (sto w1)) as Hi1 by apply Hc. split.
  - eapply runs_changed_trans; [|apply save_run_changed; [done|rewrite Hf; set_solver]].
    destruct Hc as (H1 & H2 & H3 & H4). unfold runs_changed. split_and!; [done| |done..]. intros k Hk. apply H2. set_solver.
  - intros n Hn. rewrite save_run_load, Hf by done. case_bool_decide as E.
    + by apply (inj (String.app id)) in E as ->.
    + apply Hl. apply elem_of_app in Hn as [|Hn]; [done|]. apply list_elem_of_singleton in Hn as ->. done.
Qed.

Lemma foldl_if {A} (f : A → string → A) (p : string → bool) (l : list string) : ∀ a,
  foldl (λ a n, if p n then a else f a n) a l = foldl f a (filter (λ n, p n = false) l).
Proof.
  induction l as [|n l IH]; intros a; [done|]. simpl. rewrite filter_cons.
  destruct (p n) eqn:E; [rewrite decide_False by congruence|rewrite decide_True by done]; apply IH.
Qed.

(** The nodes that are up get a run to be started, the others one that is
    over. *)
Lemma create_runs_spec w s up now :
  st_inv (sto w) → let w' := create_runs w s up now in
  runs_changed (String.app (sh_RunID s) <$> up ++ sh_NodeNames s) w w' ∧
  (∀ n, n ∈ up → run_at w' s n (new_run (sh_RunID s) n "created" zero_time)) ∧
  (∀ n, n ∈ sh_NodeNames s → n ∉ up → run_at w' s n (new_run (sh_RunID s) n "down" now)).
Proof.
  intros Hi w'. subst w'. unfold create_runs. rewrite (foldl_if (λ w n, save_run w _) (λ n, bool_decide (n ∈ up))).
  set (w1 := foldl _ w up). set (rest := filter _ (sh_NodeNames s)). set (w2 := foldl _ w1 rest).
  destruct (save_runs (λ n, new_run (sh_RunID s) n "created" zero_time) (sh_RunID s) up w Hi ltac:(done)) as [Hc1 Hl1].
  destruct (save_runs (λ n, new_run (sh_RunID s) n "down" now) (sh_RunID s) rest w1 (proj1 Hc1) ltac:(done)) as [Hc2 Hl2].
  assert (∀ n, n ∈ rest ↔ n ∈ sh_NodeNames s ∧ n ∉ up) as Hrest.
  { intros n. unfold rest. rewrite list_elem_of_filter, bool_decide_eq_false. tauto. }
  split_and!.
  - apply (runs_changed_trans _ w w1 w2).
    + destruct Hc1 as (H1 & H2 & H3 & H4). unfold runs_changed. split_and!; [done| |done..]. intros k Hk. apply H2. set_solver.
    + destruct Hc2 as (H1 & H2 & H3 & H4). unfold runs_changed. split_and!; [done| |done..]. intros k Hk. apply H2.
      intros (n & -> & Hn%Hrest)%list_elem_of_fmap. apply Hk, list_elem_of_fmap_2. set_solver.
  - intros n Hn. unfold run_at. destruct Hc2 as (_ & H2 & _). rewrite H2; [by apply Hl1|].
    intros (m & He & Hm%Hrest)%list_elem_of_fmap. apply (inj (String.app _)) in He as ->. tauto.
  - intros n Hn Hu. apply Hl2, Hrest. done.
Qed.

Lemma by_latest_keeps p w nodes :
  keeps_objects (sto w) (sto (by_latest p w nodes).2) ∧ tasks (by_latest p w nodes).2 = tasks w.
Proof.
  revert w. induction nodes as [|n nodes IH]; intros w; [split; [by intros|done]|]. simpl.
  assert (keeps_objects (sto w) (sto (LatestStatus w n).2) ∧ tasks (LatestStatus w n).2 = tasks w) as [Hk Ht].
  { unfold LatestStatus. pose proof (tb_latest_keeps (sto w) (n_Name n)). by destruct (tb_latest _ _). }
  destruct (LatestStatus w n) as [o w1] eqn:E. simpl in Hk, Ht. destruct (IH w1) as [Hk1 Ht1].
  assert (keeps_objects (sto w) (sto (by_latest p w1 nodes).2)) as Hk2.
  { intros Hi. destruct (Hk Hi) as [Hi1 Hs1]. destruct (Hk1 Hi1) as [Hi2 Hs2]. split; [done|].
    intros t k Hty. by rewrite Hs2, Hs1. }
  destruct o as [ns| |]; [|split; [done|congruence]|done].
  destruct (by_latest p w1 nodes) as [rest w2]. simpl in *. split; [done|congruence].
Qed.

Lemma load_keeps `{Stored A} {SL : StoredLaws A} (s s' : S) k :
  st_inv s → keeps_objects s s' → load (A := A) s' k = load s k.
Proof. intros Hi Hk. destruct (Hk Hi) as [_ Hs]. unfold load. by rewrite Hs by apply s_type_ok. Qed.

Lemma GetNodesByStatus_changed w names st o w' :
  st_inv (sto w) → GetNodesByStatus w names st = (o, w') → runs_changed [] w w'.
Proof.
  intros Hi. unfold GetNodesByStatus. destruct (load_all (sto w) names) as [nodes| |];
    [|intros [= <- <-]; by apply runs_changed_refl..].
  intros E. pose proof (by_latest_keeps (λ _ ns, bool_decide (ns_Status ns = st)) w nodes) as [Hk Ht].
  rewrite E in Hk, Ht. simpl in *. unfold runs_changed. split_and!; [by apply Hk| |..|done].
  - intros k _. by apply load_keeps.
  - intros k. by apply load_keeps.
Qed.

(** Saving a job changes it alone. *)
Lemma save_shovey_spec w s now : st_inv (sto w) → let '(w', s') := save_shovey w s now in
  s' = sh_set_updated s now ∧ st_inv (sto w') ∧ job_at w' (sh_RunID s) s' ∧
  (∀ id, id ≠ sh_RunID s → load (A := Shovey) (sto w') id = load (sto w) id) ∧
  (∀ k, load (A := ShoveyRun) (sto w') k = load (sto w) k) ∧ tasks w' = tasks w.
Proof.
  intros Hi. unfold save_shovey, job_at. cbn [set_sto sto tasks]. split_and!; [done|by apply store_inv|..|done].
  - rewrite load_store by done. by rewrite bool_decide_true.
  - intros id Hne. rewrite load_store by done. by rewrite bool_decide_false.
  - intros k. by apply (load_store_ne (A := ShoveyRun) (B := Shovey)).
Qed.

(** C23: starting a job. When fewer nodes are up than the quorum asks for, the
    job fails and no run is made. Otherwise every node of the job gets a run,
    started on the nodes that are up and over on the others, and no other run
    changes; the command is signed and addressed to exactly the nodes that are
    up, a goroutine waits for their messages, and the job runs; when the command
    cannot be signed, or serf is not connected and cannot be reached again, the
    job fails, with its runs made. An error of sending the command itself is
    dropped by [serfin.Query] and the job then runs; a connection that is made
    again makes the server panic. *)
Theorem job_start_exact w s now qnum ups w1 :
  st_inv (sto w) → getQuorum (sh_Quorum s) (Z.of_nat (length (sh_NodeNames s))) = inl qnum →
  GetNodesByStatus w (sh_NodeNames s) "up" = (Ok ups, w1) →
  let up := map n_Name ups in let id := sh_RunID s in
  ∃ o w', Start w s now = (o, w') ∧
  if (Z.of_nat (length ups) <? qnum)%Z then
    is_ok o = false ∧ job_at w' id (sh_set_updated (sh_set_status s "quorum_failed") now) ∧
    (∀ k, load (A := ShoveyRun) (sto w') k = load (sto w) k) ∧ tasks w' = tasks w
  else
    (∀ n, n ∈ up → run_at w' s n (new_run id n "created" zero_time)) ∧
    (∀ n, n ∈ sh_NodeNames s → n ∉ up → run_at w' s n (new_run id n "down" now)) ∧
    (∀ k, k ∉ String.app id <$> up ++ sh_NodeNames s → load (A := ShoveyRun) (sto w') k = load (sto w) k) ∧
    match signed_query (start_payload s now) up with
    | inr _ => is_ok o = false ∧ job_at w' id (sh_set_updated (sh_set_status s "job_failed") now) ∧ tasks w' = tasks w
    | inl q =>
        q_FilterNodes q = up ∧ mlookup "command" (q_Payload q) = Some (sh_Command s) ∧
        match serf_Query now q with
        | Ok _ => o = Ok (sh_set_updated (sh_set_status s "running") now) ∧
            job_at w' id (sh_set_updated (sh_set_status s "running") now) ∧
            tasks w' = tasks w ++ [TListen id (2 * length up) []]
        | Err _ => is_ok o = false ∧ job_at w' id (sh_set_updated (sh_set_status s "job_failed") now) ∧ tasks w' = tasks w
        | Panic p => o = Panic p ∧ tasks w' = tasks w
        end
    end.
Proof.
  intros Hi Hq Hn up id. pose proof (GetNodesByStatus_changed _ _ _ _ _ Hi Hn) as (Hi1 & Hr1 & _ & Ht1).
  unfold Start, startJobs. rewrite Hq, Hn. destruct (_ <? qnum)%Z eqn:Eq.
  { pose proof (save_shovey_spec w1 (sh_set_status s "quorum_failed") now Hi1) as Hs. cbn [q_status q_SetStatus].
    destruct (save_shovey _ _ _) as [w' s']. destruct Hs as (-> & _ & Hj & _ & Hr & Ht). eexists _, _. split; [done|].
    cbn [fst]. split_and!; [done..| |congruence]. intros k. rewrite Hr. apply Hr1. set_solver. }
  destruct (create_runs_spec w1 s up now Hi1) as ((Hi2 & Hr2 & _ & Ht2) & Hup & Hdown). fold up.
  set (w2 := create_runs w1 s up now) in *.
  assert (∀ w' : world S T, (∀ k, load (A := ShoveyRun) (sto w') k = load (sto w2) k) →
    (∀ n, n ∈ up → run_at w' s n (new_run id n "created" zero_time)) ∧
    (∀ n, n ∈ sh_NodeNames s → n ∉ up → run_at w' s n (new_run id n "down" now)) ∧
    (∀ k, k ∉ String.app id <$> up ++ sh_NodeNames s → load (A := ShoveyRun) (sto w') k = load (sto w) k)) as Hall.
  { intros w' Hw. split_and!.
    - intros n Hin. unfold run_at. rewrite Hw. by apply Hup.
    - intros n Hin Hnu. unfold run_at. rewrite Hw. by apply Hdown.
    - intros k Hk. rewrite Hw, Hr2 by exact Hk. apply Hr1. set_solver. }
  destruct (signed_query (start_payload s now) up) as [q|e] eqn:Es.
  2:{ pose proof (save_shovey_spec w2 (sh_set_status s "job_failed") now Hi2) as Hs. cbn [q_status q_Errorf].
      destruct (save_shovey _ _ _) as [w' s']. destruct Hs as (-> & _ & Hj & _ & Hr & Ht). eexists _, _. split; [done|].
      cbn [fst]. destruct (Hall w' Hr) as (?&?&?). split_and!; [done..|congruence]. }
  unfold signed_query in Es. destruct (signRequest _) as [sig|]; [|done]. injection Es as <-.
  set (q := {| q_Payload := _; q_FilterNodes := up |}).
  destruct (serf_Query now q) as [[]|e|p] eqn:Eserf.
  - set (w3 := set_tasks _ _). pose proof (save_shovey_spec w3 (sh_set_status s "running") now Hi2) as Hs.
    destruct (save_shovey _ _ _) as [w' s']. destruct Hs as (-> & _ & Hj & _ & Hr & Ht). eexists _, _. split; [done|].
    destruct (Hall w' Hr) as (?&?&?). split_and!; try done. rewrite Ht. unfold w3. cbn [tasks set_tasks]. rewrite Ht2, Ht1. unfold up. by rewrite length_map.
  - pose proof (save_shovey_spec w2 (sh_set_status s "job_failed") now Hi2) as Hs. cbn [q_status q_Errorf].
    destruct (save_shovey _ _ _) as [w' s']. destruct Hs as (-> & _ & Hj & _ & Hr & Ht). eexists _, _. split; [done|].
    cbn [fst]. destruct (Hall w' Hr) as (?&?&?). split_and!; try done. congruence.
  - eexists _, _. split; [done|]. destruct (Hall w2 ltac:(done)) as (?&?&?). split_and!; try done. congruence.
Qed.

(** A run after it was cancelled: runs that have finished are left alone. *)
Definition cancelled sr (now : Z) : ShoveyRun :=
  if bool_decide (sr_Status sr ∈ finished) then sr else sr_set_status sr "cancelled" now.

Lemma cancelled_twice sr now : cancelled (cancelled sr now) now = cancelled sr now.
Proof.
  unfold cancelled. destruct (bool_decide (sr_Status sr ∈ finished)) eqn:E; [by rewrite E|]. simpl.
  by case_bool_decide.
Qed.

Lemma cancel_step w s n sr now :
  st_inv (sto w) → kind_wf (A := ShoveyRun) (sto w) → run_at w s n sr →
  let w' := if bool_decide (sr_Status sr ∈ finished) then w else save_run w (sr_set_status sr "cancelled" now) in
  runs_changed [sh_RunID s +:+ n] w w' ∧ kind_wf (A := ShoveyRun) (sto w') ∧ run_at w' s n (cancelled sr now).
Proof.
  intros Hi Hw Hr. unfold cancelled. case_bool_decide; [split_and!; [by apply runs_changed_refl|done..]|].
  assert (s_name (sr_set_status sr "cancelled" now) = sh_RunID s +:+ n) as Hn by exact (load_name _ _ sr Hi Hw Hr).
  split_and!.
  - apply save_run_changed; [done|]. rewrite Hn. set_solver.
  - by apply store_kind_wf.
  - unfold run_at. rewrite save_run_load by done. by rewrite bool_decide_true.
Qed.

Lemma cancel_loop_spec s now names : ∀ w,
  st_inv (sto w) → kind_wf (A := ShoveyRun) (sto w) → (∀ n, n ∈ names → ∃ sr, run_at w s n sr) →
  ∃ w', cancel_loop w s names now = (Ok (), w') ∧ runs_changed (String.app (sh_RunID s) <$> names) w w' ∧
    ∀ n sr, n ∈ names → run_at w s n sr → run_at w' s n (cancelled sr now).
Proof.
  induction names as [|m names IH]; intros w Hi Hw Hall.
  { exists w. split_and!; [done|by apply runs_changed_refl|set_solver]. }
  destruct (Hall m ltac:(set_solver)) as [srm Hm]. simpl. rewrite (proj2 (GetRun_Ok w s m srm) Hm).
  destruct (cancel_step w s m srm now Hi Hw Hm) as (Hc & Hw1 & Hm1).
  set (w1 := if bool_decide _ then w else _) in *. pose proof Hc as (Hi1 & Hr1 & _).
  assert (∀ n sr, run_at w s n sr → n ≠ m → run_at w1 s n sr) as Hkeep.
  { intros n sr Hn Hne. unfold run_at. rewrite Hr1; [done|]. intros He%list_elem_of_singleton.
    by apply (inj (String.app _)) in He. }
  destruct (IH w1 Hi1 Hw1) as (w' & Hl & Hc' & Hn').
  { intros n Hn. destruct (decide (n = m)) as [->|Hne]; [eauto|].
    destruct (Hall n ltac:(set_solver)) as [sr Hsr]. eauto. }
  exists w'. split_and!; [done| |].
  - eapply runs_changed_trans; [|destruct Hc' as (H1 & H2 & H3 & H4); unfold runs_changed; split_and!; [done| |done..]].
    + destruct Hc as (H1 & H2 & H3 & H4). unfold runs_changed. split_and!; [done| |done..]. intros k Hk. apply H2. set_solver.
    + intros k Hk. apply H2. set_solver.
  - intros n sr Hn Hsr. destruct (decide (n ∈ names)) as [Hin|Hnin].
    + destruct (decide (n = m)) as [->|Hne]; [|by apply Hn', Hkeep].
      assert (sr = srm) as -> by (unfold run_at in *; congruence). rewrite <-cancelled_twice. by apply Hn'.
    + apply elem_of_cons in Hn as [->|]; [|done]. assert (sr = srm) as -> by (unfold run_at in *; congruence).
      unfold run_at. destruct Hc' as (_ & H2 & _). rewrite H2; [done|].
      intros (n2 & He & Hn2)%list_elem_of_fmap. by apply (inj (String.app _)) in He as ->.
Qed.

(** Cancelling a job cancels every run of it that has not finished, with
    the time, leaves the finished ones and the runs of other jobs as they were,
    and marks the job; should the nodes not be told, the error says so and
    the runs are cancelled all the same. *)
Theorem job_cancel_exact w s now q :
  st_inv (sto w) → kind_wf (A := ShoveyRun) (sto w) → (∀ n, n ∈ sh_NodeNames s → ∃ sr, run_at w s n sr) →
  signed_query (cancel_payload s now) (sort_strings (sh_NodeNames s)) = inl q →
  ∃ o w' s', Cancel w s now = (o, w') ∧ job_at w' (sh_RunID s) s' ∧ sh_Status s' = "cancelled" ∧
    sh_NodeNames s' ≡ₚ sh_NodeNames s ∧ tasks w' = tasks w ∧
    (∀ n sr, n ∈ sh_NodeNames s → run_at w s n sr → run_at w' s n (cancelled sr now)) ∧
    (∀ k, k ∉ String.app (sh_RunID s) <$> sh_NodeNames s → load (A := ShoveyRun) (sto w') k = load (sto w) k) ∧
    o = match serf_Query now q with Ok _ => Ok s' | Err e => Err (CastErr (Error e)) | Panic p => Panic p end.
Proof.
  intros Hi Hw Hall Hq. destruct (cancel_loop_spec s now (sh_NodeNames s) w Hi Hw Hall) as (w1 & Hl & (Hi1 & Hr1 & _ & Ht1) & Hc).
  unfold Cancel, CancelRuns, cancel_status. rewrite Hl, (bool_decide_true (length _ = _)) by done.
  cbn [sh_NodeNames sh_set_nodes]. rewrite bool_decide_true by done. set (s1 := sh_set_status _ _).
  pose proof (save_shovey_spec w1 s1 now Hi1) as Hs. destruct (save_shovey w1 s1 now) as [w2 s2] eqn:E2.
  destruct Hs as (-> & Hi2 & Hj2 & _ & Hr2 & Ht2).
  assert (length (sh_NodeNames s) = length (sort_strings (sh_NodeNames s))) as Hlen.
  { unfold sort_strings. by rewrite merge_sort_Permutation. }
  cbn [sh_NodeNames sh_set_updated s1 sh_set_status sh_set_nodes]. rewrite bool_decide_true by done.
  change (cancel_payload _ now) with (cancel_payload s now). rewrite Hq.
  assert (∀ w' : world S T, (∀ k, load (A := ShoveyRun) (sto w') k = load (sto w2) k) →
    (∀ n sr, n ∈ sh_NodeNames s → run_at w s n sr → run_at w' s n (cancelled sr now)) ∧
    (∀ k, k ∉ String.app (sh_RunID s) <$> sh_NodeNames s → load (A := ShoveyRun) (sto w') k = load (sto w) k)) as Hruns.
  { intros w' Hw'. split; [intros n sr Hn Hsr; unfold run_at; rewrite Hw', Hr2; by apply Hc|].
    intros k Hk. by rewrite Hw', Hr2, Hr1. }
  destruct (serf_Query now q) as [[]|e|p].
  - set (s3 := sh_set_status _ "cancelled"). pose proof (save_shovey_spec w2 s3 now Hi2) as Hs.
    destruct (save_shovey w2 s3 now) as [w3 s4]. destruct Hs as (-> & Hi3 & Hj3 & _ & Hr3 & Ht3).
    eexists _, _, _. split; [done|]. destruct (Hruns w3 Hr3). split_and!; try done; [|congruence].
    exact (merge_sort_Permutation _ _).
  - eexists _, _, _. split; [done|]. destruct (Hruns w2 ltac:(done)). split_and!; try done; [|congruence].
    exact (merge_sort_Permutation _ _).
  - eexists _, _, _. split; [done|]. destruct (Hruns w2 ltac:(done)). split_and!; try done; [|congruence].
    exact (merge_sort_Permutation _ _).
Qed.
End jobs.

(** * Completion *)

Section completion.
  Context {S T : Type} {OO : StoreOps S object} {L : StoreLaws S object}.
  Context (id : string) (names : list string).
  Implicit Types (w : world S T) (s : Shovey) (sr : ShoveyRun).

Definition is_over sr : Prop := sr_Status sr ∈ over.

(** Every run of the job is over, and no goroutine holds an older copy of one
    that is not. *)
Definition runs_over w : Prop :=
  (∀ n, n ∈ names → ∃ sr, load (sto w) (id +:+ n) = Ok (Some sr) ∧ is_over sr) ∧
  (∀ id' m q sr n, TListen id' m q ∈ tasks w → sr ∈ q → n ∈ names → s_name sr = id +:+ n → is_over sr).

Definition complete w : Prop := ∃ s, job_at w id s ∧ sh_Status s = "complete".

(** The job is there, its runs are over, and it is complete or is going to be
    told. *)
Record settled w : Prop := {
  se_inv : st_inv (sto w);
  se_runs : kind_wf (A := ShoveyRun) (sto w);
  se_jobs : kind_wf (A := Shovey) (sto w);
  se_job : ∃ s, job_at w id s ∧ sh_NodeNames s = names;
  se_over : runs_over w;
  se_told : complete w ∨ TNotify id ∈ tasks w;
}.

Lemma runs_of_over w s (l : list string) :
  sh_RunID s = id → (∀ n, n ∈ l → ∃ sr, load (sto w) (id +:+ n) = Ok (Some sr) ∧ is_over sr) →
  ∃ srs, runs_of w s l = Ok srs ∧ length srs = length l ∧ Forall is_over srs.
Proof.
  intros Hid. induction l as [|n l IH]; intros Hl; [by exists []|].
  destruct (Hl n ltac:(set_solver)) as (sr & Hsr & Ho). destruct IH as (srs & Hs & Hlen & Hf); [set_solver|].
  exists (sr :: srs). simpl. assert (GetRun w s n = Ok sr) as -> by (apply GetRun_Ok; unfold run_at; by rewrite Hid).
  rewrite Hs. simpl. split_and!; [done|congruence|by constructor].
Qed.

(** A job that is told is complete. *)
Lemma checkCompleted_over w s now :
  sh_RunID s = id → sh_NodeNames s = names → runs_over w →
  checkCompleted w s now = Ok (save_shovey w (sh_set_status s "complete") now).
Proof.
  intros Hid Hn [Hr _]. unfold checkCompleted, GetNodeRuns. rewrite Hn.
  destruct (runs_of_over w s names Hid Hr) as (srs & -> & Hlen & Hf).
  rewrite (proj1 (filter_all_none _ _) Hf).
  by rewrite bool_decide_true.
Qed.

(** A change of jobs leaves the runs, and of the job its nodes, alone. *)
Lemma checkCompleted_frame w s now w' s' :
  st_inv (sto w) → checkCompleted w s now = Ok (w', s') →
  (w' = w ∧ s' = s) ∨ (w', s') = save_shovey w (sh_set_status s "complete") now.
Proof.
  intros Hi. unfold checkCompleted. destruct (GetNodeRuns w s); [|by intros [= <- <-]; left|done].
  case_bool_decide; [|by intros [= <- <-]; left]. intros E. right. congruence.
Qed.

(** Replacing the tasks. *)
Lemma settled_tasks w l :
  settled w → (∀ id' m q, TListen id' m q ∈ l → ∀ sr, sr ∈ q →
    (∃ id2 m2 q2, TListen id2 m2 q2 ∈ tasks w ∧ sr ∈ q2) ∨
    (∃ sr0 k now, load (sto w) k = Ok (Some sr0) ∧ sr = sr_set_ack sr0 now)) →
  complete w ∨ TNotify id ∈ l → settled (set_tasks w l).
Proof.
  intros [Hi Hr Hj Hjob [Ho Hq] _] Hl Ht. split; try done. split; [done|].
  intros id' m q sr n Hin Hsr Hn He.
  destruct (Hl id' m q Hin sr Hsr) as [(id2 & m2 & q2 & H1 & H2)|(sr0 & k & now & H1 & ->)]; [by eapply Hq|].
  change (is_over sr0). change (s_name sr0 = id +:+ n) in He.
  assert (s_name sr0 = k) as <- by (by eapply load_name). rewrite He in H1.
  destruct (Ho n Hn) as (sr' & H2 & H3). congruence.
Qed.

Lemma settled_notify w id' now w' l :
  settled (set_tasks w l) ∨ (settled w ∧ id' = id) → (∀ t, t ∈ l → t ∈ tasks w) →
  notifyParent (set_tasks w l) id' now = Ok w' → settled w'.
Proof.
  intros Hs Hsub. set (w1 := set_tasks w l) in *.
  assert (st_inv (sto w1) ∧ kind_wf (A := ShoveyRun) (sto w1) ∧ kind_wf (A := Shovey) (sto w1) ∧
    (∃ s, job_at w1 id s ∧ sh_NodeNames s = names) ∧ runs_over w1) as (Hi & Hr & Hj & (s0 & Hs0 & Hn0) & Ho).
  { destruct Hs as [[]|[[Hi Hr Hj Hjob [Ho Hq] _] _]]; [by split_and!|]. split_and!; try done. split; [done|].
    intros id2 m q sr n Hin. by apply (Hq id2 m q sr n), Hsub. }
  unfold notifyParent. destruct (Get w1 id') as [s| |] eqn:Eg; [|done..].
  assert (job_at w1 id' s) as Hs'.
  { unfold Get in Eg. unfold job_at. destruct (load (sto w1) id') as [[?|]| |]; simpl in Eg; congruence. }
  assert (sh_RunID s = id') as Hid by exact (load_name (A := Shovey) (sto w1) id' s Hi Hj Hs').
  intros ([w2 s2] & Hc & [= <-])%bind_Ok. cbn [fst].
  destruct (decide (id' = id)) as [->|Hne].
  - assert (s = s0) as -> by (unfold job_at in *; congruence).
    rewrite checkCompleted_over in Hc by done.
    assert (save_shovey w1 (sh_set_status s0 "complete") now = (w2, s2)) as Hw2 by congruence.
    pose proof (save_shovey_spec w1 (sh_set_status s0 "complete") now Hi) as Hsave. rewrite Hw2 in Hsave.
    destruct Hsave as (-> & Hi2 & Hj2 & _ & Hr2 & Ht2). change (sh_RunID _) with (sh_RunID s0) in Hj2. rewrite Hid in Hj2.
    assert (w2 = (save_shovey w1 (sh_set_status s0 "complete") now).1) as -> by (by rewrite Hw2). split; try done.
    + by apply (kind_wf_store_ne (A := ShoveyRun) (B := Shovey)).
    + by apply store_kind_wf.
    + by eexists.
    + destruct Ho as [Ho Hq]. split; [|done]. intros n Hn. rewrite Hr2. by apply Ho.
    + left. by eexists.
  - destruct Hs as [Hs|[_ ?]]; [|done].
    destruct (checkCompleted_frame w1 s now w2 s2 Hi Hc) as [[-> ->]|Hw2]; [done|].
    pose proof (save_shovey_spec w1 (sh_set_status s "complete") now Hi) as Hsave. rewrite <-Hw2 in Hsave.
    destruct Hsave as (-> & Hi2 & Hj2 & Ho2 & Hr2 & Ht2). change (sh_RunID _) with (sh_RunID s) in Ho2. rewrite Hid in Ho2.
    assert (w2 = (save_shovey w1 (sh_set_status s "complete") now).1) as -> by (by rewrite <-Hw2).
    split; try done.
    + by apply (kind_wf_store_ne (A := ShoveyRun) (B := Shovey)).
    + by apply store_kind_wf.
    + exists s0. split; [|done]. unfold job_at. by rewrite Ho2.
    + destruct Ho as [Ho Hq]. split; [|done]. intros n Hn. rewrite Hr2. by apply Ho.
    + destruct (se_told _ Hs) as [(s3 & H1 & H2)|Ht]; [left|by right]. exists s3. split; [|done].
      unfold job_at. by rewrite Ho2.
Qed.

Lemma settled_save w sr : settled w → (∀ n, n ∈ names → s_name sr = id +:+ n → is_over sr) → settled (save_run w sr).
Proof.
  intros [Hi Hr Hj Hjob [Ho Hq] Ht] Hsr.
  destruct (save_run_changed [s_name sr] w sr Hi ltac:(set_solver)) as (Hi' & Hr' & Hj' & _).
  split; try done.
  - by apply store_kind_wf.
  - by apply (kind_wf_store_ne (A := Shovey) (B := ShoveyRun)).
  - destruct Hjob as (s & H1 & H2). exists s. split; [|done]. unfold job_at. by rewrite Hj'.
  - split; [|done]. intros n Hn. rewrite save_run_load by done. case_bool_decide as E; [|by apply Ho].
    exists sr. split; [done|]. by apply (Hsr n).
  - destruct Ht as [(s & H1 & H2)|Ht]; [left|by right]. exists s. split; [|done]. unfold job_at. by rewrite Hj'.
Qed.

Lemma settled_step w w' : settled w → task_step w w' → settled w'.
Proof.
  intros Hs Hstep. pose proof (se_told _ Hs) as Htold. destruct Hstep as
    [w l1 id' l2 now w' Ht Hn|w l1 id' n q l2 a sr now Ht Ha Hl|w l1 id' n q l2 Ht|w l1 id' n sr q l2 Ht|w l1 id' l2 Ht];
    rewrite Ht in Htold.
  - eapply settled_notify, Hn; [|rewrite Ht; set_solver]. destruct (decide (id' = id)) as [->|Hne]; [by right|left].
    apply settled_tasks; [done| |]; [intros id2 m q Hin sr Hsr; left; exists id2, m, q; rewrite Ht; set_solver|].
    destruct Htold as [|Hin]; [by left|right]. set_solver.
  - apply settled_tasks; [done| |destruct Htold as [|Hin]; [by left|right; set_solver]].
    intros id2 m q2 [Hin|[[= -> -> ->] |Hin]%elem_of_cons]%elem_of_app sr2 Hsr2;
      [left; exists id2, m, q2; rewrite Ht; set_solver| |left; exists id2, m, q2; rewrite Ht; set_solver].
    apply elem_of_app in Hsr2 as [| ->%list_elem_of_singleton];
      [left; exists id', (Datatypes.S n), q; rewrite Ht; set_solver|right; by eexists _, _, _].
  - apply settled_tasks; [done| |destruct Htold as [|Hin]; [by left|right; set_solver]].
    intros id2 m q2 [Hin|[[= -> -> ->] |Hin]%elem_of_cons]%elem_of_app sr2 Hsr2; left;
      [exists id2, m, q2|exists id', (Datatypes.S n), q|exists id2, m, q2]; rewrite Ht; set_solver.
  - apply settled_save.
    + apply settled_tasks; [done| |destruct Htold as [|Hin]; [by left|right; set_solver]].
      intros id2 m q2 [Hin|[[= -> -> ->] |Hin]%elem_of_cons]%elem_of_app sr2 Hsr2; left;
        [exists id2, m, q2|exists id', n, (sr :: q)|exists id2, m, q2]; rewrite Ht; set_solver.
    + intros m Hm He. destruct (se_over _ Hs) as [_ Hq]. eapply (Hq id' n (sr :: q)); [rewrite Ht|..]; set_solver.
  - apply settled_tasks; [done| |destruct Htold as [|Hin]; [by left|right; set_solver]].
    intros id2 m q2 Hin sr2 Hsr2. left. exists id2, m, q2. rewrite Ht. set_solver.
Qed.

Lemma settled_progress w : settled w → complete w ∨ ∃ w', task_step w w'.
Proof.
  intros Hs. destruct (se_told _ Hs) as [|Ht]; [by left|right].
  apply list_elem_of_split in Ht as (l1 & l2 & Ht). destruct (se_job _ Hs) as (s & Hj & Hn).
  eexists. eapply (task_notify _ _ _ _ 0%Z); [done|]. unfold notifyParent, Get.
  change (sto (set_tasks w (l1 ++ l2))) with (sto w). rewrite Hj. cbn [mbind outcome_bind].
  rewrite checkCompleted_over; [done| |done|].
  - exact (load_name (A := Shovey) (sto w) id s (se_inv _ Hs) (se_jobs _ Hs) Hj).
  - destruct (se_over _ Hs) as [Ho Hq]. split; [done|]. intros id2 m q sr n Hin. apply (Hq id2 m q sr n). rewrite Ht. set_solver.
Qed.

Definition task_cost (t : task) : nat :=
  match t with TNotify _ => 1 | TListen _ n q => 1 + 2 * n + length q end.

Lemma step_cost w w' :
  st_inv (sto w) → task_step w w' → sum_list_with task_cost (tasks w') < sum_list_with task_cost (tasks w).
Proof.
  intros Hi Hs. destruct Hs as
    [w l1 id' l2 now w' Ht Hn|w l1 id' n q l2 a sr now Ht Ha Hl|w l1 id' n q l2 Ht|w l1 id' n sr q l2 Ht|w l1 id' l2 Ht];
    rewrite Ht; cbn [save_run set_sto set_tasks tasks];
    try (rewrite !sum_list_with_app; simpl; rewrite ?length_app; simpl; lia).
  unfold notifyParent in Hn. destruct (Get _ id') as [s| |]; [|done..].
  apply bind_Ok in Hn as ([w2 s2] & Hc & [= <-]). cbn [fst].
  assert (tasks w2 = l1 ++ l2) as ->; [|rewrite !sum_list_with_app; simpl; lia].
  destruct (checkCompleted_frame (set_tasks w (l1 ++ l2)) s now w2 s2 Hi Hc) as [[-> ->]|E]; [done|].
  unfold save_shovey in E. injection E as -> _. done.
Qed.

(** C24: a job whose runs are all over, and that one of the goroutines is going
    to be told about, comes to be complete, in whatever order the goroutines
    run and whatever messages of nodes arrive, as long as none of them holds a
    copy of one of its runs from before it was over. *)
Theorem job_completes w s :
  st_inv (sto w) → kind_wf (A := ShoveyRun) (sto w) → kind_wf (A := Shovey) (sto w) →
  job_at w id s → sh_NodeNames s = names → runs_over w → TNotify id ∈ tasks w →
  eventually task_step complete w.
Proof.
  intros Hi Hr Hj Hs Hn Ho Ht.
  apply (eventually_measure _ _ settled (λ w, (sum_list_with task_cost (tasks w), 0))).
  - intros. by eapply settled_step.
  - apply settled_progress.
  - intros x y Hx Hxy. left. apply step_cost; [apply Hx|done].
  - split; eauto.
Qed.
End completion.

(** * The agent *)

(** When the connection to the agent was lost and is found again, the query
    fails on the error it does not have. *)
Theorem serf_reconnect_panics {PU : Pushing} now q :
  Serfer_IsClosed now = true → NewRPCClient now 0 = None → serf_Query now q = Panic NilDeref.
Proof. intros Hc Hn. unfold serf_Query, reconnect. by rewrite Hc, Hn. Qed.

(** * Concrete runs *)

#[local] Instance demo_notations : FloatNotations := {| parse_notation s := inr s |}.
#[local] Instance demo_pushing : Pushing :=
  {| SignTextBlock s := inl s; Serfer_IsClosed t := false; NewRPCClient t n := None |}.
#[local] Instance shovey_encoder : Encoder :=
  {| EncodeToJSON o := ""; encode_actor a := ""; FormatTime := itoa; MarshalTime := itoa; FormatSandboxTime := itoa |}.

Abbreviation demo_server := (world (DataStore object) (list string)).

Lemma no_objects : st_inv (initDataStore : DataStore object) ∧ ∀ t k, st_get (initDataStore : DataStore object) t k = Ok None.
Proof. split; [apply init_wf|]. intros t k. simpl. unfold Datastore.Get. simpl. by rewrite lookup_empty. Qed.

Definition piece (seq : Z) (text : string) (last : bool) : ShoveyRunStream :=
  {| ss_ShoveyUUID := "job1"; ss_NodeName := "web1"; ss_Seq := seq; ss_OutputType := "stdout"; ss_Output := text;
     ss_IsLast := last; ss_CreatedAt := 0 |}.

Definition bare_server : demo_server := {| sto := initDataStore; index := Initialize; pending := []; tasks := [] |}.


Definition demo_job : Shovey :=
  {| sh_RunID := "job1"; sh_NodeNames := ["web1"; "db1"]; sh_Command := "ls"; sh_CreatedAt := 0; sh_UpdatedAt := 0;
     sh_Status := "submitted"; sh_Timeout := 300; sh_Quorum := "50%" |}.

Definition demo_query : serf_query := {|
  q_Payload := [("run_id", "job1"); ("command", "ls"); ("action", "start"); ("time", "40"); ("timeout", "300");
    ("signature", str_join (String newline EmptyString)
       ["action: start"; "command: ls"; "run_id: job1"; "time: 40"; "timeout: 300"])];
  q_FilterNodes := ["web1"] |}.

Lemma job_start_exact_witness :
  ∃ w', Start (status_world [10; 30]%Z) demo_job 40 = (Ok (sh_set_updated (sh_set_status demo_job "running") 40), w') ∧
    run_at w' demo_job "web1" (new_run "job1" "web1" "created" zero_time) ∧
    run_at w' demo_job "db1" (new_run "job1" "db1" "down" 40) ∧ tasks w' = [TListen "job1" 2 []].
Proof.
  destruct status_world_inv as (Hi & _ & _).
  destruct (job_start_exact (status_world [10; 30]%Z) demo_job 40 1 [gob_node demo_web1]
    (GetNodesByStatus (status_world [10; 30]%Z) ["web1"; "db1"] "up").2 Hi) as (o & w' & Hs & H).
  - vm_compute. reflexivity.
  - vm_compute. reflexivity.
  - change (map n_Name [gob_node demo_web1]) with ["web1"] in H.
    change (Z.of_nat (length [gob_node demo_web1]) <? 1)%Z with false in H.
    assert (signed_query (start_payload demo_job 40) ["web1"] = inl demo_query) as Eq by (vm_compute; reflexivity).
    rewrite Eq in H.
    change (serf_Query 40 demo_query) with (Ok ()) in H.
    destruct H as (Hup & Hdown & _ & _ & _ & Ho & _ & Ht). exists w'. rewrite Hs, Ho.
    split_and!; [done|apply Hup; by left|apply Hdown; [by right; left|]|exact Ht].
    by intros ?%list_elem_of_singleton.
Defined.

(** A job whose only run goes on. *)
Definition one_job : Shovey :=
  {| sh_RunID := "job1"; sh_NodeNames := ["web1"]; sh_Command := "ls"; sh_CreatedAt := 0; sh_UpdatedAt := 0;
     sh_Status := "running"; sh_Timeout := 300; sh_Quorum := "1" |}.

Definition job_server (status : string) (ts : list task) : demo_server :=
  {| sto := store (store initDataStore one_job) (new_run "job1" "web1" status 0); index := Initialize; pending := []; tasks := ts |}.

Lemma job_server_wf status ts :
  st_inv (sto (job_server status ts)) ∧ kind_wf (A := ShoveyRun) (sto (job_server status ts)) ∧
  kind_wf (A := Shovey) (sto (job_server status ts)).
Proof.
  destruct no_objects as [H0 Hn].
  assert (kind_wf (A := ShoveyRun) initDataStore) as H1 by (intros k o; by rewrite Hn).
  assert (kind_wf (A := Shovey) initDataStore) as H2 by (intros k o; by rewrite Hn).
  assert (st_inv (store initDataStore one_job)) as H3 by (by apply store_inv). cbn [sto job_server]. split_and!.
  - by apply store_inv.
  - apply store_kind_wf; [done|]. by apply (kind_wf_store_ne (A := ShoveyRun) (B := Shovey)).
  - apply (kind_wf_store_ne (A := Shovey) (B := ShoveyRun)); [done..|]. by apply store_kind_wf.
Qed.

Lemma job_cancel_exact_witness :
  ∃ w' s', Cancel (job_server "running" []) one_job 7 = (Ok s', w') ∧
    run_at w' one_job "web1" (new_run "job1" "web1" "cancelled" 7).
Proof.
  destruct (job_server_wf "running" []) as (Hi & Hr & _).
  destruct (job_cancel_exact (job_server "running" []) one_job 7 {| q_Payload :=
      [("action", "cancel"); ("run_id", "job1"); ("time", "7");
       ("signature", "action: cancel" +:+ String newline "run_id: job1" +:+ String newline "time: 7")];
      q_FilterNodes := ["web1"] |} Hi Hr) as (o & w' & s' & Hc & _ & _ & _ & _ & Hruns & _ & Ho).
  - intros n ->%list_elem_of_singleton. exists (new_run "job1" "web1" "running" 0). vm_compute. reflexivity.
  - vm_compute. reflexivity.
  - exists w', s'. rewrite Hc, Ho. split; [done|].
    assert (cancelled (new_run "job1" "web1" "running" 0) 7 = new_run "job1" "web1" "cancelled" 7) as <- by (vm_compute; reflexivity).
    apply Hruns; [by left|vm_compute; reflexivity].
Defined.

Lemma job_completes_witness :
  eventually task_step (complete "job1") (job_server "succeeded" [TListen "job1" 2 []; TNotify "job1"]).
Proof.
  destruct (job_server_wf "succeeded" [TListen "job1" 2 []; TNotify "job1"]) as (Hi & Hr & Hj).
  apply (job_completes "job1" ["web1"] _ one_job Hi Hr Hj eq_refl eq_refl).
  - split.
    + intros n ->%list_elem_of_singleton. exists (new_run "job1" "web1" "succeeded" 0).
      split; [vm_compute; reflexivity|]. by right; left.
    + intros id' m q sr n [[= _ _ ->]|[?|[]]%list_elem_of_In]%elem_of_cons Hsr; [by apply not_elem_of_nil in Hsr|done].
  - by right; left.
Defined.

(** The goroutine that notes an acknowledgement writes back the run it has
    read: the status the node has reported in between is lost, and the job is
    never complete. *)
Theorem acknowledgement_loses_status :
  ∃ w1 w2 : demo_server,
    rtc task_step (job_server "created" [TListen "job1" 2 []]) w1 ∧
    run_at w1 one_job "web1" (new_run "job1" "web1" "created" 0) ∧
    rtc task_step (UpdateFromJSON w1 (new_run "job1" "web1" "created" 0) [("status", IStr "succeeded")] 5) w2 ∧
    tasks w2 = [] ∧ run_at w2 one_job "web1" (sr_set_ack (new_run "job1" "web1" "created" 0) 3) ∧
    job_at w2 "job1" one_job.
Proof.
  set (run := new_run "job1" "web1" "created" 0).
  set (w1 := set_tasks (job_server "created" [TListen "job1" 2 []]) [TListen "job1" 1 [sr_set_ack run 3]]).
  set (w2 := save_run (set_tasks (UpdateFromJSON w1 run [("status", IStr "succeeded")] 5)
                         [TListen "job1" 1 []; TNotify "job1"]) (sr_set_ack run 3)).
  exists w1, (set_tasks w2 []). split_and!; [|vm_compute; reflexivity| |done|vm_compute; reflexivity..].
  - eapply rtc_l; [|apply rtc_refl]. apply (task_ack _ [] "job1" 1 [] [] "web1" run 3); [done..|vm_compute; reflexivity].
  - eapply rtc_l; [by apply (task_save _ [] "job1" 1 (sr_set_ack run 3) [] [TNotify "job1"])|].
    eapply rtc_l; [apply (task_notify _ [TListen "job1" 1 []] "job1" [] 9 (set_tasks w2 [TListen "job1" 1 []])); [done|]|].
    { vm_compute. reflexivity. }
    eapply rtc_l; [by apply (task_other _ [] "job1" 0 [] [])|].
    eapply rtc_l; [by apply (task_done _ [] "job1" [])|]. apply rtc_refl.
Qed.
