(* ===== verification/HandlersObj.v ===== *)
(** The request handlers of nodes, roles, clients, users and their lists
    (src/nodes.go, src/roles.go, src/clients.go, src/users.go,
    src/lists.go). *)
From S2P Require Import Prelude Gerror Iface Config Store Datastore Tables UtilStrings Objects Validations Flatten.
From S2P Require Import FileIndex World Nodes Roles Environments Sandboxes Clients Users DataBags Loginfo Http Statuses.

Section handlers.
  Context (conf : Conf) {CR : Crypto} {EN : Encoder} {S T : Type}.
  Context {O : StoreOps S object} {TB : TableOps S object} {TO : TrieOps T}.
  Local Abbreviation H := (handler S T).

Definition forbidden_text : string := "You are not allowed to perform this action".
Definition forbidden_take : string := "You are not allowed to take this action.".
Definition forbidden_that : string := "You are not allowed to perform that action.".

(** The error paths that report the text of an error. *)
Definition report_as {A} (st : Z) (e : gerror) : H A := jsonErrorReport (Error e) st.
Definition report_status {A} (e : gerror) : H A := jsonErrorReport (Error e) (Status e).
Definition fail500 {A} (e : gerror) : H A := report_as StatusInternalServerError e.

(** [loginfo.LogEvent] with its error path. *)
Definition logged (r : Request) (opUser : Actor) (obj : GoiardiObj) (action : string) : H () :=
  change (λ w, LogEvent conf w opUser obj action (r_now r)) fail500.

(** * Nodes (src/nodes.go) *)

Definition nodeHandler (r : Request) : H () :=
  nodeName ← path_from 7 r;
  opUser ← CtxReqUser r;
  match r_Method r with
  | HEAD => headChecking (λ w, Nodes.DoesExist w nodeName) (validator_check conf opUser)
  | GET | DELETE =>
      if a_IsValidator conf opUser ||
         (negb (IsAdmin conf opUser) && bool_decide (r_Method r = DELETE) && negb (is_node_client opUser nodeName))
      then jsonErrorReport forbidden_text StatusForbidden
      else
        chefNode ← ask (λ w, Nodes.Get w nodeName) (report_as StatusNotFound);
        Encode (BObject (GNode chefNode)) ;;
        (if bool_decide (r_Method r = DELETE) then
          change (λ w, Ok (Nodes.Delete w chefNode)) fail500 ;;
          logged r opUser (GNode chefNode) "delete"
        else mret ())
  | PUT =>
      if negb (IsAdmin conf opUser) && negb (is_node_client opUser nodeName)
      then jsonErrorReport forbidden_text StatusForbidden
      else
        nodeData ← call (parseObjJSON r) (report_as StatusBadRequest);
        chefNode ← ask (λ w, Nodes.Get w nodeName) (report_as StatusNotFound);
        nodeData ← (match mlookup "name" (nread nodeData) with
                    | Some _ => mret nodeData
                    | None => nwrite "name" (IStr nodeName) nodeData
                    end);
        jsonName ← call (ValidateAsString (mget "name" (nread nodeData))) (report_as StatusBadRequest);
        if negb (bool_decide (nodeName = jsonName)) && negb (bool_decide (jsonName = EmptyString))
        then jsonErrorReport "Node name mismatch." StatusBadRequest
        else
          nodeData ← (if bool_decide (jsonName = EmptyString) then nwrite "name" (IStr nodeName) nodeData
                      else mret nodeData);
          chefNode ← call (Nodes.UpdateFromJSON chefNode (nread nodeData)) report_status;
          change (λ w, Ok (Nodes.Save conf w chefNode)) fail500 ;;
          logged r opUser (GNode chefNode) "modify" ;;
          Encode (BObject (GNode chefNode))
  | _ => jsonErrorReport "Unrecognized method!" StatusMethodNotAllowed
  end.

(** * Roles (src/roles.go) *)

Definition role_put (r : Request) (opUser : Actor) (roleName : string) (chefRole : Role) : H () :=
  if negb (IsAdmin conf opUser) then jsonErrorReport forbidden_text StatusForbidden
  else
    roleData ← call (parseObjJSON r) (report_as StatusBadRequest);
    roleData ← (match mlookup "name" (nread roleData) with
                | Some _ => mret roleData
                | None => nwrite "name" (IStr roleName) roleData
                end);
    jsonName ← call (ValidateAsString (mget "name" (nread roleData))) report_status;
    if negb (bool_decide (roleName = jsonName))
    then jsonErrorReport "Role name mismatch" StatusBadRequest
    else
      roleData ← (if bool_decide (jsonName = EmptyString) then nwrite "name" (IStr roleName) roleData
                  else mret roleData);
      chefRole ← call (Roles.UpdateFromJSON chefRole (nread roleData)) report_status;
      change (λ w, Ok (Roles.Save conf w chefRole)) fail500 ;;
      logged r opUser (GRole chefRole) "modify" ;;
      Encode (BObject (GRole chefRole)).

(** The run list of a role in an environment. *)
Definition role_env_run_list (chefRole : Role) (environmentName : string) : list string :=
  if bool_decide (environmentName = "_default") then r_RunList chefRole
  else default [] (mlookup environmentName (r_EnvRunLists chefRole)).

Definition role_environments (r : Request) (opUser : Actor) (chefRole : Role) (pathArray : list string) : H () :=
  environmentName ←
    (if (length pathArray =? 4)%nat then
       name ← elem pathArray 3;
       ask (λ w, Environments.Get w name) (report_as StatusNotFound) ;; mret name
     else mret EmptyString);
  match r_Method r with
  | GET =>
      if a_IsValidator conf opUser then jsonErrorReport forbidden_text StatusForbidden
      else if negb (bool_decide (environmentName = EmptyString))
      then Encode (BJson (IMapStrs [("run_list", role_env_run_list chefRole environmentName)]))
      else Encode (BJson (IStrs ("_default" :: mkeys (r_EnvRunLists chefRole))))
  | _ => jsonErrorReport "Unrecognized method!" StatusMethodNotAllowed
  end.

Definition roleHandler (r : Request) : H () :=
  opUser ← CtxReqUser r;
  pathArray ← splitPath (r_Path r);
  roleName ← elem pathArray 1;
  if bool_decide (r_Method r = HEAD)
  then headChecking (λ w, Roles.DoesExist w roleName) (validator_check conf opUser)
  else
    chefRole ← ask (λ w, Roles.Get w roleName) (report_as StatusNotFound);
    if (length pathArray =? 2)%nat then
      match r_Method r with
      | GET | DELETE =>
          if a_IsValidator conf opUser || (negb (IsAdmin conf opUser) && bool_decide (r_Method r = DELETE))
          then jsonErrorReport forbidden_text StatusForbidden
          else
            Encode (BObject (GRole chefRole)) ;;
            (if bool_decide (r_Method r = DELETE) then
              change (λ w, Ok (Roles.Delete w chefRole)) fail500 ;;
              logged r opUser (GRole chefRole) "delete"
            else mret ())
      | PUT => role_put r opUser roleName chefRole
      | _ => jsonErrorReport "Unrecognized method!" StatusMethodNotAllowed
      end
    else role_environments r opUser chefRole pathArray.

(** * Clients (src/clients.go) *)

(** [GenerateKeys]: the new private key, and the client with the new public
    key, which is set without a look at the error. *)
Definition client_GenerateKeys (r : Request) (c : Client) : outcome (string * Client) :=
  match r_keys r with
  | inl (privPem, pubPem) =>
      Ok (privPem, match Clients.SetPublicKey c (IStr pubPem) with Ok c' => c' | _ => c end)
  | inr e => Err (New e)
  end.

(** [ValidatePublicKey] on a string. *)
Definition ValidatePublicKey (pk : string) : outcome () :=
  match key_error pk with Some e => Err (CastErr e) | None => Ok () end.

Definition client_self_check (opUser : Actor) (clientName : string) (w : world S T) : outcome () :=
  if IsAdmin conf opUser then Ok ()
  else
    chefClient ← Clients.Get w clientName;
    if IsSelf conf opUser (AClient chefClient) then Ok () else Err headForbidden.

(** The keys a PUT asks for. *)
Definition client_put_keys (r : Request) (clientData : jmap) (chefClient : Client) (jsonClient : jmap)
    : H (Client * jmap) :=
  '(chefClient, jsonClient) ←
    (match mlookup "public_key" clientData with
     | Some (IStr pk) =>
         call (ValidatePublicKey pk) (report_as StatusBadRequest) ;;
         mret (match Clients.SetPublicKey chefClient (IStr pk) with Ok c' => c' | _ => chefClient end,
               mset "public_key" (IStr pk) jsonClient)
     | None | Some INil => mret (chefClient, jsonClient)
     | Some _ => jsonErrorReport "Bad request" StatusBadRequest
     end);
  match mlookup "private_key" clientData with
  | Some (IBool true) =>
      '(privPem, chefClient) ← call (client_GenerateKeys r chefClient) fail500;
      mret (chefClient, mset "public_key" (IStr (c_pubKey chefClient))
                          (mset "private_key" (IStr privPem) jsonClient))
  | None | Some (IBool false) => mret (chefClient, jsonClient)
  | Some _ => jsonErrorReport "Bad request" StatusBadRequest
  end.

(** Actors that are not administrators may not hand out rights. *)
Definition client_put_rights (opUser : Actor) (clientData : jmap) : H () :=
  if IsAdmin conf opUser then mret ()
  else
    let aerr := a_CheckPermEdit opUser clientData "admin" in
    let verr := if a_IsValidator conf opUser then Ok () else a_CheckPermEdit opUser clientData "validator" in
    match aerr, verr with
    | Ok _, Ok _ => mret ()
    | Err _, Err _ =>
        jsonErrorReport "Client can be either an admin or a validator, but not both." StatusBadRequest
    | Err e, _ | _, Err e => report_status e
    | Panic p, _ | _, Panic p => crash p
    end.

Definition client_put (r : Request) (opUser : Actor) (clientName : string) : H () :=
  clientData ← call (parseObjJSON r) (report_as StatusBadRequest);
  let clientData := nread clientData in
  chefClient ← ask (λ w, Clients.Get w clientName) (report_as StatusNotFound);
  call (CheckAdminPlusValidator clientData) report_status ;;
  (if negb (IsAdmin conf opUser) && negb (IsSelf conf opUser (AClient chefClient))
   then jsonErrorReport forbidden_that StatusForbidden else mret ()) ;;
  client_put_rights opUser clientData ;;
  jsonName ← call (ValidateAsString (mget "name" clientData)) (report_as StatusBadRequest);
  let jsonClient := Clients.ToJSON chefClient in
  chefClient ←
    (if bool_decide (clientName = jsonName) then mret chefClient
     else
       logged r opUser (GClient chefClient) "modify" ;;
       chefClient ← change_with (λ w, Clients.Rename w chefClient jsonName) report_status;
       WriteHeader StatusCreated ;;
       mret chefClient);
  chefClient ← ask (λ w, Clients.UpdateFromJSON w chefClient clientData) report_status;
  '(chefClient, jsonClient) ← client_put_keys r clientData chefClient jsonClient;
  change (λ w, Clients.Save conf w chefClient) (λ _, mret ()) ;;
  logged r opUser (GClient chefClient) "modify" ;;
  Encode (BJson (IMap jsonClient)).

Definition clientHandler (r : Request) : H () :=
  path ← splitPath (r_Path r);
  clientName ← elem path 1;
  opUser ← CtxReqUser r;
  match r_Method r with
  | DELETE =>
      chefClient ← ask (λ w, Clients.Get w clientName) report_status;
      if negb (IsAdmin conf opUser) && negb (IsSelf conf opUser (AClient chefClient))
      then jsonErrorReport "Deleting that client is forbidden" StatusForbidden
      else
        logged r opUser (GClient chefClient) "delete" ;;
        change (λ w, Clients.Delete w chefClient) (report_as StatusForbidden) ;;
        Encode (BJson (IMap (Clients.ToJSON chefClient)))
  | HEAD => headChecking (λ w, Clients.DoesExist w clientName) (client_self_check opUser clientName)
  | GET =>
      chefClient ← ask (λ w, Clients.Get w clientName) report_status;
      if negb (IsAdmin conf opUser) && negb (IsSelf conf opUser (AClient chefClient))
      then jsonErrorReport forbidden_that StatusForbidden
      else Encode (BJson (IMap (Clients.ToJSON chefClient)))
  | PUT => client_put r opUser clientName
  | _ => jsonErrorReport "Unrecognized method for client!" StatusMethodNotAllowed
  end.

(** * Users (src/users.go) *)

Definition user_GenerateKeys (r : Request) (u : User) : outcome (string * User) :=
  match r_keys r with
  | inl (privPem, pubPem) =>
      Ok (privPem, match Users.SetPublicKey u (IStr pubPem) with Ok u' => u' | _ => u end)
  | inr e => Err (New e)
  end.

Definition user_self_check (opUser : Actor) (userName : string) (w : world S T) : outcome () :=
  if IsAdmin conf opUser then Ok ()
  else
    chefUser ← Users.Get w userName;
    if IsSelf conf opUser (AUser chefUser) then Ok ()
    else Err (SetStatus (Errorf "not same") StatusForbidden).

Definition user_put_keys (r : Request) (userData : jmap) (chefUser : User) (jsonUser : jmap)
    : H (User * jmap) :=
  '(chefUser, jsonUser) ←
    (match mlookup "public_key" userData with
     | Some (IStr pk) =>
         call (ValidatePublicKey pk) (report_as StatusBadRequest) ;;
         mret (match Users.SetPublicKey chefUser (IStr pk) with Ok u' => u' | _ => chefUser end,
               mset "public_key" (IStr pk) jsonUser)
     | None | Some INil => mret (chefUser, jsonUser)
     | Some _ => jsonErrorReport "Bad request" StatusBadRequest
     end);
  match mlookup "private_key" userData with
  | Some (IBool true) =>
      '(privPem, chefUser) ← call (user_GenerateKeys r chefUser) fail500;
      mret (chefUser, mset "public_key" (IStr (u_pubKey chefUser))
                        (mset "private_key" (IStr privPem) jsonUser))
  | None | Some (IBool false) => mret (chefUser, jsonUser)
  | Some _ => jsonErrorReport "Bad request" StatusBadRequest
  end.

Definition user_put (r : Request) (opUser : Actor) (userName : string) : H () :=
  userData ← call (parseObjJSON r) (report_as StatusBadRequest);
  let userData := nread userData in
  chefUser ← ask (λ w, Users.Get w userName) (report_as StatusNotFound);
  call (CheckAdminPlusValidator userData) report_status ;;
  (if negb (IsAdmin conf opUser) && negb (IsSelf conf opUser (AUser chefUser))
   then jsonErrorReport forbidden_that StatusForbidden else mret ()) ;;
  (if IsAdmin conf opUser then mret () else call (a_CheckPermEdit opUser userData "admin") report_status) ;;
  jsonName ← call (ValidateAsString (mget "name" userData)) (report_as StatusBadRequest);
  let jsonUser := mdel "public_key" (Users.ToJSON chefUser) in
  chefUser ←
    (if bool_decide (userName = jsonName) then mret chefUser
     else
       chefUser ← change_with (λ w, Users.Rename w chefUser jsonName) report_status;
       WriteHeader StatusCreated ;;
       mret chefUser);
  chefUser ← ask (λ w, Users.UpdateFromJSON w chefUser userData) report_status;
  '(chefUser, jsonUser) ← user_put_keys r userData chefUser jsonUser;
  change (λ w, Users.Save w chefUser) report_status ;;
  logged r opUser (GUser chefUser) "modify" ;;
  Encode (BJson (IMap jsonUser)).

Definition userHandler (r : Request) : H () :=
  path ← splitPath (r_Path r);
  userName ← elem path 1;
  opUser ← CtxReqUser r;
  match r_Method r with
  | HEAD => headChecking (λ w, Users.DoesExist w userName) (user_self_check opUser userName)
  | DELETE =>
      chefUser ← ask (λ w, Users.Get w userName) (report_as StatusNotFound);
      if negb (IsAdmin conf opUser) && negb (IsSelf conf opUser (AUser chefUser))
      then jsonErrorReport "Deleting that user is forbidden" StatusForbidden
      else
        logged r opUser (GUser chefUser) "delete" ;;
        change (λ w, Users.Delete w chefUser) (report_as StatusForbidden) ;;
        Encode (BJson (IMap (Users.ToJSON chefUser)))
  | GET =>
      chefUser ← ask (λ w, Users.Get w userName) (report_as StatusNotFound);
      if negb (IsAdmin conf opUser) && negb (IsSelf conf opUser (AUser chefUser))
      then jsonErrorReport forbidden_that StatusForbidden
      else Encode (BJson (IMap (Users.ToJSON chefUser)))
  | PUT => user_put r opUser userName
  | _ => jsonErrorReport "Unrecognized method for user!" StatusMethodNotAllowed
  end.

(** * Lists (src/lists.go) *)

(** The URLs of a list of names. *)
Fixpoint listing (prefix : string) (names : list string) : outcome jmap :=
  match names with
  | [] => Ok []
  | k :: r => url ← CustomURL conf (prefix +:+ k); rest ← listing prefix r; Ok (mset k (IStr url) rest)
  end.

Definition list_of (prefix : string) (GetList : world S T → outcome (list string)) : H jmap :=
  names ← ask GetList fail500;
  call (listing prefix names) fail500.

Definition nodeHandling (r : Request) : H jmap :=
  opUser ← CtxReqUser r;
  match r_Method r with
  | GET =>
      if a_IsValidator conf opUser then jsonErrorReport forbidden_take StatusForbidden
      else list_of "/nodes/" Nodes.GetList
  | POST =>
      if a_IsValidator conf opUser then jsonErrorReport forbidden_take StatusForbidden
      else
        nodeData ← call (parseObjJSON r) (report_as StatusBadRequest);
        let nodeData := nread nodeData in
        nodeName ← call (ValidateAsString (mget "name" nodeData)) (report_as StatusBadRequest);
        found ← probe (λ w, Nodes.Get w nodeName);
        match found with
        | inl _ => jsonErrorReport "Node already exists" StatusConflict
        | inr _ =>
            chefNode ← ask (λ w, Nodes.NewFromJSON w nodeData) report_status;
            change (λ w, Ok (Nodes.Save conf w chefNode)) fail500 ;;
            act (λ w, UpdateStatus conf w chefNode "new" (r_now r)) fail500 ;;
            logged r opUser (GNode chefNode) "create" ;;
            WriteHeader StatusCreated ;;
            mret [("uri", IStr (ObjURL conf "nodes" (n_Name chefNode)))]
        end
  | _ => jsonErrorReport "Method not allowed for nodes" StatusMethodNotAllowed
  end.

(** Who may create actors, and with which rights. *)
Definition create_rights (opUser : Actor) (data : jmap) : H () :=
  call (CheckAdminPlusValidator data) report_status ;;
  (if IsAdmin conf opUser then mret ()
   else if a_IsValidator conf opUser then
     call (a_CheckPermEdit opUser data "admin") report_status ;;
     call (a_CheckPermEdit opUser data "validator") report_status
   else jsonErrorReport forbidden_take StatusForbidden).

(** A name that is there and is not empty. *)
Definition actor_name (data : jmap) : H () :=
  match ValidateAsString (mget "name" data) with
  | Ok name =>
      if bool_decide (name = EmptyString) then jsonErrorReport "Field 'name' missing" StatusBadRequest else mret ()
  | Err _ => jsonErrorReport "Field 'name' missing" StatusBadRequest
  | Panic p => crash p
  end.

(** The key of a new client: its own, or a new pair whose private part goes
    into the response. *)
Definition client_new_key (r : Request) (clientData : jmap) (chefClient : Client) : H (Client * jmap) :=
  match mlookup "public_key" clientData with
  | Some (IStr publicKey) =>
      call (ValidatePublicKey publicKey) report_status ;;
      mret (match Clients.SetPublicKey chefClient (IStr publicKey) with Ok c' => c' | _ => chefClient end, [])
  | None | Some INil =>
      '(privPem, chefClient) ← call (client_GenerateKeys r chefClient) fail500;
      mret (chefClient, [("private_key", IStr privPem)])
  | Some _ => jsonErrorReport "Bad public key" StatusBadRequest
  end.

Definition clientHandling (r : Request) : H jmap :=
  opUser ← CtxReqUser r;
  match r_Method r with
  | GET => list_of "/clients/" Clients.GetList
  | POST =>
      clientData ← call (parseObjJSON r) (report_as StatusBadRequest);
      let clientData := nread clientData in
      create_rights opUser clientData ;;
      actor_name clientData ;;
      chefClient ← ask (λ w, Clients.NewFromJSON w clientData) report_status;
      '(chefClient, clientResponse) ← client_new_key r clientData chefClient;
      change (λ w, Clients.Save conf w chefClient) report_status ;;
      logged r opUser (GClient chefClient) "create" ;;
      WriteHeader StatusCreated ;;
      mret (clientResponse ++ [("public_key", IStr (c_pubKey chefClient));
                               ("uri", IStr (ObjURL conf (c_ChefType chefClient +:+ "s") (c_Name chefClient)))])
  | _ => jsonErrorReport "Method not allowed for clients or users" StatusMethodNotAllowed
  end.

(** An error of [SetPublicKey] is reported, and the request goes on. *)
Definition user_new_key (r : Request) (userData : jmap) (chefUser : User) : H (User * jmap) :=
  match mlookup "public_key" userData with
  | Some (IStr publicKey) =>
      call (ValidatePublicKey publicKey) report_status ;;
      match Users.SetPublicKey chefUser (IStr publicKey) with
      | Ok chefUser => mret (chefUser, [])
      | Err e => report_on (Error e) StatusInternalServerError ;; mret (chefUser, [])
      | Panic p => crash p
      end
  | None | Some INil =>
      '(privPem, chefUser) ← call (user_GenerateKeys r chefUser) fail500;
      mret (chefUser, [("private_key", IStr privPem)])
  | Some _ => jsonErrorReport "Bad public key" StatusBadRequest
  end.

(** The error of [Save] is dropped. *)
Definition userHandling (r : Request) : H jmap :=
  opUser ← CtxReqUser r;
  match r_Method r with
  | GET => list_of "/users/" Users.GetList
  | POST =>
      userData ← call (parseObjJSON r) (report_as StatusBadRequest);
      let userData := nread userData in
      create_rights opUser userData ;;
      actor_name userData ;;
      chefUser ← ask (λ w, Users.NewFromJSON w (r_salt r) userData) report_status;
      '(chefUser, userResponse) ← user_new_key r userData chefUser;
      change (λ w, Users.Save w chefUser) (λ _, mret ()) ;;
      logged r opUser (GUser chefUser) "create" ;;
      WriteHeader StatusCreated ;;
      mret (userResponse ++ [("public_key", IStr (u_pubKey chefUser));
                             ("uri", IStr (ObjURL conf "users" (u_Username chefUser)))])
  | _ => jsonErrorReport "Method not allowed for clients or users" StatusMethodNotAllowed
  end.

Definition roleHandling (r : Request) : H jmap :=
  opUser ← CtxReqUser r;
  match r_Method r with
  | GET =>
      if a_IsValidator conf opUser then jsonErrorReport forbidden_take StatusForbidden
      else list_of "/roles/" Roles.GetList
  | POST =>
      if negb (IsAdmin conf opUser) then jsonErrorReport forbidden_take StatusForbidden
      else
        roleData ← call (parseObjJSON r) (report_as StatusBadRequest);
        let roleData := nread roleData in
        match mget "name" roleData with
        | IStr name =>
            found ← probe (λ w, Roles.Get w name);
            match found with
            | inl _ => jsonErrorReport "Role already exists" StatusConflict
            | inr _ =>
                chefRole ← ask (λ w, Roles.NewFromJSON w roleData) report_status;
                change (λ w, Ok (Roles.Save conf w chefRole)) fail500 ;;
                logged r opUser (GRole chefRole) "create" ;;
                WriteHeader StatusCreated ;;
                mret [("uri", IStr (ObjURL conf "roles" (r_Name chefRole)))]
            end
        | _ => jsonErrorReport "Role name missing" StatusBadRequest
        end
  | _ => jsonErrorReport "Method not allowed for roles" StatusMethodNotAllowed
  end.

Definition listHandler (r : Request) : H () :=
  pathArray ← splitPath (r_Path r);
  op ← elem pathArray 0;
  if bool_decide (r_Method r = HEAD) then
    if bool_decide (op ∈ ["nodes"; "clients"; "users"; "roles"]) then headDefaultResponse
    else headResponse StatusInternalServerError
  else
    listData ←
      (if bool_decide (op = "nodes") then nodeHandling r
       else if bool_decide (op = "clients") then clientHandling r
       else if bool_decide (op = "users") then userHandling r
       else if bool_decide (op = "roles") then roleHandling r
       else mret [("huh", IStr "not valid")]);
    Encode (BJson (IMap listData)).
End handlers.
