(* ===== verification/HandlersData.v ===== *)
(** The request handlers of data bags, sandboxes and the file store
    (src/data.go, src/sandboxes.go, src/file_store.go). *)
From S2P Require Import Prelude Gerror Iface Config Store Datastore Tables UtilStrings Objects Filestore Validations.
From S2P Require Import Flatten FileIndex World Nodes Roles Environments Sandboxes Clients Users DataBags Loginfo Http Statuses HandlersObj.

Section handlers.
  Context (conf : Conf) {EN : Encoder} {S T : Type}.
  Context {OO : StoreOps S object} {TB : TableOps S object} {TO : TrieOps T}.
  Local Abbreviation H := (handler S T).

(** * Data bags (src/data.go) *)

(** The map the body decodes to; an error is dropped and leaves it empty. *)
Definition raw_body (r : Request) : outcome jmap :=
  RawDataBagJSON (match r_Body r with inl _ => [] | inr m => nread m end).

Definition data_list (r : Request) (opUser : Actor) : H jmap :=
  match r_Method r with
  | GET =>
      if a_IsValidator conf opUser then jsonErrorReport forbidden_text StatusForbidden
      else list_of conf "/data/" DataBags.GetList
  | HEAD =>
      (if a_IsValidator conf opUser then headResponse StatusForbidden else headDefaultResponse) ;; stop
  | POST =>
      if negb (IsAdmin conf opUser) then jsonErrorReport forbidden_text StatusForbidden
      else
        dbData ← call (parseObjJSON r) (report_as StatusBadRequest);
        match mget "name" (nread dbData) with
        | IStr name =>
            if bool_decide (name = EmptyString) then jsonErrorReport "Field 'name' missing" StatusBadRequest
            else
              found ← probe (λ w, DataBags.Get w name);
              match found with
              | inl _ => jsonErrorReport ("Data bag " +:+ name +:+ " already exists.") StatusConflict
              | inr _ =>
                  chefDbag ← change_with (λ w, DataBags.New_ w name) report_status;
                  change (λ w, Ok (DataBags.Save w chefDbag)) fail500 ;;
                  logged conf r opUser (GDataBag chefDbag) "create" ;;
                  WriteHeader StatusCreated ;;
                  mret [("uri", IStr (ObjURL conf "data" (db_Name chefDbag)))]
              end
        | _ => jsonErrorReport "Field 'name' missing" StatusBadRequest
        end
  | _ => jsonErrorReport "GET, POST" StatusMethodNotAllowed
  end.

(** The URLs of the items of a bag. *)
Fixpoint item_urls (chefDbag : DataBag) (names : list string) : outcome jmap :=
  match names with
  | [] => Ok []
  | k :: r =>
      url ← CustomObjURL conf "data" (db_Name chefDbag) k;
      rest ← item_urls chefDbag r; Ok (mset k (IStr url) rest)
  end.

(** The raw data of an item, with where it is from. *)
Definition item_response (dbitem : DataBagItem) : jmap :=
  mset "chef_type" (IStr (dbi_ChefType dbitem)) (mset "data_bag" (IStr (dbi_DataBagName dbitem)) (dbi_RawData dbitem)).

Definition data_bag (r : Request) (opUser : Actor) (chefDbag : DataBag) : H jmap :=
  match r_Method r with
  | GET => call (item_urls chefDbag (ListDBItems chefDbag)) fail500
  | DELETE =>
      change (λ w, Ok (DataBags.Delete w chefDbag)) fail500 ;;
      logged conf r opUser (GDataBag chefDbag) "delete" ;;
      mret [("chef_type", IStr "data_bag"); ("json_class", IStr "Chef::DataBag"); ("name", IStr (db_Name chefDbag))]
  | POST =>
      rawData ← call (raw_body r) fail500;
      dbitem ← change_with (λ w, '(w, _, dbi) ← NewDBItem conf w chefDbag rawData; Ok (w, dbi)) report_status;
      logged conf r opUser (GItem dbitem) "create" ;;
      WriteHeader StatusCreated ;;
      mret (item_response dbitem)
  | _ => jsonErrorReport "GET, DELETE, POST" StatusMethodNotAllowed
  end.

Definition cannot_load (r : Request) (bag item : string) : string :=
  if bool_decide (r_Method r = DELETE) then "Cannot load data bag " +:+ bag +:+ " item " +:+ item
  else "Cannot load data bag item " +:+ item +:+ " for data bag " +:+ bag.

Definition data_item (r : Request) (opUser : Actor) (chefDbag : DataBag) (dbItemName : string) : H jmap :=
  call (GetDBItem chefDbag dbItemName)
    (λ _, jsonErrorReport (cannot_load r (db_Name chefDbag) dbItemName) StatusNotFound) ;;
  match r_Method r with
  | GET => dbi ← call (GetDBItem chefDbag dbItemName) fail500; mret (dbi_RawData dbi)
  | DELETE =>
      dbi ← call (GetDBItem chefDbag dbItemName) fail500;
      Encode (BObject (GItem dbi)) ;;
      change (λ w, Ok (DeleteDBItem w chefDbag dbItemName).1) fail500 ;;
      logged conf r opUser (GItem dbi) "delete" ;;
      stop
  | PUT =>
      rawData ← call (raw_body r) fail500;
      (match mlookup "id" rawData with
       | None => mret ()
       | Some (IStr rawID) =>
           if bool_decide (rawID = dbItemName) then mret ()
           else jsonErrorReport "DataBagItem name mismatch." StatusBadRequest
       | Some _ => jsonErrorReport "Bad request" StatusBadRequest
       end) ;;
      dbitem ← change_with (λ w, '(w, _, dbi) ← UpdateDBItem conf w chefDbag dbItemName rawData; Ok (w, dbi)) fail500;
      logged conf r opUser (GItem dbitem) "modify" ;;
      mret (mset "id" (IStr dbItemName) (item_response dbitem))
  | _ => jsonErrorReport "GET, DELETE, PUT" StatusMethodNotAllowed
  end.

(** What is said about a bag that is not there. *)
Definition bag_missing (r : Request) (pathArray : list string) (dbName : string) (err : gerror) : string :=
  if bool_decide (r_Method r = POST) then
    "No data bag '" +:+ dbName +:+ "' could be found. Please create this data bag before adding items to it."
  else match pathArray with
       | [_; _; item] => cannot_load r dbName item
       | _ => Error err
       end.

Definition data_head (opUser : Actor) (pathArray : list string) (dbName : string) : H () :=
  if (length pathArray =? 2)%nat
  then headChecking (λ w, DataBags.DoesExist w dbName) (validator_check conf opUser)
  else
    dbItemName ← elem pathArray 2;
    chefDbag ← ask (λ w, DataBags.Get w dbName) (λ e, headResponse (Status e) ;; stop);
    headChecking (λ _, Ok (DoesItemExist chefDbag dbItemName)) (validator_check conf opUser).

Definition data_under (r : Request) (opUser : Actor) (pathArray : list string) : H jmap :=
  dbName ← elem pathArray 1;
  let len := length pathArray in
  if (bool_decide (len = 2) && bool_decide (r_Method r = PUT))
     || (bool_decide (len = 3) && bool_decide (r_Method r = POST))
  then jsonErrorReport "Method not allowed" StatusMethodNotAllowed
  else if a_IsValidator conf opUser
          || (negb (IsAdmin conf opUser) && negb (bool_decide (r_Method r = GET)) && negb (bool_decide (r_Method r = HEAD)))
  then jsonErrorReport forbidden_text StatusForbidden
  else if bool_decide (r_Method r = HEAD) then data_head opUser pathArray dbName ;; stop
  else
    chefDbag ← ask (λ w, DataBags.Get w dbName) (λ e, jsonErrorReport (bag_missing r pathArray dbName e) (Status e));
    if bool_decide (len = 2) then data_bag r opUser chefDbag
    else dbItemName ← elem pathArray 2; data_item r opUser chefDbag dbItemName.

Definition dataHandler (r : Request) : H () :=
  pathArray ← splitPath (r_Path r);
  opUser ← CtxReqUser r;
  dbResponse ← (if (length pathArray =? 1)%nat then data_list r opUser else data_under r opUser pathArray);
  Encode (BJson (IMap dbResponse)).

(** * Sandboxes (src/sandboxes.go) *)

(** The checksums of a new sandbox: a map that is not empty and holds nils. *)
Definition good_checksums (jsonReq : jmap) : H jmap :=
  match mget "checksums" jsonReq with
  | IMap [] => jsonErrorReport "Bad checksums!" StatusBadRequest
  | IMap sboxHash =>
      if forallb (λ kv, match kv.2 with INil => true | _ => false end) sboxHash then mret sboxHash
      else jsonErrorReport "Bad checksums!" StatusBadRequest
  | _ => jsonErrorReport "Field 'checksums' missing" StatusBadRequest
  end.

Definition set_completed (sb : Sandbox) (b : bool) : Sandbox :=
  {| sb_ID := sb_ID sb; sb_CreationTime := sb_CreationTime sb; sb_Completed := b; sb_Checksums := sb_Checksums sb |}.

Definition sandboxHandler (r : Request) : H () :=
  pathArray ← splitPath (r_Path r);
  opUser ← CtxReqUser r;
  sboxResponse ←
    (match r_Method r with
     | POST =>
         if negb (length pathArray =? 1)%nat then jsonErrorReport "Bad request." StatusMethodNotAllowed
         else if negb (IsAdmin conf opUser) then jsonErrorReport forbidden_take StatusForbidden
         else
           jsonReq ← call (parseObjJSON r) (report_as StatusBadRequest);
           sboxHash ← good_checksums (nread jsonReq);
           sbox ← ask (λ w, Sandboxes.New_ (sto w) (r_ids r) (r_now r) sboxHash) (report_as StatusBadRequest);
           change (λ w, Ok (set_sto w (Sandboxes.Save (sto w) sbox))) fail500 ;;
           chks ← ask (λ w, UploadChkList conf (sto w) sbox) fail500;
           WriteHeader StatusCreated ;;
           mret [("uri", IStr (ObjURL conf "sandboxes" (sb_ID sbox))); ("sandbox_id", IStr (sb_ID sbox));
                 ("checksums", IMap ((λ kv, (kv.1, IMap kv.2)) <$> chks))]
     | PUT =>
         if negb (length pathArray =? 2)%nat then jsonErrorReport "Bad request." StatusMethodNotAllowed
         else if negb (IsAdmin conf opUser) then jsonErrorReport forbidden_take StatusForbidden
         else
           sandboxID ← elem pathArray 1;
           jsonReq ← call (parseObjJSON r) (report_as StatusBadRequest);
           match mget "is_completed" (nread jsonReq) with
           | IBool sboxCommit =>
               sbox ← ask (λ w, Sandboxes.Get (sto w) sandboxID) (report_as StatusNotFound);
               ask (λ w, IsComplete (sto w) sbox) (report_as StatusServiceUnavailable) ;;
               let sbox := set_completed sbox sboxCommit in
               change (λ w, Ok (set_sto w (Sandboxes.Save (sto w) sbox))) fail500 ;;
               mret [("guid", IStr (sb_ID sbox)); ("name", IStr (sb_ID sbox)); ("is_completed", IBool (sb_Completed sbox));
                     ("create_time", IStr (FormatSandboxTime (sb_CreationTime sbox))); ("checksums", IStrs (sb_Checksums sbox))]
           | _ => jsonErrorReport "Bad request" StatusBadRequest
           end
     | _ => jsonErrorReport "Unrecognized method!" StatusMethodNotAllowed
     end);
  Encode (BJson (IMap sboxResponse)).

(** * The file store (src/file_store.go) *)

Context (md5hex : string → string).

(** [r_Content] is what the body delivers, up to the limit on its size. *)
Definition fileStoreHandler (r : Request) : H () :=
  chksum ← path_from 12 r;
  match r_Method r with
  | GET | HEAD =>
      fileStore ← ask (λ w, Filestore.Get (sto w) chksum)
        (λ e, WriteHeader StatusNotFound ;; Encode (BBytes (Error e)) ;; stop);
      if bool_decide (r_Method r = HEAD) then headResponse StatusOK else Encode (BBytes (fs_Data fileStore))
  | PUT | POST =>
      found ← probe (λ w, Filestore.Get (sto w) chksum);
      match found with
      | inl _ => jsonErrorReport ("File with checksum " +:+ chksum +:+ " already exists.") StatusOK
      | inr _ =>
          fileStore ← ask (λ w, Filestore.New_ md5hex (sto w) chksum (r_Content r) (r_ContentLength r)) fail500;
          change (λ w, Ok (set_sto w (Filestore.Save (sto w) fileStore))) fail500 ;;
          Encode (BJson (IMap [(fs_Chksum fileStore,
            IStr ("File with checksum " +:+ fs_Chksum fileStore +:+ " uploaded."))]))
      end
  | _ => jsonErrorReport "Unrecognized method!" StatusMethodNotAllowed
  end.
End handlers.
