(* ===== verification/HandlersCook.v ===== *)
(** The request handlers of cookbooks, environments and the universe
    (src/cookbooks.go, src/environments.go, src/universe.go). *)
From S2P Require Import Prelude Gerror Iface Config Store Datastore Tables UtilStrings Objects Filestore Validations.
From S2P Require Import Versioning Cookbooks CookbookDeps Deperr Flatten FileIndex World Nodes Roles Environments Sandboxes Clients Users.
From S2P Require Import DataBags Loginfo Http Statuses HandlersObj.

Section handlers.
  Context (conf : Conf) {EN : Encoder} {GV : GVersion} (fuel : nat) {S T : Type}.
  Context {OO : StoreOps S object} {TB : TableOps S object} {TO : TrieOps T}.
  Local Abbreviation H := (handler S T).

(** A map of maps, some of them nil, as a response. *)
Definition hash_response (m : list (string * option jmap)) : jmap :=
  (λ kv, (kv.1, match kv.2 with Some j => IMap j | None => INil end)) <$> m.

(** * Cookbooks (src/cookbooks.go) *)

(** [r.Form["num_versions"][0]], checked; empty when there is none. *)
Definition num_versions (r : Request) (report : gerror → H ()) : H string :=
  match mlookup "num_versions" (r_Form r) with
  | None => mret EmptyString
  | Some [] => crash IndexOutOfRange
  | Some (nr :: _) => call (ValidateNumVersions nr) report ;; mret nr
  end.

Definition force_of (r : Request) : bool :=
  match mlookup "force" (r_Form r) with Some (_ :: _) => true | _ => false end.

(** [cookbook.Get], with the report of a cookbook that is not there. *)
Definition get_cookbook (name : string) (missing : H Cookbook) : H Cookbook :=
  o ← ask (λ w, Cookbooks.Get (sto w) name)
        (λ e, jsonErrorReport ("Cannot get a cookbook named " +:+ name) (Status e));
  match o with Some cb => mret cb | None => missing end.

Definition no_cookbook {A} (name : string) : H A :=
  jsonErrorReport ("Cannot find a cookbook named " +:+ name) StatusNotFound.

(** /cookbooks and /cookbooks/NAME. *)
Definition cookbook_all (r : Request) (numResults : string) : H jmap :=
  if bool_decide (r_Method r = HEAD) then headResponse StatusOK ;; stop
  else l ← ask (λ w, CookbookLister conf (sto w) numResults) fail500; mret (hash_response l).

Definition cookbook_named (r : Request) (cookbookName numResults : string) : H jmap :=
  if bool_decide (r_Method r = HEAD) then
    (if bool_decide (cookbookName ∈ ["_latest"; "_recipes"]) then headResponse StatusOK
     else headChecking (λ w, Cookbooks.DoesExist (sto w) cookbookName) nilPermCheck) ;; stop
  else if bool_decide (cookbookName = "_latest") then
    l ← ask (λ w, CookbookLatest conf (sto w)) fail500;
    mret ((λ kv, (kv.1, IStr kv.2)) <$> l)
  else if bool_decide (cookbookName = "_recipes") then
    rlist ← ask (λ w, CookbookRecipes (sto w)) report_status;
    Encode (BJson (IStrs rlist)) ;; stop
  else
    cb ← get_cookbook cookbookName (no_cookbook cookbookName);
    let numResults := if bool_decide (numResults = EmptyString) then "all" else numResults in
    h ← call (InfoHash conf cb numResults) fail500;
    mret (hash_response [(cookbookName, h)]).

(** The version in the path. *)
Definition path_version (r : Request) (v : string) : H string :=
  if (bool_decide (r_Method r = GET) || bool_decide (r_Method r = HEAD)) && bool_decide (v = "_latest") then mret v
  else call (ValidateAsVersion (IStr v))
         (λ _, let e := Errorf ("Invalid cookbook version '" +:+ v +:+ "'.") in
               jsonErrorReport (Error e) (Status e)).

Definition version_head (opUser : Actor) (cookbookName ver : string) : H () :=
  if a_IsValidator conf opUser then headResponse StatusForbidden
  else
    o ← ask (λ w, Cookbooks.Get (sto w) cookbookName) (λ e, headResponse (Status e) ;; stop);
    match o with
    | None => headResponse StatusNotFound
    | Some cb => headChecking (λ _, DoesVersionExist cb ver) nilPermCheck
    end.

(** Deleting a version; the last one takes the cookbook with it. *)
Definition version_delete (r : Request) (opUser : Actor) (cb : Cookbook) (cbv : CookbookVersion) (ver : string)
    : H jmap :=
  if negb (IsAdmin conf opUser) then jsonErrorReport forbidden_take StatusForbidden
  else
    cb ← change_with (λ w, '(s, c) ← DeleteVersion (sto w) cb ver; Ok (set_sto w s, c)) report_status;
    logged conf r opUser (GCbVersion cbv) "delete" ;;
    (if (NumVersions cb =? 0)%nat then change (λ w, Ok (set_sto w (Cookbooks.Delete (sto w) cb))) fail500
     else mret ()) ;;
    mret [].

Definition version_get (r : Request) (cbv : CookbookVersion) : H jmap :=
  json ← call (Cookbooks.ToJSON conf cbv "GET") fail500;
  mret (if bool_decide (r_Source r = "web") then fill_divs json else json).

(** The cookbook a version is put into: one that is there, or a new one. *)
Definition put_cookbook (r : Request) (opUser : Actor) (cookbookName : string) : H Cookbook :=
  get_cookbook cookbookName
    (cb ← ask (λ w, Cookbooks.New_ (sto w) cookbookName) report_status;
     change (λ w, Ok (set_sto w (Cookbooks.Save (sto w) cb))) fail500 ;;
     logged conf r opUser (GCookbook cb) "create" ;;
     mret cb).

(** Creating a version; a cookbook left without any is deleted. *)
Definition version_create (r : Request) (opUser : Actor) (cb : Cookbook) (ver : string) (cbvData : jmap)
    : H CookbookVersion :=
  cbv ← change_with (λ w, '(s, _, cbv) ← NewVersion conf (sto w) cb ver cbvData; Ok (set_sto w s, cbv))
          (λ nerr, (if (NumVersions cb =? 0)%nat
                    then change (λ w, Ok (set_sto w (Cookbooks.Delete (sto w) cb))) fail500 else mret ()) ;;
                   report_status nerr);
  logged conf r opUser (GCbVersion cbv) "create" ;;
  WriteHeader StatusCreated ;;
  mret cbv.

(** Updating a version in place, and saving the cookbook that holds it. *)
Definition version_update (r : Request) (opUser : Actor) (cb : Cookbook) (ver : string) (cbv : CookbookVersion)
    (cbvData : jmap) : H CookbookVersion :=
  cbv ← change_with (λ w, '(s, cbv) ← UpdateVersion conf (sto w) cbv cbvData (force_of r); Ok (set_sto w s, cbv))
          report_status;
  change (λ w, Ok (set_sto w (Cookbooks.Save (sto w) (set_versions cb (mset ver cbv (cb_Versions cb)))))) fail500 ;;
  logged conf r opUser (GCbVersion cbv) "modify" ;;
  mret cbv.

Definition version_put (r : Request) (opUser : Actor) (cookbookName ver : string) : H jmap :=
  if negb (IsAdmin conf opUser) then jsonErrorReport forbidden_text StatusForbidden
  else
    cbvData ← call (parseObjJSON r) (report_as StatusBadRequest);
    let cbvData := nread cbvData in
    cb ← put_cookbook r opUser cookbookName;
    (match mget "cookbook_name" cbvData, GetVersion cb ver with
     | _, Panic p => crash p
     | IStr t, Err _ =>
         if bool_decide (t = cookbookName) then mret ()
         else let terr := Errorf "Field 'name' invalid" in jsonErrorReport (Error terr) (Status terr)
     | _, _ => mret ()
     end) ;;
    cbv ← (match GetVersion cb ver with
           | Ok (cbv, cb) => version_update r opUser cb ver cbv cbvData
           | Err _ => version_create r opUser cb ver cbvData
           | Panic p => crash p
           end);
    call (Cookbooks.ToJSON conf cbv "PUT") fail500.

(** /cookbooks/NAME/VERSION. *)
Definition cookbook_version (r : Request) (opUser : Actor) (cookbookName v : string) : H jmap :=
  ver ← path_version r v;
  match r_Method r with
  | HEAD => version_head opUser cookbookName ver ;; stop
  | DELETE | GET =>
      if a_IsValidator conf opUser then jsonErrorReport forbidden_text StatusForbidden
      else
        cb ← get_cookbook cookbookName (no_cookbook cookbookName);
        '(cbv, cb) ← call (GetVersion cb ver) (report_as StatusNotFound);
        if bool_decide (r_Method r = DELETE) then version_delete r opUser cb cbv ver else version_get r cbv
  | PUT => version_put r opUser cookbookName ver
  | _ => jsonErrorReport "Unrecognized method" StatusMethodNotAllowed
  end.

Definition cookbookHandler (r : Request) : H () :=
  pathArray ← splitPath (r_Path r);
  opUser ← CtxReqUser r;
  numResults ← num_versions r report_status;
  let reads := bool_decide (r_Method r = GET) || bool_decide (r_Method r = HEAD) in
  let short := (length pathArray <? 3)%nat in
  if short && negb reads then jsonErrorReport "Bad request." StatusMethodNotAllowed
  else if short && a_IsValidator conf opUser then jsonErrorReport forbidden_text StatusForbidden
  else
    cookbookResponse ←
      (match pathArray with
       | [_] => cookbook_all r numResults
       | [_; name] => if bool_decide (name = EmptyString) then cookbook_all r numResults
                      else cookbook_named r name numResults
       | [_; name; v] => cookbook_version r opUser name v
       | _ => jsonErrorReport "Bad request" StatusBadRequest
       end);
    Encode (BJson (IMap cookbookResponse)).

(** * The universe (src/universe.go) *)

Definition universeHandler (r : Request) : H () :=
  match r_Method r with
  | GET => u ← ask (λ w, Universe conf (sto w)) fail500; Encode (BDeps u)
  | HEAD => headDefaultResponse
  | _ => jsonErrorReport "Unrecognized method" StatusMethodNotAllowed
  end.

(** * Environments (src/environments.go) *)

Definition env_list (r : Request) (opUser : Actor) : H jmap :=
  match r_Method r with
  | HEAD => (if a_IsValidator conf opUser then headResponse StatusForbidden else headDefaultResponse) ;; stop
  | GET =>
      if a_IsValidator conf opUser then jsonErrorReport forbidden_text StatusForbidden
      else list_of conf "/environments/" Environments.GetList
  | POST =>
      if negb (IsAdmin conf opUser) then jsonErrorReport forbidden_text StatusForbidden
      else
        envData ← call (parseObjJSON r) (report_as StatusBadRequest);
        let envData := nread envData in
        match mget "name" envData with
        | IStr name =>
            if bool_decide (name = EmptyString) then jsonErrorReport "Environment name missing" StatusBadRequest
            else
              found ← probe (λ w, Environments.Get w name);
              match found with
              | inl _ => jsonErrorReport "Environment already exists" StatusConflict
              | inr _ =>
                  chefEnv ← ask (λ w, Environments.NewFromJSON w envData) report_status;
                  change (λ w, Environments.Save conf w chefEnv) (report_as StatusBadRequest) ;;
                  logged conf r opUser (GEnv chefEnv) "create" ;;
                  WriteHeader StatusCreated ;;
                  mret [("uri", IStr (ObjURL conf "environments" (e_Name chefEnv)))]
              end
        | _ => jsonErrorReport "Environment name missing" StatusBadRequest
        end
  | _ => jsonErrorReport "Unrecognized method" StatusMethodNotAllowed
  end.

(** A PUT with another name makes a new environment of the body and deletes
    the old one, whether or not that works. *)
Definition env_renamed (envName jsonName : string) (envData : jmap) : H ChefEnvironment :=
  found ← probe (λ w, Environments.Get w jsonName);
  match found with
  | inl _ => jsonErrorReport "Environment already exists" StatusConflict
  | inr _ =>
      env ← ask (λ w, Environments.NewFromJSON w envData) report_status;
      WriteHeader StatusCreated ;;
      old ← probe (λ w, Environments.Get w envName);
      (match old with
       | inl oldenv => change (λ w, Environments.Delete w oldenv) (λ _, mret ())
       | inr _ => mret ()
       end) ;;
      mret env
  end.

Definition env_put (r : Request) (opUser : Actor) (envName : string) (env : ChefEnvironment) : H ChefEnvironment :=
  if negb (IsAdmin conf opUser) then jsonErrorReport forbidden_text StatusForbidden
  else
    envData ← call (parseObjJSON r) (report_as StatusBadRequest);
    match envData with
    | None => jsonErrorReport "No environment data in body at all!" StatusBadRequest
    | Some envData =>
        (match mlookup "name" envData with
         | None => jsonErrorReport "Environment name missing" StatusBadRequest
         | Some _ => mret ()
         end) ;;
        jsonName ← call (ValidateAsString (mget "name" envData)) report_status;
        (if bool_decide (jsonName = EmptyString) then jsonErrorReport "Environment name missing" StatusBadRequest
         else mret ()) ;;
        env ← (if bool_decide (envName = jsonName) then call (Environments.UpdateFromJSON env envData) report_status
               else env_renamed envName jsonName envData);
        change (λ w, Environments.Save conf w env) report_status ;;
        logged conf r opUser (GEnv env) "modify" ;;
        mret env
    end.

(** /environments/NAME. *)
Definition env_named (r : Request) (opUser : Actor) (envName : string) : H () :=
  if bool_decide (r_Method r = HEAD)
  then headChecking (λ w, Environments.DoesExist w envName) (validator_check conf opUser)
  else
    env ← ask (λ w, Environments.Get w envName) (report_as StatusNotFound);
    match r_Method r with
    | GET =>
        if a_IsValidator conf opUser then jsonErrorReport forbidden_text StatusForbidden
        else Encode (BObject (GEnv env))
    | DELETE =>
        if negb (IsAdmin conf opUser) then jsonErrorReport forbidden_text StatusForbidden
        else if bool_decide (envName = "_default")
        then jsonErrorReport "The '_default' environment cannot be modified." StatusMethodNotAllowed
        else
          Encode (BObject (GEnv env)) ;;
          change (λ w, Environments.Delete w env) fail500 ;;
          logged conf r opUser (GEnv env) "delete"
    | PUT => env ← env_put r opUser envName env; Encode (BObject (GEnv env))
    | _ => jsonErrorReport "Unrecognized method" StatusMethodNotAllowed
    end.

(** The dependencies of a run list in an environment. *)
Definition env_cookbook_versions (r : Request) (env : ChefEnvironment) : H () :=
  cbVer ← call (parseObjJSON r)
    (λ e, jsonErrorReport (if str_contains "Field" (Error e) then Error e else "invalid JSON") StatusBadRequest);
  match mlookup "run_list" (nread cbVer) with
  | None => jsonErrorReport "POSTed JSON badly formed." StatusMethodNotAllowed
  | Some (IStrs run_list) =>
      deps ← ask (λ w, DependsCookbooks conf fuel (sto w) run_list (e_CookbookVersions env))
               (report_as StatusPreconditionFailed);
      match deps with
      | inl deps => Encode (BDeps deps)
      | inr derr =>
          WriteHeader StatusPreconditionFailed ;;
          Encode (BJson (IMap [("error", IDivs [ErrMap derr])]))
      end
  | Some _ => crash TypeAssertion
  end.

(** /environments/NAME/OP. *)
Definition env_op (r : Request) (opUser : Actor) (numResults envName op : string) : H jmap :=
  let versions := bool_decide (op = "cookbook_versions") in
  if (versions && negb (bool_decide (r_Method r = POST))) || (negb versions && negb (bool_decide (r_Method r = GET)))
  then jsonErrorReport "Unrecognized method" StatusMethodNotAllowed
  else if a_IsValidator conf opUser then jsonErrorReport forbidden_text StatusForbidden
  else
    env ← ask (λ w, Environments.Get w envName)
      (λ e, jsonErrorReport
        (if bool_decide (Status e = StatusNotFound) && negb (bool_decide (op ∈ ["recipes"; "cookbooks"]))
         then "environment '" +:+ envName +:+ "' not found" else Error e) (Status e));
    if versions then env_cookbook_versions r env ;; stop
    else if bool_decide (op = "cookbooks") then
      l ← ask (λ w, AllCookbookHash conf w env numResults) fail500; mret (hash_response l)
    else if bool_decide (op = "nodes") then
      nodeList ← ask (λ w, Nodes.GetFromEnv w envName) fail500;
      mret (foldl (λ m n, mset (n_Name n) (IStr (ObjURL conf "nodes" (n_Name n))) m) [] nodeList)
    else if bool_decide (op = "recipes") then
      l ← ask (λ w, Environments.RecipeList w env) fail500; Encode (BJson (IStrs l)) ;; stop
    else jsonErrorReport "Bad request" StatusBadRequest.

(** /environments/NAME/OP/OBJECT. *)
Definition env_object (r : Request) (opUser : Actor) (numResults envName op opName : string) : H jmap :=
  if negb (bool_decide (r_Method r = GET)) then jsonErrorReport "Method not allowed" StatusMethodNotAllowed
  else if a_IsValidator conf opUser then jsonErrorReport forbidden_text StatusForbidden
  else
    env ← ask (λ w, Environments.Get w envName) (report_as StatusNotFound);
    if bool_decide (op = "roles") then
      role ← ask (λ w, Roles.Get w opName) (report_as StatusNotFound);
      mret [("run_list", IStrs (role_env_run_list role envName))]
    else if bool_decide (op = "cookbooks") then
      cb ← get_cookbook opName (no_cookbook opName);
      let numResults := if bool_decide (numResults = EmptyString) then "all" else numResults in
      h ← call (ConstrainedInfoHash conf cb numResults (constraint_for env opName)) fail500;
      mret (hash_response [(opName, h)])
    else jsonErrorReport "Bad request - too many elements in path" StatusBadRequest.

Definition environmentHandler (r : Request) : H () :=
  call (checkAccept r "application/json") (report_as StatusNotAcceptable) ;;
  opUser ← CtxReqUser r;
  pathArray ← splitPath (r_Path r);
  numResults ← num_versions r
    (λ e, jsonErrorReport "You have requested an invalid number of versions (x >= 0 || 'all')" (Status e));
  match pathArray with
  | [_; envName] => env_named r opUser envName
  | _ =>
      envResponse ←
        (match pathArray with
         | [_] => env_list r opUser
         | [_; envName; op] => env_op r opUser numResults envName op
         | [_; envName; op; opName] => env_object r opUser numResults envName op opName
         | _ => jsonErrorReport "Bad request - too many elements in path" StatusBadRequest
         end);
      Encode (BJson (IMap envResponse))
  end.
End handlers.
