(* ===== verification/HandlersMisc.v ===== *)
(** The request handlers of principals, logins, node statuses and logged
    events (src/principals.go, src/authenticate_users.go, src/status.go,
    src/events.go). *)
From S2P Require Import Prelude Gerror Iface Config Store Datastore Tables UtilStrings Objects Validations Flatten.
From S2P Require Import FileIndex World Nodes Roles Environments Sandboxes Clients Users DataBags Loginfo Http Statuses HandlersObj.

Section handlers.
  Context (conf : Conf) {CR : Crypto} {EN : Encoder} {S T : Type}.
  Context {OO : StoreOps S object} {TB : TableOps S object} {TO : TrieOps T}.
  Local Abbreviation H := (handler S T).

(** * Principals (src/principals.go) *)

Definition actor_PublicKey (a : Actor) : string := match a with AClient c => c_pubKey c | AUser u => u_pubKey u end.

Definition principalHandler (r : Request) : H () :=
  principalName ← path_from 12 r;
  match r_Method r with
  | GET | HEAD =>
      found ← probe (λ w, GetReqUser conf w principalName);
      if bool_decide (r_Method r = HEAD)
      then headResponse (match found with inl _ => StatusOK | inr _ => StatusNotFound end)
      else
        match found with
        | inr e => report_as StatusNotFound e
        | inl chefActor =>
            Encode (BJson (IMap [("name", IStr (actor_GetName chefActor));
              ("type", IStr (if IsUser chefActor then "user" else "client"));
              ("public_key", IStr (actor_PublicKey chefActor))]))
        end
  | _ => jsonErrorReport "Unrecognized method for principals!" StatusMethodNotAllowed
  end.

(** * Logins (src/authenticate_users.go) *)

Definition auth_field (authJSON : jmap) (k : string) : outcome string :=
  match mlookup k authJSON with
  | Some (IStr v) => Ok v
  | Some _ => Err (New ("Field '" +:+ k +:+ "' invalid"))
  | None => Err (New ("Field '" +:+ k +:+ "' missing"))
  end.

Definition validateJSON (authJSON : jmap) : outcome (string * string) :=
  name ← auth_field authJSON "name"; passwd ← auth_field authJSON "password"; Ok (name, passwd).

Definition validateLogin (w : world S T) (name passwd : string) : outcome bool :=
  if negb (UseAuth conf) then Ok true
  else
    match Users.Get w name with
    | Ok u => match Users.CheckPasswd u passwd with Ok _ => Ok true | Err _ => Ok false | Panic p => Panic p end
    | Err _ => Ok false
    | Panic p => Panic p
    end.

Definition authenticateUserHandler (r : Request) : H () :=
  authJSON ← call (match r_Body r with inl e => Err (New e) | inr m => Ok (nread m) end) (report_as StatusBadRequest);
  '(name, passwd) ← call (validateJSON authJSON) (report_as StatusBadRequest);
  verified ← ask (λ w, validateLogin w name passwd) fail500;
  Encode (BJson (IMap [("name", IStr name); ("verified", IBool verified)])).

(** * Node statuses (src/status.go) *)

Definition must_be_admin : string := "You must be an admin to do that".

Definition string_map (m : list (string * string)) : jmap := (λ kv, (kv.1, IStr kv.2)) <$> m.

(** The latest status of a node, and of every node. *)
Definition latest_json (n : Node) (w : world S T) : outcome jmap * world S T :=
  match LatestStatus w n with
  | (Ok ns, w) =>
      (url ← CustomURL conf ("/status/node/" +:+ n_Name n +:+ "/latest");
       Ok (string_map (ToJSON ns ++ [("url", url)])), w)
  | (Err _, w) => (Ok (string_map [("node_name", n_Name n); ("status", "no record")]), w)
  | (Panic p, w) => (Panic p, w)
  end.

Fixpoint latest_statuses (nodes : list Node) : H (list jmap) :=
  match nodes with
  | [] => mret []
  | n :: r => sr ← act (latest_json n) fail500; rest ← latest_statuses r; mret (sr :: rest)
  end.

Definition bad_request {A} : H A := jsonErrorReport "Bad request" StatusBadRequest.

Definition status_node (nodeName op : string) : H iface :=
  n ← ask (λ w, Nodes.Get w nodeName) report_status;
  if bool_decide (op = "latest") then
    ns ← act (λ w, LatestStatus w n) fail500; mret (IMapStr (ToJSON ns))
  else if bool_decide (op = "all") then
    ns ← ask (λ w, AllStatuses w n) fail500; mret (IDivs (string_map ∘ ToJSON <$> ns))
  else bad_request.

Definition statusHandler (r : Request) : H () :=
  opUser ← CtxReqUser r;
  if negb (IsAdmin conf opUser) then jsonErrorReport must_be_admin StatusForbidden
  else
    pathArray ← splitPath (r_Path r);
    if (length pathArray <? 3)%nat then bad_request
    else
      match r_Method r with
      | HEAD => headDefaultResponse
      | GET =>
          statusResponse ←
            (match pathArray with
             | _ :: kind :: rest =>
                 if bool_decide (kind = "all") then
                   match rest with
                   | [what] =>
                       if negb (bool_decide (what = "nodes"))
                       then jsonErrorReport "Invalid object to get status for" StatusBadRequest
                       else nodes ← ask Nodes.AllNodes fail500; sr ← latest_statuses nodes; mret (IDivs sr)
                   | _ => bad_request
                   end
                 else if bool_decide (kind = "node") then
                   match rest with [nodeName; op] => status_node nodeName op | _ => bad_request end
                 else bad_request
             | _ => bad_request
             end);
          Encode (BJson statusResponse)
      | _ => jsonErrorReport "Method not allowed" StatusMethodNotAllowed
      end.

(** * Logged events (src/events.go) *)

(** A number in the form that is not negative. *)
Definition form_number (r : Request) (key conversion negative : string) : H (option Z) :=
  match mlookup key (r_Form r) with
  | None => mret None
  | Some [] => crash IndexOutOfRange
  | Some (v :: _) =>
      match ParseInt10 v with
      | (_, Some _) => jsonErrorReport conversion StatusBadRequest
      | (n, None) => if (n <? 0)%Z then jsonErrorReport negative StatusBadRequest else mret (Some n)
      end
  end.

Definition paramStrs : list string := ["from"; "until"; "action"; "object_type"; "object_name"; "doer"].

Fixpoint search_params (r : Request) (keys : list string) : H (list (string * string)) :=
  match keys with
  | [] => mret []
  | k :: rest =>
      match mlookup k (r_Form r) with
      | None => search_params r rest
      | Some [] => crash IndexOutOfRange
      | Some (v :: _) => m ← search_params r rest; mret ((k, v) :: m)
      end
  end.

(** What is shown of an event. *)
Definition event_json (le : LogInfo) : jmap :=
  [("actor_info", IStr (li_ActorInfo le)); ("actor_type", IStr (li_ActorType le));
   ("time", IStr (MarshalTime (li_Time le))); ("action", IStr (li_Action le));
   ("object_type", IStr (li_ObjectType le)); ("object_name", IStr (li_ObjectName le));
   ("extended_info", IStr (li_ExtendedInfo le)); ("id", INumber (itoa (li_ID le)))].

Definition event_entry (le : LogInfo) : outcome jmap :=
  url ← CustomURL conf ("/events/" +:+ itoa (li_ID le));
  Ok [("event", IMap (event_json le)); ("url", IStr url)].

Definition eventListHandler (r : Request) : H () :=
  opUser ← CtxReqUser r;
  offset ← form_number r "offset" "invalid offset conversion to int" "invalid negative offset value";
  limit ← form_number r "limit" "invalid limit conversion to int" "invalid negative limit value";
  purgeFrom ← form_number r "purge" "invalid purge from conversion to int" "invalid negative purgeFrom value";
  searchParams ← search_params r paramStrs;
  match r_Method r with
  | HEAD => if negb (IsAdmin conf opUser) then headResponse StatusForbidden else headDefaultResponse
  | GET =>
      if negb (IsAdmin conf opUser) then jsonErrorReport must_be_admin StatusForbidden
      else
        leList ← ask (λ w, GetLogInfos (sto w) (r_now r) searchParams (default 0%Z offset) limit)
                   (report_as StatusBadRequest);
        leResp ← call (mapM event_entry leList) fail500;
        Encode (BJson (IDivs leResp))
  | DELETE =>
      if negb (IsAdmin conf opUser) then jsonErrorReport must_be_admin StatusForbidden
      else
        purged ← change_with (λ w, '(n, s) ← PurgeLogInfos (sto w) (default 0%Z purgeFrom); Ok (set_sto w s, n))
                   (λ e, report_on (Error e) StatusBadRequest ;; mret 0%Z);
        Encode (BJson (IMap [("purged", IStr ("Purged " +:+ itoa purged +:+ " logged events"))]))
  | _ => jsonErrorReport "Method not allowed" StatusMethodNotAllowed
  end.

Definition admin_check (opUser : Actor) (w : world S T) : outcome () :=
  if IsAdmin conf opUser then Ok () else Err headForbidden.

Definition eventHandler (r : Request) : H () :=
  opUser ← CtxReqUser r;
  eventIDstr ← path_from 8 r;
  match ParseInt10 eventIDstr with
  | (_, Some e) => jsonErrorReport (num_error_text "Atoi" eventIDstr e) StatusBadRequest
  | (eventID, None) =>
      match r_Method r with
      | HEAD =>
          if negb (IsAdmin conf opUser) then stop
          else headChecking (λ w, Loginfo.DoesExist (sto w) eventIDstr) (admin_check opUser)
      | GET =>
          if negb (IsAdmin conf opUser) then jsonErrorReport must_be_admin StatusForbidden
          else
            le ← ask (λ w, Loginfo.Get (sto w) eventID) (report_as StatusNotFound);
            Encode (BJson (IMap (event_json le)))
      | DELETE =>
          if negb (IsAdmin conf opUser) then jsonErrorReport must_be_admin StatusForbidden
          else
            le ← ask (λ w, Loginfo.Get (sto w) eventID) (report_as StatusNotFound);
            change (λ w, s ← Loginfo.Delete (sto w) le; Ok (set_sto w s)) fail500 ;;
            Encode (BJson (IMap (event_json le)))
      | _ => jsonErrorReport "Method not allowed" StatusMethodNotAllowed
      end
  end.
End handlers.
