(* ===== verification/Authentication.v ===== *)
(** The authentication of requests by their signed headers
    (src/authentication/authentication.go). *)
From S2P Require Import Prelude Gerror Iface Config Paths Store Objects UtilStrings Validations Flatten FileIndex World Clients.
From S2P Require Import Users Actors DataBags Loginfo Http.

(** Hashes, base64, the time format of the headers, and the checks of a
    signature with a public key: [HeaderDecrypt] gives back the text that was
    signed, the other two compare a hash with a signature. *)
Class Signatures : Type := {
  sha1_Sum : string → string;
  sha256_Sum : string → string;
  base64_Encode : string → string;
  base64_Decode : string → string + string;
  ParseTime : string → Z + string;
  HeaderDecrypt : string → string → string + string;
  Auth12HeaderVerify : string → string → string → option string;
  Auth13HeaderVerify : string → string → string → option string;
}.

(** * Parsing the headers *)

(** The first match of a pattern that is a literal text and then what [p]
    reads. *)
Fixpoint find_after (lit : string) (p : string → option string) (s : string) : option string :=
  match (match strip lit s with Some r => p r | None => None end) with
  | Some v => Some v
  | None => match s with String _ s => find_after lit p s | EmptyString => None end
  end.

(** [\w+]. *)
Definition read_word (s : string) : option string :=
  match (str_span is_word s).1 with EmptyString => None | w => Some w end.

(** [\d+\.\d+]. *)
Definition read_version (s : string) : option string :=
  match str_span is_digit s with
  | (EmptyString, _) => None
  | (a, String c r) =>
      if bool_decide (c = "."%char) then
        match (str_span is_digit r).1 with EmptyString => None | b => Some (a +:+ "." +:+ b) end
      else None
  | (_, EmptyString) => None
  end.

(** [(?i)^X-Ops-Authorization-(\d+)]. *)
Definition auth_number (k : string) : option Z :=
  match strip "x-ops-authorization-" (to_lower k) with
  | Some r => match (str_span is_digit r).1 with EmptyString => None | d => Some (Atoi d) end
  | None => None
  end.

Section authentication.
  Context (conf : Conf) {SG : Signatures} {S T : Type} {OO : StoreOps S object}.
  Implicit Types (w : world S T) (r : Request).

(** * Definitions *)

Definition unauthorized (text : string) : gerror := SetStatus (Errorf text) StatusUnauthorized.

Definition hashStr (toHash : string) : string := base64_Encode (sha1_Sum toHash).
Definition hashSha256Str (toHash : string) : string := base64_Encode (sha256_Sum toHash).

Definition calcBodyHash r (apiVer : string) : string :=
  if bool_decide (apiVer = "1.3") then hashSha256Str (r_Content r) else hashStr (r_Content r).

(** [time.Time.Sub] gives the nearest duration it can. *)
Definition time_Sub (t u : Z) : Z := Z.max min_int64 (Z.min max_int64 (t - u)).

(** The absolute value is taken with [-], which wraps around. *)
Definition checkTimeStamp (now : Z) (timestamp : string) (slew : Z) : outcome () :=
  match ParseTime timestamp with
  | inr e => Err (SetStatus (CastErr e) StatusUnauthorized)
  | inl timeHeader =>
      let tdiff := time_Sub now timeHeader in
      let tdiff := if (tdiff <? 0)%Z then wrap64 (- tdiff) else tdiff in
      if (slew <? tdiff)%Z
      then Err (unauthorized "Authentication failed. Please check your system's clock.") else Ok ()
  end.

(** The parts of the signature by their numbers. *)
Definition sHeadStore r : list (Z * string) :=
  foldl (λ m kv, match auth_number kv.1 with
                 | Some i => (i, Header_Get r kv.1) :: List.filter (λ iv, negb (iv.1 =? i)%Z) m
                 | None => m
                 end) [] (r_Header r).

(** [sH[k-1] = v] for every part. *)
Fixpoint place (limit : nat) (m : list (Z * string)) (sH : list string) : outcome (list string) :=
  match m with
  | [] => Ok sH
  | (k, v) :: m =>
      if (Z.of_nat limit <? k)%Z then Err (unauthorized "malformed authentication headers")
      else if (k <? 1)%Z then Panic IndexOutOfRange
      else place limit m (<[Z.to_nat (k - 1) := v]> sH)
  end.

Definition assembleSignedHeader r : outcome string :=
  match sHeadStore r with
  | [] => Err (unauthorized "No authentication headers found!")
  | m => sH ← place (length m) m (replicate (length m) EmptyString); Ok (str_join EmptyString sH)
  end.

Definition nl : string := String newline EmptyString.

Definition assembleHeaderToCheck r (cHash apiVer : string) : string :=
  let cleanPath := path_Clean (r_Path r) in
  let timestamp := Header_Get r "X-Ops-Timestamp" in
  let userID := Header_Get r "X-Ops-Userid" in
  let userID := if bool_decide (apiVer = "1.0") || bool_decide (apiVer = "1.3") then userID else hashStr userID in
  if bool_decide (apiVer = "1.3") then
    "Method:" +:+ method_name (r_Method r) +:+ nl +:+ "Path:" +:+ cleanPath +:+ nl
    +:+ "X-Ops-Content-Hash:" +:+ cHash +:+ nl +:+ "X-Ops-Sign:version=" +:+ apiVer +:+ nl
    +:+ "X-Ops-Timestamp:" +:+ timestamp +:+ nl +:+ "X-Ops-UserId:" +:+ userID +:+ nl
    +:+ "X-Ops-Server-API-Version:" +:+ Header_Get r "X-Ops-Server-Api-Version"
  else
    "Method:" +:+ method_name (r_Method r) +:+ nl +:+ "Hashed Path:" +:+ hashStr cleanPath +:+ nl
    +:+ "X-Ops-Content-Hash:" +:+ cHash +:+ nl +:+ "X-Ops-Timestamp:" +:+ timestamp +:+ nl
    +:+ "X-Ops-UserId:" +:+ userID.

Definition verify_with (verify : string → string → string → option string) (sum : string → string)
    (publicKey headToCheck signedHeaders : string) : outcome () :=
  match base64_Decode signedHeaders with
  | inr e => Err (CastErr e)
  | inl sig => match verify publicKey (sum headToCheck) sig with Some e => Err (CastErr e) | None => Ok () end
  end.

Definition checkAuth12Headers := verify_with Auth12HeaderVerify sha1_Sum.
Definition checkAuth13Headers := verify_with Auth13HeaderVerify sha256_Sum.

Definition checkAuthHeaders (publicKey headToCheck signedHeaders : string) : outcome () :=
  match HeaderDecrypt publicKey signedHeaders with
  | inr e => Err (SetStatus (CastErr e) StatusUnauthorized)
  | inl decHead =>
      if bool_decide (decHead = headToCheck) then Ok () else Err (unauthorized "failed to verify authorization")
  end.

Definition check_signature (apiVer publicKey headToCheck signedHeaders : string) : outcome () :=
  if bool_decide (apiVer = "1.3") then checkAuth13Headers publicKey headToCheck signedHeaders
  else if bool_decide (apiVer = "1.2") then checkAuth12Headers publicKey headToCheck signedHeaders
  else checkAuthHeaders publicKey headToCheck signedHeaders.

(** The version in the header X-Ops-Sign, and the algorithm, if it is given. *)
Definition sign_version (xopssign : string) : outcome string :=
  match find_after "version=" read_version xopssign with
  | None => Err (Errorf "malformed version in X-Ops-Header")
  | Some apiVer =>
      if bool_decide (apiVer ∈ ["1.0"; "1.1"; "1.2"; "1.3"]) then Ok apiVer
      else Err (Errorf ("Bad version number '" +:+ apiVer +:+ "' in X-Ops-Header"))
  end.

Definition sign_algorithm (xopssign apiVer : string) : outcome () :=
  match find_after "algorithm=" read_word xopssign with
  | None => Ok ()
  | Some a =>
      if bool_decide (a = "sha1") || (bool_decide (a = "sha256") && bool_decide (apiVer = "1.3")) then Ok ()
      else Err (Errorf ("Unsupported hashing algorithm '" +:+ a +:+ "' specified in X-Ops-Header"))
  end.

(** Fifteen minutes. *)
Definition DefaultTimeSlew : Z := 900000000000.

Definition slew_of (timeSlew : Z) : Z := if (timeSlew =? 0)%Z then DefaultTimeSlew else timeSlew.

Definition AuthenticateHeader (publicKey : string) (timeSlew : Z) r : outcome () :=
  let contentHash := Header_Get r "X-Ops-Content-Hash" in
  ensure (negb (bool_decide (contentHash = EmptyString)))
    (SetStatus (Errorf "no content hash provided") StatusBadRequest) ≫= λ _,
  let authTimestamp := Header_Get r "X-Ops-Timestamp" in
  ensure (negb (bool_decide (authTimestamp = EmptyString)))
    (SetStatus (Errorf "no timestamp header provided") StatusBadRequest) ≫= λ _,
  checkTimeStamp (r_now r) authTimestamp (slew_of timeSlew) ≫= λ _,
  let xopssign := Header_Get r "X-Ops-Sign" in
  ensure (negb (bool_decide (xopssign = EmptyString))) (Errorf "missing X-Ops-Sign header") ≫= λ _,
  apiVer ← sign_version xopssign;
  sign_algorithm xopssign apiVer ≫= λ _,
  let chkHash := calcBodyHash r apiVer in
  ensure (bool_decide (chkHash = contentHash))
    (unauthorized "Content hash did not match hash of request body") ≫= λ _,
  signedHeaders ← assembleSignedHeader r;
  match check_signature apiVer publicKey (assembleHeaderToCheck r chkHash apiVer) signedHeaders with
  | Err e => Err (SetStatus e StatusUnauthorized)
  | o => o
  end.

Definition actor_key (a : Actor) : string := match a with AClient c => c_pubKey c | AUser u => u_pubKey u end.

Definition CheckHeader w (userID : string) r : outcome () :=
  match GetReqUser conf w userID with
  | Err _ => Err (unauthorized ("Failed to authenticate as '" +:+ userID +:+
               "'. Ensure that your node_name and client key are correct."))
  | Panic p => Panic p
  | Ok user => AuthenticateHeader (actor_key user) (TimeSlewDur conf) r
  end.
End authentication.

(** * Properties *)

(** The signature over a text is good for a key. *)
Definition signature_good `{Signatures} (apiVer publicKey text sig : string) : Prop :=
  if decide (apiVer = "1.3") then
    ∃ b, base64_Decode sig = inl b ∧ Auth13HeaderVerify publicKey (sha256_Sum text) b = None
  else if decide (apiVer = "1.2") then
    ∃ b, base64_Decode sig = inl b ∧ Auth12HeaderVerify publicKey (sha1_Sum text) b = None
  else HeaderDecrypt publicKey sig = inl text.

Lemma check_signature_Ok `{Signatures} apiVer key text sig :
  check_signature apiVer key text sig = Ok () ↔ signature_good apiVer key text sig.
Proof.
  unfold check_signature, signature_good, checkAuth13Headers, checkAuth12Headers, verify_with, checkAuthHeaders.
  repeat case_bool_decide; destruct (decide _); try done; try destruct (decide _); try done;
    repeat case_match; try case_bool_decide; naive_solver.
Qed.

(** The window of time in which a request is accepted. *)
Definition in_window (now t slew : Z) : Prop := (Z.abs (now - t) ≤ slew ∨ 2 ^ 63 ≤ t - now)%Z.

Definition time_diff (now t : Z) : Z :=
  let d := time_Sub now t in if (d <? 0)%Z then wrap64 (- d) else d.

Lemma time_diff_window now t slew :
  (0 ≤ slew < max_int64)%Z → (time_diff now t ≤ slew)%Z ↔ in_window now t slew.
Proof.
  intros Hs. unfold time_diff, time_Sub, in_window. cbv zeta.
  change min_int64 with (- 2 ^ 63)%Z in *. change max_int64 with (2 ^ 63 - 1)%Z in *.
  destruct (decide (2 ^ 63 ≤ t - now)%Z) as [Hbig|Hsmall].
  { replace (Z.max (- 2 ^ 63) (Z.min (2 ^ 63 - 1) (now - t))) with (- 2 ^ 63)%Z by lia.
    change (if (- 2 ^ 63 <? 0)%Z then _ else _) with (- 2 ^ 63)%Z. lia. }
  destruct (Z.ltb_spec (Z.max (- 2 ^ 63) (Z.min (2 ^ 63 - 1) (now - t))) 0); [|lia].
  rewrite wrap64_small; [lia|]. change min_int64 with (- 2 ^ 63)%Z. change max_int64 with (2 ^ 63 - 1)%Z. lia.
Qed.

Lemma checkTimeStamp_Ok `{Signatures} now ts slew :
  (0 ≤ slew < max_int64)%Z →
  checkTimeStamp now ts slew = Ok () ↔ ∃ t, ParseTime ts = inl t ∧ in_window now t slew.
Proof.
  intros Hs. unfold checkTimeStamp. destruct (ParseTime ts) as [t|e]; [|naive_solver].
  fold (time_diff now t). pose proof (time_diff_window now t slew Hs).
  destruct (Z.ltb_spec slew (time_diff now t)); naive_solver lia.
Qed.

(** ** What is signed, as the protocol has it

    The versions of the protocol differ in the hash, in whether the path and
    the user are hashed, and in the lines of the last version for itself and the
    version of the server. *)
Definition digest `{Signatures} (ver text : string) : string :=
  base64_Encode (if decide (ver = "1.3") then sha256_Sum text else sha1_Sum text).

Definition protocol_lines `{Signatures} (ver : string) (m : method) (path body stamp user server : string)
    : list (string * string) :=
  if decide (ver = "1.3") then
    [("Method", method_name m); ("Path", path); ("X-Ops-Content-Hash", digest ver body);
     ("X-Ops-Sign", "version=1.3"); ("X-Ops-Timestamp", stamp); ("X-Ops-UserId", user);
     ("X-Ops-Server-API-Version", server)]
  else
    [("Method", method_name m); ("Hashed Path", digest ver path); ("X-Ops-Content-Hash", digest ver body);
     ("X-Ops-Timestamp", stamp); ("X-Ops-UserId", if decide (ver = "1.0") then user else digest ver user)].

Definition protocol_text `{Signatures} (ver : string) (r : Request) : string :=
  str_join nl ((λ kv, kv.1 +:+ ":" +:+ kv.2) <$>
    protocol_lines ver (r_Method r) (path_Clean (r_Path r)) (r_Content r) (Header_Get r "X-Ops-Timestamp")
      (Header_Get r "X-Ops-Userid") (Header_Get r "X-Ops-Server-Api-Version")).

Lemma calcBodyHash_digest `{Signatures} r ver : calcBodyHash r ver = digest ver (r_Content r).
Proof. unfold calcBodyHash, digest. case_bool_decide; by destruct (decide _). Qed.

Lemma assembleHeaderToCheck_text `{Signatures} r ver :
  assembleHeaderToCheck r (calcBodyHash r ver) ver = protocol_text ver r.
Proof.
  unfold assembleHeaderToCheck, protocol_text, protocol_lines. rewrite calcBodyHash_digest. cbv zeta.
  destruct (decide (ver = "1.3")) as [->|H3].
  - rewrite !(bool_decide_true ("1.3" = "1.3")), orb_true_r by done. cbn [fmap list_fmap str_join fst snd].
    by rewrite !str_app_assoc.
  - rewrite (bool_decide_false (ver = "1.3")), orb_false_r by done. cbn [fmap list_fmap str_join fst snd].
    unfold hashStr, digest. rewrite !(decide_False (P := ver = "1.3")) by done. rewrite !str_app_assoc.
    case_bool_decide; by destruct (decide (ver = "1.0")).
Qed.

(** C4: a request is accepted exactly when the actor it names exists, its
    time stamp is no further from the clock than the allowed slew, or 2^63 ns
    (292 years) or more ahead of it, the version and the algorithm it states
    are supported, the content hash it states is the digest of its body, and
    the signature in its headers is good, with the actor's public key, for the
    lines of the protocol: the method, the path, the digest of the body, the
    time stamp and the user, and in version 1.3 the versions.  The slew is one
    a time difference can exceed. *)
Theorem authenticated_iff_signed conf `{Signatures} {S T} {OO : StoreOps S object} (w : world S T) userID r :
  (0 ≤ slew_of (TimeSlewDur conf) < max_int64)%Z →
  CheckHeader conf w userID r = Ok () ↔
  ∃ a t apiVer sig, GetReqUser conf w userID = Ok a ∧
    Header_Get r "X-Ops-Timestamp" ≠ EmptyString ∧ ParseTime (Header_Get r "X-Ops-Timestamp") = inl t ∧
    (Z.abs (r_now r - t) ≤ slew_of (TimeSlewDur conf) ∨ 2 ^ 63 ≤ t - r_now r)%Z ∧
    sign_version (Header_Get r "X-Ops-Sign") = Ok apiVer ∧ sign_algorithm (Header_Get r "X-Ops-Sign") apiVer = Ok () ∧
    Header_Get r "X-Ops-Content-Hash" ≠ EmptyString ∧
    Header_Get r "X-Ops-Content-Hash" = digest apiVer (r_Content r) ∧
    assembleSignedHeader r = Ok sig ∧ signature_good apiVer (actor_key a) (protocol_text apiVer r) sig.
Proof.
  intros Hs. unfold CheckHeader. destruct (GetReqUser conf w userID) as [a|e|p]; [|naive_solver..].
  unfold AuthenticateHeader. split.
  - intros ([] & H1 & ([] & H2 & ([] & H3 & ([] & H4 & (ver & H5 & ([] & H6 & ([] & H7 & (sig & H8 & H9)%bind_Ok)%bind_Ok)
      %bind_Ok)%bind_Ok)%bind_Ok)%bind_Ok)%bind_Ok)%bind_Ok.
    rewrite ensure_Ok in H1, H2, H4, H7. apply bool_decide_eq_true in H7.
    apply negb_true_iff, bool_decide_eq_false in H1, H2.
    apply checkTimeStamp_Ok in H3 as (t & Ht & Hw); [|done].
    rewrite assembleHeaderToCheck_text in H9. rewrite calcBodyHash_digest in H7.
    exists a, t, ver, sig. split_and!; [done..|congruence|done|]. apply check_signature_Ok. by case_match.
  - intros (a' & t & ver & sig & [= ->] & H1 & H2 & H3 & H4 & H5 & H6 & H7 & H8 & H9).
    rewrite (bool_decide_eq_false_2 _ H6), (bool_decide_eq_false_2 _ H1). simpl.
    rewrite (proj2 (checkTimeStamp_Ok _ _ _ Hs)) by eauto. simpl.
    rewrite bool_decide_eq_false_2 by (intros E; by rewrite E in H4). simpl. rewrite H4. simpl. rewrite H5. simpl.
    rewrite bool_decide_eq_true_2 by (by rewrite calcBodyHash_digest). simpl. rewrite H8. simpl.
    by rewrite assembleHeaderToCheck_text, (proj2 (check_signature_Ok _ _ _ _) H9).
Qed.

(** ** Putting the signature together *)

Lemma to_lower_digits s : str_all is_digit s = true → to_lower s = s.
Proof.
  induction s as [|c s IH]; [done|]. simpl. intros [Hc Hs]%andb_true_iff. rewrite IH by done. f_equal.
  unfold lower. destruct (is_upper c) eqn:E; [|done]. unfold is_upper, is_digit, in_range in *. lia.
Qed.

Lemma to_lower_app s t : to_lower (s +:+ t) = to_lower s +:+ to_lower t.
Proof. induction s as [|c s IH]; [done|]. simpl. rewrite IH. reflexivity. Qed.

Definition part_header (i : Z) : string := "X-Ops-Authorization-" +:+ itoa i.

Lemma auth_number_part i : (0 ≤ i ≤ max_int64)%Z → auth_number (part_header i) = Some i.
Proof.
  intros Hi. unfold auth_number, part_header. rewrite to_lower_app.
  destruct (itoa_digits i) as [Hd Hv]; [lia|]. rewrite (to_lower_digits (itoa i)) by done.
  assert (strip "x-ops-authorization-" (to_lower "X-Ops-Authorization-" +:+ itoa i) = Some (itoa i)) as ->
    by (by apply strip_Some).
  rewrite span_digits_end by done. cbn [fst]. destruct (itoa i) as [|c s] eqn:E.
  - pose proof (Atoi_itoa i Hi) as Ha. rewrite E in Ha. replace i with 0%Z in E by (by vm_compute in Ha). done.
  - rewrite <-E. f_equal. by apply Atoi_itoa.
Qed.

(** The numbered parts among the headers. *)
Definition parts_of (r : Request) (kv : string * list string) : option (Z * string) :=
  i ← auth_number kv.1; Some (i, Header_Get r kv.1).

Lemma sHeadStore_fold r hs m :
  NoDup ((m ++ omap (parts_of r) hs).*1) →
  foldl (λ m kv, match auth_number kv.1 with
                 | Some i => (i, Header_Get r kv.1) :: List.filter (λ iv, negb (iv.1 =? i)%Z) m
                 | None => m
                 end) m hs ≡ₚ m ++ omap (parts_of r) hs.
Proof.
  revert m. induction hs as [|kv hs IH]; intros m Hnd; [by rewrite app_nil_r|].
  assert (parts_of r kv = i ← auth_number kv.1; Some (i, Header_Get r kv.1)) as Hp by done.
  cbn [foldl omap list_omap] in *. destruct (auth_number kv.1) as [i|]; simpl in Hp; rewrite Hp in Hnd |- *.
  - assert (List.filter (λ iv, negb (iv.1 =? i)%Z) m = m) as Hf.
    { rewrite fmap_app in Hnd. simpl in Hnd. apply NoDup_app in Hnd as (_ & Hd & _). clear -Hd.
      induction m as [|[j v] m IH]; [done|]. simpl. destruct (Z.eqb_spec j i) as [->|Hne].
      - exfalso. apply (Hd i); set_solver.
      - simpl. f_equal. apply IH. set_solver. }
    rewrite Hf, IH.
    + by apply Permutation_middle.
    + rewrite <-app_comm_cons, Permutation_middle. exact Hnd.
  - by apply IH.
Qed.

Lemma place_spec limit m sH :
  NoDup (m.*1) → (∀ k v, (k, v) ∈ m → (1 ≤ k ≤ Z.of_nat limit)%Z) → length sH = limit →
  ∃ sH', place limit m sH = Ok sH' ∧ length sH' = limit ∧
    (∀ k v, (k, v) ∈ m → sH' !! Z.to_nat (k - 1) = Some v) ∧
    (∀ j, (Z.of_nat j + 1)%Z ∉ m.*1 → sH' !! j = sH !! j).
Proof.
  revert sH. induction m as [|[k v] m IH]; intros sH Hnd Hr Hl; simpl.
  { exists sH. split_and!; [done..|set_solver|done]. }
  simpl in Hnd. apply NoDup_cons in Hnd as [Hk Hnd]. pose proof (Hr k v ltac:(left)) as Hb.
  destruct (Z.ltb_spec (Z.of_nat limit) k); [lia|]. destruct (Z.ltb_spec k 1); [lia|].
  destruct (IH (<[Z.to_nat (k - 1) := v]> sH)) as (sH' & E & Hl' & Hin & Hout);
    [done|set_solver|by rewrite length_insert|].
  exists sH'. split_and!; [done..| |].
  - intros k' v' [[= -> ->]|Hm]%elem_of_cons; [|by apply Hin].
    rewrite Hout by (by replace (Z.of_nat (Z.to_nat (k - 1)) + 1)%Z with k by lia).
    apply list_lookup_insert_eq. lia.
  - intros j Hj. rewrite Hout by set_solver. apply list_lookup_insert_ne. intros E'. apply Hj.
    replace (Z.of_nat j + 1)%Z with k by lia. left.
Qed.

(** The headers a signature in parts comes in. *)
Definition numbered (parts : list string) : list (Z * string) := imap (λ i p, (Z.of_nat i + 1, p)%Z) parts.

Definition part_headers (parts : list string) : list (string * list string) :=
  (λ ip, (part_header ip.1, [ip.2])) <$> numbered parts.

Lemma elem_of_numbered parts k v :
  (k, v) ∈ numbered parts ↔ (1 ≤ k)%Z ∧ parts !! Z.to_nat (k - 1) = Some v.
Proof.
  unfold numbered. rewrite elem_of_lookup_imap. split.
  - intros (i & p & [= -> ->] & Hp). split; [lia|]. by replace (Z.to_nat (Z.of_nat i + 1 - 1)) with i by lia.
  - intros [Hk Hp]. exists (Z.to_nat (k - 1)), v. split; [|done]. f_equal. lia.
Qed.

Lemma numbered_NoDup parts : NoDup (numbered parts).*1.
Proof.
  apply NoDup_fmap_2_strong.
  - intros [k1 v1] [k2 v2] [H1 E1]%elem_of_numbered [H2 E2]%elem_of_numbered. simpl. intros ->. congruence.
  - unfold numbered. apply NoDup_alt. intros i j [k v] Hi Hj. rewrite !list_lookup_imap in *.
    destruct (parts !! i), (parts !! j); naive_solver lia.
Qed.

Lemma place_numbered parts m :
  m ≡ₚ numbered parts → place (length m) m (replicate (length m) EmptyString) = Ok parts.
Proof.
  intros Hm. assert (length m = length parts) as Hlen by (rewrite Hm; apply length_imap).
  destruct (place_spec (length m) m (replicate (length m) EmptyString)) as (sH & -> & Hl & Hin & _).
  - rewrite Hm. apply numbered_NoDup.
  - intros k v Hkv. rewrite Hm in Hkv. apply elem_of_numbered in Hkv as [Hk Hp]. apply lookup_lt_Some in Hp. lia.
  - apply length_replicate.
  - f_equal. eapply list_eq_same_length; [reflexivity|congruence|]. intros j x y Hj Hx Hy.
    assert (sH !! Z.to_nat (Z.of_nat j + 1 - 1) = Some y) as Hy'.
    { apply Hin. rewrite Hm, elem_of_numbered. split; [lia|]. by replace (Z.to_nat (Z.of_nat j + 1 - 1)) with j by lia. }
    replace (Z.to_nat (Z.of_nat j + 1 - 1)) with j in Hy' by lia. congruence.
Qed.

(** A signature cut into numbered headers is put together again in the
    order of the numbers, in whatever order the headers are looked at and
    whatever other headers there are. *)
Theorem signature_reassembled (r : Request) (parts : list string) (others : list (string * list string)) :
  parts ≠ [] → (Z.of_nat (length parts) ≤ max_int64)%Z →
  r_Header r ≡ₚ part_headers parts ++ others → wf_map (r_Header r) →
  (∀ kv, kv ∈ others → auth_number kv.1 = None) →
  assembleSignedHeader r = Ok (str_join EmptyString parts).
Proof.
  intros Hne Hmax Hp Hwf Ho.
  assert (omap (parts_of r) (part_headers parts) = numbered parts) as Hparts.
  { assert (∀ k v, (k, v) ∈ numbered parts → parts_of r (part_header k, [v]) = Some (k, v)) as Hone.
    { intros k v Hin. assert (mlookup (part_header k) (r_Header r) = Some [v]) as Hg.
      { apply mlookup_Some; [done|]. rewrite Hp, elem_of_app. left. unfold part_headers.
        apply list_elem_of_fmap. by exists (k, v). }
      apply elem_of_numbered in Hin as [Hk Hv]. apply lookup_lt_Some in Hv.
      unfold parts_of. simpl. rewrite auth_number_part by lia. simpl. unfold Header_Get. by rewrite Hg. }
    unfold part_headers. induction (numbered parts) as [|[k v] l IH]; [done|]. csimpl.
    rewrite Hone by set_solver. f_equal. apply IH. set_solver. }
  assert (omap (parts_of r) others = []) as Hothers.
  { clear -Ho. induction others as [|kv l IH]; [done|]. csimpl. unfold parts_of at 1.
    rewrite (Ho kv) by set_solver. simpl. apply IH. set_solver. }
  assert (omap (parts_of r) (r_Header r) ≡ₚ numbered parts) as Hall.
  { rewrite Hp, omap_app, Hparts, Hothers. by rewrite app_nil_r. }
  assert (sHeadStore r ≡ₚ numbered parts) as Hm.
  { unfold sHeadStore. rewrite sHeadStore_fold; simpl; rewrite Hall; [done|apply numbered_NoDup]. }
  unfold assembleSignedHeader. pose proof (place_numbered parts (sHeadStore r) Hm) as E. destruct (sHeadStore r) as [|iv m] eqn:Es.
  - apply Permutation_nil_l in Hm. by destruct parts.
  - by rewrite E.
Qed.

(** Only a part numbered below one makes the assembly panic. *)
Lemma place_panic limit m sH p : place limit m sH = Panic p → ∃ k v, (k, v) ∈ m ∧ (k < 1)%Z.
Proof.
  revert sH. induction m as [|[k v] m IH]; intros sH; simpl; [done|].
  destruct (Z.ltb_spec (Z.of_nat limit) k); [done|]. destruct (Z.ltb_spec k 1).
  - intros _. exists k, v. split; [by left|done].
  - intros (k' & v' & ? & ?)%IH. exists k', v'. split; [by right|done].
Qed.

(** * A concrete request *)

(** Hashes and signatures that are the text itself, and times in decimal
    seconds. *)
#[local] Instance plain_signatures : Signatures := {|
  sha1_Sum := id; sha256_Sum := id; base64_Encode := id; base64_Decode := inl;
  ParseTime s := inl (Atoi s * 1000000000)%Z; HeaderDecrypt _ s := inl s;
  Auth12HeaderVerify _ h s := if bool_decide (h = s) then None else Some "bad";
  Auth13HeaderVerify _ h s := if bool_decide (h = s) then None else Some "bad" |}.

Definition demo_request (m : method) (path : string) (headers : list (string * list string)) : Request :=
  {| r_Method := m; r_Path := path; r_Header := headers; r_Content := "{}"; r_Body := inr (Some []);
     r_gunzip := None; r_ContentLength := 2; r_Form := []; r_Query := inl []; r_remote := None;
     r_forwarded := {| p_IsLoopback := false; p_PprofWhitelisted := false |}; r_opUser := None; r_now := 1000000000000;
     r_ids := []; r_salt := EmptyString; r_keys := inr "no keys" |}.

Definition sign_headers (user time : string) : list (string * list string) :=
  [("X-Ops-Content-Hash", ["{}"]); ("X-Ops-Timestamp", [time]); ("X-Ops-Sign", ["algorithm=sha1;version=1.0"]);
   ("X-Ops-Userid", [user])].

(** The request of a user, signed in two parts. *)
Definition signed_request (m : method) (path user time : string) : Request :=
  let hs := sign_headers user time in
  let sig := assembleHeaderToCheck (demo_request m path hs) "{}" "1.0" in
  demo_request m path
    (("X-Ops-Authorization-2", [str_from 5 sig]) :: ("X-Ops-Authorization-1", [String.substring 0 5 sig]) :: hs).

Lemma authenticated_iff_signed_witness :
  CheckHeader auth_conf two_admins "ann" (signed_request GET "/nodes" "ann" "990") = Ok ().
Proof.
  apply (authenticated_iff_signed auth_conf two_admins "ann").
  { by vm_compute. }
  destruct (GetReqUser auth_conf two_admins "ann") as [a| |] eqn:Ea; [|by vm_compute in Ea..].
  exists a, 990000000000%Z, "1.0".
  destruct (assembleSignedHeader (signed_request GET "/nodes" "ann" "990")) as [sig| |] eqn:Es; [|by vm_compute in Es..].
  exists sig. split_and!; [done|by vm_compute|by vm_compute|left; vm_compute; discriminate|by vm_compute..|done|].
  vm_compute in Es. injection Es as <-. by vm_compute.
Defined.

Lemma signature_reassembled_witness :
  assembleSignedHeader (demo_request GET "/nodes"
    [("X-Ops-Authorization-2", ["cd"]); ("X-Ops-Userid", ["ann"]); ("X-Ops-Authorization-1", ["ab"])]) = Ok "abcd".
Proof.
  apply (signature_reassembled _ ["ab"; "cd"] [("X-Ops-Userid", ["ann"])]).
  - done.
  - by vm_compute.
  - change (part_headers ["ab"; "cd"]) with [("X-Ops-Authorization-1", ["ab"]); ("X-Ops-Authorization-2", ["cd"])].
    simpl. etrans; [|apply Permutation_swap]. apply perm_skip.
    apply Permutation_swap.
  - unfold wf_map. simpl. repeat constructor; set_solver.
  - intros kv ->%list_elem_of_singleton. by vm_compute.
Defined.

(** A part with the number 0 makes the server panic, whoever sends it. *)
Theorem signature_part_zero_panics :
  CheckHeader auth_conf two_admins "ann"
    (demo_request GET "/nodes" (("X-Ops-Authorization-0", ["x"]) :: sign_headers "ann" "990")) = Panic IndexOutOfRange.
Proof. by vm_compute. Qed.

(** A time stamp three hundred years ahead of the clock is accepted. *)
Theorem far_future_accepted :
  CheckHeader auth_conf two_admins "ann" (signed_request GET "/nodes" "ann" "10000000000") = Ok () ∧
  is_ok (CheckHeader auth_conf two_admins "ann" (signed_request GET "/nodes" "ann" "5000")) = false.
Proof. by vm_compute. Qed.
