(* ===== verification/HandlersSearch.v ===== *)
(** The request handlers of searches, of rebuilding the index and of run
    reports (src/search.go, src/reports.go). *)
From S2P Require Import Prelude Gerror Iface Config Store Datastore Tables UtilStrings Objects Validations Flatten.
From S2P Require Import FileIndex Query QueryParser World Nodes Roles Environments Sandboxes Clients Users DataBags Reports Loginfo.
From S2P Require Import Searches Http Statuses HandlersObj HandlersMisc Authentication.

(** * [url.QueryUnescape] *)

Definition hex_value (c : ascii) : option N :=
  if is_digit c then Some (Ascii.N_of_ascii c - 48)%N
  else if in_range 97 102 c then Some (Ascii.N_of_ascii c - 87)%N
  else if in_range 65 70 c then Some (Ascii.N_of_ascii c - 55)%N
  else None.

Definition escape_error (s : string) : string := "invalid URL escape " +:+ str_quote (String.substring 0 3 s).

(** The text, or the error on the first escape that is malformed. *)
Fixpoint QueryUnescape (s : string) : string + string :=
  match s with
  | EmptyString => inl EmptyString
  | String c r =>
      if bool_decide (c = "%"%char) then
        match r with
        | String a (String b r') =>
            match hex_value a, hex_value b with
            | Some x, Some y =>
                match QueryUnescape r' with
                | inl t => inl (String (Ascii.ascii_of_N (16 * x + y)) t)
                | inr e => inr e
                end
            | _, _ => inr (escape_error s)
            end
        | _ => inr (escape_error s)
        end
      else
        match QueryUnescape r with
        | inl t => inl (String (if bool_decide (c = "+"%char) then " "%char else c) t)
        | inr e => inr e
        end
  end.

Section handlers.
  Context (conf : Conf) (uniLN : string → bool) {EN : Encoder} {RF : ReportFormats} {S T : Type}.
  Context {OO : StoreOps S object} {TO : TrieOps T} {RE : Regexp} {SI : SortImpl}.
  Local Abbreviation H := (handler S T).

(** * Searches (src/search.go) *)

(** The first value of a field of the form. *)
Definition form_first (r : Request) (key : string) : H (option string) :=
  match mlookup key (r_Form r) with
  | None => mret None
  | Some [] => crash IndexOutOfRange
  | Some (v :: _) => mret (Some v)
  end.

(** A number, whose error is dropped. *)
Definition form_int (r : Request) (key : string) (dflt : Z) : Z :=
  match mlookup key (r_Form r) with
  | Some (v :: _) => (ParseInt10 v).1
  | Some [] => 0
  | None => dflt
  end.

Definition sort_order (r : Request) : string :=
  match mlookup "sort" (r_Form r) with
  | Some (s :: _) => if bool_decide (s = EmptyString) then "id ASC" else s
  | _ => "id ASC"
  end.

(** [^I don't know how to search for .*? data objects.]: what follows the
    first words. *)
Fixpoint names_objects (s : string) : bool :=
  match FileIndex.strip " data objects" s with
  | Some (String c _) => negb (bool_decide (c = newline))
  | _ => false
  end
  || match s with String c r => negb (bool_decide (c = newline)) && names_objects r | EmptyString => false end.

Definition unknown_objects (text : string) : bool :=
  match FileIndex.strip "I don't know how to search for " text with Some r => names_objects r | None => false end.

Definition not_allowed_here : string := "You are not allowed to perform this action".

(** The list of what can be searched. *)
Definition search_endpoints (r : Request) (opUser : Actor) : H jmap :=
  match r_Method r with
  | GET =>
      if a_IsValidator conf opUser then jsonErrorReport not_allowed_here StatusForbidden
      else
        names ← ask (λ w, Ok (GetEndpoints w)) fail500;
        call (mapM (λ s, url ← CustomURL conf ("/search/" +:+ s); Ok (s, IStr url)) names) fail500
  | _ => jsonErrorReport "Method not allowed" StatusMethodNotAllowed
  end.

(** A search of one index. *)
Definition search_index (r : Request) (opUser : Actor) (idx paramQuery : string) : H jmap :=
  let start := form_int r "start" 0 in
  if bool_decide (r_Method r = GET) || bool_decide (r_Method r = POST) then
    if a_IsValidator conf opUser then jsonErrorReport not_allowed_here StatusForbidden
    else
      match QueryUnescape paramQuery with
      | inr e => jsonErrorReport e StatusBadRequest
      | inl query =>
          partialData ← (if bool_decide (r_Method r = POST) then call (parseObjJSON r) (report_as StatusBadRequest)
                         else mret None);
          res ← ask (λ w, Search conf uniLN w idx query (form_int r "rows" 1000) (sort_order r) start partialData)
                  (λ e, jsonErrorReport (Error e)
                          (if unknown_objects (Error e) then StatusNotFound else StatusBadRequest));
          mret [("total", INumber (itoa (Z.of_nat (length res)))); ("start", INumber (itoa start)); ("rows", IDivs res)]
      end
  else jsonErrorReport "Method not allowed" StatusMethodNotAllowed.

Definition searchHandler (r : Request) : H () :=
  pathArray ← splitPath (r_Path r);
  opUser ← CtxReqUser r;
  if bool_decide (r_Method r = HEAD) then
    if a_IsValidator conf opUser then headResponse StatusForbidden else headDefaultResponse
  else
    q ← form_first r "q";
    searchResponse ←
      (match pathArray with
       | [_] => search_endpoints r opUser
       | [_; idx] => search_index r opUser idx (default "*:*" q)
       | _ => jsonErrorReport "Bad request" StatusBadRequest
       end);
    Encode (BJson (IMap searchResponse)).

(** The rebuild runs in a goroutine of its own: see [pool_step] of ReindexPool.v. *)
Definition reindexHandler (r : Request) : H () :=
  opUser ← CtxReqUser r;
  match r_Method r with
  | POST =>
      if negb (IsAdmin conf opUser) then jsonErrorReport "You are not allowed to perform that action." StatusForbidden
      else Encode (BJson (IMap [("reindex", IStr "OK")]))
  | _ =>
      jsonErrorReport ("Method not allowed. If you're trying to do something with a data bag named 'reindex', "
        +:+ "it's not going to work I'm afraid.") StatusMethodNotAllowed
  end.

(** * Run reports (src/reports.go) *)

(** The exported fields of a report, with their json tags. *)
Definition report_json (rep : Report) : jmap :=
  [("run_id", IStr (rp_RunID rep)); ("start_time", IStr (MarshalTime (rp_StartTime rep)));
   ("end_time", IStr (MarshalTime (rp_EndTime rep))); ("total_res_count", INumber (itoa (rp_TotalResCount rep)));
   ("status", IStr (rp_Status rep)); ("run_list", IStr (rp_RunList rep)); ("resources", IArr (rp_Resources rep));
   ("data", IMap (rp_Data rep)); ("node_name", IStr (rp_NodeName rep))].

Definition formatRunShow (run : Report) : jmap :=
  let reportMap := MapifyObject (report_json run) in
  [("run_detail", IMap (mdel "resources" reportMap)); ("resources", mget "resources" reportMap)].

Definition protocol_version (r : Request) : H string :=
  let v := Header_Get r "X-Ops-Reporting-Protocol-Version" in
  if bool_decide (v = EmptyString) then
    match r_Query r with
    | inr e => jsonErrorReport e StatusBadRequest
    | inl form => mret (match mlookup "protocol-version" form with Some (p :: _) => p | _ => EmptyString end)
    end
  else mret v.

(** A number of the form, converted by the function [fn]. *)
Definition form_convert (r : Request) (key fn : string) (dflt : Z) (f : Z → Z) : H Z :=
  match mlookup key (r_Form r) with
  | None => mret dflt
  | Some [] => crash IndexOutOfRange
  | Some (v :: _) =>
      match ParseInt10 v with
      | (n, None) => mret (f n)
      | (_, Some e) => jsonErrorReport (num_error_text fn v e) StatusBadRequest
      end
  end.

Definition hour : Z := 3600000000000.
Definition ninety_days : Z := (24 * 90 * hour)%Z.

(** [t.Truncate(time.Hour)]. *)
Definition truncate_hour (t : Z) : Z := (t - t `mod` hour)%Z.

(** The test looks at how far the start is ahead of the end. *)
Definition too_far (from until : Z) : bool := (ninety_days <=? time_Sub (truncate_hour from) (truncate_hour until))%Z.

Definition report_status_param (r : Request) : H string :=
  match mlookup "status" (r_Form r) with
  | None => mret EmptyString
  | Some [] => crash IndexOutOfRange
  | Some (status :: _) =>
      if bool_decide (status ∈ ["started"; "success"; "failure"]) then mret status
      else jsonErrorReport "invalid status given" StatusBadRequest
  end.

Definition report_get (r : Request) (opUser : Actor) (pathArray : list string) : H jmap :=
  rows ← form_convert r "rows" "Atoi" 10 id;
  from ← form_convert r "from" "ParseInt" (r_now r - ninety_days) time_Unix;
  until ← form_convert r "until" "ParseInt" (r_now r) time_Unix;
  status ← report_status_param r;
  if too_far from until then
    jsonErrorReport ("End time " +:+ TimeString until +:+ " is too far ahead of start time " +:+ TimeString from
      +:+ " (max 90 days)") StatusNotAcceptable
  else if negb (IsAdmin conf opUser) then jsonErrorReport not_allowed_here StatusForbidden
  else
    let history (runs : list Report) : H jmap := mret [("run_history", IDivs (map report_json runs))] in
    match pathArray with
    | [_; op; _] =>
        if bool_decide (op = "org") then
          ask (λ w, GetReportList (sto w) from until rows status) fail500 ≫= history
        else jsonErrorReport "Bad request" StatusBadRequest
    | [_; op; x; y] =>
        if bool_decide (op = "nodes") then
          ask (λ w, GetNodeList (sto w) x from until rows status) fail500 ≫= history
        else if bool_decide (op = "org") then
          run ← ask (λ w, Reports.Get (sto w) y) report_status; mret (formatRunShow run)
        else jsonErrorReport "Bad request" StatusBadRequest
    | _ => jsonErrorReport "Bad request" StatusBadRequest
    end.

Definition save_report (rep : Report) : H jmap :=
  change (λ w, Ok (set_sto w (Reports.Save (sto w) rep))) fail500 ;;
  mret [("run_detail", IMap (report_json rep))].

Definition report_post (r : Request) (pathArray : list string) : H jmap :=
  match r_Body r with
  | inl e => jsonErrorReport e StatusBadRequest
  | inr jsonReport =>
      match pathArray with
      | [_; _; nodeName; _] =>
          rep ← ask (λ w, Reports.NewFromJSON (sto w) nodeName (nread jsonReport)) report_status; save_report rep
      | [_; _; _; _; runID] =>
          rep ← ask (λ w, Reports.Get (sto w) runID) report_status;
          rep ← call (Reports.UpdateFromJSON rep (nread jsonReport)) report_status; save_report rep
      | _ => jsonErrorReport "Bad request" StatusBadRequest
      end
  end.

Definition reportHandler (r : Request) : H () :=
  protocolVersion ← protocol_version r;
  if negb (bool_decide (protocolVersion = "0.1.0"))
  then jsonErrorReport "Unsupported reporting protocol version" StatusNotFound
  else
    opUser ← CtxReqUser r;
    pathArray ← splitPath (r_Path r);
    match r_Method r with
    | HEAD => headDefaultResponse
    | GET => m ← report_get r opUser pathArray; Encode (BJson (IMap m))
    | POST => m ← report_post r pathArray; Encode (BJson (IMap m))
    | _ => jsonErrorReport "Bad request" StatusBadRequest
    end.
End handlers.
