(* ===== verification/HandlersShovey.v ===== *)
(** The request handler of pushed jobs (src/shovey.go). *)
From Stdlib Require Import SpecFloat.
From S2P Require Import Prelude Gerror Iface Config Store Datastore Tables UtilStrings Objects Validations Flatten.
From S2P Require Import FileIndex World Nodes Roles Environments Sandboxes Clients Users DataBags Loginfo.
From S2P Require Import Http Statuses Quorum Shoveys HandlersObj HandlersMisc HandlersSearch.

Section handlers.
  Context (conf : Conf) {EN : Encoder} {PU : Pushing} {FN : FloatNotations}.
  Context {S T : Type} {OO : StoreOps S object} {TB : TableOps S object} {TO : TrieOps T}.
  Local Abbreviation H := (handler S T).

Definition bad_request {A} : H A := jsonErrorReport "Bad request" StatusBadRequest.

(** A job, and the run of a node, by the names in the path. *)
Definition get_job (id : string) : H Shovey := ask (λ w, Shoveys.Get w id) report_status.

Definition get_run (s : Shovey) (nodeName : string) : H ShoveyRun := ask (λ w, GetRun w s nodeName) report_status.

(** A list that is to hold strings. *)
Fixpoint asserted_strings (l : list iface) : outcome (list string) :=
  match l with
  | [] => Ok []
  | IStr v :: l => r ← asserted_strings l; Ok (v :: r)
  | _ :: _ => Panic TypeAssertion
  end.

Definition body_map (r : Request) : H jmap :=
  m ← call (parseObjJSON r) (λ e, jsonErrorReport (Error e) StatusBadRequest); mret (nread m).

(** * Jobs *)

(** The three lists and objects of a GET. *)
Definition jobs_get (pathArray : list string) : H () :=
  match pathArray with
  | [_; _; id; nodeName] =>
      shove ← get_job id; sj ← get_run shove nodeName;
      m ← ask (λ w, run_ToJSON w sj) report_status; Encode (BJson (IMap m))
  | [_; _; id] =>
      shove ← get_job id; m ← ask (λ w, Shoveys.ToJSON w shove) report_status; Encode (BJson (IMap m))
  | _ => ids ← ask (λ w, AllShoveyIDs w) report_status; Encode (BJson (IStrs ids))
  end.

Definition run_timeout (shvData : jmap) : Z :=
  match mget "run_timeout" shvData with INumber t => (ParseInt10 t).1 | _ => 300 end.

(** Starting a job. *)
Definition jobs_post (r : Request) (pathArray : list string) : H jmap :=
  if negb (bool_decide (length pathArray = 2)) then bad_request
  else
    shvData ← body_map r;
    let quorum := match mget "quorum" shvData with IStr q => q | _ => "100%" end in
    nodeNames ← (match mget "nodes" shvData with
                 | IArr [] => jsonErrorReport "no nodes provided" StatusBadRequest
                 | IArr shvNodes => call (asserted_strings shvNodes) report_status
                 | _ => jsonErrorReport "node list not an array" StatusBadRequest
                 end);
    command ← (match mget "command" shvData with IStr c => mret c | _ => crash TypeAssertion end);
    s ← change_with (λ w, Shoveys.New_ w (default EmptyString (head (r_ids r))) command (run_timeout shvData) quorum
                            nodeNames (r_now r)) report_status;
    s ← act (λ w, Start w s (r_now r)) report_status;
    uri ← call (CustomURL conf ("/shovey/jobs/" +:+ sh_RunID s)) report_status;
    mret [("id", IStr (sh_RunID s)); ("uri", IStr uri)].

(** Cancelling a job, or some of its runs; the error of the latter is looked
    for in the wrong variable, which is nil. *)
Definition jobs_cancel (r : Request) : H jmap :=
  cancelData ← body_map r;
  runID ← (match mget "run_id" cancelData with
           | IStr id => mret id
           | _ => jsonErrorReport "No shovey run ID provided, or provided id was invalid" StatusBadRequest
           end);
  nodeNames ← (match mget "nodes" cancelData with IArr nn => call (asserted_strings nn) report_status | _ => mret [] end);
  shove ← get_job runID;
  shove ← (if bool_decide (nodeNames = []) then act (λ w, Cancel w shove (r_now r)) report_status
           else act (λ w, CancelRuns w shove nodeNames (r_now r)) (λ _, crash NilDeref));
  ask (λ w, Shoveys.ToJSON w shove) report_status.

(** The update of a run by its node. *)
Definition jobs_update (r : Request) (id nodeName : string) : H jmap :=
  sjData ← body_map r;
  shove ← get_job id; sj ← get_run shove nodeName;
  change (λ w, Ok (Shoveys.UpdateFromJSON w sj sjData (r_now r))) report_status ;;
  mret [("id", IStr (sh_RunID shove)); ("node", IStr nodeName); ("response", IStr "ok")].

Definition jobs_handler (r : Request) (pathArray : list string) : H () :=
  match r_Method r with
  | HEAD => id ← elem pathArray 2; headChecking (λ w, Shoveys.DoesExist w id) nilPermCheck
  | GET => jobs_get pathArray
  | POST => m ← jobs_post r pathArray; Encode (BJson (IMap m))
  | PUT =>
      m ← (match pathArray with
           | [_; _; op] => if bool_decide (op = "cancel") then jobs_cancel r else bad_request
           | [_; _; id; nodeName] => jobs_update r id nodeName
           | _ => bad_request
           end);
      Encode (BJson (IMap m))
  | _ => jsonErrorReport "Unrecognized method" StatusMethodNotAllowed
  end.

(** * Output *)

Definition output_type (r : Request) : H string :=
  o ← form_first r "output_type";
  match o with
  | None => mret "stdout"
  | Some outType =>
      if bool_decide (outType ∈ ["stdout"; "stderr"; "both"]) then mret outType
      else jsonErrorReport "output type must be 'stdout', 'stderr', or 'both'" StatusBadRequest
  end.

Definition stream_get (r : Request) (id nodeName : string) : H jmap :=
  seq ← form_convert r "sequence" "Atoi" 0 (λ n, n);
  outType ← output_type r;
  shove ← get_job id; sj ← get_run shove nodeName;
  stream ← ask (λ w, GetStreamOutput w sj outType seq) report_status;
  combinedOutput ← ask (λ w, CombineStreamOutput w sj outType seq) report_status;
  let base := [("run_id", IStr (sr_ShoveyUUID sj)); ("node_name", IStr (sr_NodeName sj)); ("output_type", IStr outType)] in
  let pos := match last stream with
             | Some p => [("last_seq", INumber (itoa (ss_Seq p))); ("is_last", IBool (ss_IsLast p))]
             | None => [("is_last", IBool false)]
             end in
  mret (base ++ pos ++ [("output", IStr combinedOutput)]).

Definition stream_put (r : Request) (id nodeName : string) : H jmap :=
  streamData ← body_map r;
  shove ← get_job id; sj ← get_run shove nodeName;
  output ← (match mget "output" streamData with IStr o => mret o | _ => report_status (Errorf "invalid output") end);
  outputType ← (match mget "output_type" streamData with
                | IStr o => mret o
                | _ => report_status (Errorf "invalid output type")
                end);
  isLast ← (match mget "is_last" streamData with IBool b => mret b | _ => report_status (Errorf "invalid is_last") end);
  seq ← (match mget "seq" streamData with INumber sf => mret (ParseInt10 sf).1 | _ => report_status (Errorf "invalid seq") end);
  change (λ w, AddStreamOutput w sj output outputType seq isLast (r_now r)) report_status ;;
  mret [("response", IStr "ok")].

Definition stream_handler (r : Request) (pathArray : list string) : H () :=
  match pathArray with
  | [_; _; id; nodeName] =>
      match r_Method r with
      | HEAD => headDefaultResponse
      | GET => m ← stream_get r id nodeName; Encode (BJson (IMap m))
      | PUT => m ← stream_put r id nodeName; Encode (BJson (IMap m))
      | _ => jsonErrorReport "Unrecognized method" StatusMethodNotAllowed
      end
  | _ => bad_request
  end.

Definition shoveyHandler (r : Request) : H () :=
  opUser ← CtxReqUser r;
  if negb (IsAdmin conf opUser) && negb (bool_decide (r_Method r = PUT))
  then jsonErrorReport "you cannot perform this action" StatusForbidden
  else if negb (UseShovey conf) then jsonErrorReport "shovey is not enabled" StatusPreconditionFailed
  else
    pathArray ← splitPath (r_Path r);
    if bool_decide (length pathArray < 2) || bool_decide (4 < length pathArray)
       || bool_decide (pathArray !! 1 = Some EmptyString)
    then bad_request
    else
      op ← elem pathArray 1;
      if bool_decide (op = "jobs") then jobs_handler r pathArray
      else if bool_decide (op = "stream") then stream_handler r pathArray
      else jsonErrorReport "Unrecognized operation" StatusBadRequest.
End handlers.
