(* ===== verification/Dump.v ===== *)
(** Dumps of the stored objects: writing one (src/export.go), reading one
    (src/import.go), and the imports of single records in the packages loginfo
    and shovey (src/loginfo/log_info.go, src/shovey/shovey.go).

    A dump is described by the values its JSON text decodes to: the text itself
    is written and read by [encoding/json], and the file by the system. *)
From S2P Require Import Prelude Gerror Iface Base64 Config Store Tables Objects UtilStrings Validations Flatten.
From S2P Require Import FileIndex World Filestore Cookbooks Nodes Roles Environments Sandboxes Clients Users DataBags.
From S2P Require Import Reports Loginfo Searches Http Statuses Quorum Shoveys HandlersMisc HandlersSearch.

(** What the imports use of package time, and the text of a base64 error. *)
Class DumpFormats : Type := {
  Parse_RFC3339 : string → Z + string;
  Format_ReportTime : Z → string;
  Base64Error : string → string;
}.

Definition parse_time {DF : DumpFormats} (t : string) : outcome Z :=
  match Parse_RFC3339 t with inl z => Ok z | inr e => Err (New e) end.

(** * From Go values to JSON *)

(** A slice of strings; one that is nil is written as null. *)
Definition jstrs (l : list string) : iface := IArr (IStr <$> l).

Definition jnil_strs (l : list string) : iface := match l with [] => INil | _ => jstrs l end.

(** What the JSON text of a value decodes to.  The store makes the slices that
    are fields of an object again when gob lost them because they were empty,
    but not those inside a map of slices, which are then nil. *)
Fixpoint json_of (i : iface) : iface :=
  match i with
  | IStrs l => jstrs l
  | IArr l => IArr (map json_of l)
  | IMap m => IMap (map (λ kv, (kv.1, json_of kv.2)) m)
  | IMapStr m => IMap (map (λ kv, (kv.1, IStr kv.2)) m)
  | IMapStrs m => IMap (map (λ kv, (kv.1, jnil_strs kv.2)) m)
  | IDivs l => IArr (map (λ m, IMap (map (λ kv, (kv.1, json_of kv.2)) m)) l)
  | i => i
  end.

Definition json_fields (m : jmap) : jmap := map (λ kv, (kv.1, json_of kv.2)) m.

(** The fields of an object inside another one, whose empty slices the store
    does not make again. *)
Definition inner_fields (m : jmap) : jmap :=
  map (λ kv, (kv.1, match kv.2 with IStrs [] | IDivs [] => INil | v => json_of v end)) m.

(** * src/export.go *)

Record ExportData : Type := {
  MajorVersion : Z;
  MinorVersion : Z;
  CreatedTime : Z;
  ed_Data : list (string * list iface);
}.

Definition ExportMajorVersion : Z := 1.
Definition ExportMinorVersion : Z := 1.

Section dump.
  Context (conf : Conf) (md5hex : string → string) {CR : Crypto} {EN : Encoder} {RF : ReportFormats} {DF : DumpFormats}.
  Context {PU : Pushing} {FN : FloatNotations} {S T : Type} {OO : StoreOps S object} {TB : TableOps S object} {TO : TrieOps T}.
  Local Abbreviation W := (world S T).
  Implicit Types (w : W).

(** The exported fields of each kind of object, under the names of their
    tags. *)
Definition user_record (u : User) : jmap :=
  [("username", IStr (u_Username u)); ("name", IStr (u_Name u)); ("email", IStr (u_Email u));
   ("admin", IBool (u_Admin u)); ("public_key", IStr (u_pubKey u)); ("password", IStr (u_passwd u));
   ("salt", IStr (b64_encode (u_salt u)))].

Definition version_fields (v : CookbookVersion) : jmap :=
  [("cookbook_name", IStr (cbv_CookbookName v)); ("name", IStr (cbv_Name v)); ("version", IStr (cbv_Version v));
   ("chef_type", IStr (cbv_ChefType v)); ("json_class", IStr (cbv_JSONClass v));
   ("definitions", IDivs (cbv_Definitions v)); ("libraries", IDivs (cbv_Libraries v));
   ("attributes", IDivs (cbv_Attributes v)); ("recipes", IDivs (cbv_Recipes v)); ("providers", IDivs (cbv_Providers v));
   ("resources", IDivs (cbv_Resources v)); ("templates", IDivs (cbv_Templates v));
   ("root_files", IDivs (cbv_RootFiles v)); ("files", IDivs (cbv_Files v)); ("frozen?", IBool (cbv_IsFrozen v));
   ("metadata", IMap (cbv_Metadata v))].

Definition cookbook_record (c : Cookbook) : jmap :=
  [("Name", IStr (cb_Name c));
   ("Versions", IMap (map (λ kv, (kv.1, IMap (inner_fields (version_fields kv.2)))) (cb_Versions c)))].

Definition bag_record (b : DataBag) : jmap :=
  [("Name", IStr (db_Name b));
   ("DataBagItems", IMap (map (λ kv, (kv.1, IMap (json_fields (item_fields kv.2)))) (db_Items b)))].

Definition file_record (f : FileStore) : jmap :=
  [("Chksum", IStr (fs_Chksum f)); ("Data", IStr (b64_encode (fs_Data f)))].

Definition status_record (ns : NodeStatus) : jmap :=
  [("Node", IMap (inner_fields (Nodes.fields (ns_Node ns)))); ("Status", IStr (ns_Status ns));
   ("UpdatedAt", IStr (MarshalTime (ns_UpdatedAt ns)))].

(** The data of a report is nil until the run has ended. *)
Definition report_record (r : Report) : jmap :=
  let m := json_fields (report_json r) in
  if bool_decide (rp_EndTime r = zero_time) then mset "data" INil m else m.

Definition sandbox_record (s : Sandbox) : jmap :=
  [("ID", IStr (sb_ID s)); ("CreationTime", IStr (MarshalTime (sb_CreationTime s)));
   ("Completed", IBool (sb_Completed s)); ("Checksums", jstrs (sb_Checksums s))].

Definition shovey_record (s : Shovey) : jmap :=
  [("id", IStr (sh_RunID s)); ("nodes", jstrs (sh_NodeNames s)); ("command", IStr (sh_Command s));
   ("created_at", IStr (MarshalTime (sh_CreatedAt s))); ("updated_at", IStr (MarshalTime (sh_UpdatedAt s)));
   ("status", IStr (sh_Status s)); ("timeout", INumber (itoa (sh_Timeout s))); ("quorum", IStr (sh_Quorum s))].

Definition run_record (sr : ShoveyRun) : jmap :=
  [("run_id", IStr (sr_ShoveyUUID sr)); ("node_name", IStr (sr_NodeName sr)); ("status", IStr (sr_Status sr));
   ("ack_time", IStr (MarshalTime (sr_AckTime sr))); ("end_time", IStr (MarshalTime (sr_EndTime sr)));
   ("error", IStr (sr_Error sr)); ("exit_status", INumber (itoa (sr_ExitStatus sr)))].

Definition stream_record (ss : ShoveyRunStream) : jmap :=
  [("ShoveyUUID", IStr (ss_ShoveyUUID ss)); ("NodeName", IStr (ss_NodeName ss)); ("Seq", INumber (itoa (ss_Seq ss)));
   ("OutputType", IStr (ss_OutputType ss)); ("Output", IStr (ss_Output ss)); ("IsLast", IBool (ss_IsLast ss));
   ("CreatedAt", IStr (MarshalTime (ss_CreatedAt ss)))].

(** The slices of objects, each written by its fields. *)
Definition exportTransformSlice {A} (record : A → jmap) (data : list A) : list iface := IMap ∘ record <$> data.

Definition ExportAllClients w : outcome (list iface) :=
  clients ← AllClients w; Ok (fmap (M := list) (IMap ∘ json_fields ∘ Clients.fields) clients).

Definition ExportAllUsers w : outcome (list iface) := users ← AllUsers w; Ok (fmap (M := list) (IMap ∘ user_record) users).

(** [exportAll], up to the file that is written. *)
Definition exportAll w (now : Z) : outcome ExportData :=
  clients ← ExportAllClients w;
  cookbooks ← AllCookbooks (sto w);
  bags ← AllDataBags w;
  envs ← AllEnvironments w;
  files ← AllFilestores (sto w);
  logs ← AllLogInfos (sto w) now;
  nodes ← AllNodes w;
  statuses ← Statuses.AllNodeStatuses w;
  reports ← AllReports (sto w);
  roles ← AllRoles w;
  sandboxes ← AllSandboxes (sto w);
  shoveys ← AllShoveys w;
  runs ← AllShoveyRuns w;
  streams ← AllShoveyRunStreams w;
  users ← ExportAllUsers w;
  Ok {| MajorVersion := ExportMajorVersion; MinorVersion := ExportMinorVersion; CreatedTime := now;
        ed_Data :=
          [("client", clients);
           ("cookbook", exportTransformSlice cookbook_record cookbooks);
           ("databag", exportTransformSlice bag_record bags);
           ("environment", exportTransformSlice (json_fields ∘ Environments.fields) envs);
           ("filestore", exportTransformSlice file_record files);
           ("loginfo", exportTransformSlice (json_fields ∘ event_json) logs);
           ("node", exportTransformSlice (json_fields ∘ Nodes.fields) nodes);
           ("node_status", exportTransformSlice status_record statuses);
           ("report", exportTransformSlice report_record reports);
           ("role", exportTransformSlice (json_fields ∘ Roles.fields) roles);
           ("sandbox", exportTransformSlice sandbox_record sandboxes);
           ("shovey", exportTransformSlice shovey_record shoveys);
           ("shovey_run", exportTransformSlice run_record runs);
           ("shovey_run_stream", exportTransformSlice stream_record streams);
           ("user", users)] |}.

(** * Steps of an import

    A step changes the state and gives a value, an error or a panic; [None] is
    a [return nil] that ends the whole import. *)
Definition import (A : Type) : Type := W → outcome (option A) * W.

#[export] Instance import_ret : MRet import := λ A a w, (Ok (Some a), w).

#[export] Instance import_bind : MBind import := λ A B f m w,
  match m w with
  | (Ok (Some a), w) => f a w
  | (Ok None, w) => (Ok None, w)
  | (Err e, w) => (Err e, w)
  | (Panic p, w) => (Panic p, w)
  end.

(** A call that looks at the state, and one that gives the new state. *)
Definition look {A} (f : W → outcome A) : import A := λ w, (Some <$> f w, w).

Definition alter_world (f : W → outcome W) : import () := λ w,
  match f w with Ok w => (Ok (Some ()), w) | Err e => (Err e, w) | Panic p => (Panic p, w) end.

Definition alter_with {A} (f : W → outcome (W * A)) : import A := λ w,
  match f w with Ok (w, a) => (Ok (Some a), w) | Err e => (Err e, w) | Panic p => (Panic p, w) end.

(** One that may change the state before it fails. *)
Definition attempt {A} (f : W → outcome A * W) : import A := λ w, let '(o, w) := f w in (Some <$> o, w).

Definition end_quietly {A} : import A := λ w, (Ok None, w).

(** The type assertions without a second result. *)
Definition as_map (v : iface) : outcome jmap := match v with IMap m => Ok m | _ => Panic TypeAssertion end.
Definition as_str (v : iface) : outcome string := match v with IStr s => Ok s | _ => Panic TypeAssertion end.
Definition as_arr (v : iface) : outcome (list iface) := match v with IArr l => Ok l | _ => Panic TypeAssertion end.
Definition as_bool (v : iface) : outcome bool := match v with IBool b => Ok b | _ => Panic TypeAssertion end.

(** Those with one, whose failure leaves the zero value. *)
Definition str_or (v : iface) : string := match v with IStr s => s | _ => EmptyString end.
Definition bool_or (v : iface) : bool := match v with IBool b => b | _ => false end.
Definition arr_or (v : iface) : list iface := match v with IArr l => l | _ => [] end.

Fixpoint for_each {A} (f : A → import ()) (l : list A) : import () :=
  match l with [] => mret () | x :: l => f x ≫= λ _, for_each f l end.

(** * src/import.go *)

Definition import_client (v : iface) : import () :=
  m ← look (λ _, as_map v);
  c ← look (λ w, Clients.NewFromJSON w m);
  c ← look (λ _, Clients.SetPublicKey c (mget "public_key" m));
  alter_world (λ w, Clients.Save conf w c).

(** [SetPasswdHash] leaves the password when the hash is empty. *)
Definition SetPasswdHash (u : User) (pwhash : string) : User :=
  if bool_decide (pwhash = EmptyString) then u else with_passwd u pwhash.

(** The salt is the one drawn by [New]. *)
Definition import_user (salt : string) (v : iface) : import () :=
  m ← look (λ _, as_map v);
  let pwhash := str_or (mget "password" m) in
  let m := mset "password" (IStr EmptyString) m in
  u ← look (λ w, Users.NewFromJSON w salt m);
  u ← look (λ _, Users.SetPublicKey (SetPasswdHash u pwhash) (mget "public_key" m));
  alter_world (λ w, Users.Save w u).

Definition import_file (v : iface) : import () :=
  m ← look (λ _, as_map v);
  text ← look (λ _, as_str (mget "Data" m));
  fileData ← look (λ _, match b64_decode text with Some d => Ok d | None => Err (New (Base64Error text)) end);
  chksum ← look (λ _, as_str (mget "Chksum" m));
  fs ← look (λ w, Filestore.New_ md5hex (sto w) chksum fileData (Z.of_nat (String.length fileData)));
  alter_world (λ w, Ok (set_sto w (Filestore.Save (sto w) fs))).

(** The versions of a cookbook, in the order the map gives them. *)
Fixpoint import_versions (cb : Cookbook) (vs : jmap) : import () :=
  match vs with
  | [] => mret ()
  | (ver, cbvData) :: vs =>
      m ← look (λ _, as_map cbvData);
      m ← look (λ _, checkAttrs m);
      cb ← alter_with (λ w, r ← NewVersion conf (sto w) cb ver m; let '(s, cb, _) := r in Ok (set_sto w s, cb));
      import_versions cb vs
  end.

Definition import_cookbook (v : iface) : import () :=
  m ← look (λ _, as_map v);
  name ← look (λ _, as_str (mget "Name" m));
  cb ← look (λ w, Cookbooks.New_ (sto w) name);
  alter_world (λ w, Ok (set_sto w (Cookbooks.Save (sto w) cb))) ≫= λ _,
  vs ← look (λ _, as_map (mget "Versions" m));
  import_versions cb vs.

(** The items of a data bag, in the order the map gives them. *)
Fixpoint import_items (db : DataBag) (items : jmap) : import DataBag :=
  match items with
  | [] => mret db
  | (_, dbagData) :: items =>
      m ← look (λ _, as_map dbagData);
      raw ← look (λ _, as_map (mget "raw_data" m));
      db ← alter_with (λ w, r ← NewDBItem conf w db raw; Ok r.1);
      import_items db items
  end.

Definition import_bag (v : iface) : import () :=
  m ← look (λ _, as_map v);
  name ← look (λ _, as_str (mget "Name" m));
  dbag ← alter_with (λ w, DataBags.New_ w name);
  alter_world (λ w, Ok (DataBags.Save w dbag)) ≫= λ _,
  items ← look (λ _, as_map (mget "DataBagItems" m));
  dbag ← import_items dbag items;
  alter_world (λ w, Ok (DataBags.Save w dbag)).

(** The error of [checkAttrs] is answered with a [return nil]. *)
Definition checked_attrs (v : iface) : import jmap :=
  m ← look (λ _, as_map v);
  match checkAttrs m with Ok m => mret m | Err _ => end_quietly | Panic p => look (λ _, Panic p) end.

Definition import_environment (v : iface) : import () :=
  envData ← checked_attrs v;
  name ← look (λ _, as_str (mget "name" envData));
  if bool_decide (name = "_default") then mret ()
  else
    e ← look (λ w, Environments.NewFromJSON w envData);
    alter_world (λ w, Environments.Save conf w e).

Definition import_node (v : iface) : import () :=
  nodeData ← checked_attrs v;
  n ← look (λ w, Nodes.NewFromJSON w nodeData);
  alter_world (λ w, Ok (Nodes.Save conf w n)).

Definition import_role (v : iface) : import () :=
  roleData ← checked_attrs v;
  r ← look (λ w, Roles.NewFromJSON w roleData);
  alter_world (λ w, Ok (Roles.Save conf w r)).

Definition import_sandbox (v : iface) : import () :=
  m ← look (λ _, as_map v);
  sbTime ← look (λ _, parse_time (str_or (mget "CreationTime" m)));
  sbChecksums ← look (λ _, mapM as_str (arr_or (mget "Checksums" m)));
  alter_world (λ w, Ok (set_sto w (Sandboxes.Save (sto w)
    {| sb_ID := str_or (mget "Id" m); sb_CreationTime := sbTime; sb_Completed := bool_or (mget "Completed" m);
       sb_Checksums := sbChecksums |}))).

(** [loginfo.Import]: the decoder of the dump gives numbers that are never of
    the type float64, to which the id is asserted first. *)
Definition loginfo_Import (m : jmap) : import () :=
  fields ← look (λ _, mapM (λ k, as_str (mget k m))
    ["action"; "actor_type"; "actor_info"; "object_type"; "object_name"; "extended_info"]);
  look (λ _, Panic TypeAssertion).

Definition import_log (v : iface) : import () := m ← look (λ _, as_map v); loginfo_Import m.

(** The name of the node, which an older export wrote under another key. *)
Definition report_node (v : jmap) : outcome string :=
  match mlookup "node_name" v, mlookup "nodeName" v with
  | Some n, _ => as_str n
  | None, Some n => as_str n
  | None, None => Ok EmptyString
  end.

(** A time in the layout of the reports in the place of one in RFC 3339. *)
Definition report_time (k : string) (v : jmap) : outcome jmap :=
  match mget k v with
  | IStr st => t ← parse_time st; Ok (mset k (IStr (Format_ReportTime t)) v)
  | _ => Ok v
  end.

Definition import_report (o : iface) : import () :=
  v ← look (λ _, as_map o);
  nodeName ← look (λ _, report_node v);
  let v := mset "action" (IStr "start") v in
  v ← look (λ _, report_time "start_time" v);
  v ← look (λ _, report_time "end_time" v);
  r ← look (λ w, Reports.NewFromJSON (sto w) nodeName v);
  alter_world (λ w, Ok (set_sto w (Reports.Save (sto w) r))) ≫= λ _,
  r ← look (λ _, Reports.UpdateFromJSON r (mset "action" (IStr "end") v));
  alter_world (λ w, Ok (set_sto w (Reports.Save (sto w) r))).

Definition import_status (v : iface) : import () :=
  ns ← look (λ _, as_map v); attempt (λ w, ImportStatus conf parse_time w ns).

(** ** src/shovey/shovey.go *)

(** [int64] values of JSON numbers; anything else is 0. *)
Definition int_or (v : iface) : Z := default 0%Z (intify v).

(** A time that cannot be read leaves the job out, without an error. *)
Definition ImportShovey (m : jmap) : import () :=
  runID ← look (λ _, as_str (mget "id" m));
  nn ← look (λ _, as_arr (mget "nodes" m));
  nodeNames ← look (λ _, mapM as_str nn);
  command ← look (λ _, as_str (mget "command" m));
  ca ← look (λ _, as_str (mget "created_at" m));
  match Parse_RFC3339 ca with
  | inr _ => mret ()
  | inl createdAt =>
      ua ← look (λ _, as_str (mget "updated_at" m));
      match Parse_RFC3339 ua with
      | inr _ => mret ()
      | inl updatedAt =>
          status ← look (λ _, as_str (mget "status" m));
          quorum ← look (λ _, as_str (mget "quorum" m));
          alter_world (λ w, Ok (set_sto w (store (sto w)
            {| sh_RunID := runID; sh_NodeNames := nodeNames; sh_Command := command; sh_CreatedAt := createdAt;
               sh_UpdatedAt := updatedAt; sh_Status := status; sh_Timeout := int_or (mget "timeout" m);
               sh_Quorum := quorum |})))
      end
  end.

(** A time that is there is read; the zero time stands for one that is not. *)
Definition optional_time (v : iface) : outcome Z :=
  match v with IStr t => parse_time t | _ => Ok zero_time end.

Definition ImportShoveyRun (m : jmap) : import () :=
  shoveyUUID ← look (λ _, as_str (mget "run_id" m));
  nodeName ← look (λ _, as_str (mget "node_name" m));
  status ← look (λ _, as_str (mget "status" m));
  ackTime ← look (λ _, optional_time (mget "ack_time" m));
  endTime ← look (λ _, optional_time (mget "end_time" m));
  errMsg ← look (λ _, as_str (mget "error" m));
  alter_world (λ w, Ok (save_run w
    {| sr_ShoveyUUID := shoveyUUID; sr_NodeName := nodeName; sr_Status := status; sr_AckTime := ackTime;
       sr_EndTime := endTime; sr_Error := errMsg; sr_ExitStatus := int_or (mget "exit_status" m) `mod` 256 |})).

Definition ImportShoveyRunStream (m : jmap) : import () :=
  shoveyUUID ← look (λ _, as_str (mget "ShoveyUUID" m));
  nodeName ← look (λ _, as_str (mget "NodeName" m));
  outputType ← look (λ _, as_str (mget "OutputType" m));
  output ← look (λ _, as_str (mget "Output" m));
  isLast ← look (λ _, as_bool (mget "IsLast" m));
  ca ← look (λ _, as_str (mget "CreatedAt" m));
  createdAt ← look (λ _, parse_time ca);
  alter_world (λ w, Ok (set_sto w (store (sto w)
    {| ss_ShoveyUUID := shoveyUUID; ss_NodeName := nodeName; ss_Seq := int_or (mget "Seq" m);
       ss_OutputType := outputType; ss_Output := output; ss_IsLast := isLast; ss_CreatedAt := createdAt |}))).

Definition import_shovey (v : iface) : import () := m ← look (λ _, as_map v); ImportShovey m.
Definition import_run (v : iface) : import () := m ← look (λ _, as_map v); ImportShoveyRun m.
Definition import_stream (v : iface) : import () := m ← look (λ _, as_map v); ImportShoveyRunStream m.

(** ** The whole import *)

Definition supported (d : ExportData) : bool :=
  bool_decide (MajorVersion d = 1%Z) && (bool_decide (MinorVersion d = 0%Z) || bool_decide (MinorVersion d = 1%Z)).

Definition stage (d : ExportData) (k : string) (f : iface → import ()) : import () :=
  for_each f (default [] (mlookup k (ed_Data d))).

(** What a dump of version 1.1 has besides. *)
Definition import_later (d : ExportData) : import () :=
  stage d "node_status" import_status ≫= λ _,
  stage d "shovey" import_shovey ≫= λ _,
  stage d "shovey_run" import_run ≫= λ _,
  stage d "shovey_run_stream" import_stream.

(** [salt i] is the salt drawn for the user at position [i]. *)
Definition import_objects (salt : nat → string) (d : ExportData) : import () :=
  stage d "client" import_client ≫= λ _,
  for_each (λ iv, import_user (salt iv.1) iv.2) (imap pair (default [] (mlookup "user" (ed_Data d)))) ≫= λ _,
  stage d "filestore" import_file ≫= λ _,
  stage d "cookbook" import_cookbook ≫= λ _,
  stage d "data_bag" import_bag ≫= λ _,
  stage d "environment" import_environment ≫= λ _,
  stage d "node" import_node ≫= λ _,
  stage d "role" import_role ≫= λ _,
  stage d "sandbox" import_sandbox ≫= λ _,
  stage d "loginfo" import_log ≫= λ _,
  stage d "report" import_report ≫= λ _,
  if bool_decide (MinorVersion d = 1%Z) then import_later d else mret ().

Definition importAll (salt : nat → string) (d : ExportData) (w : W) : outcome () * W :=
  if supported d then
    let '(o, w) := import_objects salt d w in ((λ _, ()) <$> o, w)
  else
    (Err (New ("goiardi export data version " +:+ itoa (MajorVersion d) +:+ "." +:+ itoa (MinorVersion d)
       +:+ " is not supported by this version of goiardi")), w).
End dump.
