(* ===== verification/DumpRecords.v ===== *)
(** The records of a dump, one by one: what importing the record of a client, a
    user, an environment, a node, a role or a file stores, and what a stage of
    the import makes of a list of them. *)
From S2P Require Import Prelude Gerror Iface Base64 Config Store Tables Objects UtilStrings Validations Flatten.
From S2P Require Import FileIndex World Filestore Cookbooks Nodes Roles Environments Clients Users DataBags.
From S2P Require Import Reports Loginfo Searches Http Statuses Quorum Shoveys HandlersMisc HandlersSearch Dump.

(** * Objects that survive a dump *)

Definition decoded (m : jmap) : Prop := json_fields m = m.

Definition run_list_ok (l : list string) : Prop := NoDup l ∧ Forall run_list_item l.

Lemma run_list_again l : run_list_ok l → ValidateRunList (IStrs l) = Ok l.
Proof.
  intros [Hnd Hi]. simpl. assert (validate_items l = Ok l) as ->.
  { apply validate_items_Ok, Forall_Forall2_diag. eapply Forall_impl; [done|].
    intros y Hy. by destruct (run_list_item_valid y Hy). }
  simpl. f_equal. apply remove_dupes_id; [done|set_solver].
Qed.

Record node_dumpable (n : Node) : Prop := {
  nd_name : ValidateDBagName (n_Name n) = true;
  nd_env : ValidateEnvName (n_ChefEnvironment n) = true;
  nd_list : run_list_ok (n_RunList n);
  nd_class : n_JSONClass n = "Chef::Node";
  nd_type : n_ChefType n = "node";
  nd_attrs : decoded (n_Automatic n) ∧ decoded (n_Normal n) ∧ decoded (n_Default n) ∧ decoded (n_Override n);
}.

Record role_dumpable (r : Role) : Prop := {
  rd_name : ValidateDBagName (r_Name r) = true;
  rd_list : run_list_ok (r_RunList r);
  rd_env_lists : Forall (λ kl, run_list_ok kl.2 ∧ kl.2 ≠ []) (r_EnvRunLists r);
  rd_class : r_JSONClass r = "Chef::Role";
  rd_type : r_ChefType r = "role";
  rd_attrs : decoded (r_Default r) ∧ decoded (r_Override r);
}.

Record env_dumpable (e : ChefEnvironment) : Prop := {
  ed_name : ValidateEnvName (e_Name e) = true;
  ed_class : e_JSONClass e = "Chef::Environment";
  ed_type : e_ChefType e = "environment";
  ed_attrs : decoded (e_Default e) ∧ decoded (e_Override e);
  ed_versions : wf_map (e_CookbookVersions e);
  ed_constraints : check_constraints ((λ kv, (kv.1, IStr kv.2)) <$> e_CookbookVersions e) = Ok ();
}.

Section objects.
  Context {CR : Crypto}.

Record client_dumpable (c : Client) : Prop := {
  cd_name : ValidateName (c_Name c) = true;
  cd_class : c_JSONClass c = "Chef::ApiClient";
  cd_type : c_ChefType c = "client";
  cd_key : key_error (c_pubKey c) = None;
}.

Record user_dumpable (u : User) : Prop := {
  ud_name : u_Name u = u_Username u;
  ud_valid : ValidateUserName (u_Username u) = true;
  ud_key : key_error (u_pubKey u) = None;
}.
End objects.

(** What comes back of a client, which loses its node name, its organization
    and its certificate, and of a user, who loses the address and gets another
    salt. *)
Definition restored_client (c : Client) : Client :=
  {| c_Name := c_Name c; c_NodeName := c_Name c; c_JSONClass := c_JSONClass c; c_ChefType := c_ChefType c;
     c_Validator := c_Validator c; c_Orgname := EmptyString; c_pubKey := c_pubKey c; c_Admin := c_Admin c;
     c_Certificate := EmptyString |}.

Definition restored_user (salt : string) (u : User) : User :=
  {| u_Username := u_Username u; u_Name := u_Username u; u_Email := EmptyString; u_Admin := u_Admin u;
     u_pubKey := u_pubKey u; u_passwd := u_passwd u; u_salt := salt |}.

(** * One object *)

Lemma run_list_strings_strs l : run_list_strings (IStr <$> l) = Ok l.
Proof. induction l as [|x l IH]; [done|]. rewrite fmap_cons. cbn [run_list_strings]. by rewrite IH. Qed.

Lemma env_lists_strs m :
  Forall (λ kl, kl.2 ≠ []) m → env_lists (map (λ kv, (kv.1, jnil_strs kv.2)) m) = Ok m.
Proof.
  induction m as [|[k l] m IH]; intros Hm; simpl; [done|]. apply Forall_cons in Hm as [Hl Hm]. simpl in Hl.
  destruct l as [|x l]; [done|]. cbn -[run_list_strings]. change (IStr x :: (IStr <$> l)) with (IStr <$> (x :: l)).
  rewrite run_list_strings_strs, IH by done. done.
Qed.

Lemma validate_env_lists_id m :
  Forall (λ kl, run_list_ok kl.2) m → validate_env_lists m = Ok m.
Proof.
  induction m as [|[k l] m IH]; intros Hm; cbn -[ValidateRunList]; [done|]. apply Forall_cons in Hm as [Hl Hm].
  rewrite run_list_again by done. cbn -[ValidateRunList]. by rewrite IH.
Qed.

Lemma copy_versions_strs m acc :
  wf_map (acc ++ m) → copy_versions ((λ kv, (kv.1, IStr kv.2)) <$> m) acc = Ok (acc ++ m).
Proof.
  revert acc. induction m as [|[k v] m IH]; intros acc Hw; simpl; [by rewrite app_nil_r|].
  assert (mset k v acc = acc ++ [(k, v)]) as ->.
  { unfold wf_map, mkeys in Hw. rewrite fmap_app, NoDup_app in Hw. destruct Hw as (_ & Hn & _).
    assert (k ∉ acc.*1) as Hk by (intros Hk; apply (Hn k Hk); set_solver). clear Hn IH.
    induction acc as [|[k' v'] acc IH]; simpl in *; [done|]. rewrite bool_decide_false by set_solver. f_equal. set_solver. }
  rewrite IH; rewrite <-app_assoc; done.
Qed.

Lemma chkRunList_jstrs l : chkRunList (jstrs l) = Ok l.
Proof. apply run_list_strings_strs. Qed.

Lemma node_checked n : checkAttrs (json_fields (Nodes.fields n)) =
  Ok (mset "run_list" (IStrs (n_RunList n)) (json_fields (Nodes.fields n))).
Proof.
  unfold checkAttrs. change (mlookup "run_list" (json_fields (Nodes.fields n))) with (Some (jstrs (n_RunList n))).
  cbv beta iota. rewrite chkRunList_jstrs. reflexivity.
Qed.

Lemma role_checked r : Forall (λ kl, kl.2 ≠ []) (r_EnvRunLists r) →
  checkAttrs (json_fields (Roles.fields r)) =
  Ok (mset "env_run_lists" (IMapStrs (r_EnvRunLists r))
       (mset "run_list" (IStrs (r_RunList r)) (json_fields (Roles.fields r)))).
Proof.
  intros He. unfold checkAttrs.
  change (mlookup "run_list" (json_fields (Roles.fields r))) with (Some (jstrs (r_RunList r))).
  cbv beta iota. rewrite chkRunList_jstrs. cbn [mbind outcome_bind].
  change (mlookup "env_run_lists" (mset "run_list" (IStrs (r_RunList r)) (json_fields (Roles.fields r))))
    with (Some (IMap (map (λ kv, (kv.1, jnil_strs kv.2)) (r_EnvRunLists r)))).
  cbv beta iota. rewrite env_lists_strs by done. reflexivity.
Qed.

Section one.
  Context (conf : Conf) {CR : Crypto} {S T : Type} {OO : StoreOps S object} {L : StoreLaws S object} {TO : TrieOps T}.
  Implicit Types (w : world S T).

Lemma node_from_record w n :
  node_dumpable n → n_isDown n = false → st_get (sto w) "node" (n_Name n) = Ok None →
  Nodes.NewFromJSON w (mset "run_list" (IStrs (n_RunList n)) (json_fields (Nodes.fields n))) = Ok n.
Proof.
  intros [Hn He Hl Hc Ht (Ha & Hno & Hd & Ho)] Hdown Hg. unfold Nodes.NewFromJSON, Nodes.New_.
  set (m := mset _ _ _). change (mget "name" m) with (IStr (n_Name n)). cbn [ValidateAsString mbind outcome_bind].
  rewrite Hn. cbn [negb]. rewrite Hg. cbn [mbind outcome_bind]. unfold Nodes.UpdateFromJSON.
  change (mget "name" m) with (IStr (n_Name n)). cbn [ValidateAsString mbind outcome_bind n_Name].
  rewrite bool_decide_false by naive_solver.
  change (check_elements Nodes.validElements m) with (Ok ()). cbn [mbind outcome_bind].
  change (mget "run_list" m) with (IStrs (n_RunList n)). rewrite run_list_again by done. cbn [mbind outcome_bind].
  change (mget "normal" m) with (IMap (json_fields (n_Normal n))).
  change (mget "automatic" m) with (IMap (json_fields (n_Automatic n))).
  change (mget "default" m) with (IMap (json_fields (n_Default n))).
  change (mget "override" m) with (IMap (json_fields (n_Override n))).
  rewrite Ha, Hno, Hd, Ho. cbn [ValidateAttributes mbind outcome_bind]. unfold env_field, class_field.
  change (mget "chef_environment" m) with (IStr (n_ChefEnvironment n)).
  change (mget "json_class" m) with (IStr (n_JSONClass n)). change (mget "chef_type" m) with (IStr (n_ChefType n)).
  cbn [ValidateAsFieldString]. rewrite He, Hc, Ht, !bool_decide_true by done. cbn [mbind outcome_bind].
  destruct n. simpl in *. congruence.
Qed.

Lemma role_from_record w r :
  role_dumpable r → st_get (sto w) "role" (r_Name r) = Ok None →
  Roles.NewFromJSON w (mset "env_run_lists" (IMapStrs (r_EnvRunLists r))
    (mset "run_list" (IStrs (r_RunList r)) (json_fields (Roles.fields r)))) = Ok r.
Proof.
  intros [Hn Hl He Hc Ht (Hd & Ho)] Hg. unfold Roles.NewFromJSON, Roles.New_.
  set (m := mset _ _ _). change (mget "name" m) with (IStr (r_Name r)). cbv beta iota.
  rewrite Hg. cbn [mbind outcome_bind]. rewrite Hn. cbn [negb mbind outcome_bind]. unfold Roles.UpdateFromJSON.
  change (mget "name" m) with (IStr (r_Name r)). cbv beta iota. cbn [r_Name].
  rewrite bool_decide_false by naive_solver.
  change (check_elements Roles.validElements m) with (Ok ()). cbn [mbind outcome_bind].
  change (mget "run_list" m) with (IStrs (r_RunList r)). rewrite run_list_again by done. cbn [mbind outcome_bind].
  unfold env_run_lists. change (mlookup "env_run_lists" m) with (Some (IMapStrs (r_EnvRunLists r))). cbv beta iota.
  rewrite validate_env_lists_id by (eapply Forall_impl; [done|]; naive_solver). cbn [mbind outcome_bind].
  change (mget "default_attributes" m) with (IMap (json_fields (r_Default r))).
  change (mget "override_attributes" m) with (IMap (json_fields (r_Override r))).
  rewrite Hd, Ho. cbn [ValidateAttributes mbind outcome_bind]. unfold class_field.
  change (mget "json_class" m) with (IStr (r_JSONClass r)). change (mget "chef_type" m) with (IStr (r_ChefType r)).
  change (mget "description" m) with (IStr (r_Description r)).
  cbn [ValidateAsFieldString]. rewrite Hc, Ht, !bool_decide_true by done. cbn [mbind outcome_bind].
  destruct r. simpl in *. congruence.
Qed.

Lemma env_from_record w e :
  env_dumpable e → e_Name e ≠ "_default" → st_get (sto w) "env" (e_Name e) = Ok None →
  Environments.NewFromJSON w (json_fields (Environments.fields e)) = Ok e.
Proof.
  intros [Hn Hc Ht (Hd & Ho) Hw Hv] Hne Hg. unfold Environments.NewFromJSON, Environments.New_.
  set (m := json_fields _). change (mget "name" m) with (IStr (e_Name e)). cbv beta iota.
  rewrite Hn. cbn [negb]. rewrite Hg. cbn [mbind outcome_bind].
  rewrite (bool_decide_false (is_Some None)) by (by intros [? ?]). rewrite (bool_decide_false (e_Name e = _)) by done.
  cbn [orb mbind outcome_bind]. unfold Environments.UpdateFromJSON.
  change (mget "name" m) with (IStr (e_Name e)). cbv beta iota. cbn [e_Name new_env].
  rewrite (bool_decide_false (_ ≠ _)) by naive_solver. rewrite (bool_decide_false (e_Name e = _)) by done.
  change (check_elements Environments.validElements m) with (Ok ()). cbn [mbind outcome_bind].
  change (mget "default_attributes" m) with (IMap (json_fields (e_Default e))).
  change (mget "override_attributes" m) with (IMap (json_fields (e_Override e))).
  rewrite Hd, Ho. cbn [ValidateAttributes mbind outcome_bind]. unfold class_field.
  change (mget "json_class" m) with (IStr (e_JSONClass e)). change (mget "chef_type" m) with (IStr (e_ChefType e)).
  change (mget "cookbook_versions" m) with (IMap ((λ kv, (kv.1, IStr kv.2)) <$> e_CookbookVersions e)).
  cbn [ValidateAsFieldString]. rewrite Hc, Ht, !bool_decide_true by done. cbn [ValidateAttributes mbind outcome_bind].
  rewrite Hv. cbn [mbind outcome_bind]. unfold description_field.
  change (mget "description" m) with (IStr (e_Description e)). cbn [ValidateAsString mbind outcome_bind].
  rewrite copy_versions_strs by done. cbn [mbind outcome_bind app]. destruct e. simpl in *. congruence.
Qed.

Lemma client_from_record w c :
  client_dumpable c → c_Admin c && c_Validator c = false → st_get (sto w) "client" (c_Name c) = Ok None →
  ∃ c', Clients.NewFromJSON w (json_fields (Clients.fields c)) = Ok c' ∧
    Clients.SetPublicKey c' (mget "public_key" (json_fields (Clients.fields c))) = Ok (restored_client c).
Proof.
  intros [Hn Hc Ht Hk] Hr Hg. unfold Clients.NewFromJSON, Clients.New_, validateClientName.
  set (m := json_fields _). change (mget "name" m) with (IStr (c_Name c)). cbn [ValidateAsString mbind outcome_bind].
  rewrite Hg. cbn [mbind outcome_bind]. rewrite Hn. cbn [ensure mbind outcome_bind]. unfold Clients.UpdateFromJSON.
  change (mget "name" m) with (IStr (c_Name c)). cbn [ValidateAsString mbind outcome_bind c_Name].
  rewrite bool_decide_false by naive_solver.
  change (check_elements Clients.validElements m) with (Ok ()). cbn [mbind outcome_bind]. unfold class_field.
  change (mget "json_class" m) with (IStr (c_JSONClass c)). change (mget "chef_type" m) with (IStr (c_ChefType c)).
  cbn [ValidateAsFieldString]. rewrite Hc, Ht, !bool_decide_true by done. cbn [mbind outcome_bind].
  unfold Clients.admin_field, validator_field. change (mlookup "admin" m) with (Some (IBool (c_Admin c))).
  change (mlookup "validator" m) with (Some (IBool (c_Validator c))). cbn [ValidateAsBool c_Admin andb mbind outcome_bind].
  rewrite Hr. eexists. split; [done|]. change (mget "public_key" m) with (IStr (c_pubKey c)).
  unfold Clients.SetPublicKey. rewrite Hk. unfold restored_client. by rewrite Hc, Ht.
Qed.

Lemma user_from_record w salt u :
  user_dumpable u → st_get (sto w) "user" (u_Username u) = Ok None →
  let m := mset "password" (IStr EmptyString) (user_record u) in
  ∃ u', Users.NewFromJSON w salt m = Ok u' ∧
    Users.SetPublicKey (SetPasswdHash u' (str_or (mget "password" (user_record u)))) (mget "public_key" m)
      = Ok (restored_user salt u).
Proof.
  intros [Hn Hv Hk] Hg m. unfold Users.NewFromJSON, Users.New_, validateUserName.
  change (mget "name" m) with (IStr (u_Name u)). cbn [ValidateAsString mbind outcome_bind]. rewrite Hn, Hg.
  cbn [mbind outcome_bind]. rewrite Hv. cbn [ensure mbind outcome_bind].
  change (mlookup "password" m) with (Some (IStr EmptyString)). cbv beta iota. unfold Users.UpdateFromJSON.
  change (mget "name" m) with (IStr (u_Name u)). cbn [ValidateAsString mbind outcome_bind u_Username]. rewrite Hn.
  rewrite bool_decide_false by naive_solver. change (check_elements Users.validElements m) with (Ok ()).
  cbn [mbind outcome_bind]. unfold passwd_field. change (mlookup "password" m) with (Some (IStr EmptyString)).
  cbn [ValidateAsString mbind outcome_bind]. rewrite bool_decide_true by done. cbn [mbind outcome_bind].
  unfold Users.admin_field. change (mlookup "admin" m) with (Some (IBool (u_Admin u))).
  cbn [ValidateAsBool u_Admin andb]. eexists. split; [done|].
  change (mget "public_key" m) with (IStr (u_pubKey u)). change (mget "password" (user_record u)) with (IStr (u_passwd u)).
  unfold Users.SetPublicKey. rewrite Hk. unfold restored_user, SetPasswdHash. cbn [str_or].
  case_bool_decide as E; [by rewrite E|done].
Qed.

Lemma file_from_record md5hex w f :
  st_inv (sto w) → md5hex (fs_Data f) = fs_Chksum f → st_get (sto w) "filestore" (fs_Chksum f) = Ok None →
  Filestore.New_ md5hex (sto w) (fs_Chksum f) (fs_Data f) (Z.of_nat (String.length (fs_Data f))) = Ok f.
Proof.
  intros Hi Hm Hg. unfold Filestore.New_, Filestore.Get. rewrite Hg. cbn [mbind outcome_bind].
  rewrite (proj2 (Z.ltb_ge _ 0)) by lia. unfold ReadFull. rewrite Nat2Z.id, Nat.leb_refl.
  assert (String.substring 0 (String.length (fs_Data f)) (fs_Data f) = fs_Data f) as ->.
  { generalize (fs_Data f). clear. induction s as [|a s IH]; simpl; [done|]. by rewrite IH. }
  cbv beta iota zeta. rewrite Hm, bool_decide_true by done. by destruct f.
Qed.
End one.

(** * One step of an import *)

Section steps.
  Context (conf : Conf) (md5hex : string → string) {CR : Crypto} {EN : Encoder} {RF : ReportFormats} {DF : DumpFormats}.
  Context {PU : Pushing} {FN : FloatNotations} {S T : Type} {OO : StoreOps S object} {L : StoreLaws S object}.
  Context {TB : TableOps S object} {TO : TrieOps T}.
  Implicit Types (w : world S T).

(** The step ends well and has stored the object. *)
Definition stores (m : import ()) w (t k : string) (o : object) : Prop :=
  ∃ w', m w = (Ok (Some ()), w') ∧ sto w' = st_set (sto w) t k o.

Lemma node_step w n :
  node_dumpable n → n_isDown n = false → st_get (sto w) "node" (n_Name n) = Ok None →
  stores (import_node conf (IMap (json_fields (Nodes.fields n)))) w "node" (n_Name n) (ONode n).
Proof.
  intros Hd Hn Hg. eexists. unfold import_node, checked_attrs, mbind, import_bind, look. cbn [as_map fmap outcome_fmap].
  rewrite node_checked. cbn [mret import_ret]. rewrite (node_from_record w n) by done. cbn [fmap outcome_fmap].
  by split.
Qed.

Lemma role_step w r :
  role_dumpable r → st_get (sto w) "role" (r_Name r) = Ok None →
  stores (import_role conf (IMap (json_fields (Roles.fields r)))) w "role" (r_Name r) (ORole r).
Proof.
  intros Hd Hg. eexists. unfold import_role, checked_attrs, mbind, import_bind, look. cbn [as_map fmap outcome_fmap].
  rewrite role_checked by (eapply Forall_impl; [apply Hd|]; naive_solver). cbn [mret import_ret].
  rewrite (role_from_record w r) by done. cbn [fmap outcome_fmap]. by split.
Qed.

Lemma env_step w e :
  env_dumpable e → e_Name e ≠ "_default" → st_get (sto w) "env" (e_Name e) = Ok None →
  stores (import_environment conf (IMap (json_fields (Environments.fields e)))) w "env" (e_Name e) (OEnv e).
Proof.
  intros Hd Hne Hg. eexists. unfold import_environment, checked_attrs, mbind, import_bind, look.
  cbn [as_map fmap outcome_fmap].
  change (checkAttrs (json_fields (Environments.fields e))) with (Ok (json_fields (Environments.fields e))).
  cbn [mret import_ret]. change (mget "name" (json_fields (Environments.fields e))) with (IStr (e_Name e)).
  cbn [as_str fmap outcome_fmap]. rewrite bool_decide_false by done. rewrite (env_from_record w e) by done.
  cbn [fmap outcome_fmap]. unfold alter_world, Environments.Save. rewrite bool_decide_false by done. by split.
Qed.

(** The default environment is passed over. *)
Lemma env_skip w e :
  e_Name e = "_default" →
  import_environment conf (IMap (json_fields (Environments.fields e))) w = (Ok (Some ()), w).
Proof.
  intros He. unfold import_environment, checked_attrs, mbind, import_bind, look. cbn [as_map fmap outcome_fmap].
  change (checkAttrs (json_fields (Environments.fields e))) with (Ok (json_fields (Environments.fields e))).
  cbn [mret import_ret]. change (mget "name" (json_fields (Environments.fields e))) with (IStr (e_Name e)).
  cbn [as_str fmap outcome_fmap]. by rewrite bool_decide_true by done.
Qed.

Lemma client_step w c :
  client_dumpable c → c_Admin c && c_Validator c = false → st_get (sto w) "client" (c_Name c) = Ok None →
  st_get (sto w) "user" (c_Name c) = Ok None →
  stores (import_client conf (IMap (json_fields (Clients.fields c)))) w "client" (c_Name c) (OClient (restored_client c)).
Proof.
  intros Hd Hr Hg Hu. destruct (client_from_record w c Hd Hr Hg) as (c' & H1 & H2).
  eexists. unfold import_client, mbind, import_bind, look. cbn [as_map fmap outcome_fmap].
  rewrite H1. cbn [fmap outcome_fmap]. rewrite H2. cbn [fmap outcome_fmap].
  unfold alter_world, Clients.Save, chkInMemUser. cbn [c_Name restored_client]. rewrite Hu. by split.
Qed.

Lemma user_step w salt u :
  user_dumpable u → st_get (sto w) "user" (u_Username u) = Ok None → st_get (sto w) "client" (u_Username u) = Ok None →
  stores (import_user salt (IMap (user_record u))) w "user" (u_Username u) (OUser (restored_user salt u)).
Proof.
  intros Hd Hg Hc. destruct (user_from_record w salt u Hd Hg) as (u' & H1 & H2).
  eexists. unfold import_user, mbind, import_bind, look. cbn [as_map fmap outcome_fmap].
  rewrite H1. cbn [fmap outcome_fmap]. rewrite H2. cbn [fmap outcome_fmap].
  unfold alter_world, Users.Save, chkInMemClient. cbn [u_Username restored_user]. rewrite Hc. by split.
Qed.

Lemma file_step w f :
  st_inv (sto w) → md5hex (fs_Data f) = fs_Chksum f → st_get (sto w) "filestore" (fs_Chksum f) = Ok None →
  stores (import_file md5hex (IMap (file_record f))) w "filestore" (fs_Chksum f) (OFile f).
Proof.
  intros Hi Hm Hg. eexists. unfold import_file, mbind, import_bind, look. cbn [as_map fmap outcome_fmap].
  change (mget "Data" (file_record f)) with (IStr (b64_encode (fs_Data f))). cbn [as_str fmap outcome_fmap].
  rewrite b64_decode_encode. cbn [fmap outcome_fmap]. change (mget "Chksum" (file_record f)) with (IStr (fs_Chksum f)).
  cbn [as_str fmap outcome_fmap]. rewrite (file_from_record md5hex w f) by done. cbn [fmap outcome_fmap]. by split.
Qed.

(** * A stage *)

(** The objects of a list are stored, and nothing else has changed. *)
Record puts {A} (t : string) (key : A → string) (obj : A → object) (l : list A) (s s' : S) : Prop := {
  pt_inv : st_inv s';
  pt_put a : a ∈ l → st_get s' t (key a) = Ok (Some (gob (obj a)));
  pt_old k : k ∉ key <$> l → st_get s' t k = st_get s t k;
  pt_other t' k : obj_type t' = true → t' ≠ t → st_get s' t' k = st_get s t' k;
}.

Lemma stage_puts {A B} (t : string) (f : B → import ()) (r : A → B) (key : A → string) (obj : A → object) l w :
  obj_type t = true → st_inv (sto w) → NoDup (key <$> l) → (∀ a, a ∈ l → st_get (sto w) t (key a) = Ok None) →
  (∀ w' a, a ∈ l → st_inv (sto w') → st_get (sto w') t (key a) = Ok None →
     (∀ t' k, obj_type t' = true → t' ≠ t → st_get (sto w') t' k = st_get (sto w) t' k) →
     stores (f (r a)) w' t (key a) (obj a)) →
  ∃ w', for_each f (r <$> l) w = (Ok (Some ()), w') ∧ puts t key obj l (sto w) (sto w').
Proof.
  intros Ht. revert w. induction l as [|a l IH]; intros w Hi Hnd Hno Hf.
  { exists w. split; [done|]. split; [done|by intros a ?%elem_of_nil|done..]. }
  apply NoDup_cons in Hnd as [Ha Hnd]. destruct (Hf w a) as (w1 & E & Hs); [by left|done|apply Hno; by left|done|].
  assert (∀ t' k, obj_type t' = true → st_get (sto w1) t' k =
            if bool_decide (t' = t ∧ k = key a) then Ok (Some (gob (obj a))) else st_get (sto w) t' k) as Hg.
  { intros t' k Ht'. rewrite Hs. by apply st_get_set. }
  destruct (IH w1) as (w' & E' & [P1 P2 P3 P4]); [rewrite Hs; by apply st_set_inv|done| | |].
  { intros b Hb. rewrite Hg by done. rewrite bool_decide_false; [apply Hno; by right|].
    intros [_ He]. apply Ha. rewrite <-He. by apply list_elem_of_fmap_2. }
  { intros w2 b Hb Hi2 Hg2 Ho. apply Hf; [by right|done..|]. intros t' k Ht' Hne. rewrite Ho, Hg by done.
    by rewrite bool_decide_false by naive_solver. }
  exists w'. rewrite fmap_cons. cbn [for_each]. unfold mbind at 1, import_bind at 1. rewrite E. split; [exact E'|]. split; [done| | |].
  - intros b Hb. apply elem_of_cons in Hb as [->|Hb]; [|by apply P2].
    rewrite P3 by done. rewrite Hg by done. by rewrite bool_decide_true by done.
  - intros k Hk. rewrite fmap_cons, not_elem_of_cons in Hk. destruct Hk as [Hk Hk'].
    rewrite P3, Hg by done. by rewrite bool_decide_false by naive_solver.
  - intros t' k Ht' Hne. rewrite P4, Hg by done. by rewrite bool_decide_false by naive_solver.
Qed.

(** What a stage has stored is what there was when the dump was made. *)
Lemma puts_copy {A} `{SA : Stored A} {SL : StoredLaws A} (obj : A → object) l (src s s' : S) k :
  st_inv src → kind_wf (A := A) src → (∀ a, s_name a = k → a ∈ l ↔ load src k = Ok (Some a)) →
  st_get s (s_type A) k = Ok None → puts (s_type A) s_name obj l s s' →
  load src k = Ok None ∧ st_get s' (s_type A) k = Ok None ∨
  ∃ a, load src k = Ok (Some a) ∧ s_name a = k ∧ st_get s' (s_type A) k = Ok (Some (gob (obj a))).
Proof.
  intros Hi Hw Hl Hn [P1 P2 P3 P4]. destruct (load_ok src k Hi Hw) as (o & Ho & Hnone). destruct o as [a|].
  - right. exists a. pose proof (load_name src k a Hi Hw Ho) as Hk. split_and!; [done..|]. rewrite <-Hk. apply P2. by apply Hl.
  - left. split; [done|]. rewrite P3; [apply Hn|]. intros (a & Hk & Ha)%list_elem_of_fmap. apply Hl in Ha; [|done]. congruence.
Qed.
End steps.

(** * What uploads store can be dumped *)

Section uploaded.
  Context {S T : Type} {OO : StoreOps S object} {TO : TrieOps T}.
  Implicit Types (w : world S T).

Lemma attributes_decoded k v a :
  (∀ m, v = IMap m → decoded m) → ValidateAttributes k v = Ok a → decoded a.
Proof. intros Hm. destruct v as [| | | | | |m| | |]; try done; intros [= <-]; [done|by apply Hm]. Qed.

Lemma class_field_legal json key legal current v : current = legal → class_field json key legal current = Ok v → v = legal.
Proof. intros -> [-> | ->]%class_field_Ok; done. Qed.

(** A node an upload creates, whose attributes are decoded JSON, survives a
    dump. *)
Lemma uploaded_node_dumpable w (json : jmap) n :
  (∀ k m, mget k json = IMap m → decoded m) → Nodes.NewFromJSON w json = Ok n → node_dumpable n.
Proof.
  intros Hj Hn. unfold Nodes.NewFromJSON, Nodes.New_, Nodes.UpdateFromJSON in Hn.
  apply bind_Ok in Hn as (name & _ & Hn). apply bind_Ok in Hn as (n0 & Hnew & Hn).
  destruct (ValidateDBagName name) eqn:Ev; [|done]. cbn [negb] in Hnew.
  apply bind_Ok in Hnew as ([|] & _ & Hnew); [done|]. injection Hnew as <-.
  apply bind_Ok in Hn as (name' & _ & Hn). cbn [n_Name] in Hn. case_bool_decide; [done|].
  apply bind_Ok in Hn as ([] & _ & Hn). apply bind_Ok in Hn as (rl & Hrl & Hn).
  apply bind_Ok in Hn as (no & Hno & Hn). apply bind_Ok in Hn as (au & Hau & Hn). apply bind_Ok in Hn as (de & Hde & Hn).
  apply bind_Ok in Hn as (ov & Hov & Hn). apply bind_Ok in Hn as (env & Henv & Hn).
  apply bind_Ok in Hn as (jc & Hjc & Hn). apply bind_Ok in Hn as (ct & Hct & [= <-]).
  split; cbn; [done| |by apply ValidateRunList_items in Hrl|by eapply class_field_legal in Hjc|by eapply class_field_legal in Hct|].
  - unfold env_field in Henv. destruct (ValidateAsFieldString _) as [v|e|]; [|case_bool_decide; by simplify_eq|done].
    destruct (ValidateEnvName v) eqn:E; by simplify_eq.
  - split_and!; eapply attributes_decoded; try eassumption; intros m Hm; by eapply Hj.
Qed.

(** So does a role, when no run list of an environment is empty. *)
Lemma uploaded_role_dumpable w (json : jmap) r :
  (∀ k m, mget k json = IMap m → decoded m) → Roles.NewFromJSON w json = Ok r →
  Forall (λ kl, kl.2 ≠ []) (r_EnvRunLists r) → role_dumpable r.
Proof.
  intros Hj Hn He. unfold Roles.NewFromJSON, Roles.New_, Roles.UpdateFromJSON in Hn.
  destruct (mget "name" json) as [| |name| | | | | | |]; try done. apply bind_Ok in Hn as (r0 & Hnew & Hn).
  apply bind_Ok in Hnew as ([|] & _ & Hnew); [done|]. destruct (ValidateDBagName name) eqn:Ev; [|done].
  injection Hnew as <-. cbn [r_Name] in Hn. case_bool_decide; [done|].
  apply bind_Ok in Hn as ([] & _ & Hn). apply bind_Ok in Hn as (rl & Hrl & Hn). apply bind_Ok in Hn as (erl & Herl & Hn).
  apply bind_Ok in Hn as (de & Hde & Hn). apply bind_Ok in Hn as (ov & Hov & Hn).
  apply bind_Ok in Hn as (jc & Hjc & Hn). apply bind_Ok in Hn as (ct & Hct & [= <-]). cbn in He.
  split; cbn; [done|by apply ValidateRunList_items in Hrl| |by eapply class_field_legal in Hjc|by eapply class_field_legal in Hct|].
  - unfold env_run_lists in Herl. destruct (mlookup "env_run_lists" json) as [[]|]; simplify_eq; [|by constructor].
    apply validate_env_lists_ok in Herl as [_ Hl]. eapply Forall_impl; [apply Forall_and; split; [exact Hl|exact He]|].
    intros kl [[? ?] ?]. by repeat split.
  - split; eapply attributes_decoded; try eassumption; intros m Hm; by eapply Hj.
Qed.
End uploaded.
