(* ===== verification/Server.v ===== *)
(** The server in front of the handlers (src/goiardi.go): cleaning the path,
    limits on the size of a request, authentication, the actor of the request,
    and the choice of the handler. *)
From S2P Require Import Prelude Gerror Iface Config Paths Store Datastore Tables UtilStrings Objects Filestore Validations.
From S2P Require Import Versioning Cookbooks CookbookDeps Deperr Flatten FileIndex Query QueryParser World Nodes Roles Environments Sandboxes Clients Users.
From S2P Require Import Actors DataBags Reports Loginfo Searches Http Authentication Statuses HandlersObj HandlersData HandlersCook Quorum Shoveys ShoveyFacts HandlersMisc HandlersSearch HandlersShovey.

Definition StatusMovedPermanently : Z := 301.
Definition StatusRequestEntityTooLarge : Z := 413.

Definition ends_in_slash (s : string) : bool :=
  match str_unsnoc s with Some (_, c) => bool_decide (c = "/"%char) | None => false end.

(** [cleanPath]. *)
Definition cleanPath (p : string) : string :=
  match p with
  | EmptyString => "/"
  | String c _ =>
      let p := if bool_decide (c = "/"%char) then p else "/" +:+ p in
      let np := path_Clean p in
      if ends_in_slash p && negb (bool_decide (np = "/")) then np +:+ "/" else np
  end.

(** * [http.ServeMux] *)

Section mux.
  Context {S T : Type}.
  Local Abbreviation H := (handler S T).

Definition route : Type := string * (Request → H ()).

(** The longest pattern that ends in a slash and begins the path. *)
Fixpoint longest (routes : list route) (path : string) (best : option route) : option route :=
  match routes with
  | [] => best
  | (p, h) :: rest =>
      longest rest path
        (if ends_in_slash p && has_prefix p path &&
            match best with Some (q, _) => (String.length q <? String.length p)%nat | None => true end
         then Some (p, h) else best)
  end.

Fixpoint exact (routes : list route) (path : string) : option (Request → H ()) :=
  match routes with
  | [] => None
  | (p, h) :: rest => if bool_decide (p = path) then Some h else exact rest path
  end.

(** A path whose pattern ends in a slash it does not have is redirected. *)
Definition mux_ServeHTTP (routes : list route) (r : Request) : H () :=
  match exact routes (r_Path r) with
  | Some h => h r
  | None =>
      match exact routes (r_Path r +:+ "/") with
      | Some _ => WriteHeader StatusMovedPermanently
      | None =>
          match longest routes (r_Path r) None with
          | Some (_, h) => h r
          | None => WriteHeader StatusNotFound
          end
      end
  end.
End mux.

Section server.
  Context (conf : Conf) {CR : Crypto} {SG : Signatures} {EN : Encoder} {GV : GVersion}.
  Context {RF : ReportFormats} {RE : Regexp} {SI : SortImpl} {PU : Pushing} {FN : FloatNotations} (uniLN : string → bool) (fuel : nat).
  Context (md5hex : string → string) {S T : Type}.
  Context {OO : StoreOps S object} {TB : TableOps S object} {TO : TrieOps T}.
  Local Abbreviation H := (handler S T).

(** The handler that is not described here: the profiling pages of
    net/http/pprof. *)
Context (pprofHandler : Request → H ()).

Definition rootHandler (r : Request) : H () := mret ().

(** The routes registered in [main]. *)
Definition routes : list (route (S := S) (T := T)) :=
  [("/authenticate_user", authenticateUserHandler conf);
   ("/clients", listHandler conf); ("/clients/", clientHandler conf);
   ("/cookbooks", cookbookHandler conf); ("/cookbooks/", cookbookHandler conf);
   ("/data", dataHandler conf); ("/data/", dataHandler conf);
   ("/environments", environmentHandler conf fuel); ("/environments/", environmentHandler conf fuel);
   ("/nodes", listHandler conf); ("/nodes/", nodeHandler conf);
   ("/principals/", principalHandler conf);
   ("/roles", listHandler conf); ("/roles/", roleHandler conf);
   ("/sandboxes", sandboxHandler conf); ("/sandboxes/", sandboxHandler conf);
   ("/search", searchHandler conf uniLN); ("/search/", searchHandler conf uniLN);
   ("/search/reindex", reindexHandler conf);
   ("/users", listHandler conf); ("/users/", userHandler conf);
   ("/file_store/", fileStoreHandler md5hex);
   ("/events", eventListHandler conf); ("/events/", eventHandler conf);
   ("/reports/", reportHandler conf); ("/universe", universeHandler conf); ("/shovey/", shoveyHandler conf);
   ("/status/", statusHandler conf); ("/", rootHandler); ("/debug/pprof/", pprofHandler)].

(** Who may not see the profiling pages. *)
Definition debug_blocked (r : Request) : bool :=
  match r_remote r with
  | Some rIP =>
      negb (p_IsLoopback rIP) && negb (p_IsLoopback (r_forwarded r)) &&
      negb (p_PprofWhitelisted rIP) && negb (p_PprofWhitelisted (r_forwarded r))
  | None => true
  end.

Definition clean_request (r : Request) : Request :=
  if bool_decide (r_Method r = OTHER "CONNECT") then r else set_path r (cleanPath (r_Path r)).

(** [http.Error] followed by [return]. *)
Definition http_Error {A} (text : string) (st : Z) : H A :=
  WriteHeader st ;; Encode (BBytes text) ;; stop.

Definition too_long (r : Request) : bool := (JSONReqMaxSize conf <? r_ContentLength r)%Z.

Definition in_file_store (r : Request) : bool := has_prefix "/file_store" (r_Path r).

(** A request of the web interface is checked as that of "chef-webui", once
    the user it speaks for is known to exist. *)
Definition checked_user (r : Request) : H string :=
  let userID := Header_Get r "X-Ops-Userid" in
  if bool_decide (Header_Get r "X-Ops-Request-Source" = "web") then
    if DisableWebUI conf then jsonErrorReport "invalid action" StatusUnauthorized
    else
      ask (λ w, GetReqUser conf w userID) (λ _, jsonErrorReport "invalid action" StatusUnauthorized) ;;
      mret "chef-webui"
  else mret userID.

(** The requests that need no signature. *)
Definition unsigned (r : Request) : bool :=
  in_file_store r || has_prefix "/debug" (r_Path r)
  || (has_prefix "/principals" (r_Path r) && bool_decide (r_Method r = GET)).

Definition noOpUserReqs : list string :=
  ["/authenticate_user"; "/file_store"; "/universe"; "/principals"; "/debug"].

(** The request with its actor in the context. *)
Definition with_actor (r : Request) : H Request :=
  if existsb (λ p, has_prefix p (r_Path r)) noOpUserReqs then mret r
  else
    opUser ← ask (λ w, GetReqUser conf w (Header_Get r "X-Ops-Userid")) report_status;
    mret (set_opUser r (Some opUser)).

(** [interceptHandler.ServeHTTP]. *)
Definition ServeHTTP (r : Request) : H () :=
  (if has_prefix "/debug" (r_Path r) && debug_blocked r then http_Error "Forbidden!" StatusForbidden else mret ()) ;;
  let r := set_opUser (clean_request r) None in
  if negb (in_file_store r) && too_long r then http_Error "Content-length too long!" StatusRequestEntityTooLarge
  else if (ObjMaxSize conf <? r_ContentLength r)%Z
  then http_Error "Content-length waaaaaay too long!" StatusRequestEntityTooLarge
  else
    userID ← checked_user r;
    (if UseAuth conf && negb (unsigned r)
     then ask (λ w, CheckHeader conf w userID r) report_status else mret ()) ;;
    (match r_gunzip r with
     | Some e => if bool_decide (Header_Get r "Content-Encoding" = "gzip") then jsonErrorReport e StatusBadRequest
                 else mret ()
     | None => mret ()
     end) ;;
    r ← with_actor r;
    mux_ServeHTTP routes r.
End server.
