(* ===== verification/Effects.v ===== *)
(** What requests do to the state: the changes the request handlers make, each
    with the rights it takes, and the proof that every handler makes only such
    changes, in whatever way it ends. *)
From S2P Require Import Prelude Gerror Iface Config Store Datastore Tables UtilStrings Objects Filestore Validations.
From S2P Require Import Versioning Cookbooks CookbookFacts CookbookSafety CookbookDeps Deperr Flatten FileIndex World Nodes Roles Environments Sandboxes Clients Users.
From S2P Require Import Actors DataBags Reports Loginfo Searches Http Authentication Statuses HandlersObj HandlersData HandlersCook Quorum Shoveys ShoveyFacts HandlersMisc HandlersSearch HandlersShovey Server.

Section effects.
  Context (conf : Conf) {CR : Crypto} {EN : Encoder} {GV : GVersion} (fuel : nat).
  Context (md5hex : string → string) {S T : Type}.
  Context {OO : StoreOps S object} {TB : TableOps S object} {TO : TrieOps T}.
  Implicit Types (w : world S T) (σ : hstate S T) (r : Request) (a : Actor).

(** A request that may change something. *)
Definition writes r : Prop := r_Method r ≠ GET ∧ r_Method r ≠ HEAD.

Definition admin a : Prop := IsAdmin conf a = true.

(** The actor is the client, or the user, of that name. *)
Definition self_client a (c : Client) : Prop := IsSelf conf a (AClient c) = true.
Definition self_user a (u : User) : Prop := IsSelf conf a (AUser u) = true.

(** A user that is no administrator, or is one because the actor, whose user
    it is, was one when the request came in. *)
Definition keeps_admin a (wi : world S T) (u : User) : Prop :=
  u_Admin u = false ∨ ∃ u0 name, Users.Get wi name = Ok u0 ∧ self_user a u0 ∧ u_Admin u = u_Admin u0.

(** A job that the actor makes, as an administrator, or one that was there with
    the same command. *)
Definition may_save_job a (wi : world S T) (s : Shovey) : Prop :=
  admin a ∨ ∃ id s0, Shoveys.Get wi id = Ok s0 ∧ sh_RunID s = sh_RunID s0 ∧ sh_Command s = sh_Command s0.

(** One change, made for an actor while a request is handled that found the
    server in the state [wi]. *)
Inductive effect r a (wi : world S T) : world S T → world S T → Prop :=
(* Tables *)
| ef_log w o action w' : writes r → LogEvent conf w a o action (r_now r) = Ok w' → effect r a wi w w'
| ef_latest w n : effect r a wi w (LatestStatus w n).2
| ef_status w n : writes r → n_isDown n = false → effect r a wi w (UpdateStatus conf w n "new" (r_now r)).2
| ef_purge w id n s : writes r → admin a → PurgeLogInfos (sto w) id = Ok (n, s) → effect r a wi w (set_sto w s)
| ef_log_delete w le s : writes r → admin a → Loginfo.Delete (sto w) le = Ok s → effect r a wi w (set_sto w s)
| ef_report w rep : writes r → effect r a wi w (set_sto w (Reports.Save (sto w) rep))
(* Pushed jobs *)
| ef_shovey w s : writes r → may_save_job a wi s → effect r a wi w (set_sto w (store (sto w) s))
| ef_shovey_run w sr : writes r → effect r a wi w (save_run w sr)
| ef_shovey_stream w (ss : ShoveyRunStream) : writes r → effect r a wi w (set_sto w (store (sto w) ss))
| ef_tasks w l : writes r → effect r a wi w (set_tasks w l)
(* Nodes and roles *)
| ef_node_save w n :
    writes r → admin a ∨ is_node_client a (n_Name n) = true ∨
      (a_IsValidator conf a = false ∧ ∃ json, Nodes.NewFromJSON w json = Ok n) →
    effect r a wi w (Nodes.Save conf w n)
| ef_node_delete w n name :
    writes r → admin a ∨ is_node_client a name = true → Nodes.Get w name = Ok n → effect r a wi w (Nodes.Delete w n)
| ef_role_save w ro : writes r → admin a → effect r a wi w (Roles.Save conf w ro)
| ef_role_delete w ro : writes r → admin a → effect r a wi w (Roles.Delete w ro)
(* Environments *)
| ef_env_save w e w' : writes r → admin a → Environments.Save conf w e = Ok w' → effect r a wi w w'
| ef_env_delete w e w' : writes r → admin a → Environments.Delete w e = Ok w' → effect r a wi w w'
(* Data bags *)
| ef_bag_new w name w' db : writes r → admin a → DataBags.New_ w name = Ok (w', db) → effect r a wi w w'
| ef_bag_save w db : writes r → admin a → effect r a wi w (DataBags.Save w db)
| ef_bag_delete w db : writes r → admin a → effect r a wi w (DataBags.Delete w db)
| ef_item_new w db raw w' db' dbi :
    writes r → admin a → NewDBItem conf w db raw = Ok (w', db', dbi) → effect r a wi w w'
| ef_item_update w db name raw w' db' dbi :
    writes r → admin a → UpdateDBItem conf w db name raw = Ok (w', db', dbi) → effect r a wi w w'
| ef_item_delete w db name : writes r → admin a → effect r a wi w (DeleteDBItem w db name).1
(* Sandboxes and files *)
| ef_sandbox_save w sb : writes r → admin a → effect r a wi w (set_sto w (Sandboxes.Save (sto w) sb))
| ef_file_save w chksum f :
    writes r → is_ok (Filestore.Get (sto w) chksum) = false →
    Filestore.New_ md5hex (sto w) chksum (r_Content r) (r_ContentLength r) = Ok f →
    effect r a wi w (set_sto w (Filestore.Save (sto w) f))
(* Clients *)
| ef_client_save w c w' :
    writes r → c_Admin c && c_Validator c = false →
    admin a ∨ (c_Admin c = false ∧ (self_client a c ∨ st_get (sto w) "client" (c_Name c) = Ok None)) →
    Clients.Save conf w c = Ok w' → effect r a wi w w'
| ef_client_delete w c w' :
    writes r → admin a ∨ self_client a c → Clients.Delete w c = Ok w' → effect r a wi w w'
| ef_client_rename w c n w' c' :
    writes r → admin a ∨ self_client a c → Clients.Rename w c n = Ok (w', c') → effect r a wi w w'
(* Users *)
| ef_user_save w u w' :
    writes r → admin a ∨ (keeps_admin a wi u ∧ (self_user a u ∨ st_get (sto w) "user" (u_Username u) = Ok None)) →
    Users.Save w u = Ok w' → effect r a wi w w'
| ef_user_delete w u w' :
    writes r → admin a ∨ self_user a u → Users.Delete w u = Ok w' → effect r a wi w w'
| ef_user_rename w name u n w' u' :
    writes r → admin a ∨ self_user a u → Users.Get w name = Ok u → Users.Rename w u n = Ok (w', u') → effect r a wi w w'
(* Cookbooks *)
| ef_cookbook_new w name cb :
    writes r → admin a → Cookbooks.New_ (sto w) name = Ok cb → effect r a wi w (set_sto w (Cookbooks.Save (sto w) cb))
| ef_cookbook_delete w cb : writes r → admin a → effect r a wi w (set_sto w (Cookbooks.Delete (sto w) cb))
| ef_version_new w cb ver data s c' cbv :
    writes r → admin a → (∃ name, Cookbooks.Get (sto w) name = Ok (Some cb)) ∨ cb_Versions cb = [] →
    NewVersion conf (sto w) cb ver data = Ok (s, c', cbv) → effect r a wi w (set_sto w s)
| ef_version_update w name cb ver cbv data s cbv' :
    writes r → admin a → Cookbooks.Get (sto w) name = Ok (Some cb) → mlookup ver (cb_Versions cb) = Some cbv →
    UpdateVersion conf (sto w) cbv data (force_of r) = Ok (s, cbv') →
    effect r a wi w (set_sto w (Cookbooks.Save s (set_versions cb (mset ver cbv' (cb_Versions cb)))))
| ef_version_delete w name cb ver cbv s c' :
    writes r → admin a → Cookbooks.Get (sto w) name = Ok (Some cb) → GetVersion cb ver = Ok (cbv, cb) →
    DeleteVersion (sto w) cb ver = Ok (s, c') → effect r a wi w (set_sto w s).

Definition effects r a wi : world S T → world S T → Prop := rtc (effect r a wi).

(** The handler, run for an actor, makes only such changes. *)
Definition lawful {A} r a wi (h : handler S T A) : Prop :=
  ∀ σ, effects r a wi wi (hs_world σ) → wp h (λ _ σ', effects r a wi wi (hs_world σ')) σ.

Lemma writes_put r : r_Method r = PUT → writes r.
Proof. intros E. split; rewrite E; discriminate. Qed.
Lemma writes_post r : r_Method r = POST → writes r.
Proof. intros E. split; rewrite E; discriminate. Qed.
Lemma writes_delete r : r_Method r = DELETE → writes r.
Proof. intros E. split; rewrite E; discriminate. Qed.

(** The actor may touch the client, or the user. *)
Lemma self_or_admin a b : negb (IsAdmin conf a) && negb (IsSelf conf a b) = false → admin a ∨ IsSelf conf a b = true.
Proof. unfold admin. destruct (IsAdmin conf a); [by left|]. simpl. intros H%negb_false_iff. by right. Qed.

(** The rules of the handlers' state changes, with the effect they make. *)
Section rules.
  Context (r : Request) (a : Actor) (wi : world S T).

Lemma ef_change f h (Q : hout () → hstate S T → Prop) σ :
  effects r a wi wi (hs_world σ) → (∀ w', f (hs_world σ) = Ok w' → effect r a wi (hs_world σ) w') →
  (∀ w', f (hs_world σ) = Ok w' → effects r a wi wi w' → Q (HVal ()) {| hs_world := w'; hs_resp := hs_resp σ |}) →
  (∀ e, f (hs_world σ) = Err e → wp (h e) Q σ) →
  (∀ p, f (hs_world σ) = Panic p → Q (HPanic p) σ) →
  wp (change f h) Q σ.
Proof. intros Hr He H1 H2 H3. apply wp_change; [|done..]. intros w' E. apply H1; [done|]. eapply rtc_r; eauto. Qed.

Lemma ef_change_with {A} f h (Q : hout A → hstate S T → Prop) σ :
  effects r a wi wi (hs_world σ) → (∀ w' x, f (hs_world σ) = Ok (w', x) → effect r a wi (hs_world σ) w') →
  (∀ w' x, f (hs_world σ) = Ok (w', x) → effects r a wi wi w' → Q (HVal x) {| hs_world := w'; hs_resp := hs_resp σ |}) →
  (∀ e, f (hs_world σ) = Err e → wp (h e) Q σ) →
  (∀ p, f (hs_world σ) = Panic p → Q (HPanic p) σ) →
  wp (change_with f h) Q σ.
Proof. intros Hr He H1 H2 H3. apply wp_change_with; [|done..]. intros w' x E. apply H1; [done|]. eapply rtc_r; eauto. Qed.

Lemma ef_act {A} f h (Q : hout A → hstate S T → Prop) σ :
  effects r a wi wi (hs_world σ) → effect r a wi (hs_world σ) (f (hs_world σ)).2 →
  (∀ x w', f (hs_world σ) = (Ok x, w') → effects r a wi wi w' → Q (HVal x) {| hs_world := w'; hs_resp := hs_resp σ |}) →
  (∀ e w', f (hs_world σ) = (Err e, w') → effects r a wi wi w' → wp (h e) Q {| hs_world := w'; hs_resp := hs_resp σ |}) →
  (∀ p w', f (hs_world σ) = (Panic p, w') → effects r a wi wi w' → Q (HPanic p) {| hs_world := w'; hs_resp := hs_resp σ |}) →
  wp (act f h) Q σ.
Proof.
  intros Hr He H1 H2 H3.
  assert (∀ o w', f (hs_world σ) = (o, w') → effects r a wi wi w') as Hw.
  { intros o w' E. rewrite E in He. by eapply rtc_r. }
  apply wp_act; eauto.
Qed.

(** A lawful part of a handler. *)
Lemma lawful_part {A} (h : handler S T A) (Q : hout A → hstate S T → Prop) σ :
  lawful r a wi h → effects r a wi wi (hs_world σ) →
  (∀ o σ', effects r a wi wi (hs_world σ') → Q o σ') → wp h Q σ.
Proof. intros Hl Hr HQ. eapply wp_mono; [by apply Hl|done]. Qed.
End rules.
End effects.

Create HintDb effect.
#[export] Hint Resolve writes_put writes_post writes_delete : effect.

(** Tests, as facts. *)
Ltac facts :=
  repeat match goal with
  | H : negb _ = true |- _ => apply negb_true_iff in H
  | H : negb _ = false |- _ => apply negb_false_iff in H
  | H : _ || _ = false |- _ => apply orb_false_iff in H; destruct H
  | H : context [bool_decide (?x = ?y :> method)] |- _ =>
      first [rewrite (bool_decide_eq_false_2 (x = y)) in H by discriminate
            |rewrite (bool_decide_eq_true_2 (x = y)) in H by reflexivity]
  | H : context [negb true] |- _ => change (negb true) with false in H
  | H : context [negb false] |- _ => change (negb false) with true in H
  | H : _ && true = _ |- _ => rewrite andb_true_r in H
  | H : true && _ = _ |- _ => rewrite andb_true_l in H
  | H : negb (IsAdmin _ _) && negb (IsSelf _ _ _) = false |- _ => apply self_or_admin in H
  | H : _ && _ = true |- _ => apply andb_true_iff in H; destruct H
  | H : bool_decide _ = true |- _ => apply bool_decide_eq_true in H
  | H : bool_decide _ = false |- _ => apply bool_decide_eq_false in H
  end.

(** One step of a handler, with its effect on the state. *)
Ltac estep :=
  match goal with
  | |- wp (change _ _) _ _ =>
      eapply ef_change; cbn [then_ hs_world hs_resp];
      [eassumption
      |let w := fresh "w" in let E := fresh "E" in intros w E
      |let w := fresh "w" in let E := fresh "E" in let Hr := fresh "Hr" in intros w E Hr
      |let e := fresh "e" in let E := fresh "E" in intros e E
      |let p := fresh "p" in let E := fresh "E" in intros p E]
  | |- wp (change_with _ _) _ _ =>
      eapply ef_change_with; cbn [then_ hs_world hs_resp];
      [eassumption
      |let w := fresh "w" in let x := fresh "x" in let E := fresh "E" in intros w x E
      |let w := fresh "w" in let x := fresh "x" in let E := fresh "E" in let Hr := fresh "Hr" in intros w x E Hr
      |let e := fresh "e" in let E := fresh "E" in intros e E
      |let p := fresh "p" in let E := fresh "E" in intros p E]
  | |- wp (act _ _) _ _ =>
      eapply ef_act; cbn [then_ hs_world hs_resp];
      [eassumption
      |
      |let w := fresh "w" in let x := fresh "x" in let E := fresh "E" in let Hr := fresh "Hr" in intros x w E Hr
      |let w := fresh "w" in let e := fresh "e" in let E := fresh "E" in let Hr := fresh "Hr" in intros e w E Hr
      |let w := fresh "w" in let p := fresh "p" in let E := fresh "E" in let Hr := fresh "Hr" in intros p w E Hr]
  | |- wp (logged _ _ _ _ _) _ _ => unfold logged
  | |- wp (report_as _ _) _ _ => unfold report_as
  | |- wp (report_status _) _ _ => unfold report_status
  | |- wp (fail500 _) _ _ => unfold fail500, report_as
  | |- wp (report_on _ _) _ _ => unfold report_on
  | |- wp (list_of _ _ _) _ _ => unfold list_of
  | |- wp (let _ := _ in _) _ _ => cbv zeta
  | |- wp _ _ _ => hstep
  end.

(** * What the changes leave alone *)

Section footprint.
  Context {S : Type} {OO : StoreOps S object} {L : StoreLaws S object}.

(** Only objects of the given types may differ. *)
Definition frame (ts : list string) (s s' : S) : Prop :=
  st_inv s → st_inv s' ∧ ∀ t k, obj_type t = true → t ∉ ts → st_get s' t k = st_get s t k.

Lemma frame_refl ts s : frame ts s s.
Proof. done. Qed.

Lemma frame_trans ts s1 s2 s3 : frame ts s1 s2 → frame ts s2 s3 → frame ts s1 s3.
Proof.
  intros H1 H2 Hi. destruct (H1 Hi) as [Hi2 Hg2]. destruct (H2 Hi2) as [Hi3 Hg3]. split; [done|].
  intros t k Ht Hn. by rewrite Hg3, Hg2.
Qed.

Lemma frame_weaken ts ts' s s' : ts ⊆ ts' → frame ts s s' → frame ts' s s'.
Proof. intros Hs Hf Hi. destruct (Hf Hi) as [? Hg]. split; [done|]. intros t k Ht Hn. apply Hg; set_solver. Qed.

Lemma set_frame ts s t k v : obj_type t = true → t ∈ ts → frame ts s (st_set s t k v).
Proof.
  intros Ht Hin Hi. split; [by apply st_set_inv|]. intros t' k' Ht' Hn. rewrite st_get_set by done.
  by rewrite bool_decide_false by (intros [-> _]; done).
Qed.

Lemma del_frame ts s t k : obj_type t = true → t ∈ ts → frame ts s (st_del s t k).
Proof.
  intros Ht Hin Hi. split; [by apply st_del_inv|]. intros t' k' Ht' Hn. rewrite st_get_del by done.
  by rewrite bool_decide_false by (intros [-> _]; done).
Qed.

Lemma store_frame `{Stored A} {SL : StoredLaws A} ts s (a : A) : s_type A ∈ ts → frame ts s (store s a).
Proof. apply set_frame, s_type_ok. Qed.

Lemma unstore_frame `{Stored A} {SL : StoredLaws A} ts s k : s_type A ∈ ts → frame ts s (unstore (A := A) s k).
Proof. apply del_frame, s_type_ok. Qed.

Lemma keeps_frame ts s s' : keeps_objects s s' → frame ts s s'.
Proof. intros Hk Hi. destruct (Hk Hi) as [? Hs]. split; [done|]. intros t k Ht _. by apply Hs. Qed.

Lemma DeleteHashes_frame ts s hs s' : "filestore" ∈ ts → Filestore.DeleteHashes s hs = Ok s' → frame ts s s'.
Proof.
  intros Hin. revert s. induction hs as [|h hs IH]; intros s Hd; simpl in Hd; [injection Hd as <-; apply frame_refl|].
  destruct (Filestore.Get s h) as [f| |]; [|by apply IH|done].
  eapply frame_trans; [|by apply IH]. by apply del_frame.
Qed.
End footprint.

Ltac in_types := first [assumption|solve [repeat first [apply list_elem_of_here|apply list_elem_of_further]]].

Definition all_types : list string :=
  ["node"; "role"; "env"; "data_bag"; "sandbox"; "filestore"; "client"; "user"; "cookbook"; "report";
   "shovey"; "shovey_run"; "shovey_run_stream"].
Definition shared_types : list string :=
  ["node"; "filestore"; "client"; "user"; "report"; "shovey"; "shovey_run"; "shovey_run_stream"].

Section frames.
  Context (conf : Conf) {CR : Crypto} {EN : Encoder} {GV : GVersion}.
  Context (md5hex : string → string) {S T : Type}.
  Context {OO : StoreOps S object} {L : StoreLaws S object} {TB : TableOps S object} {TL : TableLaws S object}.
  Context {TO : TrieOps T}.
  Implicit Types (w : world S T) (r : Request) (a : Actor).

Lemma LogEvent_keeps w a o action now w' :
  LogEvent conf w a o action now = Ok w' →
  keeps_objects (sto w) (sto w') ∧ index w' = index w ∧ pending w' = pending w ∧ tasks w' = tasks w.
Proof.
  unfold LogEvent. destruct (negb (LogEvents conf)); [intros [= <-]; by split_and!|].
  intros (s & Hs & [= <-])%bind_Ok. split_and!; [by eapply tb_set_log_keeps|done..].
Qed.

Lemma LatestStatus_keeps w n :
  keeps_objects (sto w) (sto (LatestStatus w n).2) ∧ index (LatestStatus w n).2 = index w ∧
  pending (LatestStatus w n).2 = pending w ∧ tasks (LatestStatus w n).2 = tasks w.
Proof.
  unfold LatestStatus. pose proof (tb_latest_keeps (sto w) (n_Name n)) as Hk.
  destruct (tb_latest (sto w) (n_Name n)). by split_and!.
Qed.

Lemma new_status_keeps w n now :
  n_isDown n = false → keeps_objects (sto w) (sto (UpdateStatus conf w n "new" now).2).
Proof.
  intros Hd. unfold UpdateStatus, record_status. rewrite Hd. simpl.
  destruct (tb_set_status _ _ _) eqn:E; [by eapply tb_set_status_keeps|done..].
Qed.

Lemma DeleteDBItem_frame ts w db name : "data_bag" ∈ ts → frame ts (sto w) (sto (DeleteDBItem w db name).1).
Proof. intros. unfold DeleteDBItem. simpl. by apply (store_frame (A := DataBag)). Qed.

Lemma delete_items_frame ts w db names : "data_bag" ∈ ts → frame ts (sto w) (sto (delete_items w db names).1).
Proof.
  intros Hin. revert w db. induction names as [|n names IH]; intros w db; [apply frame_refl|].
  cbn [delete_items]. pose proof (DeleteDBItem_frame ts w db n Hin) as Hf.
  destruct (DeleteDBItem w db n) as [w1 db1]. eapply frame_trans; [exact Hf|apply IH].
Qed.

Lemma bag_delete_frame ts w db : "data_bag" ∈ ts → frame ts (sto w) (sto (DataBags.Delete w db)).
Proof.
  intros Hin. unfold DataBags.Delete. pose proof (delete_items_frame ts w db (ListDBItems db) Hin) as Hf.
  destruct (delete_items w db (ListDBItems db)) as [w1 db1]. eapply frame_trans; [exact Hf|].
  unfold w_DeleteCollection. destruct (FileIndex.DeleteCollection _ _); simpl; by apply (unstore_frame (A := DataBag)).
Qed.

Lemma env_save_store w e w' : Environments.Save conf w e = Ok w' → sto w' = store (sto w) e.
Proof. unfold Environments.Save. case_bool_decide; [done|]. by intros [= <-]. Qed.

Lemma env_delete_store w e w' :
  Environments.Delete w e = Ok w' → sto w' = unstore (A := ChefEnvironment) (sto w) (e_Name e).
Proof. unfold Environments.Delete. case_bool_decide; [done|]. by intros [= <-]. Qed.

Lemma bag_new_store w name w' db : DataBags.New_ w name = Ok (w', db) → sto w' = sto w.
Proof.
  unfold DataBags.New_. intros ([] & _ & Hn)%bind_Ok. apply bind_Ok in Hn as ([] & _ & Hn); [done|].
  by injection Hn as <- _.
Qed.

Lemma item_new_store w db raw w' db' dbi : NewDBItem conf w db raw = Ok (w', db', dbi) → sto w' = store (sto w) db'.
Proof.
  unfold NewDBItem. destruct (mget "id" raw); try done. case_bool_decide; [done|].
  intros ([] & _ & Hn)%bind_Ok. destruct (GetDBItem db s); [done|by injection Hn as <- <- <-..].
Qed.

Lemma item_update_store w db name raw w' db' dbi :
  UpdateDBItem conf w db name raw = Ok (w', db', dbi) → sto w' = store (sto w) db'.
Proof. unfold UpdateDBItem. intros (? & _ & [= <- <- <-])%bind_Ok. done. Qed.

Lemma UpdateVersion_frame ts s cbv data force s' cbv' :
  "filestore" ∈ ts → UpdateVersion conf s cbv data force = Ok (s', cbv') → frame ts s s'.
Proof.
  intros Hin Hu. apply UpdateVersion_inv in Hu as [_ [[_ ->]|(_ & cb & _ & Hd)]]; [apply frame_refl|].
  unfold deleteHashes in Hd. apply bind_Ok in Hd as (ac & _ & Hd). by eapply DeleteHashes_frame.
Qed.

Lemma NewVersion_frame ts s c ver data s' c' cbv :
  "filestore" ∈ ts → "cookbook" ∈ ts → NewVersion conf s c ver data = Ok (s', c', cbv) → frame ts s s'.
Proof.
  intros Hf Hc. unfold NewVersion. destruct (GetVersion c ver); [done| |done].
  intros ([s1 v1] & Hu & (c1 & _ & [= <- <- <-])%bind_Ok)%bind_Ok.
  eapply frame_trans; [by eapply UpdateVersion_frame|]. by apply set_frame.
Qed.

Lemma DeleteVersion_frame ts s c ver s' c' :
  "filestore" ∈ ts → "cookbook" ∈ ts → DeleteVersion s c ver = Ok (s', c') → frame ts s s'.
Proof.
  intros Hf Hc. unfold DeleteVersion. destruct (GetVersion c ver) as [[cbv c1]| |]; [|done..].
  intros (s1 & Hd & [= <- _])%bind_Ok. unfold deleteHashes in Hd. apply bind_Ok in Hd as (ac & _ & Hd).
  eapply frame_trans; [|by eapply DeleteHashes_frame]. by apply set_frame.
Qed.
End frames.

Ltac solve_frame :=
  match goal with
  | |- frame _ _ (store _ _) => apply store_frame; in_types
  | |- frame _ _ (unstore _ _) => apply unstore_frame; in_types
  | |- frame _ _ (st_set _ _ _ _) => apply set_frame; [reflexivity|in_types]
  | |- frame _ _ (st_del _ _ _) => apply del_frame; [reflexivity|in_types]
  | |- frame _ ?s ?s => apply frame_refl
  | |- frame _ _ (sto (DataBags.Delete _ _)) => apply bag_delete_frame; in_types
  | H : DeleteVersion _ _ _ = Ok _ |- _ => eapply DeleteVersion_frame; [in_types..|exact H]
  | H : NewVersion _ _ _ _ _ = Ok _ |- _ => eapply NewVersion_frame; [in_types..|exact H]
  | H : UpdateVersion _ _ _ _ _ = Ok _ |- _ =>
      eapply frame_trans; [eapply UpdateVersion_frame; [in_types|exact H]|apply set_frame; [reflexivity|in_types]]
  end.

(** What the changes do to the store. *)
Ltac store_facts :=
  repeat match goal with
  | H : LogEvent _ _ _ _ _ _ = Ok _ |- _ =>
      let K := fresh "K" in pose proof (LogEvent_keeps _ _ _ _ _ _ _ H) as [K _]; clear H
  | H : Environments.Save _ _ _ = Ok _ |- _ => apply env_save_store in H; rewrite H
  | H : Environments.Delete _ _ = Ok _ |- _ => apply env_delete_store in H; rewrite H
  | H : DataBags.New_ _ _ = Ok _ |- _ => apply bag_new_store in H; rewrite H
  | H : NewDBItem _ _ _ _ = Ok _ |- _ => apply item_new_store in H; rewrite H
  | H : UpdateDBItem _ _ _ _ _ = Ok _ |- _ => apply item_update_store in H; rewrite H
  | H : Clients.Save _ _ _ = Ok _ |- _ => apply client_save_store in H as [H ?]; rewrite H
  | H : Clients.Delete _ _ = Ok _ |- _ => apply client_delete_store in H as [H _]; rewrite H
  | H : Clients.Rename _ _ _ = Ok _ |- _ => apply client_rename_store in H; rewrite H
  | H : Users.Save _ _ = Ok _ |- _ => apply user_save_store in H as [H ?]; rewrite H
  | H : Users.Delete _ _ = Ok _ |- _ => apply user_delete_store in H as [H _]; rewrite H
  | H : Users.Rename _ _ _ = Ok _ |- _ => apply user_rename_store in H as (H & _); rewrite H
  end.

Section effect_frames.
  Context (conf : Conf) {CR : Crypto} {EN : Encoder} {GV : GVersion}.
  Context (md5hex : string → string) {S T : Type}.
  Context {OO : StoreOps S object} {L : StoreLaws S object} {TB : TableOps S object} {TL : TableLaws S object}.
  Context {TO : TrieOps T}.
  Implicit Types (w wi : world S T) (r : Request) (a : Actor).

(** Those who are not administrators change nodes, clients, users and files
    at most. *)
Lemma effect_frame r a wi w w' :
  effect conf md5hex r a wi w w' → frame (if IsAdmin conf a then all_types else shared_types) (sto w) (sto w').
Proof.
  assert (admin conf a → IsAdmin conf a = true) as Ha by done.
  assert (shared_types ⊆ if IsAdmin conf a then all_types else shared_types) as Hs.
  { unfold shared_types, all_types. destruct (IsAdmin conf a); set_solver. }
  assert ("client" ∈ shared_types ∧ "user" ∈ shared_types ∧ "node" ∈ shared_types ∧ "filestore" ∈ shared_types ∧
    "report" ∈ shared_types ∧ "shovey" ∈ shared_types ∧ "shovey_run" ∈ shared_types ∧ "shovey_run_stream" ∈ shared_types) as Ht
    by (unfold shared_types; set_solver).
  destruct Ht as (?%Hs & ?%Hs & ?%Hs & ?%Hs & ?%Hs & ?%Hs & ?%Hs & ?%Hs).
  intros He. destruct He; simpl; store_facts;
    try match goal with H : admin conf a |- _ => rewrite (Ha H) in *; unfold all_types end.
  all: try by (apply keeps_frame; eauto using tb_purge_keeps, tb_delete_log_keeps, new_status_keeps).
  all: unfold save_run, Sandboxes.Save, Reports.Save, Filestore.Save, Cookbooks.Save, Cookbooks.Delete; try solve_frame.
  apply keeps_frame, LatestStatus_keeps.
Qed.

Lemma effect_inv r a wi w w' : effect conf md5hex r a wi w w' → st_inv (sto w) → st_inv (sto w').
Proof. intros He Hi. by apply (effect_frame _ _ _ _ _ He). Qed.

Lemma effects_inv r a wi w w' : effects conf md5hex r a wi w w' → st_inv (sto w) → st_inv (sto w').
Proof. induction 1; eauto using effect_inv. Qed.

(** A request that only reads changes no object and nothing of the index. *)
Lemma effect_read r a wi w w' :
  effect conf md5hex r a wi w w' → ¬ writes r →
  keeps_objects (sto w) (sto w') ∧ index w' = index w ∧ pending w' = pending w ∧ tasks w' = tasks w.
Proof. intros He Hr. destruct He; try done. apply LatestStatus_keeps. Qed.

Lemma effects_read r a wi w w' :
  effects conf md5hex r a wi w w' → ¬ writes r →
  keeps_objects (sto w) (sto w') ∧ index w' = index w ∧ pending w' = pending w ∧ tasks w' = tasks w.
Proof.
  intros He Hr. induction He as [|w1 w2 w3 He _ (Hk & Hx & Hp & Ht)]; [by split_and!|].
  destruct (effect_read _ _ _ _ _ He Hr) as (Hk' & Hx' & Hp' & Ht'). split_and!; [|congruence..].
  intros Hi1. destruct (Hk' Hi1) as [Hi2 Hs2]. destruct (Hk Hi2) as [Hi3 Hs3]. split; [done|].
  intros t k Hty. by rewrite Hs3, Hs2.
Qed.
End effect_frames.
