(* ===== verification/Lawful.v ===== *)
(** Every request handler makes only the changes of Effects.v, in whatever way
    it ends. *)
From S2P Require Import Prelude Gerror Iface Config Store Datastore Tables UtilStrings Objects Filestore Validations.
From S2P Require Import Versioning Cookbooks CookbookFacts CookbookSafety CookbookDeps Deperr Flatten FileIndex World Nodes Roles Environments Sandboxes Clients Users.
From S2P Require Import Actors DataBags Reports Loginfo Searches Http Authentication Statuses HandlersObj HandlersData HandlersCook Quorum Shoveys ShoveyFacts HandlersMisc HandlersSearch HandlersShovey Server Effects.

(** Effects that follow from the rights alone. *)
Ltac by_rights :=
  repeat match goal with
  | H : _ ≫= _ = Ok _ |- effect _ _ _ _ _ _ _ => apply bind_Ok in H as (? & ? & H)
  | H : (let '(_, _) := ?p in _) = Ok _ |- _ => destruct p
  end;
  simplify_eq; facts; unfold admin, self_client, self_user in *;
  first [by (eapply ef_log; [eauto with effect|eassumption])
        |by (econstructor; eauto with effect)].

Section nodes_roles.
  Context (conf : Conf) {CR : Crypto} {EN : Encoder} {GV : GVersion} (fuel : nat).
  Context (md5hex : string → string) {S T : Type}.
  Context {OO : StoreOps S object} {TB : TableOps S object} {TO : TrieOps T}.
  Implicit Types (r : Request) (a : Actor) (wi : world S T).

Lemma node_update_name n json n' :
  Nodes.UpdateFromJSON n json = Ok n' → ValidateAsString (mget "name" json) = Ok (n_Name n').
Proof.
  unfold Nodes.UpdateFromJSON. intros (name & Hn & Hu)%bind_Ok. case_bool_decide as E; [done|].
  repeat (apply bind_Ok in Hu as (? & _ & Hu)). injection Hu as <-. simpl. rewrite Hn. f_equal.
  by destruct (decide (n_Name n = name)).
Qed.

Lemma mget_mset k v (m : jmap) : mget k (mset k v m) = v.
Proof. unfold mget. by rewrite mlookup_mset, bool_decide_true. Qed.

Lemma node_lawful r a wi : r_opUser r = Some a → lawful conf md5hex r a wi (nodeHandler conf r).
Proof.
  intros Ha σ Hr. unfold nodeHandler. repeat estep; try eassumption.
  all: simplify_eq; try by (eapply ef_log; [facts; eauto with effect|eassumption]).
  all: match goal with
       | Hb : negb _ && negb _ = false, Hu : Nodes.UpdateFromJSON _ _ = Ok ?n |- effect _ _ _ _ _ _ (Nodes.Save _ _ ?n) =>
           apply ef_node_save; [facts; eauto with effect|]; apply node_update_name in Hu
       | |- effect _ _ _ _ _ _ (Nodes.Delete _ _) => eapply ef_node_delete; [facts; eauto with effect| |eassumption]
       end.
  all: generalize dependent (str_from 7 (r_Path r)); intros name **; cbn [nread] in *.
  all: destruct (IsAdmin conf a) eqn:Hadm; [by left|right]; cbn [negb andb] in *;
    rewrite ?mget_mset, ?andb_false_r, ?andb_true_r in *; facts;
    cbn [ValidateAsString] in *; simplify_eq; first [done|left; congruence].
Qed.
Lemma role_lawful r a wi : r_opUser r = Some a → lawful conf md5hex r a wi (roleHandler conf r).
Proof.
  intros Ha σ Hr. unfold roleHandler, role_put, role_environments. repeat estep; try eassumption.
  all: by_rights.
Qed.

Lemma sandbox_lawful r a wi : r_opUser r = Some a → lawful conf md5hex r a wi (sandboxHandler conf r).
Proof.
  intros Ha σ Hr. unfold sandboxHandler, good_checksums. repeat estep; try eassumption.
  all: by_rights.
Qed.

Lemma file_lawful r a wi : lawful conf md5hex r a wi (fileStoreHandler md5hex r).
Proof.
  intros σ Hr. unfold fileStoreHandler. repeat estep; try eassumption; simplify_eq.
  all: eapply ef_file_save; [eauto with effect| |eassumption]; by match goal with H : _ = Err _ |- _ => rewrite H end.
Qed.

Lemma data_lawful r a wi : r_opUser r = Some a → lawful conf md5hex r a wi (dataHandler conf r).
Proof.
  intros Ha σ Hr. unfold dataHandler, data_list, data_under, data_head, data_bag, data_item. repeat estep; try eassumption.
  all: by_rights.
Qed.

Lemma environment_lawful r a wi : r_opUser r = Some a → lawful conf md5hex r a wi (environmentHandler conf fuel r).
Proof.
  intros Ha σ Hr. unfold environmentHandler, num_versions, env_named, env_put, env_renamed, env_list, env_op,
    env_cookbook_versions, env_object, get_cookbook, no_cookbook.
  repeat estep; try eassumption.
  all: by_rights.
Qed.

Lemma universe_lawful r a wi : lawful conf md5hex r a wi (universeHandler conf r).
Proof. intros σ Hr. unfold universeHandler. repeat estep; try eassumption. Qed.

Lemma principal_lawful r a wi : lawful conf md5hex r a wi (principalHandler conf r).
Proof. intros σ Hr. unfold principalHandler. repeat estep; try eassumption. Qed.

Lemma authenticate_lawful r a wi : lawful conf md5hex r a wi (authenticateUserHandler conf r).
Proof. intros σ Hr. unfold authenticateUserHandler. repeat estep; try eassumption. Qed.

Lemma search_params_lawful r a wi keys : lawful conf md5hex r a wi (search_params r keys).
Proof.
  induction keys as [|k keys IH]; intros σ Hr; cbn [search_params]; repeat estep; try eassumption;
    try by apply IH.
  eapply lawful_part; [exact IH|done|]. intros [m| |p] σ' Hr'; done.
Qed.

Lemma event_list_lawful r a wi : r_opUser r = Some a → lawful conf md5hex r a wi (eventListHandler conf r).
Proof.
  intros Ha σ Hr. unfold eventListHandler, form_number. repeat estep; try eassumption.
  all: eapply lawful_part; [apply search_params_lawful|done|].
  all: intros [ps| |p] σ' Hr'; cbn [then_]; [|assumption..]. 
  all: repeat estep; try eassumption.
  all: by_rights.
Qed.

Lemma latest_statuses_lawful r a wi nodes : lawful conf md5hex r a wi (latest_statuses conf nodes).
Proof.
  induction nodes as [|n nodes IH]; intros σ Hr; cbn [latest_statuses]; repeat estep; try eassumption.
  - replace (latest_json conf n (hs_world σ)).2 with (LatestStatus (hs_world σ) n).2; [constructor|].
    unfold latest_json. by destruct (LatestStatus (hs_world σ) n) as [[] ?].
  - eapply lawful_part; [exact IH|done|]. intros [m| |p] σ' Hr'; done.
Qed.

Lemma status_lawful r a wi : r_opUser r = Some a → lawful conf md5hex r a wi (statusHandler conf r).
Proof.
  intros Ha σ Hr. unfold statusHandler, status_node, bad_request. repeat estep; try eassumption.
  - eapply lawful_part; [apply latest_statuses_lawful|done|]. intros [ps| |p] σ' Hr'; done.
  - constructor.
Qed.

Lemma event_lawful r a wi : r_opUser r = Some a → lawful conf md5hex r a wi (eventHandler conf r).
Proof.
  intros Ha σ Hr. unfold eventHandler. repeat estep; try eassumption.
  all: by_rights.
Qed.
End nodes_roles.

(** * Actors *)

Section actor_handlers.
  Context (conf : Conf) {CR : Crypto} {EN : Encoder} {GV : GVersion} (md5hex : string → string) {S T : Type}.
  Context {OO : StoreOps S object} {L : StoreLaws S object} {TB : TableOps S object} {TL : TableLaws S object}.
  Context {TO : TrieOps T}.
  Implicit Types (r : Request) (a : Actor) (wi w : world S T) (c : Client) (u : User).

Lemma check_admin_edit a data :
  a_CheckPermEdit a data "admin" = Ok () → mlookup "admin" data ≠ Some (IBool true).
Proof.
  unfold a_CheckPermEdit, Clients.CheckPermEdit, user_CheckPermEdit.
  destruct a; destruct (mlookup "admin" data) as [[| [] | | | | | | | |]|]; done.
Qed.

Lemma client_update_unprivileged w c data c' :
  Clients.UpdateFromJSON w c data = Ok c' → mlookup "admin" data ≠ Some (IBool true) → c_Admin c' = false.
Proof.
  unfold Clients.UpdateFromJSON. intros (name & _ & Hu)%bind_Ok. case_bool_decide; [done|].
  apply bind_Ok in Hu as ([] & _ & Hu). apply bind_Ok in Hu as (jc & _ & Hu). apply bind_Ok in Hu as (ct & _ & Hu).
  apply bind_Ok in Hu as (ab & Hab & Hu). apply bind_Ok in Hu as (vb & _ & Hu). destruct (ab && vb); [done|].
  injection Hu as <-. simpl. intros Hn. unfold Clients.admin_field in Hab.
  destruct (mlookup "admin" data) as [v|]; [|by injection Hab]. destruct v as [|b| | | | | | | |]; simpl in Hab; try done.
  destruct b; [done|]. destruct (c_Admin c); simpl in Hab; [|by injection Hab].
  apply bind_Ok in Hab as ([] & _ & Hab); [done|by injection Hab].
Qed.

Lemma user_update_unprivileged w u data u' :
  Users.UpdateFromJSON w u data = Ok u' → mlookup "admin" data ≠ Some (IBool true) →
  u_Admin u' = false ∨ u_Admin u' = u_Admin u.
Proof.
  unfold Users.UpdateFromJSON. intros (name & _ & Hu)%bind_Ok. case_bool_decide; [done|].
  apply bind_Ok in Hu as ([] & _ & Hu). apply bind_Ok in Hu as (u1 & Hp & Hu). intros Hn.
  assert (u_Admin u1 = u_Admin u) as Hu1.
  { unfold Users.passwd_field in Hp. destruct (mlookup "password" data) as [[]|]; simpl in Hp; try done;
      try by injection Hp as <-.
    case_bool_decide; [by injection Hp as <-|]. unfold Users.SetPasswd in Hp. destruct (_ <? _); [done|].
    destruct (HashPasswd _ _); [|done]. by injection Hp as <-. }
  unfold Users.admin_field in Hu. destruct (mlookup "admin" data) as [v|]; [|injection Hu as <-; by right].
  destruct v as [|b| | | | | | | |]; simpl in Hu; try done. destruct b; [done|]. left.
  destruct (u_Admin u1); simpl in Hu; [|by injection Hu as <-].
  apply bind_Ok in Hu as ([] & _ & Hu); [done|by injection Hu as <-].
Qed.

(** What a key does not change. *)
Definition client_rights c : bool * bool * string := (c_Admin c, c_Validator c, c_Name c).
Definition user_rights u : bool * string := (u_Admin u, u_Username u).

Lemma client_set_key c pk :
  client_rights (match Clients.SetPublicKey c (IStr pk) with Ok c' => c' | _ => c end) = client_rights c.
Proof. unfold Clients.SetPublicKey. by destruct (key_error pk). Qed.

Lemma user_set_key u pk :
  user_rights (match Users.SetPublicKey u (IStr pk) with Ok u' => u' | _ => u end) = user_rights u.
Proof. unfold Users.SetPublicKey. by destruct (key_error pk). Qed.

Lemma client_generate r c priv c' : client_GenerateKeys r c = Ok (priv, c') → client_rights c' = client_rights c.
Proof. unfold client_GenerateKeys. destruct (r_keys r) as [[]|]; [|done]. intros [= _ <-]. apply client_set_key. Qed.

Lemma user_generate r u priv u' : user_GenerateKeys r u = Ok (priv, u') → user_rights u' = user_rights u.
Proof. unfold user_GenerateKeys. destruct (r_keys r) as [[]|]; [|done]. intros [= _ <-]. apply user_set_key. Qed.

(** Setting keys changes no state and no rights. *)
Definition keeps_rights {A X B} (f : A → B) (x : A) (σ : hstate S T) (o : hout (A * X)) (σ' : hstate S T) : Prop :=
  hs_world σ' = hs_world σ ∧ match o with HVal (y, _) => f y = f x | _ => True end.

Lemma client_put_keys_rights r data c j (σ : hstate S T) : wp (client_put_keys r data c j) (keeps_rights client_rights c σ) σ.
Proof.
  unfold client_put_keys, keeps_rights. repeat estep; simplify_eq; (split; [done|]); try done.
  all: try match goal with H : client_GenerateKeys _ _ = Ok _ |- _ => apply client_generate in H; rewrite H end.
  all: by rewrite ?client_set_key.
Qed.

Lemma user_put_keys_rights r data u j (σ : hstate S T) : wp (user_put_keys r data u j) (keeps_rights user_rights u σ) σ.
Proof.
  unfold user_put_keys, keeps_rights. repeat estep; simplify_eq; (split; [done|]); try done.
  all: try match goal with H : user_GenerateKeys _ _ = Ok _ |- _ => apply user_generate in H; rewrite H end.
  all: by rewrite ?user_set_key.
Qed.

Lemma client_new_key_rights r data c (σ : hstate S T) : wp (client_new_key r data c) (keeps_rights client_rights c σ) σ.
Proof.
  unfold client_new_key, keeps_rights. repeat estep; simplify_eq; (split; [done|]); try done.
  all: try match goal with H : client_GenerateKeys _ _ = Ok _ |- _ => apply client_generate in H; rewrite H end.
  all: by rewrite ?client_set_key.
Qed.

Lemma user_new_key_rights r data u (σ : hstate S T) : wp (user_new_key r data u) (keeps_rights user_rights u σ) σ.
Proof.
  unfold user_new_key, keeps_rights. repeat estep; simplify_eq; (split; [done|]); try done.
  all: try match goal with H : user_GenerateKeys _ _ = Ok _ |- _ => apply user_generate in H; rewrite H end.
  all: try match goal with H : Users.SetPublicKey ?u (IStr ?p) = Ok _ |- _ =>
    pose proof (user_set_key u p) as Hk; rewrite H in Hk end.
  all: done.
Qed.

Lemma keeps_rights_use {A X B} {R} (h : handler S T (A * X)) (f : A → R) x (k : A * X → handler S T B) Q (σ : hstate S T) :
  wp h (keeps_rights f x σ) σ →
  (∀ y z σ', hs_world σ' = hs_world σ → f y = f x → wp (k (y, z)) Q σ') →
  (∀ o σ', hs_world σ' = hs_world σ → match o with HVal _ => False | _ => True end → Q o σ') →
  wp h (then_ k Q) σ.
Proof.
  intros Hh Hk HQ. eapply wp_mono; [exact Hh|]. intros [[y z]| |p] σ' [Hw Hf]; simpl; [by apply Hk|by apply HQ..].
Qed.

Lemma client_rights_ok a data (σ : hstate S T) Q :
  (admin conf a ∨ mlookup "admin" data ≠ Some (IBool true) → Q (HVal ()) σ) →
  (∀ o σ', hs_world σ' = hs_world σ → match o with HVal _ => False | _ => True end → Q o σ') →
  wp (client_put_rights conf a data) Q σ.
Proof.
  intros Hv Ho. unfold client_put_rights. destruct (IsAdmin conf a) eqn:Ea.
  { apply wp_ret, Hv. by left. }
  cbv zeta. destruct (a_CheckPermEdit a data "admin") as [[]|e|p] eqn:Ec.
  - destruct (if a_IsValidator conf a then _ else _) as [[]|e|p];
      repeat estep; first [by apply Hv; right; eapply check_admin_edit|by apply Ho].
  - destruct (if a_IsValidator conf a then _ else _) as [[]|e'|p]; repeat estep; by apply Ho.
  - destruct (if a_IsValidator conf a then _ else _) as [[]|e'|p']; repeat estep; by apply Ho.
Qed.

Lemma client_update_name w c data c' :
  Clients.UpdateFromJSON w c data = Ok c' → c_Name c' = c_Name c ∧ c_Admin c' && c_Validator c' = false.
Proof.
  unfold Clients.UpdateFromJSON. intros (name & _ & Hu)%bind_Ok. case_bool_decide; [done|].
  apply bind_Ok in Hu as ([] & _ & Hu). apply bind_Ok in Hu as (jc & _ & Hu). apply bind_Ok in Hu as (ct & _ & Hu).
  apply bind_Ok in Hu as (ab & _ & Hu). apply bind_Ok in Hu as (vb & _ & Hu). destruct (ab && vb) eqn:E; [done|].
  by injection Hu as <-.
Qed.

(** The name a client is renamed to is free. *)
Lemma client_rename_fresh w c n w' c' :
  st_inv (sto w) → Clients.Rename w c n = Ok (w', c') → st_get (sto w') "client" (c_Name c') = Ok None.
Proof.
  intros Hi Hr. pose proof (client_rename_store _ _ _ _ _ Hr) as Hs.
  unfold Clients.Rename in Hr. apply bind_Ok in Hr as ([] & _ & Hr). apply bind_Ok in Hr as ([] & _ & Hr); [done|].
  destruct (chkInMemUser _ _); try done. apply bind_Ok in Hr as ([] & Hg & Hr); [done|]. injection Hr as _ <-.
  rewrite Hs. unfold unstore. rewrite st_get_del by done. simpl. by case_bool_decide.
Qed.

Lemma self_client_name a c c' : c_Name c = c_Name c' → IsSelf conf a (AClient c') = true → self_client conf a c.
Proof. unfold self_client, IsSelf, Clients.IsSelf. by intros ->. Qed.

(** The rights to save a client: it is the actor's, or it is new. *)
Lemma client_save_right r a wi (w w' : world S T) c c1 data :
  writes r → admin conf a ∨ mlookup "admin" data ≠ Some (IBool true) →
  (mlookup "admin" data ≠ Some (IBool true) → c_Admin c1 = false) → client_rights c = client_rights c1 →
  c_Admin c1 && c_Validator c1 = false →
  admin conf a ∨ self_client conf a c1 ∨ st_get (sto w) "client" (c_Name c1) = Ok None →
  Clients.Save conf w c = Ok w' → effect conf md5hex r a wi w w'.
Proof.
  intros Hw Hp Hn [= Ha Hv Hc] Hav Hs Hsv. eapply ef_client_save; [done|by rewrite Ha, Hv| |done]. rewrite Ha, Hc.
  destruct Hp as [Hp|Hp]; [by left|]. destruct Hs as [Hs|Hs]; [by left|]. right. split; [by apply Hn|].
  destruct Hs as [Hs|Hs]; [left|by right]. by eapply self_client_name.
Qed.

Lemma client_lawful r a wi :
  r_opUser r = Some a → st_inv (sto wi) → lawful conf md5hex r a wi (clientHandler conf r).
Proof.
  intros Ha Hi σ Hr. unfold clientHandler, client_put. repeat estep; try eassumption; simplify_eq; try by_rights.
  apply client_rights_ok; [intros Hp; cbn [then_]|intros [[]| |p] σ' Hw []; cbn [then_]; by rewrite Hw].
  repeat estep; try eassumption; simplify_eq; try by_rights.
  all: eapply keeps_rights_use; [apply client_put_keys_rights| |intros [?| |?] ? -> []; done].
  all: intros c j σ' Hw Hc; cbn [hs_world] in Hw; try rewrite <- Hw in *; repeat estep; try eassumption; try by_rights.
  all: match goal with H : Clients.UpdateFromJSON _ _ _ = Ok _ |- _ =>
         destruct (client_update_name _ _ _ _ H) as [Hn Hav];
         eapply client_save_right; [eauto with effect|exact Hp|by eapply client_update_unprivileged|exact Hc|exact Hav| |eassumption]
       end.
  - apply self_or_admin in Eb as [Eb|Eb]; [by left|right; left]. by eapply self_client_name.
  - right; right. rewrite Hn. eapply client_rename_fresh; [|eassumption]. by eapply effects_inv.
Qed.

Lemma user_update_name w u data u' : Users.UpdateFromJSON w u data = Ok u' → u_Username u' = u_Username u.
Proof.
  unfold Users.UpdateFromJSON. intros (name & _ & Hu)%bind_Ok. case_bool_decide; [done|].
  apply bind_Ok in Hu as ([] & _ & Hu). apply bind_Ok in Hu as (u1 & Hp & Hu).
  assert (u_Username u1 = u_Username u) as <-.
  { unfold Users.passwd_field in Hp. destruct (mlookup "password" data) as [[]|]; simpl in Hp; try done;
      try by injection Hp as <-.
    case_bool_decide; [by injection Hp as <-|]. unfold Users.SetPasswd in Hp. destruct (_ <? _); [done|].
    destruct (HashPasswd _ _); [|done]. by injection Hp as <-. }
  unfold Users.admin_field in Hu. destruct (mlookup "admin" data) as [v|]; [|by injection Hu as <-].
  destruct v as [|b| | | | | | | |]; simpl in Hu; try done.
  destruct (u_Admin u1 && negb b); [|by injection Hu as <-].
  apply bind_Ok in Hu as ([] & _ & Hu); [done|by injection Hu as <-].
Qed.

Lemma user_rename_rights w u n w' u' :
  st_inv (sto w) → Users.Rename w u n = Ok (w', u') →
  u_Admin u' = u_Admin u ∧ st_get (sto w') "user" (u_Username u') = Ok None.
Proof.
  intros Hi (Hs & -> & Hn & _)%user_rename_store. split; [done|]. rewrite Hs. unfold unstore.
  rewrite st_get_del by done. by rewrite bool_decide_false by (intros [[=] _]).
Qed.

(** The rights to save a user: it is the actor's, or it is new. *)
Lemma user_save_right r a wi (w w' : world S T) u u0 u1 name :
  writes r → Users.Get wi name = Ok u0 → admin conf a ∨ IsSelf conf a (AUser u0) = true →
  admin conf a ∨ u_Admin u1 = false ∨ u_Admin u1 = u_Admin u0 → user_rights u = user_rights u1 →
  u_Username u1 = u_Username u0 ∨ st_get (sto w) "user" (u_Username u1) = Ok None →
  Users.Save w u = Ok w' → effect conf md5hex r a wi w w'.
Proof.
  intros Hw Hg Hs Hr [= Ha Hu] Hn Hsv. eapply ef_user_save; [done| |done]. unfold keeps_admin, self_user. rewrite Ha, Hu.
  destruct Hs as [Hs|Hs]; [by left|]. destruct Hr as [Hr|Hr]; [by left|]. right. split.
  - destruct Hr as [Hr|Hr]; [by left|right]. exists u0, name. auto.
  - destruct Hn as [Hn|Hn]; [left|by right]. revert Hs. unfold IsSelf, Users.IsSelf. by rewrite Hu, Hn.
Qed.

Lemma user_lawful r a wi (σ : hstate S T) :
  r_opUser r = Some a → st_inv (sto wi) → hs_world σ = wi →
  wp (userHandler conf r) (λ _ σ', effects conf md5hex r a wi wi (hs_world σ')) σ.
Proof.
  intros Ha Hi Hwi. assert (effects conf md5hex r a wi wi (hs_world σ)) as Hr by (rewrite Hwi; constructor).
  unfold userHandler, user_put. repeat estep; try eassumption; simplify_eq; try by_rights.
  all: eapply keeps_rights_use; [apply user_put_keys_rights| |intros [?| |?] ? -> []; done].
  all: intros u j σ' Hw Hc; cbn [hs_world] in Hw; try rewrite <- Hw in *; repeat estep; try eassumption; try by_rights.
  all: repeat match goal with x : () |- _ => destruct x end.
  all: try match goal with H : a_CheckPermEdit _ _ _ = Ok _ |- _ => apply check_admin_edit in H end.
  all: match goal with H : Users.UpdateFromJSON _ _ _ = Ok _ |- _ =>
         pose proof (user_update_name _ _ _ _ H) as Hname;
         try (pose proof H as Hup; eapply user_update_unprivileged in Hup; [|eassumption]) end.
  all: try match goal with H : Users.Rename _ _ _ = Ok _ |- _ =>
    apply user_rename_rights in H as [Hra Hrn]; [rewrite Hra in *|done] end.
  all: eapply user_save_right; [eauto with effect|eassumption|
    apply self_or_admin; by match goal with H : IsAdmin _ _ = _ |- _ => rewrite H end| |eassumption| |eassumption].
  all: first [by left|by right; rewrite Hname|by right|by left; rewrite Hname].
Qed.

Lemma create_rights_ok a data (σ : hstate S T) Q :
  (admin conf a ∨ mlookup "admin" data ≠ Some (IBool true) → Q (HVal ()) σ) →
  (∀ o σ', hs_world σ' = hs_world σ → match o with HVal _ => False | _ => True end → Q o σ') →
  wp (create_rights conf a data) Q σ.
Proof.
  intros Hv Ho. unfold create_rights. repeat estep;
    repeat match goal with x : () |- _ => destruct x end; first [by apply Ho|apply Hv].
  - by left.
  - right. by eapply check_admin_edit.
Qed.

Lemma client_new_unprivileged w data c :
  Clients.NewFromJSON w data = Ok c → mlookup "admin" data ≠ Some (IBool true) → c_Admin c = false.
Proof.
  unfold Clients.NewFromJSON. intros (name & _ & (c0 & _ & Hu)%bind_Ok)%bind_Ok. by eapply client_update_unprivileged.
Qed.

Lemma user_new_unprivileged w salt data u :
  Users.NewFromJSON w salt data = Ok u → mlookup "admin" data ≠ Some (IBool true) → u_Admin u = false.
Proof.
  unfold Users.NewFromJSON. intros (name & _ & (u0 & Hn & Hu)%bind_Ok)%bind_Ok Hd.
  destruct (mlookup "password" data); [|done]. eapply user_update_unprivileged in Hu; [|done].
  unfold Users.New_ in Hn. apply bind_Ok in Hn as ([] & _ & Hn); [done|]. apply bind_Ok in Hn as ([] & _ & Hn).
  injection Hn as <-. simpl in Hu. by destruct Hu.
Qed.

Lemma client_new_fresh w data c :
  Clients.NewFromJSON w data = Ok c →
  st_get (sto w) "client" (c_Name c) = Ok None ∧ c_Admin c && c_Validator c = false.
Proof.
  unfold Clients.NewFromJSON. intros (name & _ & (c0 & Hn & Hu)%bind_Ok)%bind_Ok.
  apply client_update_name in Hu as [Hu Hav]. split; [|done]. rewrite Hu. unfold Clients.New_ in Hn.
  apply bind_Ok in Hn as ([] & Hg & Hn); [done|]. apply bind_Ok in Hn as ([] & _ & Hn). by injection Hn as <-.
Qed.

Lemma user_new_fresh w salt data u :
  Users.NewFromJSON w salt data = Ok u → st_get (sto w) "user" (u_Username u) = Ok None.
Proof.
  unfold Users.NewFromJSON. intros (name & _ & (u0 & Hn & Hu)%bind_Ok)%bind_Ok.
  destruct (mlookup "password" data); [|done]. apply user_update_name in Hu. rewrite Hu. unfold Users.New_ in Hn.
  apply bind_Ok in Hn as ([] & Hg & Hn); [done|]. apply bind_Ok in Hn as ([] & _ & Hn). by injection Hn as <-.
Qed.

Lemma node_new_up w data n : Nodes.NewFromJSON w data = Ok n → n_isDown n = false.
Proof.
  unfold Nodes.NewFromJSON. intros (name & _ & (n0 & Hn & Hu)%bind_Ok)%bind_Ok. unfold Nodes.New_ in Hn.
  destruct (negb _); [done|]. apply bind_Ok in Hn as ([] & _ & Hn); [done|]. injection Hn as <-.
  unfold Nodes.UpdateFromJSON in Hu. apply bind_Ok in Hu as (? & _ & Hu). case_bool_decide; [done|].
  repeat (apply bind_Ok in Hu as (? & _ & Hu)). by injection Hu as <-.
Qed.

Lemma list_lawful r a wi : r_opUser r = Some a → lawful conf md5hex r a wi (listHandler conf r).
Proof.
  intros Ha σ Hr. unfold listHandler, nodeHandling, clientHandling, userHandling, roleHandling, actor_name.
  repeat estep; try eassumption; simplify_eq; try by_rights.
  { apply ef_status; [eauto with effect|by eapply node_new_up]. }
  all: apply create_rights_ok; [intros Hp; cbn [then_]|intros [[]| |p] σ' Hw []; unfold then_; by rewrite Hw].
  all: repeat estep; try eassumption.
  all: eapply keeps_rights_use;
    [first [apply client_new_key_rights|apply user_new_key_rights]| |intros [?| |?] ? Hw []; unfold then_; by rewrite Hw].
  all: intros x j σ' Hw Hc; try rewrite <- Hw in *; repeat estep; try eassumption; try by_rights.
  - eapply client_save_right; [eauto with effect|exact Hp|by eapply client_new_unprivileged|exact Hc| | |eassumption].
    + by eapply client_new_fresh.
    + right; right. by eapply client_new_fresh.
  - injection Hc as Hc1 Hc2. eapply ef_user_save; [eauto with effect| |eassumption]. rewrite Hc2.
    destruct Hp as [Hp|Hp]; [by left|right]. split; [left; rewrite Hc1; by eapply user_new_unprivileged|].
    right. by eapply user_new_fresh.
Qed.
End actor_handlers.

(** * Cookbooks *)

Section cookbook_handler.
  Context (conf : Conf) {CR : Crypto} {EN : Encoder} {GV : GVersion} (fuel : nat).
  Context (md5hex : string → string) {S T : Type}.
  Context {OO : StoreOps S object} {TB : TableOps S object} {TO : TrieOps T}.
  Implicit Types (r : Request) (a : Actor) (wi : world S T).

(** A version number is not the word for the latest version. *)
Lemma version_not_latest v ver : ValidateAsVersion (IStr v) = Ok ver → ver ≠ "_latest".
Proof.
  intros Hv ->. cbn [ValidateAsVersion] in Hv. unfold ValidateAsVersionString in Hv.
  destruct (version_submatch v) as [[[x y] z]|] eqn:Es; [|done]. case_bool_decide; [done|].
  repeat (apply bind_Ok in Hv as (? & _ & Hv)). injection Hv as ->. by vm_compute in Es.
Qed.

Lemma get_version_found cb ver cbv cb' :
  GetVersion cb ver = Ok (cbv, cb') → ver ≠ "_latest" → cb' = cb ∧ mlookup ver (cb_Versions cb) = Some cbv.
Proof.
  intros Hg Hv. unfold GetVersion in Hg. rewrite bool_decide_false in Hg by done.
  destruct (mlookup ver (cb_Versions cb)); [|done]. by injection Hg as -> ->.
Qed.

Lemma cookbook_new (s : S) name cb :
  Cookbooks.New_ s name = Ok cb → cb = {| cb_Name := name; cb_Versions := []; cb_latest := None |}.
Proof. unfold Cookbooks.New_. destruct (negb _); [done|]. intros (? & _ & [= <-])%bind_Ok. done. Qed.

Lemma version_update_lawful r a wi cb name ver cbv data (σ : hstate S T) :
  r_opUser r = Some a → writes r → admin conf a → Cookbooks.Get (sto (hs_world σ)) name = Ok (Some cb) →
  mlookup ver (cb_Versions cb) = Some cbv → effects conf md5hex r a wi wi (hs_world σ) →
  wp (version_update conf r a cb ver cbv data) (λ _ σ', effects conf md5hex r a wi wi (hs_world σ')) σ.
Proof.
  intros Ha Hw Hadm Hg Hv Hr. unfold version_update. hstep. hstep; [|by repeat estep|done].
  apply bind_Ok in E as ([s cbv1] & Hu & E). injection E as <- <-. hstep. hstep; [|by repeat estep|done].
  injection E as <-. cbn [sto set_sto].
  assert (effects conf md5hex r a wi wi (set_sto (set_sto (hs_world σ) s)
    (Cookbooks.Save s (set_versions cb (mset ver cbv1 (cb_Versions cb)))))) as Hr'.
  { eapply rtc_r; [exact Hr|].
    change (set_sto (set_sto ?w s) ?s') with (set_sto w s'). by eapply ef_version_update. }
  repeat estep; try eassumption. by_rights.
Qed.

Lemma version_create_lawful r a wi cb ver data (σ : hstate S T) :
  r_opUser r = Some a → writes r → admin conf a →
  (∃ name, Cookbooks.Get (sto (hs_world σ)) name = Ok (Some cb)) ∨ cb_Versions cb = [] →
  effects conf md5hex r a wi wi (hs_world σ) →
  wp (version_create conf r a cb ver data) (λ _ σ', effects conf md5hex r a wi wi (hs_world σ')) σ.
Proof.
  intros Ha Hw Hadm Hg Hr. unfold version_create. repeat estep; try eassumption; try by_rights.
Qed.

(** What follows a lawful part, when it only reports. *)
Lemma lawful_then {A B} r a wi (h : handler S T A) (k : A → handler S T B) Q (σ : hstate S T) :
  wp h (λ _ σ', effects conf md5hex r a wi wi (hs_world σ')) σ →
  (∀ x σ', effects conf md5hex r a wi wi (hs_world σ') → wp (k x) Q σ') →
  (∀ o σ', effects conf md5hex r a wi wi (hs_world σ') → Q o σ') → wp h (then_ k Q) σ.
Proof. intros Hh Hk HQ. eapply wp_mono; [exact Hh|]. intros [x| |p] σ' Hr; simpl; auto. Qed.

Lemma version_put_lawful r a wi name ver :
  r_opUser r = Some a → r_Method r = PUT → ver ≠ "_latest" → lawful conf md5hex r a wi (version_put conf r a name ver).
Proof.
  intros Ha Hm Hv σ Hr. assert (writes r) as Hw by eauto with effect.
  unfold version_put, put_cookbook, get_cookbook. repeat estep; try eassumption; try by_rights; facts.
  all: eapply lawful_then; [|intros; by repeat estep|done]; simplify_eq.
  all: repeat match goal with
       | H : GetVersion _ _ = Ok _ |- _ => apply get_version_found in H; [|done]; destruct H as [-> ?]
       | H : Cookbooks.New_ _ _ = Ok _ |- _ => apply cookbook_new in H; subst
       end.
  all: try done; first [by eapply version_update_lawful|eapply version_create_lawful; simpl; eauto].
Qed.

Lemma cookbook_lawful r a wi : r_opUser r = Some a → lawful conf md5hex r a wi (cookbookHandler conf r).
Proof.
  intros Ha σ Hr. unfold cookbookHandler, num_versions, cookbook_all, cookbook_named, cookbook_version, path_version,
    version_head, version_delete, version_get, get_cookbook, no_cookbook.
  repeat estep; try eassumption; simplify_eq; try by_rights.
  all: match goal with
       | |- wp (version_put _ _ _ _ _) _ _ =>
           eapply lawful_then; [apply version_put_lawful|intros; by repeat estep|done]; eauto;
           by eapply version_not_latest
       | H : (_ ← _; _) = Ok _, Hg : GetVersion _ _ = Ok _ |- _ =>
           apply bind_Ok in H as ([s' c'] & Hd & H); injection H as <- <-;
           pose proof Hg as [-> _]%get_version_found; [|by eapply version_not_latest];
           facts; eapply ef_version_delete; eauto with effect
       end.
Qed.
End cookbook_handler.
