(* ===== verification/LawfulSearch.v ===== *)
(** The handlers of searches and reports make only the changes of Effects.v:
    searches and requests to rebuild the index change nothing, and a report is
    stored only for a request that writes. *)
From S2P Require Import Prelude Gerror Iface Config Store Datastore Tables UtilStrings Objects Filestore Validations.
From S2P Require Import Versioning Cookbooks CookbookFacts CookbookSafety CookbookDeps Deperr Flatten FileIndex World Nodes Roles Environments Sandboxes Clients Users.
From S2P Require Import Actors DataBags Reports Loginfo Searches Http Authentication Statuses HandlersObj HandlersData HandlersCook Quorum Shoveys ShoveyFacts HandlersMisc HandlersSearch HandlersShovey Server Effects.

Section search_handlers.
  Context (conf : Conf) (uniLN : string → bool) {EN : Encoder} {RF : ReportFormats} {CR : Crypto} {GV : GVersion}.
  Context (md5hex : string → string) {S T : Type} {OO : StoreOps S object} {TB : TableOps S object} {TO : TrieOps T}.
  Context {RE : Regexp} {SI : SortImpl}.
  Implicit Types (r : Request) (a : Actor) (wi : world S T).

Lemma search_lawful r a wi : lawful conf md5hex r a wi (searchHandler conf uniLN r).
Proof.
  intros σ Hr. unfold searchHandler, form_first, search_endpoints, search_index. repeat estep; eassumption.
Qed.

Lemma reindex_lawful r a wi : lawful conf md5hex r a wi (reindexHandler conf r).
Proof. intros σ Hr. unfold reindexHandler. repeat estep; eassumption. Qed.

Lemma report_get_lawful r a opUser wi path : lawful conf md5hex r a wi (report_get conf r opUser path).
Proof.
  intros σ Hr. unfold report_get, form_convert, report_status_param. repeat estep; eassumption.
Qed.

Lemma save_report_lawful r a wi rep : writes r → lawful conf md5hex r a wi (save_report rep).
Proof.
  intros Hw σ Hr. unfold save_report. repeat estep; try eassumption. simplify_eq. by apply ef_report.
Qed.

Lemma report_post_lawful r a wi path : writes r → lawful conf md5hex r a wi (report_post r path).
Proof.
  intros Hw σ Hr. unfold report_post.
  repeat (match goal with |- wp (save_report _) _ _ => fail 1 | |- _ => estep end); try eassumption.
  all: by apply save_report_lawful.
Qed.

Lemma report_lawful r a wi : lawful conf md5hex r a wi (reportHandler conf r).
Proof.
  intros σ Hr. unfold reportHandler, protocol_version.
  repeat (match goal with
          | |- wp (report_get _ _ _ _) _ _ => fail 1 | |- wp (report_post _ _) _ _ => fail 1 | |- _ => estep end);
    try eassumption.
  all: (eapply lawful_part; [first [apply report_get_lawful|apply report_post_lawful; eauto with effect]|done|]);
    intros [m| |p] σ' Hr'; cbn [then_]; repeat estep; eassumption.
Qed.
End search_handlers.
