(* ===== verification/LawfulShovey.v ===== *)
(** The handler of pushed jobs makes only the changes of Effects.v: jobs are
    made by administrators, and what others do to a job leaves its command
    alone. *)
From S2P Require Import Prelude Gerror Iface Config Store Datastore Tables UtilStrings Objects Filestore Validations.
From S2P Require Import Versioning Cookbooks CookbookFacts CookbookSafety CookbookDeps Deperr Flatten FileIndex World Nodes Roles Environments Sandboxes Clients Users.
From S2P Require Import Actors DataBags Reports Loginfo Searches Http Authentication Statuses HandlersObj HandlersData HandlersCook Quorum Shoveys ShoveyFacts HandlersMisc HandlersSearch HandlersShovey Server Effects.

Section shovey_handlers.
  Context (conf : Conf) {EN : Encoder} {PU : Pushing} {FN : FloatNotations} {CR : Crypto} {GV : GVersion}.
  Context (md5hex : string → string) {S T : Type} {OO : StoreOps S object} {TB : TableOps S object} {TO : TrieOps T}.
  Implicit Types (r : Request) (w wi : world S T) (s : Shovey).

Section changes.
  Context (r : Request) (a : Actor) (wi : world S T) (Hw : writes r).
  Local Abbreviation effs := (effects conf md5hex r a wi).
  Local Abbreviation may := (may_save_job conf a wi).

Lemma save_run_effects w sr : effs w (save_run w sr).
Proof. by apply rtc_once, ef_shovey_run. Qed.

Lemma save_shovey_effects w s now : may s → effs w (save_shovey w s now).1.
Proof. intros Hs. apply rtc_once. by apply ef_shovey. Qed.

Lemma create_runs_effects w s up now : effs w (create_runs w s up now).
Proof.
  assert (∀ (p : string → bool) f l w, effs w (foldl (λ w n, if p n then w else save_run w (f n)) w l)) as Hl.
  { intros p f l. induction l as [|n l IH]; intros w1; [constructor|]. simpl. etrans; [|apply IH].
    destruct (p n); [constructor|apply save_run_effects]. }
  unfold create_runs. etrans; [apply (Hl (λ _, false))|apply Hl].
Qed.

Lemma by_latest_effects p nodes : ∀ w, effs w (by_latest p w nodes).2.
Proof.
  induction nodes as [|n nodes IH]; intros w; [constructor|]. simpl. destruct (LatestStatus w n) as [o w1] eqn:E.
  assert (effs w w1) as H1 by (apply rtc_once; pose proof (ef_latest conf md5hex r a wi w n) as H; by rewrite E in H).
  etrans; [exact H1|]. destruct o; [|apply IH|constructor]. specialize (IH w1).
  by destruct (by_latest p w1 nodes).
Qed.

Lemma nodes_by_status_effects w names st o w' : GetNodesByStatus w names st = (o, w') → effs w w'.
Proof.
  unfold GetNodesByStatus. destruct (load_all (sto w) names) as [nodes| |]; [|by intros [= _ <-]; constructor..].
  intros E. pose proof (by_latest_effects (λ _ ns, bool_decide (ns_Status ns = st)) nodes w) as H. by rewrite E in H.
Qed.

Lemma startJobs_effects w s now : effs w (startJobs w s now).2.
Proof.
  unfold startJobs. destruct (getQuorum _ _); [|constructor].
  destruct (GetNodesByStatus w (sh_NodeNames s) "up") as [o w1] eqn:E. apply nodes_by_status_effects in E.
  etrans; [exact E|]. destruct o as [ups| |]; [|constructor..]. cbv zeta. destruct (_ <? _)%Z; [constructor|].
  etrans; [apply (create_runs_effects _ s (map n_Name ups) now)|].
  destruct (signed_query _ _); [|constructor]. destruct (serf_Query _ _); [|constructor..].
  by apply rtc_once, ef_tasks.
Qed.

Lemma may_same s s' : may s → sh_RunID s' = sh_RunID s → sh_Command s' = sh_Command s → may s'.
Proof. intros [Ha|(id & s0 & Hg & H1 & H2)] E1 E2; [by left|right]. exists id, s0. split_and!; congruence. Qed.

Lemma Start_effects w s now : may s → effs w (Start w s now).2.
Proof.
  intros Hs. unfold Start. pose proof (startJobs_effects w s now) as Hj.
  destruct (startJobs w s now) as [[[q|e]|e|p] w1]; etrans; try exact Hj; try constructor; simpl.
  - by apply (save_shovey_effects w1 (sh_set_status s "running")).
  - by apply (save_shovey_effects w1 (sh_set_status s (q_status e))).
Qed.

Lemma cancel_loop_effects s names now : ∀ w, effs w (cancel_loop w s names now).2.
Proof.
  induction names as [|n names IH]; intros w; [constructor|]. simpl.
  destruct (GetRun w s n); [|constructor..]. etrans; [|apply IH].
  case_bool_decide; [constructor|apply save_run_effects].
Qed.

(** The job after some of its runs were cancelled is still the one it was. *)
Lemma cancel_status_effects w s names now w' s' :
  may s → cancel_status w s names now = Ok (w', s') → effs w w' ∧ may s'.
Proof.
  intros Hs. unfold cancel_status. case_bool_decide; [|unfold checkCompleted].
  - case_bool_decide; intros [= <- <-]; (split; [|by eapply may_same]); [|constructor].
    by apply (save_shovey_effects w (sh_set_status (sh_set_nodes s (sort_strings (sh_NodeNames s))) "cancelled")).
  - destruct (GetNodeRuns w s); [case_bool_decide| |done]; intros [= <- <-]; (split; [|by eapply may_same]);
      try constructor. by apply (save_shovey_effects w (sh_set_status s "complete")).
Qed.

Lemma CancelRuns_effects w s names now :
  may s → effs w (CancelRuns w s names now).2 ∧ ∀ s', (CancelRuns w s names now).1 = Ok s' → may s'.
Proof.
  intros Hs. unfold CancelRuns. pose proof (cancel_loop_effects s names now w) as Hl.
  destruct (cancel_loop w s names now) as [[[]|e|p] w1]; [|done..].
  destruct (cancel_status w1 s names now) as [[w2 s2]|e|p] eqn:E; [|done..].
  apply cancel_status_effects in E as [He Hm]; [|done]. cbv zeta.
  assert (effs w w2) by (by etrans).
  destruct (signed_query _ _); [|done]. destruct (serf_Query _ _); [|done..]. split; [done|]. by intros s' [= <-].
Qed.

Lemma Cancel_effects w s now : may s → effs w (Cancel w s now).2.
Proof.
  intros Hs. unfold Cancel. destruct (CancelRuns_effects w s (sh_NodeNames s) now Hs) as [He Hm].
  destruct (CancelRuns w s (sh_NodeNames s) now) as [[s1|e|p] w1]; [|done..]. simpl in *. etrans; [exact He|].
  apply (save_shovey_effects w1 (sh_set_status s1 "cancelled")). eapply may_same; [by apply Hm|done..].
Qed.
End changes.

(** A call that makes several changes. *)
Lemma ef_acts {A} r a wi f h (Q : hout A → hstate S T → Prop) σ :
  effects conf md5hex r a wi wi (hs_world σ) → effects conf md5hex r a wi (hs_world σ) (f (hs_world σ)).2 →
  (∀ x w', effects conf md5hex r a wi wi w' → Q (HVal x) {| hs_world := w'; hs_resp := hs_resp σ |}) →
  (∀ e w', effects conf md5hex r a wi wi w' → wp (h e) Q {| hs_world := w'; hs_resp := hs_resp σ |}) →
  (∀ p w', effects conf md5hex r a wi wi w' → Q (HPanic p) {| hs_world := w'; hs_resp := hs_resp σ |}) →
  wp (act f h) Q σ.
Proof.
  intros Hr He H1 H2 H3. assert (∀ o w', f (hs_world σ) = (o, w') → effects conf md5hex r a wi wi w') as Hw.
  { intros o w' E. rewrite E in He. by etrans. }
  apply wp_act; eauto.
Qed.

Ltac jstep :=
  match goal with
  | |- wp (act _ _) _ _ => eapply ef_acts; cbn [then_ hs_world hs_resp]; [eassumption| |intros ???|intros ???|intros ???]
  | |- wp (get_job _) _ _ => unfold get_job
  | |- wp (get_run _ _) _ _ => unfold get_run
  | |- wp (body_map _) _ _ => unfold body_map
  | |- wp bad_request _ _ => unfold bad_request
  | |- _ => estep
  end.

(** A new job. *)
Lemma New_effect r a wi w id command timeout quorum names now w' s :
  writes r → admin conf a → Shoveys.New_ w id command timeout quorum names now = Ok (w', s) →
  effect conf md5hex r a wi w w'.
Proof.
  intros Hw Ha. unfold Shoveys.New_. intros ([o|] & _ & Hn)%bind_Ok; [done|]. injection Hn as <- _.
  apply ef_shovey; [done|by left].
Qed.

Lemma jobs_post_lawful r a wi path : writes r → admin conf a → lawful conf md5hex r a wi (jobs_post conf r path).
Proof.
  intros Hw Ha σ Hr. unfold jobs_post. repeat jstep; try eassumption.
  - by eapply New_effect.
  - apply Start_effects; [done|by left].
Qed.

Lemma piece_effect r a wi w sr output t seq isLast now w' :
  writes r → AddStreamOutput w sr output t seq isLast now = Ok w' → effect conf md5hex r a wi w w'.
Proof.
  intros Hw. unfold AddStreamOutput. intros ([o|] & _ & Hn)%bind_Ok; [done|]. injection Hn as <-. by apply ef_shovey_stream.
Qed.

Lemma stream_put_lawful r a wi id name : writes r → lawful conf md5hex r a wi (stream_put r id name).
Proof. intros Hw σ Hr. unfold stream_put. repeat jstep; try eassumption. by eapply piece_effect. Qed.

Lemma stream_get_lawful r a wi id name : lawful conf md5hex r a wi (stream_get r id name).
Proof. intros σ Hr. unfold stream_get, form_convert, output_type, form_first. repeat jstep; eassumption. Qed.

Lemma update_effects r a wi w sr data now :
  writes r → effects conf md5hex r a wi w (Shoveys.UpdateFromJSON w sr data now).
Proof. intros Hw. unfold Shoveys.UpdateFromJSON. eapply rtc_l; [by eapply ef_shovey_run|]. apply rtc_once. by apply ef_tasks. Qed.

(** What is asked of a job that was there when the request came in. *)
Lemma jobs_cancel_lawful r a (σ : hstate S T) :
  writes r → wp (jobs_cancel r) (λ _ σ', effects conf md5hex r a (hs_world σ) (hs_world σ) (hs_world σ')) σ.
Proof.
  intros Hw. assert (effects conf md5hex r a (hs_world σ) (hs_world σ) (hs_world σ)) as Hr by constructor.
  unfold jobs_cancel. repeat jstep; try eassumption.
  all: first [apply Cancel_effects|apply CancelRuns_effects]; [done|]; right; eexists _, _; split_and!; [eassumption|done..].
Qed.

Lemma jobs_update_lawful r a wi id name : writes r → lawful conf md5hex r a wi (jobs_update r id name).
Proof.
  intros Hw σ Hr. unfold jobs_update.
  repeat (match goal with |- wp (change _ _) _ _ => fail 1 | |- _ => jstep end); try eassumption.
  apply wp_change; cbn [then_ hs_world hs_resp]; [intros w' [= <-]| |done..].
  - repeat jstep. cbn [hs_world]. etrans; [eassumption|]. by apply update_effects.
  - done.
Qed.

Lemma shovey_lawful r a (σ : hstate S T) :
  r_opUser r = Some a →
  wp (shoveyHandler conf r) (λ _ σ', effects conf md5hex r a (hs_world σ) (hs_world σ) (hs_world σ')) σ.
Proof.
  intros Ha. assert (effects conf md5hex r a (hs_world σ) (hs_world σ) (hs_world σ)) as Hr by constructor.
  unfold shoveyHandler, jobs_handler, stream_handler, jobs_get.
  repeat (match goal with
          | |- wp (jobs_post _ _ _) _ _ => fail 1 | |- wp (jobs_cancel _) _ _ => fail 1
          | |- wp (jobs_update _ _ _) _ _ => fail 1 | |- wp (stream_get _ _ _) _ _ => fail 1
          | |- wp (stream_put _ _ _) _ _ => fail 1 | |- _ => jstep end); try eassumption.
  all: eapply wp_mono;
    [first [apply jobs_cancel_lawful|apply jobs_update_lawful|apply jobs_post_lawful|apply stream_get_lawful
           |apply stream_put_lawful]; first [eassumption|by eauto with effect|idtac]|].
  all: try (intros [m| |p] σ' Hr'; cbn [then_]; repeat estep; eassumption).
  unfold admin. simplify_eq. facts. by destruct (IsAdmin conf _).
Qed.
End shovey_handlers.
