(* ===== verification/ServerFacts.v ===== *)
(** What a request does to the server: every change is the upload of a file,
    or is made for an actor that passed the check of its signature, and takes
    the rights Effects.v states. *)
From S2P Require Import Prelude Gerror Iface Config Paths Store Datastore Tables UtilStrings Objects Filestore Validations.
From S2P Require Import Versioning Cookbooks CookbookFacts CookbookSafety CookbookDeps Deperr Flatten FileIndex World Nodes Roles Environments Sandboxes Clients Users.
From S2P Require Import Actors DataBags Reports Loginfo Searches Http Authentication Statuses HandlersObj HandlersData HandlersCook Quorum Shoveys ShoveyFacts HandlersMisc HandlersSearch HandlersShovey Server Effects.
From S2P Require Import Lawful LawfulSearch LawfulShovey.

(** * Routes *)

Lemma prefix_app p q s : has_prefix (p +:+ q) s = true → has_prefix p s = true.
Proof.
  unfold has_prefix. revert s. induction p as [|c p IH]; intros [|e s]; simpl; try done.
  destruct (ascii_dec c e); [|done]. by apply IH.
Qed.

(** Of two prefixes of a string one is a prefix of the other. *)
Lemma prefix_comparable p q s :
  has_prefix p s = true → has_prefix q s = true → has_prefix p q || has_prefix q p = true.
Proof.
  unfold has_prefix. revert q s. induction p as [|c p IH]; intros [|d q] [|e s]; simpl; try done.
  destruct (ascii_dec c e) as [->|]; [|done]. destruct (ascii_dec d e) as [->|]; [|done].
  intros Hp Hq. destruct (ascii_dec e e); [|done]. by eapply IH.
Qed.

Section mux_facts.
  Context {S T : Type}.
  Implicit Types (rs : list (route (S := S) (T := T))).

Lemma exact_in rs path h : exact rs path = Some h → (path, h) ∈ rs.
Proof.
  induction rs as [|[p h'] rs IH]; simpl; [done|]. case_bool_decide; [|by intros ?%IH; right].
  subst. intros [= ->]. left.
Qed.

Lemma longest_in rs path best p h :
  longest rs path best = Some (p, h) → best = Some (p, h) ∨ ((p, h) ∈ rs ∧ has_prefix p path = true).
Proof.
  revert best. induction rs as [|[q h'] rs IH]; intros best; simpl; [by left|]. intros Hl.
  apply IH in Hl as [Hl|[Hin Hp]]; [|right; split; [by right|done]].
  destruct (ends_in_slash q && has_prefix q path && _) eqn:E; [|by left].
  injection Hl as -> ->. right. split; [left|]. apply andb_true_iff in E as [[_ ?]%andb_true_iff _]. done.
Qed.

Lemma prefix_refl s : has_prefix s s = true.
Proof. unfold has_prefix. induction s as [|c s IH]; [done|]. simpl. by destruct (ascii_dec c c). Qed.

(** A request is answered by a handler whose pattern begins the path. *)
Lemma wp_mux rs r Q (σ : hstate S T) :
  (∀ p h, (p, h) ∈ rs → has_prefix p (r_Path r) = true → wp (h r) Q σ) →
  (∀ st, Q (HVal ()) {| hs_world := hs_world σ; hs_resp := hs_resp σ ++ [WHeader st] |}) →
  wp (mux_ServeHTTP rs r) Q σ.
Proof.
  intros Hh Hw. unfold mux_ServeHTTP. destruct (exact rs (r_Path r)) as [h|] eqn:E.
  { eapply Hh; [by apply exact_in|apply prefix_refl]. }
  destruct (exact rs (r_Path r +:+ "/")); [by apply wp_write|].
  destruct (longest rs (r_Path r) None) as [[p h]|] eqn:El; [|by apply wp_write].
  apply longest_in in El as [?|[? ?]]; [done|]. by eapply Hh.
Qed.
End mux_facts.

(** * Requests *)

Section request.
  Context (conf : Conf) {CR : Crypto} {SG : Signatures} {EN : Encoder} {GV : GVersion}.
  Context {RF : ReportFormats} {RE : Regexp} {SI : SortImpl} {PU : Pushing} {FN : FloatNotations} (uniLN : string → bool) (fuel : nat).
  Context (md5hex : string → string) {S T : Type}.
  Context {OO : StoreOps S object} {L : StoreLaws S object} {TB : TableOps S object} {TL : TableLaws S object}.
  Context {TO : TrieOps T}.
  Context (pprofHandler : Request → handler S T ()).
  Implicit Types (w wi : world S T) (r : Request) (a : Actor).

(** The paths whose handler is a parameter. *)
Definition other_paths : list string := ["/debug/pprof/"].

Definition described r : bool :=
  negb (existsb (λ p, has_prefix p (r_Path (clean_request r))) other_paths).

(** The actor of a request, whose signature was checked. *)
Definition request_actor r wi a : Prop :=
  GetReqUser conf wi (Header_Get r "X-Ops-Userid") = Ok a ∧
  (UseAuth conf = true →
   ∃ userID, CheckHeader conf wi userID (set_opUser (clean_request r) None) = Ok () ∧
     (userID = Header_Get r "X-Ops-Userid" ∨
      userID = "chef-webui" ∧ Header_Get r "X-Ops-Request-Source" = "web" ∧ DisableWebUI conf = false)).

(** What a request leaves behind. *)
Inductive served r wi : world S T → Prop :=
| served_none : served r wi wi
| served_file chksum f :
    in_file_store (clean_request r) = true → writes r → is_ok (Filestore.Get (sto wi) chksum) = false →
    Filestore.New_ md5hex (sto wi) chksum (r_Content r) (r_ContentLength r) = Ok f →
    served r wi (set_sto wi (Filestore.Save (sto wi) f))
| served_actor a w' :
    request_actor r wi a → effects conf md5hex (set_opUser (clean_request r) (Some a)) a wi wi w' → served r wi w'.

Local Abbreviation all_routes :=
  (routes conf uniLN fuel md5hex pprofHandler).

(** A handler that is reached without an actor. *)
Lemma route_unauthenticated r q p h (σ : hstate S T) :
  q ∈ noOpUserReqs → has_prefix q (r_Path r) = true →
  existsb (λ p, has_prefix p (r_Path r)) other_paths = false →
  (p, h) ∈ all_routes → has_prefix p (r_Path r) = true →
  wp (h r) (λ _ σ', hs_world σ' = hs_world σ ∨ ∃ chksum f, in_file_store r = true ∧ writes r ∧
    is_ok (Filestore.Get (sto (hs_world σ)) chksum) = false ∧
    Filestore.New_ md5hex (sto (hs_world σ)) chksum (r_Content r) (r_ContentLength r) = Ok f ∧
    hs_world σ' = set_sto (hs_world σ) (Filestore.Save (sto (hs_world σ)) f)) σ.
Proof.
  intros Hq Hqp Ho Hin Hp. pose proof (prefix_comparable _ _ _ Hqp Hp) as Hc.
  unfold routes in Hin. unfold noOpUserReqs in Hq.
  repeat (apply elem_of_cons in Hin as [[= -> ->]|Hin];
    [try solve [exfalso; repeat (apply elem_of_cons in Hq as [->|Hq]; [vm_compute in Hc; discriminate|]);
                by apply not_elem_of_nil in Hq]
    |]); [..|by apply not_elem_of_nil in Hin].
  - unfold authenticateUserHandler. repeat hstep; by left.
  - unfold principalHandler. repeat hstep; by left.
  - unfold fileStoreHandler. repeat hstep; simplify_eq; try by left. all: right; eexists (str_from 12 (r_Path r)), _; split_and!; try done.
    all: try by (apply (prefix_app "/file_store" "/")).
    all: try by eauto with effect. all: by rewrite E.
  - unfold universeHandler. repeat hstep; by left.
  - apply wp_ret. by left.
  - simpl in Ho. rewrite Hp in Ho. done.
Qed.

(** A handler that is reached with one. *)
Lemma route_actor r a p h (σ : hstate S T) :
  r_opUser r = Some a → st_inv (sto (hs_world σ)) →
  existsb (λ p, has_prefix p (r_Path r)) other_paths = false →
  (p, h) ∈ all_routes → has_prefix p (r_Path r) = true →
  wp (h r) (λ _ σ', effects conf md5hex r a (hs_world σ) (hs_world σ) (hs_world σ')) σ.
Proof.
  intros Ha Hi Ho Hin Hp. simpl in Ho. rewrite orb_false_r in Ho.
  assert (effects conf md5hex r a (hs_world σ) (hs_world σ) (hs_world σ)) as Hr by constructor.
  unfold routes in Hin.
  repeat (apply elem_of_cons in Hin as [[= -> ->]|Hin]; [first
    [by apply authenticate_lawful|by apply list_lawful|by eapply client_lawful|by apply cookbook_lawful
    |by apply data_lawful|by apply environment_lawful|by apply node_lawful|by apply principal_lawful
    |by apply role_lawful|by apply sandbox_lawful|by eapply user_lawful|by apply file_lawful
    |by apply event_list_lawful|by apply event_lawful|by apply universe_lawful|by apply status_lawful
    |by apply search_lawful|by apply reindex_lawful|by apply report_lawful|by apply shovey_lawful|by apply wp_ret|congruence]|]).
  by apply not_elem_of_nil in Hin.
Qed.

(** An actor that was found for a path that needs one passed the check. *)
Lemma unsigned_no_actor r :
  unsigned r = true → existsb (λ p, has_prefix p (r_Path r)) noOpUserReqs = true.
Proof.
  unfold unsigned, in_file_store. simpl. intros Hu. rewrite orb_false_r.
  destruct (has_prefix "/file_store" (r_Path r)); [by rewrite !orb_true_r|].
  destruct (has_prefix "/debug" (r_Path r)); [by rewrite !orb_true_r|]. simpl in Hu.
  apply andb_true_iff in Hu as [-> _]. by rewrite !orb_true_r.
Qed.

Lemma clean_header r k : Header_Get (set_opUser (clean_request r) None) k = Header_Get r k.
Proof. unfold clean_request. by destruct (bool_decide _). Qed.

Lemma clean_same r :
  r_Method (clean_request r) = r_Method r ∧ r_Content (clean_request r) = r_Content r ∧
  r_ContentLength (clean_request r) = r_ContentLength r.
Proof. unfold clean_request. by destruct (bool_decide _). Qed.

(** The last step, without and with an actor. *)
Lemma mux_unauthenticated r (σ : hstate S T) :
  existsb (λ p, has_prefix p (r_Path (clean_request r))) other_paths = false →
  existsb (λ p, has_prefix p (r_Path (set_opUser (clean_request r) None))) noOpUserReqs = true →
  wp (mux_ServeHTTP all_routes (set_opUser (clean_request r) None)) (λ _ σ', served r (hs_world σ) (hs_world σ')) σ.
Proof.
  intros Ho Hn. apply wp_mux; [|constructor]. intros p h Hin Hp.
  apply existsb_exists in Hn as (q & Hq%list_elem_of_In & Hqp).
  eapply wp_mono; [by eapply route_unauthenticated|]. simpl. destruct (clean_same r) as (Hm & Hc & Hl).
  intros o σ' [->|(chksum & f & Hf & Hw & Hg & Hnew & ->)]; [constructor|]. simpl in *. rewrite Hc, Hl in Hnew.
  eapply served_file; [done| |done..]. unfold writes in *. simpl in Hw. by rewrite Hm in Hw.
Qed.

Lemma mux_actor r a (σ : hstate S T) :
  existsb (λ p, has_prefix p (r_Path (clean_request r))) other_paths = false → st_inv (sto (hs_world σ)) →
  request_actor r (hs_world σ) a →
  wp (mux_ServeHTTP all_routes (set_opUser (set_opUser (clean_request r) None) (Some a)))
     (λ _ σ', served r (hs_world σ) (hs_world σ')) σ.
Proof.
  intros Ho Hi Ha. apply wp_mux; [|constructor]. intros p h Hin Hp.
  eapply wp_mono; [by eapply route_actor|]. intros o σ' He. by eapply served_actor.
Qed.

Lemma server_served r (σ : hstate S T) :
  described r = true → st_inv (sto (hs_world σ)) →
  wp (ServeHTTP conf uniLN fuel md5hex pprofHandler r)
     (λ _ σ', served r (hs_world σ) (hs_world σ')) σ.
Proof.
  intros Hd%negb_true_iff Hi. unfold ServeHTTP, http_Error, checked_user, with_actor, report_status. cbv zeta.
  repeat (match goal with |- wp (mux_ServeHTTP _ _) _ _ => fail 1 | |- _ => hstep end); try by constructor.
  all: rewrite ?clean_header in *.
  all: first [by apply mux_unauthenticated|apply mux_actor; [done..|]].
  all: repeat match goal with x : () |- _ => destruct x end; split; [done|]; intros Hu; rewrite ?Hu in *.
  all: try match goal with H : true && negb (unsigned ?x) = false |- _ =>
         simpl in H; apply negb_false_iff, unsigned_no_actor in H; congruence end.
  all: eexists; split; [eassumption|]; first [by left|right; split_and!; [done|by eapply bool_decide_eq_true_1|done]].
Qed.
End request.
