(* ===== verification/ServerSafety.v ===== *)
(** What holds of the server whatever requests it serves: an invariant of all
    it stores, what those who are not administrators cannot change, and that
    requests that read change nothing. *)
From S2P Require Import Prelude Gerror Iface Config Store Datastore Tables UtilStrings Objects Filestore Validations.
From S2P Require Import Versioning Cookbooks CookbookFacts CookbookSafety CookbookDeps Deperr Flatten FileIndex World Nodes Roles Environments Sandboxes Clients Users.
From S2P Require Import Actors DataBags Reports Loginfo Searches Http Authentication Statuses HandlersObj HandlersData HandlersCook Quorum Shoveys ShoveyFacts HandlersMisc HandlersSearch HandlersShovey Server Effects.
From S2P Require Import Lawful LawfulSearch LawfulShovey ServerFacts.

(** * The invariant *)

Section invariant.
  Context (conf : Conf) (md5hex : string → string) {S T : Type}.
  Context {OO : StoreOps S object} {L : StoreLaws S object}.
  Implicit Types (w : world S T) (s : S).

(** No client is both an administrator and a validator. *)
Definition rights_exclusive s : Prop :=
  ∀ k c, st_get s "client" k = Ok (Some (OClient c)) → c_Admin c && c_Validator c = false.

(** What is stored as the default environment is the built-in one. *)
Definition default_builtin s : Prop :=
  ∀ o, st_get s "env" "_default" = Ok (Some o) → o = s_inj defaultEnvironment.

(** Jobs, their runs and the pieces of their output are under their names. *)
Definition jobs_wf s : Prop :=
  kind_wf (A := Shovey) s ∧ kind_wf (A := ShoveyRun) s ∧ kind_wf (A := ShoveyRunStream) s.

Record server_inv w : Prop := {
  si_books : cb_inv (sto w);
  si_content : Filestore.content_addressed md5hex (sto w);
  si_actors : actors_inv w;
  si_rights : rights_exclusive (sto w);
  si_nodes : kind_wf (A := Node) (sto w);
  si_roles : kind_wf (A := Role) (sto w);
  si_envs : kind_wf (A := ChefEnvironment) (sto w);
  si_default : default_builtin (sto w);
  si_bags : kind_wf (A := DataBag) (sto w);
  si_sandboxes : kind_wf (A := Sandbox) (sto w);
  si_reports : kind_wf (A := Report) (sto w);
  si_jobs : jobs_wf (sto w);
}.
End invariant.

Section frames.
  Context {S T : Type} {OO : StoreOps S object} {L : StoreLaws S object}.
  Implicit Types (w : world S T) (s : S).

Lemma kind_frame `{Stored A} {SL : StoredLaws A} ts s s' :
  frame ts s s' → s_type A ∉ ts → st_inv s → kind_wf (A := A) s → kind_wf (A := A) s'.
Proof. intros Hf Hn Hi Hw k o. destruct (Hf Hi) as [_ Hg]. rewrite Hg by (done || apply s_type_ok). apply Hw. Qed.

Lemma file_get_frame ts s s' k :
  frame ts s s' → "filestore" ∉ ts → st_inv s → Filestore.Get s' k = Filestore.Get s k.
Proof. intros Hf Hn Hi. destruct (Hf Hi) as [_ Hg]. unfold Filestore.Get. by rewrite Hg. Qed.

Lemma books_frame ts s s' :
  frame ts s s' → "cookbook" ∉ ts → "filestore" ∉ ts → cb_inv s → cb_inv s'.
Proof.
  intros Hf Hc Hn [Hi Hw Hb Hp]. destruct (Hf Hi) as [Hi' Hg]. split; [done|..].
  - intros k o. rewrite Hg by done. apply Hw.
  - intros n o. rewrite Hg by done. apply Hb.
  - intros c v h (n & k & Hgc & Hk) Hh. unfold Cookbooks.Get in Hgc. rewrite Hg in Hgc by done.
    destruct (Hp c v h) as [f Hf']; [by exists n, k|done|]. exists f. by erewrite file_get_frame.
Qed.

Lemma actors_frame ts w w' :
  frame ts (sto w) (sto w') → "client" ∉ ts → "user" ∉ ts → actors_inv w → actors_inv w'.
Proof.
  intros Hf Hc Hu [Hi Hcw Huw Hd]. destruct (Hf Hi) as [Hi' Hg]. split; [done|by eapply kind_frame..|].
  intros k. unfold load. rewrite !Hg by done. apply Hd.
Qed.
End frames.

Section rights.
  Context {S : Type} {OO : StoreOps S object} {L : StoreLaws S object}.
  Implicit Types s : S.

Lemma rights_store s c :
  st_inv s → c_Admin c && c_Validator c = false → rights_exclusive s → rights_exclusive (store s c).
Proof.
  intros Hi Hc Hr k c'. unfold store. rewrite st_get_set by done. case_bool_decide; [|apply Hr].
  by intros [= <-].
Qed.

Lemma rights_unstore s k : st_inv s → rights_exclusive s → rights_exclusive (unstore (A := Client) s k).
Proof. intros Hi Hr k' c'. unfold unstore. rewrite st_get_del by done. case_bool_decide; [done|apply Hr]. Qed.

Lemma rights_user s s' : frame ["user"] s s' → st_inv s → rights_exclusive s → rights_exclusive s'.
Proof. intros Hf Hi Hr k c. destruct (Hf Hi) as [_ Hg]. rewrite Hg by (done || set_solver). apply Hr. Qed.
End rights.

Section preserve.
  Context (conf : Conf) {CR : Crypto} {EN : Encoder} {GV : GVersion} (md5hex : string → string) {S T : Type}.
  Context {OO : StoreOps S object} {L : StoreLaws S object}.
  Context {TO : TrieOps T}.
  Implicit Types (w wi : world S T) (s : S).

(** Storing a job, a run, or a piece of output. *)
Lemma jobs_store_shovey s (x : Shovey) : st_inv s → jobs_wf s → jobs_wf (store s x).
Proof. intros Hi (H1 & H2 & H3). split_and!; [by apply store_kind_wf|by apply kind_wf_store_ne..]. Qed.

Lemma jobs_store_run s (x : ShoveyRun) : st_inv s → jobs_wf s → jobs_wf (store s x).
Proof. intros Hi (H1 & H2 & H3). split_and!; [by apply kind_wf_store_ne|by apply store_kind_wf|by apply kind_wf_store_ne]. Qed.

Lemma jobs_store_stream s (x : ShoveyRunStream) : st_inv s → jobs_wf s → jobs_wf (store s x).
Proof. intros Hi (H1 & H2 & H3). split_and!; [by apply kind_wf_store_ne..|by apply store_kind_wf]. Qed.

(** What is to be shown of a change that touches some types only. *)
Lemma inv_by_frame ts w w' :
  server_inv md5hex w → frame ts (sto w) (sto w') →
  ("cookbook" ∈ ts ∨ "filestore" ∈ ts → cb_inv (sto w') ∧ Filestore.content_addressed md5hex (sto w')) →
  ("client" ∈ ts ∨ "user" ∈ ts → actors_inv w' ∧ rights_exclusive (sto w')) →
  ("node" ∈ ts → kind_wf (A := Node) (sto w')) → ("role" ∈ ts → kind_wf (A := Role) (sto w')) →
  ("env" ∈ ts → kind_wf (A := ChefEnvironment) (sto w') ∧ default_builtin (sto w')) →
  ("data_bag" ∈ ts → kind_wf (A := DataBag) (sto w')) → ("sandbox" ∈ ts → kind_wf (A := Sandbox) (sto w')) →
  ("report" ∈ ts → kind_wf (A := Report) (sto w')) →
  ("shovey" ∈ ts ∨ "shovey_run" ∈ ts ∨ "shovey_run_stream" ∈ ts → jobs_wf (sto w')) →
  server_inv md5hex w'.
Proof.
  intros [Hb Hc Ha Hr Hn Hro He Hd Hbg Hs Hrp Hj] Hf Pb Pa Pn Pr Pe Pbg Ps Prp Pj.
  assert (st_inv (sto w)) as Hi by apply Hb. destruct (Hf Hi) as [Hi' Hg].
  assert (cb_inv (sto w') ∧ Filestore.content_addressed md5hex (sto w')) as [??].
  { destruct (decide ("cookbook" ∈ ts ∨ "filestore" ∈ ts)) as [H|Hn']; [by apply Pb|].
    assert (("cookbook" ∉ ts) ∧ ("filestore" ∉ ts)) as [??] by tauto.
    split; [by eapply books_frame|]. intros k f. erewrite file_get_frame by done. apply Hc. }
  assert (actors_inv w' ∧ rights_exclusive (sto w')) as [??].
  { destruct (decide ("client" ∈ ts ∨ "user" ∈ ts)) as [H'|Hn']; [by apply Pa|].
    assert (("client" ∉ ts) ∧ ("user" ∉ ts)) as [??] by tauto.
    split; [by eapply actors_frame|]. intros k c. rewrite Hg by done. apply Hr. }
  assert (kind_wf (A := ChefEnvironment) (sto w') ∧ default_builtin (sto w')) as [??].
  { destruct (decide ("env" ∈ ts)); [by apply Pe|]. split; [by eapply kind_frame|].
    intros o. rewrite Hg by done. apply Hd. }
  split; try done.
  - destruct (decide ("node" ∈ ts)); [by apply Pn|by eapply kind_frame].
  - destruct (decide ("role" ∈ ts)); [by apply Pr|by eapply kind_frame].
  - destruct (decide ("data_bag" ∈ ts)); [by apply Pbg|by eapply kind_frame].
  - destruct (decide ("sandbox" ∈ ts)); [by apply Ps|by eapply kind_frame].
  - destruct (decide ("report" ∈ ts)); [by apply Prp|by eapply kind_frame].
  - destruct (decide ("shovey" ∈ ts ∨ "shovey_run" ∈ ts ∨ "shovey_run_stream" ∈ ts)) as [H'|Hn']; [by apply Pj|].
    destruct Hj as (?&?&?). split_and!; eapply kind_frame; naive_solver.
Qed.

(** No file appears, and none changes. *)
Definition fewer_files s s' : Prop := ∀ k f, Filestore.Get s' k = Ok f → Filestore.Get s k = Ok f.

Lemma DeleteHashes_fewer s hs s' :
  st_inv s → Filestore.files_wf s → Filestore.DeleteHashes s hs = Ok s' → fewer_files s s'.
Proof.
  intros Hi Hw Hd k f. destruct (Filestore.DeleteHashes_spec s hs Hi Hw) as (s1 & E & _ & _ & Hg & _).
  rewrite Hd in E. injection E as <-. rewrite Hg. by case_bool_decide.
Qed.

Lemma UpdateVersion_fewer s cbv data force s' cbv' :
  cb_inv s → UpdateVersion conf s cbv data force = Ok (s', cbv') → fewer_files s s'.
Proof.
  intros [Hi Hw _ _] Hu. apply UpdateVersion_inv in Hu as [_ [[_ ->]|(_ & cb & _ & Hd)]]; [by intros k f|].
  unfold deleteHashes in Hd. apply bind_Ok in Hd as (ac & _ & Hd). by eapply DeleteHashes_fewer.
Qed.

Lemma content_fewer s s' :
  fewer_files s s' → Filestore.content_addressed md5hex s → Filestore.content_addressed md5hex s'.
Proof. intros Hf Hc k f Hg. by apply Hc, Hf. Qed.

Lemma content_same s s' :
  (∀ k, Filestore.Get s' k = Filestore.Get s k) → Filestore.content_addressed md5hex s →
  Filestore.content_addressed md5hex s'.
Proof. intros Hf Hc k f Hg. apply Hc. by rewrite <-Hf. Qed.

Lemma empty_cookbook name : wf_cookbook {| cb_Name := name; cb_Versions := []; cb_latest := None |}.
Proof. split; simpl; [constructor|..]; intros ?? Hin; by apply not_elem_of_nil in Hin. Qed.

(** Cookbooks and files. *)
Definition files_inv s : Prop := cb_inv s ∧ Filestore.content_addressed md5hex s.

Lemma cookbook_new_inv s name cb :
  files_inv s → Cookbooks.New_ s name = Ok cb → files_inv (Cookbooks.Save s cb).
Proof.
  intros [Hb Hc] ->%cookbook_new. split.
  - apply save_inv; [done|apply empty_cookbook|]. intros k v h Hin. by apply not_elem_of_nil in Hin.
  - eapply content_same; [|done]. intros k. apply Save_files, Hb.
Qed.

Lemma cookbook_delete_inv s cb : files_inv s → files_inv (Cookbooks.Delete s cb).
Proof.
  intros [[Hi Hf Hw Hp] Hc]. unfold Cookbooks.Delete.
  assert (∀ k, Filestore.Get (st_del s "cookbook" (cb_Name cb)) k = Filestore.Get s k) as Hg.
  { intros k. unfold Filestore.Get. rewrite st_get_del by done. by rewrite bool_decide_false by (intros [[=] _]). }
  split; [split|by eapply content_same].
  - by apply st_del_inv.
  - intros k o. rewrite st_get_del by done. rewrite bool_decide_false by (intros [[=] _]). apply Hf.
  - intros n o. rewrite st_get_del by done. case_bool_decide; [done|apply Hw].
  - intros c v h (n & k & Hgc & Hk) Hh. unfold Cookbooks.Get in Hgc. rewrite st_get_del in Hgc by done.
    case_bool_decide; [done|]. destruct (Hp c v h) as [f Hf']; [by exists n, k|done|]. exists f. by rewrite Hg.
Qed.

Lemma version_new_inv s cb ver data s' c' cbv :
  files_inv s → (∃ name, Cookbooks.Get s name = Ok (Some cb)) ∨ cb_Versions cb = [] →
  NewVersion conf s cb ver data = Ok (s', c', cbv) → files_inv s'.
Proof.
  intros [Hb Hc] Hg Hn.
  assert (wf_cookbook cb ∧ book_present s cb) as [Hw Hp].
  { destruct Hg as [[name Hg]|He].
    - split; [by eapply Get_wf; [apply Hb|]|by eapply stored_present].
    - split; [split; rewrite He; simpl; [constructor|..]; intros ?? Hin; by apply not_elem_of_nil in Hin|].
      intros k v h. rewrite He. intros Hin. by apply not_elem_of_nil in Hin. }
  split; [by eapply new_version_inv|]. unfold NewVersion in Hn. destruct (GetVersion cb ver); [done| |done].
  apply bind_Ok in Hn as ([s1 v1] & Hu & Hn). apply bind_Ok in Hn as (c1 & _ & [= <- <- <-]).
  eapply content_same; [intros k; apply Save_files|].
  - eapply (UpdateVersion_frame conf ["filestore"]) in Hu; [by apply Hu, Hb|]. apply list_elem_of_here.
  - eapply content_fewer; [by eapply UpdateVersion_fewer|done].
Qed.

Lemma version_update_inv s name cb ver cbv data force s' cbv' :
  files_inv s → Cookbooks.Get s name = Ok (Some cb) → mlookup ver (cb_Versions cb) = Some cbv →
  UpdateVersion conf s cbv data force = Ok (s', cbv') →
  files_inv (Cookbooks.Save s' (set_versions cb (mset ver cbv' (cb_Versions cb)))).
Proof.
  intros [Hb Hc] Hg Hv Hu. split; [by eapply update_save_inv|].
  eapply content_same; [intros k; apply Save_files|].
  - pose proof Hu as Hf. eapply (UpdateVersion_frame conf ["filestore"]) in Hf; [by apply Hf, Hb|]. apply list_elem_of_here.
  - eapply content_fewer; [by eapply UpdateVersion_fewer|done].
Qed.

Lemma version_delete_inv s name cb ver cbv s' c' :
  files_inv s → Cookbooks.Get s name = Ok (Some cb) → GetVersion cb ver = Ok (cbv, cb) →
  DeleteVersion s cb ver = Ok (s', c') → files_inv s'.
Proof.
  intros [Hb Hc] Hg Hv Hd.
  destruct (delete_version_inv _ _ _ _ _ _ Hb Hg Hv) as (s1 & Hd1 & Hb1 & _ & _).
  assert (s1 = s') as -> by congruence. split; [done|].
  unfold DeleteVersion in Hd. rewrite Hv in Hd. apply bind_Ok in Hd as (s2 & Hd & [= -> _]).
  unfold deleteHashes in Hd. apply bind_Ok in Hd as (ac & _ & Hd).
  eapply content_fewer; [eapply DeleteHashes_fewer; [| |exact Hd]|].
  - by apply st_set_inv; [|apply Hb].
  - apply Save_files_wf; apply Hb.
  - eapply content_same; [|exact Hc]. intros k. apply Save_files, Hb.
Qed.

Lemma file_save_inv s chksum body n f :
  files_inv s → Filestore.New_ md5hex s chksum body n = Ok f → files_inv (Filestore.Save s f).
Proof.
  intros [Hb Hc] Hn. split; [by apply upload_inv|].
  assert (0 ≤ n)%Z as Hz. { unfold Filestore.New_ in Hn. destruct (n <? 0)%Z eqn:E; [done|]. lia. }
  apply Filestore.New_Ok in Hn as (_ & -> & Hm & _); [|apply Hb..|done]. simpl in Hm.
  intros k g. rewrite Filestore.file_Get_Save by apply Hb. simpl. case_bool_decide as E; [|apply Hc].
  intros [= <-]. by subst.
Qed.

Lemma bag_delete_wf w db : st_inv (sto w) → kind_wf (A := DataBag) (sto w) → kind_wf (A := DataBag) (sto (DataBags.Delete w db)).
Proof.
  intros Hi Hw. unfold DataBags.Delete.
  assert (∀ names w db, st_inv (sto w) → kind_wf (A := DataBag) (sto w) →
    st_inv (sto (delete_items w db names).1) ∧ kind_wf (A := DataBag) (sto (delete_items w db names).1)) as Hl.
  { clear. induction names as [|n names IH]; intros w db Hi Hw; [done|]. cbn [delete_items].
    unfold DeleteDBItem. apply IH; simpl; [by apply (store_inv (A := DataBag))|by apply store_kind_wf]. }
  destruct (Hl (ListDBItems db) w db Hi Hw) as [Hi1 Hw1]. destruct (delete_items _ _ _) as [w1 db1].
  unfold w_DeleteCollection. destruct (FileIndex.DeleteCollection _ _); by apply unstore_kind_wf.
Qed.
End preserve.

(** The types that a change does not touch are no obligation. *)
Ltac other_type :=
  match goal with
  | |- _ ∈ _ ∨ _ ∈ _ → _ => let H := fresh in intros H; exfalso; destruct H as [H|H]; set_solver
  | |- _ ∈ _ ∨ _ ∈ _ ∨ _ ∈ _ → _ => let H := fresh in intros H; exfalso; destruct H as [H|[H|H]]; set_solver
  | |- _ ∈ _ → _ => let H := fresh in intros H; exfalso; set_solver
  end.

Section effect_invariant.
  Context (conf : Conf) {CR : Crypto} {EN : Encoder} {GV : GVersion} (md5hex : string → string) {S T : Type}.
  Context {OO : StoreOps S object} {L : StoreLaws S object}.
  Context {TO : TrieOps T}.
  Implicit Types (w wi : world S T) (s : S).

(** Changes of the tables, and of one kind of objects. *)
Section one_kind.
  Context (w w' : world S T) (Hinv : server_inv md5hex w).

Lemma inv_keeps : keeps_objects (sto w) (sto w') → server_inv md5hex w'.
Proof. intros Hk. apply (inv_by_frame _ [] _ _ Hinv); [by apply keeps_frame|other_type..]. Qed.

Lemma inv_node : frame ["node"] (sto w) (sto w') → kind_wf (A := Node) (sto w') → server_inv md5hex w'.
Proof. intros Hf Hw. by apply (inv_by_frame _ _ _ _ Hinv Hf); try other_type. Qed.

Lemma inv_role : frame ["role"] (sto w) (sto w') → kind_wf (A := Role) (sto w') → server_inv md5hex w'.
Proof. intros Hf Hw. by apply (inv_by_frame _ _ _ _ Hinv Hf); try other_type. Qed.

Lemma inv_bag : frame ["data_bag"] (sto w) (sto w') → kind_wf (A := DataBag) (sto w') → server_inv md5hex w'.
Proof. intros Hf Hw. by apply (inv_by_frame _ _ _ _ Hinv Hf); try other_type. Qed.

Lemma inv_sandbox : frame ["sandbox"] (sto w) (sto w') → kind_wf (A := Sandbox) (sto w') → server_inv md5hex w'.
Proof. intros Hf Hw. by apply (inv_by_frame _ _ _ _ Hinv Hf); try other_type. Qed.

Lemma inv_report : frame ["report"] (sto w) (sto w') → kind_wf (A := Report) (sto w') → server_inv md5hex w'.
Proof. intros Hf Hw. by apply (inv_by_frame _ _ _ _ Hinv Hf); try other_type. Qed.

Lemma inv_jobs :
  frame ["shovey"; "shovey_run"; "shovey_run_stream"] (sto w) (sto w') → jobs_wf (sto w') → server_inv md5hex w'.
Proof. intros Hf Hw. by apply (inv_by_frame _ _ _ _ Hinv Hf); try other_type. Qed.

Lemma inv_env :
  frame ["env"] (sto w) (sto w') → kind_wf (A := ChefEnvironment) (sto w') → default_builtin (sto w') →
  server_inv md5hex w'.
Proof. intros Hf Hw Hd. by apply (inv_by_frame _ _ _ _ Hinv Hf); try other_type. Qed.

Lemma inv_actors :
  frame ["client"; "user"] (sto w) (sto w') → actors_inv w' → rights_exclusive (sto w') → server_inv md5hex w'.
Proof. intros Hf Hw Hr. by apply (inv_by_frame _ _ _ _ Hinv Hf); try other_type. Qed.

Lemma inv_files : frame ["cookbook"; "filestore"] (sto w) (sto w') → files_inv md5hex (sto w') → server_inv md5hex w'.
Proof. intros Hf Hw. by apply (inv_by_frame _ _ _ _ Hinv Hf); try other_type. Qed.
End one_kind.

Lemma client_save_inv w c w' :
  server_inv md5hex w → c_Admin c && c_Validator c = false → Clients.Save conf w c = Ok w' → server_inv md5hex w'.
Proof.
  intros Hinv Hc Hsv. pose proof (actor_step_inv conf _ _ (si_actors _ _ Hinv) (as_client_save conf _ _ _ Hsv)) as Ha.
  pose proof (si_rights _ _ Hinv). assert (st_inv (sto w)) by apply (si_books _ _ Hinv).
  apply client_save_store in Hsv as [Hs _]. eapply inv_actors; [done| |done|]; rewrite Hs; [solve_frame|].
  by apply rights_store.
Qed.

Lemma actor_gone_inv w k w' :
  server_inv md5hex w → sto w' = unstore (A := Client) (sto w) k → server_inv md5hex w'.
Proof.
  intros Hinv Hs. pose proof (si_rights _ _ Hinv). assert (st_inv (sto w)) by apply (si_books _ _ Hinv).
  eapply inv_actors; [done| |by eapply client_unstore_inv; [apply Hinv|]|]; rewrite Hs; [solve_frame|].
  by apply rights_unstore.
Qed.

Lemma user_change_inv w w' :
  server_inv md5hex w → actor_step conf w w' → frame ["user"] (sto w) (sto w') → server_inv md5hex w'.
Proof.
  intros Hinv Hst Hf. eapply inv_actors; [done| |eapply actor_step_inv; [apply Hinv|done]|].
  - eapply frame_weaken; [|done]. set_solver.
  - eapply rights_user; [done|apply (si_books _ _ Hinv)|apply Hinv].
Qed.

Lemma env_change_inv w w' e :
  server_inv md5hex w → sto w' = store (sto w) e ∧ e_Name e ≠ "_default" ∨
    sto w' = unstore (A := ChefEnvironment) (sto w) (e_Name e) →
  server_inv md5hex w'.
Proof.
  intros Hinv Hs. assert (st_inv (sto w)) as Hi by apply (si_books _ _ Hinv).
  pose proof (si_envs _ _ Hinv) as Hw. pose proof (si_default _ _ Hinv) as Hd.
  destruct Hs as [[Hs Hn]|Hs]; (eapply inv_env; [done|..]; unfold default_builtin; rewrite Hs; [solve_frame|..]).
  - by apply store_kind_wf.
  - intros o. unfold store. rewrite st_get_set by done. rewrite bool_decide_false by (intros [_ He]; by apply Hn). apply Hd.
  - by apply unstore_kind_wf.
  - intros o. unfold unstore. rewrite st_get_del by done. case_bool_decide; [done|apply Hd].
Qed.

Lemma bag_store_inv w w' db : server_inv md5hex w → sto w' = store (A := DataBag) (sto w) db → server_inv md5hex w'.
Proof.
  intros Hinv Hs. assert (st_inv (sto w)) as Hi by apply (si_books _ _ Hinv).
  eapply inv_bag; [done|rewrite Hs; solve_frame|]. rewrite Hs. apply store_kind_wf; [done|apply Hinv].
Qed.

Context {TB : TableOps S object} {TL : TableLaws S object}.

(** Every change keeps the invariant. *)
Lemma effect_server_inv r a wi w w' :
  server_inv md5hex w → effect conf md5hex r a wi w w' → server_inv md5hex w'.
Proof.
  intros Hinv He. pose proof Hinv as [Hb Hc Ha Hr Hn Hro Hev Hd Hbg Hs Hrp Hj]. assert (st_inv (sto w)) as Hi by apply Hb.
  assert (files_inv md5hex (sto w)) as Hfi by done.
  destruct He; try by eapply client_save_inv.
  all: try by (eapply inv_keeps; [done|]; eauto using tb_purge_keeps, tb_delete_log_keeps, new_status_keeps).
  - eapply inv_keeps; [done|]. by eapply LogEvent_keeps.
  - eapply inv_keeps; [done|]. apply LatestStatus_keeps.
  - eapply inv_report; [done|unfold Reports.Save; simpl; solve_frame|by apply (store_kind_wf (A := Report))].
  - eapply inv_jobs; [done|simpl; solve_frame|by apply jobs_store_shovey].
  - eapply inv_jobs; [done|unfold save_run; simpl; solve_frame|by apply jobs_store_run].
  - eapply inv_jobs; [done|simpl; solve_frame|by apply jobs_store_stream].
  - eapply inv_node; [done|simpl; solve_frame|by apply (store_kind_wf (A := Node))].
  - eapply inv_node; [done|simpl; solve_frame|by apply unstore_kind_wf].
  - eapply inv_role; [done|simpl; solve_frame|by apply (store_kind_wf (A := Role))].
  - eapply inv_role; [done|simpl; solve_frame|by apply unstore_kind_wf].
  - eapply (env_change_inv _ _ e); [done|left]. unfold Environments.Save in *. case_bool_decide; [done|]. by simplify_eq.
  - eapply (env_change_inv _ _ e); [done|right]. by apply env_delete_store.
  - eapply inv_keeps; [done|]. store_facts. done.
  - by eapply bag_store_inv.
  - eapply inv_bag; [done|simpl; solve_frame|by apply bag_delete_wf].
  - eapply bag_store_inv; [done|]. by eapply item_new_store.
  - eapply bag_store_inv; [done|]. by eapply item_update_store.
  - by eapply bag_store_inv.
  - eapply inv_sandbox; [done|unfold Sandboxes.Save; simpl; solve_frame|by apply (store_kind_wf (A := Sandbox))].
  - eapply inv_files; [done|unfold Filestore.Save; simpl; solve_frame|by eapply file_save_inv].
  - eapply actor_gone_inv; [done|]. by apply client_delete_store.
  - eapply actor_gone_inv; [done|]. by eapply client_rename_store.
  - eapply user_change_inv; [done|by eapply as_user_save|]. store_facts. solve_frame.
  - eapply user_change_inv; [done|by eapply as_user_delete|]. store_facts. solve_frame.
  - eapply actor_gone_inv; [done|]. by eapply user_rename_store.
  - eapply inv_files; [done|unfold Cookbooks.Save; simpl; solve_frame|by eapply cookbook_new_inv].
  - eapply inv_files; [done|unfold Cookbooks.Delete; simpl; solve_frame|by apply cookbook_delete_inv].
  - eapply inv_files; [done|simpl; solve_frame|by eapply version_new_inv].
  - eapply inv_files; [done|simpl; unfold Cookbooks.Save; solve_frame|by eapply version_update_inv].
  - eapply inv_files; [done|simpl; solve_frame|by eapply version_delete_inv].
Qed.

Lemma effects_server_inv r a wi w w' :
  server_inv md5hex w → effects conf md5hex r a wi w w' → server_inv md5hex w'.
Proof. intros Hi He. induction He; eauto using effect_server_inv. Qed.
End effect_invariant.
