(* ===== verification/Maintenance.v ===== *)
(** What the server does on its own (src/goiardi.go): creating the default
    actors and the default environment when it starts, and the jobs that purge
    old events, sandboxes, reports and node statuses and mark nodes as down. *)
From S2P Require Import Prelude SortSearch Gerror Iface Config Store Datastore Tables UtilStrings Objects Filestore Validations.
From S2P Require Import Versioning Cookbooks CookbookFacts CookbookSafety CookbookDeps Deperr Flatten FileIndex World Nodes Roles Environments.
From S2P Require Import Sandboxes Clients Users Actors DataBags Reports Loginfo Http Authentication Statuses HandlersObj HandlersData HandlersCook.
From S2P Require Import Quorum Shoveys ShoveyFacts HandlersMisc HandlersSearch HandlersShovey Server Effects Lawful ServerFacts ServerSafety.

Section definitions.
  Context (conf : Conf) {CR : Crypto} {S T : Type}.
  Context {OO : StoreOps S object} {TB : TableOps S object} {TO : TrieOps T}.
  Implicit Types (w : world S T) (s : S).

(** * Start-up *)

(** The keys that are generated for an actor, whether its key file can be
    written, and the salt of its password.  A failure ends the process, which
    is [None]. *)
Context (keys : string → (string * string) + string) (pem_ok : string → bool) (salt : string).

Definition set_rights (c : Client) (admin validator : bool) (pub : string) : Client :=
  let c := {| c_Name := c_Name c; c_NodeName := c_NodeName c; c_JSONClass := c_JSONClass c; c_ChefType := c_ChefType c;
              c_Validator := validator; c_Orgname := c_Orgname c; c_pubKey := c_pubKey c; c_Admin := admin;
              c_Certificate := c_Certificate c |} in
  match Clients.SetPublicKey c (IStr pub) with Ok c' => c' | _ => c end.

Definition set_admin (u : User) (pub : string) : User :=
  let u := {| u_Username := u_Username u; u_Name := u_Name u; u_Email := u_Email u; u_Admin := true;
              u_pubKey := u_pubKey u; u_passwd := u_passwd u; u_salt := u_salt u |} in
  match Users.SetPublicKey u (IStr pub) with Ok u' => u' | _ => u end.

(** "chef-webui" and "chef-validator"; the error of [Save] is dropped. *)
Definition default_client w (name : string) (admin validator : bool) : outcome (option (world S T)) :=
  match Clients.Get w name with
  | Ok _ => Ok (Some w)
  | Panic p => Panic p
  | Err _ =>
      match Clients.New_ w name with
      | Err _ => Ok None
      | Panic p => Panic p
      | Ok c =>
          match keys name with
          | inr _ => Ok None
          | inl (_, pub) =>
              if UseAuth conf && negb (pem_ok name) then Ok None
              else
                match Clients.Save conf w (set_rights c admin validator pub) with
                | Ok w' => Ok (Some w')
                | Err _ => Ok (Some w)
                | Panic p => Panic p
                end
          end
      end
  end.

Definition default_user w (name : string) : outcome (option (world S T)) :=
  match Users.Get w name with
  | Ok _ => Ok (Some w)
  | Panic p => Panic p
  | Err _ =>
      match Users.New_ w name salt with
      | Err _ => Ok None
      | Panic p => Panic p
      | Ok u =>
          match keys name with
          | inr _ => Ok None
          | inl (_, pub) =>
              if UseAuth conf && negb (pem_ok name) then Ok None
              else
                match Users.Save w (set_admin u pub) with
                | Ok w' => Ok (Some w')
                | Err _ => Ok None
                | Panic p => Panic p
                end
          end
      end
  end.

Definition createDefaultActors w : outcome (option (world S T)) :=
  o ← default_client w "chef-webui" true false;
  match o with
  | None => Ok None
  | Some w =>
      o ← default_client w "chef-validator" false true;
      match o with
      | None => Ok None
      | Some w =>
          o ← default_user w "admin";
          match o with
          | None => Ok None
          | Some w => w ← MakeDefaultEnvironment conf w; Ok (Some w)
          end
      end
  end.

(** * Jobs *)

(** [setLogEventPurgeTicker]: all but the newest events are purged, as many as
    are to be kept, counted by their ids; errors are logged only. *)
Definition purge_events (now logEventKeep : Z) w : outcome (world S T) :=
  match GetLogInfos (sto w) now [] 0 (Some 1%Z) with
  | Panic p => Panic p
  | Err _ | Ok [] => Ok w
  | Ok (le :: _) =>
      match PurgeLogInfos (sto w) (wrap64 (li_ID le - logEventKeep)) with
      | Ok (_, s) => Ok (set_sto w s)
      | Err _ => Ok w
      | Panic p => Panic p
      end
  end.

(** [startSandboxPurge]. *)
Definition purge_sandboxes (now dur : Z) w : outcome (world S T) :=
  match Purge (sto w) now dur with
  | Ok (s, _) => Ok (set_sto w s)
  | Err _ => Ok w
  | Panic p => Panic p
  end.

(** [startReportPurge]. *)
Definition purge_reports (now dur : Z) w : outcome (world S T) :=
  match DeleteByAge (sto w) now dur with
  | Ok (s, _) => Ok (set_sto w s)
  | Err _ => Ok w
  | Panic p => Panic p
  end.

(** What a job leaves: errors are logged only, and a panic ends the server,
    since nothing recovers from it. *)
Definition job {A} (r : outcome A * world S T) : outcome (world S T) :=
  match r with
  | (Panic p, _) => Panic p
  | (_, w) => Ok w
  end.

(** [startNodeStatusPurge]. *)
Definition purge_statuses (now : string → Z) (dur : Z) w : outcome (world S T) :=
  job (DeleteNodeStatusesByAge now dur w).

(** [startNodeMonitor]: the nodes not seen for a while are marked as down. *)
Fixpoint mark_down (now : Z) w (nodes : list Node) : outcome (world S T) :=
  match nodes with
  | [] => Ok w
  | n :: r => w ← job (UpdateStatus conf w n "down" now); mark_down now w r
  end.

Definition monitor_nodes (now : Z) w : outcome (world S T) :=
  match UnseenNodes w now with
  | (Ok unseen, w) => mark_down now w unseen
  | (Err _, w) => Ok w
  | (Panic p, _) => Panic p
  end.
End definitions.

(** * The invariant *)

Section facts.
  Context (conf : Conf) {CR : Crypto} (md5hex : string → string) {S T : Type}.
  Context {OO : StoreOps S object} {L : StoreLaws S object} {TO : TrieOps T}.
  Implicit Types (w : world S T) (s : S).

Lemma empty_server_inv w :
  st_inv (sto w) → (∀ t k, obj_type t = true → st_get (sto w) t k = Ok None) → server_inv md5hex w.
Proof.
  intros Hi Hg. split; [split| |split|..]; try done; try (intros k o; by rewrite Hg); try (split_and!; intros k o; by rewrite Hg).
  - intros c v h (n & k & Hc & _). unfold Cookbooks.Get in Hc. by rewrite Hg in Hc.
  - intros k f. unfold Filestore.Get. by rewrite Hg.
  - intros k. left. unfold load. by rewrite Hg.
  - intros o. by rewrite Hg.
Qed.

Lemma set_rights_spec c admin validator pub :
  c_Admin (set_rights c admin validator pub) = admin ∧ c_Validator (set_rights c admin validator pub) = validator ∧
  c_Name (set_rights c admin validator pub) = c_Name c.
Proof. unfold set_rights, Clients.SetPublicKey. by destruct (key_error pub). Qed.

Lemma set_admin_spec u pub : u_Admin (set_admin u pub) = true ∧ u_Username (set_admin u pub) = u_Username u.
Proof. unfold set_admin, Users.SetPublicKey. by destruct (key_error pub). Qed.

Lemma get_store_ne `{Stored A} {SL : StoredLaws A} s (x : A) t k :
  st_inv s → obj_type t = true → t ≠ s_type A ∨ k ≠ s_name x → st_get (store s x) t k = st_get s t k.
Proof.
  intros Hi Ht Hn. unfold store. rewrite st_get_set by (done || apply s_type_ok).
  by rewrite bool_decide_false by naive_solver.
Qed.

Section startup.
  Context (keys : string → (string * string) + string) (pem_ok : string → bool) (salt : string).

Lemma default_client_inv w name admin validator w' :
  server_inv md5hex w → admin && validator = false →
  default_client conf keys pem_ok w name admin validator = Ok (Some w') → server_inv md5hex w'.
Proof.
  intros Hi Hr. unfold default_client. destruct (Clients.Get w name); [by intros [= <-]| |done].
  destruct (Clients.New_ w name) as [c| |]; [|done..]. destruct (keys name) as [[priv pub]|]; [|done].
  destruct (UseAuth conf && _); [done|].
  destruct (Clients.Save conf w _) as [w1| |] eqn:E; [|by intros [= <-]|done]. intros [= <-].
  eapply client_save_inv; [done| |exact E]. by destruct (set_rights_spec c admin validator pub) as (-> & -> & _).
Qed.

Lemma default_user_inv w name w' :
  server_inv md5hex w → default_user conf keys pem_ok salt w name = Ok (Some w') → server_inv md5hex w'.
Proof.
  intros Hi. unfold default_user. destruct (Users.Get w name); [by intros [= <-]| |done].
  destruct (Users.New_ w name salt) as [u| |]; [|done..]. destruct (keys name) as [[priv pub]|]; [|done].
  destruct (UseAuth conf && _); [done|].
  destruct (Users.Save w _) as [w1| |] eqn:E; [|done..]. intros [= <-].
  eapply (user_change_inv conf); [done|by eapply as_user_save|].
  apply user_save_store in E as [-> _]. solve_frame.
Qed.

Lemma default_environment_inv w w' :
  server_inv md5hex w → MakeDefaultEnvironment conf w = Ok w' → server_inv md5hex w'.
Proof.
  intros Hi. assert (st_inv (sto w)) as Hs by apply (si_books _ _ Hi).
  unfold MakeDefaultEnvironment. intros ([o|] & Hg & [= <-])%bind_Ok; [done|].
  eapply inv_env; [done|simpl; solve_frame|apply store_kind_wf; [done|apply Hi]|].
  intros o. simpl. unfold store. rewrite st_get_set by done. rewrite bool_decide_true by done. by intros [= <-].
Qed.

(** Starting a server keeps the invariant of what it had stored. *)
Lemma startup_inv w w' :
  server_inv md5hex w → createDefaultActors conf keys pem_ok salt w = Ok (Some w') → server_inv md5hex w'.
Proof.
  intros Hi. unfold createDefaultActors. intros ([w1|] & H1 & Hc)%bind_Ok; [|done].
  apply bind_Ok in Hc as ([w2|] & H2 & Hc); [|done]. apply bind_Ok in Hc as ([w3|] & H3 & Hc); [|done].
  apply bind_Ok in Hc as (w4 & H4 & [= <-]).
  apply default_client_inv in H1; [|done..]. apply default_client_inv in H2; [|done..].
  apply default_user_inv in H3; [|done..]. by eapply default_environment_inv.
Qed.

Lemma default_client_fresh w name admin validator priv pub :
  st_get (sto w) "client" name = Ok None → st_get (sto w) "user" name = Ok None →
  validateClientName name = Ok () → keys name = inl (priv, pub) → pem_ok name = true →
  ∃ w' c, default_client conf keys pem_ok w name admin validator = Ok (Some w') ∧ sto w' = store (sto w) c ∧
    c_Name c = name ∧ c_Admin c = admin ∧ c_Validator c = validator.
Proof.
  intros Hc Hu Hv Hk Hp. unfold default_client, Clients.Get, load, Clients.New_. simpl. rewrite Hc. simpl.
  rewrite Hv. simpl. rewrite Hk, Hp, andb_false_r.
  set (c := set_rights _ admin validator pub). destruct (set_rights_spec _ admin validator pub : c_Admin c = _ ∧ _) as (Ha & Hvl & Hn).
  fold c in Ha, Hvl, Hn. simpl in Hn. unfold Clients.Save, chkInMemUser. rewrite Hn, Hu. simpl. eexists _, c. by split_and!.
Qed.

Lemma default_user_fresh w name priv pub :
  st_get (sto w) "user" name = Ok None → st_get (sto w) "client" name = Ok None →
  Users.validateUserName name = Ok () → keys name = inl (priv, pub) → pem_ok name = true →
  ∃ w' u, default_user conf keys pem_ok salt w name = Ok (Some w') ∧ sto w' = store (sto w) u ∧
    u_Username u = name ∧ u_Admin u = true.
Proof.
  intros Hu Hc Hv Hk Hp. unfold default_user, Users.Get, load, Users.New_. simpl. rewrite Hu. simpl.
  rewrite Hv. simpl. rewrite Hk, Hp, andb_false_r.
  set (u := set_admin _ pub). destruct (set_admin_spec _ pub : u_Admin u = _ ∧ _) as (Ha & Hn).
  fold u in Ha, Hn. simpl in Hn. unfold Users.Save, chkInMemClient. rewrite Hn, Hc. simpl. eexists _, u. by split_and!.
Qed.

(** A server that starts with nothing stored, and can write its key files,
    comes up with an administrator client for the web interface, a validator
    client that is not an administrator, and an administrator user, and with
    the invariant in force. *)
Theorem startup_ready w :
  st_inv (sto w) → (∀ t k, obj_type t = true → st_get (sto w) t k = Ok None) →
  (∀ name, pem_ok name = true) → (∀ name, ∃ priv pub, keys name = inl (priv, pub)) →
  ∃ w', createDefaultActors conf keys pem_ok salt w = Ok (Some w') ∧ server_inv md5hex w' ∧
    (∃ c, Clients.Get w' "chef-webui" = Ok c ∧ c_Admin c = true) ∧
    (∃ c, Clients.Get w' "chef-validator" = Ok c ∧ c_Validator c = true ∧ c_Admin c = false) ∧
    (∃ u, Users.Get w' "admin" = Ok u ∧ u_Admin u = true).
Proof.
  intros Hi Hg Hp Hk. pose proof (empty_server_inv w Hi Hg) as Hinv.
  destruct (Hk "chef-webui") as (p1 & k1 & Hk1). destruct (Hk "chef-validator") as (p2 & k2 & Hk2).
  destruct (Hk "admin") as (p3 & k3 & Hk3).
  destruct (default_client_fresh w "chef-webui" true false p1 k1) as (w1 & c1 & E1 & S1 & N1 & A1 & V1); [by auto..|].
  assert (st_inv (sto w1)) as Hi1 by (rewrite S1; by apply store_inv).
  assert (∀ t k, obj_type t = true → t ≠ "client" ∨ k ≠ "chef-webui" → st_get (sto w1) t k = Ok None) as G1.
  { intros t k Ht Hn. rewrite S1, get_store_ne; [by apply Hg|done..|]. simpl. by rewrite N1. }
  destruct (default_client_fresh w1 "chef-validator" false true p2 k2) as (w2 & c2 & E2 & S2 & N2 & A2 & V2);
    [by auto..|].
  assert (st_inv (sto w2)) as Hi2 by (rewrite S2; by apply store_inv).
  assert (∀ t k, obj_type t = true → t ≠ "client" → st_get (sto w2) t k = Ok None) as G2.
  { intros t k Ht Hn. rewrite S2, get_store_ne; [apply G1|..]; auto. }
  assert (st_get (sto w2) "client" "admin" = Ok None) as G2c.
  { rewrite S2, get_store_ne; [apply G1; auto|done..|]. simpl. rewrite N2. by right. }
  destruct (default_user_fresh w2 "admin" p3 k3) as (w3 & u & E3 & S3 & N3 & A3); [by auto..|].
  assert (st_inv (sto w3)) as Hi3 by (rewrite S3; by apply store_inv).
  assert (st_get (sto w3) "env" "_default" = Ok None) as G3 by (rewrite S3, get_store_ne; auto).
  assert (createDefaultActors conf keys pem_ok salt w =
    Ok (Some (IndexObj (set_sto w3 (store (sto w3) defaultEnvironment)) (Environments.indexable conf defaultEnvironment)))) as E.
  { unfold createDefaultActors. rewrite E1. simpl. rewrite E2. simpl. rewrite E3. simpl.
    unfold MakeDefaultEnvironment. by rewrite G3. }
  eexists. split; [exact E|]. split; [by eapply startup_inv|]. unfold Clients.Get, Users.Get. simpl.
  rewrite !(load_store_ne (A := Client) (B := ChefEnvironment)), (load_store_ne (A := User) (B := ChefEnvironment)) by done.
  rewrite S3. rewrite !(load_store_ne (A := Client) (B := User)), (load_store (A := User)) by done. simpl. rewrite N3.
  rewrite S2, !(load_store (A := Client)) by done. simpl. rewrite N2. rewrite S1, (load_store (A := Client)) by done.
  simpl. rewrite N1. split_and!; eexists; (split; [done|]); done.
Qed.
End startup.

(** Objects of one kind that are deleted leave the others alone. *)
Lemma delete_all_kept `{Stored A} {SA : StoredLaws A} s (l : list A) :
  st_inv s → kind_wf (A := A) s →
  let s' := foldl (λ s x, unstore (A := A) s (s_name x)) s l in frame [s_type A] s s' ∧ kind_wf (A := A) s'.
Proof.
  revert s. induction l as [|x l IH]; intros s Hs Hk; [by split|]. simpl.
  destruct (IH (unstore (A := A) s (s_name x))) as [Hf Hw].
  - by apply (unstore_inv (A := A)).
  - by apply unstore_kind_wf.
  - split; [|done]. eapply frame_trans; [|exact Hf]. apply unstore_frame. left.
Qed.

(** The jobs keep it too. *)
Lemma purge_sandboxes_inv now dur w w' :
  server_inv md5hex w → purge_sandboxes now dur w = Ok w' → server_inv md5hex w'.
Proof.
  intros Hi. unfold purge_sandboxes. destruct (Purge (sto w) now dur) as [[s n]| |] eqn:E; [|by intros [= <-]|done].
  intros [= <-]. pose proof (si_sandboxes _ _ Hi) as Hk. unfold Purge in E. apply bind_Ok in E as (l & _ & E).
  assert (∃ gone, s = foldl Sandboxes.Delete (sto w) gone) as [gone ->].
  { repeat case_match; injection E as <- _; [by exists []..|by eexists]. }
  destruct (delete_all_kept (A := Sandbox) (sto w) gone) as [Hf Hw]; [apply (si_books _ _ Hi)|done|].
  by eapply inv_sandbox.
Qed.

Lemma purge_reports_inv now dur w w' :
  server_inv md5hex w → purge_reports now dur w = Ok w' → server_inv md5hex w'.
Proof.
  intros Hi. unfold purge_reports. destruct (DeleteByAge (sto w) now dur) as [[s n]| |] eqn:E; [|by intros [= <-]|done].
  intros [= <-]. pose proof (si_reports _ _ Hi) as Hk. unfold DeleteByAge in E. apply bind_Ok in E as (l & _ & E).
  assert (∃ gone, s = foldl Reports.Delete (sto w) gone) as [gone ->].
  { repeat case_match; injection E as <- _; [by exists []..|by eexists]. }
  destruct (delete_all_kept (A := Report) (sto w) gone) as [Hf Hw]; [apply (si_books _ _ Hi)|done|].
  by eapply inv_report.
Qed.

Context {TB : TableOps S object} {TL : TableLaws S object}.

Lemma purge_events_inv now keep w w' : server_inv md5hex w → purge_events now keep w = Ok w' → server_inv md5hex w'.
Proof.
  intros Hi. unfold purge_events. destruct (GetLogInfos _ _ _ _ _) as [[|le r]| |]; [by intros [= <-]| |by intros [= <-]|done].
  destruct (PurgeLogInfos _ _) as [[n s]| |] eqn:E; [|by intros [= <-]|done]. intros [= <-].
  eapply inv_keeps; [done|]. by eapply tb_purge_keeps.
Qed.
End facts.

#[local] Existing Instances words_trie demo_crypto.

Lemma startup_ready_witness :
  ∃ w', createDefaultActors auth_conf (λ _, inl ("private", "public")) (λ _, true) "salt" no_actors = Ok (Some w') ∧
    ∃ u, Users.Get w' "admin" = Ok u ∧ u_Admin u = true.
Proof.
  destruct (startup_ready auth_conf id (λ _, inl ("private", "public")) (λ _, true) "salt" no_actors)
    as (w' & E & _ & _ & _ & Hu).
  - intros t k v. simpl. by rewrite lookup_empty.
  - intros t k _. simpl. by rewrite lookup_empty.
  - done.
  - intros name. by eexists _, _.
  - by exists w'.
Defined.

(** The default environment is stored when the server starts, and added again
    by every list of the environments. *)
Theorem default_environment_listed_twice :
  match createDefaultActors auth_conf (λ _, inl ("private", "public")) (λ _, true) "salt" no_actors with
  | Ok (Some w) => Environments.GetList w
  | _ => Ok []
  end = Ok ["_default"; "_default"].
Proof. by vm_compute. Qed.
