(* ===== verification/Confinement.v ===== *)
(** What the request of an actor without administrator rights cannot change. *)
From S2P Require Import Prelude Gerror Iface Config Store Datastore Tables UtilStrings Objects Filestore Validations.
From S2P Require Import Versioning Cookbooks CookbookFacts CookbookSafety CookbookDeps DepsFacts Deperr Flatten FileIndex Query World Nodes Roles Environments Sandboxes Clients Users.
From S2P Require Import Actors DataBags Reports Loginfo Searches Http Authentication Statuses HandlersObj HandlersData HandlersCook Quorum Shoveys ShoveyFacts HandlersMisc HandlersSearch HandlersShovey Server Effects.
From S2P Require Import Lawful LawfulSearch LawfulShovey ServerFacts ServerSafety Maintenance Reindex SearchFacts.

Section confinement.
  Context (conf : Conf) {CR : Crypto} {EN : Encoder} {GV : GVersion} (md5hex : string → string) {S T : Type}.
  Context {OO : StoreOps S object} {L : StoreLaws S object} {TB : TableOps S object} {TL : TableLaws S object}.
  Context {TO : TrieOps T}.
  Implicit Types (w wi : world S T) (s : S) (a : Actor).

(** The actor's own client and user. *)
Definition owns_client a (k : string) : Prop := match a with AClient c => c_Name c = k | AUser _ => False end.
Definition owns_user a (k : string) : Prop := match a with AUser u => u_Username u = k | AClient _ => False end.

(** The command of a job. *)
Definition job_command s (id : string) : outcome (option string) :=
  match load (A := Shovey) s id with
  | Ok o => Ok (sh_Command <$> o)
  | Err e => Err e
  | Panic p => Panic p
  end.

(** What stays: all objects of the other types, the clients, users and nodes
    that are not the actor's, all files, and which jobs there are for which
    commands; and nobody becomes an administrator. *)
Record confined a s s' : Prop := {
  cf_types t k : obj_type t = true → t ∉ shared_types → st_get s' t k = st_get s t k;
  cf_clients k o : ¬ owns_client a k → st_get s "client" k = Ok (Some o) → st_get s' "client" k = Ok (Some o);
  cf_users k o : ¬ owns_user a k → st_get s "user" k = Ok (Some o) → st_get s' "user" k = Ok (Some o);
  cf_nodes k o : is_node_client a k = false → st_get s "node" k = Ok (Some o) → st_get s' "node" k = Ok (Some o);
  cf_files k f : Filestore.Get s k = Ok f → Filestore.Get s' k = Ok f;
  cf_admin_clients k c : st_get s' "client" k = Ok (Some (OClient c)) → c_Admin c = true →
    ∃ c0, st_get s "client" k = Ok (Some (OClient c0)) ∧ c_Admin c0 = true;
  cf_admin_users k u : st_get s' "user" k = Ok (Some (OUser u)) → u_Admin u = true →
    ∃ u0, st_get s "user" k = Ok (Some (OUser u0)) ∧ u_Admin u0 = true;
  cf_commands id : job_command s' id = job_command s id;
}.

Lemma confined_refl a s : confined a s s.
Proof. split; eauto. Qed.

Lemma confined_trans a s1 s2 s3 : confined a s1 s2 → confined a s2 s3 → confined a s1 s3.
Proof.
  intros [T1 C1 U1 N1 F1 AC1 AU1 J1] [T2 C2 U2 N2 F2 AC2 AU2 J2]. split; eauto; [| | |congruence].
  - intros t k Ht Hn. by rewrite T2, T1.
  - intros k c Hc Ha. destruct (AC2 k c Hc Ha) as (c0 & ? & ?). eauto.
  - intros k u Hu Ha. destruct (AU2 k u Hu Ha) as (u0 & ? & ?). eauto.
Qed.

(** What is to be shown of a change that touches one of the types. *)
Lemma confined_by_frame a ts s s' :
  st_inv s → frame ts s s' → ts ⊆ shared_types →
  ("client" ∈ ts → (∀ k o, ¬ owns_client a k → st_get s "client" k = Ok (Some o) → st_get s' "client" k = Ok (Some o)) ∧
     ∀ k c, st_get s' "client" k = Ok (Some (OClient c)) → c_Admin c = true →
       ∃ c0, st_get s "client" k = Ok (Some (OClient c0)) ∧ c_Admin c0 = true) →
  ("user" ∈ ts → (∀ k o, ¬ owns_user a k → st_get s "user" k = Ok (Some o) → st_get s' "user" k = Ok (Some o)) ∧
     ∀ k u, st_get s' "user" k = Ok (Some (OUser u)) → u_Admin u = true →
       ∃ u0, st_get s "user" k = Ok (Some (OUser u0)) ∧ u_Admin u0 = true) →
  ("node" ∈ ts → ∀ k o, is_node_client a k = false → st_get s "node" k = Ok (Some o) → st_get s' "node" k = Ok (Some o)) →
  ("filestore" ∈ ts → ∀ k f, Filestore.Get s k = Ok f → Filestore.Get s' k = Ok f) →
  ("shovey" ∈ ts → ∀ id, job_command s' id = job_command s id) →
  confined a s s'.
Proof.
  intros Hi Hf Hts Pc Pu Pn Pf Pj. destruct (Hf Hi) as [_ Hg]. split.
  - intros t k Ht Hn. apply Hg; [done|]. intros Hin. by apply Hn, Hts.
  - intros k o. destruct (decide ("client" ∈ ts)) as [Hc|Hc]; [by apply Pc|]. by rewrite Hg.
  - intros k o. destruct (decide ("user" ∈ ts)) as [Hc|Hc]; [by apply Pu|]. by rewrite Hg.
  - intros k o. destruct (decide ("node" ∈ ts)) as [Hc|Hc]; [by apply Pn|]. by rewrite Hg.
  - intros k f. destruct (decide ("filestore" ∈ ts)) as [Hc|Hc]; [by apply Pf|]. unfold Filestore.Get. by rewrite Hg.
  - intros k c. destruct (decide ("client" ∈ ts)) as [Hc|Hc]; [by apply Pc|]. rewrite Hg by done. eauto.
  - intros k u. destruct (decide ("user" ∈ ts)) as [Hc|Hc]; [by apply Pu|]. rewrite Hg by done. eauto.
  - intros id. destruct (decide ("shovey" ∈ ts)) as [Hc|Hc]; [by apply Pj|]. unfold job_command, load. by rewrite Hg.
Qed.

Lemma node_new_fresh w json n : Nodes.NewFromJSON w json = Ok n → st_get (sto w) "node" (n_Name n) = Ok None.
Proof.
  unfold Nodes.NewFromJSON. intros (name & Hv & (n0 & Hn & Hu)%bind_Ok)%bind_Ok.
  apply node_update_name in Hu. rewrite Hv in Hu. injection Hu as <-. unfold Nodes.New_ in Hn.
  destruct (negb _); [done|]. by apply bind_Ok in Hn as ([] & Hg & Hn).
Qed.

(** The actor, and the user it is, when the request came in. *)
Definition current wi a : Prop := match a with AUser u => Users.Get wi (u_Username u) = Ok u | AClient _ => True end.

Section unprivileged.
  Context (a : Actor) (Hadm : IsAdmin conf a = false).

Lemma auth_on : UseAuth conf = true.
Proof. destruct a as [c|u]; unfold IsAdmin, Clients.IsAdmin, Users.IsAdmin in Hadm; by destruct (UseAuth conf). Qed.

Lemma not_admin : ¬ admin conf a.
Proof. unfold admin. by rewrite Hadm. Qed.

Lemma self_owns_client c : self_client conf a c → owns_client a (c_Name c).
Proof.
  unfold self_client, IsSelf, Clients.IsSelf. rewrite auth_on. destruct a as [c'|u]; simpl; [|done].
  by intros ?%bool_decide_eq_true.
Qed.

Lemma self_owns_user u : self_user conf a u → owns_user a (u_Username u).
Proof.
  unfold self_user, IsSelf, Users.IsSelf. rewrite auth_on. destruct a as [c'|u']; simpl; [done|].
  by intros ?%bool_decide_eq_true.
Qed.

Lemma users_get_load w name u : Users.Get w name = Ok u → load (sto w) name = Ok (Some u).
Proof. unfold Users.Get. intros ([u'|] & Hl & Hu)%bind_Ok; [|done]. by injection Hu as ->. Qed.

Lemma kept_unprivileged wi u : actors_inv wi → current wi a → keeps_admin conf a wi u → u_Admin u = false.
Proof.
  intros [Hi _ Hw _] Hc [Hu|(u0 & name & Hg & Hs & ->)]; [done|]. pose proof (self_owns_user _ Hs) as Ho.
  pose proof auth_on as Hon.
  destruct a as [c|ua]; [done|]. simpl in Hc, Ho. apply users_get_load in Hg, Hc.
  pose proof (load_name _ _ _ Hi Hw Hg) as Hn. simpl in Hn. subst name. rewrite <-Ho in Hg. assert (u0 = ua) as -> by congruence.
  unfold IsAdmin, Users.IsAdmin in Hadm. by rewrite Hon in Hadm.
Qed.

Lemma no_client_of_user w name u :
  actors_inv w → Users.Get w name = Ok u → st_get (sto w) "client" (u_Username u) = Ok None.
Proof.
  intros [Hi Hc Hu Hd] Hg%users_get_load. pose proof (load_name _ _ _ Hi Hu Hg) as Hn. simpl in Hn. subst name.
  destruct (Hd (u_Username u)) as [Hd'|Hd']; [|congruence].
  destruct (load_ok (A := Client) (sto w) (u_Username u) Hi Hc) as (o & Ho & Hiff). rewrite Hd' in Ho.
  injection Ho as <-. by apply Hiff.
Qed.

(** The changes, one type at a time. *)
Section changes.
  Context (w : world S T) (Hinv : server_inv md5hex w).

Lemma si_book_inv (w0 : world S T) : server_inv md5hex w0 → st_inv (sto w0).
Proof. intros H0. apply (si_books _ _ H0). Qed.

Lemma w_inv : st_inv (sto w).
Proof. apply (si_books _ _ Hinv). Qed.

Lemma confined_tables w' : keeps_objects (sto w) (sto w') → confined a (sto w) (sto w').
Proof.
  intros Hk. apply (confined_by_frame _ []); [apply w_inv|by apply keeps_frame|set_solver|other_type..].
Qed.

Lemma confined_client_save c w' :
  c_Admin c = false → self_client conf a c ∨ st_get (sto w) "client" (c_Name c) = Ok None →
  sto w' = store (sto w) c → confined a (sto w) (sto w').
Proof.
  intros Hc Ho ->. pose proof w_inv as Hi.
  apply (confined_by_frame _ ["client"]); [done|solve_frame|unfold shared_types; set_solver| |other_type..].
  intros _. unfold store. split; intros k; setoid_rewrite st_get_set; try done.
  - intros o Hn Hg. case_bool_decide as E; [|done]. destruct E as [_ ->]. simpl in *.
    destruct Ho as [Ho|Ho]; [by destruct Hn; apply self_owns_client|congruence].
  - intros c' Hg Hadm'. case_bool_decide as E; [|by eauto]. injection Hg as <-. simpl in *. congruence.
Qed.

Lemma confined_client_gone k0 w' :
  owns_client a k0 ∨ st_get (sto w) "client" k0 = Ok None → sto w' = unstore (A := Client) (sto w) k0 →
  confined a (sto w) (sto w').
Proof.
  intros Ho ->. pose proof w_inv as Hi.
  apply (confined_by_frame _ ["client"]); [done|solve_frame|unfold shared_types; set_solver| |other_type..].
  intros _. unfold unstore. split; intros k; setoid_rewrite st_get_del; try done.
  - intros o Hn Hg. case_bool_decide as E; [|done]. destruct E as [_ ->]. destruct Ho; [done|simpl in *; congruence].
  - intros c' Hg Hadm'. case_bool_decide; [done|]. eauto.
Qed.

Lemma confined_user_save u w' :
  u_Admin u = false → self_user conf a u ∨ st_get (sto w) "user" (u_Username u) = Ok None →
  sto w' = store (sto w) u → confined a (sto w) (sto w').
Proof.
  intros Hc Ho ->. pose proof w_inv as Hi.
  apply (confined_by_frame _ ["user"]); [done|solve_frame|unfold shared_types; set_solver|other_type| |other_type..].
  intros _. unfold store. split; intros k; setoid_rewrite st_get_set; try done.
  - intros o Hn Hg. case_bool_decide as E; [|done]. destruct E as [_ ->]. simpl in *.
    destruct Ho as [Ho|Ho]; [by destruct Hn; apply self_owns_user|congruence].
  - intros c' Hg Hadm'. case_bool_decide as E; [|by eauto]. injection Hg as <-. simpl in *. congruence.
Qed.

Lemma confined_user_gone k0 w' :
  owns_user a k0 → sto w' = unstore (A := User) (sto w) k0 → confined a (sto w) (sto w').
Proof.
  intros Ho ->. pose proof w_inv as Hi.
  apply (confined_by_frame _ ["user"]); [done|solve_frame|unfold shared_types; set_solver|other_type| |other_type..].
  intros _. unfold unstore. split; intros k; setoid_rewrite st_get_del; try done.
  - intros o Hn Hg. case_bool_decide as E; [|done]. by destruct E as [_ ->].
  - intros c' Hg Hadm'. case_bool_decide; [done|]. eauto.
Qed.

Lemma confined_node_save n :
  is_node_client a (n_Name n) = true ∨ st_get (sto w) "node" (n_Name n) = Ok None →
  confined a (sto w) (sto (Nodes.Save conf w n)).
Proof.
  intros Ho. pose proof w_inv as Hi. simpl.
  apply (confined_by_frame _ ["node"]); [done|solve_frame|unfold shared_types; set_solver|other_type|other_type| |other_type..].
  intros _ k o Hn Hg. unfold store. rewrite st_get_set by done. case_bool_decide as E; [|done].
  destruct E as [_ ->]. simpl in *. destruct Ho; congruence.
Qed.

Lemma confined_node_delete n name :
  is_node_client a name = true → Nodes.Get w name = Ok n → confined a (sto w) (sto (Nodes.Delete w n)).
Proof.
  intros Ho Hg. pose proof w_inv as Hi. unfold Nodes.Get in Hg. apply bind_Ok in Hg as ([n'|] & Hl & Hg); [|done].
  injection Hg as ->. apply load_name in Hl; [|done|apply Hinv]. simpl in *.
  apply (confined_by_frame _ ["node"]); [done|solve_frame|unfold shared_types; set_solver|other_type|other_type| |other_type..].
  intros _ k o Hn Hg. unfold unstore. rewrite st_get_del by done. case_bool_decide as E; [|done].
  destruct E as [_ ->]. simpl in *. congruence.
Qed.

Lemma confined_file chksum body len f :
  is_ok (Filestore.Get (sto w) chksum) = false → Filestore.New_ md5hex (sto w) chksum body len = Ok f →
  confined a (sto w) (Filestore.Save (sto w) f).
Proof.
  intros Hn Hf. pose proof w_inv as Hi.
  assert (0 ≤ len)%Z as Hz. { unfold Filestore.New_ in Hf. destruct (len <? 0)%Z eqn:E; [done|]. lia. }
  apply Filestore.New_Ok in Hf as (_ & -> & _ & _); [|apply (si_books _ _ Hinv)..|done].
  apply (confined_by_frame _ ["filestore"]); [done|unfold Filestore.Save; solve_frame|unfold shared_types; set_solver|other_type..| |other_type].
  intros _ k f Hk. rewrite Filestore.file_Get_Save by done. simpl. case_bool_decide as E; [|done].
  subst. by rewrite Hk in Hn.
Qed.

(** A job with the command it had when the request came in. *)
Lemma confined_job wi (s : Shovey) :
  server_inv md5hex wi → (∀ id, job_command (sto w) id = job_command (sto wi) id) → may_save_job conf a wi s →
  confined a (sto w) (store (sto w) s).
Proof.
  intros Hwi Hsame [Ha|(id & s0 & Hg & Hid & Hc)]; [by destruct not_admin|]. pose proof w_inv as Hi.
  apply (confined_by_frame _ ["shovey"]); [done|solve_frame|unfold shared_types; set_solver|other_type..|].
  intros _ id'. unfold job_command at 1. rewrite load_store by done. case_bool_decide as E; [subst id'|done].
  rewrite Hsame. unfold Shoveys.Get in Hg. apply bind_Ok in Hg as ([s1|] & Hl & Hg); [|done]. injection Hg as ->.
  assert (sh_RunID s0 = id) as <-.
  { exact (load_name (A := Shovey) (sto wi) id s0 (si_book_inv wi Hwi) (proj1 (si_jobs _ _ Hwi)) Hl). }
  unfold job_command. simpl. rewrite Hid, Hl. simpl. by rewrite Hc.
Qed.
End changes.

Lemma effect_confined r wi w w' :
  server_inv md5hex wi → confined a (sto wi) (sto w) → current wi a → server_inv md5hex w →
  effect conf md5hex r a wi w w' → confined a (sto w) (sto w').
Proof.
  intros Hsi Hcw Hcur Hinv He. pose proof (si_actors _ _ Hsi) as Hwi. pose proof not_admin as Hna.
  destruct He; try done; try match goal with H : admin conf a ∨ _ |- _ => destruct H as [H|H]; [done|] end.
  - eapply confined_tables; [done|]. by eapply LogEvent_keeps.
  - eapply confined_tables; [done|]. apply LatestStatus_keeps.
  - eapply confined_tables; [done|]. by apply new_status_keeps.
  - apply (confined_by_frame _ ["report"]); [by eapply w_inv|unfold Reports.Save; simpl; solve_frame
      |unfold shared_types; set_solver|other_type..].
  - apply (confined_job w Hinv wi); [done|apply Hcw|done].
  - apply (confined_by_frame _ ["shovey_run"]); [by eapply w_inv|unfold save_run; simpl; solve_frame
      |unfold shared_types; set_solver|other_type..].
  - apply (confined_by_frame _ ["shovey_run_stream"]); [by eapply w_inv|simpl; solve_frame
      |unfold shared_types; set_solver|other_type..].
  - apply confined_refl.
  - apply confined_node_save; [done|]. destruct H0 as [H0|[_ [json Hj]]]; [by left|right].
    by eapply node_new_fresh.
  - by eapply confined_node_delete.
  - by eapply confined_file.
  - destruct H1 as [Hc Ho]. eapply confined_client_save; [done..|]. by eapply client_save_store.
  - eapply confined_client_gone; [done|left; by apply self_owns_client|]. by apply client_delete_store.
  - eapply confined_client_gone; [done|left; by apply self_owns_client|]. by eapply client_rename_store.
  - destruct H0 as [Hk Ho]. eapply confined_user_save; [done|by eapply kept_unprivileged|done|]. by eapply user_save_store.
  - eapply confined_user_gone; [done|by apply self_owns_user|]. by apply user_delete_store.
  - eapply confined_client_gone; [done|right|by eapply user_rename_store].
    eapply no_client_of_user; [apply (si_actors _ _ Hinv)|done].
Qed.

Lemma effects_confined r wi w :
  server_inv md5hex wi → current wi a → effects conf md5hex r a wi wi w → confined a (sto wi) (sto w).
Proof.
  intros Hinv Hcur He.
  assert (server_inv md5hex w ∧ confined a (sto wi) (sto w)) as [_ ?]; [|done].
  revert He. apply (rtc_ind_r (λ w, server_inv md5hex w ∧ confined a (sto wi) (sto w))).
  - split; [done|apply confined_refl].
  - intros w1 w2 _ He [Hi1 Hc1]. split; [by eapply effect_server_inv|].
    eapply confined_trans; [done|]. by apply (effect_confined r wi w1 w2).
Qed.

End unprivileged.
End confinement.

(** * The server *)

Section server.
  Context (conf : Conf) {CR : Crypto} {SG : Signatures} {EN : Encoder} {GV : GVersion}.
  Context {RF : ReportFormats} {RE : Regexp} {SI : SortImpl} {PU : Pushing} {FN : FloatNotations} (uniLN : string → bool) (fuel : nat).
  Context (md5hex : string → string) {S T : Type}.
  Context {OO : StoreOps S object} {L : StoreLaws S object} {TB : TableOps S object} {TL : TableLaws S object}.
  Context {TO : TrieOps T}.
  Context (pprofHandler : Request → handler S T ()).
  Implicit Types (w wi : world S T) (r : Request) (a : Actor) (σ : hstate S T).
  Local Abbreviation serve :=
    (ServeHTTP conf uniLN fuel md5hex pprofHandler).

Lemma serve_served r σ :
  described r = true → server_inv md5hex (hs_world σ) → served conf md5hex r (hs_world σ) (hs_world (serve r σ).2).
Proof. intros Hd Hi. apply (server_served conf uniLN fuel md5hex); [done|apply (si_books _ _ Hi)]. Qed.

(** What happens between two looks at the server: a request is served, from
    the first test of the path to the last write, the indexer saves one of the
    objects it was given, old events, sandboxes or reports are purged, one of the goroutines of the
    pushed jobs or of a rebuild of the index makes a step, or the server is started again on what it had stored. *)
Inductive server_step : world S T → world S T → Prop :=
| step_request w r : described r = true → server_step w (hs_world (serve r {| hs_world := w; hs_resp := [] |}).2)
| step_index w w' : index_step conf w w' → server_step w w'
| step_events w w' now keep : purge_events now keep w = Ok w' → server_step w w'
| step_sandboxes w w' now dur : purge_sandboxes now dur w = Ok w' → server_step w w'
| step_reports w w' now dur : purge_reports now dur w = Ok w' → server_step w w'
| step_task w w' : task_step w w' → server_step w w'
| step_reindex w w' st call : reindex_stage conf w st = Ok (w', call) → server_step w (hand_over w' call)
| step_start w w' keys pem_ok salt : createDefaultActors conf keys pem_ok salt w = Ok (Some w') → server_step w w'.

Lemma served_inv r wi w : server_inv md5hex wi → served conf md5hex r wi w → server_inv md5hex w.
Proof.
  intros Hi [|chksum f _ _ _ Hn|a w' _ He]; [done|..].
  - eapply inv_files; [done|unfold Filestore.Save; simpl; solve_frame|eapply file_save_inv; [split; apply Hi|done]].
  - by eapply effects_server_inv.
Qed.

Lemma request_actor_current r wi a : actors_inv wi → request_actor conf r wi a → IsAdmin conf a = false → current wi a.
Proof.
  intros [Hi _ Hw _] [Hg _] Hadm. unfold GetReqUser in Hg. rewrite (auth_on _ _ Hadm) in Hg.
  destruct a as [c|u]; [done|]. simpl. destruct (Clients.Get wi _); [done| |done].
  destruct (Users.Get wi _) as [u'| |] eqn:E; [|done..]. injection Hg as ->.
  pose proof E as Hl%users_get_load. apply load_name in Hl; [|done..]. simpl in Hl. by rewrite Hl.
Qed.

(** The goroutines of the jobs keep it. *)
Lemma task_step_inv w w' : server_inv md5hex w → task_step w w' → server_inv md5hex w'.
Proof.
  intros Hi Hs. assert (∀ l, server_inv md5hex (set_tasks w l)) as Ht.
  { intros l. eapply inv_keeps; [done|]. by intros ?. }
  destruct Hs as [w l1 id l2 now w' E Hn|w l1 id n q l2 a sr now E _ _|w l1 id n q l2 E|w l1 id n sr q l2 E|w l1 id l2 E];
    try apply Ht.
  - unfold notifyParent in Hn. destruct (Shoveys.Get _ id) as [s0| |]; [|done..].
    apply bind_Ok in Hn as ([w2 s2] & Hc & [= <-]). cbn [fst].
    destruct (checkCompleted_frame (set_tasks w (l1 ++ l2)) s0 now w2 s2 (si_book_inv md5hex w Hi) Hc) as [[-> _]|Hw]; [apply Ht|].
    injection Hw as -> _. eapply inv_jobs; [apply (Ht (l1 ++ l2))|simpl; solve_frame|].
    apply jobs_store_shovey; [by eapply si_book_inv|apply Hi].
  - eapply inv_jobs; [apply (Ht (l1 ++ TListen id n q :: l2))|unfold save_run; simpl; solve_frame|].
    apply jobs_store_run; [by eapply si_book_inv|apply Hi].
Qed.

(** A run of the server keeps the invariant. *)
Lemma server_run_inv w w' : server_inv md5hex w → rtc server_step w w' → server_inv md5hex w'.
Proof.
  intros Hi Hr. induction Hr as [|w1 w2 w3 Hs _ IH]; [done|]. apply IH. clear IH.
  destruct Hs as [w r Hd|w w' Hx|w w' now keep Hx|w w' now dur Hx|w w' now dur Hx|w w' Hx|w w' st call Hx|w w' keys pem_ok salt Hx].
  - eapply served_inv; [done|]. by apply (serve_served r {| hs_world := w; hs_resp := [] |}).
  - eapply inv_keeps; [done|]. destruct Hx. by intros ?.
  - by eapply purge_events_inv.
  - by eapply purge_sandboxes_inv.
  - by eapply purge_reports_inv.
  - by eapply task_step_inv.
  - eapply inv_keeps; [done|]. apply reindex_stage_sto in Hx. unfold hand_over. cbn [sto]. rewrite Hx. by intros ?.
  - by eapply startup_inv.
Qed.

(** * Properties *)

(** C1: from any state in which the invariant holds, whatever requests are
    served in whatever order, with the indexer, the purging jobs and restarts
    in between, it holds again: every stored object is under its own name and
    of its type, no name is both a client's and a user's, no client is both an
    administrator and a validator, the default environment is the built-in
    one, every file hashes to the checksum it is stored under, and every file a
    stored cookbook version refers to is there. *)
Theorem server_invariant w w' :
  server_inv md5hex w → rtc server_step w w' → server_inv md5hex w'.
Proof. apply server_run_inv. Qed.

(** C17: a GET or a HEAD request, whatever its path, its body and its outcome,
    changes no stored object, nothing of the search index or of what waits to
    be indexed, and starts no goroutine of a pushed job. *)
Theorem reads_change_nothing r σ :
  described r = true → server_inv md5hex (hs_world σ) → r_Method r = GET ∨ r_Method r = HEAD →
  let w' := hs_world (serve r σ).2 in
  (∀ t k, obj_type t = true → st_get (sto w') t k = st_get (sto (hs_world σ)) t k) ∧
  index w' = index (hs_world σ) ∧ pending w' = pending (hs_world σ) ∧ tasks w' = tasks (hs_world σ).
Proof.
  intros Hd Hi Hm w'. pose proof (serve_served r σ Hd Hi) as Hs. fold w' in Hs.
  assert (∀ b, ¬ writes (set_opUser (clean_request r) b)) as Hnw.
  { intros b [? ?]. simpl in *. destruct (clean_same r) as [Hc _]. rewrite Hc in *. by destruct Hm. }
  destruct Hs as [|chksum f _ Hw _ _|a w' _ He]; [done|by destruct Hw, Hm|].
  destruct (effects_read _ _ _ _ _ _ _ He (Hnw _)) as (Hk & Hx & Hp & Ht).
  split_and!; [|done..]. apply Hk. apply (si_books _ _ Hi).
Qed.

(** C2: the request of an actor that is not an administrator, however it ends,
    leaves every role, environment, data bag, sandbox and cookbook as it was,
    and every client, user and node that was there and is not the actor's own;
    no uploaded file is lost or replaced, no job is pushed to nodes and none
    gets another command, and no client or user that was not an administrator
    before is one afterwards. *)
Theorem unprivileged_requests_confined r σ a :
  described r = true → server_inv md5hex (hs_world σ) →
  GetReqUser conf (hs_world σ) (Header_Get r "X-Ops-Userid") = Ok a → IsAdmin conf a = false →
  confined a (sto (hs_world σ)) (sto (hs_world (serve r σ).2)).
Proof.
  intros Hd Hi Hg Hadm.
  destruct (serve_served r σ Hd Hi) as [|chksum f _ _ Hf Hn|b w' Hra He].
  - apply confined_refl.
  - by eapply confined_file.
  - assert (b = a) as -> by (destruct Hra; congruence). eapply effects_confined; [done..| |done].
    eapply request_actor_current; [apply Hi|done..].
Qed.

(** C3: with authentication on, a request whose signature does not verify for
    any actor changes nothing at all, but for adding a file under the checksum
    of its contents, where there was none. *)
Theorem unsigned_requests_change_nothing r σ :
  described r = true → server_inv md5hex (hs_world σ) → UseAuth conf = true →
  (∀ userID, CheckHeader conf (hs_world σ) userID (set_opUser (clean_request r) None) ≠ Ok ()) →
  hs_world (serve r σ).2 = hs_world σ ∨
  ∃ f, in_file_store (clean_request r) = true ∧ md5hex (fs_Data f) = fs_Chksum f ∧
    is_ok (Filestore.Get (sto (hs_world σ)) (fs_Chksum f)) = false ∧
    hs_world (serve r σ).2 = set_sto (hs_world σ) (Filestore.Save (sto (hs_world σ)) f).
Proof.
  intros Hd Hi Hu Hc. destruct (serve_served r σ Hd Hi) as [|chksum f Hp Hw Hf Hn|a w' [_ Ha] He].
  - by left.
  - right. exists f. assert (0 ≤ r_ContentLength r)%Z as Hz.
    { unfold Filestore.New_ in Hn. destruct (r_ContentLength r <? 0)%Z eqn:E; [done|]. lia. }
    apply Filestore.New_Ok in Hn as (_ & -> & Hm & _); [|apply (si_books _ _ Hi)..|done]. by split_and!.
  - destruct (Ha Hu) as (userID & Hk & _). by destruct (Hc userID).
Qed.
End server.

(** * A small server *)

#[local] Existing Instances words_trie demo_crypto demo_gversion plain_signatures no_regexp demo_formats demo_pushing demo_notations.
#[export] Instance plain_encoder : Encoder := {|
  EncodeToJSON _ := "{}"; encode_actor _ := "{}"; FormatTime _ := "time"; MarshalTime _ := "time";
  FormatSandboxTime _ := "time" |}.

Definition demo_world0 : world (DataStore object) (list string) :=
  {| sto := initDataStore; index := Initialize; pending := []; tasks := [] |}.

(** An administrator and a client that is none. *)
Definition demo_world : world (DataStore object) (list string) :=
  match (w ← Clients.Save auth_conf demo_world0 (demo_client "admin" true);
         w ← Clients.Save auth_conf w (demo_client "web1" false); Users.Save w (demo_user "ann" false)) with
  | Ok w => w
  | _ => demo_world0
  end.

Lemma demo_world0_inv : server_inv id demo_world0.
Proof.
  assert (∀ t k, st_get (sto demo_world0) t k = Ok None) as Hg.
  { intros t k. simpl. unfold Datastore.Get. simpl. by rewrite lookup_empty. }
  assert (st_inv (sto demo_world0)) as Hi by apply init_wf.
  split; [split| |split|..]; try done; try (intros k o; by rewrite Hg).
  - intros c v h (n & k & Hc & _). unfold Cookbooks.Get in Hc. by rewrite Hg in Hc.
  - intros k. left. unfold load. by rewrite Hg.
Qed.

Lemma demo_server_inv : server_inv id demo_world.
Proof.
  unfold demo_world. pose proof demo_world0_inv as H0.
  destruct (Clients.Save auth_conf demo_world0 (demo_client "admin" true)) as [w1| |] eqn:E1; [|done..]. simpl.
  eapply (client_save_inv auth_conf id) in E1; [|done..].
  destruct (Clients.Save auth_conf w1 (demo_client "web1" false)) as [w2| |] eqn:E2; [|done..]. simpl.
  eapply (client_save_inv auth_conf id) in E2; [|done..].
  destruct (Users.Save w2 (demo_user "ann" false)) as [w3| |] eqn:E3; [|done..].
  eapply (user_change_inv auth_conf); [exact E2|by eapply as_user_save|].
  apply user_save_store in E3 as [-> _]. solve_frame.
Qed.

Definition no_handler (r : Request) : handler (DataStore object) (list string) () := mret ().

Definition demo_serve : Request → handler (DataStore object) (list string) () :=
  ServeHTTP auth_conf ascii_only 100 id no_handler.

Definition demo_run (w : world (DataStore object) (list string)) (r : Request) :=
  demo_serve r {| hs_world := w; hs_resp := [] |}.

Definition with_body (r : Request) (m : jmap) : Request :=
  {| r_Method := r_Method r; r_Path := r_Path r; r_Header := r_Header r; r_Content := r_Content r;
     r_Body := inr (Some m); r_gunzip := r_gunzip r; r_ContentLength := r_ContentLength r; r_Form := r_Form r; r_Query := r_Query r;
     r_remote := r_remote r; r_forwarded := r_forwarded r; r_opUser := r_opUser r; r_now := r_now r; r_ids := r_ids r;
     r_salt := r_salt r; r_keys := r_keys r |}.

(** The administrator creates a node. *)
Definition new_node_request : Request :=
  with_body (signed_request POST "/nodes" "admin" "990") [("name", IStr "web1")].

Lemma server_invariant_witness :
  let w' := hs_world (demo_run demo_world new_node_request).2 in
  server_inv id w' ∧ is_ok (Nodes.Get w' "web1") = true ∧ is_ok (Nodes.Get demo_world "web1") = false.
Proof.
  split; [|by vm_compute].
  apply (server_invariant auth_conf ascii_only 100 id no_handler demo_world).
  - exact demo_server_inv.
  - apply rtc_once. unfold demo_run, demo_serve. apply step_request. by vm_compute.
Defined.

(** Anyone may look. *)
Lemma reads_change_nothing_witness :
  let w' := hs_world (demo_run demo_world (signed_request GET "/clients/web1" "web1" "990")).2 in
  st_get (sto w') "client" "web1" = st_get (sto demo_world) "client" "web1" ∧ index w' = index demo_world.
Proof.
  destruct (reads_change_nothing auth_conf ascii_only 100 id no_handler
    (signed_request GET "/clients/web1" "web1" "990") {| hs_world := demo_world; hs_resp := [] |}) as (Hg & Hx & _).
  - by vm_compute.
  - exact demo_server_inv.
  - by left.
  - split; [by apply Hg|exact Hx].
Defined.

(** A client without rights deletes itself, and not the administrator. *)
Lemma unprivileged_requests_confined_witness :
  let w' := hs_world (demo_run demo_world (signed_request DELETE "/clients/web1" "web1" "990")).2 in
  let w'' := hs_world (demo_run demo_world (signed_request DELETE "/clients/admin" "web1" "990")).2 in
  is_ok (Clients.Get w' "web1") = false ∧
  st_get (sto w') "client" "admin" = Ok (Some (OClient (demo_client "admin" true))) ∧
  st_get (sto w'') "client" "admin" = Ok (Some (OClient (demo_client "admin" true))).
Proof.
  split; [by vm_compute|].
  assert (∀ p, described (signed_request DELETE p "web1" "990") = true →
    st_get (sto (hs_world (demo_run demo_world (signed_request DELETE p "web1" "990")).2)) "client" "admin"
    = Ok (Some (OClient (demo_client "admin" true)))) as Hp.
  { intros p Hd.
    destruct (unprivileged_requests_confined auth_conf ascii_only 100 id no_handler
      (signed_request DELETE p "web1" "990") {| hs_world := demo_world; hs_resp := [] |}
      (AClient (demo_client "web1" false))) as [_ Hc _ _ _ _ _ _]; [done|exact demo_server_inv|by vm_compute..|].
    apply Hc; [done|]. by vm_compute. }
  split; apply Hp; by vm_compute.
Defined.

(** A request with a signature that belongs to nobody. *)
Definition forged_request : Request :=
  demo_request POST "/nodes" (("X-Ops-Authorization-1", ["forged"]) :: sign_headers "admin" "990").

Lemma unsigned_requests_change_nothing_witness :
  hs_world (demo_run demo_world forged_request).2 = demo_world.
Proof.
  destruct (unsigned_requests_change_nothing auth_conf ascii_only 100 id no_handler
    forged_request {| hs_world := demo_world; hs_resp := [] |}) as [H|(f & Hf & _)].
  - by vm_compute.
  - exact demo_server_inv.
  - done.
  - intros userID. unfold CheckHeader. destruct (GetReqUser _ _ _); [|done..]. by vm_compute.
  - exact H.
  - by vm_compute in Hf.
Defined.
