(* ===== verification/TypeSafety.v ===== *)
(** What is read from the store has the type it is expected to have: no run of
    the server makes a type assertion on a loaded object fail. *)
From S2P Require Import Prelude Gerror Iface Config Store Datastore Tables UtilStrings Objects Filestore Validations.
From S2P Require Import Versioning Cookbooks CookbookFacts CookbookSafety CookbookDeps DepsFacts Deperr Flatten FileIndex Query World Nodes Roles Environments.
From S2P Require Import Sandboxes Clients Users Actors DataBags Reports Loginfo Searches Http Authentication Statuses HandlersObj HandlersData HandlersCook.
From S2P Require Import Quorum Shoveys ShoveyFacts HandlersMisc HandlersSearch HandlersShovey Server Effects Lawful LawfulSearch LawfulShovey ServerFacts ServerSafety SearchFacts Confinement.

(** A call gives a value or an error. *)
Definition total {A} (m : outcome A) : Prop := ∀ p, m ≠ Panic p.

Section kinds.
  Context {S : Type} {OO : StoreOps S object} {L : StoreLaws S object}.
  Implicit Types s : S.

Lemma load_or_error `{Stored A} {SL : StoredLaws A} s k (e : gerror) :
  st_inv s → kind_wf (A := A) s →
  total (o ← load (A := A) s k; match o with Some a => Ok a | None => Err e end).
Proof. intros Hi Hw p. destruct (load_ok (A := A) s k Hi Hw) as ([a|] & -> & _); done. Qed.

(** The list of a kind is exactly what can be read of it, each once. *)
Definition lists_kind `{Stored A} s (m : outcome (list A)) : Prop :=
  ∃ l, m = Ok l ∧ NoDup (s_name <$> l) ∧ ∀ a, a ∈ l ↔ load s (s_name a) = Ok (Some a).

Lemma list_exact `{Stored A} {SL : StoredLaws A} s :
  st_inv s → kind_wf (A := A) s → lists_kind s (load_list (A := A) s).
Proof.
  intros Hi Hw. destruct (load_list_spec (A := A) s Hi Hw) as (l & Hl & Hin). exists l. split; [done|].
  split; [|done]. by eapply load_list_NoDup.
Qed.
End kinds.

Section soundness.
  Context (conf : Conf) {CR : Crypto} {SG : Signatures} {EN : Encoder} {GV : GVersion}.
  Context {RF : ReportFormats} {RE : Regexp} {SI : SortImpl} {PU : Pushing} {FN : FloatNotations} (uniLN : string → bool) (fuel : nat).
  Context (md5hex : string → string) {S T : Type}.
  Context {OO : StoreOps S object} {L : StoreLaws S object} {TB : TableOps S object} {TL : TableLaws S object}.
  Context {TO : TrieOps T}.
  Context (pprofHandler : Request → handler S T ()).
  Implicit Types (w : world S T).

(** Reading any object by its name, of any type, gives it or an error. *)
Definition reads_total w : Prop := ∀ k,
  total (Nodes.Get w k) ∧ total (Roles.Get w k) ∧ total (Environments.Get w k) ∧ total (Clients.Get w k) ∧
  total (Users.Get w k) ∧ total (DataBags.Get w k) ∧ total (Sandboxes.Get (sto w) k) ∧ total (Reports.Get (sto w) k) ∧
  total (Cookbooks.Get (sto w) k) ∧ total (Filestore.Get (sto w) k) ∧ total (Shoveys.Get w k) ∧
  ∀ s, total (GetRun w s k).

(** And the lists of the objects of a type are exactly those that are there. *)
Definition lists_exact w : Prop :=
  lists_kind (sto w) (AllNodes w) ∧ lists_kind (sto w) (AllRoles w) ∧ lists_kind (sto w) (AllClients w) ∧
  lists_kind (sto w) (AllUsers w) ∧ lists_kind (sto w) (AllDataBags w) ∧
  lists_kind (sto w) (AllSandboxes (sto w)) ∧ lists_kind (sto w) (AllReports (sto w)).

Lemma server_inv_typed w : server_inv md5hex w → reads_total w ∧ lists_exact w.
Proof.
  intros [Hb Hc [Hi Hcl Hus _] _ Hn Hro He _ Hbg Hsb Hrp (Hsh & Hsr & _)]. split.
  - intros k. split_and!; try by apply load_or_error.
    + unfold Environments.Get. case_bool_decide; [done|]. by apply load_or_error.
    + intros p. destruct (Get_total (sto w) k Hi (ci_books _ Hb)) as [o ->]. done.
    + intros p. unfold Filestore.Get. destruct (st_get_ok (sto w) "filestore" k Hi eq_refl) as [[o|] Ho]; rewrite Ho; simpl;
        [|done]. destruct (ci_files _ Hb k o Ho) as (f & -> & _). done.
    + intros s. by apply load_or_error.
  - split_and!; [exact (list_exact (A := Node) _ Hi Hn)|exact (list_exact (A := Role) _ Hi Hro)|
      exact (list_exact (A := Client) _ Hi Hcl)|exact (list_exact (A := User) _ Hi Hus)|
      exact (list_exact (A := DataBag) _ Hi Hbg)|exact (list_exact (A := Sandbox) _ Hi Hsb)|
      exact (list_exact (A := Report) _ Hi Hrp)].
Qed.

(** C15: whatever requests the server has served and whatever jobs have run,
    reading a node, role, environment, client, user, data bag, sandbox, report,
    cookbook, file, job or run by its name gives an object of that type or an
    error, never a failed type assertion, and listing the nodes, roles, clients,
    users, data bags, sandboxes or reports gives exactly the objects of that type
    that are stored, each under its own name once. The lists of environments
    (which name the default one twice, [default_environment_listed_twice]),
    cookbooks, files and jobs are not part of it. *)
Theorem stored_objects_typed w w' :
  server_inv md5hex w → rtc (server_step conf uniLN fuel md5hex pprofHandler) w w' →
  reads_total w' ∧ lists_exact w'.
Proof. intros Hi Hr. apply server_inv_typed. by eapply server_run_inv. Qed.
End soundness.

#[local] Existing Instances words_trie demo_crypto demo_gversion plain_signatures plain_encoder no_regexp demo_formats demo_pushing demo_notations.

(** After a node was created and indexed. *)
Lemma stored_objects_typed_witness :
  let w := hs_world (demo_run demo_world new_node_request).2 in
  reads_total w ∧ lists_exact w ∧ is_ok (Nodes.Get w "web1") = true.
Proof.
  intros w. destruct (stored_objects_typed auth_conf ascii_only 100 id no_handler demo_world w) as [H1 H2].
  - apply demo_server_inv.
  - eapply rtc_l; [|apply rtc_refl]. apply step_request. vm_compute. reflexivity.
  - split_and!; [done..|]. vm_compute. reflexivity.
Defined.
