(* ===== verification/Scenarios.v ===== *)
(** The server on particular sequences of requests: behaviours of the code that
    its authors did not mean, each with the requests that show it. *)
From S2P Require Import Prelude Gerror Iface Config Store Datastore Tables UtilStrings Objects Filestore Validations.
From S2P Require Import Versioning Cookbooks CookbookFacts CookbookSafety CookbookDeps DepsFacts Deperr Flatten FileIndex Query World Nodes Roles Environments.
From S2P Require Import Sandboxes Clients Users Actors DataBags Reports Loginfo Searches Http Authentication Statuses HandlersObj HandlersData HandlersCook.
From S2P Require Import Quorum Shoveys ShoveyFacts HandlersMisc HandlersSearch HandlersShovey Server Effects Lawful LawfulSearch LawfulShovey ServerFacts ServerSafety SearchFacts Confinement.

#[local] Existing Instances words_trie demo_crypto demo_gversion plain_signatures plain_encoder no_regexp demo_formats demo_pushing demo_notations.

(** * Running requests *)

Definition open_conf : Conf := {|
  UseSSL := false; HTTPSUrls := false; ProxyHostname := "localhost"; ProxyPort := 4545;
  UsePostgreSQL := false; DotSearch := false; ConvertSearch := false; IndexValTrim := 0; UseAuth := false;
  LogEvents := true; SkipLogExtended := false; TimeSlewDur := 900000000000; JSONReqMaxSize := 1000000;
  ObjMaxSize := 10485760; DisableWebUI := false; UseShovey := true |}.

(** The text, the decoded body, and the form of a request to the server
    without authentication, as its client "admin". *)
Definition ask_for (m : method) (path text : string) (body : string + option jmap) (len : Z)
    (form : list (string * list string)) : Request :=
  {| r_Method := m; r_Path := path; r_Header := []; r_Content := text; r_Body := body;
     r_gunzip := None; r_ContentLength := len; r_Form := form; r_Query := inl form; r_remote := None;
     r_forwarded := {| p_IsLoopback := false; p_PprofWhitelisted := false |}; r_opUser := None; r_now := 1000000000000;
     r_ids := ["0"; "1"; "2"]; r_salt := "salt"; r_keys := inl ("private", "public") |}.

Definition get (path : string) : Request := ask_for GET path EmptyString (inl "EOF") 0 [].
Definition send (m : method) (path : string) (json : jmap) : Request := ask_for m path "{}" (inr (Some json)) 2 [].

Definition open_serve (w : world (DataStore object) (list string)) (r : Request) :=
  ServeHTTP open_conf ascii_only 100 id no_handler r
    {| hs_world := w; hs_resp := [] |}.

(** The state after some requests, and the answer to one more: the panic, if
    there is one, and the status. *)
Definition after (w : world (DataStore object) (list string)) (rs : list Request) :=
  foldl (λ w r, hs_world (open_serve w r).2) w rs.

Definition answer (w : world (DataStore object) (list string)) (r : Request) : option panic * Z :=
  let '(o, σ) := open_serve w r in
  (match o with HPanic p => Some p | _ => None end, resp_status (hs_resp σ)).

(** * Requests that panic *)

(** The JSON value null for a node that is there: the nil map is written to. *)
Theorem null_node_panics :
  answer (after demo_world [send POST "/nodes" [("name", IStr "web1")]])
    (ask_for PUT "/nodes/web1" "null" (inr None) 4 []) = (Some NilDeref, StatusOK).
Proof. by vm_compute. Qed.

(** Raw data that is not an object, in a data bag item. *)
Theorem raw_data_panics :
  answer (after demo_world [send POST "/data" [("name", IStr "bag")]])
    (send POST "/data/bag" [("raw_data", INumber "1")]) = (Some TypeAssertion, StatusOK).
Proof. by vm_compute. Qed.

(** The upload of a file whose length is not announced. *)
Theorem chunked_upload_panics :
  answer demo_world (ask_for PUT "/file_store/abc" "abc" (inl EmptyString) (-1) []) = (Some IndexOutOfRange, StatusOK).
Proof. by vm_compute. Qed.

(** A page of the event log that begins after its limit. *)
Theorem event_page_panics :
  answer (after demo_world [send POST "/nodes" [("name", IStr "web1")]])
    (ask_for GET "/events" EmptyString (inl "EOF") 0 [("offset", ["5"]); ("limit", ["2"])])
  = (Some IndexOutOfRange, StatusOK).
Proof. by vm_compute. Qed.

(** A version that is put under another cookbook's name is refused, and leaves
    a cookbook without versions behind, on which the lists of the latest
    versions and of all recipes panic from then on. *)
Definition misnamed_version : Request :=
  send PUT "/cookbooks/foo/1.0.0"
    [("cookbook_name", IStr "bar"); ("name", IStr "foo-1.0.0"); ("version", IStr "1.0.0"); ("frozen?", IBool false);
     ("metadata", IMap [("version", IStr "1.0.0"); ("dependencies", IMap [])])].

Theorem empty_cookbook_panics :
  answer demo_world misnamed_version = (None, StatusBadRequest) ∧
  let w := after demo_world [misnamed_version] in
  answer w (get "/cookbooks/_latest") = (Some IndexOutOfRange, StatusOK) ∧
  answer w (get "/cookbooks/_recipes") = (Some IndexOutOfRange, StatusOK).
Proof. by vm_compute. Qed.

(** * Requests that do something else than they say *)

(** A body that is not JSON replaces a data bag item by an empty one. *)
Theorem malformed_item_accepted :
  let w := after demo_world [send POST "/data" [("name", IStr "bag")];
                             send POST "/data/bag" [("id", IStr "it"); ("x", IStr "y")]] in
  let r := ask_for PUT "/data/bag/it" "{oops" (inl "invalid character 'o'") 5 [] in
  answer w r = (None, StatusOK) ∧
  (db ← DataBags.Get w "bag"; Ok (dbi_RawData <$> mlookup "it" (db_Items db)))
    = Ok (Some [("id", IStr "it"); ("x", IStr "y")]) ∧
  (db ← DataBags.Get (after w [r]) "bag"; Ok (dbi_RawData <$> mlookup "it" (db_Items db))) = Ok (Some []).
Proof. by vm_compute. Qed.

(** A user with the name of a client is reported to be created, and is not. *)
Theorem user_creation_lost :
  let r := send POST "/users" [("name", IStr "web1"); ("password", IStr "secret1")] in
  answer demo_world r = (None, StatusCreated) ∧ is_ok (Users.Get (after demo_world [r]) "web1") = false.
Proof. by vm_compute. Qed.

(** A client that is renamed by a body that is refused afterwards is gone. *)
Theorem client_rename_lost :
  let r := send PUT "/clients/web1" [("name", IStr "web2"); ("bogus", IStr "x")] in
  let w := after demo_world [r] in
  answer demo_world r = (None, StatusCreated) ∧ is_ok (Clients.Get demo_world "web1") = true ∧
  is_ok (Clients.Get w "web1") = false ∧ is_ok (Clients.Get w "web2") = false.
Proof. by vm_compute. Qed.

(** A data bag named after a built-in index shares it: deleting an item takes
    the node of that name out of the search index, though not out of the
    store. *)
Definition run_pending (w : world (DataStore object) (list string)) : world (DataStore object) (list string) :=
  {| sto := sto w;
     index := foldl (λ i o, match SaveItem open_conf i o with Ok i' => i' | _ => i end) (index w) (pending w);
     pending := []; tasks := [] |}.

Definition in_index (w : world (DataStore object) (list string)) (idx doc : string) : bool :=
  match idxmap (index w) !! idx with Some ic => bool_decide (is_Some (ic !! doc)) | None => false end.

Theorem data_bag_hides_node :
  let w := run_pending (after demo_world [send POST "/nodes" [("name", IStr "web1")];
                                          send POST "/data" [("name", IStr "node")];
                                          send POST "/data/node" [("id", IStr "web1")]]) in
  let w' := after w [ask_for DELETE "/data/node/web1" EmptyString (inl "EOF") 0 []] in
  in_index w "node" "web1" = true ∧ in_index w' "node" "web1" = false ∧ is_ok (Nodes.Get w' "web1") = true.
Proof. by vm_compute. Qed.

(** * Searches and reports *)

Definition search_for (idx : string) (form : list (string * list string)) : Request :=
  ask_for GET ("/search/" +:+ idx) EmptyString (inl "EOF") 0 form.

(** A page of results that begins after the last one, a negative number of
    rows, and an empty group panic. *)
Theorem search_pages_panic :
  let w := run_pending (after demo_world [send POST "/nodes" [("name", IStr "web1")]]) in
  answer w (search_for "node" [("start", ["2"])]) = (Some IndexOutOfRange, StatusOK) ∧
  answer w (search_for "node" [("rows", ["-1"])]) = (Some IndexOutOfRange, StatusOK) ∧
  answer w (search_for "node" [("q", ["()"])]) = (Some NilDeref, StatusOK) ∧
  answer w (search_for "node" [("q", ["name:web1"])]) = (None, StatusOK) ∧
  answer w (search_for "nothing" []) = (None, StatusNotFound).
Proof. by vm_compute. Qed.

(** The query is unescaped once more after the form was decoded: a plus sign,
    which marks a required term, becomes a space, and a percent sign is
    refused. *)
Theorem query_unescaped_twice :
  QueryUnescape "tags:(+a b)" = inl "tags:( a b)" ∧
  answer demo_world (search_for "node" [("q", ["name:100%"])]) = (None, StatusBadRequest).
Proof. by vm_compute. Qed.

(** The reports of a time range are refused when its start is more than ninety
    days after its end, and never because the range is too long. *)
Theorem long_ranges_accepted from until : (from ≤ until)%Z → too_far from until = false.
Proof.
  intros Hle. unfold too_far, time_Sub, truncate_hour, ninety_days, hour. apply Z.leb_gt.
  assert (from - from `mod` 3600000000000 ≤ until - until `mod` 3600000000000)%Z.
  { rewrite !Z.mod_eq by lia. assert (from `div` 3600000000000 ≤ until `div` 3600000000000)%Z by (apply Z.div_le_mono; lia). lia. }
  unfold min_int64, max_int64. lia.
Qed.

(** * Pushed jobs *)

(** The server with a job, "0", on the node web1, which was up. *)
Definition with_job : world (DataStore object) (list string) :=
  let w := after demo_world [send POST "/nodes" [("name", IStr "web1")]] in
  let w := match Nodes.Get w "web1" with Ok n => (UpdateStatus open_conf w n "up" 999000000000).2 | _ => w end in
  after w [send POST "/shovey/jobs" [("command", IStr "ls"); ("nodes", IArr [IStr "web1"])]].

Definition run_status (w : world (DataStore object) (list string)) (id node : string) : outcome string :=
  s ← Shoveys.Get w id; sr ← GetRun w s node; Ok (sr_Status sr).

Theorem job_was_started :
  run_status with_job "0" "web1" = Ok "created" ∧ (s ← Shoveys.Get with_job "0"; Ok (sh_Status s)) = Ok "running" ∧
  tasks with_job = [TListen "0" 2 []].
Proof. by vm_compute. Qed.

(** Cancelling the run of a node the job does not have: the error is looked
    for in a variable that is nil. *)
Theorem cancel_of_unknown_node_panics :
  answer with_job (send PUT "/shovey/jobs/cancel" [("run_id", IStr "0"); ("nodes", IArr [IStr "other"])])
  = (Some NilDeref, StatusOK).
Proof. by vm_compute. Qed.

(** A HEAD request for the list of jobs, and a job without a command. *)
Theorem job_requests_panic :
  answer with_job (ask_for HEAD "/shovey/jobs" EmptyString (inl "EOF") 0 []) = (Some IndexOutOfRange, StatusOK) ∧
  answer with_job (send POST "/shovey/jobs" [("nodes", IArr [IStr "web1"])]) = (Some TypeAssertion, StatusOK).
Proof. by vm_compute. Qed.

(** With authentication on, a client that is no administrator and has nothing
    to do with the node ends its run, in its name. *)
Definition guarded_conf : Conf := {|
  UseSSL := false; HTTPSUrls := false; ProxyHostname := "localhost"; ProxyPort := 4545;
  UsePostgreSQL := false; DotSearch := false; ConvertSearch := false; IndexValTrim := 0; UseAuth := true;
  LogEvents := false; SkipLogExtended := false; TimeSlewDur := 900000000000; JSONReqMaxSize := 1000000;
  ObjMaxSize := 10485760; DisableWebUI := false; UseShovey := true |}.

Definition guarded_run (w : world (DataStore object) (list string)) (r : Request) :=
  ServeHTTP guarded_conf ascii_only 100 id no_handler r {| hs_world := w; hs_resp := [] |}.

Definition with_job_of_db1 : world (DataStore object) (list string) :=
  save_run (save_shovey demo_world {| sh_RunID := "0"; sh_NodeNames := ["db1"]; sh_Command := "ls"; sh_CreatedAt := 0;
    sh_UpdatedAt := 0; sh_Status := "running"; sh_Timeout := 300; sh_Quorum := "1" |} 0).1 (new_run "0" "db1" "created" 0).

Theorem any_client_ends_runs :
  let '(o, σ) := guarded_run with_job_of_db1
    (with_body (signed_request PUT "/shovey/jobs/0/db1" "web1" "990") [("status", IStr "succeeded")]) in
  o = HVal () ∧ resp_status (hs_resp σ) = StatusOK ∧ run_status (hs_world σ) "0" "db1" = Ok "succeeded".
Proof. by vm_compute. Qed.

(** The pieces of output of different runs share one space of names: the
    output a node sends under a type of its choice is taken for that of
    another node. *)
Theorem output_of_another_node :
  let run := new_run "0" "web1" "running" 0 in
  let other := new_run "0" "web1_stdout" "running" 0 in
  match AddStreamOutput with_job run "forged" "stdout_stdout" 0 true 5 with
  | Ok w => CombineStreamOutput w other "stdout" 0 = Ok "forged"
  | _ => False
  end.
Proof. by vm_compute. Qed.
