(* ===== verification/Answers.v ===== *)
(** Requests for nodes and roles are answered: the handlers do not panic, but
    for the JSON value null as the body. *)
From S2P Require Import Prelude Gerror Iface Config Paths Store Datastore Tables UtilStrings Objects Filestore Validations.
From S2P Require Import Versioning Cookbooks CookbookFacts CookbookSafety CookbookDeps DepsFacts Deperr Flatten FileIndex World Nodes Roles Environments.
From S2P Require Import Sandboxes Clients Users Actors DataBags Loginfo Http Authentication Statuses HandlersObj HandlersData HandlersCook.
From S2P Require Import HandlersMisc Server Effects Lawful ServerFacts ServerSafety Confinement.

(** * Calls that do not panic *)

Definition quiet {A} (m : outcome A) : Prop := ∀ p, m ≠ Panic p.

Lemma quiet_bind {A B} (m : outcome A) (f : A → outcome B) : quiet m → (∀ a, m = Ok a → quiet (f a)) → quiet (m ≫= f).
Proof. intros Hm Hf p. destruct m as [a|e|q]; simpl; [by apply Hf|done|]. intros _. by eapply Hm. Qed.

Create HintDb quiet.
#[export] Hint Resolve quiet_bind class_field_no_panic ValidateRunList_no_panic : quiet.

Lemma ValidateAsString_quiet v : quiet (ValidateAsString v).
Proof. by destruct v. Qed.
Lemma ValidateAttributes_quiet k v : quiet (ValidateAttributes k v).
Proof. by destruct v. Qed.
Lemma check_elements_quiet valid json : quiet (check_elements valid json).
Proof. unfold check_elements. intros p. by case_match. Qed.
Lemma env_field_quiet json n : quiet (env_field json n).
Proof. unfold env_field, quiet. destruct (mget "chef_environment" json); simpl; repeat case_match; done. Qed.
#[export] Hint Resolve ValidateAsString_quiet ValidateAttributes_quiet check_elements_quiet env_field_quiet : quiet.

Lemma node_update_quiet n json : quiet (Nodes.UpdateFromJSON n json).
Proof.
  unfold Nodes.UpdateFromJSON. apply quiet_bind; [auto with quiet|]. intros name _. case_bool_decide; [done|].
  repeat (apply quiet_bind; [solve [auto with quiet|intros p; apply class_field_no_panic|intros p; apply ValidateRunList_no_panic]|intros ? _]).
  done.
Qed.

Lemma run_list_strings_quiet l : quiet (run_list_strings l).
Proof. induction l as [|v l IH]; [done|]. destruct v; try done. simpl. by apply quiet_bind. Qed.

Lemma chkRunList_quiet rl : quiet (chkRunList rl).
Proof. destruct rl; try done. apply run_list_strings_quiet. Qed.

Lemma env_lists_quiet m : quiet (env_lists m).
Proof.
  induction m as [|[k v] m IH]; [done|]. simpl. destruct (chkRunList v) eqn:E; [by apply quiet_bind|done|].
  by apply chkRunList_quiet in E.
Qed.

(** The body of a request, and what it says of the run lists. *)
Lemma mlookup_fill k (m : jmap) :
  k ∉ attribute_keys → mlookup k (fill_attributes m) = mlookup k m.
Proof.
  unfold fill_attributes. generalize attribute_keys. intros ks. revert m.
  induction ks as [|k' ks IH]; intros m Hn; [done|]. apply not_elem_of_cons in Hn as [Hk Hn]. simpl.
  rewrite IH by done. destruct (mlookup k' m) as [[]|]; try done. by rewrite mlookup_mset, bool_decide_false.
Qed.

Lemma parse_spec r :
  match parseObjJSON r with
  | Ok (Some m) => ∀ v, mlookup "env_run_lists" m = Some v → ∃ l, v = IMapStrs l
  | Ok None => r_Body r = inr None
  | Err _ => True
  | Panic _ => False
  end.
Proof.
  unfold parseObjJSON. destruct (r_Body r) as [e|[m|]]; [done| |done]. unfold checkAttrs.
  assert (∀ m0, mlookup "env_run_lists" (mset "run_list" m0 m) = mlookup "env_run_lists" m) as Hrl.
  { intros m0. by rewrite mlookup_mset, bool_decide_false. }
  assert (quiet (match mlookup "run_list" m with
     | Some rl => l ← chkRunList rl; Ok (mset "run_list" (IStrs l) m) | None => Ok m end)) as Hq.
  { destruct (mlookup "run_list" m); [|done]. apply quiet_bind; [apply chkRunList_quiet|done]. }
  destruct (match mlookup "run_list" m with Some _ => _ | None => _ end) as [m1| |p] eqn:E1; simpl; [|done|by destruct (Hq p)].
  destruct (mlookup "env_run_lists" m1) as [v|] eqn:E2; simpl.
  - destruct v; try done. simpl. destruct (env_lists m0) as [l| |p] eqn:E3; simpl; [|done|by apply env_lists_quiet in E3].
    intros v. rewrite mlookup_fill by (unfold attribute_keys; set_solver). rewrite mlookup_mset, bool_decide_true by done.
    intros [= <-]. by eexists.
  - intros v. rewrite mlookup_fill by (unfold attribute_keys; set_solver). by rewrite E2.
Qed.

Lemma env_run_lists_quiet json :
  (∀ v, mlookup "env_run_lists" json = Some v → ∃ l, v = IMapStrs l) → quiet (env_run_lists json).
Proof.
  intros Hv. unfold env_run_lists. destruct (mlookup "env_run_lists" json) as [v|]; [|done].
  destruct (Hv v eq_refl) as [l ->]. clear Hv. induction l as [|[k v'] l IH]; [done|]. simpl.
  apply quiet_bind; [intros p; apply (ValidateRunList_no_panic (IStrs v'))|]. intros ? _.
  apply quiet_bind; [done|]. done.
Qed.

Lemma role_update_quiet r json :
  (∀ v, mlookup "env_run_lists" json = Some v → ∃ l, v = IMapStrs l) → quiet (Roles.UpdateFromJSON r json).
Proof.
  intros Hv. unfold Roles.UpdateFromJSON. destruct (match mget "name" json with IStr _ => _ | _ => _ end); [done|].
  repeat (apply quiet_bind; [solve [auto with quiet|intros p; apply class_field_no_panic|intros p; apply ValidateRunList_no_panic
    |by apply env_run_lists_quiet]|intros ? _]).
  done.
Qed.

(** * Handlers *)

Section answers.
  Context (conf : Conf) {CR : Crypto} {EN : Encoder} {T : Type} {TO : TrieOps T}.
  Local Abbreviation W := (world (DataStore object) T).
  Implicit Types (w : W) (σ : hstate (DataStore object) T) (r : Request) (a : Actor).

(** The handler ends without a panic, and something has been written. *)
Definition answered σ (o : hout ()) (σ' : hstate (DataStore object) T) : Prop :=
  (∀ p, o ≠ HPanic p) ∧ length (hs_resp σ) < length (hs_resp σ').

(** The store is well-formed, tables included, and so are nodes and roles. *)
Record sound w : Prop := {
  so_store : ds_wf (sto w);
  so_nodes : kind_wf (A := Node) (sto w);
  so_roles : kind_wf (A := Role) (sto w);
  so_envs : kind_wf (A := ChefEnvironment) (sto w);
}.

Lemma LogEvent_quiet w a o action now : ds_wf (sto w) → quiet (LogEvent conf w a o action now).
Proof.
  intros (_ & _ & Hl) p. unfold LogEvent. destruct (negb (LogEvents conf)); [done|]. simpl. unfold SetLogInfo.
  by destruct (wf_log_get (sto w) Hl) as (m & -> & _).
Qed.

Lemma ds_inv (s : DataStore object) : ds_wf s → st_inv s.
Proof. by intros [? _]. Qed.

Lemma load_quiet `{Stored A} {SL : StoredLaws A} (s : DataStore object) k :
  ds_wf s → kind_wf (A := A) s → quiet (load (A := A) s k).
Proof. intros Hi Hw p. destruct (load_ok (A := A) s k (ds_inv s Hi) Hw) as (o & -> & _). done. Qed.

Lemma node_get_quiet w name : sound w → quiet (Nodes.Get w name).
Proof.
  intros [Hi Hn _ _]. unfold Nodes.Get. apply quiet_bind; [by apply load_quiet|]. by intros [] _.
Qed.

Lemma role_get_quiet w name : sound w → quiet (Roles.Get w name).
Proof.
  intros [Hi _ Hr _]. unfold Roles.Get. apply quiet_bind; [by apply load_quiet|]. by intros [] _.
Qed.

Lemma exists_quiet (s : DataStore object) t k : ds_wf s → obj_type t = true → quiet (st_get s t k).
Proof. intros Hi Ht p. by destruct (st_get_ok s t k (ds_inv s Hi) Ht) as [o ->]. Qed.

Lemma validator_check_quiet a w : quiet (validator_check conf a w).
Proof. unfold validator_check. by destruct (a_IsValidator conf a). Qed.

Lemma node_exists_quiet w name : sound w → quiet (Nodes.DoesExist w name).
Proof. intros Hs. unfold Nodes.DoesExist. apply quiet_bind; [apply exists_quiet; [apply Hs|done]|done]. Qed.

Lemma role_exists_quiet w name : sound w → quiet (Roles.DoesExist w name).
Proof. intros Hs. unfold Roles.DoesExist. apply quiet_bind; [apply exists_quiet; [apply Hs|done]|done]. Qed.

Lemma env_get_quiet w name : sound w → quiet (Environments.Get w name).
Proof.
  intros [Hi _ _ He]. unfold Environments.Get. case_bool_decide; [done|].
  apply quiet_bind; [by apply load_quiet|]. by intros [] _.
Qed.

Lemma node_save_wf w n : sound w → ds_wf (sto (Nodes.Save conf w n)).
Proof. intros Hs. apply Set_wf; [done|apply Hs]. Qed.
Lemma node_delete_wf w n : sound w → ds_wf (sto (Nodes.Delete w n)).
Proof. intros Hs. apply Delete_wf; [done|apply Hs]. Qed.
Lemma role_save_wf w ro : sound w → ds_wf (sto (Roles.Save conf w ro)).
Proof. intros Hs. apply Set_wf; [done|apply Hs]. Qed.
Lemma role_delete_wf w ro : sound w → ds_wf (sto (Roles.Delete w ro)).
Proof. intros Hs. apply Delete_wf; [done|apply Hs]. Qed.

Lemma prefix_length p s : has_prefix p s = true → String.length p ≤ String.length s.
Proof.
  unfold has_prefix. revert s. induction p as [|c p IH]; intros [|d s]; simpl; try done; try lia.
  destruct (ascii_dec c d); [|done]. intros ?%IH. lia.
Qed.

Lemma has_prefix_app p s : has_prefix p s = true → ∃ x, s = p +:+ x.
Proof.
  unfold has_prefix. revert s. induction p as [|c p IH]; intros [|d s]; simpl; try done; [by eexists|by eexists|].
  destruct (ascii_dec c d) as [->|]; [|done]. intros [x ->]%IH. by exists x.
Qed.

Lemma parse_not_null r : r_Body r ≠ inr None → parseObjJSON r ≠ Ok None.
Proof. intros Hb Hp. pose proof (parse_spec r) as Hs. by rewrite Hp in Hs. Qed.

Lemma parse_quiet r : quiet (parseObjJSON r).
Proof. intros p Hp. pose proof (parse_spec r) as Hs. by rewrite Hp in Hs. Qed.
End answers.

#[export] Hint Resolve LogEvent_quiet node_get_quiet role_get_quiet node_exists_quiet role_exists_quiet env_get_quiet
  validator_check_quiet node_save_wf node_delete_wf role_save_wf role_delete_wf parse_quiet node_update_quiet : quiet.

(** A path that ends well, and one that would panic. *)
Ltac answer_path :=
  first
    [by (split; [done|cbn [hs_resp]; rewrite ?length_app; simpl; lia])
    |exfalso; simplify_eq;
     match goal with H : ?m = Panic ?p |- _ => by (assert (quiet m) as Hq by (eauto with quiet); apply (Hq p)) end].

Section answers_theorems.
  Context (conf : Conf) {CR : Crypto} {EN : Encoder} {T : Type} {TO : TrieOps T}.
  Implicit Types (σ : hstate (DataStore object) T) (r : Request) (a : Actor).

(** C18: the handler of nodes, given a request under /nodes/ whose actor the
    server has found and put into its context, in a world where every stored
    object is of its type, answers: whatever the method, the rights of the actor
    and the body, it does not panic and writes a response, unless the body is the
    JSON value null. What comes before the handler is not part of it (a malformed
    signature header can panic there, [signature_part_zero_panics]). *)
Theorem node_requests_answered r a σ :
  sound (hs_world σ) → has_prefix "/nodes/" (r_Path r) = true → r_opUser r = Some a → r_Body r ≠ inr None →
  wp (nodeHandler conf r) (answered σ) σ.
Proof.
  intros Hs Hp Ha Hb. apply parse_not_null in Hb. apply prefix_length in Hp. simpl in Hp.
  unfold nodeHandler, logged, fail500, report_as, report_status. repeat hstep; try answer_path.
  apply Nat.leb_gt in Eb. lia.
Qed.

(** The run lists of a role's environments come out of the parser as the
    update expects them. *)
Lemma role_body_quiet r m ro :
  parseObjJSON r = Ok m → quiet (Roles.UpdateFromJSON ro (nread m)) ∧
  ∀ m' x, m = Some m' → quiet (Roles.UpdateFromJSON ro (mset "name" x m')) ∧
    ∀ y, quiet (Roles.UpdateFromJSON ro (mset "name" y (mset "name" x m'))).
Proof.
  intros Hp. pose proof (parse_spec r) as Hs. rewrite Hp in Hs.
  destruct m as [m|]; [|by split; [apply role_update_quiet|]].
  split; [by apply role_update_quiet|]. intros m' x [= <-].
  split; [|intros y]; apply role_update_quiet; intros v;
    rewrite !mlookup_mset, !(bool_decide_false ("env_run_lists" = "name")) by done; apply Hs.
Qed.

(** And so is every request for a role, its run lists per environment
    included: what the update of a role would panic on, the parser of the body
    has turned away. *)
Theorem role_requests_answered r a σ :
  sound (hs_world σ) → has_prefix "/roles/" (r_Path r) = true → r_opUser r = Some a → r_Body r ≠ inr None →
  wp (roleHandler conf r) (answered σ) σ.
Proof.
  intros Hs Hp Ha Hb. apply parse_not_null in Hb.
  unfold roleHandler, role_put, role_environments, logged, fail500, report_as, report_status.
  repeat hstep; try answer_path.
  all: exfalso; try match goal with
    | E : parseObjJSON ?r = Ok ?m, H : Roles.UpdateFromJSON ?ro _ = Panic ?p |- _ =>
        destruct (role_body_quiet r m ro E) as [Hq Hn]; subst; simpl in *;
        first [by eapply Hq|by eapply (proj1 (Hn _ _ eq_refl))|by eapply (proj2 (Hn _ _ eq_refl))]
    end.
  - apply lookup_ge_None in Ex. apply Nat.eqb_eq in Eb1. lia.
  - apply has_prefix_app in Hp as [x Hx]. change ("/roles/" +:+ x) with (String "/" ("roles" +:+ String "/" x)) in Hx.
    injection Hx as _ Hx. rewrite Hx in El. rewrite (str_split_app "/" "roles" x) in El by done.
    pose proof (str_split_nonempty "/" x). by destruct (str_split "/" x).
Qed.
End answers_theorems.

#[local] Existing Instances words_trie demo_crypto plain_encoder.

Lemma demo_sound : sound demo_world.
Proof.
  pose proof demo_server_inv as Hinv. split; [|apply Hinv..]. unfold demo_world.
  destruct (Clients.Save auth_conf demo_world0 (demo_client "admin" true)) as [w1| |] eqn:E1; [|apply init_wf..]. simpl.
  destruct (Clients.Save auth_conf w1 (demo_client "web1" false)) as [w2| |] eqn:E2; [|apply init_wf..]. simpl.
  destruct (Users.Save w2 (demo_user "ann" false)) as [w3| |] eqn:E3; [|apply init_wf..].
  apply client_save_store in E1 as [E1 _], E2 as [E2 _]. apply user_save_store in E3 as [E3 _].
  rewrite E3. apply Set_wf; [done|]. rewrite E2. apply Set_wf; [done|]. rewrite E1. apply Set_wf; [done|]. apply init_wf.
Qed.

(** A delete request for a node that is not there, and one for a run list of
    a role that is not there. *)
Definition as_admin (r : Request) : Request := set_opUser r (Some (AClient (demo_client "admin" true))).

Lemma node_requests_answered_witness :
  wp (nodeHandler auth_conf (as_admin (demo_request DELETE "/nodes/web1" [])))
     (answered {| hs_world := demo_world; hs_resp := [] |}) {| hs_world := demo_world; hs_resp := [] |}.
Proof.
  apply (node_requests_answered auth_conf _ (AClient (demo_client "admin" true))); [exact demo_sound|done..].
Defined.

Lemma role_requests_answered_witness :
  wp (roleHandler auth_conf (as_admin (demo_request GET "/roles/web/environments/prod" [])))
     (answered {| hs_world := demo_world; hs_resp := [] |}) {| hs_world := demo_world; hs_resp := [] |}.
Proof.
  apply (role_requests_answered auth_conf _ (AClient (demo_client "admin" true))); [exact demo_sound|done..].
Defined.
