(* ===== verification/DumpFacts.v ===== *)
(** What a dump keeps: clients, users, environments, nodes, roles and files are
    restored by importing it into an empty server, and what is lost. *)
From S2P Require Import Prelude Gerror Iface Base64 Config Store Datastore Tables Objects UtilStrings Validations Flatten.
From S2P Require Import FileIndex World Filestore CookbookFacts Cookbooks Nodes Roles Environments Sandboxes Clients Users.
From S2P Require Import Actors DataBags Reports Loginfo Searches Http Statuses Quorum Shoveys HandlersMisc HandlersSearch.
From S2P Require Import Authentication Versioning CookbookSafety CookbookDeps DepsFacts Deperr Query ParserText ShoveyFacts.
From S2P Require Import HandlersObj HandlersShovey Server Effects Lawful LawfulSearch LawfulShovey ServerFacts ServerSafety.
From S2P Require Import SearchFacts Confinement Scenarios Dump DumpRecords.

(** * The whole import *)

#[local] Instance file_stored : Stored FileStore := {|
  s_type := "filestore"; s_name := fs_Chksum; s_inj := OFile;
  s_proj o := match o with OFile f => Some f | _ => None end; s_gob := id |}.

#[local] Instance file_stored_laws : StoredLaws FileStore.
Proof. split; try done. by intros [] a [= ->]. Qed.

Section restore.
  Context (conf : Conf) (md5hex : string → string) {CR : Crypto} {EN : Encoder} {RF : ReportFormats} {DF : DumpFormats}.
  Context {PU : Pushing} {FN : FloatNotations} {S T : Type} {OO : StoreOps S object} {L : StoreLaws S object}.
  Context {TB : TableOps S object} {TBL : TableLaws S object} {TO : TrieOps T}.
  Implicit Types (w : world S T).

Lemma loaded_gob {A} `{SA : Stored A} {SL : StoredLaws A} (s : S) k (a : A) :
  st_inv s → kind_wf (A := A) s → load s k = Ok (Some a) → s_gob a = a.
Proof.
  intros Hi Hw Hl. apply load_get in Hl; [|done..]. apply st_get_gob in Hl; [|done|apply s_type_ok].
  rewrite s_gob_inj in Hl. assert (Some (s_gob a) = Some a) as [= ?]; [|done].
  by rewrite <-(s_proj_inj (s_gob a)), Hl, s_proj_inj.
Qed.

Lemma files_kind_wf (s : S) : Filestore.files_wf s → kind_wf (A := FileStore) s.
Proof. intros Hw k o Ho. destruct (Hw k o Ho) as (f & -> & <-). by exists f. Qed.

Lemma file_Get_load (s : S) k :
  Filestore.Get s k = match load (A := FileStore) s k with
                      | Ok (Some f) => Ok f | Ok None => Err (Filestore.not_found k)
                      | Err e => Err e | Panic p => Panic p end.
Proof. unfold Filestore.Get, load. cbn [s_type file_stored s_proj]. destruct (st_get s "filestore" k) as [[[]|]| |]; done. Qed.

Lemma all_files_load (s : S) : st_inv s → Filestore.files_wf s → AllFilestores s = load_list (A := FileStore) s.
Proof.
  intros Hi Hw. unfold AllFilestores, load_list. change (s_type FileStore) with "filestore".
  unfold Filestore.GetList. destruct (st_list s "filestore") as [names| |]; [|done..]. cbn [mbind outcome_bind].
  induction names as [|k names IH]; [done|]. cbn [collect_files load_all]. rewrite file_Get_load.
  destruct (load_ok (A := FileStore) s k Hi (files_kind_wf s Hw)) as (o & -> & _). rewrite <-IH. destruct o; [done|].
  cbn [mbind outcome_bind]. by destruct (collect_files s names).
Qed.

Lemma all_envs_load w envs :
  st_inv (sto w) → kind_wf (A := ChefEnvironment) (sto w) → AllEnvironments w = Ok envs →
  ∃ es, load_list (sto w) = Ok es ∧
    filter (λ e, e_Name e ≠ "_default") envs = filter (λ e, e_Name e ≠ "_default") es.
Proof.
  intros Hi Hw. unfold AllEnvironments, Environments.GetList, load_list. cbn [s_type env_stored].
  destruct (st_list (sto w) "env") as [names| |]; [|done..]. cbn [mbind outcome_bind].
  revert envs. induction names as [|k names IH]; intros envs Ha.
  { cbn in Ha. injection Ha as <-. by exists []. }
  cbn [app get_all load_all] in *. destruct (load_ok (A := ChefEnvironment) (sto w) k Hi Hw) as (o & Ho & _).
  rewrite Ho. cbn [mbind outcome_bind]. unfold Environments.Get in Ha. rewrite Ho in Ha.
  destruct (decide (k = "_default")) as [->|Hk].
  - rewrite bool_decide_true in Ha by done. apply bind_Ok in Ha as (l & Hl & [= <-]).
    destruct (IH l Hl) as (es & -> & He). cbn [mbind outcome_bind]. eexists. split; [done|].
    rewrite filter_cons_False by (by intros []). destruct o as [e|]; [|done].
    rewrite filter_cons_False; [done|]. intros Hne. apply Hne. exact (load_name _ _ _ Hi Hw Ho).
  - rewrite bool_decide_false in Ha by done. destruct o as [e|]; cbn [mbind outcome_bind] in Ha.
    + apply bind_Ok in Ha as (l & Hl & [= <-]). destruct (IH l Hl) as (es & -> & He). eexists. split; [done|].
      rewrite !filter_cons. by rewrite He.
    + destruct (IH envs Ha) as (es & -> & He). by exists es.
Qed.

Lemma for_each_filter {A B} (f : B → import ()) (r : A → B) (P : A → Prop) `{∀ a, Decision (P a)} l w :
  (∀ a w, ¬ P a → f (r a) w = (Ok (Some ()), w)) →
  for_each f (r <$> l) w = for_each f (r <$> filter P l) w.
Proof.
  intros Hf. revert w. induction l as [|a l IH]; intros w; [done|]. rewrite filter_cons, fmap_cons. cbn [for_each].
  destruct (decide (P a)) as [Ha|Ha].
  - rewrite fmap_cons. cbn [for_each]. unfold mbind, import_bind. destruct (f (r a) w) as [[[|]| |] w1]; [apply IH|done..].
  - unfold mbind, import_bind. rewrite Hf by done. apply IH.
Qed.

Lemma for_each_ind {B} (f : B → import ()) (P : world S T → Prop) l w :
  (∀ v w, P w → P (f v w).2) → P w → P (for_each f l w).2.
Proof.
  intros Hf. revert w. induction l as [|v l IH]; intros w Hw; [done|]. cbn [for_each]. unfold mbind, import_bind.
  specialize (Hf v w Hw). destruct (f v w) as [[[|]| |] w1]; [by apply IH|done..].
Qed.

Lemma then_ok {A} (m : import ()) (n : import A) w w1 :
  m w = (Ok (Some ()), w1) → (m ≫= λ _, n) w = n w1.
Proof. intros E. unfold mbind, import_bind. by rewrite E. Qed.

(** ** What a dump is about *)

Definition dumpable w : Prop :=
  (∀ k n, load (sto w) k = Ok (Some n) → node_dumpable n) ∧
  (∀ k r, load (sto w) k = Ok (Some r) → role_dumpable r) ∧
  (∀ k e, load (sto w) k = Ok (Some e) → e_Name e ≠ "_default" → env_dumpable e) ∧
  (∀ k c, load (sto w) k = Ok (Some c) → client_dumpable c) ∧
  (∀ k u, load (sto w) k = Ok (Some u) → user_dumpable u).

(** No object whose import is not described here or fails. *)
Definition only_these w (now : Z) : Prop :=
  AllCookbooks (sto w) = Ok [] ∧ AllSandboxes (sto w) = Ok [] ∧ AllReports (sto w) = Ok [] ∧
  AllLogInfos (sto w) now = Ok [].

Definition dumped_types : list string := ["client"; "user"; "filestore"; "env"; "node"; "role"].

Record restored (salt : nat → string) w w' : Prop := {
  rs_nodes k : Nodes.Get w' k = Nodes.Get w k;
  rs_roles k : Roles.Get w' k = Roles.Get w k;
  rs_envs k : Environments.Get w' k = Environments.Get w k;
  rs_files k : Filestore.Get (sto w') k = Filestore.Get (sto w) k;
  rs_clients k : Clients.Get w' k = restored_client <$> Clients.Get w k;
  rs_users k : ∃ i, Users.Get w' k = restored_user (salt i) <$> Users.Get w k;
}.

(** ** The stages that follow *)

Definition job_types : list string := ["shovey"; "shovey_run"; "shovey_run_stream"].

(** Nothing but pushed jobs and the tables has changed. *)
Definition tail_kept w w' : Prop :=
  st_inv (sto w') ∧ ∀ t k, obj_type t = true → t ∉ job_types → st_get (sto w') t k = st_get (sto w) t k.

Lemma tail_store {A} `{SA : Stored A} {SL : StoredLaws A} w w1 (a : A) :
  s_type A ∈ job_types → tail_kept w w1 → tail_kept w (set_sto w1 (store (sto w1) a)).
Proof.
  intros Ht [Hi Hk]. split; [by apply store_inv|]. intros t k Hot Hnt. cbn [sto set_sto]. unfold store.
  rewrite st_get_set by (done || apply s_type_ok). rewrite bool_decide_false by (intros [-> _]; done). by apply Hk.
Qed.

Lemma tail_status w w1 m :
  kind_wf (A := Node) (sto w) → tail_kept w w1 → tail_kept w (ImportStatus conf parse_time w1 m).2.
Proof.
  intros Hw [Hi Hk]. unfold ImportStatus. repeat (case_match; try by split). cbn [snd].
  match goal with H : Nodes.Get _ _ = Ok _ |- _ => rename H into Hget end.
  assert (kind_wf (A := Node) (sto w1)) as Hw1.
  { intros k o. rewrite Hk by (done || set_solver). apply Hw. }
  unfold Nodes.Get in Hget. apply bind_Ok in Hget as ([n|] & Hl & [= ->]).
  apply load_get in Hl as Hg; [|done..]. pose proof (load_name _ _ _ Hi Hw1 Hl) as Hn.
  pose proof (st_get_gob _ _ _ _ Hi (s_type_ok (A := Node)) Hg) as Hgob.
  unfold record_status. cbn [sto Nodes.Save IndexObj set_sto]. set (sn := store _ _).
  assert (st_inv sn ∧ ∀ t k, obj_type t = true → t ∉ job_types → st_get sn t k = st_get (sto w) t k) as [Hi1 Hk1].
  { split; [by apply store_inv|]. intros t k Hot Hnt. unfold sn, store. rewrite st_get_set by done.
    case_bool_decide as E; [|by apply Hk]. destruct E as [-> ->]. rewrite Hgob, <-Hk by done. symmetry. rewrite Hn. exact Hg. }
  destruct (tb_set_status sn _ _) as [sm| |] eqn:E; cbn [snd]; [|by split..].
  destruct (tb_set_status_keeps _ _ _ _ E Hi1) as [Hi2 Hsame]. split; [done|]. intros t k Hot Hnt. cbn [sto].
  rewrite <-Hk1 by done. by apply Hsame.
Qed.

(** A step of an import keeps a property of the state when its calls do. *)
Definition keeps {A} (P : world S T → Prop) (m : import A) : Prop := ∀ w, P w → P (m w).2.

Lemma keeps_look {A} P (f : world S T → outcome A) : keeps P (look f).
Proof. by intros w. Qed.

Lemma keeps_ret {A} P (a : A) : keeps P (mret a : import A).
Proof. by intros w. Qed.

Lemma keeps_bind {A B} P (m : import A) (f : A → import B) : keeps P m → (∀ a, keeps P (f a)) → keeps P (m ≫= f).
Proof.
  intros Hm Hf w Hw. unfold mbind, import_bind. specialize (Hm w Hw). destruct (m w) as [[[a|]| |] w1]; [by apply Hf|done..].
Qed.

Lemma keeps_alter P (f : world S T → outcome (world S T)) :
  (∀ w w', P w → f w = Ok w' → P w') → keeps P (alter_world f).
Proof. intros Hf w Hw. unfold alter_world. destruct (f w) as [w'| |] eqn:E; [by eapply Hf|done..]. Qed.

Lemma keeps_for_each {B} P (f : B → import ()) l : (∀ v, keeps P (f v)) → keeps P (for_each f l).
Proof. intros Hf. induction l as [|v l IH]; [apply keeps_ret|]. cbn [for_each]. by apply keeps_bind. Qed.

Ltac keep_steps :=
  repeat match goal with
  | |- ∀ _, _ => intros ?
  | |- keeps _ (look _) => apply keeps_look
  | |- keeps _ (mret _) => apply keeps_ret
  | |- keeps _ (mbind _ _) => apply keeps_bind
  | |- keeps _ (for_each _ _) => apply keeps_for_each
  | |- keeps _ (match ?x with _ => _ end) => destruct x
  end.

Lemma tail_shovey w v : keeps (tail_kept w) (import_shovey v).
Proof.
  unfold import_shovey, ImportShovey. keep_steps; apply keeps_alter; intros w1 w2 Hk [= <-].
  apply tail_store; [set_solver|done].
Qed.

Lemma tail_run w v : keeps (tail_kept w) (import_run v).
Proof.
  unfold import_run, ImportShoveyRun. keep_steps. apply keeps_alter; intros w1 w2 Hk [= <-].
  apply tail_store; [set_solver|done].
Qed.

Lemma tail_stream w v : keeps (tail_kept w) (import_stream v).
Proof.
  unfold import_stream, ImportShoveyRunStream. keep_steps. apply keeps_alter; intros w1 w2 Hk [= <-].
  apply tail_store; [set_solver|done].
Qed.

Lemma tail_import_status w v : kind_wf (A := Node) (sto w) → keeps (tail_kept w) (import_status conf v).
Proof.
  intros Hw. unfold import_status. keep_steps. intros w1 Hk. unfold attempt.
  pose proof (tail_status w w1 a Hw Hk) as Ht. by destruct (ImportStatus conf parse_time w1 a).
Qed.

Lemma tail_stages w d : kind_wf (A := Node) (sto w) → keeps (tail_kept w) (import_later conf d).
Proof.
  intros Hw. unfold import_later, stage. keep_steps;
    [by apply tail_import_status|apply tail_shovey|apply tail_run|apply tail_stream].
Qed.

(** What was loaded from the source is what is loaded after the import. *)
Lemma load_copy {A} `{SA : Stored A} {SL : StoredLaws A} (res : A → A) l (src s s' t : S) k :
  st_inv src → kind_wf (A := A) src → (∀ a, s_name a = k → a ∈ l ↔ load src k = Ok (Some a)) →
  st_get s (s_type A) k = Ok None → puts (s_type A) s_name (λ a, s_inj (res a)) l s s' →
  st_get t (s_type A) k = st_get s' (s_type A) k →
  load t k = fmap (M := option) (λ a, s_gob (res a)) <$> load src k.
Proof.
  intros Hi Hw Hl Hn Hp Ht. unfold load at 1. rewrite Ht.
  destruct (puts_copy (λ a, s_inj (res a)) l src s s' k Hi Hw Hl Hn Hp) as [(-> & ->)|(a & -> & _ & ->)]; [done|].
  cbn [mbind outcome_bind fmap outcome_fmap option_fmap option_map]. by rewrite s_gob_inj, s_proj_inj.
Qed.

Lemma load_same {A} `{SA : Stored A} {SL : StoredLaws A} l (src s s' t : S) k :
  st_inv src → kind_wf (A := A) src → (∀ a, s_name a = k → a ∈ l ↔ load src k = Ok (Some a)) →
  st_get s (s_type A) k = Ok None → puts (s_type A) s_name (λ a : A, s_inj a) l s s' →
  st_get t (s_type A) k = st_get s' (s_type A) k →
  load (A := A) t k = load src k.
Proof.
  intros Hi Hw Hl Hn Hp Ht. rewrite (load_copy id l src s s' t k) by done.
  destruct (load src k) as [[a|]| |] eqn:E; [|done..]. cbn. unfold id. by rewrite (loaded_gob src k a).
Qed.

Lemma exported w now d : exportAll w now = Ok d → ∃ clients cookbooks bags envs files logs nodes statuses reports roles
    sandboxes shoveys runs streams users,
  AllClients w = Ok clients ∧ AllCookbooks (sto w) = Ok cookbooks ∧ AllEnvironments w = Ok envs ∧
  AllFilestores (sto w) = Ok files ∧ AllLogInfos (sto w) now = Ok logs ∧ AllNodes w = Ok nodes ∧
  Statuses.AllNodeStatuses w = Ok statuses ∧ AllReports (sto w) = Ok reports ∧ AllRoles w = Ok roles ∧
  AllSandboxes (sto w) = Ok sandboxes ∧ AllShoveys w = Ok shoveys ∧ AllShoveyRuns w = Ok runs ∧
  AllShoveyRunStreams w = Ok streams ∧ AllUsers w = Ok users ∧
  d = {| MajorVersion := ExportMajorVersion; MinorVersion := ExportMinorVersion; CreatedTime := now;
         ed_Data :=
          [("client", IMap ∘ json_fields ∘ Clients.fields <$> clients); ("cookbook", IMap ∘ cookbook_record <$> cookbooks);
           ("databag", IMap ∘ bag_record <$> bags); ("environment", IMap ∘ json_fields ∘ Environments.fields <$> envs);
           ("filestore", IMap ∘ file_record <$> files); ("loginfo", IMap ∘ json_fields ∘ event_json <$> logs);
           ("node", IMap ∘ json_fields ∘ Nodes.fields <$> nodes); ("node_status", IMap ∘ status_record <$> statuses);
           ("report", IMap ∘ report_record <$> reports); ("role", IMap ∘ json_fields ∘ Roles.fields <$> roles);
           ("sandbox", IMap ∘ sandbox_record <$> sandboxes); ("shovey", IMap ∘ shovey_record <$> shoveys);
           ("shovey_run", IMap ∘ run_record <$> runs); ("shovey_run_stream", IMap ∘ stream_record <$> streams);
           ("user", IMap ∘ user_record <$> users)] |}.
Proof.
  unfold exportAll. intros He. repeat (apply bind_Ok in He as (? & ? & He)). injection He as <-.
  repeat match goal with
  | H : ExportAllClients _ = _ |- _ => apply bind_Ok in H as (? & ? & [= <-])
  | H : ExportAllUsers _ = _ |- _ => apply bind_Ok in H as (? & ? & [= <-])
  end. repeat eexists; eassumption.
Qed.

Lemma get_tail {A} `{SA : Stored A} w w' k :
  tail_kept w w' → obj_type (s_type A) = true → s_type A ∉ job_types → load (A := A) (sto w') k = load (sto w) k.
Proof. intros [_ Hk] Ht Hj. unfold load. by rewrite Hk. Qed.

Lemma restored_tail salt w w1 w2 : restored salt w w1 → tail_kept w1 w2 → restored salt w w2.
Proof.
  intros [Hn Hr He Hf Hc Hu] Ht.
  split; intros k; [rewrite <-Hn|rewrite <-Hr|rewrite <-He|rewrite <-Hf|rewrite <-Hc|destruct (Hu k) as [i Hi]; exists i; rewrite <-Hi];
    rewrite ?file_Get_load; unfold Nodes.Get, Roles.Get, Environments.Get, Clients.Get, Users.Get;
    by rewrite (get_tail w1 w2) by (done || set_solver).
Qed.

Lemma users_copy salt l w s s' (t : S) :
  actors_inv w → (∀ u, u ∈ l ↔ load (sto w) (u_Username u) = Ok (Some u)) →
  (∀ k, st_get s "user" k = Ok None) →
  puts "user" (λ iu : nat * User, u_Username iu.2) (λ iu, OUser (restored_user (salt iu.1) iu.2)) (imap pair l) s s' →
  (∀ k, st_get t "user" k = st_get s' "user" k) →
  ∀ k, ∃ i, load (A := User) t k = fmap (M := option) (restored_user (salt i)) <$> load (sto w) k.
Proof.
  intros Ha Hl Hn [_ P2 P3 _] Ht k. destruct (load_ok (A := User) (sto w) k (ai_store _ Ha) (ai_users _ Ha)) as (o & Ho & _).
  rewrite Ho. unfold load. cbn [s_type user_stored]. rewrite Ht. destruct o as [u|].
  - pose proof (load_name _ _ _ (ai_store _ Ha) (ai_users _ Ha) Ho) as <-. apply Hl in Ho.
    apply list_elem_of_lookup in Ho as [i Hi]. exists i. pose proof (P2 (i, u)) as E. cbn [fst snd] in E. cbn [s_name user_stored]. rewrite E; [done|].
    apply list_elem_of_lookup. exists i. by rewrite list_lookup_imap, Hi.
  - exists 0. rewrite P3, Hn; [done|]. intros ([i u] & -> & Hiu)%list_elem_of_fmap.
    apply list_elem_of_lookup in Hiu as [j Hj]. rewrite list_lookup_imap in Hj.
    destruct (l !! j) as [u'|] eqn:E; [|done]. injection Hj as -> ->. apply list_elem_of_lookup_2 in E.
    apply Hl in E. cbn in Ho. congruence.
Qed.

Lemma NoDup_imap_users (l : list User) :
  NoDup (u_Username <$> l) → NoDup ((λ iu : nat * User, u_Username iu.2) <$> imap pair l).
Proof.
  intros Hnd. replace ((λ iu : nat * User, u_Username iu.2) <$> imap pair l) with (u_Username <$> l); [done|].
  apply list_eq. intros i. rewrite !list_lookup_fmap, list_lookup_imap. by destruct (l !! i).
Qed.

Lemma imap_users (l : list User) :
  imap pair ((IMap ∘ user_record) <$> l) = (λ iu, (iu.1, IMap (user_record iu.2))) <$> imap pair l.
Proof. apply list_eq. intros i. rewrite !list_lookup_imap, !list_lookup_fmap, list_lookup_imap. by destruct (l !! i). Qed.

Lemma listed_kind {A} `{SA : Stored A} {SL : StoredLaws A} (s : S) l :
  st_inv s → kind_wf (A := A) s → load_list s = Ok l →
  (∀ a, a ∈ l ↔ load s (s_name a) = Ok (Some a)) ∧ NoDup (s_name <$> l).
Proof.
  intros Hi Hw Hl. split; [|by eapply load_list_NoDup].
  destruct (load_list_spec (A := A) s Hi Hw) as (l' & Hl' & Hin). by assert (l = l') as -> by congruence.
Qed.

(** ** The stages of the dump of a server *)

Section stages.
  Context (w : world S T) (Hinv : server_inv md5hex w) (Hd : dumpable w).

Definition absent (t : string) w' : Prop := ∀ k, st_get (sto w') t k = Ok None.

Lemma client_stage w' clients :
  AllClients w = Ok clients → st_inv (sto w') → absent "client" w' → absent "user" w' →
  ∃ w1, for_each (import_client conf) (IMap ∘ json_fields ∘ Clients.fields <$> clients) w' = (Ok (Some ()), w1) ∧
    puts "client" s_name (λ c, s_inj (restored_client c)) clients (sto w') (sto w1).
Proof.
  intros Hl Hi H0 Hu. destruct Hinv as [_ _ [His Hc _ _] Hr _ _ _ _ _ _ _ _]. destruct Hd as (_ & _ & _ & Dc & _).
  destruct (listed_kind (A := Client) (sto w) clients His Hc Hl) as [Hin Hnd].
  apply stage_puts; [done..|intros c _; apply H0|]. intros w2 c Hcl Hi2 Hg Ho. apply Hin in Hcl as Hcl'.
  apply client_step; [by eapply Dc| |done|by rewrite Ho; [apply Hu|..]].
  apply load_get in Hcl'; [|done..]. by eapply Hr.
Qed.

Lemma user_stage w' salt users clients s0 :
  AllUsers w = Ok users → AllClients w = Ok clients → st_inv (sto w') → absent "user" w' →
  (∀ k, st_get s0 "client" k = Ok None) →
  puts "client" s_name (λ c, s_inj (restored_client c)) clients s0 (sto w') →
  ∃ w1, for_each (λ iv, import_user (salt iv.1) iv.2) (imap pair (IMap ∘ user_record <$> users)) w' = (Ok (Some ()), w1) ∧
    puts "user" (λ iu : nat * User, u_Username iu.2) (λ iu, OUser (restored_user (salt iu.1) iu.2)) (imap pair users)
      (sto w') (sto w1).
Proof.
  intros Hl Hcl Hi H0 Hc0 Hp. pose proof (si_actors _ _ Hinv) as Ha. destruct Ha as [His Hc Hu Hdis]. destruct Hd as (_ & _ & _ & _ & Du).
  destruct (listed_kind (A := User) (sto w) users His Hu Hl) as [Hin Hnd].
  destruct (listed_kind (A := Client) (sto w) clients His Hc Hcl) as [Hinc _].
  rewrite imap_users. apply stage_puts; [done..|by apply NoDup_imap_users|intros [] _; apply H0|].
  intros w2 [i u] Hiu Hi2 Hg Ho. apply list_elem_of_lookup in Hiu as [j Hj]. rewrite list_lookup_imap in Hj.
  destruct (users !! j) as [u'|] eqn:E; [|done]. injection Hj as -> ->. apply list_elem_of_lookup_2, Hin in E.
  apply user_step; [by eapply Du|done|]. cbn [snd] in *. rewrite Ho by done.
  destruct (puts_copy (λ c, s_inj (restored_client c)) clients (sto w) s0 (sto w') (u_Username u) His Hc)
    as [[_ Hno]|(c & Hlc & _)]; [by intros c <-; apply Hinc|apply Hc0|exact Hp|exact Hno|]. cbn [s_name user_stored] in E. destruct (Hdis (u_Username u)); congruence.
Qed.

Lemma file_stage w' files :
  AllFilestores (sto w) = Ok files → st_inv (sto w') → absent "filestore" w' →
  ∃ w1, for_each (import_file md5hex) (IMap ∘ file_record <$> files) w' = (Ok (Some ()), w1) ∧
    puts "filestore" s_name (λ f : FileStore, s_inj f) files (sto w') (sto w1).
Proof.
  intros Hl Hi H0. destruct (si_books _ _ Hinv) as [His Hfw _ _]. rewrite all_files_load in Hl by done.
  destruct (listed_kind (A := FileStore) (sto w) files His (files_kind_wf _ Hfw) Hl) as [Hin Hnd].
  apply stage_puts; [done..|intros f _; apply H0|]. intros w2 f Hf Hi2 Hg Ho. apply Hin in Hf as Hf'.
  eapply file_step; [exact Hi2| |done]. destruct Hinv as [_ Hca _ _ _ _ _ _ _ _ _ _]. apply Hca. rewrite file_Get_load. cbn [s_name file_stored] in Hf'.
  by rewrite Hf'.
Qed.

Lemma env_stage w' envs :
  AllEnvironments w = Ok envs → st_inv (sto w') → absent "env" w' →
  ∃ w1, for_each (import_environment conf) (IMap ∘ json_fields ∘ Environments.fields <$> envs) w' = (Ok (Some ()), w1) ∧
    puts "env" s_name (λ e : ChefEnvironment, s_inj e) (filter (λ e, e_Name e ≠ "_default") envs) (sto w') (sto w1) ∧
    ∀ e, e ∈ filter (λ e, e_Name e ≠ "_default") envs ↔
         load (sto w) (e_Name e) = Ok (Some e) ∧ e_Name e ≠ "_default".
Proof.
  intros Hl Hi H0. pose proof (ci_store _ (si_books _ _ Hinv)) as His. pose proof (si_envs _ _ Hinv) as Hw.
  destruct (all_envs_load w envs His Hw Hl) as (es & Hes & Hf).
  destruct (listed_kind (A := ChefEnvironment) (sto w) es His Hw Hes) as [Hin Hnd].
  assert (∀ e, e ∈ filter (λ e, e_Name e ≠ "_default") envs ↔
            load (sto w) (e_Name e) = Ok (Some e) ∧ e_Name e ≠ "_default") as Hin'.
  { intros e. rewrite Hf, list_elem_of_filter, Hin. naive_solver. }
  rewrite (for_each_filter _ _ (λ e, e_Name e ≠ "_default")) by (intros e w2 He; apply env_skip; by apply dec_stable).
  assert (NoDup (e_Name <$> filter (λ e, e_Name e ≠ "_default") envs)) as Hnd'.
  { rewrite Hf. eapply sublist_NoDup; [exact Hnd|]. apply fmap_sublist, sublist_filter. }
  edestruct (stage_puts "env" (import_environment conf) (IMap ∘ json_fields ∘ Environments.fields) e_Name OEnv
    (filter (λ e, e_Name e ≠ "_default") envs) w') as (w1 & E & Hp); [done..|intros e _; apply H0| |by exists w1].
  intros w2 e He Hi2 Hg Ho. apply Hin' in He as [He Hne]. destruct Hd as (_ & _ & De & _ & _).
  apply env_step; [by eapply De|done..].
Qed.

Lemma node_stage w' nodes :
  AllNodes w = Ok nodes → st_inv (sto w') → absent "node" w' →
  ∃ w1, for_each (import_node conf) (IMap ∘ json_fields ∘ Nodes.fields <$> nodes) w' = (Ok (Some ()), w1) ∧
    puts "node" s_name (λ n : Node, s_inj n) nodes (sto w') (sto w1).
Proof.
  intros Hl Hi H0. pose proof (ci_store _ (si_books _ _ Hinv)) as His. pose proof (si_nodes _ _ Hinv) as Hw.
  destruct (listed_kind (A := Node) (sto w) nodes His Hw Hl) as [Hin Hnd].
  apply stage_puts; [done..|intros n _; apply H0|]. intros w2 n Hn Hi2 Hg Ho. apply Hin in Hn as Hn'.
  apply node_step; [|apply loaded_gob in Hn'; [by rewrite <-Hn'|done..]|done]. destruct Hd as (Dn & _). by eapply Dn.
Qed.

Lemma role_stage w' roles :
  AllRoles w = Ok roles → st_inv (sto w') → absent "role" w' →
  ∃ w1, for_each (import_role conf) (IMap ∘ json_fields ∘ Roles.fields <$> roles) w' = (Ok (Some ()), w1) ∧
    puts "role" s_name (λ r : Role, s_inj r) roles (sto w') (sto w1).
Proof.
  intros Hl Hi H0. pose proof (ci_store _ (si_books _ _ Hinv)) as His. pose proof (si_roles _ _ Hinv) as Hw.
  destruct (listed_kind (A := Role) (sto w) roles His Hw Hl) as [Hin Hnd].
  apply stage_puts; [done..|intros r _; apply H0|]. intros w2 r Hr Hi2 Hg Ho. apply Hin in Hr.
  apply role_step; [|done]. destruct Hd as (_ & Dr & _). by eapply Dr.
Qed.

Lemma puts_absent {A} t t' (key : A → string) obj l w' w1 :
  puts t key obj l (sto w') (sto w1) → obj_type t' = true → t' ≠ t → absent t' w' → absent t' w1.
Proof. intros Hp Ht Hne Ha k. rewrite (pt_other _ _ _ _ _ _ Hp) by done. apply Ha. Qed.

(** What the six stages have stored is what the server had. *)
Lemma stages_restored salt clients users files envs nodes roles (w0 w1 w2 w3 w4 w5 w6 : world S T) :
  AllClients w = Ok clients → AllUsers w = Ok users → AllFilestores (sto w) = Ok files → AllNodes w = Ok nodes →
  AllRoles w = Ok roles →
  (∀ e, e ∈ envs ↔ load (sto w) (e_Name e) = Ok (Some e) ∧ e_Name e ≠ "_default") →
  absent "client" w0 → absent "user" w1 → absent "filestore" w2 → absent "env" w3 → absent "node" w4 → absent "role" w5 →
  puts "client" s_name (λ c, s_inj (restored_client c)) clients (sto w0) (sto w1) →
  puts "user" (λ iu : nat * User, u_Username iu.2) (λ iu, OUser (restored_user (salt iu.1) iu.2)) (imap pair users)
    (sto w1) (sto w2) →
  puts "filestore" s_name (λ f : FileStore, s_inj f) files (sto w2) (sto w3) →
  puts "env" s_name (λ e : ChefEnvironment, s_inj e) envs (sto w3) (sto w4) →
  puts "node" s_name (λ n : Node, s_inj n) nodes (sto w4) (sto w5) →
  puts "role" s_name (λ r : Role, s_inj r) roles (sto w5) (sto w6) →
  kind_wf (A := Node) (sto w6) ∧ restored salt w w6.
Proof.
  intros Ec Eu Ef En Er Henvs A1 A2 A3 A4 A5 A6 P1 P2 P3 P4 P5 P6.
  destruct Hinv as [[Hi Hfw _ _] _ Ha _ Hn Hr He _ _ _ _ _]. pose proof Ha as [_ Hc Hu _].
  assert (∀ t k, obj_type t = true → t ≠ "role" → st_get (sto w6) t k = st_get (sto w5) t k) as O6 by apply P6.
  assert (∀ t k, obj_type t = true → t ≠ "node" → st_get (sto w5) t k = st_get (sto w4) t k) as O5 by apply P5.
  assert (∀ t k, obj_type t = true → t ≠ "env" → st_get (sto w4) t k = st_get (sto w3) t k) as O4 by apply P4.
  assert (∀ t k, obj_type t = true → t ≠ "filestore" → st_get (sto w3) t k = st_get (sto w2) t k) as O3 by apply P3.
  assert (∀ t k, obj_type t = true → t ≠ "user" → st_get (sto w2) t k = st_get (sto w1) t k) as O2 by apply P2.
  assert (∀ k, load (A := Node) (sto w6) k = load (sto w) k) as Hnodes.
  { intros k. destruct (listed_kind (A := Node) (sto w) nodes Hi Hn En) as [Hin _].
    apply (load_same nodes (sto w) (sto w4) (sto w5)); [done..|by intros n <-|apply A5|done|by apply O6]. }
  split.
  { intros k o Ho. destruct (load_ok (A := Node) (sto w) k Hi Hn) as (o' & E & _). pose proof (Hnodes k) as Hk. rewrite E in Hk.
    unfold load in Hk. rewrite Ho in Hk. cbn [mbind outcome_bind] in Hk.
    destruct (s_proj (A := Node) o) as [n|] eqn:Ep; [|done]. apply s_inj_proj in Ep as ->. exists n. split; [done|].
    injection Hk as <-. exact (load_name (A := Node) _ _ _ Hi Hn E). }
  split; intros k.
  - unfold Nodes.Get. by rewrite Hnodes.
  - destruct (listed_kind (A := Role) (sto w) roles Hi Hr Er) as [Hin _]. unfold Roles.Get.
    rewrite (load_same roles (sto w) (sto w5) (sto w6) (sto w6) k); [done..|by intros r <-|apply A6|done|done].
  - unfold Environments.Get. case_bool_decide as Hk; [done|].
    rewrite (load_same envs (sto w) (sto w3) (sto w4) (sto w6) k); [done..|intros e <-; rewrite Henvs; naive_solver|apply A4|done|].
    cbn. by rewrite O6, O5.
  - destruct (listed_kind (A := FileStore) (sto w) files Hi (files_kind_wf _ Hfw)) as [Hin _]; [by rewrite <-all_files_load|].
    rewrite !file_Get_load.
    rewrite (load_same files (sto w) (sto w2) (sto w3) (sto w6) k); [done|done|by apply files_kind_wf|by intros f <-|apply A3|done|].
    cbn. by rewrite O6, O5, O4.
  - destruct (listed_kind (A := Client) (sto w) clients Hi Hc Ec) as [Hin _]. unfold Clients.Get.
    rewrite (load_copy restored_client clients (sto w) (sto w0) (sto w1) (sto w6) k);
      [|done..|by intros c <-|apply A1|done|cbn; by rewrite O6, O5, O4, O3, O2].
    by destruct (load (sto w) k) as [[c|]| |].
  - destruct (listed_kind (A := User) (sto w) users Hi Hu Eu) as [Hin _].
    destruct (users_copy salt users w (sto w1) (sto w2) (sto w6) Ha Hin A2 P2) with (k := k) as [i Hl].
    { intros j. by rewrite O6, O5, O4, O3. }
    exists i. unfold Users.Get. rewrite Hl. by destruct (load (sto w) k) as [[u|]| |].
Qed.

(** The stages before the last, on a state without objects of their types. *)
Lemma import_stages w0 now d salt :
  only_these w now → exportAll w now = Ok d →
  st_inv (sto w0) → (∀ t, t ∈ dumped_types → absent t w0) →
  ∃ w1, import_objects conf md5hex salt d w0 = import_later conf d w1 ∧
    st_inv (sto w1) ∧ (kind_wf (A := Node) (sto w1) ∧ restored salt w w1) ∧
    ∀ t k, obj_type t = true → t ∉ dumped_types → st_get (sto w1) t k = st_get (sto w0) t k.
Proof.
  intros (Oc & Os & Or & Ol) Hex Hi0 H0. pose proof (ci_store _ (si_books _ _ Hinv)) as Hi.
  destruct (exported w now d Hex) as (clients & cookbooks & bags & envs & files & logs & nodes & statuses & reports & roles &
    sandboxes & shoveys & runs & streams & users & Ec & Eb & Ee & Ef & Eg & En & _ & Ep & Er & Ex & _ & _ & _ & Eu & ->).
  assert (cookbooks = []) as -> by congruence. assert (sandboxes = []) as -> by congruence.
  assert (reports = []) as -> by congruence. assert (logs = []) as -> by congruence. clear Oc Os Or Ol Hex Eb Eg Ep Ex.
  assert (absent "client" w0 ∧ absent "user" w0 ∧ absent "filestore" w0 ∧ absent "env" w0 ∧ absent "node" w0 ∧
          absent "role" w0) as (Ac & Au & Af & Ae & An & Ar) by (split_and!; apply H0; set_solver).
  destruct (client_stage w0 clients Ec Hi0 Ac Au) as (w1 & S1 & P1).
  destruct (user_stage w1 salt users clients (sto w0) Eu Ec (pt_inv _ _ _ _ _ _ P1)) as (w2 & S2 & P2);
    [by eapply puts_absent|exact Ac|done|].
  destruct (file_stage w2 files Ef (pt_inv _ _ _ _ _ _ P2)) as (w3 & S3 & P3); [by do 2 (eapply puts_absent; [done..|])|].
  destruct (env_stage w3 envs Ee (pt_inv _ _ _ _ _ _ P3)) as (w4 & S4 & P4 & Henvs);
    [by do 3 (eapply puts_absent; [done..|])|].
  destruct (node_stage w4 nodes En (pt_inv _ _ _ _ _ _ P4)) as (w5 & S5 & P5); [by do 4 (eapply puts_absent; [done..|])|].
  destruct (role_stage w5 roles Er (pt_inv _ _ _ _ _ _ P5)) as (w6 & S6 & P6); [by do 5 (eapply puts_absent; [done..|])|].
  exists w6. split; [|split; [apply P6|split]].
  { unfold import_objects. etransitivity; [apply (then_ok _ _ _ _ S1)|]. etransitivity; [apply (then_ok _ _ _ _ S2)|].
    etransitivity; [apply (then_ok _ _ _ _ S3)|]. etransitivity; [apply (then_ok _ _ _ w3); reflexivity|].
    etransitivity; [apply (then_ok _ _ _ w3); reflexivity|]. etransitivity; [apply (then_ok _ _ _ _ S4)|].
    etransitivity; [apply (then_ok _ _ _ _ S5)|]. etransitivity; [apply (then_ok _ _ _ _ S6)|]. reflexivity. }
  { eapply (stages_restored salt clients users files _ nodes roles w0 w1 w2 w3 w4 w5 w6); try eassumption;
    [by eapply puts_absent|by do 2 (eapply puts_absent; [done..|])|by do 3 (eapply puts_absent; [done..|])
    |by do 4 (eapply puts_absent; [done..|])|by do 5 (eapply puts_absent; [done..|])]. }
  intros t k Ht Hnt. unfold dumped_types in Hnt. rewrite !not_elem_of_cons in Hnt.
  destruct Hnt as (? & ? & ? & ? & ? & ? & _).
  rewrite (pt_other _ _ _ _ _ _ P6), (pt_other _ _ _ _ _ _ P5), (pt_other _ _ _ _ _ _ P4), (pt_other _ _ _ _ _ _ P3),
    (pt_other _ _ _ _ _ _ P2) by done. by apply (pt_other _ _ _ _ _ _ P1).
Qed.
End stages.
End restore.

(** Without statuses and jobs nothing is left to import. *)
Lemma later_nothing {CR : Crypto} {EN : Encoder} {RF : ReportFormats} {DF : DumpFormats} {PU : Pushing} {FN : FloatNotations}
    {S T : Type} {OO : StoreOps S object} {TB : TableOps S object} {TO : TrieOps T}
    (conf : Conf) (w : world S T) (d : ExportData) (now : Z) (w1 : world S T) :
  exportAll w now = Ok d → Statuses.AllNodeStatuses w = Ok [] → AllShoveys w = Ok [] →
  import_later conf d w1 = (Ok (Some ()), w1).
Proof.
  intros Hex Es Ej. assert (AllShoveyRuns w = Ok []) as Er by (unfold AllShoveyRuns; by rewrite Ej).
  assert (AllShoveyRunStreams w = Ok []) as Et by (unfold AllShoveyRunStreams; by rewrite Er).
  unfold exportAll in Hex. repeat (apply bind_Ok in Hex as (? & ? & Hex)). injection Hex as <-.
  repeat match goal with
  | Hx : ?m = Ok ?x, Hn : ?m = Ok [] |- _ => assert (x = []) as -> by congruence; clear Hx
  end. reflexivity.
Qed.

(** * Properties *)

Section properties.
  Context (conf : Conf) (md5hex : string → string) {CR : Crypto} {EN : Encoder} {RF : ReportFormats} {DF : DumpFormats}.
  Context {PU : Pushing} {FN : FloatNotations} {S T : Type} {OO : StoreOps S object} {L : StoreLaws S object}.
  Context {TB : TableOps S object} {TBL : TableLaws S object} {TO : TrieOps T}.
  Implicit Types (w : world S T).

(** C35: importing a dump into a server that has nothing of the types imported.
    The dump is of a server with its invariants, without cookbooks, sandboxes,
    reports and events, whose objects are [dumpable]: names, classes and types
    are the valid ones, run lists valid and without duplicates, no run list a
    role has for an environment is empty (one ends the import,
    [empty_env_list_ends_import]), attributes are decoded JSON, constraints of
    environments and public keys are valid, and the name of a user is its user
    name; uploaded nodes and roles are like that ([uploaded_node_dumpable],
    [uploaded_role_dumpable]). Then every node, role, environment and file is
    back as it was, every client but for its node name, organization and
    certificate, and every user but for the address, with the old password hash
    under another salt; data bags are not imported.  Whatever becomes of the node
    statuses and the pushed jobs, which follow, the rest is restored, and without
    them the import succeeds. *)
Theorem dump_restores w w0 (now : Z) (d : ExportData) (salt : nat → string) :
  server_inv md5hex w → dumpable w → only_these w now → exportAll w now = Ok d →
  st_inv (sto w0) → (∀ t k, t ∈ dumped_types → st_get (sto w0) t k = Ok None) →
  let '(o, w') := importAll conf md5hex salt d w0 in
  restored salt w w' ∧ (∀ k, st_get (sto w') "data_bag" k = st_get (sto w0) "data_bag" k) ∧
  (Statuses.AllNodeStatuses w = Ok [] → AllShoveys w = Ok [] → o = Ok ()).
Proof.
  intros Hinv Hd Ho Hex Hi H0.
  destruct (import_stages conf md5hex w Hinv Hd w0 now d salt Ho Hex Hi) as (w1 & E & Hi1 & (Hn & Hr) & Hother);
    [by intros t Ht k; apply H0|].
  unfold importAll. assert (supported d = true) as ->.
  { by destruct (exported w now d Hex) as (? & ? & ? & ? & ? & ? & ? & ? & ? & ? & ? & ? & ? & ? & ? & H); destruct_and!; subst d. }
  rewrite E. pose proof (tail_stages conf md5hex w1 d Hn w1) as Ht.
  destruct (import_later conf d w1) as [o w2] eqn:E2. destruct Ht as [Hi2 Hk2]; [by split|]. split_and!.
  - by eapply restored_tail.
  - intros k. cbn in Hk2. rewrite Hk2 by (done || set_solver). apply Hother; [done|set_solver].
  - intros Es Ej. by rewrite (later_nothing conf w d now w1 Hex Es Ej) in E2; injection E2 as <- <-.
Qed.
End properties.

(** * A small server *)

#[local] Existing Instances words_trie demo_crypto demo_gversion plain_signatures plain_encoder no_regexp demo_formats demo_pushing demo_notations.

#[local] Instance dump_formats : DumpFormats := {|
  Parse_RFC3339 t := if bool_decide (t = "time") then inl 0%Z else inr "cannot parse";
  Format_ReportTime _ := "0"; Base64Error _ := "illegal base64 data" |}.

(** The server without authentication and without a log of events. *)
Definition quiet_conf : Conf := {|
  UseSSL := false; HTTPSUrls := false; ProxyHostname := "localhost"; ProxyPort := 4545;
  UsePostgreSQL := false; DotSearch := false; ConvertSearch := false; IndexValTrim := 0; UseAuth := false;
  LogEvents := false; SkipLogExtended := false; TimeSlewDur := 900000000000; JSONReqMaxSize := 1000000;
  ObjMaxSize := 10485760; DisableWebUI := false; UseShovey := true |}.

Definition quiet_serve (w : world (DataStore object) (list string)) (r : Request) : world (DataStore object) (list string) :=
  hs_world (ServeHTTP quiet_conf ascii_only 100 id no_handler r {| hs_world := w; hs_resp := [] |}).2.

Definition quiet_after (w : world (DataStore object) (list string)) (rs : list Request) : world (DataStore object) (list string) :=
  foldl quiet_serve w rs.

Lemma quiet_inv rs w :
  forallb described rs = true → server_inv id w → server_inv id (quiet_after w rs).
Proof.
  revert w. induction rs as [|r rs IH]; intros w Hd Hw; [done|]. cbn in Hd. apply andb_prop in Hd as [Hr Hd].
  apply (IH (quiet_serve w r) Hd). eapply (server_run_inv quiet_conf ascii_only 100 id no_handler); [exact Hw|].
  apply rtc_once. unfold quiet_serve. by apply step_request.
Qed.

Definition accepting (r : Request) : Request :=
  {| r_Method := r_Method r; r_Path := r_Path r; r_Header := [("Accept", ["application/json"])]; r_Content := r_Content r;
     r_Body := r_Body r; r_gunzip := r_gunzip r; r_ContentLength := r_ContentLength r; r_Form := r_Form r; r_Query := r_Query r;
     r_remote := r_remote r; r_forwarded := r_forwarded r; r_opUser := r_opUser r; r_now := r_now r; r_ids := r_ids r;
     r_salt := r_salt r; r_keys := r_keys r |}.

Definition dump_requests : list Request :=
  [send POST "/nodes" [("name", IStr "db1"); ("run_list", IArr [IStr "apt"]); ("normal", IMap [("x", IArr [IStr "y"])])];
   send POST "/roles" [("name", IStr "base"); ("run_list", IArr []); ("env_run_lists", IMap [("prod", IArr [IStr "role[web]"])])];
   accepting (send POST "/environments" [("name", IStr "prod"); ("cookbook_versions", IMap [("apt", IStr ">= 1.0.0")])]);
   send POST "/data" [("name", IStr "bag")];
   ask_for PUT "/file_store/abc" "abc" (inl EmptyString) 3 []].

Definition dump_world : world (DataStore object) (list string) := quiet_after demo_world dump_requests.

Definition demo_dump : ExportData :=
  match exportAll dump_world 5 with Ok d => d | _ => {| MajorVersion := 0; MinorVersion := 0; CreatedTime := 0; ed_Data := [] |} end.

Definition demo_imported : outcome () * world (DataStore object) (list string) :=
  importAll quiet_conf id (λ _, "pepper") demo_dump demo_world0.

Lemma dumpable_by_list {A} `{SA : Stored A} {SL : StoredLaws A} (P : A → Prop)
    (w : world (DataStore object) (list string)) l :
  st_inv (sto w) → kind_wf (A := A) (sto w) → load_list (sto w) = Ok l → Forall P l →
  ∀ k a, load (sto w) k = Ok (Some a) → P a.
Proof.
  intros Hi Hw Hl Hp k a Hk. destruct (load_list_spec (A := A) (sto w) Hi Hw) as (l' & Hl' & Hin).
  assert (l = l') as <- by congruence. rewrite Forall_forall in Hp. apply Hp, Hin. by rewrite (load_name _ _ _ Hi Hw Hk).
Qed.

Lemma run_list_valid l : ValidateRunList (IStrs l) = Ok l → run_list_ok l.
Proof. apply ValidateRunList_items. Qed.

Definition stored_list {A} `{SA : Stored A} (w : world (DataStore object) (list string)) : list A :=
  match load_list (sto w) with Ok l => l | _ => [] end.

(** Every object of a kind has a property: those stored are looked at one by
    one. *)
Ltac one_by_one A P Hi Hw :=
  let l := eval vm_compute in (stored_list (A := A) dump_world) in
  let E := fresh in
  assert (load_list (A := A) (sto dump_world) = Ok l) as E by (vm_compute; reflexivity);
  apply (dumpable_by_list (A := A) P dump_world l Hi Hw E); clear E.

Ltac field := match goal with |- run_list_ok _ => apply run_list_valid | _ => idtac end; vm_compute; reflexivity.

Lemma dump_world_dumpable : dumpable dump_world.
Proof.
  assert (server_inv id dump_world) as Hinv by (apply quiet_inv; [by vm_compute|exact demo_server_inv]).
  destruct Hinv as [[Hi _ _ _] _ [_ Hc Hu _] _ Hn Hr He _ _ _ _ _].
  split_and!.
  - one_by_one Node node_dumpable Hi Hn. refine (Forall_cons_2 _ _ _ _ (Forall_nil_2 _)). split; [field..|split_and!; field].
  - one_by_one Role role_dumpable Hi Hr. refine (Forall_cons_2 _ _ _ _ (Forall_nil_2 _)).
    split; [field|field|refine (Forall_cons_2 _ _ _ _ (Forall_nil_2 _)); split; [field|done]|field|field|split_and!; field].
  - one_by_one ChefEnvironment (λ e, e_Name e ≠ "_default" → env_dumpable e) Hi He. refine (Forall_cons_2 _ _ _ _ (Forall_nil_2 _)). intros _.
    split; [field|field|field|split_and!; field|apply NoDup_singleton|field].
  - one_by_one Client client_dumpable Hi Hc. refine (Forall_cons_2 _ _ _ _ (Forall_cons_2 _ _ _ _ (Forall_nil_2 _))); split; field.
  - one_by_one User user_dumpable Hi Hu. refine (Forall_cons_2 _ _ _ _ (Forall_nil_2 _)). split; field.
Qed.

(** The dump of that server, imported into an empty one. *)
Lemma dump_restores_witness :
  (is_ok (Nodes.Get dump_world "db1") = true ∧ is_ok (Roles.Get dump_world "base") = true ∧
   is_ok (Environments.Get dump_world "prod") = true ∧ is_ok (Filestore.Get (sto dump_world) "abc") = true ∧
   is_ok (DataBags.Get dump_world "bag") = true ∧ is_ok (Users.Get dump_world "ann") = true) ∧
  restored (λ _, "pepper") dump_world demo_imported.2 ∧
  ∀ k, st_get (sto demo_imported.2) "data_bag" k = Ok None.
Proof.
  split; [by vm_compute|].
  assert (exportAll dump_world 5 = Ok demo_dump) as Hex by (vm_compute; reflexivity).
  assert (∀ t k, st_get (sto demo_world0) t k = Ok None) as H0.
  { intros t k. simpl. unfold Datastore.Get. simpl. by rewrite lookup_empty. }
  pose proof (dump_restores quiet_conf id dump_world demo_world0 5 demo_dump (λ _, "pepper")) as Hr. unfold demo_imported.
  destruct (importAll quiet_conf id (λ _, "pepper") demo_dump demo_world0) as [o w'] eqn:E.
  destruct Hr as (Hr & Hb & _).
  - apply quiet_inv; [by vm_compute|exact demo_server_inv].
  - exact dump_world_dumpable.
  - split_and!; vm_compute; reflexivity.
  - exact Hex.
  - apply init_wf.
  - intros t k _. apply H0.
  - cbn [snd]. split; [exact Hr|]. intros k. by rewrite Hb.
Defined.

(** * What a dump loses *)

Definition dump_of (w : world (DataStore object) (list string)) : ExportData :=
  match exportAll w 2000000000000 with
  | Ok d => d
  | _ => {| MajorVersion := 0; MinorVersion := 0; CreatedTime := 0; ed_Data := [] |}
  end.

Definition reimport (w : world (DataStore object) (list string)) : outcome () * world (DataStore object) (list string) :=
  importAll quiet_conf id (λ _, "pepper") (dump_of w) demo_world0.

(** A user's password is no longer accepted: its hash is kept under another
    salt. *)
Example imported_password_refused :
  let w := quiet_after demo_world [send POST "/users" [("name", IStr "bob"); ("password", IStr "secret1")]] in
  let accepts w := (u ← Users.Get w "bob"; CheckPasswd u "secret1") in
  accepts w = Ok () ∧ (reimport w).1 = Ok () ∧ is_ok (Users.Get (reimport w).2 "bob") = true ∧
  is_ok (accepts (reimport w).2) = false.
Proof. by vm_compute. Qed.

(** A sandbox is imported under the empty name. *)
Example imported_sandbox_nameless :
  let sb := {| sb_ID := "sb1"; sb_CreationTime := 0; sb_Completed := false; sb_Checksums := ["abc"] |} in
  let w := set_sto demo_world (Sandboxes.Save (sto demo_world) sb) in
  let w' := (reimport w).2 in
  (reimport w).1 = Ok () ∧ load (sto w') "sb1" = Ok (A := option Sandbox) None ∧
  is_Some (match load (A := Sandbox) (sto w') EmptyString with Ok o => o | _ => None end).
Proof. vm_compute. eauto. Qed.

(** A dump with an event ends the import with a panic, behind the roles. *)
Example imported_event_panics :
  let w := after demo_world [send POST "/roles" [("name", IStr "base")]] in
  (reimport w).1 = Panic TypeAssertion ∧ is_ok (Roles.Get (reimport w).2 "base") = true.
Proof. by vm_compute. Qed.

(** A role with an empty run list for an environment ends the import, which
    reports success: the role and those behind it are missing. *)
Example empty_env_list_ends_import :
  let w := quiet_after demo_world
    [send POST "/roles" [("name", IStr "base"); ("env_run_lists", IMap [("prod", IArr [])])];
     send POST "/roles" [("name", IStr "web")]] in
  is_ok (Roles.Get w "base") = true ∧ is_ok (Roles.Get w "web") = true ∧ (reimport w).1 = Ok () ∧
  is_ok (Roles.Get (reimport w).2 "base") = false ∧ is_ok (Roles.Get (reimport w).2 "web") = false.
Proof. by vm_compute. Qed.

(** A run that has not ended makes the import fail. *)
Example running_report_fails_import :
  let w := set_sto demo_world (Reports.Save (sto demo_world)
    {| rp_RunID := "r1"; rp_StartTime := 0; rp_EndTime := zero_time; rp_TotalResCount := 0; rp_Status := "started";
       rp_RunList := EmptyString; rp_Resources := []; rp_Data := []; rp_NodeName := "db1" |}) in
  (reimport w).1 = Err (Errorf "invalid data").
Proof. by vm_compute. Qed.
